(* ===== verification/_CoqProject ===== *)
-Q . S2P
Prelude.v
Utf8.v
CveId.v
Cidr.v
VersionCompare.v
CpeMatch.v
Sqlite.v
Migrations.v
ScanPersist.v
Json.v
NvdIngest.v
Feed.v
KevIngest.v
Strtod.v
Calendar.v
Strtol.v
Log.v
NvdFetch.v
NvdSync.v
EpssIngest.v
FeedSync.v
NvdCatchup.v
WorkerPool.v
Escape.v
DepGraph.v
LuaFields.v
Plugin.v
Registry.v
PortRange.v
TargetsFile.v
TargetList.v
KbValidate.v
Streams.v
Kb.v
Scheduler.v
Sockets.v
PluginNet.v
PluginApi.v
ServiceDetect.v
TlsInspect.v
HttpGet.v
HostScan.v
Cli.v
ScanWiring.v
ScanMain.v
Report.v
ReportJson.v
ReportCss.v
ReportHtml.v
ReportPage.v
SyncCmd.v
ReportCmd.v
