(* ===== verification/Prelude.v ===== *)
(** * Cytadel Scan: verification development (root)

    Cytadel Scan is a network vulnerability scanner in C.  It expands a scope
    into hosts, scans them on a pool of threads, stores what it sees of a host
    in a knowledge base, runs Lua plugins over it in an order derived from
    their dependencies, matches detected product versions against CPE rows
    that a sync command ingests from NVD into SQLite, and writes HTML and JSON
    reports.  This library models the parts whose logic decides what is
    scanned and what a report says, and proves what makes them correct.

    ** Files

    - [Prelude] (this file): bytes and spans, [double], scanning loops, the
      allocator, tactics and generic lemmas.
    - [Utf8]: scalar values, their encoding, and where an ASCII byte keeps two
      texts apart.

    The scope of a scan:
    - [Cidr]: [src/src/net/cidr.c], IPv4 literals and blocks.
    - [TargetsFile]: [src/src/net/targets_file.c], the lines of a targets file.
    - [TargetList]: [src/src/net/target.c] and [target_list.c], the de-duplicated
      list of targets.
    - [PortRange]: [src/src/net/port_range.c], the [--ports] grammar.

    One host:
    - [KbValidate], [Kb]: [src/src/kb/kb_validate.c] and [src/src/kb/kb.c], the
      knowledge base as a growing hash table.
    - [ServiceDetect]: [src/src/net/service_detect.c], [svc_token.c],
      [svc_ssh.c], [svc_ftp.c], [cpe_map.c], the parser of [http_probe.c]: from
      banners and responses to facts.
    - [Streams]: [src/src/net/banner_grab.c], the requests of [http_probe.c],
      [tls_session.c], [src/src/log/strerror_safe.c]: connections as streams,
      with the descriptors and OpenSSL objects they hold.
    - [TlsInspect]: [src/src/net/tls_inspect.c], the facts of a certificate, and
      [service_detect.c] with its connections.
    - [HostScan]: [src/src/net/host_scan.c], [discovery.c], [tcp_ping.c],
      [tcp_connect.c], [icmp_probe.c], [port_scanner.c], [scan_types.c]: from
      discovery to the plugin schedule.
    - [WorkerPool]: [src/src/core/worker_pool.c], the threads as a step relation.

    Plugins:
    - [DepGraph]: [src/src/plugin/depgraph.c], the run order.
    - [LuaFields]: [src/src/plugin/field_utils.c], reading the fields of a Lua
      table, in a state and error monad.
    - [Plugin]: [src/src/plugin/register.c], [plugin_header.c], [loader.c], what
      one file registers.
    - [Registry]: [src/src/plugin/registry.c], the directory of plugins.
    - [Scheduler]: [src/src/plugin/scheduler.c], the run over one host.
    - [Sockets]: [src/src/plugin/fd_tracker.c], [socket_close] of
      [api_socket.c], the end of [invoke.c], [timeout_clamp.c].
    - [PluginNet]: [src/src/plugin/api_socket.c], the functions of a socket and
      the address they dial.
    - [HttpGet]: [src/src/plugin/api_http.c], [http_get]: the request byte by
      byte, the exchange, the parser of the response.
    - [PluginApi]: [src/src/plugin/finding.c], [api_report.c], [api_kb.c].

    Vulnerabilities and the database:
    - [CveId]: [src/src/db/cve_id_valid.h], the grammar of CVE identifiers.
    - [VersionCompare]: [src/src/match/version_compare.c], the comparator of
      product versions ([next_token], [compare_loop], the residual walk, the
      entry point [version_compare]).
    - [CpeMatch]: [src/src/match/cpe_match.c], one candidate row against one
      version ([cpe_match_evaluate], [cpe_evaluate_range_row]).
    - [Sqlite]: the database connection as a class [Sqlite] with its laws
      [SqliteLaws], the tables as the record [database], and an executable
      connection that satisfies the laws.
    - [Migrations]: [src/src/db/db_migrations.c], [db.c], the schema versions.
    - [ScanPersist]: [src/src/db/scan_persist.c], the aggregation of the rows of a
      CVE to one verdict, the detection that writes one result per CVE
      ([detect_and_persist]), direct findings, the life of a scan.
    - [ScanWiring]: [src/src/cli/scan_wiring.c], the gate that opens the database
      and writes the row of the scan, and the persist phase of a host.
    - [Json]: the tree cJSON builds, and the typed lookups.
    - [NvdIngest], [NvdSync], [NvdCatchup]: [src/src/db/nvd_ingest.c],
      [nvd_sync.c], [nvd_catchup.c]: one page ([ingest_page]), the pages of one
      window ([sync_window]), the windows up to the current time ([catchup]).
    - [Calendar]: the civil calendar and the instants of
      [src/src/db/nvd_catchup.c].
    - [Feed], [KevIngest], [Strtod], [EpssIngest], [FeedSync]:
      [src/src/db/kev_ingest.c], [kev_sync.c], [epss_ingest.c], [epss_sync.c],
      the ingest both feeds share over a class, its two instances, the decimal
      parser of the probabilities, and the pages of the feeds.

    Reports:
    - [Escape]: [src/src/report/escape.c], the output buffer and the escapers.
    - [Report]: what both renderers share: rows, counts, numbers, writers.
    - [ReportJson]: [src/src/report/report_json.c], and a reader of JSON.
    - [ReportCss], [ReportHtml]: [src/src/report/report_html.c], the style sheet
      and the renderer.
    - [ReportPage]: what the HTML page holds, read as a browser does.

    The program:
    - [Strtol]: [strtol] and its uses.
    - [Log]: [src/src/log/log.c], levels, timestamps and lines.
    - [NvdFetch]: [src/src/net/nvd_fetch.c], the requests, retries and waits of
      a fetch.
    - [Cli]: [src/src/cli/cli_args.c], [auth_gate.c], the options of
      [report_cmd.c] and [sync_cmd.c].
    - [ScanMain]: [src/src/cli/main.c], a scan from the command line to the exit
      code.
    - [SyncCmd]: [src/src/cli/sync_cmd.c], the pull of the three feeds.  A fetch
      hands its body over as a block, and each driver ([NvdSync], [FeedSync])
      frees it where the code does, path by path.
    - [ReportCmd]: [src/src/cli/report_cmd.c] and
      [src/src/report/report_scan_lookup.c].

    ** Conventions

    Definitions keep the names of the code without the [cytadel_] prefix.
    Integers are [Z], with the wrap-around written out where a value can reach
    the end of its type ([atomic_size_t] in [WorkerPool], in-degrees in
    [DepGraph], lengths in [Escape], the ICMP checksum in [HostScan]); a
    NUL-terminated string is the list of its bytes, a [(pointer, length)]
    argument a [span].  State is passed explicitly: the heap (whose [oracle]
    lets any allocation fail and whose [live] counts blocks), the connection,
    the output buffer, the table, the descriptors.  Errors are the status
    enumerations of the code.  Undefined behaviour is a [None] that theorems
    show unreachable, or reachable where it is.  Log calls, and what is printed
    for the operator, are left out of the functions that make them; [Log]
    models the line that a call writes.

    ** How the parts meet

    [HostScan] composes discovery, the port scan, [ServiceDetect] and
    [Scheduler] over one [Kb]; the invocation of a plugin is a parameter whose
    contract [PluginApi] and [Sockets] describe.  [Registry] composes [Plugin]
    and [DepGraph].  [ScanPersist] evaluates rows with [CpeMatch], which
    reaches the comparator only through [version_compare]; the rows are those
    [NvdIngest] wrote, and [nvd_rows_evaluate] shows that the evaluator is
    defined on each of them.  [NvdIngest], [NvdSync] and [NvdCatchup] are
    layers: the catch-up advances a watermark only past windows all of whose
    pages were committed.  All of them, [ScanPersist] and the feeds are clients
    of the class [Sqlite]; their theorems hold for any connection with the
    laws.
    [Streams] is the floor of every connection: [PluginNet] and [HttpGet] use its
    streams and its TLS sessions, and [TlsInspect] runs [ServiceDetect] over
    them ([detection_over_connections]).  [ScanMain] composes [Cli],
    [ScanWiring], [Registry], [TargetList], the pool and [ScanPersist];
    [SyncCmd] composes [Migrations], [NvdFetch] and the three drivers;
    [ReportCmd] composes [Migrations] and the two renderers, which write
    through the escapers of [Escape].

    ** Theorems

    - Matching: the comparator is total and equals its specification on
      classified components, it is antisymmetric and has no cycle of strict
      verdicts; a row is the Kleene conjunction of its bounds, and what matches
      a range is convex.
    - Persistence: detection refines a specification that groups the rows by
      CVE; writes are atomic, keep foreign keys, and fail with the database as
      it was; migrations run step by step and keep every row.
    - Ingest and sync: a page or a feed is written whole or not at all;
      ingesting it again changes nothing; the watermark never passes a page
      that is not there; the requests of a window are bounded; catching up
      terminates, stays chronological, and ends at the current time when every
      window succeeds.  The calendar arithmetic is the Gregorian calendar, a
      probability is the nearest double.
    - Scope: the target list is exactly the expansion of its tokens without
      duplicates; port specifications select exactly the ports of their
      tokens.
    - Hosts: a scan records what it probed and nothing else, probes the
      services of open ports only, and leaks nothing; the response parser stays
      in bounds on any bytes.
    - Worker pool: in every interleaving no two workers share a target, every
      target is scanned exactly once as soon as one thread could be created,
      and the pool terminates without deadlock.
    - Plugins: the registry holds the first valid header of each id in the
      earliest order that respects dependencies; a plugin never runs without
      what it requires; an invocation closes the descriptors it opened and no
      other, whatever order finalizers run in and whatever they open; a report
      is all or nothing.
    - Escaping: a browser reads back exactly the value and stops where the
      template goes on; URLs keep an allowed scheme and no other; JSON strings
      round-trip; an allocation failure never cuts an escape sequence.
    - Knowledge base: the table refines a finite map, with its limits and
      every pattern of failing allocations; keys and values are validated as
      documented (UTF-8 included).
    - Reports: the JSON report reads back as the scan and its findings, and is
      UTF-8, so a valid document, exactly when their texts are; the HTML report
      lists every finding once under its host, calls a host clean only when all
      its findings are ruled out, and no value adds markup to it; the command
      delivers the report of the database it was given, a file of it whole or
      not at all.
    - Connections: detection sends nothing but one fixed request, and closes
      what it opens; the facts of a certificate are stored whole or not at all;
      the sockets of a plugin dial the address of the scan only and have bounded
      waits and buffers; [http_get] sends one well-formed request with the headers it was given, and its answer is
      the one a reader of the response finds.
    - Fetching: every fetch ends within its budget, verifies its peer, sends no
      header of ours but the User-Agent and the key of the NVD, keeps that key
      where it belongs, and leaves no buffer, handle, header list or escaped
      string behind, which holds for a whole run of the sync command.
    - The program: nothing is scanned or asked of a name server before an
      explicit authorisation is on record (the flag, or a line that reads yes up
      to its end or its first NUL, which is where the program takes it to end); a scan that started is finalized; the
      options print and parse back; a log call writes one line, whatever the
      message holds.

    ** Fuel and bounds

    [version_compare] gives its loops one more than the length of its first
    argument, which [version_compare_total] shows to be enough.  [window_loop] counts
    down the page cap and [port_tokens] the token cap, which the code has
    itself.  [catchup] runs with one more than the window cap.  [kahn] counts
    down [count - placed_count].  [grow_cap] has 64 doublings, enough for a
    64-bit size ([grow_cap_fuel]).  [fold_carries] has three rounds
    ([fold_carries_done]); the loops of the response parser have the length of
    the response ([scan_while_spec], [header_loop_spec]).

    ** Parameters

    The JSON parser, the transport that fetches a page, SQLite, name
    resolution, what the system calls of a connection attempt answer, what a
    port sends, the Lua machine (what a file does with [register], one
    invocation of a plugin) and OpenSSL are arbitrary functions or relations;
    the laws of SQLite transactions, that a connection just opened is outside
    one, that the stored findings satisfy the CHECK constraints of their table
    (for the reports), and that plugins keep the knowledge base well formed,
    are hypotheses; that [tls_inspect.c] does is proved in [TlsInspect].  A
    database file is otherwise any file.  [NvdFetch] gives the transport of the
    sync command, whose own parameter is what libcurl answers; its easy handle,
    the nodes of a header list and an escaped string are blocks of the heap, as
    its documentation says who releases them.  The strings that [open_sock_tcp],
    [send] and [recv] push may find Lua out of memory; those of [http_get] do
    not.  The order of an [ORDER BY], the
    columns that hold clock times ([report_view]) and the generated data URI of
    the logo are parameters of the reports; the size of a row of the HTML
    report ([sizeof_finding_row]) is that of an LP64 machine.

    ** Not modelled, and why

    The Lua virtual machine and the calls that set it up ([sandbox.c], the
    metatables, [api_log.c], the harness of [debug_support.c]) are third-party
    code and glue over it.  [capability.c] and [scan_backend.c] hold one system
    call and one constant.  The headers under [src/include] declare what the
    modelled files define.  The texts that are printed for the operator (the
    usage messages and the summary of [main.c]) and the log calls carry no
    state. *)

From Stdlib Require Export ZArith Lia Permutation Ascii String.
From stdpp Require Export base option list sorting gmap strings.

#[export] Set Default Goal Selector "!".
Open Scope Z_scope.

(** ** Bytes and byte strings

    An [unsigned char] is a [Z]; a [(pointer, length)] pair or a
    NUL-terminated string is the list of its bytes. *)

Abbreviation byte := Z.
Abbreviation bytes := (list Z).

Definition byte_ok (c : byte) : Prop := 0 <= c < 256.

(** The bytes of an ASCII literal. *)
Fixpoint bs (s : string) : bytes :=
  match s with
  | EmptyString => []
  | String a s' => Z.of_N (N_of_ascii a) :: bs s'
  end.

(** A [(pointer, length)] argument: either [NULL] with the length that came
    with it, or a readable buffer. *)
Inductive span :=
  | NullSpan (len : Z)
  | Span (buf : bytes).

(** The bytes a callee may read through the span. *)
Definition span_bytes (s : span) : bytes :=
  match s with NullSpan _ => [] | Span b => b end.

(** [memcmp] on two buffers of the same length (sign of the first
    difference). *)
Fixpoint memcmp (a b : bytes) : Z :=
  match a, b with
  | x :: a', y :: b' =>
      if x =? y then memcmp a' b' else if x <? y then -1 else 1
  | _, _ => 0
  end.

(** The [while (p < len && f(s[p])) p++] loop: the bytes it passes over and
    the rest. *)
Fixpoint take_while (f : byte -> bool) (l : bytes) : bytes :=
  match l with
  | c :: l' => if f c then c :: take_while f l' else []
  | [] => []
  end.

Fixpoint drop_while (f : byte -> bool) (l : bytes) : bytes :=
  match l with
  | c :: l' => if f c then drop_while f l' else l
  | [] => []
  end.

(** The fields of a string between the bytes [sep]; there is at least one. *)
Fixpoint split_on (sep : byte) (s : bytes) : list bytes :=
  match s with
  | [] => [[]]
  | ch :: s =>
      if ch =? sep then [] :: split_on sep s
      else match split_on sep s with f :: fs => (ch :: f) :: fs | [] => [[ch]] end
  end.

(** Bytewise order on strings, a prefix first. *)
Fixpoint bytes_leb (a b : bytes) : bool :=
  match a, b with
  | [], _ => true
  | _ :: _, [] => false
  | x :: a', y :: b' => if x <? y then true else if x =? y then bytes_leb a' b' else false
  end.

(** The same as a relation, for sorting. *)
Definition bytes_le (a b : bytes) : Prop := bytes_leb a b = true.
#[export] Instance bytes_le_dec a b : Decision (bytes_le a b) := decide (bytes_leb a b = true).

(** The sign of [strcmp]. *)
Fixpoint strcmp (a b : bytes) : Z :=
  match a, b with
  | [], [] => 0
  | [], _ :: _ => -1
  | _ :: _, [] => 1
  | x :: a', y :: b' => if x =? y then strcmp a' b' else if x <? y then -1 else 1
  end.

(** [isspace] in the C locale, [isspace]-trimming of both ends. *)
Definition is_space (c : byte) : bool := ((9 <=? c) && (c <=? 13)) || (c =? 32).

Definition trim_right_while (f : byte -> bool) (s : bytes) : bytes := rev (drop_while f (rev s)).

Definition trim_spaces (s : bytes) : bytes := trim_right_while is_space (drop_while is_space s).

(** What a string function sees of a buffer. *)
Definition c_string (s : bytes) : bytes := take_while (fun c => negb (c =? 0)) s.

(** [%ld]: at most 19 digits. *)
Fixpoint dec_loop (fuel : nat) (n : Z) (acc : bytes) : bytes :=
  match fuel with
  | O => acc
  | S fuel => let acc := (48 + n mod 10) :: acc in if n <? 10 then acc else dec_loop fuel (n / 10) acc
  end.

Definition print_dec (n : Z) : bytes :=
  if n <? 0 then 45 :: dec_loop 20 (- n) [] else dec_loop 20 n [].

(** ** Doubles

    A C [double] as the program uses it: stored, read back, compared with
    integer constants and truncated.  [Dyadic m e] is m * 2^e. *)
Inductive double := Dyadic (m e : Z) | Infinite (negative : bool) | NaN.

#[export] Instance double_eq_dec : EqDecision double.
Proof. solve_decision. Defined.

(** [d <= c], [d < c] and [c <= d] for an integer constant [c]; a comparison
    with a NaN is false. *)
Definition double_le (d : double) (c : Z) : bool :=
  match d with
  | Dyadic m e => m * 2 ^ Z.max 0 e <=? c * 2 ^ Z.max 0 (- e)
  | Infinite negative => negative
  | NaN => false
  end.

Definition double_lt (d : double) (c : Z) : bool :=
  match d with
  | Dyadic m e => m * 2 ^ Z.max 0 e <? c * 2 ^ Z.max 0 (- e)
  | Infinite negative => negative
  | NaN => false
  end.

Definition double_ge (d : double) (c : Z) : bool :=
  match d with
  | Dyadic m e => c * 2 ^ Z.max 0 (- e) <=? m * 2 ^ Z.max 0 e
  | Infinite negative => negb negative
  | NaN => false
  end.

(** [(long)d], towards zero; undefined in C out of range, so only used where
    the range was checked. *)
Definition double_trunc (d : double) : Z :=
  match d with
  | Dyadic m e => Z.quot (m * 2 ^ Z.max 0 e) (2 ^ Z.max 0 (- e))
  | _ => 0
  end.

(** [isfinite] *)
Definition double_finite (d : double) : bool :=
  match d with Dyadic _ _ => true | _ => false end.

Lemma double_trunc_range d lo hi :
  double_ge d lo = true -> double_le d hi = true -> 0 <= lo ->
  lo <= double_trunc d <= hi.
Proof.
  destruct d as [m e|n|]; simpl; [|destruct n; discriminate|discriminate].
  rewrite !Z.leb_le. intros Hl Hh H0.
  pose proof (Z.pow_pos_nonneg 2 (Z.max 0 (- e)) ltac:(lia) ltac:(lia)) as Hp.
  rewrite Z.quot_div_nonneg by nia.
  split; [apply Z.div_le_lower_bound; lia|apply Z.div_le_upper_bound; lia].
Qed.

(** ** Tactics *)

(** Destructs the scrutinee of an [if] or [match] of the goal or of a
    hypothesis, keeping the equation. *)
Ltac case_match_eqn :=
  match goal with
  | |- context [match ?x with _ => _ end] => destruct x eqn:?
  | H : context [match ?x with _ => _ end] |- _ => destruct x eqn:?
  end.

(** Reflects the boolean comparisons of the context and the goal on [Z],
    then calls [lia]. *)
Ltac breflect :=
  repeat match goal with
  | H : (_ && _)%bool = true |- _ => apply andb_prop in H as [? ?]
  | H : (_ || _)%bool = false |- _ => apply orb_false_elim in H as [? ?]
  | H : (_ && _)%bool = false |- _ => apply andb_false_iff in H
  | H : (_ || _)%bool = true |- _ => apply orb_true_iff in H
  | H : negb _ = true |- _ => apply negb_true_iff in H
  | H : negb _ = false |- _ => apply negb_false_iff in H
  | H : (_ <? _) = true |- _ => apply Z.ltb_lt in H
  | H : (_ <? _) = false |- _ => apply Z.ltb_ge in H
  | H : (_ <=? _) = true |- _ => apply Z.leb_le in H
  | H : (_ <=? _) = false |- _ => apply Z.leb_gt in H
  | H : (_ =? _) = true |- _ => apply Z.eqb_eq in H
  | H : (_ =? _) = false |- _ => apply Z.eqb_neq in H
  | H : Nat.eqb _ _ = true |- _ => apply Nat.eqb_eq in H
  | H : Nat.eqb _ _ = false |- _ => apply Nat.eqb_neq in H
  end.

Ltac zbool := breflect; lia.

(** ** Lists *)

Lemma take_drop_while f l : take_while f l ++ drop_while f l = l.
Proof. induction l as [|c l IH]; simpl; [done|]. destruct (f c); simpl; congruence. Qed.

Lemma take_while_all f l : Forall (fun c => f c = true) (take_while f l).
Proof. induction l as [|c l IH]; simpl; [constructor|]. destruct (f c) eqn:?; by constructor. Qed.

Lemma drop_while_head f l c l' : drop_while f l = c :: l' -> f c = false.
Proof.
  induction l as [|x l IH]; simpl; [done|].
  destruct (f x) eqn:E; [done|]. intros [= <- <-]. done.
Qed.

Lemma take_while_app f l r :
  Forall (fun c => f c = true) l -> take_while f (l ++ r) = l ++ take_while f r.
Proof. induction 1 as [|c l Hc _ IH]; simpl; [done|]. by rewrite Hc, IH. Qed.

Lemma drop_while_app f l r :
  Forall (fun c => f c = true) l -> drop_while f (l ++ r) = drop_while f r.
Proof. induction 1 as [|c l Hc _ IH]; simpl; [done|]. by rewrite Hc, IH. Qed.

Lemma length_drop_while f l : (length (drop_while f l) <= length l)%nat.
Proof. induction l as [|c l IH]; simpl; [lia|]. destruct (f c); simpl; lia. Qed.

Lemma length_take_drop_while f l :
  (length (take_while f l) + length (drop_while f l) = length l)%nat.
Proof. rewrite <- length_app. by rewrite take_drop_while. Qed.

Lemma split_on_cons sep s : exists f fs, split_on sep s = f :: fs.
Proof.
  destruct s as [|ch s]; simpl; [by eexists _, _|].
  destruct (ch =? sep); [by eexists _, _|]. destruct (split_on sep s); by eexists _, _.
Qed.

(** The first field is what a scan up to the separator passes over. *)
Lemma split_on_scan sep s :
  let f := fun c => negb (c =? sep) in
  split_on sep s = take_while f s :: match drop_while f s with [] => [] | _ :: r => split_on sep r end.
Proof.
  induction s as [|ch s IH]; simpl; [done|]. destruct (ch =? sep); simpl; [done|].
  cbv zeta in IH. rewrite IH. done.
Qed.

Lemma memcmp_range a b : memcmp a b = -1 \/ memcmp a b = 0 \/ memcmp a b = 1.
Proof.
  revert b; induction a as [|x a IH]; intros [|y b]; simpl; auto.
  destruct (x =? y); auto. destruct (x <? y); auto.
Qed.

Lemma take_drop_while_id f l :
  Forall (fun c => f c = true) l -> take_while f l = l /\ drop_while f l = [].
Proof. induction 1 as [|c l Hc _ [IH1 IH2]]; simpl; [done|]. by rewrite Hc, IH1, IH2. Qed.

Lemma c_string_id l : Forall (fun c => c <> 0) l -> c_string l = l.
Proof.
  intros H. unfold c_string. apply take_drop_while_id. eapply Forall_impl; [exact H|].
  intros c Hc. apply negb_true_iff. by apply Z.eqb_neq.
Qed.

Lemma c_string_no_nul s : 0 ∉ c_string s.
Proof.
  intros H. unfold c_string in H. pose proof (take_while_all (fun c => negb (c =? 0)) s) as HA.
  rewrite Forall_forall in HA. by specialize (HA 0 H).
Qed.

(** A C string ends with its bytes or at the first NUL. *)
Lemma c_string_split l : l = c_string l \/ exists r, l = c_string l ++ 0 :: r.
Proof.
  unfold c_string. pose proof (take_drop_while (fun c => negb (c =? 0)) l) as E.
  destruct (drop_while _ l) as [|c r] eqn:Ed; [left; by rewrite app_nil_r in E|right].
  apply drop_while_head in Ed as Hc. apply negb_false_iff, Z.eqb_eq in Hc as ->. by exists r.
Qed.

Lemma c_string_nul a r : 0 ∉ a -> c_string (a ++ 0 :: r) = a.
Proof.
  intros Ha. unfold c_string. rewrite take_while_app; [cbn; apply app_nil_r|].
  apply Forall_forall. intros x Hx. apply negb_true_iff, Z.eqb_neq. by intros ->.
Qed.

Lemma c_string_app_nul l r : 0 ∈ l -> c_string (l ++ r) = c_string l.
Proof.
  intros H. destruct (c_string_split l) as [E|[x E]]; [rewrite E in H; by apply c_string_no_nul in H|].
  rewrite E at 1. rewrite <- app_assoc. apply (c_string_nul (c_string l) (x ++ r)), c_string_no_nul.
Qed.

Lemma c_string_is w l : 0 ∉ w -> c_string l = w <-> l = w \/ exists more, l = w ++ 0 :: more.
Proof.
  intros Hw. split.
  - intros <-. apply c_string_split.
  - intros [->|[more ->]]; [|by apply c_string_nul]. apply c_string_id, Forall_forall. by intros x Hx ->.
Qed.

(** A cut behind the end of a C string is not seen. *)
Lemma c_string_take_short n w l : (length w < n)%nat -> c_string (take n l) = w <-> c_string l = w.
Proof.
  intros Hn. assert (HI : forall k, c_string k = w -> 0 ∉ w) by (intros k <-; apply c_string_no_nul).
  split; intros E; pose proof (HI _ E) as Hw; rewrite c_string_is in E by done; rewrite c_string_is by done.
  - destruct E as [E|[more E]].
    + left. rewrite take_ge in E; [done|]. apply (f_equal length) in E. rewrite length_take in E. lia.
    + right. exists (more ++ drop n l). rewrite <- (take_drop n l) at 1. rewrite E, <- app_assoc. done.
  - destruct E as [->|[more ->]]; [left; apply take_ge; lia|right].
    rewrite take_app_ge by lia. destruct (n - length w)%nat as [|k] eqn:Ek; [lia|]. by exists (take k more).
Qed.

Lemma existsb_permutation {A} (f : A -> bool) l k :
  Permutation l k -> existsb f l = existsb f k.
Proof.
  induction 1; simpl; try congruence.
  by rewrite !orb_assoc, (orb_comm (f _) (f _)).
Qed.

Lemma existsb_false {A} (f : A -> bool) l :
  existsb f l = false <-> (forall x, x ∈ l -> f x = false).
Proof.
  induction l as [|y l IH]; simpl.
  - split; [intros _ x H; by inversion H|done].
  - rewrite orb_false_iff, IH. setoid_rewrite elem_of_cons. naive_solver.
Qed.

Lemma existsb_true {A} (f : A -> bool) l :
  existsb f l = true <-> exists x, x ∈ l /\ f x = true.
Proof.
  induction l as [|y l IH]; simpl.
  - split; [done|]. intros (x & H & _). by inversion H.
  - rewrite orb_true_iff, IH. setoid_rewrite elem_of_cons. naive_solver.
Qed.

Lemma filter_id_all {A} (P : A -> Prop) `{forall x, Decision (P x)} (l : list A) :
  (forall x, x ∈ l -> P x) -> filter P l = l.
Proof.
  induction l as [|x l IH]; intros Hall; [done|]. rewrite filter_cons_True.
  - f_equal. apply IH. intros. apply Hall. by right.
  - apply Hall. by left.
Qed.

Lemma filter_none {A} (P : A -> Prop) `{forall x, Decision (P x)} (l : list A) :
  (forall x, x ∈ l -> ~ P x) -> filter P l = [].
Proof.
  induction l as [|x l IH]; intros Hall; [done|]. rewrite filter_cons_False.
  - apply IH. intros. apply Hall. by right.
  - apply Hall. by left.
Qed.

(** *** Decimal numbers *)

Lemma split_on_app sep a b : split_on sep (a ++ sep :: b) = split_on sep a ++ split_on sep b.
Proof.
  induction a as [|c a IH]; cbn [app split_on]; [by rewrite Z.eqb_refl|]. destruct (c =? sep); [by rewrite IH|].
  rewrite IH. destruct (split_on_cons sep a) as (f & fs & ->). done.
Qed.

Lemma split_on_none sep s : (forall c, c ∈ s -> c <> sep) -> split_on sep s = [s].
Proof.
  induction s as [|c s IH]; intros H; cbn [split_on]; [done|].
  rewrite (proj2 (Z.eqb_neq c sep)) by (apply H; by left). rewrite IH; [done|]. intros d Hd. apply H. by right.
Qed.

Definition digit_value (n : Z) (c : byte) : Z := n * 10 + (c - 48).

Lemma dec_loop_value fuel n acc :
  0 <= n < 10 ^ Z.of_nat fuel -> fuel <> O -> foldl digit_value 0 (dec_loop fuel n acc) = foldl digit_value n acc.
Proof.
  revert n acc; induction fuel as [|fuel IH]; intros n acc Hn Hf; [done|]. cbn [dec_loop].
  pose proof (Z.div_mod n 10 ltac:(lia)) as Hdm. pose proof (Z.mod_pos_bound n 10 ltac:(lia)) as Hm.
  destruct (Z.ltb_spec n 10) as [Hlt|Hge].
  - cbn [foldl]. f_equal. unfold digit_value. rewrite Z.mod_small by lia. lia.
  - rewrite Nat2Z.inj_succ, Z.pow_succ_r in Hn by lia. rewrite IH.
    + cbn [foldl]. f_equal. unfold digit_value. lia.
    + split; [apply Z.div_pos; lia|]. apply Z.div_lt_upper_bound; lia.
    + intros ->. cbn in Hn. lia.
Qed.

Lemma dec_loop_digits fuel n acc :
  0 <= n -> Forall (fun c => 48 <= c <= 57) acc -> Forall (fun c => 48 <= c <= 57) (dec_loop fuel n acc).
Proof.
  revert n acc; induction fuel as [|fuel IH]; intros n acc Hn Ha; cbn [dec_loop]; [done|].
  pose proof (Z.mod_pos_bound n 10 ltac:(lia)).
  destruct (n <? 10); [|apply IH; [by apply Z.div_pos|]]; constructor; try done; lia.
Qed.

Lemma dec_loop_nonempty fuel n acc : acc <> [] \/ fuel <> O -> dec_loop fuel n acc <> [].
Proof.
  revert n acc; induction fuel as [|fuel IH]; intros n acc H; cbn [dec_loop]; [by destruct H|].
  destruct (n <? 10); [done|]. apply IH. by left.
Qed.

Lemma dec_loop_length fuel n acc (k : nat) :
  0 <= n < 10 ^ Z.of_nat k -> k <> O -> (length (dec_loop fuel n acc) <= k + length acc)%nat.
Proof.
  revert fuel n acc; induction k as [|k IH]; intros fuel n acc Hn Hk; [done|]. destruct fuel as [|fuel]; cbn [dec_loop]; [lia|].
  destruct (Z.ltb_spec n 10) as [|Hge]; [cbn; lia|]. rewrite Nat2Z.inj_succ, Z.pow_succ_r in Hn by lia.
  assert (k <> O) by (intros ->; cbn in Hn; lia).
  specialize (IH fuel (n / 10) ((48 + n mod 10) :: acc)). cbn [length] in IH.
  assert (0 <= n / 10 < 10 ^ Z.of_nat k) by (split; [apply Z.div_pos; lia|apply Z.div_lt_upper_bound; lia]). lia.
Qed.

(** [%u] and back. *)
Lemma print_dec_value n : 0 <= n < 10 ^ 20 -> foldl digit_value 0 (print_dec n) = n.
Proof.
  intros Hn. unfold print_dec. destruct (Z.ltb_spec n 0); [lia|]. by rewrite dec_loop_value.
Qed.

Lemma print_dec_digits n : 0 <= n -> print_dec n <> [] /\ Forall (fun c => 48 <= c <= 57) (print_dec n).
Proof.
  intros Hn. unfold print_dec. destruct (Z.ltb_spec n 0); [lia|]. split; [apply dec_loop_nonempty; by right|by apply dec_loop_digits].
Qed.

(** ** String order *)

Lemma bytes_leb_total a b : bytes_leb a b = true \/ bytes_leb b a = true.
Proof.
  revert b; induction a as [|x a IH]; intros [|y b]; simpl; auto.
  destruct (Z.ltb_spec x y), (Z.ltb_spec y x), (Z.eqb_spec x y), (Z.eqb_spec y x); auto; lia.
Qed.

Lemma bytes_leb_antisym a b : bytes_leb a b = true -> bytes_leb b a = true -> a = b.
Proof.
  revert b; induction a as [|x a IH]; intros [|y b]; simpl; try done.
  destruct (Z.ltb_spec x y), (Z.ltb_spec y x), (Z.eqb_spec x y), (Z.eqb_spec y x);
    try done; try lia. intros. f_equal; auto.
Qed.

Lemma bytes_leb_trans a b c : bytes_leb a b = true -> bytes_leb b c = true -> bytes_leb a c = true.
Proof.
  revert b c; induction a as [|x a IH]; intros [|y b] [|z c]; simpl; try done.
  destruct (Z.ltb_spec x y), (Z.ltb_spec y z), (Z.ltb_spec x z), (Z.eqb_spec x y), (Z.eqb_spec y z),
    (Z.eqb_spec x z); try done; try lia. apply IH.
Qed.

#[export] Instance bytes_le_total : Total bytes_le.
Proof. exact bytes_leb_total. Qed.

#[export] Instance bytes_le_trans : Transitive bytes_le.
Proof. exact bytes_leb_trans. Qed.

Lemma strcmp_eq a b : strcmp a b = 0 <-> a = b.
Proof.
  revert b; induction a as [|x a IH]; intros [|y b]; simpl; try done. destruct (Z.eqb_spec x y) as [->|Hne].
  - rewrite IH. split; congruence.
  - split; [by destruct (x <? y)|intros [=]; done].
Qed.

Lemma strcmp_neg a b : strcmp a b < 0 <-> bytes_leb a b = true /\ a <> b.
Proof.
  revert b; induction a as [|x a IH]; intros [|y b]; simpl; try (split; [lia|intros [? ?]; done]); [split; [done|lia]|].
  destruct (Z.eqb_spec x y) as [->|Hne].
  - rewrite Z.ltb_irrefl, IH. split; intros [H1 H2]; (split; [done|congruence]).
  - destruct (x <? y).
    + split; [intros _; split; [done|congruence]|lia].
    + split; [lia|by intros [? _]].
Qed.

(** ** The allocator

    [malloc] and [calloc] may fail at any call: [oracle] lists the outcomes
    to come (an exhausted list means success), and every theorem holds for
    all of them.  [live] counts the blocks that are allocated and not yet
    freed. *)
Record heap := Heap { oracle : list bool; live : Z }.

Definition malloc (h : heap) : bool * heap :=
  match oracle h with
  | [] => (true, Heap [] (live h + 1))
  | true :: o => (true, Heap o (live h + 1))
  | false :: o => (false, Heap o (live h))
  end.

(** [free] of a block, or of NULL when the flag is false. *)
Definition free_block (h : heap) : heap := Heap (oracle h) (live h - 1).
Definition free_if (b : bool) (h : heap) : heap := if b then free_block h else h.

(** [realloc] of a block, or of NULL when the flag is false. *)
Definition realloc (had_block : bool) (h : heap) : bool * heap :=
  let '(ok, h') := malloc h in
  if ok && had_block then (true, free_block h') else (ok, h').

Lemma malloc_live h ok h' : malloc h = (ok, h') -> live h' = live h + (if ok then 1 else 0).
Proof. unfold malloc. destruct (oracle h) as [|[] o]; intros [= <- <-]; simpl; lia. Qed.

(** An allocation that can still fail is listed in the oracle. *)
Lemma malloc_oracle h ok h' :
  malloc h = (ok, h') ->
  (ok = false -> false ∈ oracle h) /\ (forall b, b ∈ oracle h' -> b ∈ oracle h).
Proof.
  unfold malloc. destruct (oracle h) as [|b o] eqn:E; [by intros [= <- <-]|].
  destruct b; intros [= <- <-]; simpl; (split; [try done; intros _; by left|by right]).
Qed.

Lemma realloc_spec had h ok h' :
  realloc had h = (ok, h') ->
  live h' = live h + (if ok && negb had then 1 else 0) /\
  (ok = false -> false ∈ oracle h) /\ (forall b, b ∈ oracle h' -> b ∈ oracle h).
Proof.
  unfold realloc. destruct (malloc h) as [ok1 h1] eqn:E.
  pose proof (malloc_live _ _ _ E) as Hl. pose proof (malloc_oracle _ _ _ E) as [H1 H2].
  destruct ok1, had; simpl; intros [= <- <-]; simpl in *; split_and!; (done || lia).
Qed.

(** While no allocation can fail. *)
Lemma malloc_ok h :
  false ∉ oracle h -> exists h', malloc h = (true, h') /\ live h' = live h + 1 /\ false ∉ oracle h'.
Proof.
  intros Ho. destruct (malloc h) as [ok h'] eqn:E. destruct (malloc_oracle _ _ _ E) as [H1 H2].
  pose proof (malloc_live _ _ _ E) as Hl. destruct ok.
  - exists h'. split_and!; [done|done|]. intros Hf. by apply Ho, H2.
  - destruct Ho. by apply H1.
Qed.

Lemma realloc_ok had h :
  false ∉ oracle h ->
  exists h', realloc had h = (true, h') /\ live h' = live h + (if had then 0 else 1) /\ false ∉ oracle h'.
Proof.
  intros Ho. unfold realloc. destruct (malloc_ok h Ho) as (h' & -> & Hl & Ho'). destruct had; cbn.
  - eexists. split; [done|]. split; [cbn; lia|done].
  - by exists h'.
Qed.

(** [memcpy] of [text] after the bytes [buf] of a buffer of [cap] bytes: [None]
    when it does not fit. *)
Definition put (cap : Z) (text buf : bytes) : option bytes :=
  if Z.of_nat (length buf + length text) <=? cap then Some (buf ++ text) else None.

Lemma put_ok cap text buf : Z.of_nat (length buf + length text) <= cap -> put cap text buf = Some (buf ++ text).
Proof. intros H. unfold put. by rewrite (proj2 (Z.leb_le _ _) H). Qed.

(** Splits on the outcome of an allocation, with what it does to the count of
    the blocks and to the oracle. *)
Ltac malloc_case h ok h' Hlive Hfail Horacle :=
  let E := fresh in
  destruct (malloc h) as [ok h'] eqn:E;
  pose proof (malloc_live _ _ _ E) as Hlive;
  pose proof (malloc_oracle _ _ _ E) as [Hfail Horacle].

(** ** Automation

    [autorewrite with scan] computes the scanning loops of the parsers over a
    concatenation whose first part they pass over; [auto with alloc] reads
    the oracle. *)
Create HintDb scan.
#[export] Hint Rewrite take_while_app drop_while_app using done : scan.

Create HintDb alloc.
#[export] Hint Extern 1 (_ ∈ oracle _) =>
  match goal with H : forall b, b ∈ oracle _ -> b ∈ oracle _ |- _ => apply H end : alloc.
