(* ===== verification/Utf8.v ===== *)
(** * UTF-8

    The Unicode scalar values, their encoding, and the texts that are
    encodings: what the validator of the knowledge base decides, and what
    RFC 8259 asks of a JSON document beside its grammar. *)

From S2P Require Import Prelude.

Definition scalar_value (cp : Z) : Prop := 0 <= cp < 55296 \/ 57344 <= cp <= 1114111.

Definition utf8_encode (cp : Z) : bytes :=
  if cp <? 128 then [cp]
  else if cp <? 2048 then [192 + cp / 64; 128 + cp mod 64]
  else if cp <? 65536 then [224 + cp / 4096; 128 + cp / 64 mod 64; 128 + cp mod 64]
  else [240 + cp / 262144; 128 + cp / 4096 mod 64; 128 + cp / 64 mod 64; 128 + cp mod 64].

Definition utf8_text (b : bytes) : Prop := exists cps, Forall scalar_value cps /\ b = concat (map utf8_encode cps).

Definition ascii (c : byte) : Prop := 0 <= c < 128.

(** ** Lemmas *)

Lemma utf8_nil : utf8_text [].
Proof. by exists []. Qed.

Lemma utf8_app a b : utf8_text a -> utf8_text b -> utf8_text (a ++ b).
Proof.
  intros (l1 & H1 & ->) (l2 & H2 & ->). exists (l1 ++ l2). split; [by apply Forall_app|]. by rewrite map_app, concat_app.
Qed.

Lemma utf8_ascii l : Forall ascii l -> utf8_text l.
Proof.
  unfold ascii. induction 1 as [|c l Hc _ IH]; [apply utf8_nil|]. apply (utf8_app [c] l); [|done]. exists [c]. split; [apply Forall_singleton; unfold scalar_value; lia|].
  cbn. unfold utf8_encode. by rewrite (proj2 (Z.ltb_lt c 128)) by lia.
Qed.

(** An encoding is an ASCII byte, or has none. *)
Lemma utf8_encode_bytes cp : scalar_value cp -> ascii cp /\ utf8_encode cp = [cp] \/ utf8_encode cp <> [] /\ Forall (fun c => 128 <= c) (utf8_encode cp).
Proof.
  intros Hcp. unfold scalar_value, ascii in *. unfold utf8_encode. destruct (Z.ltb_spec cp 128); [left; split; [lia|done]|right].
  assert (Hq : forall d, 0 < d -> 0 <= cp / d) by (intros; apply Z.div_pos; lia). pose proof (Hq 64). pose proof (Hq 4096). pose proof (Hq 262144).
  assert (Hm : forall x, 0 <= x mod 64) by (intros x; apply Z.mod_pos_bound; lia).
  pose proof (Hm cp). pose proof (Hm (cp / 64)). pose proof (Hm (cp / 4096)).
  destruct (Z.ltb_spec cp 2048); [|destruct (Z.ltb_spec cp 65536)]; (split; [done|]); repeat (apply Forall_cons_2; [lia|]); apply Forall_nil_2.
Qed.

(** An ASCII byte stands between two texts. *)
Lemma utf8_split a c b : ascii c -> utf8_text (a ++ c :: b) <-> utf8_text a /\ utf8_text b.
Proof.
  intros Hc. split; [|intros [Ha Hb]; apply utf8_app; [done|]; apply (utf8_app [c]); [by apply utf8_ascii, Forall_singleton|done]].
  intros (cps & Hcps & E). revert a E; induction Hcps as [|cp cps Hcp Hcps IH]; intros a E; [by destruct a|]. cbn [map concat] in E.
  destruct a as [|x a].
  - cbn [app] in E. destruct (utf8_encode_bytes cp Hcp) as [[_ Hs]|[Hne Hall]].
    + rewrite Hs in E. injection E as _ ->. split; [apply utf8_nil|by exists cps].
    + destruct (utf8_encode cp) as [|y l]; [done|]. injection E as -> _. apply Forall_cons in Hall as [Hy _]. unfold ascii in Hc. lia.
  - assert (Hpre : exists a', x :: a = utf8_encode cp ++ a').
    { destruct (utf8_encode_bytes cp Hcp) as [[_ Hs]|[_ Hall]]; [rewrite Hs in E |- *; injection E as -> _; by exists a|].
      apply app_eq_app in E as (l & [[-> _]|[Hl Hr]]); [by exists l|]. destruct l as [|y l]; [exists []; by rewrite Hl, !app_nil_r|].
      rewrite Hl in Hall. apply Forall_app in Hall as [_ [Hy _]%Forall_cons]. injection Hr as <- _. unfold ascii in Hc. lia. }
    destruct Hpre as [a' Ha']. rewrite Ha', <- app_assoc in E. apply app_inv_head in E. destruct (IH a' E) as [Ha Hb]. split; [|done].
    rewrite Ha'. apply utf8_app; [|done]. exists [cp]. split; [by apply Forall_singleton|]. cbn. by rewrite app_nil_r.
Qed.

(** A text that keeps what surrounds it apart, and is itself a text when [P]. *)
Definition separates (t : bytes) (P : Prop) : Prop := forall a b, utf8_text (a ++ t ++ b) <-> P /\ utf8_text a /\ utf8_text b.

#[export] Instance separates_proper : Proper (eq ==> iff ==> iff) separates.
Proof. intros t _ <- P Q HPQ. unfold separates. by setoid_rewrite HPQ. Qed.

Lemma separates_char c : ascii c -> separates [c] True.
Proof. intros Hc a b. cbn [app]. rewrite utf8_split by done. tauto. Qed.

Lemma separates_app t1 t2 P1 P2 : separates t1 P1 -> separates t2 P2 -> separates (t1 ++ t2) (P1 /\ P2).
Proof.
  intros H1 H2 a b. rewrite <- app_assoc, (H1 a (t2 ++ b)). pose proof (H2 [] b) as H. cbn [app] in H. rewrite H. pose proof utf8_nil. tauto.
Qed.

Lemma separates_iff t P Q : separates t P -> (P <-> Q) -> separates t Q.
Proof. by intros H <-. Qed.

Lemma separates_ascii t : t <> [] -> Forall ascii t -> separates t True.
Proof.
  intros Hne Ht. induction Ht as [|c t Hc Ht IH]; [done|]. destruct t as [|d t]; [by apply separates_char|].
  eapply separates_iff; [apply (separates_app [c]); [by apply separates_char|by apply IH]|tauto].
Qed.

(** A text between two ASCII bytes. *)
Lemma separates_between c d t : ascii c -> ascii d -> separates ([c] ++ t ++ [d]) (utf8_text t).
Proof.
  intros Hc Hd a b. replace (a ++ ([c] ++ t ++ [d]) ++ b) with (a ++ c :: t ++ d :: b) by (cbn [app]; by rewrite <- app_assoc).
  rewrite !utf8_split by done. tauto.
Qed.

Lemma separates_text t P : separates t P -> utf8_text t <-> P.
Proof. intros H. pose proof (H [] []) as E. cbn [app] in E. rewrite app_nil_r in E. rewrite E. pose proof utf8_nil. tauto. Qed.
