(* ===== verification/CveId.v ===== *)
(** * CVE identifiers ([src/src/db/cve_id_valid.h])

    The one grammar check every writer of a CVE id applies. *)

From S2P Require Import Prelude.

Definition is_digit (c : byte) : bool := (48 <=? c) && (c <=? 57).

(** [cytadel_is_valid_cve_id]: the checks in the order of the code. *)
Definition is_valid_cve_id (id : bytes) : bool :=
  if Z.of_nat (length id) <? 13 then false
  else if negb (memcmp (take 4 id) (bs "CVE-") =? 0) then false
  else if negb (forallb is_digit (take 4 (drop 4 id))) then false
  else if negb (bool_decide (id !! 8%nat = Some 45)) then false
  else if negb (forallb is_digit (drop 9 id)) then false
  else 4 <=? Z.of_nat (length (drop 9 id)).

Lemma memcmp_take p s : (length p <= length s)%nat -> memcmp (take (length p) s) p = 0 <-> take (length p) s = p.
Proof.
  revert s; induction p as [|x p IH]; intros [|y s] Hl; simpl in *; try (by split); [lia|].
  destruct (Z.eqb_spec y x); [subst; rewrite IH by lia; split; [by intros ->|by intros [= ->]]|].
  destruct (y <? x); split; try done; intros [= ->]; lia.
Qed.

Lemma forallb_is_digit l : forallb is_digit l = true <-> Forall (fun c => 48 <= c <= 57) l.
Proof.
  induction l as [|c l IH]; simpl; [split; [constructor|done]|].
  unfold is_digit at 1. rewrite Forall_cons, <- IH, !andb_true_iff, !Z.leb_le. done.
Qed.

(** The accepted CVE ids are exactly [CVE-] followed by four digits, a
    hyphen and at least four digits. *)
Theorem valid_cve_id_grammar id :
  is_valid_cve_id id = true <->
  exists year number, id = bs "CVE-" ++ year ++ [45] ++ number /\
    length year = 4%nat /\ (4 <= length number)%nat /\
    Forall (fun c => 48 <= c <= 57) year /\ Forall (fun c => 48 <= c <= 57) number.
Proof.
  unfold is_valid_cve_id.
  split.
  - destruct (Z.ltb_spec (Z.of_nat (length id)) 13); [done|].
    destruct (Z.eqb_spec (memcmp (take 4 id) (bs "CVE-")) 0) as [Hm|]; [|done].
    apply (memcmp_take (bs "CVE-")) in Hm; [|simpl; lia].
    destruct (forallb is_digit (take 4 (drop 4 id))) eqn:Hy; [|done].
    case_bool_decide as H8; [|done]. simpl negb.
    destruct (forallb is_digit (drop 9 id)) eqn:Hn; [|done]. simpl negb.
    rewrite Z.leb_le. intros Hl. exists (take 4 (drop 4 id)), (drop 9 id).
    rewrite <- !forallb_is_digit, length_take, length_drop. split; [|repeat split; try done; lia].
    rewrite <- (take_drop 4 id) at 1. rewrite <- Hm. simpl length. f_equal.
    rewrite <- (take_drop 4 (drop 4 id)) at 1. f_equal. rewrite drop_drop. simpl.
    by apply drop_S.
  - intros (year & number & -> & Hly & Hln & Hy & Hn).
    destruct year as [|y1 [|y2 [|y3 [|y4 [|]]]]]; try done.
    rewrite <- forallb_is_digit in Hn, Hy.
    assert (Hlen : Z.of_nat (length (bs "CVE-" ++ [y1; y2; y3; y4] ++ [45] ++ number)) =
                   9 + Z.of_nat (length number)) by (simpl length; lia).
    rewrite (proj2 (Z.ltb_ge _ _)) by lia.
    change (take 4 (bs "CVE-" ++ [y1; y2; y3; y4] ++ [45] ++ number)) with (bs "CVE-").
    change (take 4 (drop 4 (bs "CVE-" ++ [y1; y2; y3; y4] ++ [45] ++ number))) with [y1; y2; y3; y4].
    change ((bs "CVE-" ++ [y1; y2; y3; y4] ++ [45] ++ number) !! 8%nat) with (Some 45).
    change (drop 9 (bs "CVE-" ++ [y1; y2; y3; y4] ++ [45] ++ number)) with number.
    rewrite Hy, Hn. rewrite bool_decide_eq_true_2 by done. apply Z.leb_le. lia.
Qed.
