(* ===== verification/Cidr.v ===== *)
(** * IPv4 addresses and CIDR blocks ([src/src/net/cidr.c])

    An address is its 32-bit value in host order.  [inet_pton] and [inet_ntop]
    are those of the C library for AF_INET: four decimal octets without
    leading zeros.  The texts of the errors are not modelled. *)

From S2P Require Import Prelude CveId.

(** ** The C library *)

(** One octet: one to three digits, no leading zero, at most 255. *)
Definition octet_value (f : bytes) : Z := foldl (fun v c => v * 10 + (c - 48)) 0 f.

Definition parse_octet (f : bytes) : option Z :=
  if negb (forallb is_digit f) then None else
  match f with
  | [] => None
  | [c] => Some (c - 48)
  | c :: _ =>
      if (c =? 48) || Nat.ltb 3 (length f) || (255 <? octet_value f) then None else Some (octet_value f)
  end.

Definition inet_pton (s : bytes) : option Z :=
  match mapM parse_octet (split_on 46 s) with
  | Some [a; b; c; d] => Some (a * 2 ^ 24 + b * 2 ^ 16 + c * 2 ^ 8 + d)
  | _ => None
  end.

Definition print_octet (v : Z) : bytes :=
  if v <? 10 then [48 + v]
  else if v <? 100 then [48 + v / 10; 48 + v mod 10]
  else [48 + v / 100; 48 + v / 10 mod 10; 48 + v mod 10].

Definition inet_ntop (a : Z) : bytes :=
  print_octet (a / 2 ^ 24 mod 256) ++ [46] ++ print_octet (a / 2 ^ 16 mod 256) ++ [46] ++
  print_octet (a / 2 ^ 8 mod 256) ++ [46] ++ print_octet (a mod 256).

(** ** The module *)

Definition NET_IP_STR_MAX : Z := 46.

(** [cytadel_cidr_status_t] *)
Inductive cidr_status := CIDR_OK | CIDR_ERR_MALFORMED | CIDR_ERR_BAD_ADDRESS | CIDR_ERR_BAD_PREFIX.

#[export] Instance cidr_status_eq_dec : EqDecision cidr_status.
Proof. solve_decision. Defined.

(** [cytadel_cidr_t] *)
Record cidr := Cidr { network : Z; prefix : Z }.

(** [strchr(s, ch)]: what follows the first [ch]. *)
Definition after_char (ch : byte) (s : bytes) : option bytes :=
  match drop_while (fun c => negb (c =? ch)) s with [] => None | _ :: rest => Some rest end.

Definition before_char (ch : byte) (s : bytes) : bytes := take_while (fun c => negb (c =? ch)) s.

(** The accumulation loop over the prefix. *)
Fixpoint prefix_loop (s : bytes) (prefix_val : Z) : option Z :=
  match s with
  | [] => Some prefix_val
  | c :: s => if is_digit c then prefix_loop s (prefix_val * 10 + (c - 48)) else None
  end.

(** [0xFFFFFFFFu << (32 - prefix)], kept off the undefined shift by 32. *)
Definition prefix_mask (prefix_val : Z) : Z :=
  if prefix_val =? 0 then 0 else Z.shiftl (2 ^ 32 - 1) (32 - prefix_val) mod 2 ^ 32.

(** [cytadel_cidr_parse] of a string; [out] is given. *)
Definition cidr_parse (spec : bytes) : cidr_status + cidr :=
  match after_char 47 spec with
  | None => inl CIDR_ERR_MALFORMED
  | Some prefix_str =>
      if bool_decide (is_Some (after_char 47 prefix_str)) then inl CIDR_ERR_MALFORMED else
      let addr := before_char 47 spec in
      if Nat.eqb (length addr) 0 || (NET_IP_STR_MAX <=? Z.of_nat (length addr)) then inl CIDR_ERR_BAD_ADDRESS else
      match inet_pton addr with
      | None => inl CIDR_ERR_BAD_ADDRESS
      | Some addr_host =>
          if Nat.eqb (length prefix_str) 0 || Nat.ltb 2 (length prefix_str) then inl CIDR_ERR_BAD_PREFIX else
          match prefix_loop prefix_str 0 with
          | None => inl CIDR_ERR_BAD_PREFIX
          | Some prefix_val =>
              if 32 <? prefix_val then inl CIDR_ERR_BAD_PREFIX
              else inr (Cidr (Z.land addr_host (prefix_mask prefix_val)) prefix_val)
          end
      end
  end.

(** [cytadel_cidr_host_count] *)
Definition cidr_host_count (c : cidr) : Z :=
  if (prefix c <? 0) || (32 <? prefix c) then 0 else Z.shiftl 1 (32 - prefix c) mod 2 ^ 64.

(** [cytadel_cidr_nth_address] into a buffer of [buf_len] bytes. *)
Definition cidr_nth_address (c : cidr) (n buf_len : Z) : option bytes :=
  if buf_len <? NET_IP_STR_MAX then None else
  let count := cidr_host_count c in
  if (count =? 0) || (count <=? n) then None
  else Some (inet_ntop (Z.lor (network c) (n mod 2 ^ 32))).

(** ** Lemmas on addresses *)

Definition addr_ok (a : Z) : Prop := 0 <= a < 2 ^ 32.

Lemma digit_ok d : 0 <= d <= 9 -> is_digit (48 + d) = true.
Proof. intros H. unfold is_digit. apply andb_true_iff. rewrite !Z.leb_le. lia. Qed.

Lemma parse_print_octet v : 0 <= v < 256 -> parse_octet (print_octet v) = Some v.
Proof.
  intros Hv. unfold print_octet.
  assert (0 <= v mod 10 < 10) by (apply Z.mod_pos_bound; lia).
  assert (0 <= v / 10 mod 10 < 10) by (apply Z.mod_pos_bound; lia).
  pose proof (Z.div_mod v 10 ltac:(lia)). pose proof (Z.div_mod (v / 10) 10 ltac:(lia)).
  pose proof (Z.div_mod v 100 ltac:(lia)). assert (0 <= v mod 100 < 100) by (apply Z.mod_pos_bound; lia).
  assert (v / 100 = v / 10 / 10) as E100 by (by rewrite Z.div_div by lia).
  destruct (Z.ltb_spec v 10); [|destruct (Z.ltb_spec v 100)]; unfold parse_octet, octet_value; cbn [forallb foldl length];
    rewrite !digit_ok by lia; cbn [andb negb].
  - f_equal. lia.
  - rewrite (proj2 (Z.eqb_neq (48 + v / 10) 48)) by lia.
    rewrite (proj2 (Z.ltb_ge 255 _)) by lia. cbn [orb Nat.ltb Nat.leb]. f_equal. lia.
  - rewrite (proj2 (Z.eqb_neq (48 + v / 100) 48)) by lia.
    rewrite (proj2 (Z.ltb_ge 255 _)) by lia. cbn [orb Nat.ltb Nat.leb]. f_equal. lia.
Qed.

Lemma print_octet_no_dot v : 0 <= v < 256 -> Forall (fun c => negb (c =? 46) = true) (print_octet v).
Proof.
  intros Hv. unfold print_octet.
  assert (forall d, 0 <= d -> negb (48 + d =? 46) = true) as Hd.
  { intros d Hd. apply negb_true_iff, Z.eqb_neq. lia. }
  assert (0 <= v / 10 /\ 0 <= v mod 10 /\ 0 <= v / 100 /\ 0 <= v / 10 mod 10) as (? & ? & ? & ?).
  { split_and!; first [apply Z.div_pos; lia|apply Z.mod_pos_bound; lia]. }
  repeat case_match; repeat first [apply Forall_nil_2|apply Forall_cons_2]; apply Hd; lia.
Qed.

(** Splitting off a field that has no separator. *)
Lemma split_on_field sep f rest :
  Forall (fun c => negb (c =? sep) = true) f -> split_on sep (f ++ sep :: rest) = f :: split_on sep rest.
Proof.
  intros Hf. rewrite split_on_scan. rewrite take_while_app, drop_while_app by done. simpl.
  by rewrite Z.eqb_refl, app_nil_r.
Qed.

Lemma split_on_last sep f : Forall (fun c => negb (c =? sep) = true) f -> split_on sep f = [f].
Proof. intros Hf. rewrite split_on_scan. by destruct (take_drop_while_id _ _ Hf) as [-> ->]. Qed.

(** The library's printer and parser agree. *)
Lemma inet_pton_ntop a : addr_ok a -> inet_pton (inet_ntop a) = Some a.
Proof.
  unfold addr_ok. intros Ha. unfold inet_pton, inet_ntop.
  assert (forall k, 0 <= a / 2 ^ k mod 256 < 256) as Hb by (intros; apply Z.mod_pos_bound; lia).
  assert (0 <= a mod 256 < 256) as H0 by (apply Z.mod_pos_bound; lia).
  cbn [app]. rewrite !split_on_field by by apply print_octet_no_dot.
  rewrite split_on_last by by apply print_octet_no_dot. cbn [mapM].
  rewrite !parse_print_octet by done. simpl. f_equal.
  change (2 ^ 24) with 16777216. change (2 ^ 16) with 65536. change (2 ^ 8) with 256.
  rewrite (Z.mod_small (a / 16777216) 256).
  2: { split; [apply Z.div_pos; lia|apply Z.div_lt_upper_bound; lia]. }
  pose proof (Z.div_mod a 256 ltac:(lia)). pose proof (Z.div_mod (a / 256) 256 ltac:(lia)).
  pose proof (Z.div_mod (a / 256 / 256) 256 ltac:(lia)).
  rewrite (Z.div_div a 256 256) in * by lia. rewrite (Z.div_div a (256 * 256) 256) in * by lia.
  change (256 * 256) with 65536 in *. change (65536 * 256) with 16777216 in *. lia.
Qed.

Lemma parse_octet_range f v : parse_octet f = Some v -> 0 <= v < 256.
Proof.
  unfold parse_octet. destruct (forallb is_digit f) eqn:Hd; [|done]. cbn [negb]. destruct f as [|c [|d f]]; [done| |].
  - intros [= <-]. cbn in Hd. unfold is_digit in Hd. breflect. lia.
  - destruct (_ || _) eqn:E; [done|]. intros [= <-]. apply orb_false_elim in E as [_ E]. apply Z.ltb_ge in E.
    split; [|lia]. clear E. revert Hd. generalize (c :: d :: f). clear. intros l Hl. unfold octet_value.
    assert (forall v, 0 <= v -> 0 <= foldl (fun v c => v * 10 + (c - 48)) v l); [|auto with lia].
    induction l as [|x l IH]; intros v Hv; cbn in *; [done|]. apply andb_prop in Hl as [Hx Hl]. unfold is_digit in Hx.
    breflect. apply IH; [done|lia].
Qed.

Lemma inet_pton_range s a : inet_pton s = Some a -> addr_ok a.
Proof.
  unfold inet_pton, addr_ok. destruct (mapM parse_octet (split_on 46 s)) as [l|] eqn:E; [|done].
  assert (Forall (fun v => 0 <= v < 256) l) as Hl.
  { apply mapM_Some in E. apply Forall_forall. intros v Hv. apply list_elem_of_lookup in Hv as [i Hi].
    destruct (Forall2_lookup_r _ _ _ _ _ E Hi) as (f & _ & Hf). by eapply parse_octet_range. }
  destruct l as [|x [|y [|z [|u [|? ?]]]]]; try done. intros [= <-].
  rewrite !Forall_cons in Hl. destruct Hl as (? & ? & ? & ? & _). lia.
Qed.

(** ** Characters of an address *)

Lemma split_on_total sep s :
  foldr (fun f k => S (length f) + k)%nat 0%nat (split_on sep s) = S (length s).
Proof.
  induction s as [|c s IH]; [done|]. cbn [split_on]. destruct (c =? sep); cbn [foldr length]; [rewrite IH; lia|].
  destruct (split_on_cons sep s) as (f & fs & E). rewrite E in *. cbn [foldr length] in *. lia.
Qed.

Lemma split_on_chars sep s c : c ∈ s -> c = sep \/ exists f, f ∈ split_on sep s /\ c ∈ f.
Proof.
  induction s as [|d s IH]; [by intros ?%elem_of_nil|]. cbn [split_on]. intros [->|Hc]%elem_of_cons.
  - destruct (Z.eqb_spec d sep); [by left|right]. destruct (split_on sep s) as [|f fs].
    + exists [d]. split; by left.
    + exists (d :: f). split; by left.
  - destruct (IH Hc) as [?|(f & Hf & Hcf)]; [by left|right]. destruct (d =? sep).
    + exists f. split; [by right|done].
    + destruct (split_on sep s) as [|g gs]; [by apply elem_of_nil in Hf|].
      apply elem_of_cons in Hf as [->|Hf]; [exists (d :: g); split; [by left|by right]|exists f; split; [by right|done]].
Qed.

Lemma parse_octet_shape f v :
  parse_octet f = Some v -> (length f <= 3)%nat /\ Forall (fun c => is_digit c = true) f.
Proof.
  unfold parse_octet. destruct (forallb is_digit f) eqn:Hd; [|done]. cbn [negb]. intros E. split.
  - destruct f as [|c [|d f]]; [done|cbn; lia|]. destruct (_ || _) eqn:Eo in E; [done|].
    apply orb_false_elim in Eo as [Eo _]. apply orb_false_elim in Eo as [_ Eo]. apply Nat.ltb_ge in Eo. done.
  - apply Forall_forall. intros c Hc. rewrite forallb_forall in Hd. apply Hd. by apply list_elem_of_In.
Qed.

(** The fields of an address. *)
Lemma inet_pton_fields s a :
  inet_pton s = Some a -> length (split_on 46 s) = 4%nat /\
  forall f, f ∈ split_on 46 s -> (length f <= 3)%nat /\ Forall (fun c => is_digit c = true) f.
Proof.
  unfold inet_pton. destruct (mapM parse_octet (split_on 46 s)) as [l|] eqn:E; [|done]. intros Hl. apply mapM_Some in E. split.
  - rewrite (Forall2_length _ _ _ E). destruct l as [|? [|? [|? [|? [|? ?]]]]]; done.
  - intros f Hin. apply list_elem_of_lookup in Hin as [i Hi]. destruct (Forall2_lookup_l _ _ _ _ _ E Hi) as (v & _ & Hv).
    by eapply parse_octet_shape.
Qed.

Lemma inet_pton_chars s a : inet_pton s = Some a -> Forall (fun c => c = 46 \/ is_digit c = true) s.
Proof.
  intros H. destruct (inet_pton_fields s a H) as [_ Hf]. apply Forall_forall. intros c Hc.
  destruct (split_on_chars 46 s c Hc) as [->|(f & Hin & Hcf)]; [by left|right].
  destruct (Hf f Hin) as [_ Hd]. by apply (proj1 (Forall_forall _ _) Hd).
Qed.

Lemma inet_pton_shape s a :
  inet_pton s = Some a -> (1 <= length s <= 15)%nat /\ Forall (fun c => negb (c =? 47) = true) s.
Proof.
  intros H. split.
  - destruct (inet_pton_fields s a H) as [H4 Hf]. pose proof (split_on_total 46 s) as Ht.
    destruct (split_on 46 s) as [|f1 [|f2 [|f3 [|f4 [|? ?]]]]]; try done. cbn [foldr] in Ht.
    destruct (Hf f1), (Hf f2), (Hf f3), (Hf f4); try (rewrite !elem_of_cons; tauto). lia.
  - eapply Forall_impl; [exact (inet_pton_chars s a H)|]. intros c [->|Hc]; [done|]. unfold is_digit in Hc. apply negb_true_iff, Z.eqb_neq. zbool.
Qed.

(** ** Blocks *)

(** [spec] is the address [a], a slash and the prefix length [p]. *)
Definition cidr_denotes (spec : bytes) (a p : Z) : Prop :=
  exists astr pstr, spec = astr ++ [47] ++ pstr /\ inet_pton astr = Some a /\
    (1 <= length pstr <= 2)%nat /\ forallb is_digit pstr = true /\ p = octet_value pstr /\ p <= 32.

Lemma prefix_loop_spec s v :
  prefix_loop s v = if forallb is_digit s then Some (foldl (fun v c => v * 10 + (c - 48)) v s) else None.
Proof. revert v; induction s as [|c s IH]; intros v; cbn; [done|]. destruct (is_digit c); [apply IH|done]. Qed.

Lemma decimal_nonneg l : forallb is_digit l = true -> 0 <= octet_value l.
Proof.
  unfold octet_value. assert (forall v, 0 <= v -> forallb is_digit l = true -> 0 <= foldl (fun v c => v * 10 + (c - 48)) v l);
    [|auto with lia].
  induction l as [|x l IH]; intros v Hv H; cbn in *; [done|]. apply andb_prop in H as [Hx Hl]. unfold is_digit in Hx.
  breflect. apply IH; [lia|done].
Qed.

Lemma mask_bits p i : 0 <= p <= 32 -> 0 <= i -> Z.testbit (prefix_mask p) i = (32 - p <=? i) && (i <? 32).
Proof.
  intros Hp Hi. unfold prefix_mask. destruct (Z.eqb_spec p 0) as [->|].
  { rewrite Z.bits_0. symmetry. apply andb_false_iff. destruct (Z.ltb_spec i 32); [left; apply Z.leb_gt; lia|by right]. }
  destruct (Z.ltb_spec i 32); [rewrite Z.mod_pow2_bits_low by lia|rewrite Z.mod_pow2_bits_high by lia; by rewrite andb_false_r].
  rewrite andb_true_r, Z.shiftl_spec by lia. change (2 ^ 32 - 1) with (Z.ones 32).
  destruct (Z.leb_spec (32 - p) i); [apply Z.ones_spec_low; lia|apply Z.testbit_neg_r; lia].
Qed.

Lemma land_mask a p : addr_ok a -> 0 <= p <= 32 -> Z.land a (prefix_mask p) = a / 2 ^ (32 - p) * 2 ^ (32 - p).
Proof.
  unfold addr_ok. intros Ha Hp. rewrite <- Z.shiftr_div_pow2, <- Z.shiftl_mul_pow2 by lia. apply Z.bits_inj'. intros i Hi.
  rewrite Z.land_spec, mask_bits, Z.shiftl_spec by lia.
  destruct (Z.leb_spec (32 - p) i); cbn [andb].
  - rewrite Z.shiftr_spec by lia. replace (i - (32 - p) + (32 - p)) with i by lia.
    destruct (Z.ltb_spec i 32); [by rewrite andb_true_r|]. rewrite andb_false_r. symmetry.
    rewrite Z.bits_above_log2; [done|lia|]. destruct (Z.eq_dec a 0) as [->|]; [cbn; lia|].
    assert (Z.log2 a < 32) by (apply Z.log2_lt_pow2; lia). lia.
  - rewrite andb_false_r. symmetry. apply Z.testbit_neg_r. lia.
Qed.

Lemma lor_offset q n k : 0 <= k -> 0 <= n < 2 ^ k -> Z.lor (q * 2 ^ k) n = q * 2 ^ k + n.
Proof.
  intros Hk Hn. assert (Z.land (q * 2 ^ k) n = 0) as H0.
  { apply Z.bits_inj'. intros i Hi. rewrite Z.land_spec, Z.bits_0. destruct (Z.lt_ge_cases i k) as [Hlt|Hge].
    - by rewrite Z.mul_pow2_bits_low.
    - apply andb_false_iff. right. destruct (Z.eq_dec n 0) as [->|]; [apply Z.bits_0|].
      apply Z.bits_above_log2; [lia|]. assert (Z.log2 n < k) by (apply Z.log2_lt_pow2; lia). lia. }
  by rewrite Z.add_nocarry_lxor, Z.lxor_lor by done.
Qed.

Lemma drop_while_none_app f l c r : Forall (fun x => f x = true) l -> f c = false -> drop_while f (l ++ c :: r) = c :: r.
Proof. intros Hl Hc. rewrite drop_while_app by done. cbn. by rewrite Hc. Qed.

Lemma after_char_app ch l r : Forall (fun c => negb (c =? ch) = true) l -> after_char ch (l ++ ch :: r) = Some r.
Proof. intros Hl. unfold after_char. rewrite drop_while_none_app; [done|done|]. by rewrite Z.eqb_refl. Qed.

Lemma after_char_none ch l : Forall (fun c => negb (c =? ch) = true) l -> after_char ch l = None.
Proof. intros Hl. unfold after_char. by destruct (take_drop_while_id _ _ Hl) as [_ ->]. Qed.

Lemma after_char_split ch s r : after_char ch s = Some r -> s = before_char ch s ++ ch :: r.
Proof.
  unfold after_char, before_char. intros E. rewrite <- (take_drop_while (fun c => negb (c =? ch)) s) at 1. f_equal.
  destruct (drop_while _ s) as [|c l] eqn:Ed; [done|]. injection E as <-. apply drop_while_head in Ed.
  apply negb_false_iff, Z.eqb_eq in Ed. by subst.
Qed.

Lemma digits_no_slash l : forallb is_digit l = true -> Forall (fun c => negb (c =? 47) = true) l.
Proof.
  intros H. apply Forall_forall. intros c Hc. rewrite forallb_forall in H. specialize (H c ltac:(by apply list_elem_of_In)).
  unfold is_digit in H. breflect. apply negb_true_iff, Z.eqb_neq. lia.
Qed.

Lemma cidr_parse_spec spec c :
  cidr_parse spec = inr c <->
  exists a p, cidr_denotes spec a p /\ 0 <= p /\ c = Cidr (a / 2 ^ (32 - p) * 2 ^ (32 - p)) p.
Proof.
  unfold cidr_parse, cidr_denotes. split.
  - destruct (after_char 47 spec) as [pstr|] eqn:Ea; [|done]. case_bool_decide as Hs; [done|].
    destruct (_ || _) eqn:El; [done|]. destruct (inet_pton (before_char 47 spec)) as [a|] eqn:Ei; [|done].
    destruct (Nat.eqb (length pstr) 0 || _) eqn:Ep; [done|]. rewrite prefix_loop_spec.
    destruct (forallb is_digit pstr) eqn:Ed; [|done]. fold (octet_value pstr).
    destruct (Z.ltb_spec 32 (octet_value pstr)); [done|]. intros [= <-].
    pose proof (decimal_nonneg _ Ed). exists a, (octet_value pstr). split; [|split; [done|]].
    + exists (before_char 47 spec), pstr. split_and!; try done; [by apply after_char_split|..];
        apply orb_false_elim in Ep as [E1 E2]; breflect; apply Nat.ltb_ge in E2; lia.
    + rewrite land_mask; [done| |done]. by eapply inet_pton_range.
  - intros (a & p & (astr & pstr & -> & Hi & Hl & Hd & -> & Hp) & H0 & ->). cbn [app].
    destruct (inet_pton_shape _ _ Hi) as [Hlen Hns]. rewrite after_char_app by done.
    rewrite after_char_none by by apply digits_no_slash. rewrite bool_decide_eq_false_2 by (intros [? [=]]).
    unfold before_char. rewrite take_while_app by done. cbn [take_while negb Z.eqb Pos.eqb]. rewrite app_nil_r, Hi.
    destruct (Nat.eqb_spec (length astr) 0); [lia|]. cbn [orb].
    rewrite (proj2 (Z.leb_gt NET_IP_STR_MAX _)) by (unfold NET_IP_STR_MAX; lia).
    destruct (Nat.eqb_spec (length pstr) 0); [lia|]. cbn [orb]. rewrite (proj2 (Nat.ltb_ge 2 _)) by lia.
    rewrite prefix_loop_spec, Hd. fold (octet_value pstr). rewrite (proj2 (Z.ltb_ge 32 _)) by lia.
    do 2 f_equal. apply land_mask; [by eapply inet_pton_range|done].
Qed.

Lemma host_count_pow a p : 0 <= p <= 32 -> cidr_host_count (Cidr a p) = 2 ^ (32 - p).
Proof.
  intros Hp. unfold cidr_host_count. cbn [prefix]. rewrite (proj2 (Z.ltb_ge p 0)), (proj2 (Z.ltb_ge 32 p)) by lia. cbn [orb].
  rewrite Z.shiftl_1_l, Z.mod_small; [done|]. split; [apply Z.pow_nonneg; lia|].
  apply Z.le_lt_trans with (2 ^ 32); [apply Z.pow_le_mono_r; lia|lia].
Qed.

Lemma nth_address q p n :
  0 <= p <= 32 -> 0 <= n ->
  cidr_nth_address (Cidr (q * 2 ^ (32 - p)) p) n NET_IP_STR_MAX =
  if n <? 2 ^ (32 - p) then Some (inet_ntop (q * 2 ^ (32 - p) + n)) else None.
Proof.
  intros Hp Hn. unfold cidr_nth_address. rewrite Z.ltb_irrefl, host_count_pow by done. cbn [network].
  pose proof (Z.pow_pos_nonneg 2 (32 - p) ltac:(lia) ltac:(lia)).
  rewrite (proj2 (Z.eqb_neq (2 ^ (32 - p)) 0)) by lia. cbn [orb].
  destruct (Z.ltb_spec n (2 ^ (32 - p))); [|by rewrite (proj2 (Z.leb_le _ _)) by lia].
  rewrite (proj2 (Z.leb_gt _ n)) by lia. do 2 f_equal.
  assert (2 ^ (32 - p) <= 2 ^ 32) by (apply Z.pow_le_mono_r; lia).
  rewrite Z.mod_small by lia. apply lor_offset; lia.
Qed.

(** The addresses of a block.  A specification is accepted exactly when it
    is a dotted-quad address, a slash and a decimal prefix length from 0 to 32
    (of one or two digits); the block then has 2^(32-p) addresses, and
    walking it yields, each once and in ascending order, exactly the 32-bit
    addresses that share the first [p] bits with the given one, network and
    broadcast address included, and nothing beyond. *)
Theorem cidr_block_addresses spec c :
  cidr_parse spec = inr c <->
  exists a p, cidr_denotes spec a p /\ 0 <= p /\ c = Cidr (a / 2 ^ (32 - p) * 2 ^ (32 - p)) p /\
    cidr_host_count c = 2 ^ (32 - p) /\
    (forall n, 2 ^ (32 - p) <= n -> cidr_nth_address c n NET_IP_STR_MAX = None) /\
    (forall x, addr_ok x ->
       (x / 2 ^ (32 - p) = a / 2 ^ (32 - p) <->
        exists n, 0 <= n < 2 ^ (32 - p) /\ x = network c + n /\
                  cidr_nth_address c n NET_IP_STR_MAX = Some (inet_ntop x))).
Proof.
  rewrite cidr_parse_spec. split; intros (a & p & Hd & H0 & Hrest); [subst c|destruct Hrest as [-> _]]; exists a, p; split_and!; try done.
  - destruct Hd as (s1 & s2 & _ & _ & _ & _ & _ & Hp). by apply host_count_pow.
  - destruct Hd as (s1 & s2 & _ & _ & _ & _ & _ & Hp). intros n Hn.
    pose proof (Z.pow_pos_nonneg 2 (32 - p) ltac:(lia) ltac:(lia)).
    rewrite nth_address by lia. by rewrite (proj2 (Z.ltb_ge n _)).
  - destruct Hd as (s1 & s2 & _ & _ & _ & _ & _ & Hp). intros x Hx. cbn [network].
    pose proof (Z.pow_pos_nonneg 2 (32 - p) ltac:(lia) ltac:(lia)) as Hpow.
    pose proof (Z.div_mod x (2 ^ (32 - p)) ltac:(lia)) as Hdiv. pose proof (Z.mod_pos_bound x (2 ^ (32 - p)) Hpow) as Hm.
    split.
    + intros E. exists (x mod 2 ^ (32 - p)). split; [done|]. split; [lia|]. rewrite nth_address by lia.
      rewrite (proj2 (Z.ltb_lt _ _)) by lia. do 2 f_equal. lia.
    + intros (n & Hn & -> & _). rewrite Z.div_add_l, (Z.div_small n) by lia. lia.
Qed.
