(* ===== verification/VersionCompare.v ===== *)
(** * The version comparator ([src/src/match/version_compare.c])

    A buffer position [pos] of the C code is represented by the suffix of
    the buffer that starts there: [next_token] takes the suffix at [*pos] and
    returns the token, the suffix at the updated [*pos], and whether a
    delimiter was skipped ([p != *pos]).  The two unbounded [for (;;)] loops
    carry fuel; [version_compare_total] shows that the fuel of the entry
    point is always enough. *)

From S2P Require Import Prelude.

(** [cytadel_vercmp_t] *)
Inductive vercmp := VERCMP_LESS | VERCMP_EQUAL | VERCMP_GREATER | VERCMP_UNDECIDABLE.

#[export] Instance vercmp_eq_dec : EqDecision vercmp.
Proof. solve_decision. Defined.

(** ** Byte classification *)

Definition is_digit_byte (c : byte) : bool := (48 <=? c) && (c <=? 57).

Definition is_delim_byte (c : byte) : bool := (c =? 46) || (c =? 45) || (c =? 95).

Definition to_lower_ascii (c : byte) : byte :=
  if (65 <=? c) && (c <=? 90) then c + 32 else c.

Definition strip_v_prefix (s : bytes) : bytes :=
  match s with
  | v :: d :: s' =>
      if ((v =? 118) || (v =? 86)) && is_digit_byte d then d :: s' else s
  | _ => s
  end.

Definition has_disallowed_byte (s : bytes) : bool :=
  existsb (fun c => (c <? 32) || (c =? 127) || (128 <=? c)) s.

(** ** The tokenizer *)

Inductive tok_type := TOK_NONE | TOK_NUM | TOK_ALPHA.

#[export] Instance tok_type_eq_dec : EqDecision tok_type.
Proof. solve_decision. Defined.

Definition is_alpha_byte (c : byte) : bool := negb (is_digit_byte c) && negb (is_delim_byte c).

(** [(type, token text, delimiter skipped, suffix after the token)] *)
Definition next_token (buf : bytes) : tok_type * bytes * bool * bytes :=
  let p := drop_while is_delim_byte buf in
  let delim_skipped := negb (Nat.eqb (length p) (length buf)) in
  match p with
  | [] => (TOK_NONE, [], delim_skipped, [])
  | c :: _ =>
      if is_digit_byte c
      then (TOK_NUM, take_while is_digit_byte p, delim_skipped, drop_while is_digit_byte p)
      else (TOK_ALPHA, take_while is_alpha_byte p, delim_skipped, drop_while is_alpha_byte p)
  end.

(** ** Component comparators *)

Definition cmp_digit_runs (a b : bytes) : vercmp :=
  let ra := drop_while (fun c => c =? 48) a in
  let rb := drop_while (fun c => c =? 48) b in
  let ea := Z.of_nat (length ra) in
  let eb := Z.of_nat (length rb) in
  if negb (ea =? eb) then (if ea <? eb then VERCMP_LESS else VERCMP_GREATER)
  else if ea =? 0 then VERCMP_EQUAL
  else
    let c := memcmp ra rb in
    if c <? 0 then VERCMP_LESS else if 0 <? c then VERCMP_GREATER else VERCMP_EQUAL.

Fixpoint alpha_cmp_ci (a b : bytes) : Z :=
  match a, b with
  | x :: a', y :: b' =>
      let ca := to_lower_ascii x in
      let cb := to_lower_ascii y in
      if negb (ca =? cb) then (if ca <? cb then -1 else 1) else alpha_cmp_ci a' b'
  | [], [] => 0
  | [], _ :: _ => -1
  | _ :: _, [] => 1
  end.

Definition PRERELEASE_KEYWORDS : list bytes :=
  [bs "alpha"; bs "beta"; bs "rc"; bs "pre"; bs "preview"; bs "dev"; bs "devel";
   bs "snapshot"; bs "nightly"; bs "test"; bs "unstable"; bs "alfa"; bs "milestone"].

Definition RELEASE_EQUIVALENT_KEYWORDS : list bytes :=
  [bs "ga"; bs "final"; bs "release"; bs "stable"].

Definition keyword_match (s w : bytes) : bool :=
  Nat.eqb (length s) (length w) && (alpha_cmp_ci s w =? 0).

Definition is_prerelease_keyword (s : bytes) : bool :=
  existsb (keyword_match s) PRERELEASE_KEYWORDS.

Definition is_release_equivalent_keyword (s : bytes) : bool :=
  existsb (keyword_match s) RELEASE_EQUIVALENT_KEYWORDS.

Definition alpha_keyword_rank (s : bytes) : Z :=
  if is_prerelease_keyword s then 0
  else if is_release_equivalent_keyword s then 1
  else 2.

Definition is_all_zero_digits (p : bytes) : bool := forallb (fun c => c =? 48) p.

(** [rest] is the suffix of the buffer at [pos_after]. *)
Definition is_ambiguous_attached_letter (s rest : bytes) : bool :=
  match s with
  | [x] =>
      let c := to_lower_ascii x in
      if negb (c =? 97) && negb (c =? 98) && negb (c =? 99) then false
      else match rest with
           | d :: _ => is_digit_byte d
           | [] => false
           end
  | _ => false
  end.

(** ** The residual walk *)

Fixpoint residual_verdict_fuel (fuel : nat) (buf : bytes) : option vercmp :=
  match fuel with
  | O => None
  | S fuel =>
      match next_token buf with
      | (TOK_NONE, _, _, _) => Some VERCMP_EQUAL
      | (TOK_NUM, s, _, rest) =>
          if negb (is_all_zero_digits s) then Some VERCMP_GREATER
          else residual_verdict_fuel fuel rest
      | (TOK_ALPHA, s, delim_skipped, rest) =>
          if is_prerelease_keyword s then Some VERCMP_LESS
          else if is_release_equivalent_keyword s then residual_verdict_fuel fuel rest
          else if negb delim_skipped then
            if is_ambiguous_attached_letter s rest then Some VERCMP_UNDECIDABLE
            else Some VERCMP_GREATER
          else Some VERCMP_UNDECIDABLE
      end
  end.

Definition residual_verdict (buf : bytes) : option vercmp :=
  residual_verdict_fuel (S (length buf)) buf.

(** ** Epoch *)

(** [(epoch digits, rest)] *)
Definition split_epoch (s : bytes) : bytes * bytes :=
  let digits := take_while is_digit_byte s in
  match digits, drop_while is_digit_byte s with
  | _ :: _, 58 :: rest => (digits, rest)
  | _, _ => ([48], s)
  end.

(** The [memchr(rest, '+', len)] truncation. *)
Definition truncate_build_metadata (rest : bytes) : bytes :=
  take_while (fun c => negb (c =? 43)) rest.

(** ** The lockstep loop and the entry point *)

Definition flip (v : vercmp) : vercmp :=
  match v with
  | VERCMP_LESS => VERCMP_GREATER
  | VERCMP_GREATER => VERCMP_LESS
  | v => v
  end.

(** The comparison of two alpha components at the same position:
    [Some v] returns [v], [None] continues with the next component. *)
Definition cmp_alpha_components (sa sb : bytes) : option vercmp :=
  let rank_a := alpha_keyword_rank sa in
  let rank_b := alpha_keyword_rank sb in
  if negb (rank_a =? rank_b) then
    if (rank_a =? 2) || (rank_b =? 2) then Some VERCMP_UNDECIDABLE
    else if rank_b <? rank_a then Some VERCMP_GREATER else Some VERCMP_LESS
  else if rank_a =? 1 then None
  else
    let c := alpha_cmp_ci sa sb in
    if c <? 0 then Some VERCMP_LESS
    else if 0 <? c then Some VERCMP_GREATER
    else None.

Fixpoint compare_loop (fuel : nat) (rest_a rest_b : bytes) : option vercmp :=
  match fuel with
  | O => None
  | S fuel =>
      let '(ta, sa, _, rest_a') := next_token rest_a in
      let '(tb, sb, _, rest_b') := next_token rest_b in
      match ta, tb with
      | TOK_NONE, TOK_NONE => Some VERCMP_EQUAL
      | TOK_NONE, _ => flip <$> residual_verdict rest_b
      | _, TOK_NONE => residual_verdict rest_a
      | TOK_NUM, TOK_NUM =>
          match cmp_digit_runs sa sb with
          | VERCMP_EQUAL => compare_loop fuel rest_a' rest_b'
          | r => Some r
          end
      | TOK_ALPHA, TOK_ALPHA =>
          match cmp_alpha_components sa sb with
          | Some v => Some v
          | None => compare_loop fuel rest_a' rest_b'
          end
      | _, _ => Some VERCMP_UNDECIDABLE
      end
  end.

Definition null_with_length (s : span) : bool :=
  match s with NullSpan len => 0 <? len | Span _ => false end.

Definition first_token_none (rest : bytes) : bool :=
  match next_token rest with (TOK_NONE, _, _, _) => true | _ => false end.

Definition version_compare_fuel (fuel : nat) (a b : span) : option vercmp :=
  if null_with_length a || null_with_length b then Some VERCMP_UNDECIDABLE
  else
    let a := span_bytes a in
    let b := span_bytes b in
    if has_disallowed_byte a || has_disallowed_byte b then Some VERCMP_UNDECIDABLE
    else
      let '(epoch_a, rest_a) := split_epoch (strip_v_prefix a) in
      let '(epoch_b, rest_b) := split_epoch (strip_v_prefix b) in
      let rest_a := truncate_build_metadata rest_a in
      let rest_b := truncate_build_metadata rest_b in
      if first_token_none rest_a || first_token_none rest_b then Some VERCMP_UNDECIDABLE
      else
        match cmp_digit_runs epoch_a epoch_b with
        | VERCMP_EQUAL => compare_loop fuel rest_a rest_b
        | epoch_cmp => Some epoch_cmp
        end.

(** [cytadel_version_compare], with the fuel of the entry point: one round
    per byte of the first version and one more. *)
Definition version_compare (a b : span) : vercmp :=
  default VERCMP_UNDECIDABLE (version_compare_fuel (S (length (span_bytes a))) a b).

(** ** Reference definitions

    A second reading of the format, structurally recursive and independent
    of the tokenizer's positions: [lex] builds the list of components from
    the end of the string, [compare_tokens] orders two such lists. *)

Record tok := Tok { tk_num : bool; tk_text : bytes; tk_delim : bool }.

Definition mark_delim (ts : list tok) : list tok :=
  match ts with
  | t :: ts => Tok (tk_num t) (tk_text t) true :: ts
  | [] => []
  end.

Fixpoint lex (s : bytes) : list tok :=
  match s with
  | [] => []
  | c :: s' =>
      if is_delim_byte c then mark_delim (lex s')
      else match lex s' with
           | Tok k txt false :: ts =>
               if Bool.eqb k (is_digit_byte c) then Tok k (c :: txt) false :: ts
               else Tok (is_digit_byte c) [c] false :: Tok k txt false :: ts
           | ts => Tok (is_digit_byte c) [c] false :: ts
           end
  end.

(** The number a run of digits writes. *)
Fixpoint digits_value (s : bytes) : Z :=
  match s with
  | c :: s' => (c - 48) * 10 ^ Z.of_nat (length s') + digits_value s'
  | [] => 0
  end.

Definition of_comparison (c : comparison) : vercmp :=
  match c with Lt => VERCMP_LESS | Eq => VERCMP_EQUAL | Gt => VERCMP_GREATER end.

(** [a], [b] or [c] directly followed by a number. *)
Definition ambiguous_letter (s : bytes) (ts : list tok) : bool :=
  match s, ts with
  | [x], Tok true _ false :: _ =>
      bool_decide (to_lower_ascii x ∈ [97; 98; 99])
  | _, _ => false
  end.

(** How a version that continues with [ts] compares with the same version
    without them. *)
Fixpoint residual_tokens (ts : list tok) : vercmp :=
  match ts with
  | [] => VERCMP_EQUAL
  | Tok true n _ :: ts =>
      if digits_value n =? 0 then residual_tokens ts else VERCMP_GREATER
  | Tok false s d :: ts =>
      if alpha_keyword_rank s =? 0 then VERCMP_LESS
      else if alpha_keyword_rank s =? 1 then residual_tokens ts
      else if d || ambiguous_letter s ts then VERCMP_UNDECIDABLE
      else VERCMP_GREATER
  end.

(** Two components at the same position. *)
Definition compare_heads (x y : tok) : vercmp :=
  match tk_num x, tk_num y with
  | true, true => of_comparison (digits_value (tk_text x) ?= digits_value (tk_text y))
  | false, false => default VERCMP_EQUAL (cmp_alpha_components (tk_text x) (tk_text y))
  | _, _ => VERCMP_UNDECIDABLE
  end.

Fixpoint compare_tokens (xs ys : list tok) : vercmp :=
  match xs, ys with
  | [], _ => flip (residual_tokens ys)
  | _, [] => residual_tokens xs
  | x :: xs, y :: ys =>
      match compare_heads x y with
      | VERCMP_EQUAL => compare_tokens xs ys
      | v => v
      end
  end.

(** The epoch and the components of a version; [None] when the string has no
    comparable content. *)
Definition parse_version (v : span) : option (Z * list tok) :=
  if null_with_length v || has_disallowed_byte (span_bytes v) then None
  else
    let '(epoch, rest) := split_epoch (strip_v_prefix (span_bytes v)) in
    match lex (truncate_build_metadata rest) with
    | [] => None
    | ts => Some (digits_value epoch, ts)
    end.

Definition comparable (v : span) : bool :=
  match parse_version v with Some _ => true | None => false end.

Definition version_compare_spec (a b : span) : vercmp :=
  match parse_version a, parse_version b with
  | Some (ea, xs), Some (eb, ys) =>
      match of_comparison (ea ?= eb) with
      | VERCMP_EQUAL => compare_tokens xs ys
      | v => v
      end
  | _, _ => VERCMP_UNDECIDABLE
  end.

(** [a] is decided to be at most [b]. *)
Definition vle (a b : span) : Prop :=
  version_compare a b = VERCMP_LESS \/ version_compare a b = VERCMP_EQUAL.

Definition all_digits (s : bytes) : Prop := Forall (fun c => is_digit_byte c = true) s.

(** ** Lemmas: bytes and digit runs *)

Lemma digit_range c : is_digit_byte c = true -> 48 <= c <= 57.
Proof. unfold is_digit_byte. intros H. zbool. Qed.

Lemma digit_not_delim c : is_digit_byte c = true -> is_delim_byte c = false.
Proof. intros H%digit_range. unfold is_delim_byte. rewrite !orb_false_iff. lia. Qed.

Lemma digits_value_bound s :
  all_digits s -> 0 <= digits_value s < 10 ^ Z.of_nat (length s).
Proof.
  induction 1 as [|c s Hc _ IH]; [simpl; lia|]. apply digit_range in Hc.
  cbn [digits_value length]. rewrite Nat2Z.inj_succ, Z.pow_succ_r by lia. nia.
Qed.

Lemma digits_value_lower c s :
  all_digits (c :: s) -> c <> 48 -> 10 ^ Z.of_nat (length s) <= digits_value (c :: s).
Proof.
  intros H Hc. inversion_clear H as [|? ? Hd Hs]. apply digit_range in Hd.
  pose proof (digits_value_bound s Hs). simpl. nia.
Qed.

Lemma digits_value_pos c s : all_digits (c :: s) -> c <> 48 -> 0 < digits_value (c :: s).
Proof.
  intros H Hc. pose proof (digits_value_lower c s H Hc).
  pose proof (Z.pow_pos_nonneg 10 (Z.of_nat (length s))). lia.
Qed.

Lemma digits_value_drop_zeros s : digits_value (drop_while (fun c => c =? 48) s) = digits_value s.
Proof. induction s as [|c s IH]; simpl; [done|]. destruct (c =? 48) eqn:E; simpl; [|done]. lia. Qed.

Lemma all_digits_drop_while f s : all_digits s -> all_digits (drop_while f s).
Proof. induction 1; simpl; [constructor|]. destruct (f _); [done|]. by constructor. Qed.

Lemma all_digits_take_while s : all_digits (take_while is_digit_byte s).
Proof. apply take_while_all. Qed.

Lemma memcmp_digits a b :
  all_digits a -> all_digits b -> length a = length b ->
  memcmp a b = match digits_value a ?= digits_value b with Lt => -1 | Eq => 0 | Gt => 1 end.
Proof.
  intros Ha; revert b; induction Ha as [|x a Hx Ha IH]; intros [|y b] Hb Hl; try done.
  inversion_clear Hb as [|? ? Hy Hb']. injection Hl as Hl.
  simpl. rewrite <- Hl. apply digit_range in Hx, Hy.
  pose proof (digits_value_bound _ Ha). pose proof (digits_value_bound _ Hb') as Hbb.
  rewrite <- Hl in Hbb.
  destruct (x =? y) eqn:E.
  - apply Z.eqb_eq in E as ->. rewrite IH by done. by rewrite Z.add_compare_mono_l.
  - destruct (x <? y) eqn:E2; symmetry; case_match_eqn; try done; exfalso.
    all: rewrite ?Z.compare_eq_iff, ?Z.compare_lt_iff, ?Z.compare_gt_iff in *; nia.
Qed.

Lemma of_comparison_eq c : of_comparison c = VERCMP_EQUAL <-> c = Eq.
Proof. by destruct c. Qed.

Lemma cmp_digit_runs_value a b :
  all_digits a -> all_digits b ->
  cmp_digit_runs a b = of_comparison (digits_value a ?= digits_value b).
Proof.
  intros Ha Hb. unfold cmp_digit_runs.
  rewrite <- (digits_value_drop_zeros a), <- (digits_value_drop_zeros b).
  pose proof (all_digits_drop_while (fun c => c =? 48) _ Ha) as Ha'.
  pose proof (all_digits_drop_while (fun c => c =? 48) _ Hb) as Hb'.
  pose proof (drop_while_head (fun c => c =? 48) a) as Za.
  pose proof (drop_while_head (fun c => c =? 48) b) as Zb.
  destruct (drop_while _ a) as [|x ra]; destruct (drop_while _ b) as [|y rb]; simpl length.
  - done.
  - specialize (Zb _ _ eq_refl). apply Z.eqb_neq in Zb.
    pose proof (digits_value_pos y rb Hb' Zb) as L.
    by rewrite (proj2 (Z.compare_lt_iff (digits_value []) _) L).
  - specialize (Za _ _ eq_refl). apply Z.eqb_neq in Za.
    pose proof (digits_value_pos x ra Ha' Za) as L.
    by rewrite (proj2 (Z.compare_gt_iff _ (digits_value [])) L).
  - specialize (Za _ _ eq_refl). specialize (Zb _ _ eq_refl).
    apply Z.eqb_neq in Za, Zb.
    pose proof (digits_value_lower x ra Ha' Za). pose proof (digits_value_lower y rb Hb' Zb).
    pose proof (digits_value_bound _ Ha') as Ba. pose proof (digits_value_bound _ Hb') as Bb.
    cbn [length] in Ba, Bb.
    destruct (Z.of_nat (S (length ra)) =? Z.of_nat (S (length rb))) eqn:E.
    + apply Z.eqb_eq in E. rewrite (memcmp_digits (x :: ra) (y :: rb) Ha' Hb') by (apply Nat2Z.inj; exact E).
      simpl negb. destruct (Z.of_nat (S (length ra)) =? 0) eqn:E0; [done|].
      by destruct (_ ?= _).
    + simpl negb. cbv iota.
      destruct (Z.of_nat (S (length ra)) <? Z.of_nat (S (length rb))) eqn:E2.
      * assert (digits_value (x :: ra) < digits_value (y :: rb)) as HH.
        { apply Z.lt_le_trans with (10 ^ Z.of_nat (S (length ra))); [zbool|].
          transitivity (10 ^ Z.of_nat (length rb)); [apply Z.pow_le_mono_r; zbool|zbool]. }
        by rewrite (proj2 (Z.compare_lt_iff _ _) HH).
      * assert (digits_value (y :: rb) < digits_value (x :: ra)) as HH.
        { apply Z.lt_le_trans with (10 ^ Z.of_nat (S (length rb))); [zbool|].
          transitivity (10 ^ Z.of_nat (length ra)); [apply Z.pow_le_mono_r; zbool|zbool]. }
        by rewrite (proj2 (Z.compare_gt_iff _ _) HH).
Qed.

Lemma is_all_zero_digits_value s :
  all_digits s -> is_all_zero_digits s = (digits_value s =? 0).
Proof.
  induction 1 as [|c s Hc Hs IH]; [done|]. apply digit_range in Hc.
  pose proof (digits_value_bound s Hs).
  pose proof (Z.pow_pos_nonneg 10 (Z.of_nat (length s)) ltac:(lia) ltac:(lia)).
  unfold is_all_zero_digits in *. simpl. rewrite IH.
  destruct (c =? 48) eqn:E.
  - apply Z.eqb_eq in E as ->. simpl. done.
  - simpl. symmetry. apply Z.eqb_neq. nia.
Qed.

(** ** Lemmas: the tokenizer computes [lex] *)

Lemma mark_delim_idemp ts : mark_delim (mark_delim ts) = mark_delim ts.
Proof. by destruct ts. Qed.

Lemma is_alpha_byte_true c :
  is_digit_byte c = false -> is_delim_byte c = false -> is_alpha_byte c = true.
Proof. unfold is_alpha_byte. by intros -> ->. Qed.

Lemma lex_head c s :
  is_delim_byte c = false ->
  exists txt ts, lex (c :: s) = Tok (is_digit_byte c) (c :: txt) false :: ts.
Proof.
  intros Hc. simpl. rewrite Hc.
  destruct (lex s) as [|[k txt []] ts]; eauto.
  destruct (Bool.eqb k _) eqn:E; eauto.
  apply Bool.eqb_prop in E as ->. eauto.
Qed.

Lemma lex_delims s :
  lex s = if Nat.eqb (length (drop_while is_delim_byte s)) (length s)
          then lex (drop_while is_delim_byte s)
          else mark_delim (lex (drop_while is_delim_byte s)).
Proof.
  induction s as [|c s IH]; [done|]. simpl drop_while.
  destruct (is_delim_byte c) eqn:Hc.
  - simpl lex. rewrite Hc, IH. pose proof (length_drop_while is_delim_byte s).
    destruct (Nat.eqb (length (drop_while _ _)) (length (c :: s))) eqn:E.
    { apply Nat.eqb_eq in E. simpl in E. lia. }
    destruct (Nat.eqb _ (length s)); [done|]. apply mark_delim_idemp.
  - by rewrite Nat.eqb_refl.
Qed.

(** A run of bytes of one class is one component. *)
Lemma lex_run (f : byte -> bool) (k : bool) c s :
  (forall x, f x = true <-> is_digit_byte x = k /\ is_delim_byte x = false) ->
  f c = true ->
  lex (c :: s) = Tok k (take_while f (c :: s)) false :: lex (drop_while f (c :: s)).
Proof.
  intros Hf. revert c; induction s as [|d s IH]; intros c Hc; pose proof Hc as [Hk Hd]%Hf.
  { simpl. by rewrite Hc, Hd, Hk. }
  simpl take_while. simpl drop_while. rewrite Hc.
  change (lex (c :: d :: s)) with
    (if is_delim_byte c then mark_delim (lex (d :: s))
     else match lex (d :: s) with
          | Tok k txt false :: ts =>
               if Bool.eqb k (is_digit_byte c) then Tok k (c :: txt) false :: ts
               else Tok (is_digit_byte c) [c] false :: Tok k txt false :: ts
          | ts => Tok (is_digit_byte c) [c] false :: ts
          end).
  rewrite Hd, Hk. destruct (f d) eqn:Hfd.
  - rewrite (IH d Hfd). simpl take_while. simpl drop_while. rewrite Hfd.
    by rewrite Bool.eqb_reflx.
  - destruct (is_delim_byte d) eqn:Hdd.
    + simpl. rewrite Hdd. by destruct (lex s) as [|[] ?].
    + destruct (lex_head d s Hdd) as (txt & ts & ->).
      destruct (Bool.eqb _ k) eqn:E; [|done].
      apply Bool.eqb_prop in E. assert (f d = true) by (by apply Hf). congruence.
Qed.

Lemma drop_while_shorter f c s : f c = true -> (length (drop_while f (c :: s)) < length (c :: s))%nat.
Proof. intros H. simpl. rewrite H. pose proof (length_drop_while f s). lia. Qed.

(** One token of the C tokenizer is the first component of [lex]. *)
Lemma next_token_lex buf :
  match next_token buf with
  | (TOK_NONE, _, _, _) => lex buf = []
  | (TOK_NUM, s, d, rest) =>
      lex buf = Tok true s d :: lex rest /\ all_digits s /\ (length rest < length buf)%nat
  | (TOK_ALPHA, s, d, rest) =>
      lex buf = Tok false s d :: lex rest /\ (length rest < length buf)%nat
  end.
Proof.
  unfold next_token. rewrite (lex_delims buf).
  pose proof (length_drop_while is_delim_byte buf) as Hlen.
  pose proof (drop_while_head is_delim_byte buf) as Hhead.
  destruct (drop_while is_delim_byte buf) as [|c p].
  { by destruct (Nat.eqb _ _). }
  specialize (Hhead _ _ eq_refl). destruct (is_digit_byte c) eqn:Hc.
  - rewrite (lex_run is_digit_byte true c p); [|split; [|by intros []]|done].
    2: { intros Hx. split; [done|]. by apply digit_not_delim. }
    pose proof (drop_while_shorter is_digit_byte c p Hc).
    split; [by destruct (Nat.eqb _ _)|]. split; [apply all_digits_take_while|].
    lia.
  - rewrite (lex_run is_alpha_byte false c p).
    + pose proof (drop_while_shorter is_alpha_byte c p (is_alpha_byte_true c Hc Hhead)).
      split; [by destruct (Nat.eqb _ _)|]. lia.
    + intros x. unfold is_alpha_byte. rewrite andb_true_iff, !negb_true_iff. done.
    + by apply is_alpha_byte_true.
Qed.

Lemma ambiguous_attached_lex s rest :
  is_ambiguous_attached_letter s rest = ambiguous_letter s (lex rest).
Proof.
  destruct s as [|x [|]]; [done| |done]. simpl.
  assert (bool_decide (to_lower_ascii x ∈ [97; 98; 99]) =
          negb (negb (to_lower_ascii x =? 97) && negb (to_lower_ascii x =? 98)
                && negb (to_lower_ascii x =? 99))) as ->.
  { rewrite !negb_andb, !negb_involutive.
    destruct (_ =? 97) eqn:E1, (_ =? 98) eqn:E2, (_ =? 99) eqn:E3; simpl;
      apply bool_decide_eq_true || apply bool_decide_eq_false;
      rewrite !elem_of_cons, elem_of_nil; zbool. }
  destruct (negb _ && _ && _); simpl; [by repeat case_match|].
  destruct rest as [|d rest]; [done|].
  destruct (is_delim_byte d) eqn:Hd.
  - simpl. rewrite Hd. destruct (is_digit_byte d) eqn:E.
    { by rewrite (digit_not_delim d E) in Hd. }
    by destruct (lex rest) as [|[[] ? ?] ?].
  - destruct (lex_head d rest Hd) as (txt & ts & ->). by destruct (is_digit_byte d).
Qed.

(** ** Lemmas: the loops compute the reference definitions *)

Lemma alpha_keyword_rank_cases s :
  (alpha_keyword_rank s = 0 /\ is_prerelease_keyword s = true) \/
  (alpha_keyword_rank s = 1 /\ is_prerelease_keyword s = false /\
   is_release_equivalent_keyword s = true) \/
  (alpha_keyword_rank s = 2 /\ is_prerelease_keyword s = false /\
   is_release_equivalent_keyword s = false).
Proof.
  unfold alpha_keyword_rank.
  destruct (is_prerelease_keyword s), (is_release_equivalent_keyword s); auto.
Qed.

Lemma residual_verdict_fuel_lex fuel buf :
  (length buf < fuel)%nat ->
  residual_verdict_fuel fuel buf = Some (residual_tokens (lex buf)).
Proof.
  revert buf; induction fuel as [|fuel IH]; intros buf Hf; [lia|]. simpl.
  pose proof (next_token_lex buf) as H.
  destruct (next_token buf) as [[[[] s] d] rest].
  - by rewrite H.
  - destruct H as (-> & Hd & Hl). simpl. rewrite (is_all_zero_digits_value s Hd).
    destruct (_ =? 0); simpl; [|done]. apply IH. lia.
  - destruct H as (-> & Hl). simpl.
    destruct (alpha_keyword_rank_cases s) as [(-> & ->)|[(-> & -> & ->)|(-> & -> & ->)]]; simpl.
    + done.
    + apply IH. lia.
    + rewrite ambiguous_attached_lex. by destruct d, (ambiguous_letter _ _).
Qed.

Lemma compare_loop_lex fuel a b :
  (length a < fuel)%nat ->
  compare_loop fuel a b = Some (compare_tokens (lex a) (lex b)).
Proof.
  revert a b; induction fuel as [|fuel IH]; intros a b Hf; [lia|]. simpl.
  pose proof (next_token_lex a) as Ha. pose proof (next_token_lex b) as Hb.
  assert (residual_verdict a = Some (residual_tokens (lex a))) as Ra
    by (apply residual_verdict_fuel_lex; lia).
  assert (residual_verdict b = Some (residual_tokens (lex b))) as Rb
    by (apply residual_verdict_fuel_lex; lia).
  destruct (next_token a) as [[[ta sa] da] ra]. destruct (next_token b) as [[[tb sb] db] rb].
  destruct ta.
  - rewrite Rb, Ha. by destruct tb; [rewrite Hb|..].
  - destruct Ha as (Ha & Da & La). destruct tb.
    + rewrite Ra, Hb, Ha. done.
    + destruct Hb as (Hb & Db & Lb). rewrite Ha, Hb. simpl. unfold compare_heads. simpl.
      rewrite cmp_digit_runs_value by done.
      destruct (of_comparison _); [done| |done|done]. apply IH. lia.
    + destruct Hb as (Hb & Lb). by rewrite Ha, Hb.
  - destruct Ha as (Ha & La). destruct tb.
    + rewrite Ra, Hb, Ha. done.
    + destruct Hb as (Hb & Db & Lb). by rewrite Ha, Hb.
    + destruct Hb as (Hb & Lb). rewrite Ha, Hb. simpl. unfold compare_heads. simpl.
      assert (cmp_alpha_components sa sb <> Some VERCMP_EQUAL) as Hne
        by (unfold cmp_alpha_components; repeat case_match; congruence).
      destruct (cmp_alpha_components sa sb) as [[]|]; simpl; try done. apply IH. lia.
Qed.

Lemma first_token_none_lex rest :
  first_token_none rest = match lex rest with [] => true | _ => false end.
Proof.
  unfold first_token_none. pose proof (next_token_lex rest) as H.
  destruct (next_token rest) as [[[[] ?] ?] ?].
  - by rewrite H.
  - by destruct H as (-> & _).
  - by destruct H as (-> & _).
Qed.

Lemma split_epoch_digits s : all_digits (split_epoch s).1.
Proof.
  unfold split_epoch. pose proof (all_digits_take_while s) as H.
  destruct (take_while _ s) as [|c e]; [by repeat constructor|].
  repeat case_match; try done; by repeat constructor.
Qed.

Lemma length_split_epoch s : (length (split_epoch s).2 <= length s)%nat.
Proof.
  unfold split_epoch. pose proof (length_drop_while is_digit_byte s) as H.
  destruct (take_while _ s) as [|c e]; [done|].
  repeat case_match; simpl in *; lia.
Qed.

Lemma length_strip_v s : (length (strip_v_prefix s) <= length s)%nat.
Proof. destruct s as [|v [|d s]]; simpl; try lia. case_match; simpl; lia. Qed.

Lemma length_truncate s : (length (truncate_build_metadata s) <= length s)%nat.
Proof.
  unfold truncate_build_metadata.
  pose proof (length_take_drop_while (fun c => negb (c =? 43)) s). lia.
Qed.

Lemma version_compare_fuel_spec fuel a b :
  (length (span_bytes a) < fuel)%nat ->
  version_compare_fuel fuel a b = Some (version_compare_spec a b).
Proof.
  intros Hf. unfold version_compare_fuel, version_compare_spec, parse_version.
  set (sa := strip_v_prefix (span_bytes a)). set (sb := strip_v_prefix (span_bytes b)).
  pose proof (split_epoch_digits sa) as Da. pose proof (split_epoch_digits sb) as Db.
  pose proof (length_split_epoch sa) as La. pose proof (length_strip_v (span_bytes a)) as Lv.
  fold sa in Lv.
  destruct (split_epoch sa) as [ea ra], (split_epoch sb) as [eb rb]. simpl in *.
  pose proof (length_truncate ra) as Lt.
  rewrite !first_token_none_lex, cmp_digit_runs_value by done.
  destruct (null_with_length a), (null_with_length b); simpl; try done;
    destruct (has_disallowed_byte (span_bytes a)); simpl; try done;
    destruct (has_disallowed_byte (span_bytes b)); simpl; try done;
    try (by destruct (lex (truncate_build_metadata ra))).
  pose proof (compare_loop_lex fuel (truncate_build_metadata ra) (truncate_build_metadata rb)) as HL.
  destruct (lex (truncate_build_metadata ra)) eqn:Ea; simpl; [done|].
  destruct (lex (truncate_build_metadata rb)) eqn:Eb; simpl; [done|].
  destruct (of_comparison _); try done. apply HL. lia.
Qed.

Lemma version_compare_unfold a b : version_compare a b = version_compare_spec a b.
Proof. unfold version_compare. rewrite version_compare_fuel_spec by lia. done. Qed.

(** ** Lemmas: the order on components *)

Lemma alpha_cmp_ci_flip a b : alpha_cmp_ci b a = - alpha_cmp_ci a b.
Proof.
  revert b; induction a as [|x a IH]; intros [|y b]; simpl; try done.
  rewrite (Z.eqb_sym (to_lower_ascii y)).
  destruct (to_lower_ascii x =? to_lower_ascii y) eqn:E; simpl; [apply IH|].
  destruct (to_lower_ascii x <? _) eqn:E1, (to_lower_ascii y <? _) eqn:E2; zbool.
Qed.

Lemma alpha_cmp_ci_trans a b c :
  alpha_cmp_ci a b <= 0 -> alpha_cmp_ci b c <= 0 ->
  alpha_cmp_ci a c <= 0 /\
  (alpha_cmp_ci a c = 0 -> alpha_cmp_ci a b = 0 /\ alpha_cmp_ci b c = 0).
Proof.
  revert b c; induction a as [|x a IH]; intros [|y b] [|z c]; simpl; try lia.
  generalize (to_lower_ascii x) (to_lower_ascii y) (to_lower_ascii z). intros x' y' z'.
  destruct (x' =? y') eqn:E1; simpl; [|destruct (x' <? y') eqn:E1'; [|lia]];
    (destruct (y' =? z') eqn:E2; simpl; [|destruct (y' <? z') eqn:E2'; [|lia]]);
    (destruct (x' =? z') eqn:E3; simpl; [|destruct (x' <? z') eqn:E3'; simpl]);
    intros H1 H2; try (apply (IH b c H1 H2)); breflect; lia.
Qed.

(** Residual of one component: [None] is "contributes nothing". *)
Lemma compare_heads_flip x y : compare_heads y x = flip (compare_heads x y).
Proof.
  destruct x as [[] x dx], y as [[] y dy]; unfold compare_heads; simpl; try done.
  - rewrite Z.compare_antisym. by destruct (_ ?= _).
  - unfold cmp_alpha_components. rewrite (alpha_cmp_ci_flip x y).
    destruct (alpha_keyword_rank_cases x) as [(-> & _)|[(-> & _)|(-> & _)]],
      (alpha_keyword_rank_cases y) as [(-> & _)|[(-> & _)|(-> & _)]]; simpl; try done.
    all: destruct (alpha_cmp_ci x y <? 0) eqn:E1, (0 <? alpha_cmp_ci x y) eqn:E2,
      (- alpha_cmp_ci x y <? 0) eqn:E3, (0 <? - alpha_cmp_ci x y) eqn:E4; try done; zbool.
Qed.

Lemma compare_heads_refl x : compare_heads x x = VERCMP_EQUAL.
Proof.
  destruct x as [[] x d]; unfold compare_heads; simpl.
  - by rewrite Z.compare_refl.
  - assert (alpha_cmp_ci x x = 0) as E by (pose proof (alpha_cmp_ci_flip x x); lia).
    unfold cmp_alpha_components. rewrite E, Z.eqb_refl. simpl. by case_match.
Qed.

Lemma flip_flip v : flip (flip v) = v.
Proof. by destruct v. Qed.

Lemma compare_tokens_flip xs ys : compare_tokens ys xs = flip (compare_tokens xs ys).
Proof.
  revert ys; induction xs as [|x xs IH]; intros [|y ys].
  - done.
  - by rewrite <- (flip_flip (compare_tokens (y :: ys) [])).
  - done.
  - simpl. rewrite (compare_heads_flip x y). by destruct (compare_heads x y); simpl.
Qed.

Lemma compare_tokens_refl xs : compare_tokens xs xs = VERCMP_EQUAL.
Proof. induction xs as [|x xs IH]; [done|]. simpl. by rewrite compare_heads_refl. Qed.

Lemma compare_tokens_app xs ys : compare_tokens xs (xs ++ ys) = flip (residual_tokens ys).
Proof.
  induction xs as [|x xs IH]; [by destruct ys|]. simpl. by rewrite compare_heads_refl.
Qed.

(** ** Lemmas: the order has no cycles *)

Definition decided_le (v : vercmp) : bool :=
  match v with VERCMP_LESS | VERCMP_EQUAL => true | _ => false end.

Definition tok_ok (t : tok) : Prop := tk_num t = true -> 0 <= digits_value (tk_text t).

Lemma lex_ok s : Forall tok_ok (lex s).
Proof.
  remember (length s) as n eqn:Hn. revert s Hn.
  induction n as [n IH] using lt_wf_ind; intros s ->.
  pose proof (next_token_lex s) as H.
  destruct (next_token s) as [[[[] w] d] rest].
  - rewrite H. constructor.
  - destruct H as (-> & Hd & Hl). constructor; [|by eapply IH].
    intros _. simpl. by apply digits_value_bound.
  - destruct H as (-> & Hl). constructor; [done|by eapply IH].
Qed.

(** Case analysis on computed verdicts. *)
Ltac verdicts := repeat (intros; simplify_eq/=; try done; try split).

(** Replaces the keyword ranks and the tests on the sign of comparisons by
    their possible outcomes. *)
Ltac head_cases :=
  repeat match goal with
  | t : tok |- _ => destruct t as [[] ? ?]
  | |- context [alpha_keyword_rank ?s] =>
      destruct (alpha_keyword_rank_cases s) as [(-> & _)|[(-> & _)|(-> & _)]]
  | |- context [?a ?= ?b] => destruct (Z.compare_spec a b)
  | |- context [?a <? ?b] => destruct (Z.ltb_spec a b)
  | |- context [?a =? ?b] => destruct (Z.eqb_spec a b)
  end; simpl in *; try lia;
  repeat match goal with
  | |- context [orb ?a ?b] => destruct (orb a b); simpl
  end; try done.

(** Three components in order. *)
Lemma compare_heads_trans x y z :
  decided_le (compare_heads x y) -> decided_le (compare_heads y z) ->
  decided_le (compare_heads x z) /\
  (compare_heads x z = VERCMP_EQUAL ->
   compare_heads x y = VERCMP_EQUAL /\ compare_heads y z = VERCMP_EQUAL).
Proof.
  pose proof (alpha_cmp_ci_trans (tk_text x) (tk_text y) (tk_text z)) as T.
  unfold compare_heads, cmp_alpha_components.
  destruct x as [[] x dx], y as [[] y dy], z as [[] z dz]; simpl in *; try done.
  - head_cases; verdicts; lia.
  - repeat match goal with
    | |- context [alpha_keyword_rank ?s] =>
      destruct (alpha_keyword_rank_cases s) as [(-> & _)|[(-> & _)|(-> & _)]]
    end; simpl; try done.
    all: head_cases; verdicts; lia.
Qed.

Lemma residual_up ys zs :
  Forall tok_ok ys ->
  decided_le (flip (residual_tokens ys)) -> decided_le (compare_tokens ys zs) ->
  residual_tokens zs <> VERCMP_LESS /\
  (residual_tokens zs = VERCMP_EQUAL ->
   residual_tokens ys = VERCMP_EQUAL /\ compare_tokens ys zs = VERCMP_EQUAL).
Proof.
  intros Hok; revert zs; induction Hok as [|y ys Hy Hok IH]; intros zs.
  { change (compare_tokens [] zs) with (flip (residual_tokens zs)).
    destruct (residual_tokens zs); verdicts. }
  destruct zs as [|z zs].
  { change (compare_tokens (y :: ys) []) with (residual_tokens (y :: ys)).
    destruct (residual_tokens (y :: ys)); verdicts. }
  specialize (IH zs). unfold tok_ok in Hy. simpl.
  unfold compare_heads, cmp_alpha_components.
  destruct y as [[] y dy], z as [[] z dz]; simpl in *; try (by intros _ []).
  - head_cases; verdicts; lia.
  - head_cases; verdicts.
Qed.

Lemma residual_down xs ys :
  Forall tok_ok xs ->
  decided_le (residual_tokens ys) -> decided_le (compare_tokens xs ys) ->
  residual_tokens xs <> VERCMP_GREATER /\
  (residual_tokens xs = VERCMP_EQUAL ->
   residual_tokens ys = VERCMP_EQUAL /\ compare_tokens xs ys = VERCMP_EQUAL).
Proof.
  intros Hok; revert ys; induction Hok as [|x xs Hx Hok IH]; intros ys.
  { change (compare_tokens [] ys) with (flip (residual_tokens ys)).
    destruct (residual_tokens ys); verdicts. }
  destruct ys as [|y ys].
  { change (compare_tokens (x :: xs) []) with (residual_tokens (x :: xs)).
    destruct (residual_tokens (x :: xs)); verdicts. }
  specialize (IH ys). unfold tok_ok in Hx. simpl.
  unfold compare_heads, cmp_alpha_components.
  destruct x as [[] x dx], y as [[] y dy]; simpl in *; try (by intros _ []).
  - head_cases; verdicts; lia.
  - head_cases; verdicts.
Qed.

Lemma residual_mid xs zs :
  Forall tok_ok xs -> Forall tok_ok zs ->
  decided_le (residual_tokens xs) -> decided_le (flip (residual_tokens zs)) ->
  compare_tokens xs zs <> VERCMP_GREATER /\
  (compare_tokens xs zs = VERCMP_EQUAL ->
   residual_tokens xs = VERCMP_EQUAL /\ residual_tokens zs = VERCMP_EQUAL).
Proof.
  intros Hok; revert zs; induction Hok as [|x xs Hx Hok IH]; intros zs Hz.
  { change (compare_tokens [] zs) with (flip (residual_tokens zs)).
    destruct (residual_tokens zs); verdicts. }
  destruct Hz as [|z zs Hz Hzs].
  { change (compare_tokens (x :: xs) []) with (residual_tokens (x :: xs)).
    destruct (residual_tokens (x :: xs)); verdicts. }
  specialize (IH zs Hzs). unfold tok_ok in Hx, Hz. simpl.
  unfold compare_heads, cmp_alpha_components.
  destruct x as [[] x dx], z as [[] z dz]; simpl in *; try done.
  - head_cases; verdicts; lia.
  - head_cases; verdicts.
Qed.

Lemma compare_tokens_trans xs ys zs :
  Forall tok_ok xs -> Forall tok_ok ys -> Forall tok_ok zs ->
  decided_le (compare_tokens xs ys) -> decided_le (compare_tokens ys zs) ->
  compare_tokens xs zs <> VERCMP_GREATER /\
  (compare_tokens xs zs = VERCMP_EQUAL ->
   compare_tokens xs ys = VERCMP_EQUAL /\ compare_tokens ys zs = VERCMP_EQUAL).
Proof.
  intros Hx; revert ys zs; induction Hx as [|x xs Hx Hxs IH]; intros ys zs Hy Hz.
  { change (compare_tokens [] ys) with (flip (residual_tokens ys)).
    change (compare_tokens [] zs) with (flip (residual_tokens zs)). intros H1 H2.
    destruct (residual_up ys zs Hy H1 H2) as [? HE].
    destruct (residual_tokens zs); (split; [done|]); try done.
    intros _. by destruct (HE eq_refl) as [-> ->]. }
  destruct zs as [|z zs].
  { change (compare_tokens (x :: xs) []) with (residual_tokens (x :: xs)).
    destruct ys as [|y ys].
    { change (compare_tokens (x :: xs) []) with (residual_tokens (x :: xs)).
      destruct (residual_tokens (x :: xs)); verdicts. }
    intros H1 H2.
    destruct (residual_down (x :: xs) (y :: ys) ltac:(by constructor) H2 H1) as [? HE].
    split; [done|]. intros E. by destruct (HE E). }
  destruct ys as [|y ys].
  { change (compare_tokens (x :: xs) []) with (residual_tokens (x :: xs)).
    change (compare_tokens [] (z :: zs)) with (flip (residual_tokens (z :: zs))). intros H1 H2.
    destruct (residual_mid (x :: xs) (z :: zs) ltac:(by constructor) Hz H1 H2) as [? HE].
    split; [done|]. intros E. destruct (HE E) as [-> ->]. done. }
  inversion_clear Hy as [|? ? Hyo Hys]. inversion_clear Hz as [|? ? Hzo Hzs].
  specialize (IH ys zs Hys Hzs). simpl. pose proof (compare_heads_trans x y z) as T.
  destruct (compare_heads x y), (compare_heads y z); simpl in *; try done; try (by intros _ []);
    try (by intros []); destruct (T ltac:(done) ltac:(done)) as [T1 T2];
    destruct (compare_heads x z); simpl in *; try done;
    try (destruct (T2 eq_refl); done); verdicts.
Qed.

(** ** Lemmas: appending a delimited suffix *)

Lemma parse_version_ok v e ts : parse_version v = Some (e, ts) -> Forall tok_ok ts /\ ts <> [].
Proof.
  unfold parse_version. destruct (_ || _); [done|]. destruct (split_epoch _) as [ep rest].
  pose proof (lex_ok (truncate_build_metadata rest)) as H.
  destruct (lex _); [done|]. by intros [= <- <-].
Qed.

Lemma lex_app s r : mark_delim (lex r) = lex r -> lex (s ++ r) = lex s ++ lex r.
Proof.
  intros Hr. induction s as [|c s IH]; [done|]. simpl. rewrite IH.
  destruct (is_delim_byte c); [by destruct (lex s)|].
  destruct (lex s) as [|[k txt []] ts]; simpl.
  - destruct (lex r) as [|[k txt []] ts]; done.
  - done.
  - by destruct (Bool.eqb _ _).
Qed.

Definition starts_with_delim (r : bytes) : bool :=
  match r with c :: _ => is_delim_byte c | [] => false end.

Lemma lex_delim_head r : starts_with_delim r = true -> mark_delim (lex r) = lex r.
Proof. destruct r as [|c r]; [done|]. simpl. intros ->. apply mark_delim_idemp. Qed.

Lemma take_drop_while_stop (f : byte -> bool) s c r :
  f c = false ->
  take_while f (s ++ c :: r) = take_while f s /\
  drop_while f (s ++ c :: r) = drop_while f s ++ c :: r.
Proof.
  intros Hc. induction s as [|x s [IH1 IH2]]; simpl; [by rewrite Hc|].
  destruct (f x); simpl; [by rewrite IH1, IH2|done].
Qed.

Lemma delim_cases c :
  is_delim_byte c = true ->
  is_digit_byte c = false /\ c <> 58 /\ (c =? 118) || (c =? 86) = false.
Proof. unfold is_delim_byte. rewrite !orb_true_iff, !Z.eqb_eq. by intros [[->| ->]| ->]. Qed.

Lemma strip_v_app s c r :
  is_delim_byte c = true -> strip_v_prefix (s ++ c :: r) = strip_v_prefix s ++ c :: r.
Proof.
  intros (Hc & _ & Hv)%delim_cases. destruct s as [|v [|d s]]; simpl; try done.
  - rewrite Hv. by destruct r.
  - by rewrite Hc, andb_false_r.
  - by destruct (_ && _).
Qed.

Lemma split_epoch_app s c r :
  is_delim_byte c = true ->
  split_epoch (s ++ c :: r) = ((split_epoch s).1, (split_epoch s).2 ++ c :: r).
Proof.
  intros (Hc & H58 & _)%delim_cases. unfold split_epoch.
  destruct (take_drop_while_stop is_digit_byte s c r Hc) as [-> ->].
  destruct (take_while _ s) as [|d e]; [done|].
  destruct (drop_while _ s) as [|x rest]; simpl.
  - repeat case_match; done.
  - repeat case_match; done.
Qed.

Lemma split_epoch_subset s c : c ∈ (split_epoch s).2 -> c ∈ s.
Proof.
  unfold split_epoch. pose proof (take_drop_while is_digit_byte s) as E.
  assert (forall x, x ∈ drop_while is_digit_byte s -> x ∈ s) as Hsub.
  { intros x Hx. rewrite <- E. set_solver. }
  repeat case_match; simpl; try done. intros Hc. apply Hsub. set_solver.
Qed.

Lemma strip_v_subset s c : c ∈ strip_v_prefix s -> c ∈ s.
Proof. destruct s as [|v [|d s]]; simpl; try done. destruct (_ && _); set_solver. Qed.

Lemma truncate_id s : 43 ∉ s -> truncate_build_metadata s = s.
Proof.
  unfold truncate_build_metadata.
  induction s as [|c s IH]; [done|]. rewrite not_elem_of_cons. intros [H1 H2]. simpl.
  destruct (Z.eqb_spec c 43); [lia|]. simpl. by rewrite IH.
Qed.

Lemma parse_version_app s r e ts :
  43 ∉ s -> 43 ∉ r -> starts_with_delim r = true -> has_disallowed_byte r = false ->
  parse_version (Span s) = Some (e, ts) ->
  parse_version (Span (s ++ r)) = Some (e, ts ++ lex r).
Proof.
  intros Hs Hr Hd Hb. pose proof (lex_delim_head r Hd) as Hm.
  destruct r as [|c r]; [done|]. simpl in Hd.
  unfold parse_version. simpl. unfold has_disallowed_byte. rewrite existsb_app.
  fold (has_disallowed_byte s) (has_disallowed_byte (c :: r)). rewrite Hb, orb_false_r.
  destruct (has_disallowed_byte s); [done|].
  rewrite strip_v_app, split_epoch_app by done.
  assert (43 ∉ (split_epoch (strip_v_prefix s)).2) as Hn.
  { intros H. by apply split_epoch_subset, strip_v_subset in H. }
  destruct (split_epoch (strip_v_prefix s)) as [ep rest]. simpl in Hn |- *.
  rewrite (truncate_id rest), (truncate_id (rest ++ c :: r)) by set_solver.
  rewrite (lex_app rest (c :: r) Hm). by destruct (lex rest); intros [= <- <-].
Qed.

Lemma comparable_suffix s r :
  43 ∉ s -> 43 ∉ r -> starts_with_delim r = true -> has_disallowed_byte r = false ->
  comparable (Span s) = true ->
  version_compare (Span s) (Span (s ++ r)) = flip (residual_tokens (lex r)).
Proof.
  unfold comparable. intros Hs Hr Hd Hb Hc.
  destruct (parse_version (Span s)) as [[e ts]|] eqn:E; [|done].
  rewrite version_compare_unfold. unfold version_compare_spec.
  rewrite E, (parse_version_app s r e ts) by done.
  rewrite Z.compare_refl. simpl. apply compare_tokens_app.
Qed.

(** Weak transitivity, as the lemma the range evaluation uses. *)
Lemma vle_weak_trans a b c :
  vle a b -> vle b c ->
  version_compare a c <> VERCMP_GREATER /\
  (version_compare a c = VERCMP_EQUAL ->
   version_compare a b = VERCMP_EQUAL /\ version_compare b c = VERCMP_EQUAL).
Proof.
  unfold vle. rewrite !version_compare_unfold. unfold version_compare_spec.
  destruct (parse_version a) as [[ea xs]|] eqn:Ea; [|by intros [?|?]].
  destruct (parse_version b) as [[eb ys]|] eqn:Eb; [|by intros [?|?]].
  destruct (parse_version c) as [[ec zs]|] eqn:Ec; [|by intros _ [?|?]].
  apply parse_version_ok in Ea as [Hx _], Eb as [Hy _], Ec as [Hz _].
  pose proof (compare_tokens_trans xs ys zs Hx Hy Hz) as T.
  destruct (Z.compare_spec ea eb), (Z.compare_spec eb ec), (Z.compare_spec ea ec); simpl;
    intros [V1|V1] [V2|V2]; try done; try lia; try (by split).
  all: apply T; by rewrite ?V1, ?V2.
Qed.

Lemma version_compare_flip a b : version_compare b a = flip (version_compare a b).
Proof.
  rewrite !version_compare_unfold. unfold version_compare_spec.
  destruct (parse_version a) as [[ea xs]|], (parse_version b) as [[eb ys]|]; try done.
  rewrite (Z.compare_antisym ea eb).
  destruct (ea ?= eb); simpl; [|done|done]. apply compare_tokens_flip.
Qed.

(** ** Properties *)

(** C4: With the fuel of the entry point the comparator always returns, and
    its streaming two-buffer walk (epoch split, build-metadata cut, token by
    token comparison, residual walk) computes exactly the order on component
    lists that the reference definitions [lex] and [compare_tokens] give, on
    every input, [NULL] and hostile bytes included. *)
Theorem version_compare_total a b :
  version_compare_fuel (S (length (span_bytes a))) a b = Some (version_compare_spec a b).
Proof. apply version_compare_fuel_spec. lia. Qed.

(** Swapping the arguments swaps the verdict: LESS and GREATER trade
    places, EQUAL and UNDECIDABLE are symmetric. *)
Theorem version_compare_antisym a b : version_compare b a = flip (version_compare a b).
Proof. apply version_compare_flip. Qed.

(** A version compares EQUAL with itself exactly when it has comparable
    content; an input without (NULL with a length, a control or non-ASCII
    byte, nothing after the epoch) is UNDECIDABLE against every version. *)
Theorem version_compare_reflexive a b :
  version_compare a a = (if comparable a then VERCMP_EQUAL else VERCMP_UNDECIDABLE) /\
  (comparable a = false -> version_compare a b = VERCMP_UNDECIDABLE).
Proof.
  rewrite !version_compare_unfold. unfold version_compare_spec, comparable.
  destruct (parse_version a) as [[e xs]|]; [|done].
  rewrite Z.compare_refl. simpl. by rewrite compare_tokens_refl.
Qed.

(** C9: The decided verdicts form no cycle: if [a <= b] and [b <= c] are
    decided, then [a > c] is never reported, and [a = c] only when both steps
    were EQUAL.  (Plain transitivity is false: [a] against [c] may be
    UNDECIDABLE.) *)
Theorem version_compare_no_cycle a b c :
  vle a b -> vle b c ->
  version_compare a c <> VERCMP_GREATER /\
  (version_compare a c = VERCMP_EQUAL ->
   version_compare a b = VERCMP_EQUAL /\ version_compare b c = VERCMP_EQUAL).
Proof. apply vle_weak_trans. Qed.

Lemma version_compare_no_cycle_witness :
  version_compare (Span (bs "1.0-rc1")) (Span (bs "1.0.1")) <> VERCMP_GREATER.
Proof.
  apply (version_compare_no_cycle _ (Span (bs "1.0")) _).
  - left. reflexivity.
  - left. reflexivity.
Defined.

(** Digit runs of any length compare as the numbers they write, leading
    zeros ignored, without a conversion that could overflow. *)
Theorem cmp_digit_runs_numeric a b :
  all_digits a -> all_digits b ->
  cmp_digit_runs a b = of_comparison (digits_value a ?= digits_value b).
Proof. apply cmp_digit_runs_value. Qed.

Lemma cmp_digit_runs_numeric_witness :
  cmp_digit_runs (bs "000184467440737095516160") (bs "18446744073709551617") = VERCMP_GREATER.
Proof.
  rewrite (cmp_digit_runs_numeric (bs "000184467440737095516160") (bs "18446744073709551617")).
  - reflexivity.
  - repeat constructor.
  - repeat constructor.
Defined.

(** What a delimited suffix does to a comparable version: a pre-release
    keyword makes it older than the bare release, a release-equivalent
    keyword or a zero component leaves it EQUAL, a non-zero number makes it
    newer, and an unknown word is UNDECIDABLE, never a guess. *)
Theorem version_suffix_verdict s d w :
  43 ∉ s -> comparable (Span s) = true ->
  is_delim_byte d = true -> w <> [] -> has_disallowed_byte w = false -> 43 ∉ w ->
  (Forall (fun c => is_alpha_byte c = true) w ->
   version_compare (Span s) (Span (s ++ d :: w)) =
     (if is_prerelease_keyword w then VERCMP_GREATER
      else if is_release_equivalent_keyword w then VERCMP_EQUAL
      else VERCMP_UNDECIDABLE)) /\
  (all_digits w ->
   version_compare (Span s) (Span (s ++ d :: w)) =
     (if digits_value w =? 0 then VERCMP_EQUAL else VERCMP_LESS)).
Proof.
  intros Hs Hc Hd Hne Hb Hp.
  assert (has_disallowed_byte (d :: w) = false) as Hb'.
  { simpl. rewrite Hb, orb_false_r. revert Hd. unfold is_delim_byte.
    rewrite !orb_true_iff, !Z.eqb_eq. by intros [[->| ->]| ->]. }
  assert (43 ∉ d :: w) as Hp'.
  { rewrite not_elem_of_cons. split; [|done]. revert Hd. unfold is_delim_byte.
    rewrite !orb_true_iff, !Z.eqb_eq. lia. }
  rewrite (comparable_suffix s (d :: w)) by done. simpl lex. rewrite Hd.
  destruct w as [|c w]; [done|]. split; intros Hall.
  - rewrite (lex_run is_alpha_byte false c w).
    + destruct (take_drop_while_id is_alpha_byte (c :: w) Hall) as [-> ->].
      cbn [lex mark_delim tk_num tk_text residual_tokens].
      destruct (alpha_keyword_rank_cases (c :: w)) as [(-> & ->)|[(-> & -> & ->)|(-> & -> & ->)]];
        done.
    + intros x. unfold is_alpha_byte. rewrite andb_true_iff, !negb_true_iff. done.
    + by inversion Hall.
  - rewrite (lex_run is_digit_byte true c w).
    + destruct (take_drop_while_id is_digit_byte (c :: w) Hall) as [-> ->].
      cbn [lex mark_delim tk_num tk_text residual_tokens].
      by destruct (_ =? 0).
    + intros x. split; [|by intros []]. intros Hx. split; [done|]. by apply digit_not_delim.
    + by inversion Hall.
Qed.

Lemma version_suffix_verdict_witness :
  version_compare (Span (bs "2.4")) (Span (bs "2.4-rc")) = VERCMP_GREATER /\
  version_compare (Span (bs "2.4")) (Span (bs "2.4.00")) = VERCMP_EQUAL.
Proof.
  split.
  - apply (version_suffix_verdict (bs "2.4") 45 (bs "rc")); vm_compute; try done.
    + by intros H; repeat (apply elem_of_cons in H as [H|H]; [done|]); inversion H.
    + by intros H; repeat (apply elem_of_cons in H as [H|H]; [done|]); inversion H.
    + repeat constructor.
  - apply (version_suffix_verdict (bs "2.4") 46 (bs "00")); vm_compute; try done.
    + by intros H; repeat (apply elem_of_cons in H as [H|H]; [done|]); inversion H.
    + by intros H; repeat (apply elem_of_cons in H as [H|H]; [done|]); inversion H.
    + repeat constructor.
Defined.
