(* ===== verification/CpeMatch.v ===== *)
(** * CPE row evaluation ([src/src/match/cpe_match.c])

    One candidate row of [cve_cpe_matches] against one detected version.
    The comparator is reached through [version_compare] only.  A read through
    a NULL bound pointer is undefined behaviour in C: it is the [None] of the
    evaluators. *)

From S2P Require Import Prelude VersionCompare.

(** [cytadel_cpe_match_t] *)
Inductive cpe_match := CPE_NO_MATCH | CPE_MATCH | CPE_UNDECIDABLE | CPE_MALFORMED_ROW.

#[export] Instance cpe_match_eq_dec : EqDecision cpe_match.
Proof. solve_decision. Defined.

(** [cytadel_cpe_match_row_t] *)
Record cpe_match_row := CpeMatchRow {
  row_version : span;
  version_start_including : span;
  version_start_excluding : span;
  version_end_including : span;
  version_end_excluding : span;
  vulnerable : Z
}.

Definition span_len (s : span) : Z :=
  match s with NullSpan len => len | Span b => Z.of_nat (length b) end.

Definition cpe_is_star (s : span) : bool :=
  match s with Span [c] => c =? 42 | _ => false end.

Inductive bound_kind :=
  | BOUND_START_INCLUDING | BOUND_START_EXCLUDING
  | BOUND_END_INCLUDING | BOUND_END_EXCLUDING.

Inductive bound_verdict := BOUND_PASS | BOUND_FAIL | BOUND_UNDECIDABLE.

#[export] Instance bound_verdict_eq_dec : EqDecision bound_verdict.
Proof. solve_decision. Defined.

Definition cpe_bound_verdict (kind : bound_kind) (cmp : vercmp) : bound_verdict :=
  match cmp with
  | VERCMP_UNDECIDABLE => BOUND_UNDECIDABLE
  | _ =>
      match kind with
      | BOUND_START_INCLUDING =>
          match cmp with VERCMP_GREATER | VERCMP_EQUAL => BOUND_PASS | _ => BOUND_FAIL end
      | BOUND_START_EXCLUDING =>
          match cmp with VERCMP_GREATER => BOUND_PASS | _ => BOUND_FAIL end
      | BOUND_END_INCLUDING =>
          match cmp with VERCMP_LESS | VERCMP_EQUAL => BOUND_PASS | _ => BOUND_FAIL end
      | BOUND_END_EXCLUDING =>
          match cmp with VERCMP_LESS => BOUND_PASS | _ => BOUND_FAIL end
      end
  end.

(** [cytadel_cpe_bound_is_sentinel_only]: [None] is the read of [s[0]]
    through a NULL pointer with a non-zero length. *)
Definition cpe_bound_is_sentinel_only (s : span) : option bool :=
  if span_len s =? 0 then Some false
  else match s with
       | NullSpan _ => None
       | Span b => Some (forallb (fun c => (c =? 42) || (c =? 45)) b)
       end.

(** [cytadel_bound_field_t] *)
Record bound_field := BoundField { bf_span : span; bf_kind : bound_kind }.

(** The four-element array of [cytadel_cpe_evaluate_range_row]. *)
Definition row_bounds (row : cpe_match_row) : list bound_field :=
  [BoundField (version_start_including row) BOUND_START_INCLUDING;
   BoundField (version_start_excluding row) BOUND_START_EXCLUDING;
   BoundField (version_end_including row) BOUND_END_INCLUDING;
   BoundField (version_end_excluding row) BOUND_END_EXCLUDING].

(** The loop over the bounds and the combination after it. *)
Fixpoint range_loop (detected : span) (bounds : list bound_field)
    (any_set any_fail any_undecidable : bool) : option cpe_match :=
  match bounds with
  | [] =>
      Some (if negb any_set then CPE_MALFORMED_ROW
            else if any_fail then CPE_NO_MATCH
            else if any_undecidable then CPE_UNDECIDABLE
            else CPE_MATCH)
  | b :: bounds =>
      if span_len (bf_span b) =? 0 then
        range_loop detected bounds any_set any_fail any_undecidable
      else
        match cpe_bound_is_sentinel_only (bf_span b) with
        | None => None
        | Some true => Some CPE_MALFORMED_ROW
        | Some false =>
            match cpe_bound_verdict (bf_kind b) (version_compare detected (bf_span b)) with
            | BOUND_FAIL => range_loop detected bounds true true any_undecidable
            | BOUND_UNDECIDABLE => range_loop detected bounds true any_fail true
            | BOUND_PASS => range_loop detected bounds true any_fail any_undecidable
            end
        end
  end.

Definition cpe_evaluate_range_row (row : cpe_match_row) (detected : span) : option cpe_match :=
  range_loop detected (row_bounds row) false false false.

(** [cytadel_cpe_match_evaluate]; the row pointer may be NULL. *)
Definition cpe_match_evaluate (row : option cpe_match_row) (detected : span) : option cpe_match :=
  match row with
  | None => Some CPE_UNDECIDABLE
  | Some row =>
      if vulnerable row =? 0 then Some CPE_NO_MATCH
      else if cpe_is_star (row_version row) || (span_len (row_version row) =? 0)
      then cpe_evaluate_range_row row detected
      else
        match version_compare detected (row_version row) with
        | VERCMP_EQUAL => Some CPE_MATCH
        | VERCMP_UNDECIDABLE => Some CPE_UNDECIDABLE
        | VERCMP_LESS | VERCMP_GREATER => Some CPE_NO_MATCH
        end
  end.

(** ** Reference definitions *)

(** The documented contract: NULL only with length 0. *)
Definition span_ok (s : span) : bool :=
  match s with NullSpan len => len =? 0 | Span _ => true end.

Definition bounds_ok (bounds : list bound_field) : Prop :=
  Forall (fun b => span_ok (bf_span b) = true) bounds.

Definition row_ok (row : cpe_match_row) : Prop := bounds_ok (row_bounds row).

Definition is_set (b : bound_field) : bool := negb (span_len (bf_span b) =? 0).

Definition is_sentinel (b : bound_field) : bool :=
  is_set b && forallb (fun c => (c =? 42) || (c =? 45)) (span_bytes (bf_span b)).

Definition verdict_of (detected : span) (b : bound_field) : bound_verdict :=
  cpe_bound_verdict (bf_kind b) (version_compare detected (bf_span b)).

Definition bound_is (v : bound_verdict) (detected : span) (b : bound_field) : bool :=
  is_set b && bool_decide (verdict_of detected b = v).

(** Three-valued conjunction over the set bounds. *)
Definition range_spec (detected : span) (bounds : list bound_field) : cpe_match :=
  if existsb is_sentinel bounds || negb (existsb is_set bounds) then CPE_MALFORMED_ROW
  else if existsb (bound_is BOUND_FAIL detected) bounds then CPE_NO_MATCH
  else if existsb (bound_is BOUND_UNDECIDABLE detected) bounds then CPE_UNDECIDABLE
  else CPE_MATCH.

(** A row of the shape the NVD feed delivers, for the examples. *)
Definition example_row : cpe_match_row :=
  CpeMatchRow (Span (bs "*")) (Span (bs "2.4.0")) (NullSpan 0) (NullSpan 0) (Span (bs "2.4.50")) 1.

(** ** Lemmas *)

Lemma sentinel_only_ok b :
  span_ok (bf_span b) = true -> is_set b = true ->
  cpe_bound_is_sentinel_only (bf_span b) = Some (is_sentinel b).
Proof.
  unfold is_sentinel, cpe_bound_is_sentinel_only. intros Hok Hs. rewrite Hs.
  unfold is_set in Hs. apply negb_true_iff in Hs. rewrite Hs.
  destruct (bf_span b) as [len|bytes]; simpl in *; [|done]. congruence.
Qed.

(** The loop, started with the three flags set. *)
Definition range_flags (detected : span) (bounds : list bound_field) (s f u : bool) : cpe_match :=
  if existsb is_sentinel bounds then CPE_MALFORMED_ROW
  else if negb (s || existsb is_set bounds) then CPE_MALFORMED_ROW
  else if f || existsb (bound_is BOUND_FAIL detected) bounds then CPE_NO_MATCH
  else if u || existsb (bound_is BOUND_UNDECIDABLE detected) bounds then CPE_UNDECIDABLE
  else CPE_MATCH.

Lemma range_loop_flags detected bounds s f u :
  bounds_ok bounds ->
  range_loop detected bounds s f u = Some (range_flags detected bounds s f u).
Proof.
  intros Hok; revert s f u; induction Hok as [|b bounds Hb _ IH]; intros s f u.
  { unfold range_flags. simpl. by rewrite !orb_false_r. }
  unfold range_flags. simpl.
  destruct (span_len (bf_span b) =? 0) eqn:Hlen.
  - rewrite IH. unfold range_flags, is_sentinel, bound_is, is_set. by rewrite Hlen.
  - assert (is_set b = true) as Hset by (unfold is_set; by rewrite Hlen).
    rewrite (sentinel_only_ok b Hb Hset), Hset. simpl. destruct (is_sentinel b); [done|].
    unfold bound_is at 1 3. rewrite Hset, orb_true_r. simpl.
    fold (verdict_of detected b).
    destruct (verdict_of detected b); rewrite IH; unfold range_flags; simpl;
      by rewrite ?orb_true_r.
Qed.

Lemma range_loop_spec detected bounds :
  bounds_ok bounds -> range_loop detected bounds false false false = Some (range_spec detected bounds).
Proof.
  intros H. rewrite range_loop_flags by done. unfold range_flags, range_spec. simpl.
  by destruct (existsb is_sentinel bounds), (existsb is_set bounds).
Qed.

Lemma range_spec_permutation detected bounds bounds' :
  Permutation bounds bounds' -> range_spec detected bounds = range_spec detected bounds'.
Proof. intros H. unfold range_spec. by rewrite !(existsb_permutation _ _ _ H). Qed.

Lemma range_spec_match detected bounds :
  range_spec detected bounds = CPE_MATCH <->
  (exists b, b ∈ bounds /\ is_set b = true) /\
  (forall b, b ∈ bounds -> is_set b = true ->
     is_sentinel b = false /\ verdict_of detected b = BOUND_PASS).
Proof.
  unfold range_spec. rewrite <- existsb_true. split.
  - destruct (existsb is_sentinel bounds) eqn:E1; [done|].
    destruct (existsb is_set bounds) eqn:E2; [|done]. simpl.
    destruct (existsb (bound_is BOUND_FAIL _) _) eqn:E3; [done|].
    destruct (existsb (bound_is BOUND_UNDECIDABLE _) _) eqn:E4; [done|].
    rewrite existsb_false in E1, E3, E4. intros _. split; [done|]. intros b Hb Hs.
    specialize (E1 b Hb). specialize (E3 b Hb). specialize (E4 b Hb). split; [done|].
    unfold bound_is in *. rewrite Hs in E3, E4. simpl in *.
    apply bool_decide_eq_false in E3, E4. by destruct (verdict_of detected b).
  - intros [-> H]. rewrite (proj2 (existsb_false is_sentinel bounds)); simpl.
    2: { intros b Hb. destruct (is_set b) eqn:Hs; [by apply H|]. unfold is_sentinel. by rewrite Hs. }
    rewrite (proj2 (existsb_false (bound_is BOUND_FAIL detected) bounds)),
      (proj2 (existsb_false (bound_is BOUND_UNDECIDABLE detected) bounds)); [done|..];
    intros b Hb; unfold bound_is; destruct (is_set b) eqn:Hs; try done;
      destruct (H b Hb Hs) as [_ ->]; done.
Qed.

Lemma bound_verdict_fail_flip k c :
  cpe_bound_verdict k c = BOUND_FAIL <->
  match k with
  | BOUND_START_INCLUDING => c = VERCMP_LESS
  | BOUND_START_EXCLUDING => c = VERCMP_LESS \/ c = VERCMP_EQUAL
  | BOUND_END_INCLUDING => c = VERCMP_GREATER
  | BOUND_END_EXCLUDING => c = VERCMP_GREATER \/ c = VERCMP_EQUAL
  end.
Proof. destruct k, c; naive_solver. Qed.

Lemma bound_verdict_pass k c :
  cpe_bound_verdict k c = BOUND_PASS <->
  match k with
  | BOUND_START_INCLUDING => c = VERCMP_GREATER \/ c = VERCMP_EQUAL
  | BOUND_START_EXCLUDING => c = VERCMP_GREATER
  | BOUND_END_INCLUDING => c = VERCMP_LESS \/ c = VERCMP_EQUAL
  | BOUND_END_EXCLUDING => c = VERCMP_LESS
  end.
Proof. destruct k, c; naive_solver. Qed.

(** A version between two others passes every bound both of them pass. *)
Lemma bound_convex k b v1 v2 v3 :
  vle v1 v2 -> vle v2 v3 ->
  cpe_bound_verdict k (version_compare v1 b) = BOUND_PASS ->
  cpe_bound_verdict k (version_compare v3 b) = BOUND_PASS ->
  cpe_bound_verdict k (version_compare v2 b) <> BOUND_FAIL.
Proof.
  intros H12 H23 P1 P3 F. rewrite bound_verdict_pass in P1, P3. rewrite bound_verdict_fail_flip in F.
  pose proof (vle_weak_trans b v1 v2) as T1. pose proof (vle_weak_trans v2 v3 b) as T3.
  assert (Hf1 := version_compare_flip v1 b). assert (Hf2 := version_compare_flip v2 b).
  unfold vle in *. rewrite Hf1, Hf2 in T1.
  destruct k.
  - rewrite F in T1. simpl in T1.
    by destruct P1 as [P1|P1]; rewrite P1 in T1; simpl in T1; destruct T1; auto.
  - rewrite P1 in T1. simpl in T1.
    by destruct F as [F|F]; rewrite F in T1; simpl in T1; destruct T1 as [T1 T1']; auto;
      try (destruct T1'; auto).
  - by destruct P3 as [P3|P3]; rewrite F, P3 in T3; destruct T3; auto.
  - rewrite P3 in T3.
    by destruct F as [F|F]; rewrite F in T3; destruct T3 as [T3 T3']; auto;
      try (destruct T3'; auto).
Qed.

Lemma is_sentinel_detected b : is_sentinel b = true -> is_set b = true.
Proof. unfold is_sentinel. by intros [? _]%andb_prop. Qed.

Lemma range_spec_convex bounds v1 v2 v3 :
  vle v1 v2 -> vle v2 v3 ->
  range_spec v1 bounds = CPE_MATCH -> range_spec v3 bounds = CPE_MATCH ->
  range_spec v2 bounds = CPE_MATCH \/ range_spec v2 bounds = CPE_UNDECIDABLE.
Proof.
  intros H12 H23 [Hex H1]%range_spec_match [_ H3]%range_spec_match.
  unfold range_spec at 1 2.
  assert (existsb is_sentinel bounds = false) as ->.
  { apply existsb_false. intros b Hb. destruct (is_set b) eqn:Hs.
    - by apply H1.
    - unfold is_sentinel. by rewrite Hs. }
  rewrite (proj2 (existsb_true is_set bounds) Hex).
  assert (existsb (bound_is BOUND_FAIL v2) bounds = false) as ->.
  { apply existsb_false. intros b Hb. unfold bound_is. destruct (is_set b) eqn:Hs; [|done].
    simpl. apply bool_decide_eq_false. destruct (H1 b Hb Hs) as [_ P1], (H3 b Hb Hs) as [_ P3].
    by eapply bound_convex. }
  simpl. destruct (existsb _ _); auto.
Qed.

Lemma vle_between_equal v v1 v2 v3 :
  vle v1 v2 -> vle v2 v3 ->
  version_compare v1 v = VERCMP_EQUAL -> version_compare v3 v = VERCMP_EQUAL ->
  version_compare v2 v = VERCMP_EQUAL \/ version_compare v2 v = VERCMP_UNDECIDABLE.
Proof.
  intros H12 H23 E1 E3.
  destruct (vle_weak_trans v v1 v2) as [T1 _].
  { right. by rewrite (version_compare_flip v1 v), E1. }
  { done. }
  destruct (vle_weak_trans v2 v3 v) as [T3 _]; [done|by right|].
  rewrite (version_compare_flip v2 v) in T1.
  destruct (version_compare v2 v); auto; done.
Qed.

(** ** Properties *)

(** For a row inside the documented contract the range evaluator returns
    the three-valued conjunction of the four bounds: MATCH when some bound is
    set and every set bound is decided to hold, NO_MATCH when some bound is
    decided to fail whatever the others say, MALFORMED_ROW when no bound is
    set or some bound is made of [*] and [-] only, UNDECIDABLE otherwise. *)
Theorem range_row_is_kleene_and row detected :
  row_ok row ->
  cpe_evaluate_range_row row detected = Some (range_spec detected (row_bounds row)) /\
  (cpe_evaluate_range_row row detected = Some CPE_MATCH <->
   (exists b, b ∈ row_bounds row /\ is_set b = true) /\
   (forall b, b ∈ row_bounds row -> is_set b = true ->
      is_sentinel b = false /\ verdict_of detected b = BOUND_PASS)).
Proof.
  intros Hok. unfold cpe_evaluate_range_row. rewrite range_loop_spec by done.
  split; [done|]. rewrite <- range_spec_match. split; [by intros [= ->]|by intros ->].
Qed.

Lemma range_row_is_kleene_and_witness :
  row_ok example_row /\
  cpe_evaluate_range_row example_row (Span (bs "2.4.49")) =
    Some (range_spec (Span (bs "2.4.49")) (row_bounds example_row)).
Proof.
  assert (row_ok example_row) as H by repeat constructor.
  split; [exact H|]. exact (proj1 (range_row_is_kleene_and example_row (Span (bs "2.4.49")) H)).
Defined.

(** The verdict does not depend on the order in which the bounds are
    visited, although the loop returns at once on a sentinel bound. *)
Theorem range_loop_order_independent detected bounds bounds' :
  bounds_ok bounds -> Permutation bounds bounds' ->
  range_loop detected bounds false false false = range_loop detected bounds' false false false.
Proof.
  intros Hok Hp. assert (bounds_ok bounds') as Hok' by (unfold bounds_ok; by rewrite <- Hp).
  rewrite !range_loop_spec by done. by rewrite (range_spec_permutation _ _ _ Hp).
Qed.

Lemma range_loop_order_independent_witness :
  range_loop (Span (bs "2.4.49")) (rev (row_bounds example_row)) false false false =
  Some CPE_MATCH.
Proof.
  transitivity (range_loop (Span (bs "2.4.49")) (row_bounds example_row) false false false).
  - symmetry. apply range_loop_order_independent.
    + repeat constructor.
    + apply Permutation_rev.
  - reflexivity.
Defined.

(** Affected ranges have no holes: if a row matches two versions, a
    version decided to lie between them is never reported as NO_MATCH (nor
    as a malformed row); at worst it is UNDECIDABLE. *)
Theorem match_convex row v1 v2 v3 :
  row_ok row -> vle v1 v2 -> vle v2 v3 ->
  cpe_match_evaluate (Some row) v1 = Some CPE_MATCH ->
  cpe_match_evaluate (Some row) v3 = Some CPE_MATCH ->
  cpe_match_evaluate (Some row) v2 = Some CPE_MATCH \/
  cpe_match_evaluate (Some row) v2 = Some CPE_UNDECIDABLE.
Proof.
  intros Hok H12 H23. simpl. destruct (vulnerable row =? 0); [done|].
  destruct (_ || _).
  - unfold cpe_evaluate_range_row. rewrite !range_loop_spec by done. intros [= M1] [= M3].
    destruct (range_spec_convex (row_bounds row) v1 v2 v3 H12 H23 M1 M3) as [->| ->]; auto.
  - destruct (version_compare v1 _) eqn:E1; try done.
    destruct (version_compare v3 _) eqn:E3; try done. intros _ _.
    destruct (vle_between_equal (row_version row) v1 v2 v3 H12 H23 E1 E3) as [->| ->]; auto.
Qed.

Lemma match_convex_witness :
  cpe_match_evaluate (Some example_row) (Span (bs "2.4.10")) = Some CPE_MATCH \/
  cpe_match_evaluate (Some example_row) (Span (bs "2.4.10")) = Some CPE_UNDECIDABLE.
Proof.
  apply (match_convex example_row (Span (bs "2.4.1")) _ (Span (bs "2.4.49"))).
  - repeat constructor.
  - left. reflexivity.
  - left. reflexivity.
  - reflexivity.
  - reflexivity.
Defined.

Lemma match_evaluate_total row detected :
  row_ok row -> exists m, cpe_match_evaluate (Some row) detected = Some m.
Proof.
  intros Hok. simpl. destruct (vulnerable row =? 0); [by eexists|].
  destruct (_ || _); [|destruct (version_compare _ _); by eexists].
  unfold cpe_evaluate_range_row. rewrite range_loop_spec by done. by eexists.
Qed.

(** A row marked not vulnerable is NO_MATCH whatever its other fields
    hold (garbage and NULL pointers included), and a row inside the contract
    is always evaluated without a read through NULL. *)
Theorem match_evaluate_defined row detected :
  (vulnerable row = 0 -> cpe_match_evaluate (Some row) detected = Some CPE_NO_MATCH) /\
  (row_ok row -> exists m, cpe_match_evaluate (Some row) detected = Some m).
Proof.
  split; [by simpl; intros ->|]. apply match_evaluate_total.
Qed.

Lemma match_evaluate_defined_witness :
  cpe_match_evaluate
    (Some (CpeMatchRow (NullSpan 3) (NullSpan 7) (Span []) (Span []) (Span []) 0)) (Span (bs "1"))
  = Some CPE_NO_MATCH.
Proof.
  apply (match_evaluate_defined
    (CpeMatchRow (NullSpan 3) (NullSpan 7) (Span []) (Span []) (Span []) 0) (Span (bs "1"))).
  reflexivity.
Defined.

(** Outside the contract the documented defence is missing: a vulnerable
    range row whose first set bound is a NULL pointer with a non-zero length
    is read through that pointer, while the detected version and the exact
    version of a row are protected by the comparator's own check. *)
Theorem null_bound_is_dereferenced row detected n :
  vulnerable row <> 0 -> span_len (row_version row) = 0 ->
  n <> 0 -> version_start_including row = NullSpan n ->
  cpe_match_evaluate (Some row) detected = None.
Proof.
  intros Hv Hl Hn Hb. simpl. rewrite (proj2 (Z.eqb_neq _ _) Hv), Hl, orb_true_r.
  unfold cpe_evaluate_range_row. simpl. rewrite Hb. simpl.
  rewrite (proj2 (Z.eqb_neq _ _) Hn).
  unfold cpe_bound_is_sentinel_only. simpl. by rewrite (proj2 (Z.eqb_neq _ _) Hn).
Qed.

Lemma null_bound_is_dereferenced_witness :
  cpe_match_evaluate
    (Some (CpeMatchRow (Span []) (NullSpan 5) (Span []) (Span []) (Span []) 1)) (Span (bs "1"))
  = None.
Proof.
  apply (null_bound_is_dereferenced
    (CpeMatchRow (Span []) (NullSpan 5) (Span []) (Span []) (Span []) 1) (Span (bs "1")) 5);
    [done|done|done|reflexivity].
Defined.
