(* ===== verification/Sqlite.v ===== *)
(** * The database connection: interface and schema

    SQLite is third-party code: the development reaches it through the class
    [Sqlite] (the calls the program makes, reduced to their outcomes) and the
    laws [SqliteLaws], which state its documented transaction behaviour for
    the only connection that writes.  [durable] is what a crash would leave,
    [current] is what the connection reads.  The record [database] is the
    schema that [src/src/db/db_migrations.c] creates; columns that hold the
    clock's current time are not kept.  [toy_conn] is an executable connection
    driven by a list of faults; it satisfies the laws and serves the examples. *)

From S2P Require Import Prelude.

(** ** Schema *)

(** [CREATE TABLE cves] *)
Record cve_row := CveRow {
  cve_published : bytes;
  cve_last_modified : bytes;
  cve_description : bytes;
  cve_cvss_v3_vector : option bytes;
  cve_cvss_v3_base_score : option double;
  cve_cvss_v3_severity : option bytes;
  cve_cvss_v2_vector : option bytes;
  cve_cvss_v2_base_score : option double;
  cve_cvss_v2_severity : option bytes;
  cve_severity : Z;
  cve_source : bytes
}.

(** [CREATE TABLE cve_cpe_matches]; the rows are kept in [id] order.  The
    columns read back as text may be NULL in a damaged file, hence [option]. *)
Record cpe_row := CpeRow {
  cpe_cve_id : option bytes;
  cpe_uri : bytes;
  cpe_part : bytes;
  cpe_vendor : bytes;
  cpe_product : bytes;
  cpe_version : option bytes;
  cpe_start_including : option bytes;
  cpe_start_excluding : option bytes;
  cpe_end_including : option bytes;
  cpe_end_excluding : option bytes;
  cpe_vulnerable : Z
}.

(** [CREATE TABLE scans] *)
Record scan_row := ScanRow {
  scan_id : Z;
  scan_target_spec : bytes;
  scan_authorized_by : bytes;
  scan_authorization_method : bytes;
  scan_status : bytes;
  scan_finished : bool;
  scan_malformed_data_count : Z
}.

(** [CREATE TABLE scan_results] (with the [match_status] column of migration
    2) *)
Record result_row := ResultRow {
  res_scan_id : Z;
  res_host : bytes;
  res_port : Z;
  res_service : option bytes;
  res_plugin_id : bytes;
  res_cve_id : option bytes;
  res_match_status : bytes;
  res_severity : Z;
  res_evidence : bytes;
  res_remediation : option bytes;
  res_kev_flag : Z;
  res_epss_score : option double
}.

(** [CREATE TABLE sync_state] *)
Record sync_row := SyncRow {
  sync_watermark : option bytes;
  sync_total_records : Z;
  sync_status : bytes;
  sync_last_error : option bytes
}.

(** [CREATE TABLE kev] *)
Record kev_row := KevRow {
  kev_date_added : bytes;
  kev_vendor_project : bytes;
  kev_product : bytes;
  kev_vulnerability_name : bytes;
  kev_required_action : option bytes;
  kev_due_date : option bytes;
  kev_known_ransomware : Z;
  kev_notes : option bytes
}.

(** [CREATE TABLE epss] *)
Record epss_row := EpssRow {
  epss_score : double;
  epss_percentile : double;
  epss_score_date : bytes
}.

(** What [sqlite_schema] and [schema_migrations] hold: the columns of every
    table, the indexes, and the migrations recorded (version, description,
    time), oldest first. *)
Record schema := Schema {
  sch_tables : gmap string (list string);
  sch_indexes : gset string;
  sch_applied : list (Z * string * bytes)
}.

Record database := Database {
  db_cves : gmap bytes cve_row;
  db_cpe : list cpe_row;
  db_kev : gmap bytes kev_row;
  db_epss : gmap bytes epss_row;
  db_scans : list scan_row;
  db_results : list result_row;
  db_sync : gmap bytes sync_row;
  db_schema : schema
}.

(** ** The interface *)

(** Outcome of binding and stepping a write statement; [SQLITE_BIND_FAILURE]
    means that a [sqlite3_bind_*] call failed and the statement was not
    stepped. *)
Inductive sqlite_rc :=
  | SQLITE_DONE | SQLITE_CONSTRAINT | SQLITE_BIND_FAILURE | SQLITE_FAILURE.

#[export] Instance sqlite_rc_eq_dec : EqDecision sqlite_rc.
Proof. solve_decision. Defined.

(** [sql_prepare]: compiling a statement.  [sql_write f]: binding and stepping
    an INSERT, UPDATE or upsert whose effect on the contents is [f].
    [sql_read]: binding and stepping a SELECT; when it succeeds the row is
    the one [current] holds. *)
Class Sqlite (C : Type) := {
  durable : C -> database;
  current : C -> database;
  in_tx : C -> bool;
  sql_begin : C -> bool * C;
  sql_commit : C -> bool * C;
  sql_rollback : C -> bool * C;
  sql_prepare : C -> bool * C;
  sql_write : (database -> database) -> C -> sqlite_rc * C;
  sql_read : C -> bool * C
}.

(** The frame of an ingest: BEGIN, the work, COMMIT when it succeeded, and
    ROLLBACK when it or the COMMIT did not ([a0]: the result when there is no
    transaction). *)
Definition transaction {C A : Type} `{Sqlite C} (a0 : A) (body : C -> bool * A * C) (c : C) : bool * A * C :=
  let '(ok, c) := sql_begin c in
  if negb ok then (false, a0, c) else
  let '(ok, a, c) := body c in
  if negb ok then (false, a, (sql_rollback c).2) else
  let '(ok, c) := sql_commit c in
  if negb ok then (false, a, (sql_rollback c).2) else (true, a, c).

Section Laws.
Context {C : Type} `{Sqlite C}.

(** Nothing changed. *)
Definition same_conn (c c' : C) : Prop :=
  durable c' = durable c /\ current c' = current c /\ in_tx c' = in_tx c.

(** A failed call leaves the connection as it was, or SQLite has rolled the
    transaction back by itself (disk full, I/O error, ...). *)
Definition aborted (c c' : C) : Prop :=
  same_conn c c' \/ (durable c' = durable c /\ current c' = durable c /\ in_tx c' = false).

(** The database turned a statement down: a constraint, or a value that could
    not be bound. *)
Definition turned_down (f : database -> database) (c c' : C) : Prop :=
  sql_write f c = (SQLITE_CONSTRAINT, c') \/ sql_write f c = (SQLITE_BIND_FAILURE, c').
End Laws.

Class SqliteLaws (C : Type) `{Sqlite C} : Prop := {
  autocommit_current c : in_tx c = false -> current c = durable c;
  begin_ok c c' : sql_begin c = (true, c') ->
    in_tx c = false /\ in_tx c' = true /\ durable c' = durable c /\ current c' = current c;
  begin_fail c c' : sql_begin c = (false, c') -> same_conn c c';
  commit_ok c c' : sql_commit c = (true, c') ->
    in_tx c = true /\ in_tx c' = false /\ durable c' = current c;
  commit_fail c c' : sql_commit c = (false, c') -> aborted c c';
  rollback_ok c c' : sql_rollback c = (true, c') -> in_tx c' = false /\ durable c' = durable c;
  rollback_fail c c' : sql_rollback c = (false, c') -> aborted c c';
  prepare_ok c c' : sql_prepare c = (true, c') -> same_conn c c';
  prepare_fail c c' : sql_prepare c = (false, c') -> aborted c c';
  read_ok c c' : sql_read c = (true, c') -> same_conn c c';
  read_fail c c' : sql_read c = (false, c') -> aborted c c';
  write_done f c c' : sql_write f c = (SQLITE_DONE, c') ->
    current c' = f (current c) /\ in_tx c' = in_tx c /\
    durable c' = if in_tx c then durable c else f (durable c);
  write_constraint f c c' : sql_write f c = (SQLITE_CONSTRAINT, c') -> same_conn c c';
  write_unbound f c c' : sql_write f c = (SQLITE_BIND_FAILURE, c') -> same_conn c c';
  write_failure f c c' : sql_write f c = (SQLITE_FAILURE, c') -> aborted c c'
}.

(** ** An executable connection *)

(** Outcomes to come: a fault makes the call fail ([Unbound]: while binding;
    [Fails true]: and roll the transaction back). *)
Inductive fault := Works | Rejects | Unbound | Fails (rolls_back : bool).

Record toy_conn := ToyConn {
  toy_durable : database;
  toy_pending : option database;
  toy_faults : list fault
}.

Definition toy_current (c : toy_conn) : database := default (toy_durable c) (toy_pending c).

Definition toy_next (c : toy_conn) : fault * toy_conn :=
  match toy_faults c with
  | [] => (Works, c)
  | f :: fs => (f, ToyConn (toy_durable c) (toy_pending c) fs)
  end.

Definition toy_abort (rolls_back : bool) (c : toy_conn) : toy_conn :=
  if rolls_back then ToyConn (toy_durable c) None (toy_faults c) else c.

Definition toy_call (c : toy_conn) (ok : toy_conn -> bool * toy_conn) : bool * toy_conn :=
  let '(f, c) := toy_next c in
  match f with
  | Works => ok c
  | Rejects | Unbound => (false, c)
  | Fails r => (false, toy_abort r c)
  end.

Definition toy_begin (c : toy_conn) : bool * toy_conn :=
  match toy_pending c with
  | Some _ => (false, c)
  | None => toy_call c (fun c => (true, ToyConn (toy_durable c) (Some (toy_durable c)) (toy_faults c)))
  end.

Definition toy_commit (c : toy_conn) : bool * toy_conn :=
  toy_call c (fun c =>
    match toy_pending c with
    | Some d => (true, ToyConn d None (toy_faults c))
    | None => (false, c)
    end).

Definition toy_rollback (c : toy_conn) : bool * toy_conn :=
  toy_call c (fun c =>
    match toy_pending c with
    | Some _ => (true, ToyConn (toy_durable c) None (toy_faults c))
    | None => (false, c)
    end).

Definition toy_write (f : database -> database) (c : toy_conn) : sqlite_rc * toy_conn :=
  let '(o, c) := toy_next c in
  match o with
  | Works =>
      (SQLITE_DONE,
       match toy_pending c with
       | Some d => ToyConn (toy_durable c) (Some (f d)) (toy_faults c)
       | None => ToyConn (f (toy_durable c)) None (toy_faults c)
       end)
  | Rejects => (SQLITE_CONSTRAINT, c)
  | Unbound => (SQLITE_BIND_FAILURE, c)
  | Fails r => (SQLITE_FAILURE, toy_abort r c)
  end.

#[export] Instance toy_sqlite : Sqlite toy_conn := {
  durable := toy_durable;
  current := toy_current;
  in_tx c := bool_decide (is_Some (toy_pending c));
  sql_begin := toy_begin;
  sql_commit := toy_commit;
  sql_rollback := toy_rollback;
  sql_prepare c := toy_call c (fun c => (true, c));
  sql_write := toy_write;
  sql_read c := toy_call c (fun c => (true, c))
}.

Definition empty_database : database := Database ∅ [] ∅ ∅ [] [] ∅ (Schema ∅ ∅ []).

(** ** Lemmas *)

Section LawLemmas.
Context {C : Type} `{SqliteLaws C}.

Lemma same_conn_refl (c : C) : same_conn c c.
Proof. by repeat split. Qed.

Lemma same_conn_aborted (c c' : C) : same_conn c c' -> aborted c c'.
Proof. by left. Qed.

Lemma turned_down_same f (c c' : C) : turned_down f c c' -> same_conn c c'.
Proof. intros [E|E]; [by apply write_constraint in E|by apply write_unbound in E]. Qed.

Lemma aborted_durable (c c' : C) : aborted c c' -> durable c' = durable c.
Proof. unfold aborted, same_conn. naive_solver. Qed.

(** A write inside a transaction does not reach the disk. *)
Lemma write_done_tx f (c c' : C) :
  sql_write f c = (SQLITE_DONE, c') -> in_tx c = true ->
  current c' = f (current c) /\ in_tx c' = true /\ durable c' = durable c.
Proof. intros E Ht. apply write_done in E as (-> & -> & ->). by rewrite Ht. Qed.

(** Whatever a rollback answers, what is on disk stays. *)
Lemma rollback_durable (c c' : C) b : sql_rollback c = (b, c') -> durable c' = durable c.
Proof.
  destruct b; intros E.
  - by destruct (rollback_ok _ _ E).
  - by apply aborted_durable, rollback_fail.
Qed.

(** A transaction is all or nothing. *)
Lemma transaction_effect {A} (a0 : A) body (P : A -> database -> database -> Prop) (c : C) :
  in_tx c = false ->
  (forall c1 ok a c2, in_tx c1 = true -> body c1 = (ok, a, c2) ->
     durable c2 = durable c1 /\ (ok = true -> in_tx c2 = true /\ P a (current c1) (current c2))) ->
  let '(ok, a, c') := transaction a0 body c in
  (ok = false -> durable c' = durable c) /\
  (ok = true -> in_tx c' = false /\ P a (durable c) (durable c')).
Proof.
  intros Ht HB. pose proof (autocommit_current c Ht) as Hcd. unfold transaction.
  destruct (sql_begin c) as [[] c1] eqn:Eb; cbn [negb].
  2: { apply begin_fail in Eb as (Hd & _). done. }
  apply begin_ok in Eb as (_ & Ht1 & Hd1 & Hc1).
  destruct (body c1) as [[ok a] c2] eqn:E2. apply HB in E2 as [Hd2 HO2]; [|done].
  destruct ok; cbn [negb].
  2: { destruct (sql_rollback c2) as [r c3] eqn:Er. apply rollback_durable in Er. split; [simpl; congruence|done]. }
  destruct (HO2 eq_refl) as [Ht2 HR].
  destruct (sql_commit c2) as [[] c3] eqn:E3; cbn [negb].
  - apply commit_ok in E3 as (_ & Ht3 & Hd3). split; [done|]. intros _. split; [done|].
    rewrite Hd3, <- Hcd, <- Hc1. done.
  - apply commit_fail, aborted_durable in E3.
    destruct (sql_rollback c3) as [r c4] eqn:Er. apply rollback_durable in Er. split; [simpl; congruence|done].
Qed.
End LawLemmas.

Lemma toy_next_parts c :
  toy_durable (toy_next c).2 = toy_durable c /\ toy_pending (toy_next c).2 = toy_pending c.
Proof. unfold toy_next. by destruct (toy_faults c). Qed.

Lemma toy_call_fail c ok c' :
  (forall c0 c1, ok c0 = (false, c1) -> c1 = c0) ->
  toy_call c ok = (false, c') -> aborted c c'.
Proof.
  intros Hok. unfold toy_call. pose proof (toy_next_parts c) as [Hd Hp].
  destruct (toy_next c) as [[| | |r] c1]; simpl in *.
  - intros ->%Hok. left. unfold same_conn. simpl. unfold toy_current. by rewrite Hd, Hp.
  - intros [= <-]. left. unfold same_conn. simpl. unfold toy_current. by rewrite Hd, Hp.
  - intros [= <-]. left. unfold same_conn. simpl. unfold toy_current. by rewrite Hd, Hp.
  - intros [= <-]. destruct r; simpl; [right|left]; unfold same_conn; simpl;
      unfold toy_current; simpl; by rewrite ?Hd, ?Hp.
Qed.

Lemma toy_call_ok c ok c' :
  toy_call c ok = (true, c') ->
  exists c1, toy_durable c1 = toy_durable c /\ toy_pending c1 = toy_pending c /\ ok c1 = (true, c').
Proof.
  unfold toy_call. pose proof (toy_next_parts c) as [Hd Hp].
  destruct (toy_next c) as [[| | |r] c1]; simpl in *; try done. intros E. by exists c1.
Qed.

#[export] Instance toy_sqlite_laws : SqliteLaws toy_conn.
Proof.
  split; simpl.
  - intros c. unfold toy_current. by destruct (toy_pending c).
  - intros c c'. unfold toy_begin. destruct (toy_pending c) eqn:Ep; [done|].
    intros (c1 & Hd & Hp & [= <-])%toy_call_ok. unfold toy_current. simpl. by rewrite Hd, Ep.
  - intros c c'. unfold toy_begin. destruct (toy_pending c) eqn:Ep.
    { intros [= <-]. apply same_conn_refl. }
    intros HF. apply toy_call_fail in HF; [|done].
    destruct HF as [HF|(Hd & Hc & Ht)]; [done|].
    unfold same_conn. simpl in *. unfold toy_current in *. by rewrite Ep in *.
  - intros c c' (c1 & Hd & Hp & E)%toy_call_ok. unfold toy_current.
    rewrite <- Hp. destruct (toy_pending c1); [|done]. by injection E as <-.
  - intros c c'. apply toy_call_fail. intros c0 c1. destruct (toy_pending c0); [done|].
    by intros [= ->].
  - intros c c' (c1 & Hd & Hp & E)%toy_call_ok. rewrite <- Hd.
    destruct (toy_pending c1); [|done]. by injection E as <-.
  - intros c c'. apply toy_call_fail. intros c0 c1. destruct (toy_pending c0); [done|].
    by intros [= ->].
  - intros c c' (c1 & Hd & Hp & [= <-])%toy_call_ok. unfold same_conn. simpl.
    unfold toy_current. by rewrite Hd, Hp.
  - intros c c'. by apply toy_call_fail.
  - intros c c' (c1 & Hd & Hp & [= <-])%toy_call_ok. unfold same_conn. simpl.
    unfold toy_current. by rewrite Hd, Hp.
  - intros c c'. by apply toy_call_fail.
  - intros f c c'. unfold toy_write. pose proof (toy_next_parts c) as [Hd Hp].
    destruct (toy_next c) as [[| | |r] c1]; simpl in *; try done. unfold toy_current.
    rewrite <- Hp, <- Hd. by destruct (toy_pending c1); intros [= <-].
  - intros f c c'. unfold toy_write. pose proof (toy_next_parts c) as [Hd Hp].
    destruct (toy_next c) as [[| | |r] c1]; simpl in *; try done. intros [= <-].
    unfold same_conn. simpl. unfold toy_current. by rewrite Hd, Hp.
  - intros f c c'. unfold toy_write. pose proof (toy_next_parts c) as [Hd Hp].
    destruct (toy_next c) as [[| | |r] c1]; simpl in *; try done. intros [= <-].
    unfold same_conn. simpl. unfold toy_current. by rewrite Hd, Hp.
  - intros f c c'. unfold toy_write. pose proof (toy_next_parts c) as [Hd Hp].
    destruct (toy_next c) as [[| | |r] c1]; simpl in *; try done. intros [= <-].
    destruct r; simpl; [right|left]; unfold same_conn; simpl;
      unfold toy_current; simpl; by rewrite ?Hd, ?Hp.
Qed.

(** Case analysis on the next call of the goal, with what the laws say of the
    connection after it: everything unchanged when a call that does not write
    succeeds, and at least what is on disk when it fails. *)
Ltac sql_step :=
  match goal with
  | |- context [sql_read ?c] =>
      let E := fresh "E" in
      destruct (sql_read c) as [[] ?] eqn:E;
      [apply read_ok in E as (? & ? & ?) | apply read_fail, aborted_durable in E]
  | |- context [sql_prepare ?c] =>
      let E := fresh "E" in
      destruct (sql_prepare c) as [[] ?] eqn:E;
      [apply prepare_ok in E as (? & ? & ?) | apply prepare_fail, aborted_durable in E]
  | |- context [sql_write ?f ?c] =>
      let E := fresh "E" in
      destruct (sql_write f c) as [[] ?] eqn:E;
      [first [apply write_done_tx in E as (? & ? & ?); [|congruence] | apply write_done in E as (? & ? & ?)]
      |apply write_constraint, same_conn_aborted, aborted_durable in E
      |apply write_unbound, same_conn_aborted, aborted_durable in E
      |apply write_failure, aborted_durable in E]
  end; simpl.
