(* ===== verification/Migrations.v ===== *)
(** * The schema and its migrations ([src/src/db/db_migrations.c], [db.c])

    A DDL statement is kept with the names it creates (types, defaults and
    CHECKs are those of the records of [Sqlite]); SQLite refuses to create
    what exists and to alter what does not.  A migration runs with the row that
    records it in one transaction.  [now v] is the clock read for migration
    [v]. *)

From S2P Require Import Prelude Sqlite.

(** [cytadel_db_status_t] *)
Inductive db_status :=
  | DB_OK | DB_ERR_INVALID_ARG | DB_ERR_OOM | DB_ERR_OPEN | DB_ERR_PRAGMA | DB_ERR_MIGRATION | DB_ERR_QUERY.

#[export] Instance db_status_eq_dec : EqDecision db_status.
Proof. solve_decision. Defined.

Definition db_status_to_string (s : db_status) : bytes :=
  match s with
  | DB_OK => bs "OK"
  | DB_ERR_INVALID_ARG => bs "INVALID_ARG"
  | DB_ERR_OOM => bs "OOM"
  | DB_ERR_OPEN => bs "OPEN"
  | DB_ERR_PRAGMA => bs "PRAGMA"
  | DB_ERR_MIGRATION => bs "MIGRATION"
  | DB_ERR_QUERY => bs "QUERY"
  end.

(** ** DDL *)

Inductive ddl :=
  | CreateTable (name : string) (columns : list string)
  | CreateTableIfNotExists (name : string) (columns : list string)
  | CreateIndex (name table : string)
  | AddColumn (table column : string)
  | SeedSync (feed : string).

Definition set_schema (s : schema) (d : database) : database :=
  Database (db_cves d) (db_cpe d) (db_kev d) (db_epss d) (db_scans d) (db_results d) (db_sync d) s.

Definition add_table (name : string) (columns : list string) (d : database) : database :=
  let s := db_schema d in
  set_schema (Schema (<[name := columns]> (sch_tables s)) (sch_indexes s) (sch_applied s)) d.

(** The effect of a statement, [None] when SQLite reports an error. *)
Definition run_ddl (q : ddl) (d : database) : option database :=
  let s := db_schema d in
  match q with
  | CreateTable name columns =>
      match sch_tables s !! name with Some _ => None | None => Some (add_table name columns d) end
  | CreateTableIfNotExists name columns =>
      match sch_tables s !! name with Some _ => Some d | None => Some (add_table name columns d) end
  | CreateIndex name table =>
      match sch_tables s !! table with
      | None => None
      | Some _ =>
          if bool_decide (name ∈ sch_indexes s) then None
          else Some (set_schema (Schema (sch_tables s) ({[name]} ∪ sch_indexes s) (sch_applied s)) d)
      end
  | AddColumn table column =>
      match sch_tables s !! table with
      | None => None
      | Some columns =>
          if bool_decide (column ∈ columns) then None else Some (add_table table (columns ++ [column]) d)
      end
  | SeedSync feed =>
      match sch_tables s !! "sync_state"%string with
      | None => None
      | Some _ =>
          match db_sync d !! bs feed with
          | Some _ => Some d
          | None =>
              Some (Database (db_cves d) (db_cpe d) (db_kev d) (db_epss d) (db_scans d) (db_results d)
                      (<[bs feed := SyncRow None 0 (bs "idle") None]> (db_sync d)) s)
          end
      end
  end.

(** ** The migrations *)

Definition MIGRATION_1_STATEMENTS : list (list ddl) :=
  [[CreateTable "cves" ["cve_id"; "published"; "last_modified"; "description"; "cvss_v3_vector"; "cvss_v3_base_score"; "cvss_v3_severity"; "cvss_v2_vector"; "cvss_v2_base_score"; "cvss_v2_severity"; "severity"; "source"; "ingested_at"];
     CreateIndex "idx_cves_last_modified" "cves";
     CreateIndex "idx_cves_severity" "cves"];
   [CreateTable "cve_cpe_matches" ["id"; "cve_id"; "cpe23_uri"; "part"; "vendor"; "product"; "version"; "version_start_including"; "version_start_excluding"; "version_end_including"; "version_end_excluding"; "vulnerable"];
     CreateIndex "idx_cpe_vendor_product" "cve_cpe_matches";
     CreateIndex "idx_cpe_product" "cve_cpe_matches";
     CreateIndex "idx_cpe_cve_id" "cve_cpe_matches"];
   [CreateTable "kev" ["cve_id"; "date_added"; "vendor_project"; "product"; "vulnerability_name"; "required_action"; "due_date"; "known_ransomware"; "notes"; "synced_at"]];
   [CreateTable "epss" ["cve_id"; "epss_score"; "percentile"; "score_date"; "synced_at"]];
   [CreateTable "scans" ["scan_id"; "started_at"; "finished_at"; "target_spec"; "authorized_by"; "authorization_confirmed_at"; "authorization_method"; "status"; "notes"];
     CreateIndex "idx_scans_started_at" "scans"];
   [CreateTable "scan_results" ["id"; "scan_id"; "host"; "port"; "service"; "plugin_id"; "cve_id"; "severity"; "evidence"; "remediation"; "kev_flag"; "epss_score"; "detected_at"];
     CreateIndex "idx_scan_results_scan_id" "scan_results";
     CreateIndex "idx_scan_results_host_port" "scan_results";
     CreateIndex "idx_scan_results_severity" "scan_results";
     CreateIndex "idx_scan_results_cve_id" "scan_results"];
   [CreateTable "sync_state" ["feed"; "last_sync_started"; "last_sync_completed"; "last_mod_watermark"; "total_records"; "status"; "last_error"];
     SeedSync "nvd";
     SeedSync "kev";
     SeedSync "epss"]]%string.

Definition MIGRATION_2_STATEMENTS : list (list ddl) := [[AddColumn "scan_results" "match_status"]]%string.

Definition MIGRATION_3_STATEMENTS : list (list ddl) := [[AddColumn "scans" "malformed_data_count"]]%string.

(** [cytadel_db_migration_t] *)
Record migration := Migration { version : Z; description : string; statements : list (list ddl) }.

Definition MIGRATIONS : list migration :=
  [Migration 1 "Initial frozen schema: cves, cve_cpe_matches, kev, epss, scans, scan_results, sync_state"
     MIGRATION_1_STATEMENTS;
   Migration 2 "Add scan_results.match_status (CPE-match caller verdict: confirmed/undetermined/not_affected)"
     MIGRATION_2_STATEMENTS;
   Migration 3 "Add scans.malformed_data_count (durable MALFORMED_ROW data-quality counter, M8 report slice 2)"
     MIGRATION_3_STATEMENTS].

Definition SCHEMA_MIGRATIONS_DDL : ddl :=
  CreateTableIfNotExists "schema_migrations" ["version"; "description"; "applied_at"]%string.

(** [SELECT COALESCE(MAX(version), 0) FROM schema_migrations] *)
Definition max_version (d : database) : Z := foldr (fun a v => Z.max a.1.1 v) 0 (sch_applied (db_schema d)).

(** [INSERT INTO schema_migrations] *)
Definition add_applied (m : migration) (applied_at : bytes) (d : database) : database :=
  let s := db_schema d in
  set_schema (Schema (sch_tables s) (sch_indexes s) (sch_applied s ++ [(version m, description m, applied_at)])) d.

Section Runner.
Context {C : Type} `{Sqlite C}.
Variable now : Z -> option bytes.

(** One statement of a [sqlite3_exec] of fixed text. *)
Definition exec_ddl (q : ddl) (c : C) : bool * C :=
  match run_ddl q (current c) with
  | None => (false, c)
  | Some _ =>
      let '(rc, c) := sql_write (fun d => default d (run_ddl q d)) c in (bool_decide (rc = SQLITE_DONE), c)
  end.

(** [cytadel_db_exec]: up to the first statement that fails. *)
Fixpoint db_exec (batch : list ddl) (c : C) : bool * C :=
  match batch with
  | [] => (true, c)
  | q :: batch => let '(ok, c) := exec_ddl q c in if negb ok then (false, c) else db_exec batch c
  end.

(** [cytadel_db_migrations_current_version] *)
Definition current_version (c : C) : (db_status + Z) * C :=
  let '(ok, c) := db_exec [SCHEMA_MIGRATIONS_DDL] c in
  if negb ok then (inl DB_ERR_QUERY, c) else
  let '(ok, c) := sql_prepare c in
  if negb ok then (inl DB_ERR_QUERY, c) else
  let '(ok, c) := sql_read c in
  if negb ok then (inl DB_ERR_QUERY, c) else (inr (max_version (current c)), c).

(** [cytadel_db_record_migration] *)
Definition record_migration (m : migration) (c : C) : bool * C :=
  match now (version m) with
  | None => (false, c)
  | Some applied_at =>
      let '(ok, c) := sql_prepare c in
      if negb ok then (false, c) else
      let '(rc, c) := sql_write (add_applied m applied_at) c in (bool_decide (rc = SQLITE_DONE), c)
  end.

(** The loop over the batches of a migration. *)
Fixpoint run_statements (batches : list (list ddl)) (c : C) : bool * C :=
  match batches with
  | [] => (true, c)
  | batch :: batches =>
      let '(ok, c) := db_exec batch c in if negb ok then (false, c) else run_statements batches c
  end.

Definition apply_migration (m : migration) (c : C) : bool * unit * C :=
  let '(ok, c) := run_statements (statements m) c in
  if negb ok then (false, tt, c) else
  let '(ok, c) := record_migration m c in (ok, tt, c).

Fixpoint migrate_loop (ms : list migration) (current_version : Z) (c : C) : db_status * C :=
  match ms with
  | [] => (DB_OK, c)
  | m :: ms =>
      if version m <=? current_version then migrate_loop ms current_version c else
      let '(ok, _, c) := transaction tt (apply_migration m) c in
      if negb ok then (DB_ERR_MIGRATION, c) else migrate_loop ms current_version c
  end.

(** [cytadel_db_migrations_run], [cytadel_db_migrate]; the handle is given. *)
Definition migrations_run (c : C) : db_status * C :=
  let '(v, c) := current_version c in
  match v with
  | inl status => (status, c)
  | inr v => migrate_loop MIGRATIONS v c
  end.
End Runner.

(** ** Opening ([db.c])

    [H] is an [sqlite3] handle; the wrapper of the handle is one allocation. *)
Section Open.
Context {S : Type}.
(** [sqlite3_open_v2]: whether it succeeded (there is a handle to close either
    way). *)
Variable sqlite3_open : bytes -> bool * S.
(** [sqlite3_exec] of a PRAGMA; the query form of [journal_mode]. *)
Variable pragma : string -> S -> bool * S.

(** [cytadel_db_apply_connection_setup] *)
Definition apply_connection_setup (s : S) : bool * S :=
  let '(ok, s) := pragma "foreign_keys = ON" s in
  if negb ok then (false, s) else
  let '(ok, s) := pragma "journal_mode = WAL" s in
  if negb ok then (false, s) else
  let '(ok, s) := pragma "synchronous = NORMAL" s in
  if negb ok then (false, s) else pragma "busy_timeout = 5000" s.

(** [cytadel_db_open] into [*out_db]: the status, the connection and how many
    handles are left open; [out_db] is given. *)
Definition db_open (path : option bytes) (h : heap) : db_status * option S * Z * heap :=
  match path with
  | None | Some [] => (DB_ERR_INVALID_ARG, None, 0, h)
  | Some path =>
      let '(ok, s) := sqlite3_open path in
      if negb ok then (DB_ERR_OPEN, None, 0, h) else
      let '(ok, s) := apply_connection_setup s in
      if negb ok then (DB_ERR_PRAGMA, None, 0, h) else
      let '(ok, h) := malloc h in
      if negb ok then (DB_ERR_OOM, None, 0, h) else (DB_OK, Some s, 1, h)
  end.

(** [cytadel_db_close] *)
Definition db_close (db : option S) (handles : Z) (h : heap) : Z * heap :=
  match db with None => (handles, h) | Some _ => (handles - 1, free_block h) end.
End Open.

(** ** Schema versions *)

(** All statements of a migration, in a row. *)
Fixpoint run_all (qs : list ddl) (d : database) : option database :=
  match qs with
  | [] => Some d
  | q :: qs => match run_ddl q d with Some d => run_all qs d | None => None end
  end.

Definition migration_ddl (m : migration) : list ddl := concat (statements m).

(** The tables and indexes of version [v], made from nothing. *)
Definition schema_after (v : nat) : database :=
  default empty_database
    (run_all (SCHEMA_MIGRATIONS_DDL :: concat (map migration_ddl (take v MIGRATIONS))) empty_database).

Definition tables_at (v : nat) : gmap string (list string) := sch_tables (db_schema (schema_after v)).
Definition indexes_at (v : nat) : gset string := sch_indexes (db_schema (schema_after v)).

(** The state of every feed has its row. *)
Definition seeded (d : database) : Prop :=
  forall feed, feed ∈ ["nvd"; "kev"; "epss"]%string -> is_Some (db_sync d !! bs feed).

(** The schema is that of version [v], and the migrations up to [v] are the
    ones recorded. *)
Definition at_version (v : nat) (d : database) : Prop :=
  sch_tables (db_schema d) = tables_at v /\ sch_indexes (db_schema d) = indexes_at v /\
  map fst (sch_applied (db_schema d)) = map (fun m => (version m, description m)) (take v MIGRATIONS) /\
  (v <> 0%nat -> seeded d).

(** A file that was never migrated. *)
Definition fresh (d : database) : Prop := db_schema d = Schema ∅ ∅ [].

Definition versioned (v : nat) (d : database) : Prop := at_version v d \/ (v = 0%nat /\ fresh d).

(** No row is lost or changed. *)
Definition rows_kept (d d' : database) : Prop :=
  db_cves d' = db_cves d /\ db_cpe d' = db_cpe d /\ db_kev d' = db_kev d /\ db_epss d' = db_epss d /\
  db_scans d' = db_scans d /\ db_results d' = db_results d /\
  (forall feed r, db_sync d !! feed = Some r -> db_sync d' !! feed = Some r).

Lemma rows_kept_refl d : rows_kept d d.
Proof. by split_and!. Qed.

Lemma rows_kept_trans d1 d2 d3 : rows_kept d1 d2 -> rows_kept d2 d3 -> rows_kept d1 d3.
Proof. intros (? & ? & ? & ? & ? & ? & ?) (? & ? & ? & ? & ? & ? & ?). split_and!; try congruence. auto. Qed.

Lemma run_ddl_rows q d d' : run_ddl q d = Some d' -> rows_kept d d'.
Proof.
  unfold run_ddl. destruct q; repeat case_match; intros [= <-]; try (by split_and!); try apply rows_kept_refl.
  split_and!; try done. cbn [db_sync]. intros f r Hf. rewrite lookup_insert_ne; [done|congruence].
Qed.

(** What a statement does to the names depends on the names only. *)
Lemma run_ddl_schema q d1 d2 :
  sch_tables (db_schema d1) = sch_tables (db_schema d2) -> sch_indexes (db_schema d1) = sch_indexes (db_schema d2) ->
  match run_ddl q d1, run_ddl q d2 with
  | Some d1', Some d2' =>
      sch_tables (db_schema d1') = sch_tables (db_schema d2') /\ sch_indexes (db_schema d1') = sch_indexes (db_schema d2') /\
      sch_applied (db_schema d1') = sch_applied (db_schema d1)
  | None, None => True
  | _, _ => False
  end.
Proof.
  intros Ht Hi. unfold run_ddl, add_table. rewrite Ht, Hi.
  destruct q; repeat case_match; simplify_eq; try done; cbn [set_schema db_schema sch_tables sch_indexes sch_applied];
    split_and!; congruence.
Qed.

Lemma run_all_schema qs d1 d2 :
  sch_tables (db_schema d1) = sch_tables (db_schema d2) -> sch_indexes (db_schema d1) = sch_indexes (db_schema d2) ->
  match run_all qs d1, run_all qs d2 with
  | Some d1', Some d2' =>
      sch_tables (db_schema d1') = sch_tables (db_schema d2') /\ sch_indexes (db_schema d1') = sch_indexes (db_schema d2') /\
      sch_applied (db_schema d1') = sch_applied (db_schema d1) /\ rows_kept d1 d1'
  | None, None => True
  | _, _ => False
  end.
Proof.
  revert d1 d2; induction qs as [|q qs IH]; intros d1 d2 Ht Hi; cbn [run_all]; [by split_and!|].
  pose proof (run_ddl_schema q d1 d2 Ht Hi) as HR. destruct (run_ddl q d1) as [e1|] eqn:E1, (run_ddl q d2) as [e2|]; try done.
  destruct HR as (Ht' & Hi' & Ha'). specialize (IH e1 e2 Ht' Hi'). destruct (run_all qs e1), (run_all qs e2); try done.
  destruct IH as (? & ? & ? & Hk). split_and!; try done; [congruence|]. eapply rows_kept_trans; [by eapply run_ddl_rows|done].
Qed.

(** Migration [v + 1] takes the names of version [v] to those of version
    [v + 1], without an error. *)
Lemma migration_step v m :
  MIGRATIONS !! v = Some m ->
  exists d, run_all (migration_ddl m) (schema_after v) = Some d /\
    sch_tables (db_schema d) = tables_at (S v) /\ sch_indexes (db_schema d) = indexes_at (S v).
Proof.
  intros Hm. exists (schema_after (S v)). split; [|split; reflexivity].
  destruct v as [|[|[|v]]]; [injection Hm as <-..|discriminate Hm]; vm_compute; reflexivity.
Qed.

Lemma migration_version v m : MIGRATIONS !! v = Some m -> version m = Z.of_nat v + 1.
Proof. destruct v as [|[|[|v]]]; intros Hm; [injection Hm as <-..|discriminate Hm]; reflexivity. Qed.

Lemma migration_1_seeds m feed :
  MIGRATIONS !! 0%nat = Some m -> feed ∈ ["nvd"; "kev"; "epss"]%string -> SeedSync feed ∈ migration_ddl m.
Proof.
  intros [= <-] Hf. rewrite list_elem_of_In. repeat (apply elem_of_cons in Hf as [->|Hf]);
    [vm_compute; tauto..|by apply elem_of_nil in Hf].
Qed.

Lemma run_all_seeds qs feed d d' :
  SeedSync feed ∈ qs -> run_all qs d = Some d' -> is_Some (db_sync d' !! bs feed).
Proof.
  revert d; induction qs as [|q qs IH]; intros d Hin; cbn [run_all]; [by apply elem_of_nil in Hin|].
  destruct (run_ddl q d) as [e|] eqn:Eq; [|done]. intros Hr. apply elem_of_cons in Hin as [<-|Hin]; [|by eapply IH].
  pose proof (run_all_schema qs e e eq_refl eq_refl) as HS. rewrite Hr in HS. destruct HS as (_ & _ & _ & (_ & _ & _ & _ & _ & _ & Hk)).
  assert (is_Some (db_sync e !! bs feed)) as [r Hr']; [|by exists r; apply Hk].
  unfold run_ddl in Eq. destruct (sch_tables _ !! _); [|done]. destruct (db_sync d !! bs feed) as [r|] eqn:E; injection Eq as <-.
  - by exists r.
  - cbn [db_sync]. rewrite lookup_insert_eq. by eexists.
Qed.

Lemma seeded_kept d d' : rows_kept d d' -> seeded d -> seeded d'.
Proof. intros (_ & _ & _ & _ & _ & _ & Hk) Hs feed Hf. destruct (Hs feed Hf) as [r Hr]. exists r. by apply Hk. Qed.

#[local] Opaque schema_after tables_at indexes_at MIGRATIONS.

Lemma apply_schema v m d :
  MIGRATIONS !! v = Some m -> at_version v d ->
  exists d', run_all (migration_ddl m) d = Some d' /\
    forall ts, at_version (S v) (add_applied m ts d') /\ rows_kept d (add_applied m ts d').
Proof.
  intros Hm (Ht & Hi & Ha & Hseed). destruct (migration_step v m Hm) as (e & He & Het & Hei).
  pose proof (run_all_schema (migration_ddl m) d (schema_after v) Ht Hi) as HR. rewrite He in HR.
  destruct (run_all (migration_ddl m) d) as [d'|] eqn:Ed; [|destruct HR]. destruct HR as (Ht' & Hi' & Ha' & Hk).
  exists d'. split; [done|]. intros ts. split; [|exact Hk].
  unfold at_version, add_applied, seeded. cbn [set_schema db_schema sch_tables sch_indexes sch_applied db_sync].
  rewrite map_app, (take_S_r _ _ _ Hm), map_app, Ha', Ha. split_and!; [congruence|congruence|reflexivity|intros _].
  destruct v as [|v]; [|exact (seeded_kept _ _ Hk (Hseed ltac:(discriminate)))].
  intros feed Hf. eapply run_all_seeds, Ed. by apply migration_1_seeds.
Qed.

Lemma fresh_start d d' :
  fresh d -> run_ddl SCHEMA_MIGRATIONS_DDL d = Some d' -> at_version 0 d' /\ rows_kept d d'.
Proof.
  intros Hf Hr. split; [|by eapply run_ddl_rows]. unfold run_ddl, SCHEMA_MIGRATIONS_DDL in Hr. rewrite Hf in Hr.
  cbn [sch_tables] in Hr. rewrite lookup_empty in Hr. injection Hr as <-. unfold at_version, add_table.
  rewrite Hf. cbn [set_schema db_schema sch_tables sch_indexes sch_applied]. split_and!; [by vm_compute..|reflexivity|congruence].
Qed.

Lemma tables_at_migrations v : (v <= 3)%nat -> is_Some (tables_at v !! "schema_migrations"%string).
Proof. intros Hv. destruct v as [|[|[|[|v]]]]; [eexists; vm_compute; reflexivity..|lia]. Qed.

Lemma at_version_max v d : (v <= 3)%nat -> at_version v d -> max_version d = Z.of_nat v.
Proof.
  intros Hv (_ & _ & Ha & _). unfold max_version.
  assert (HM : forall l : list (Z * string * bytes), foldr (fun a x => Z.max a.1.1 x) 0 l = foldr (fun a x => Z.max a.1 x) 0 (map fst l)).
  { induction l as [|a l IH]; cbn; [done|]. by rewrite IH. }
  rewrite HM, Ha. destruct v as [|[|[|[|v]]]]; [reflexivity..|lia].
Qed.

Lemma at_version_inj v w d : (v <= 3)%nat -> (w <= 3)%nat -> at_version v d -> at_version w d -> v = w.
Proof. intros Hv Hw A B. apply at_version_max in A, B; try done. lia. Qed.

Lemma fresh_not_at v d : (v <= 3)%nat -> fresh d -> ~ at_version v d.
Proof.
  intros Hv Hf (Ht & _). rewrite Hf in Ht. destruct (tables_at_migrations v Hv) as [cols Hc]. by rewrite <- Ht in Hc.
Qed.

(** ** The runner *)

Section Effects.
Context {C : Type} `{SqliteLaws C}.
Variable now : Z -> option bytes.

Lemma exec_ddl_effect q (c c' : C) ok :
  in_tx c = true -> exec_ddl q c = (ok, c') ->
  durable c' = durable c /\ (ok = true -> in_tx c' = true /\ run_ddl q (current c) = Some (current c')).
Proof.
  intros Ht. unfold exec_ddl. destruct (run_ddl q (current c)) as [d|] eqn:Er; [|by intros [= <- <-]].
  sql_step; intros [= <- <-]; (split; [congruence|done || (intros _; split; [done|])]).
  match goal with H : current _ = _ |- _ => rewrite H end. by rewrite Er.
Qed.

Lemma db_exec_effect batch (c c' : C) ok :
  in_tx c = true -> db_exec batch c = (ok, c') ->
  durable c' = durable c /\ (ok = true -> in_tx c' = true /\ run_all batch (current c) = Some (current c')).
Proof.
  revert c; induction batch as [|q batch IH]; intros c Ht; cbn [db_exec run_all]; [by intros [= <- <-]|].
  destruct (exec_ddl q c) as [ok1 c1] eqn:E1. apply exec_ddl_effect in E1 as [Hd1 HO1]; [|done].
  destruct ok1; cbn [negb]; [|by intros [= <- <-]]. destruct (HO1 eq_refl) as [Ht1 Hr]. rewrite Hr. intros E.
  destruct (IH c1 Ht1 E) as [Hd HO]. split; [congruence|done].
Qed.

Lemma run_all_app l k d : run_all (l ++ k) d = match run_all l d with Some d => run_all k d | None => None end.
Proof. revert d; induction l as [|q l IH]; intros d; cbn [run_all app]; [done|]. destruct (run_ddl q d); [apply IH|done]. Qed.

Lemma run_statements_effect batches (c c' : C) ok :
  in_tx c = true -> run_statements batches c = (ok, c') ->
  durable c' = durable c /\ (ok = true -> in_tx c' = true /\ run_all (concat batches) (current c) = Some (current c')).
Proof.
  revert c; induction batches as [|b batches IH]; intros c Ht; cbn [run_statements concat]; [by intros [= <- <-]|].
  destruct (db_exec b c) as [ok1 c1] eqn:E1. apply db_exec_effect in E1 as [Hd1 HO1]; [|done].
  destruct ok1; cbn [negb]; [|by intros [= <- <-]]. destruct (HO1 eq_refl) as [Ht1 Hr]. rewrite run_all_app, Hr. intros E.
  destruct (IH c1 Ht1 E) as [Hd HO]. split; [congruence|done].
Qed.

Lemma apply_migration_effect m (c c' : C) ok u :
  in_tx c = true -> apply_migration now m c = (ok, u, c') ->
  durable c' = durable c /\
  (ok = true -> in_tx c' = true /\ exists d ts, run_all (migration_ddl m) (current c) = Some d /\ current c' = add_applied m ts d).
Proof.
  intros Ht. unfold apply_migration. destruct (run_statements _ c) as [ok1 c1] eqn:E1.
  apply run_statements_effect in E1 as [Hd1 HO1]; [|done]. destruct ok1; cbn [negb]; [|by intros [= <- <- <-]].
  destruct (HO1 eq_refl) as [Ht1 Hr]. unfold record_migration. destruct (now (version m)) as [ts|]; [|by intros [= <- <- <-]].
  sql_step; [|intros [= <- <- <-]; split; [congruence|done]].
  sql_step; intros [= <- <- <-]; (split; [congruence|done || (intros _; split; [done|])]).
  exists (current c1), ts. split; [done|congruence].
Qed.

Lemma migrate_loop_effect n k cur (c : C) :
  (k + n = 3)%nat -> cur <= Z.of_nat k -> in_tx c = false -> at_version k (durable c) ->
  let '(st, c') := migrate_loop now (drop k MIGRATIONS) cur c in
  rows_kept (durable c) (durable c') /\
  exists v, (k <= v <= 3)%nat /\ at_version v (durable c') /\ (st = DB_OK -> v = 3%nat /\ in_tx c' = false).
Proof.
  revert k c; induction n as [|n IH]; intros k c Hk Hcur Ht Hat.
  - assert (k = 3)%nat as -> by lia. split; [apply rows_kept_refl|]. by exists 3%nat.
  - destruct (MIGRATIONS !! k) as [m|] eqn:Em.
    2: { apply lookup_ge_None in Em. change (length MIGRATIONS) with 3%nat in Em. lia. }
    rewrite (drop_S _ _ _ Em). cbn [migrate_loop]. rewrite (migration_version _ _ Em), (proj2 (Z.leb_gt _ cur)) by lia.
    pose proof (transaction_effect tt (apply_migration now m) (fun _ d d' => exists e ts, run_all (migration_ddl m) d = Some e /\ d' = add_applied m ts e)
      c Ht ltac:(intros c1 ok u c2 Ht1; by apply apply_migration_effect)) as HT.
    destruct (transaction _ _ c) as [[ok u] c1]. destruct HT as [HF HO]. destruct ok; cbn [negb].
    + destruct (HO eq_refl) as (Ht1 & e & ts & Hr & Hd1). destruct (apply_schema k m _ Em Hat) as (e' & Hr' & Hs).
      rewrite Hr in Hr'. injection Hr' as <-. destruct (Hs ts) as [Hat1 Hk1]. rewrite <- Hd1 in Hat1, Hk1.
      specialize (IH (S k) c1 ltac:(lia) ltac:(lia) Ht1 Hat1). destruct (migrate_loop _ _ _ _) as [st c2].
      destruct IH as (Hk2 & v & Hv & Hat2 & HO2). split; [by eapply rows_kept_trans|]. exists v. split_and!; [lia|lia|done|done].
    + rewrite (HF eq_refl). split; [apply rows_kept_refl|]. exists k. split_and!; [lia|lia|done|done].
Qed.

(** Migrations that are recorded are passed over. *)
Lemma migrate_loop_skip k v (c : C) :
  (k <= v <= 3)%nat -> migrate_loop now (drop k MIGRATIONS) (Z.of_nat v) c = migrate_loop now (drop v MIGRATIONS) (Z.of_nat v) c.
Proof.
  intros [Hkv Hv3]. remember (v - k)%nat as n eqn:Hn. revert k Hkv Hn; induction n as [|n IH]; intros k Hkv Hn.
  { by replace k with v by lia. }
  destruct (MIGRATIONS !! k) as [m|] eqn:Em.
  2: { apply lookup_ge_None in Em. change (length MIGRATIONS) with 3%nat in Em. lia. }
  rewrite (drop_S _ _ _ Em). cbn [migrate_loop]. rewrite (migration_version _ _ Em), (proj2 (Z.leb_le _ (Z.of_nat v))) by lia.
  apply IH; lia.
Qed.

Lemma current_version_effect v (c : C) :
  in_tx c = false -> (v <= 3)%nat -> versioned v (durable c) ->
  let '(r, c') := current_version c in
  versioned v (durable c') /\ rows_kept (durable c) (durable c') /\ (at_version v (durable c) -> durable c' = durable c) /\
  (forall st, r = inl st -> st <> DB_OK) /\
  (forall x, r = inr x -> x = Z.of_nat v /\ in_tx c' = false /\ at_version v (durable c')).
Proof.
  intros Ht Hv Hver. pose proof (autocommit_current c Ht) as Hcd. unfold current_version, db_exec, exec_ddl.
  assert (HD : exists d', run_ddl SCHEMA_MIGRATIONS_DDL (durable c) = Some d' /\ at_version v d' /\ rows_kept (durable c) d' /\
    (at_version v (durable c) -> d' = durable c)).
  { destruct Hver as [Hat|[-> Hf]].
    - exists (durable c). split; [|split; [done|split; [apply rows_kept_refl|done]]]. unfold run_ddl, SCHEMA_MIGRATIONS_DDL.
      destruct Hat as (Htab & _). rewrite Htab. by destruct (tables_at_migrations v Hv) as [cols ->].
    - destruct (run_ddl SCHEMA_MIGRATIONS_DDL (durable c)) as [d'|] eqn:Er.
      + destruct (fresh_start _ _ Hf Er) as [H1' H2']. exists d'. split_and!; [done|done|done|]. intros (Htab & _).
        rewrite Hf in Htab. destruct (tables_at_migrations 0 ltac:(lia)) as [cols Hc]. by rewrite <- Htab in Hc.
      + exfalso. unfold run_ddl, SCHEMA_MIGRATIONS_DDL in Er. rewrite Hf in Er. cbn [sch_tables] in Er. by rewrite lookup_empty in Er. }
  destruct HD as (d' & Hr & Hat' & Hk & Hid). rewrite Hcd, Hr.
  destruct (sql_write _ c) as [rc c1] eqn:Ew. destruct rc; rewrite ?bool_decide_eq_true_2, ?bool_decide_eq_false_2 by done; cbn [negb].
  2-4: (assert (durable c1 = durable c) as Hd1 by
    (first [by apply write_constraint in Ew as (? & _)|by apply write_unbound in Ew as (? & _)|by apply write_failure, aborted_durable in Ew]);
    rewrite Hd1; split_and!; [done|apply rows_kept_refl|done|congruence|done]).
  apply write_done in Ew as (_ & Ht1 & Hd1). rewrite Ht in Ht1, Hd1. cbn [default] in Hd1. rewrite Hr in Hd1. cbn in Hd1.
  assert (HE : forall c2, durable c2 = durable c1 -> versioned v (durable c2) /\ rows_kept (durable c) (durable c2) /\
    (at_version v (durable c) -> durable c2 = durable c)).
  { intros c2 ->. rewrite Hd1. split_and!; [by left|done|done]. }
  destruct (sql_prepare c1) as [[] c2] eqn:Ep; cbn [negb].
  2: { apply prepare_fail, aborted_durable in Ep. destruct (HE c2 Ep) as (? & ? & ?). split_and!; try done. congruence. }
  apply prepare_ok in Ep as (Hd2 & Hc2 & Ht2). destruct (sql_read c2) as [[] c3] eqn:Er; cbn [negb].
  2: { apply read_fail, aborted_durable in Er. destruct (HE c3 ltac:(congruence)) as (? & ? & ?). split_and!; try done. congruence. }
  apply read_ok in Er as (Hd3 & Hc3 & Ht3). destruct (HE c3 ltac:(congruence)) as (? & ? & ?). split_and!; try done.
  intros x [= <-]. assert (Hat3 : at_version v (durable c3)) by (rewrite Hd3, Hd2, Hd1; done).
  assert (Htx : in_tx c3 = false) by congruence. rewrite (autocommit_current c3 Htx). split_and!; [by apply at_version_max|done|done].
Qed.

(** What a run of the migrations does, from any version it knows. *)
Lemma migrations_effect v (c : C) :
  in_tx c = false -> (v <= 3)%nat -> versioned v (durable c) ->
  let '(st, c') := migrations_run now c in
  rows_kept (durable c) (durable c') /\
  (exists v', (v <= v' <= 3)%nat /\ versioned v' (durable c')) /\
  (st = DB_OK -> at_version 3 (durable c') /\ in_tx c' = false /\ seeded (durable c')) /\
  (at_version 3 (durable c) -> durable c' = durable c).
Proof.
  intros Ht Hv Hver. unfold migrations_run. pose proof (current_version_effect v c Ht Hv Hver) as HC.
  destruct (current_version c) as [[st|x] c1]; destruct HC as (Hver1 & Hk1 & Hid1 & HE1 & HO1).
  - split_and!; [done|by exists v|intros ->; by destruct (HE1 _ eq_refl)|].
    intros H3. apply Hid1. destruct Hver as [Hat|[-> Hf]]; [by rewrite (at_version_inj v 3 _ Hv ltac:(lia) Hat H3)|].
    by destruct (fresh_not_at 3 _ ltac:(lia) Hf H3).
  - destruct (HO1 x eq_refl) as (-> & Ht1 & Hat1). pose proof (migrate_loop_skip 0 v c1 ltac:(lia)) as Hskip.
    rewrite drop_0 in Hskip. rewrite Hskip. clear Hskip.
    pose proof (migrate_loop_effect (3 - v) v (Z.of_nat v) c1 ltac:(lia) ltac:(lia) Ht1 Hat1) as HL.
    destruct (decide (v = 3%nat)) as [->|Hne].
    + change (drop 3 MIGRATIONS) with (@nil migration) in *. cbn [migrate_loop] in *.
      split_and!; [done|by exists 3%nat; split; [lia|]|intros _; split_and!; [done|done|by apply Hat1]|done].
    + destruct (migrate_loop _ _ _ _) as [st c2]. destruct HL as (Hk2 & v' & Hv' & Hat2 & HO2).
      split_and!; [by eapply rows_kept_trans|exists v'; split; [lia|by left]| |].
      * intros Hst. destruct (HO2 Hst) as [-> Ht2]. split_and!; [done|done|by apply Hat2].
      * intros H3. destruct Hver as [Hat|[-> Hf]]; [by destruct (Hne (at_version_inj v 3 _ Hv ltac:(lia) Hat H3))|].
        by destruct (fresh_not_at 3 _ ltac:(lia) Hf H3).
Qed.

Lemma exec_ddl_kept q (c c' : C) : exec_ddl q c = (true, c') -> rows_kept (current c) (current c') /\ in_tx c' = in_tx c.
Proof.
  unfold exec_ddl. destruct (run_ddl q (current c)) as [d|] eqn:Eq; [|done]. destruct (sql_write _ c) as [rc c1] eqn:Ew.
  intros [= Hrc <-]. apply bool_decide_eq_true in Hrc as ->. apply write_done in Ew as (-> & -> & _). rewrite Eq. split; [by eapply run_ddl_rows|done].
Qed.

Lemma db_exec_kept batch : forall c c' : C, db_exec batch c = (true, c') -> rows_kept (current c) (current c') /\ in_tx c' = in_tx c.
Proof.
  induction batch as [|q batch IH]; intros c c'; cbn [db_exec]; [intros [= <-]; split; [apply rows_kept_refl|done]|].
  destruct (exec_ddl q c) as [[] c1] eqn:E1; cbn [negb]; [|done]. apply exec_ddl_kept in E1 as [Hk1 Ht1]. intros [Hk2 Ht2]%IH.
  split; [by eapply rows_kept_trans|congruence].
Qed.

Lemma apply_migration_kept m (c c' : C) a : apply_migration now m c = (true, a, c') -> rows_kept (current c) (current c').
Proof.
  unfold apply_migration. assert (Hs : forall l (c c' : C), run_statements l c = (true, c') -> rows_kept (current c) (current c')).
  { induction l as [|batch l IH]; intros c1 c2; cbn [run_statements]; [intros [= <-]; apply rows_kept_refl|].
    destruct (db_exec batch c1) as [[] c3] eqn:E1; cbn [negb]; [|done]. apply db_exec_kept in E1 as [Hk _]. intros Hl%IH. by eapply rows_kept_trans. }
  destruct (run_statements _ c) as [[] c1] eqn:E1; cbn [negb]; [|done]. apply Hs in E1. unfold record_migration. destruct (now (version m)) as [ts|]; [|done].
  destruct (sql_prepare c1) as [[] c2] eqn:Ep; cbn [negb]; [|done]. apply prepare_ok in Ep as (_ & Hc2 & _).
  destruct (sql_write _ c2) as [rc c3] eqn:Ew. intros [= Hrc _ <-]. apply bool_decide_eq_true in Hrc as ->. apply write_done in Ew as (-> & _). rewrite Hc2.
  eapply rows_kept_trans; [exact E1|]. by split_and!.
Qed.

(** A run that is OK ends outside a transaction, whatever the file held, and
    no row is lost. *)
Lemma migrate_loop_kept ms v (c c' : C) :
  in_tx c = false -> migrate_loop now ms v c = (DB_OK, c') -> in_tx c' = false /\ rows_kept (current c) (current c').
Proof.
  revert v c; induction ms as [|m ms IH]; intros v c Ht; cbn [migrate_loop]; [intros [= <-]; split; [done|apply rows_kept_refl]|].
  destruct (version m <=? v); [by apply IH|]. destruct (transaction _ _ c) as [[ok a] c1] eqn:Et. destruct ok; cbn [negb]; [|done].
  unfold transaction in Et. destruct (sql_begin c) as [[] c2] eqn:Eb; cbn [negb] in Et; [|done]. apply begin_ok in Eb as (_ & _ & _ & Hc2).
  destruct (apply_migration _ _ c2) as [[[] []] c3] eqn:Ea; cbn [negb] in Et; [|done]. apply apply_migration_kept in Ea.
  destruct (sql_commit c3) as [[] c4] eqn:Ec; cbn [negb] in Et; [|done]. injection Et as _ <-. apply commit_ok in Ec as (_ & Ht4 & Hd4).
  intros [Ht' Hk]%IH; [|done]. split; [done|]. rewrite (autocommit_current c4 Ht4), Hd4, <- Hc2 in *. by eapply rows_kept_trans.
Qed.

Lemma migrations_run_kept (c c' : C) :
  in_tx c = false -> migrations_run now c = (DB_OK, c') -> in_tx c' = false /\ rows_kept (current c) (current c').
Proof.
  intros Ht. unfold migrations_run, current_version. destruct (db_exec _ c) as [[] c1] eqn:Ed; cbn [negb]; [|done]. apply db_exec_kept in Ed as [Hk1 Ht1].
  destruct (sql_prepare c1) as [[] c2] eqn:Ep; cbn [negb]; [|done]. apply prepare_ok in Ep as (_ & Hc2 & Ht2).
  destruct (sql_read c2) as [[] c3] eqn:Er; cbn [negb]; [|done]. apply read_ok in Er as (_ & Hc3 & Ht3).
  intros [Ht' Hk]%migrate_loop_kept; [|congruence]. split; [done|]. rewrite Hc3, Hc2 in Hk. by eapply rows_kept_trans.
Qed.

(** C38: Migrating.  From an empty file, or from a database at any version up
    to 3, the runner leaves the schema at some version not below the one it
    found, with exactly the migrations up to that version recorded: no failure
    and no crash in between can record a migration whose statements did not
    all run, or the other way round.  When it reports OK the version is 3, no
    transaction is open and every feed has its row of sync state; a second
    run then changes nothing.  No row of any table is ever lost. *)
Theorem migrations_stepwise v (c : C) :
  in_tx c = false -> (v <= 3)%nat -> versioned v (durable c) ->
  let '(st, c') := migrations_run now c in
  rows_kept (durable c) (durable c') /\
  (exists v', (v <= v' <= 3)%nat /\ versioned v' (durable c')) /\
  (st = DB_OK -> at_version 3 (durable c') /\ in_tx c' = false /\ seeded (durable c')) /\
  (at_version 3 (durable c) -> durable c' = durable c).
Proof. exact (migrations_effect v c). Qed.
End Effects.

(** ** Opening *)

(** Opening a database hands out a connection exactly when the file opens,
    all four PRAGMAs succeed (foreign keys are switched on before anything
    else) and the wrapper can be allocated; in every other case [*out_db] is
    NULL and neither a handle nor a block stays behind. *)
Lemma db_open_all_or_nothing {S : Type} (sqlite3_open : bytes -> bool * S) (pragma : string -> S -> bool * S) path h :
  let '(st, db, handles, h') := db_open sqlite3_open pragma path h in
  (st = DB_OK <-> is_Some db) /\ (st <> DB_OK -> db = None /\ handles = 0 /\ live h' = live h) /\
  (forall s, db = Some s -> handles = 1 /\ live h' = live h + 1 /\
     exists p s0 s1, path = Some p /\ p <> [] /\ sqlite3_open p = (true, s0) /\
       pragma "foreign_keys = ON" s0 = (true, s1) /\ apply_connection_setup pragma s0 = (true, s) /\
       db_close db handles h' = (0, Heap (oracle h') (live h))).
Proof.
  unfold db_open. destruct path as [[|b p]|]; [split_and!; try done; by intros [? ?]| |split_and!; try done; by intros [? ?]].
  destruct (sqlite3_open (b :: p)) as [[] s0] eqn:Eo; cbn [negb]; [|split_and!; try done; by intros [? ?]].
  destruct (apply_connection_setup pragma s0) as [[] s] eqn:Es; cbn [negb]; [|split_and!; try done; by intros [? ?]].
  malloc_case h ok h1 Hl Hf Ho. destruct ok; cbn [negb].
  2: { split; [split; [done|by intros [? ?]]|]. split; [intros _; split_and!; (done || lia)|done]. }
  split; [split; [by eexists|done]|]. split; [done|]. intros s' [= <-]. split; [done|]. split; [done|].
  destruct (pragma "foreign_keys = ON" s0) as [[] s1] eqn:Ef.
  - exists (b :: p), s0, s1. split_and!; try done. unfold db_close, free_block. do 2 f_equal. lia.
  - unfold apply_connection_setup in Es. by rewrite Ef in Es.
Qed.

(** ** Examples *)

Definition fresh_conn (faults : list fault) : toy_conn := ToyConn empty_database None faults.

Lemma migrations_stepwise_witness :
  exists c', migrations_run (fun _ => Some (bs "now")) (fresh_conn []) = (DB_OK, c') /\ at_version 3 (durable c') /\ seeded (durable c').
Proof.
  pose proof (migrations_stepwise (C := toy_conn) (fun _ => Some (bs "now")) 0 (fresh_conn []) eq_refl ltac:(lia) (or_intror (conj eq_refl eq_refl))) as R.
  destruct (migrations_run _ _) as [st c'] eqn:E. assert (st = DB_OK) as -> by (vm_compute in E; by injection E as <- _).
  exists c'. split; [reflexivity|]. destruct (proj1 (proj2 (proj2 R)) eq_refl) as (H3 & _ & Hs). split; [exact H3|exact Hs].
Defined.
