(* ===== verification/ScanPersist.v ===== *)
(** * Persisting scan results ([src/src/db/scan_persist.c])

    The per-CVE aggregation, the streaming detection that groups the
    candidate rows of one query and writes one [scan_results] row per CVE in
    one transaction, the direct plugin findings, and the creation and
    finalisation of the [scans] row.  C strings that may be NULL are
    [option bytes]; counters ([size_t], bounded by the number of rows of a
    table) are unbounded. *)

From S2P Require Import Prelude CveId VersionCompare CpeMatch Sqlite.

(** [cytadel_scan_persist_status_t] *)
Inductive persist_status :=
  | PERSIST_OK | PERSIST_ERR_INVALID_ARG | PERSIST_ERR_DB | PERSIST_ERR_ROW_SKIPPED.

#[export] Instance persist_status_eq_dec : EqDecision persist_status.
Proof. solve_decision. Defined.

Definition persist_status_to_string (s : persist_status) : bytes :=
  match s with
  | PERSIST_OK => bs "OK"
  | PERSIST_ERR_INVALID_ARG => bs "INVALID_ARG"
  | PERSIST_ERR_DB => bs "DB"
  | PERSIST_ERR_ROW_SKIPPED => bs "ROW_SKIPPED"
  end.

(** [cytadel_scan_match_status_t] *)
Inductive match_status := MATCH_CONFIRMED | MATCH_UNDETERMINED | MATCH_NOT_AFFECTED.

Definition match_status_to_string (s : match_status) : bytes :=
  match s with
  | MATCH_CONFIRMED => bs "confirmed"
  | MATCH_UNDETERMINED => bs "undetermined"
  | MATCH_NOT_AFFECTED => bs "not_affected"
  end.

(** ** The accumulator *)

Record acc := Acc {
  any_match : bool;
  any_undecidable : bool;
  any_no_match : bool;
  malformed_count : Z
}.

Definition acc0 : acc := Acc false false false 0.

Definition accumulate_outcome (outcome : cpe_match) (a : acc) : acc :=
  match outcome with
  | CPE_MATCH => Acc true (any_undecidable a) (any_no_match a) (malformed_count a)
  | CPE_NO_MATCH => Acc (any_match a) (any_undecidable a) true (malformed_count a)
  | CPE_UNDECIDABLE => Acc (any_match a) true (any_no_match a) (malformed_count a)
  | CPE_MALFORMED_ROW =>
      Acc (any_match a) (any_undecidable a) (any_no_match a) (malformed_count a + 1)
  end.

(** [cytadel_scan_cve_verdict_t] *)
Record cve_verdict := CveVerdict {
  has_verdict : bool;
  verdict_status : match_status;
  verdict_malformed : Z
}.

Definition finalize_verdict (a : acc) : cve_verdict :=
  if any_match a then CveVerdict true MATCH_CONFIRMED (malformed_count a)
  else if any_undecidable a then CveVerdict true MATCH_UNDETERMINED (malformed_count a)
  else if any_no_match a then CveVerdict true MATCH_NOT_AFFECTED (malformed_count a)
  else CveVerdict false MATCH_NOT_AFFECTED (malformed_count a).

(** The loop of [cytadel_scan_aggregate_cve_verdict]; [None] when a row makes
    the evaluator read through NULL. *)
Fixpoint aggregate_loop (rows : list cpe_match_row) (detected : span) (a : acc) : option acc :=
  match rows with
  | [] => Some a
  | row :: rows =>
      match cpe_match_evaluate (Some row) detected with
      | Some outcome => aggregate_loop rows detected (accumulate_outcome outcome a)
      | None => None
      end
  end.

Definition aggregate_cve_verdict (rows : list cpe_match_row) (detected : span) : option cve_verdict :=
  finalize_verdict <$> aggregate_loop rows detected acc0.

(** ** Small helpers *)

Definition SCAN_CVE_ID_MAX_LEN : Z := 64.
Definition SCAN_VENDOR_PRODUCT_MAX_LEN : Z := 256.
Definition SCAN_VENDOR_PRODUCT_BUF_LEN : Z := SCAN_VENDOR_PRODUCT_MAX_LEN + 1.

(** [tolower] in the C locale is [to_lower_ascii]. *)
Definition lowercase_copy (dst_cap : Z) (src : bytes) : option bytes :=
  let len := Z.min (Z.of_nat (length src)) dst_cap in
  if (len =? 0) || (dst_cap <=? len) then None else Some (map to_lower_ascii src).

(** Rows are added at the end of a table, statements touch one table. *)
Definition add_result (r : result_row) (d : database) : database :=
  Database (db_cves d) (db_cpe d) (db_kev d) (db_epss d) (db_scans d) (db_results d ++ [r]) (db_sync d) (db_schema d).

Definition set_scans (f : list scan_row -> list scan_row) (d : database) : database :=
  Database (db_cves d) (db_cpe d) (db_kev d) (db_epss d) (f (db_scans d)) (db_results d) (db_sync d) (db_schema d).

(** [UPDATE scans SET malformed_data_count = malformed_data_count + ? WHERE scan_id = ?] *)
Definition add_malformed (id n : Z) : database -> database :=
  set_scans (map (fun s =>
    if scan_id s =? id
    then ScanRow (scan_id s) (scan_target_spec s) (scan_authorized_by s)
           (scan_authorization_method s) (scan_status s) (scan_finished s)
           (scan_malformed_data_count s + n)
    else s)).

(** [INSERT INTO cves ... 'placeholder' ... ON CONFLICT (cve_id) DO NOTHING] *)
Definition cve_placeholder (id now_ts : bytes) (d : database) : database :=
  match db_cves d !! id with
  | Some _ => d
  | None =>
      Database (<[id := CveRow now_ts now_ts [] None None None None None None 0 (bs "placeholder")]>
                  (db_cves d))
        (db_cpe d) (db_kev d) (db_epss d) (db_scans d) (db_results d) (db_sync d) (db_schema d)
  end.

(** ** The candidate query *)

(** [ORDER BY cve_id, id]: SQLite compares text bytewise ([bytes_leb]) and
    puts NULL first; the table is kept in [id] order and the insertion is
    stable. *)
Definition cve_leb (a b : option bytes) : bool :=
  match a, b with
  | None, _ => true
  | Some _, None => false
  | Some a, Some b => bytes_leb a b
  end.

Fixpoint insert_by_cve (r : cpe_row) (l : list cpe_row) : list cpe_row :=
  match l with
  | [] => [r]
  | r' :: l' => if cve_leb (cpe_cve_id r) (cpe_cve_id r') then r :: l else r' :: insert_by_cve r l'
  end.

Definition order_by_cve (l : list cpe_row) : list cpe_row := foldr insert_by_cve [] l.

Definition candidates (d : database) (vendor product : bytes) : list cpe_row :=
  order_by_cve (filter (fun r => cpe_vendor r = vendor /\ cpe_product r = product) (db_cpe d)).

(** [sqlite3_column_text]/[sqlite3_column_bytes] of one column. *)
Definition column_span (v : option bytes) : span :=
  match v with Some b => Span b | None => NullSpan 0 end.

Definition row_of_columns (r : cpe_row) : cpe_match_row :=
  CpeMatchRow (column_span (cpe_version r)) (column_span (cpe_start_including r))
    (column_span (cpe_start_excluding r)) (column_span (cpe_end_including r))
    (column_span (cpe_end_excluding r)) (cpe_vulnerable r).

(** The evaluation of one fetched row (never undefined, see
    [row_outcome_defined]). *)
Definition row_outcome (r : cpe_row) (detected : span) : cpe_match :=
  default CPE_UNDECIDABLE (cpe_match_evaluate (Some (row_of_columns r)) detected).

(** The [cve_id] of a row the loop does not skip. *)
Definition row_cve_id (r : cpe_row) : option bytes :=
  match cpe_cve_id r with
  | None => None
  | Some id =>
      let n := Z.of_nat (length id) in
      if (n <=? 0) || (SCAN_CVE_ID_MAX_LEN <? n) then None else Some id
  end.

(** ** Detection *)

(** [cytadel_scan_detection_t] *)
Record detection := Detection {
  det_host : option bytes;
  det_port : Z;
  det_service : option bytes;
  det_plugin_id : option bytes;
  det_evidence : option bytes;
  det_remediation : option bytes;
  det_version : span
}.

(** [cytadel_scan_persist_counts_t] *)
Record counts := Counts { rows_inserted : Z; malformed_events : Z }.

Record group := Group { cur_cve_id : bytes; group_acc : acc }.

Definition nonempty_string (s : option bytes) : bool :=
  match s with Some (_ :: _) => true | _ => false end.

Definition detection_valid (det : detection) : bool :=
  nonempty_string (det_host det) && nonempty_string (det_plugin_id det) &&
  bool_decide (is_Some (det_evidence det)) &&
  ((0 <=? det_port det) && (det_port det <=? 65535)) &&
  match det_version det with NullSpan len => len =? 0 | Span _ => true end.

(** The row [flush_group] binds, from the contents the lookups see. *)
Definition verdict_row (d : database) (sid : Z) (det : detection) (id : bytes) (st : match_status)
    : result_row :=
  ResultRow sid (default [] (det_host det)) (det_port det) (det_service det)
    (default [] (det_plugin_id det)) (Some id) (match_status_to_string st)
    (match db_cves d !! id with Some c => cve_severity c | None => 0 end)
    (default [] (det_evidence det)) (det_remediation det)
    (if bool_decide (is_Some (db_kev d !! id)) then 1 else 0) (epss_score <$> db_epss d !! id).

Section Persist.
Context {C : Type} `{Sqlite C}.

Definition prepare_group_statements (c : C) : bool * C :=
  let '(ok, c) := sql_prepare c in
  if negb ok then (false, c) else
  let '(ok, c) := sql_prepare c in
  if negb ok then (false, c) else
  let '(ok, c) := sql_prepare c in
  if negb ok then (false, c) else
  sql_prepare c.

Definition flush_group (sid : Z) (det : detection) (g : group) (n : counts) (c : C)
    : persist_status * counts * C :=
  let verdict := finalize_verdict (group_acc g) in
  let n := if 0 <? verdict_malformed verdict
           then Counts (rows_inserted n) (malformed_events n + verdict_malformed verdict) else n in
  if negb (has_verdict verdict) then (PERSIST_OK, n, c) else
  let '(ok, c) := sql_read c in
  if negb ok then (PERSIST_ERR_DB, n, c) else
  let '(ok, c) := sql_read c in
  if negb ok then (PERSIST_ERR_DB, n, c) else
  let '(ok, c) := sql_read c in
  if negb ok then (PERSIST_ERR_DB, n, c) else
  let row := verdict_row (current c) sid det (cur_cve_id g) (verdict_status verdict) in
  let '(rc, c) := sql_write (add_result row) c in
  match rc with
  | SQLITE_DONE => (PERSIST_OK, Counts (rows_inserted n + 1) (malformed_events n), c)
  | _ => (PERSIST_ERR_DB, n, c)
  end.

(** The [for (;;)] loop over the rows the cursor delivers. *)
Fixpoint candidate_loop (rows : list cpe_row) (sid : Z) (det : detection)
    (cur : option group) (n : counts) (c : C)
    : persist_status * option group * counts * C :=
  let '(ok, c) := sql_read c in
  if negb ok then (PERSIST_ERR_DB, cur, n, c) else
  match rows with
  | [] => (PERSIST_OK, cur, n, c)
  | r :: rows =>
      match row_cve_id r with
      | None => candidate_loop rows sid det cur n c
      | Some id =>
          match cur with
          | Some g =>
              if bool_decide (id = cur_cve_id g) then
                candidate_loop rows sid det
                  (Some (Group (cur_cve_id g)
                           (accumulate_outcome (row_outcome r (det_version det)) (group_acc g)))) n c
              else
                let '(st, n, c) := flush_group sid det g n c in
                if bool_decide (st = PERSIST_OK) then
                  candidate_loop rows sid det
                    (Some (Group id (accumulate_outcome (row_outcome r (det_version det)) acc0))) n c
                else (st, cur, n, c)
          | None =>
              candidate_loop rows sid det
                (Some (Group id (accumulate_outcome (row_outcome r (det_version det)) acc0))) n c
          end
      end
  end.

(** The flush after the loop. *)
Definition flush_last (sid : Z) (det : detection) (st : persist_status) (cur : option group)
    (n : counts) (c : C) : persist_status * counts * C :=
  match cur with
  | Some g => if bool_decide (st = PERSIST_OK) then flush_group sid det g n c else (st, n, c)
  | None => (st, n, c)
  end.

Definition update_malformed_data_count (sid n : Z) (c : C) : persist_status * C :=
  let '(ok, c) := sql_prepare c in
  if negb ok then (PERSIST_ERR_DB, c) else
  let '(rc, c) := sql_write (add_malformed sid n) c in
  match rc with SQLITE_DONE => (PERSIST_OK, c) | _ => (PERSIST_ERR_DB, c) end.

(** Everything between BEGIN and COMMIT or ROLLBACK. *)
Definition detect_body (sid : Z) (vendor product : bytes) (det : detection) (c : C)
    : persist_status * counts * C :=
  let n := Counts 0 0 in
  let '(ok, c) := prepare_group_statements c in
  if negb ok then (PERSIST_ERR_DB, n, c) else
  let '(ok, c) := sql_prepare c in
  if negb ok then (PERSIST_ERR_DB, n, c) else
  let '(st, cur, n, c) :=
    candidate_loop (candidates (current c) vendor product) sid det None n c in
  let '(st, n, c) := flush_last sid det st cur n c in
  if bool_decide (st = PERSIST_OK) then
    let '(st, c) := update_malformed_data_count sid (malformed_events n) c in (st, n, c)
  else (st, n, c).

(** [cytadel_scan_detect_and_persist]; [None] is a NULL argument. *)
Definition detect_and_persist (sid : Z) (vendor product : option bytes) (det : option detection)
    (c : C) : persist_status * counts * C :=
  let n := Counts 0 0 in
  match vendor, product, det with
  | Some vendor, Some product, Some det =>
    if sid <=? 0 then (PERSIST_ERR_INVALID_ARG, n, c) else
    if negb (detection_valid det) then (PERSIST_ERR_INVALID_ARG, n, c) else
    match lowercase_copy SCAN_VENDOR_PRODUCT_BUF_LEN vendor,
          lowercase_copy SCAN_VENDOR_PRODUCT_BUF_LEN product with
    | Some vendor_lc, Some product_lc =>
        let '(ok, c) := sql_begin c in
        if negb ok then (PERSIST_ERR_DB, n, c) else
        let '(st, n, c) := detect_body sid vendor_lc product_lc det c in
        if negb (bool_decide (st = PERSIST_OK)) then
          let '(_, c) := sql_rollback c in (st, n, c)
        else
          let '(ok, c) := sql_commit c in
          if negb ok then let '(_, c) := sql_rollback c in (PERSIST_ERR_DB, n, c)
          else (PERSIST_OK, n, c)
    | _, _ => (PERSIST_ERR_INVALID_ARG, n, c)
    end
  | _, _, _ => (PERSIST_ERR_INVALID_ARG, n, c)
  end.
End Persist.

(** ** Direct plugin findings *)

(** [cytadel_scan_finding_persist_t] *)
Record finding := Finding {
  fnd_host : option bytes;
  fnd_port : Z;
  fnd_service : option bytes;
  fnd_plugin_id : option bytes;
  fnd_cve_id : option bytes;
  fnd_severity : Z;
  fnd_evidence : option bytes;
  fnd_remediation : option bytes
}.

Definition finding_valid (f : finding) : bool :=
  nonempty_string (fnd_host f) && nonempty_string (fnd_plugin_id f) &&
  bool_decide (is_Some (fnd_evidence f)) &&
  ((0 <=? fnd_port f) && (fnd_port f <=? 65535)) &&
  ((0 <=? fnd_severity f) && (fnd_severity f <=? 4)) &&
  negb (bool_decide (fnd_cve_id f = Some [])).

(** The key actually used: a malformed one is dropped. *)
Definition effective_cve_id (f : finding) : option bytes :=
  match fnd_cve_id f with
  | Some id => if is_valid_cve_id id then Some id else None
  | None => None
  end.

Definition finding_row (sid : Z) (f : finding) (kev_flag : Z) (epss : option double) : result_row :=
  ResultRow sid (default [] (fnd_host f)) (fnd_port f) (fnd_service f)
    (default [] (fnd_plugin_id f)) (effective_cve_id f) (bs "confirmed") (fnd_severity f)
    (default [] (fnd_evidence f)) (fnd_remediation f) kev_flag epss.

Section Finding.
Context {C : Type} `{Sqlite C}.

Definition lookup_kev_flag (id : bytes) (c : C) : persist_status * Z * C :=
  let '(ok, c) := sql_prepare c in
  if negb ok then (PERSIST_ERR_DB, 0, c) else
  let '(ok, c) := sql_read c in
  if negb ok then (PERSIST_ERR_DB, 0, c)
  else (PERSIST_OK, if bool_decide (is_Some (db_kev (current c) !! id)) then 1 else 0, c).

Definition lookup_epss_score (id : bytes) (c : C) : persist_status * option double * C :=
  let '(ok, c) := sql_prepare c in
  if negb ok then (PERSIST_ERR_DB, None, c) else
  let '(ok, c) := sql_read c in
  if negb ok then (PERSIST_ERR_DB, None, c)
  else (PERSIST_OK, epss_score <$> db_epss (current c) !! id, c).

(** The status of a failed write inside the transaction. *)
Definition write_status (rc : sqlite_rc) : persist_status :=
  match rc with
  | SQLITE_DONE => PERSIST_OK
  | SQLITE_CONSTRAINT => PERSIST_ERR_ROW_SKIPPED
  | SQLITE_BIND_FAILURE | SQLITE_FAILURE => PERSIST_ERR_DB
  end.

(** The placeholder upsert; [now_ts] is the formatted current time, [None]
    when formatting it failed. *)
Definition upsert_placeholder (id : bytes) (now_ts : option bytes) (c : C) : persist_status * C :=
  match now_ts with
  | None => (PERSIST_ERR_DB, c)
  | Some ts =>
      let '(ok, c) := sql_prepare c in
      if negb ok then (PERSIST_ERR_DB, c) else
      let '(rc, c) := sql_write (cve_placeholder id ts) c in
      (write_status rc, c)
  end.

(** Everything between BEGIN and COMMIT or ROLLBACK. *)
Definition finding_body (sid : Z) (f : finding) (now_ts : option bytes) (kev : Z)
    (epss : option double) (c : C) : persist_status * C :=
  let '(st, c) :=
    match effective_cve_id f with
    | Some id => upsert_placeholder id now_ts c
    | None => (PERSIST_OK, c)
    end in
  if negb (bool_decide (st = PERSIST_OK)) then (st, c) else
  let '(ok, c) := sql_prepare c in
  if negb ok then (PERSIST_ERR_DB, c) else
  let '(rc, c) := sql_write (add_result (finding_row sid f kev epss)) c in
  (write_status rc, c).

(** [cytadel_scan_persist_finding] *)
Definition persist_finding (sid : Z) (f : option finding) (now_ts : option bytes) (c : C)
    : persist_status * C :=
  match f with
  | None => (PERSIST_ERR_INVALID_ARG, c)
  | Some f =>
      if sid <=? 0 then (PERSIST_ERR_INVALID_ARG, c) else
      if negb (finding_valid f) then (PERSIST_ERR_INVALID_ARG, c) else
      let '(st, kev, epss, c) :=
        match effective_cve_id f with
        | None => (PERSIST_OK, 0, None, c)
        | Some id =>
            let '(st, kev, c) := lookup_kev_flag id c in
            if negb (bool_decide (st = PERSIST_OK)) then (st, 0, None, c) else
            let '(st, epss, c) := lookup_epss_score id c in (st, kev, epss, c)
        end in
      if negb (bool_decide (st = PERSIST_OK)) then (st, c) else
      let '(ok, c) := sql_begin c in
      if negb ok then (PERSIST_ERR_DB, c) else
      let '(st, c) := finding_body sid f now_ts kev epss c in
      if negb (bool_decide (st = PERSIST_OK)) then
        let '(_, c) := sql_rollback c in (st, c)
      else
        let '(ok, c) := sql_commit c in
        if negb ok then let '(_, c) := sql_rollback c in (PERSIST_ERR_DB, c)
        else (PERSIST_OK, c)
  end.
End Finding.

(** ** The [scans] row *)

(** An INTEGER PRIMARY KEY that is not given is one more than the largest. *)
Definition next_scan_id (l : list scan_row) : Z := 1 + foldr (fun s m => Z.max (scan_id s) m) 0 l.

(** [cytadel_scan_finalize_status_t] *)
Inductive finalize_status := FINALIZE_COMPLETED | FINALIZE_ABORTED | FINALIZE_FAILED.

Definition finalize_status_to_string (s : finalize_status) : bytes :=
  match s with
  | FINALIZE_COMPLETED => bs "completed"
  | FINALIZE_ABORTED => bs "aborted"
  | FINALIZE_FAILED => bs "failed"
  end.

Definition insert_scan (target authorized_by method : bytes) (d : database) : database :=
  set_scans (fun l => l ++ [ScanRow (next_scan_id l) target authorized_by method (bs "running") false 0]) d.

Definition finish_scan (id : Z) (st : bytes) : database -> database :=
  set_scans (map (fun s =>
    if scan_id s =? id
    then ScanRow (scan_id s) (scan_target_spec s) (scan_authorized_by s)
           (scan_authorization_method s) st true (scan_malformed_data_count s)
    else s)).

Section Scans.
Context {C : Type} `{Sqlite C}.

(** [cytadel_scan_create]: the id is [sqlite3_last_insert_rowid]. *)
Definition scan_create (target authorized_by method : option bytes) (c : C)
    : persist_status * option Z * C :=
  match target, authorized_by, method with
  | Some target, Some authorized_by, Some method =>
      let '(ok, c) := sql_prepare c in
      if negb ok then (PERSIST_ERR_DB, None, c) else
      let id := next_scan_id (db_scans (current c)) in
      let '(rc, c) := sql_write (insert_scan target authorized_by method) c in
      match rc with
      | SQLITE_DONE => (PERSIST_OK, Some id, c)
      | _ => (PERSIST_ERR_DB, None, c)
      end
  | _, _, _ => (PERSIST_ERR_INVALID_ARG, None, c)
  end.

(** [cytadel_scan_finalize]; [sqlite3_changes] is the number of rows the
    WHERE clause selected. *)
Definition scan_finalize (sid : Z) (st : finalize_status) (c : C) : persist_status * C :=
  if sid <=? 0 then (PERSIST_ERR_INVALID_ARG, c) else
  let '(ok, c) := sql_prepare c in
  if negb ok then (PERSIST_ERR_DB, c) else
  let changes := length (filter (fun s => scan_id s = sid) (db_scans (current c))) in
  let '(rc, c) := sql_write (finish_scan sid (finalize_status_to_string st)) c in
  match rc with
  | SQLITE_DONE => if Nat.eqb changes 0 then (PERSIST_ERR_DB, c) else (PERSIST_OK, c)
  | _ => (PERSIST_ERR_DB, c)
  end.
End Scans.

(** ** Reference definitions *)

(** The verdict of a CVE from the outcomes of all its rows, as the contract
    states it: affected if some row matches, undetermined if none does and
    some row is undecidable, not affected if all that remain say so, and no
    verdict when there is nothing but malformed rows. *)
Definition verdict_spec (outcomes : list cpe_match) : option match_status :=
  if bool_decide (CPE_MATCH ∈ outcomes) then Some MATCH_CONFIRMED
  else if bool_decide (CPE_UNDECIDABLE ∈ outcomes) then Some MATCH_UNDETERMINED
  else if bool_decide (CPE_NO_MATCH ∈ outcomes) then Some MATCH_NOT_AFFECTED
  else None.

Definition count_malformed (outcomes : list cpe_match) : Z :=
  Z.of_nat (length (filter (fun o => o = CPE_MALFORMED_ROW) outcomes)).

(** Each value once, at its first occurrence. *)
Fixpoint distinct (l : list bytes) : list bytes :=
  match l with
  | [] => []
  | x :: l => x :: filter (fun y => y <> x) (distinct l)
  end.

Definition candidate_ids (rows : list cpe_row) : list bytes := distinct (omap row_cve_id rows).

Definition outcomes_for (detected : span) (rows : list cpe_row) (id : bytes) : list cpe_match :=
  (fun r => row_outcome r detected) <$> filter (fun r => row_cve_id r = Some id) rows.

(** What a successful detection leaves: one row per CVE that has a verdict,
    from all the candidate rows of that CVE, and the malformed rows counted. *)
Definition detect_spec (sid : Z) (vendor product : bytes) (det : detection) (d : database) : database :=
  let rows := candidates d vendor product in
  let ids := candidate_ids rows in
  add_malformed sid
    (foldr (fun id n => count_malformed (outcomes_for (det_version det) rows id) + n) 0 ids)
    (foldl (fun d' id =>
       match verdict_spec (outcomes_for (det_version det) rows id) with
       | Some st => add_result (verdict_row d sid det id st) d'
       | None => d'
       end) d ids).

Definition finding_spec (sid : Z) (f : finding) (now_ts : bytes) (d : database) : database :=
  match effective_cve_id f with
  | None => add_result (finding_row sid f 0 None) d
  | Some id =>
      add_result
        (finding_row sid f (if bool_decide (is_Some (db_kev d !! id)) then 1 else 0) (epss_score <$> db_epss d !! id))
        (cve_placeholder id now_ts d)
  end.

(** Foreign keys: a stored result or candidate row names a stored CVE. *)
Definition fk_ok (d : database) : Prop :=
  Forall (fun r => forall id, res_cve_id r = Some id -> is_Some (db_cves d !! id)) (db_results d) /\
  Forall (fun r => forall id, cpe_cve_id r = Some id -> is_Some (db_cves d !! id)) (db_cpe d).

(** ** Lemmas: the accumulator *)

#[local] Arguments cpe_match_evaluate : simpl never.

Definition accumulate_all (outcomes : list cpe_match) (a : acc) : acc :=
  foldl (fun a o => accumulate_outcome o a) a outcomes.

Lemma accumulate_all_flags outcomes a :
  accumulate_all outcomes a =
  Acc (any_match a || bool_decide (CPE_MATCH ∈ outcomes))
      (any_undecidable a || bool_decide (CPE_UNDECIDABLE ∈ outcomes))
      (any_no_match a || bool_decide (CPE_NO_MATCH ∈ outcomes))
      (malformed_count a + count_malformed outcomes).
Proof.
  unfold count_malformed. revert a; induction outcomes as [|o outcomes IH]; intros a.
  { destruct a. simpl. by rewrite !orb_false_r, Z.add_0_r. }
  simpl. unfold accumulate_all in *. simpl. rewrite IH.
  assert (forall v, bool_decide (v ∈ o :: outcomes) = bool_decide (v = o) || bool_decide (v ∈ outcomes))
    as Hd.
  { intros v. rewrite (bool_decide_ext (v ∈ o :: outcomes) (v = o \/ v ∈ outcomes)).
    - apply bool_decide_or.
    - apply elem_of_cons. }
  rewrite !Hd. destruct o; simpl; f_equal; rewrite ?orb_assoc, ?orb_true_r, ?orb_false_r; try done.
  lia.
Qed.

Lemma finalize_accumulate outcomes :
  finalize_verdict (accumulate_all outcomes acc0) =
  match verdict_spec outcomes with
  | Some st => CveVerdict true st (count_malformed outcomes)
  | None => CveVerdict false MATCH_NOT_AFFECTED (count_malformed outcomes)
  end.
Proof.
  rewrite accumulate_all_flags. unfold finalize_verdict, verdict_spec, acc0. cbn.
  by destruct (bool_decide (CPE_MATCH ∈ outcomes)), (bool_decide (CPE_UNDECIDABLE ∈ outcomes)),
    (bool_decide (CPE_NO_MATCH ∈ outcomes)).
Qed.

Lemma aggregate_loop_outcomes rows detected a outcomes :
  mapM (fun r => cpe_match_evaluate (Some r) detected) rows = Some outcomes ->
  aggregate_loop rows detected a = Some (accumulate_all outcomes a).
Proof.
  revert a outcomes; induction rows as [|r rows IH]; intros a outcomes.
  { simpl. by intros [= <-]. }
  simpl mapM. simpl aggregate_loop.
  destruct (cpe_match_evaluate (Some r) detected) as [o|]; [|done]. simpl.
  destruct (mapM _ rows) as [os|] eqn:E; [|done]. simpl. intros [= <-]. by rewrite (IH _ os).
Qed.

Lemma verdict_spec_permutation os os' : Permutation os os' -> verdict_spec os = verdict_spec os'.
Proof.
  intros Hp. unfold verdict_spec.
  assert (forall v, bool_decide (v ∈ os) = bool_decide (v ∈ os')) as E.
  { intros v. apply bool_decide_ext. by rewrite Hp. }
  by rewrite !E.
Qed.

Lemma count_malformed_permutation os os' :
  Permutation os os' -> count_malformed os = count_malformed os'.
Proof. intros Hp. unfold count_malformed. by rewrite Hp. Qed.

Lemma mapM_permutation {A B} (f : A -> option B) l l' k :
  Permutation l l' -> mapM f l = Some k -> exists k', mapM f l' = Some k' /\ Permutation k k'.
Proof.
  intros Hp; revert k; induction Hp as [|x l l' Hp IH|x y l|l l' l'' Hp1 IH1 Hp2 IH2]; intros k.
  - intros [= <-]. by exists [].
  - simpl. destruct (f x) as [b|]; [|done]. simpl.
    destruct (mapM f l) as [k1|]; [|done]. simpl. intros [= <-].
    destruct (IH k1 eq_refl) as (k' & -> & Hk). simpl. eexists; split; [done|]. by constructor.
  - simpl. destruct (f x) as [b|]; simpl; [|by destruct (f y)].
    destruct (f y) as [b'|]; [|done]. simpl.
    destruct (mapM f l) as [k1|]; [|done]. simpl. intros [= <-].
    eexists; split; [done|]. constructor.
  - intros E. destruct (IH1 k E) as (k1 & E1 & P1). destruct (IH2 k1 E1) as (k2 & E2 & P2).
    exists k2. split; [done|]. by etrans.
Qed.

(** ** Lemmas: rows and groups *)

Lemma row_of_columns_ok r : row_ok (row_of_columns r).
Proof.
  unfold row_ok, bounds_ok, row_bounds. simpl.
  repeat constructor; simpl; by match goal with |- context [column_span ?v] => destruct v end.
Qed.

Lemma row_outcome_defined r detected :
  cpe_match_evaluate (Some (row_of_columns r)) detected = Some (row_outcome r detected).
Proof.
  unfold row_outcome. pose proof (row_of_columns_ok r) as Hok. unfold row_ok in Hok.
  unfold cpe_match_evaluate. simpl. destruct (cpe_vulnerable r =? 0); [done|]. destruct (_ || _).
  - unfold cpe_evaluate_range_row. by rewrite range_loop_spec.
  - by destruct (version_compare _ _).
Qed.

Definition cve_le (r r' : cpe_row) : Prop := cve_leb (cpe_cve_id r) (cpe_cve_id r') = true.

Lemma cve_le_total r r' : cve_le r r' \/ cve_le r' r.
Proof.
  unfold cve_le. destruct (cpe_cve_id r), (cpe_cve_id r'); simpl; auto. apply bytes_leb_total.
Qed.

Lemma cve_le_trans r1 r2 r3 : cve_le r1 r2 -> cve_le r2 r3 -> cve_le r1 r3.
Proof.
  unfold cve_le. destruct (cpe_cve_id r1), (cpe_cve_id r2), (cpe_cve_id r3); simpl; try done.
  apply bytes_leb_trans.
Qed.

Lemma insert_by_cve_perm r l : Permutation (insert_by_cve r l) (r :: l).
Proof.
  induction l as [|r' l IH]; simpl; [done|]. destruct (cve_leb _ _); [done|].
  rewrite IH. by constructor.
Qed.

Lemma insert_by_cve_sorted r l : StronglySorted cve_le l -> StronglySorted cve_le (insert_by_cve r l).
Proof.
  induction 1 as [|r' l Hs IH Hall]; simpl.
  { by repeat constructor. }
  destruct (cve_leb _ _) eqn:E.
  - constructor; [by constructor|]. constructor; [done|].
    eapply Forall_impl; [exact Hall|]. intros r'' ?. by eapply cve_le_trans.
  - constructor; [done|]. rewrite insert_by_cve_perm. constructor; [|done].
    destruct (cve_le_total r r') as [H|H]; [|done]. unfold cve_le in H. congruence.
Qed.

Lemma order_by_cve_sorted l : StronglySorted cve_le (order_by_cve l).
Proof. induction l as [|r l IH]; simpl; [constructor|]. by apply insert_by_cve_sorted. Qed.

Lemma order_by_cve_perm l : Permutation (order_by_cve l) l.
Proof. induction l as [|r l IH]; simpl; [done|]. by rewrite insert_by_cve_perm, IH. Qed.

Lemma row_cve_id_some r id : row_cve_id r = Some id -> cpe_cve_id r = Some id.
Proof. unfold row_cve_id. destruct (cpe_cve_id r); [|done]. by destruct (_ || _). Qed.

(** ** Lemmas: the streaming loop computes the groups *)

(** The groups the loop flushes, the last one (flushed after the loop)
    included. *)
Fixpoint stream_groups (detected : span) (rows : list cpe_row) (cur : option group) : list group :=
  match rows with
  | [] => option_list cur
  | r :: rows =>
      match row_cve_id r with
      | None => stream_groups detected rows cur
      | Some id =>
          match cur with
          | Some g =>
              if bool_decide (id = cur_cve_id g) then
                stream_groups detected rows
                  (Some (Group (cur_cve_id g)
                           (accumulate_outcome (row_outcome r detected) (group_acc g))))
              else g :: stream_groups detected rows
                          (Some (Group id (accumulate_outcome (row_outcome r detected) acc0)))
          | None =>
              stream_groups detected rows
                (Some (Group id (accumulate_outcome (row_outcome r detected) acc0)))
          end
      end
  end.

Definition group_for (detected : span) (rows : list cpe_row) (id : bytes) : group :=
  Group id (accumulate_all (outcomes_for detected rows id) acc0).

Lemma outcomes_for_cons detected r rows id :
  outcomes_for detected (r :: rows) id =
  if bool_decide (row_cve_id r = Some id)
  then row_outcome r detected :: outcomes_for detected rows id
  else outcomes_for detected rows id.
Proof.
  unfold outcomes_for. rewrite filter_cons. by case_bool_decide; destruct (decide _).
Qed.

Lemma distinct_elem x l : x ∈ distinct l <-> x ∈ l.
Proof.
  induction l as [|y l IH]; simpl; [done|].
  rewrite !elem_of_cons, list_elem_of_filter, IH. destruct (decide (x = y)); naive_solver.
Qed.

Lemma distinct_nodup l : NoDup (distinct l).
Proof.
  induction l as [|y l IH]; simpl; constructor.
  - rewrite list_elem_of_filter. naive_solver.
  - by apply NoDup_filter.
Qed.

Lemma candidate_ids_elem rows id :
  id ∈ candidate_ids rows <-> exists r, r ∈ rows /\ row_cve_id r = Some id.
Proof. unfold candidate_ids. rewrite distinct_elem, list_elem_of_omap. done. Qed.

Lemma candidate_ids_cons r rows :
  candidate_ids (r :: rows) =
  match row_cve_id r with
  | Some id => id :: filter (fun y => y <> id) (candidate_ids rows)
  | None => candidate_ids rows
  end.
Proof. unfold candidate_ids. simpl. by destruct (row_cve_id r). Qed.

Lemma outcomes_for_none detected rows id :
  id ∉ candidate_ids rows -> outcomes_for detected rows id = [].
Proof.
  rewrite candidate_ids_elem. intros Hn. unfold outcomes_for.
  rewrite filter_none; [done|]. intros r Hr E. apply Hn. eauto.
Qed.

Lemma groups_skip detected r rows (ids : list bytes) id :
  row_cve_id r = Some id -> id ∉ ids ->
  group_for detected (r :: rows) <$> ids = group_for detected rows <$> ids.
Proof.
  intros Hr Hn. apply list_fmap_ext. intros i x Hx. unfold group_for.
  rewrite outcomes_for_cons, bool_decide_eq_false_2; [done|].
  rewrite Hr. intros [= ->]. apply Hn. by eapply list_elem_of_lookup_2.
Qed.

Lemma stream_groups_sorted detected rows g :
  StronglySorted cve_le rows ->
  (forall r id, r ∈ rows -> row_cve_id r = Some id -> bytes_leb (cur_cve_id g) id = true) ->
  stream_groups detected rows (Some g) =
  Group (cur_cve_id g) (accumulate_all (outcomes_for detected rows (cur_cve_id g)) (group_acc g))
  :: (group_for detected rows <$> filter (fun y => y <> cur_cve_id g) (candidate_ids rows)).
Proof.
  intros Hs; revert g; induction Hs as [|r rows Hs IH Hall]; intros g Hle.
  { by destruct g. }
  simpl. destruct (row_cve_id r) as [id|] eqn:Hid.
  - rewrite outcomes_for_cons, candidate_ids_cons, Hid.
    case_bool_decide as Heq; subst.
    + rewrite (bool_decide_eq_true_2 (Some (cur_cve_id g) = _)) by done. simpl.
      rewrite IH by (intros; eapply Hle; [by right|done]). simpl. f_equal.
      rewrite filter_cons_False by (intros Hc; by apply Hc).
      rewrite list_filter_filter. rewrite (groups_skip _ r rows _ (cur_cve_id g)); [|done|].
      * f_equal. apply list_filter_iff. naive_solver.
      * rewrite list_elem_of_filter. naive_solver.
    + rewrite (bool_decide_eq_false_2 (Some id = _)) by congruence.
      assert (forall r' id', r' ∈ rows -> row_cve_id r' = Some id' -> bytes_leb id id' = true) as Hge.
      { intros r' id' Hr' Hid'. rewrite Forall_forall in Hall. specialize (Hall r' Hr').
        unfold cve_le in Hall.
        by rewrite (row_cve_id_some r id), (row_cve_id_some r' id') in Hall by done. }
      assert (cur_cve_id g ∉ candidate_ids rows) as Hnotin.
      { rewrite candidate_ids_elem. intros (r' & Hr' & Hid').
        apply Heq, bytes_leb_antisym; [by eapply Hge|]. eapply Hle; [by left|done]. }
      rewrite (outcomes_for_none _ _ (cur_cve_id g)) by done.
      rewrite IH by done. simpl. rewrite filter_cons_True by congruence.
      rewrite (filter_id_all _ (filter _ _)).
      2: { intros x. rewrite list_elem_of_filter. intros [_ Hx] ->. done. }
      destruct g; simpl. f_equal. f_equal.
      * unfold group_for. rewrite outcomes_for_cons, Hid, bool_decide_eq_true_2 by done. done.
      * symmetry. apply (groups_skip _ _ _ _ id); [done|]. rewrite list_elem_of_filter. naive_solver.
  - rewrite IH by (intros; eapply Hle; [by right|done]).
    rewrite outcomes_for_cons, candidate_ids_cons, Hid. simpl. f_equal.
    apply list_fmap_ext. intros i x _. unfold group_for. by rewrite outcomes_for_cons, Hid.
Qed.

Lemma stream_groups_all detected rows :
  StronglySorted cve_le rows ->
  stream_groups detected rows None = group_for detected rows <$> candidate_ids rows.
Proof.
  induction 1 as [|r rows Hs IH Hall]; [done|].
  simpl. rewrite candidate_ids_cons. destruct (row_cve_id r) as [id|] eqn:Hid.
  - rewrite stream_groups_sorted; [|done|].
    + simpl. f_equal.
      * unfold group_for. by rewrite outcomes_for_cons, Hid, bool_decide_eq_true_2.
      * symmetry. apply (groups_skip _ _ _ _ id); [done|]. rewrite list_elem_of_filter. naive_solver.
    + simpl. intros r' id' Hr' Hid'. rewrite Forall_forall in Hall. specialize (Hall r' Hr').
      unfold cve_le in Hall.
      by rewrite (row_cve_id_some r id), (row_cve_id_some r' id') in Hall by done.
  - rewrite IH. apply list_fmap_ext. intros i x _. unfold group_for.
    by rewrite outcomes_for_cons, Hid.
Qed.

(** ** Lemmas: what the detection does to the database *)

Definition flush_db (sid : Z) (det : detection) (g : group) (d : database) : database :=
  let verdict := finalize_verdict (group_acc g) in
  if has_verdict verdict
  then add_result (verdict_row d sid det (cur_cve_id g) (verdict_status verdict)) d else d.

Definition flush_counts (g : group) (n : counts) : counts :=
  let verdict := finalize_verdict (group_acc g) in
  let n := if 0 <? verdict_malformed verdict
           then Counts (rows_inserted n) (malformed_events n + verdict_malformed verdict) else n in
  if has_verdict verdict then Counts (rows_inserted n + 1) (malformed_events n) else n.

Section Effects.
Context {C : Type} `{SqliteLaws C}.

Lemma flush_group_effect sid det g n (c c' : C) st n' :
  in_tx c = true -> flush_group sid det g n c = (st, n', c') ->
  durable c' = durable c /\
  (st = PERSIST_OK ->
   in_tx c' = true /\ current c' = flush_db sid det g (current c) /\ n' = flush_counts g n).
Proof.
  intros Ht. unfold flush_group, flush_db, flush_counts.
  destruct (has_verdict _); simpl; [|by intros [= <- <- <-]].
  sql_step; [|by intros [= <- <- <-]].
  sql_step; [|intros [= <- <- <-]; split; [congruence|done]].
  sql_step; [|intros [= <- <- <-]; split; [congruence|done]].
  sql_step; intros [= <- <- <-]; (split; [|try done]).
  2: intros _; split; [done|]; split; [congruence|done].
  all: congruence.
Qed.

Lemma candidate_loop_effect sid det rows cur n (c c' : C) st cur' n' :
  in_tx c = true -> candidate_loop rows sid det cur n c = (st, cur', n', c') ->
  durable c' = durable c /\
  (st = PERSIST_OK ->
   in_tx c' = true /\
   exists gs, stream_groups (det_version det) rows cur = gs ++ option_list cur' /\
     current c' = foldl (fun d g => flush_db sid det g d) (current c) gs /\
     n' = foldl (fun n g => flush_counts g n) n gs).
Proof.
  revert cur n c; induction rows as [|r rows IH]; intros cur n c Ht; simpl.
  - sql_step; [|by intros [= <- <- <- <-]]. intros [= <- <- <- <-].
    split; [done|]. intros _. split; [congruence|]. by exists [].
  - sql_step; [|by intros [= <- <- <- <-]].
    assert (in_tx c0 = true) as Ht0 by congruence.
    destruct (row_cve_id r) as [id|].
    2: { intros E2. destruct (IH _ _ _ Ht0 E2) as [Hd HO]. replace (current c) with (current c0) by congruence.
         split; [congruence|done]. }
    destruct cur as [g|].
    2: { intros E2. destruct (IH _ _ _ Ht0 E2) as [Hd HO]. replace (current c) with (current c0) by congruence.
         split; [congruence|done]. }
    case_bool_decide.
    { intros E2. destruct (IH _ _ _ Ht0 E2) as [Hd HO]. replace (current c) with (current c0) by congruence.
         split; [congruence|done]. }
    destruct (flush_group sid det g n c0) as [[st1 n1] c1] eqn:EF.
    destruct (flush_group_effect _ _ _ _ _ _ _ _ Ht0 EF) as [Hd1 HO1].
    case_bool_decide as Hst.
    + destruct (HO1 Hst) as (Ht1 & Hc1 & ->). intros E2.
      destruct (IH _ _ _ Ht1 E2) as [Hd HO]. split; [congruence|]. intros Hok.
      destruct (HO Hok) as (Ht' & gs & Hgs & Hc' & Hn'). split; [done|].
      exists (g :: gs). simpl. rewrite Hgs. split; [done|]. split; [|done].
      rewrite Hc', Hc1. congruence.
    + intros [= <- <- <- <-]. split; [congruence|done].
Qed.

Lemma prepare_group_effect (c c' : C) ok :
  prepare_group_statements c = (ok, c') ->
  durable c' = durable c /\ (ok = true -> same_conn c c').
Proof.
  unfold prepare_group_statements, same_conn. do 3 (sql_step; [|intros [= <- <-]; split; [congruence|done]]).
  intros E2. destruct ok.
  - apply prepare_ok in E2 as (? & ? & ?). split; [congruence|]. intros _. repeat split; congruence.
  - apply prepare_fail, aborted_durable in E2. split; [congruence|done].
Qed.
End Effects.

(** The contents the lookups use do not change while results are added. *)
Definition same_lookups (d d' : database) : Prop :=
  db_cves d' = db_cves d /\ db_kev d' = db_kev d /\ db_epss d' = db_epss d.

Lemma verdict_row_lookups d d' sid det id st :
  same_lookups d d' -> verdict_row d' sid det id st = verdict_row d sid det id st.
Proof. intros (Hc & Hk & He). unfold verdict_row. by rewrite Hc, Hk, He. Qed.

Lemma flush_group_for d d' sid det rows id :
  same_lookups d d' ->
  flush_db sid det (group_for (det_version det) rows id) d' =
  match verdict_spec (outcomes_for (det_version det) rows id) with
  | Some st => add_result (verdict_row d sid det id st) d'
  | None => d'
  end.
Proof.
  intros Hl. unfold flush_db. simpl. rewrite finalize_accumulate.
  destruct (verdict_spec _); simpl; [|done]. by rewrite (verdict_row_lookups d).
Qed.

Lemma flush_all_groups d d' sid det rows ids :
  same_lookups d d' ->
  foldl (fun d g => flush_db sid det g d) d' (group_for (det_version det) rows <$> ids) =
  foldl (fun d' id =>
    match verdict_spec (outcomes_for (det_version det) rows id) with
    | Some st => add_result (verdict_row d sid det id st) d'
    | None => d'
    end) d' ids.
Proof.
  revert d'; induction ids as [|id ids IH]; intros d' Hl; [done|]. simpl.
  rewrite (flush_group_for d d') by done. apply IH.
  by destruct (verdict_spec _).
Qed.

Lemma flush_counts_malformed detected rows n ids :
  malformed_events (foldl (fun n g => flush_counts g n) n (group_for detected rows <$> ids)) =
  malformed_events n + foldr (fun id m => count_malformed (outcomes_for detected rows id) + m) 0 ids.
Proof.
  revert n; induction ids as [|id ids IH]; intros n; simpl; [lia|].
  rewrite IH. unfold flush_counts. simpl. rewrite finalize_accumulate.
  assert (0 <= count_malformed (outcomes_for detected rows id)) by (unfold count_malformed; lia).
  destruct (verdict_spec _); simpl;
    destruct (Z.ltb_spec 0 (count_malformed (outcomes_for detected rows id))); simpl; lia.
Qed.

Section Detect.
Context {C : Type} `{SqliteLaws C}.

Lemma flush_last_effect sid det cur n (c c' : C) st n' :
  in_tx c = true -> flush_last sid det PERSIST_OK cur n c = (st, n', c') ->
  durable c' = durable c /\
  (st = PERSIST_OK ->
   in_tx c' = true /\
   current c' = foldl (fun d g => flush_db sid det g d) (current c) (option_list cur) /\
   n' = foldl (fun n g => flush_counts g n) n (option_list cur)).
Proof.
  intros Ht. destruct cur as [g|]; simpl.
  - intros EF. by apply (flush_group_effect sid det g n c c' st n').
  - by intros [= <- <- <-].
Qed.

Lemma flush_last_failed sid det st cur n (c c' : C) st' n' :
  st <> PERSIST_OK -> flush_last sid det st cur n c = (st', n', c') ->
  st' = st /\ n' = n /\ c' = c.
Proof.
  intros Hst. unfold flush_last. destruct cur; [rewrite bool_decide_eq_false_2 by done|];
    by intros [= <- <- <-].
Qed.

Lemma update_malformed_effect sid n (c c' : C) st :
  in_tx c = true -> update_malformed_data_count sid n c = (st, c') ->
  durable c' = durable c /\
  (st = PERSIST_OK -> in_tx c' = true /\ current c' = add_malformed sid n (current c)).
Proof.
  intros Ht. unfold update_malformed_data_count.
  sql_step; [|by intros [= <- <-]].
  sql_step; intros [= <- <-]; (split; [congruence|]); try done.
  intros _. split; congruence.
Qed.

Lemma detect_body_effect sid vendor product det (c c' : C) st n :
  in_tx c = true -> detect_body sid vendor product det c = (st, n, c') ->
  durable c' = durable c /\
  (st = PERSIST_OK ->
   in_tx c' = true /\ current c' = detect_spec sid vendor product det (current c)).
Proof.
  intros Ht. unfold detect_body.
  destruct (prepare_group_statements c) as [ok c1] eqn:E1.
  destruct (prepare_group_effect c c1 ok E1) as [Hd1 Hs1].
  destruct ok; simpl; [|by intros [= <- <- <-]].
  destruct (Hs1 eq_refl) as (_ & Hc1 & Ht1).
  sql_step; [|intros [= <- <- <-]; split; [congruence|done]].
  destruct (candidate_loop _ _ _ _ _ _) as [[[st1 cur] n1] c2] eqn:EL.
  apply candidate_loop_effect in EL as [Hd2 HO2]; [|congruence].
  destruct (flush_last _ _ _ _ _ _) as [[st2 n2] c3] eqn:EF.
  destruct (decide (st1 = PERSIST_OK)) as [->|Hst].
  2: { apply flush_last_failed in EF as (-> & -> & ->); [|done].
       rewrite bool_decide_eq_false_2 by done. intros [= <- <- <-]. split; [congruence|done]. }
  destruct (HO2 eq_refl) as (Ht2 & gs & Hgs & Hc2 & Hn1). clear HO2.
  set (rows := candidates (current c0) vendor product) in *.
  destruct (flush_last_effect _ _ _ _ _ _ _ _ Ht2 EF) as [Hd3 HO3].
  rewrite Hc2, Hn1, <- !foldl_app in HO3.
  rewrite <- Hgs in HO3. unfold rows in HO3. rewrite stream_groups_all in HO3 by apply order_by_cve_sorted.
  case_bool_decide as Hst2; [|intros [= <- <- <-]; split; [congruence|done]].
  destruct (HO3 Hst2) as (Ht3 & Hc3 & Hn2).
  destruct (update_malformed_data_count _ _ _) as [st3 c4] eqn:EU.
  apply update_malformed_effect in EU as [Hd4 HO4]; [|done].
  intros [= <- <- <-]. split; [congruence|]. intros Hok. destruct (HO4 Hok) as [Ht4 Hc4].
  split; [done|]. rewrite Hc4, Hc3, Hn2, flush_counts_malformed. simpl.
  rewrite (flush_all_groups (current c0)) by done.
  unfold detect_spec. fold rows. replace (current c) with (current c0) by congruence. done.
Qed.

(** A transaction that either commits what its body computed or leaves the
    disk alone. *)
Lemma detect_effect sid vendor product det (c c' : C) st n :
  detect_and_persist sid vendor product det c = (st, n, c') ->
  (st <> PERSIST_OK -> durable c' = durable c) /\
  (st = PERSIST_OK ->
   in_tx c = false /\
   exists v p d, lowercase_copy SCAN_VENDOR_PRODUCT_BUF_LEN (default [] vendor) = Some v /\
     lowercase_copy SCAN_VENDOR_PRODUCT_BUF_LEN (default [] product) = Some p /\ det = Some d /\
     detection_valid d = true /\ in_tx c' = false /\
     durable c' = detect_spec sid v p d (durable c)).
Proof.
  unfold detect_and_persist.
  destruct vendor as [v|]; [|by intros [= <- <- <-]].
  destruct product as [p|]; [|by intros [= <- <- <-]].
  destruct det as [d|]; [|by intros [= <- <- <-]]. simpl.
  destruct (sid <=? 0); [by intros [= <- <- <-]|].
  destruct (detection_valid d) eqn:Hv; [|by intros [= <- <- <-]]. simpl.
  destruct (lowercase_copy _ v) as [vl|]; [|by intros [= <- <- <-]].
  destruct (lowercase_copy _ p) as [pl|]; [|by intros [= <- <- <-]].
  destruct (sql_begin c) as [[] c1] eqn:EB; simpl.
  2: { apply begin_fail in EB as (? & _ & _). by intros [= <- <- <-]. }
  apply begin_ok in EB as (Ht & Ht1 & Hd1 & Hc1).
  destruct (detect_body _ _ _ _ _) as [[st2 n2] c2] eqn:EBody.
  apply detect_body_effect in EBody as [Hd2 HO2]; [|done].
  case_bool_decide as Hst; simpl.
  - destruct (HO2 Hst) as [Ht2 Hc2].
    destruct (sql_commit c2) as [[] c3] eqn:EC; simpl.
    + apply commit_ok in EC as (_ & Ht3 & Hd3). intros [= <- <- <-]. split; [done|].
      intros _. split; [done|]. exists vl, pl, d. repeat split; try done.
      rewrite Hd3, Hc2, Hc1. by rewrite (autocommit_current c Ht).
    + apply commit_fail, aborted_durable in EC.
      destruct (sql_rollback c3) as [? c4] eqn:ER. apply rollback_durable in ER.
      intros [= <- <- <-]. split; [congruence|done].
  - destruct (sql_rollback c2) as [? c3] eqn:ER. apply rollback_durable in ER.
    intros [= <- <- <-]. split; [congruence|done].
Qed.
End Detect.

(** ** Lemmas: findings, keys and the [scans] row *)

Section FindingEffects.
Context {C : Type} `{SqliteLaws C}.

Lemma finding_body_effect sid f ts kev epss (c c' : C) st :
  in_tx c = true -> finding_body sid f ts kev epss c = (st, c') ->
  durable c' = durable c /\
  (st = PERSIST_OK -> in_tx c' = true /\
   exists t, (is_Some (effective_cve_id f) -> ts = Some t) /\
   current c' = add_result (finding_row sid f kev epss)
     match effective_cve_id f with Some id => cve_placeholder id t (current c) | None => current c end).
Proof.
  intros Ht. unfold finding_body, upsert_placeholder, write_status.
  destruct (effective_cve_id f) as [id|].
  - destruct ts as [t|]; simpl; [|by intros [= <- <-]].
    sql_step; [|intros [= <- <-]; done].
    sql_step; [|intros [= <- <-]; split; [congruence|done]..].
    sql_step; [|intros [= <- <-]; split; [congruence|done]].
    sql_step; intros [= <- <-]; (split; [congruence|]); try done.
    intros _. split; [done|]. exists t. split; [done|]. congruence.
  - simpl. sql_step; [|intros [= <- <-]; done].
    sql_step; intros [= <- <-]; (split; [congruence|]); try done.
    intros _. split; [done|]. exists []. split; [by intros []|]. congruence.
Qed.

(** The lookups before the transaction. *)
Lemma finding_lookups_effect f (c c' : C) st kev epss :
  match effective_cve_id f with
  | None => (PERSIST_OK, 0, None, c)
  | Some id =>
      let '(st, kev, c) := lookup_kev_flag id c in
      if negb (bool_decide (st = PERSIST_OK)) then (st, 0, None, c) else
      let '(st, epss, c) := lookup_epss_score id c in (st, kev, epss, c)
  end = (st, kev, epss, c') ->
  durable c' = durable c /\
  (st = PERSIST_OK -> same_conn c c' /\
    match effective_cve_id f with
    | None => kev = 0 /\ epss = None
    | Some id => kev = (if bool_decide (is_Some (db_kev (current c) !! id)) then 1 else 0) /\
                 epss = epss_score <$> db_epss (current c) !! id
    end).
Proof.
  unfold lookup_kev_flag, lookup_epss_score, same_conn.
  destruct (effective_cve_id f) as [id|]; [|by intros [= <- <- <- <-]].
  sql_step; [|intros [= <- <- <- <-]; done].
  sql_step; [|intros [= <- <- <- <-]; split; [congruence|done]].
  sql_step; [|intros [= <- <- <- <-]; split; [congruence|done]].
  sql_step; [|intros [= <- <- <- <-]; split; [congruence|done]].
  intros [= <- <- <- <-]. split; [congruence|]. intros _. repeat split; try congruence.
  all: match goal with
       | |- context [current ?x] => assert_fails (unify x c); replace (current x) with (current c) by congruence
       end; done.
Qed.

Lemma finding_effect sid f ts (c c' : C) st :
  persist_finding sid f ts c = (st, c') ->
  (st <> PERSIST_OK -> durable c' = durable c) /\
  (st = PERSIST_OK ->
   in_tx c = false /\ 0 < sid /\
   exists fd t, f = Some fd /\ finding_valid fd = true /\
     (is_Some (effective_cve_id fd) -> ts = Some t) /\ in_tx c' = false /\
     durable c' = finding_spec sid fd t (durable c)).
Proof.
  unfold persist_finding. destruct f as [f|]; [|by intros [= <- <-]].
  destruct (Z.leb_spec sid 0); [by intros [= <- <-]|].
  destruct (finding_valid f) eqn:Hv; [|by intros [= <- <-]]. cbn [negb].
  destruct (match effective_cve_id f with Some _ => _ | None => _ end)
    as [[[st1 kev] epss] c1] eqn:EL.
  apply finding_lookups_effect in EL as [Hd1 HO1].
  case_bool_decide as Hst1; cbn [negb]; [|intros [= <- <-]; done].
  destruct (HO1 Hst1) as [(_ & Hc1 & Ht1) Hlook].
  destruct (sql_begin c1) as [[] c2] eqn:EB; cbn [negb].
  2: { apply begin_fail in EB as (? & _ & _). intros [= <- <-]. split; [congruence|done]. }
  apply begin_ok in EB as (Hnt & Ht2 & Hd2 & Hc2).
  assert (Ht : in_tx c = false) by congruence.
  destruct (finding_body _ _ _ _ _ _) as [st3 c3] eqn:EF.
  apply finding_body_effect in EF as [Hd3 HO3]; [|done].
  case_bool_decide as Hst3; cbn [negb].
  - destruct (HO3 Hst3) as (Ht3 & t & Hts & Hc3).
    destruct (sql_commit c3) as [[] c4] eqn:EC; cbn [negb].
    + apply commit_ok in EC as (_ & Ht4 & Hd4). intros [= <- <-]. split; [done|].
      intros _. split; [done|]. split; [lia|]. exists f, t. repeat split; try done.
      rewrite Hd4, Hc3, Hc2, Hc1. unfold finding_spec.
      rewrite (autocommit_current c Ht) in Hlook |- *.
      destruct (effective_cve_id f); destruct Hlook as [-> ->]; done.
    + apply commit_fail, aborted_durable in EC.
      destruct (sql_rollback c4) as [? c5] eqn:ER. apply rollback_durable in ER.
      intros [= <- <-]. split; [congruence|done].
  - destruct (sql_rollback c3) as [? c4] eqn:ER. apply rollback_durable in ER.
    intros [= <- <-]. split; [congruence|done].
Qed.
End FindingEffects.

Lemma fk_add_result r d :
  fk_ok d -> (forall id, res_cve_id r = Some id -> is_Some (db_cves d !! id)) ->
  fk_ok (add_result r d).
Proof.
  intros [Hr Hc] Hn. split; simpl; [|done]. apply Forall_app. split; [done|]. by repeat constructor.
Qed.

Lemma fk_add_malformed sid n d : fk_ok d -> fk_ok (add_malformed sid n d).
Proof. done. Qed.

Lemma cve_placeholder_lookup id ts d id' :
  is_Some (db_cves d !! id') \/ id' = id -> is_Some (db_cves (cve_placeholder id ts d) !! id').
Proof.
  unfold cve_placeholder. intros Hid. destruct (db_cves d !! id) eqn:E; simpl.
  - destruct Hid as [?| ->]; [done|by eexists].
  - destruct (decide (id = id')) as [->|]; [rewrite lookup_insert_eq; by eexists|].
    rewrite lookup_insert_ne by done. naive_solver.
Qed.

Lemma fk_placeholder id ts d : fk_ok d -> fk_ok (cve_placeholder id ts d).
Proof.
  intros [Hr Hc]. unfold fk_ok.
  assert (db_results (cve_placeholder id ts d) = db_results d /\
          db_cpe (cve_placeholder id ts d) = db_cpe d) as [-> ->].
  { unfold cve_placeholder. by destruct (_ !! _). }
  split; (eapply Forall_impl; [eassumption|]); intros r HH id' E;
    apply cve_placeholder_lookup; left; by apply HH.
Qed.

Lemma finding_spec_fk sid f ts d : fk_ok d -> fk_ok (finding_spec sid f ts d).
Proof.
  intros Hok. unfold finding_spec. destruct (effective_cve_id f) as [id|] eqn:E.
  - apply fk_add_result; [by apply fk_placeholder|]. unfold finding_row. simpl. rewrite E.
    intros id' [= <-]. apply cve_placeholder_lookup. by right.
  - apply fk_add_result; [done|]. unfold finding_row. simpl. by rewrite E.
Qed.

Lemma results_fk d sid det (verdict : bytes -> option match_status) ids d' :
  fk_ok d' -> db_cves d' = db_cves d ->
  (forall id, id ∈ ids -> is_Some (db_cves d !! id)) ->
  fk_ok (foldl (fun d' id =>
    match verdict id with
    | Some st => add_result (verdict_row d sid det id st) d'
    | None => d'
    end) d' ids).
Proof.
  revert d'; induction ids as [|id ids IH]; intros d' Hok Hcv Hids; [done|]. simpl.
  apply IH.
  - destruct (verdict id); [|done]. apply fk_add_result; [done|]. simpl. intros id' [= <-].
    rewrite Hcv. apply Hids. by left.
  - by destruct (verdict id).
  - intros. apply Hids. by right.
Qed.

Lemma detect_spec_fk sid v p det d : fk_ok d -> fk_ok (detect_spec sid v p det d).
Proof.
  intros Hok. apply fk_add_malformed.
  apply (results_fk d sid det (fun id => verdict_spec (outcomes_for _ _ id))); [done|done|].
  intros id (r & Hr & Hid)%candidate_ids_elem. apply row_cve_id_some in Hid.
  unfold candidates in Hr. rewrite order_by_cve_perm, list_elem_of_filter in Hr.
  destruct Hok as [_ Hc], Hr as [_ Hr]. rewrite Forall_forall in Hc. by apply (Hc r Hr).
Qed.

(** What the aggregate function returns on rows it can evaluate. *)
Lemma aggregate_outcomes rows detected outcomes :
  mapM (fun r => cpe_match_evaluate (Some r) detected) rows = Some outcomes ->
  aggregate_cve_verdict rows detected =
  Some match verdict_spec outcomes with
       | Some st => CveVerdict true st (count_malformed outcomes)
       | None => CveVerdict false MATCH_NOT_AFFECTED (count_malformed outcomes)
       end.
Proof.
  intros E. unfold aggregate_cve_verdict. rewrite (aggregate_loop_outcomes _ _ _ _ E). simpl.
  by rewrite finalize_accumulate.
Qed.

Lemma rows_evaluate rows detected :
  Forall row_ok rows ->
  exists outcomes, mapM (fun r => cpe_match_evaluate (Some r) detected) rows = Some outcomes.
Proof.
  induction 1 as [|r rows Hr _ [os IH]]; [by exists []|]. simpl.
  assert (exists o, cpe_match_evaluate (Some r) detected = Some o) as [o ->].
  { unfold cpe_match_evaluate. destruct (vulnerable r =? 0); [by eexists|].
    destruct (_ || _); [|destruct (version_compare _ _); by eexists].
    unfold cpe_evaluate_range_row. rewrite range_loop_spec by done. by eexists. }
  simpl. rewrite IH. by eexists.
Qed.

Lemma next_scan_id_fresh l s : s ∈ l -> scan_id s < next_scan_id l.
Proof.
  unfold next_scan_id. induction l as [|x l IH]; [by intros ?%elem_of_nil|].
  rewrite elem_of_cons. simpl. intros [->|Hs]; [lia|]. specialize (IH Hs). lia.
Qed.

Lemma next_scan_id_positive l : 0 < next_scan_id l.
Proof. unfold next_scan_id. induction l as [|x l IH]; simpl; lia. Qed.

(** ** Examples *)

Definition example_cpe (id : string) (upto : string) : cpe_row :=
  CpeRow (Some (bs id)) (bs "cpe") (bs "a") (bs "apache") (bs "http_server") (Some (bs "*"))
    (Some []) (Some []) (Some []) (Some (bs upto)) 1.

Definition example_db : database :=
  Database {[ bs "CVE-2021-41773" := CveRow [] [] [] None None None None None None 4 (bs "nvd") ]}
    [example_cpe "CVE-2021-41773" "2.4.40"; example_cpe "CVE-2021-41773" "2.4.50"]
    {[ bs "CVE-2021-41773" := KevRow (bs "2021-11-03") (bs "Apache") (bs "HTTP Server") (bs "Path Traversal") None None 1 None ]}
    ∅ [ScanRow 1 (bs "10.0.0.1") (bs "ops") (bs "flag") (bs "running") false 0]
    [] ∅ (Schema ∅ ∅ []).

Definition example_conn (faults : list fault) : toy_conn := ToyConn example_db None faults.

Definition example_detection : detection :=
  Detection (Some (bs "10.0.0.1")) 80 (Some (bs "http")) (Some (bs "svc")) (Some (bs "banner")) None
    (Span (bs "2.4.49")).

Definition example_finding : finding :=
  Finding (Some (bs "10.0.0.1")) 80 None (Some (bs "ssl")) (Some (bs "CVE-2014-0160")) 3
    (Some (bs "heartbeat")) None.

(** ** Properties *)

(** The aggregate of a CVE is the three-valued verdict of the set of its
    rows: affected if some row matches; else undetermined if some row is
    undecidable; else not affected if some row says so; else no verdict.
    Malformed rows are counted and change nothing else, and the order of the
    rows is irrelevant. *)
Theorem aggregate_three_valued rows rows' detected :
  Forall row_ok rows -> Permutation rows rows' ->
  exists outcomes,
    mapM (fun r => cpe_match_evaluate (Some r) detected) rows = Some outcomes /\
    aggregate_cve_verdict rows detected =
      Some match verdict_spec outcomes with
           | Some st => CveVerdict true st (count_malformed outcomes)
           | None => CveVerdict false MATCH_NOT_AFFECTED (count_malformed outcomes)
           end /\
    aggregate_cve_verdict rows' detected = aggregate_cve_verdict rows detected.
Proof.
  intros Hok Hp. destruct (rows_evaluate rows detected Hok) as [os E]. exists os.
  destruct (mapM_permutation _ _ _ _ Hp E) as (os' & E' & Hos).
  rewrite (aggregate_outcomes _ _ _ E), (aggregate_outcomes _ _ _ E').
  by rewrite (verdict_spec_permutation _ _ Hos), (count_malformed_permutation _ _ Hos).
Qed.

Lemma aggregate_three_valued_witness :
  aggregate_cve_verdict
    (rev [row_of_columns (example_cpe "CVE-2021-41773" "2.4.40");
          row_of_columns (example_cpe "CVE-2021-41773" "2.4.50")]) (Span (bs "2.4.49"))
  = Some (CveVerdict true MATCH_CONFIRMED 0).
Proof.
  destruct (aggregate_three_valued
    [row_of_columns (example_cpe "CVE-2021-41773" "2.4.40");
     row_of_columns (example_cpe "CVE-2021-41773" "2.4.50")]
    (rev [row_of_columns (example_cpe "CVE-2021-41773" "2.4.40");
          row_of_columns (example_cpe "CVE-2021-41773" "2.4.50")])
    (Span (bs "2.4.49"))) as (os & E & _ & ->).
  - repeat constructor.
  - apply Permutation_rev.
  - reflexivity.
Defined.

(** C11: Detection is one transaction around the declarative query: started
    outside a transaction it either reports success and has durably added
    exactly the rows of [detect_spec] (one per CVE with a verdict, computed
    from all the candidate rows of that CVE, with the severity, KEV and EPSS
    values of the same contents, and the malformed rows counted on the
    scan), or reports an error and has changed nothing on disk, at whatever
    call the database failed. *)
Theorem detect_and_persist_refines {C : Type} `{SqliteLaws C} sid vendor product det (c : C) :
  in_tx c = false ->
  let '(st, _, c') := detect_and_persist sid vendor product det c in
  (st <> PERSIST_OK -> durable c' = durable c) /\
  (st = PERSIST_OK ->
   exists v p d, lowercase_copy SCAN_VENDOR_PRODUCT_BUF_LEN (default [] vendor) = Some v /\
     lowercase_copy SCAN_VENDOR_PRODUCT_BUF_LEN (default [] product) = Some p /\ det = Some d /\
     detection_valid d = true /\ in_tx c' = false /\
     durable c' = detect_spec sid v p d (durable c)).
Proof.
  intros Ht. destruct (detect_and_persist sid vendor product det c) as [[st n] c'] eqn:E.
  destruct (detect_effect sid vendor product det c c' st n E) as [HE HO]. split; [done|]. intros Hst. by apply HO.
Qed.

Lemma detect_and_persist_refines_witness :
  let '(st, _, c') :=
    detect_and_persist 1 (Some (bs "Apache")) (Some (bs "HTTP_Server")) (Some example_detection)
      (example_conn (replicate 9 Works ++ [Fails true])) in
  st <> PERSIST_OK -> durable c' = example_db.
Proof.
  pose proof (detect_and_persist_refines 1 (Some (bs "Apache")) (Some (bs "HTTP_Server"))
    (Some example_detection) (example_conn (replicate 9 Works ++ [Fails true])) eq_refl) as R.
  destruct (detect_and_persist _ _ _ _ _) as [[st n] c']. exact (proj1 R).
Defined.

(** The run of the example without faults confirms the CVE. *)
Example detect_example :
  res_match_status <$> db_results (durable
    (detect_and_persist 1 (Some (bs "Apache")) (Some (bs "HTTP_Server")) (Some example_detection)
       (example_conn [])).2)
  = [bs "confirmed"].
Proof. vm_compute. reflexivity. Qed.

(** A plugin finding is stored together with the placeholder of its CVE
    or not at all: success means that exactly [finding_spec] is on disk (a
    CVE id that does not follow the grammar is dropped, never used as a key),
    any other status (a rejected row included) leaves the disk unchanged. *)
Theorem persist_finding_atomic {C : Type} `{SqliteLaws C} sid f ts (c : C) :
  in_tx c = false ->
  let '(st, c') := persist_finding sid f ts c in
  (st <> PERSIST_OK -> durable c' = durable c) /\
  (st = PERSIST_OK ->
   exists fd t, f = Some fd /\ finding_valid fd = true /\ 0 < sid /\
     (is_Some (effective_cve_id fd) -> ts = Some t) /\ in_tx c' = false /\
     durable c' = finding_spec sid fd t (durable c)).
Proof.
  intros Ht. destruct (persist_finding sid f ts c) as [st c'] eqn:E.
  destruct (finding_effect sid f ts c c' st E) as [HE HO]. split; [done|]. intros Hst.
  destruct (HO Hst) as (_ & Hs & fd & t & ? & ? & ? & ? & ?). by exists fd, t.
Qed.

Lemma persist_finding_atomic_witness :
  let '(st, c') :=
    persist_finding 1 (Some example_finding) (Some (bs "now")) (example_conn (replicate 8 Works ++ [Rejects])) in
  st <> PERSIST_OK -> durable c' = example_db.
Proof.
  pose proof (persist_finding_atomic 1 (Some example_finding) (Some (bs "now"))
    (example_conn (replicate 8 Works ++ [Rejects])) eq_refl) as R.
  destruct (persist_finding _ _ _ _) as [st c']. exact (proj1 R).
Defined.

(** Whatever the scan writes and wherever it fails, the foreign keys on
    disk stay intact: every stored result and candidate row names a stored
    CVE, placeholders for unknown ones included. *)
Theorem persist_preserves_foreign_keys {C : Type} `{SqliteLaws C} sid vendor product det f ts (c : C) :
  in_tx c = false -> fk_ok (durable c) ->
  fk_ok (durable (detect_and_persist sid vendor product det c).2) /\
  fk_ok (durable (persist_finding sid f ts c).2).
Proof.
  intros Ht Hok. split.
  - destruct (detect_and_persist sid vendor product det c) as [[st n] c'] eqn:E. simpl.
    destruct (detect_effect sid vendor product det c c' st n E) as [HE HO].
    destruct (decide (st = PERSIST_OK)) as [Hst|Hst]; [|by rewrite HE].
    destruct (HO Hst) as (_ & v & p & d & _ & _ & _ & _ & _ & ->). by apply detect_spec_fk.
  - destruct (persist_finding sid f ts c) as [st c'] eqn:E. simpl.
    destruct (finding_effect sid f ts c c' st E) as [HE HO].
    destruct (decide (st = PERSIST_OK)) as [Hst|Hst]; [|by rewrite HE].
    destruct (HO Hst) as (_ & _ & fd & t & _ & _ & _ & _ & ->). by apply finding_spec_fk.
Qed.

Lemma persist_preserves_foreign_keys_witness :
  fk_ok (durable (persist_finding 1 (Some example_finding) (Some (bs "now")) (example_conn [])).2).
Proof.
  apply (persist_preserves_foreign_keys 1 None None None (Some example_finding) (Some (bs "now"))
    (example_conn [])); [reflexivity|].
  split; repeat constructor; simpl; intros id [= <-]; vm_compute; by eexists.
Defined.

(** A created scan gets an id no stored scan has and starts as running
    with nothing counted; finishing a scan changes that row only, and
    finishing an id that is not stored is an error that changes nothing.
    Each is durable as soon as it reports success. *)
Theorem scan_lifecycle {C : Type} `{SqliteLaws C} target who method sid fst (c : C) :
  in_tx c = false ->
  (let '(st, id, c') := scan_create target who method c in
   (st <> PERSIST_OK -> durable c' = durable c) /\
   (st = PERSIST_OK ->
    exists n t w m, id = Some n /\ target = Some t /\ who = Some w /\ method = Some m /\
      (forall s, s ∈ db_scans (durable c) -> scan_id s < n) /\
      0 < n /\ in_tx c' = false /\ durable c' = insert_scan t w m (durable c) /\
      db_scans (durable c') = db_scans (durable c) ++ [ScanRow n t w m (bs "running") false 0])) /\
  (let '(st, c') := scan_finalize sid fst c in
   (st <> PERSIST_OK -> durable c' = durable c) /\
   (st = PERSIST_OK ->
    (exists s, s ∈ db_scans (durable c) /\ scan_id s = sid) /\
    durable c' = finish_scan sid (finalize_status_to_string fst) (durable c))).
Proof.
  intros Ht. pose proof (autocommit_current c Ht) as Hcd. split.
  - unfold scan_create. destruct target as [t|], who as [w|], method as [m|]; try done.
    sql_step; [|done].
    match goal with |- context [sql_write ?f ?c] => destruct (sql_write f c) as [[] c2] eqn:EW end.
    + apply write_done in EW as (_ & Ht2 & Hd). replace (in_tx c0) with false in * by congruence.
      replace (durable c0) with (durable c) in Hd by congruence. replace (current c0) with (durable c) by congruence.
      split; [done|]. intros _. eexists _, t, w, m. split_and!; try done.
      * intros s Hs. by apply next_scan_id_fresh.
      * by apply next_scan_id_positive.
      * by rewrite Hd.
    + apply write_constraint, same_conn_aborted, aborted_durable in EW. split; [congruence|done].
    + apply write_unbound, same_conn_aborted, aborted_durable in EW. split; [congruence|done].
    + apply write_failure, aborted_durable in EW. split; [congruence|done].
  - unfold scan_finalize. destruct (sid <=? 0); [done|].
    sql_step; [|done].
    match goal with |- context [sql_write ?f ?c] => destruct (sql_write f c) as [[] c2] eqn:EW end.
    + apply write_done in EW as (_ & _ & Hd). replace (in_tx c0) with false in Hd by congruence.
      replace (durable c0) with (durable c) in Hd by congruence.
      replace (current c0) with (durable c) by congruence.
      destruct (filter _ (db_scans (durable c))) as [|s l] eqn:EF; simpl.
      * split; [|done]. intros _. rewrite Hd. unfold finish_scan, set_scans.
        destruct (durable c) as [a b k e sc r y]; simpl in *. f_equal.
        rewrite <- (map_id sc) at 2. apply map_ext_in. intros s Hs.
        destruct (Z.eqb_spec (scan_id s) sid); [|done]. exfalso.
        eapply (filter_nil_not_elem_of _ _ _ EF); [done|]. by apply list_elem_of_In.
      * split; [done|]. intros _. split; [|done]. exists s.
        assert (s ∈ filter (fun s => scan_id s = sid) (db_scans (durable c))) as Hs
          by (rewrite EF; left).
        by apply list_elem_of_filter in Hs as [? ?].
    + apply write_constraint, same_conn_aborted, aborted_durable in EW. split; [congruence|done].
    + apply write_unbound, same_conn_aborted, aborted_durable in EW. split; [congruence|done].
    + apply write_failure, aborted_durable in EW. split; [congruence|done].
Qed.

Lemma scan_lifecycle_witness :
  let '(st, c') := scan_finalize 1 FINALIZE_COMPLETED (example_conn []) in
  st = PERSIST_OK ->
  durable c' = finish_scan 1 (bs "completed") example_db.
Proof.
  pose proof (scan_lifecycle None None None 1 FINALIZE_COMPLETED (example_conn []) eq_refl) as [_ R].
  destruct (scan_finalize _ _ _) as [st c']. intros Hst. exact (proj2 (proj2 R Hst)).
Defined.
