(* ===== verification/Json.v ===== *)
(** * JSON documents as the ingest code sees them

    The tree [cJSON_ParseWithLength] builds, and the type-checked lookups the
    ingest modules share ([src/src/db/nvd_ingest.c], [kev_ingest.c],
    [nvd_sync.c]).  The parser is vendored code and a parameter of the
    modules that call it.  A string is what a C string function sees of it:
    the bytes before the first NUL. *)

From S2P Require Import Prelude.

Inductive json :=
  | JNull
  | JBool (b : bool)
  | JNumber (d : double)
  | JString (s : bytes)
  | JArray (items : list json)
  | JObject (members : list (bytes * json)).

(** [cJSON_GetObjectItemCaseSensitive]: the first member of that name; any
    other value, NULL included, has none. *)
Fixpoint find_member (members : list (bytes * json)) (key : bytes) : option json :=
  match members with
  | [] => None
  | (name, v) :: members => if bool_decide (name = key) then Some v else find_member members key
  end.

Definition json_item (obj : option json) (key : string) : option json :=
  match obj with Some (JObject members) => find_member members (bs key) | _ => None end.

Definition json_get_string (obj : option json) (key : string) : option bytes :=
  match json_item obj key with Some (JString s) => Some s | _ => None end.

Definition json_get_number (obj : option json) (key : string) : option double :=
  match json_item obj key with Some (JNumber d) => Some d | _ => None end.

Definition json_get_bool (obj : option json) (key : string) : option bool :=
  match json_item obj key with Some (JBool b) => Some b | _ => None end.

(** The [child] chain of an array, [None] for anything else. *)
Definition json_array (obj : option json) : option (list json) :=
  match obj with Some (JArray items) => Some items | _ => None end.

Definition is_object (v : json) : bool := match v with JObject _ => true | _ => false end.

(** A string member as a non-empty one ([s[0] != '\0']). *)
Definition nonempty (s : option bytes) : option bytes :=
  match s with Some [] => None | _ => s end.

(** [clip_into], [clip_into_n]: at most [dst_cap - 1] bytes. *)
Definition clip_into (dst_cap : Z) (src : bytes) : bytes := take (Z.to_nat (dst_cap - 1)) src.

Lemma length_clip_into cap src : 1 <= cap -> Z.of_nat (length (clip_into cap src)) < cap.
Proof. intros H. unfold clip_into. rewrite length_take. lia. Qed.
