(* ===== verification/NvdIngest.v ===== *)
(** * Ingesting one NVD page ([src/src/db/nvd_ingest.c])

    Reading CVE records and CPE match rows out of a page, the two upserts,
    and the transaction that writes a page together with the sync state.
    Counters are [size_t]s bounded by the size of the page. *)

From S2P Require Import Prelude CveId VersionCompare CpeMatch Json Sqlite ScanPersist.

Definition NVD_PAGE_MAX_BYTES : Z := 64 * 1024 * 1024.
Definition NVD_MAX_CVES_PER_PAGE : Z := 20000.
Definition NVD_MAX_CPE_PER_CVE : Z := 4096.
Definition NVD_MAX_DESCRIPTIONS : Z := 256.
Definition NVD_CVE_ID_MAX_LEN : Z := 64.
Definition NVD_TS_MAX_LEN : Z := 48.
Definition NVD_DESC_BUF_LEN : Z := 4096 + 1.
Definition NVD_VECTOR_BUF_LEN : Z := 256 + 1.
Definition NVD_SEVERITY_BUF_LEN : Z := 16.
Definition NVD_CPE_URI_BUF_LEN : Z := 1024 + 1.
Definition NVD_VENDOR_PRODUCT_BUF_LEN : Z := 256 + 1.
Definition NVD_VERSION_BUF_LEN : Z := 128 + 1.

(** [cytadel_nvd_ingest_status_t] *)
Inductive ingest_status := INGEST_OK | INGEST_ERR_INVALID_ARG | INGEST_ERR_PARSE | INGEST_ERR_DB.

#[export] Instance ingest_status_eq_dec : EqDecision ingest_status.
Proof. solve_decision. Defined.

Definition ingest_status_to_string (s : ingest_status) : bytes :=
  match s with
  | INGEST_OK => bs "OK"
  | INGEST_ERR_INVALID_ARG => bs "INVALID_ARG"
  | INGEST_ERR_PARSE => bs "PARSE"
  | INGEST_ERR_DB => bs "DB"
  end.

(** [cytadel_nvd_ingest_counts_t] *)
Record ingest_counts := IngestCounts {
  cve_ingested : Z;
  cve_skipped : Z;
  cpe_ingested : Z;
  cpe_skipped : Z
}.

Definition counts0 : ingest_counts := IngestCounts 0 0 0 0.

Definition add_cve_ingested (n : ingest_counts) : ingest_counts :=
  IngestCounts (cve_ingested n + 1) (cve_skipped n) (cpe_ingested n) (cpe_skipped n).
Definition add_cve_skipped (k : Z) (n : ingest_counts) : ingest_counts :=
  IngestCounts (cve_ingested n) (cve_skipped n + k) (cpe_ingested n) (cpe_skipped n).
Definition add_cpe_ingested (n : ingest_counts) : ingest_counts :=
  IngestCounts (cve_ingested n) (cve_skipped n) (cpe_ingested n + 1) (cpe_skipped n).
Definition add_cpe_skipped (n : ingest_counts) : ingest_counts :=
  IngestCounts (cve_ingested n) (cve_skipped n) (cpe_ingested n) (cpe_skipped n + 1).

(** ** Fields of a CVE record *)

Definition clip_lower_into (dst_cap : Z) (src : bytes) : bytes :=
  map to_lower_ascii (clip_into dst_cap src).

(** The buffer always holds the clipped text, a [Z] and the NUL. *)
Definition normalize_nvd_timestamp (raw : bytes) : option bytes :=
  let raw := take (Z.to_nat NVD_TS_MAX_LEN) raw in
  match last raw with
  | None => None
  | Some z => Some (if (z =? 90) || (z =? 122) then raw else raw ++ [90])
  end.

(** The scan of the descriptions; [first_value] is the first valid one. *)
Fixpoint description_loop (items : list json) (first_value : option bytes) : option bytes :=
  match items with
  | [] => first_value
  | item :: items =>
      match json_get_string (Some item) "value" with
      | None => description_loop items first_value
      | Some value =>
          let first_value := match first_value with None => Some value | v => v end in
          match json_get_string (Some item) "lang" with
          | Some lang =>
              if bool_decide (lang = bs "en") then Some value else description_loop items first_value
          | None => description_loop items first_value
          end
      end
  end.

Definition extract_description (cve : option json) : bytes :=
  match json_array (json_item cve "descriptions") with
  | None => []
  | Some items =>
      match description_loop (take (Z.to_nat NVD_MAX_DESCRIPTIONS) items) None with
      | Some value => clip_into NVD_DESC_BUF_LEN value
      | None => []
      end
  end.

(** [cytadel_nvd_cvss_t]: a field is [None] when its [has_] flag is off. *)
Record cvss := Cvss {
  cvss_vector : option bytes;
  cvss_base_score : option double;
  cvss_severity : option bytes
}.

(** [None]: nothing usable found. *)
Definition extract_first_cvss (metrics : option json) (metric_key : string) : option cvss :=
  match json_array (json_item metrics metric_key) with
  | Some (first :: _) =>
      let cvss_data := json_item (Some first) "cvssData" in
      let vector := clip_into NVD_VECTOR_BUF_LEN <$> nonempty (json_get_string cvss_data "vectorString") in
      let score :=
        match json_get_number cvss_data "baseScore" with
        | Some s => if double_ge s 0 && double_le s 10 then Some s else None
        | None => None
        end in
      let severity :=
        clip_into NVD_SEVERITY_BUF_LEN <$> nonempty (json_get_string cvss_data "baseSeverity") in
      match vector, score, severity with
      | None, None, None => None
      | _, _, _ => Some (Cvss vector score severity)
      end
  | _ => None
  end.

Definition is_valid_v3_severity (s : bytes) : bool :=
  existsb (fun a => bool_decide (s = bs a)) ["NONE"; "LOW"; "MEDIUM"; "HIGH"; "CRITICAL"]%string.

Definition is_valid_v2_severity (s : bytes) : bool :=
  existsb (fun a => bool_decide (s = bs a)) ["LOW"; "MEDIUM"; "HIGH"]%string.

Definition severity_from_v3_score (score : double) : Z :=
  if double_le score 0 then 0
  else if double_lt score 4 then 1
  else if double_lt score 7 then 2
  else if double_lt score 9 then 3
  else 4.

Definition severity_from_v2_score (score : double) : Z :=
  if double_le score 0 then 0
  else if double_lt score 4 then 1
  else if double_lt score 7 then 2
  else 3.

Definition keep_if (f : bytes -> bool) (s : option bytes) : option bytes :=
  match s with Some v => if f v then Some v else None | None => None end.

(** ** CPE match rows *)

(** Byte [i] of [s] is the head of [rest]. *)
Fixpoint cpe23_scan (rest : bytes) (i current start field_index : nat) : option (nat * nat) :=
  match rest with
  | [] => if Nat.eqb current field_index then Some (start, i - start)%nat else None
  | ch :: rest =>
      if ch =? 58 then
        if Nat.eqb current field_index then Some (start, i - start)%nat
        else cpe23_scan rest (S i) (S current) (S i) field_index
      else cpe23_scan rest (S i) current start field_index
  end.

(** The bytes of the span [cpe23_field] finds. *)
Definition cpe23_field (s : bytes) (field_index : nat) : option bytes :=
  match cpe23_scan s 0 0 0 field_index with
  | Some (start, len) => Some (take len (drop start s))
  | None => None
  end.

(** A bound, or [""] when the member is absent or not a string. *)
Definition version_bound (m : json) (key : string) : bytes :=
  match json_get_string (Some m) key with Some s => clip_into NVD_VERSION_BUF_LEN s | None => [] end.

(** The validation part of [process_one_cpe_match]: the row to bind, or
    [None] when the entry is skipped. *)
Definition read_cpe_match (cve_id : bytes) (m : json) : option cpe_row :=
  match nonempty (json_get_string (Some m) "criteria") with
  | None => None
  | Some criteria =>
      let cpe_buf := clip_into NVD_CPE_URI_BUF_LEN criteria in
      match cpe23_field cpe_buf 2, cpe23_field cpe_buf 3, cpe23_field cpe_buf 4, cpe23_field cpe_buf 5 with
      | Some part, Some vendor, Some product, Some version =>
          if negb (bool_decide (part = bs "a") || bool_decide (part = bs "o") || bool_decide (part = bs "h"))
          then None
          else if bool_decide (vendor = []) || bool_decide (product = []) then None
          else
            let version := clip_into NVD_VERSION_BUF_LEN version in
            let vsi := version_bound m "versionStartIncluding" in
            let vse := version_bound m "versionStartExcluding" in
            let vei := version_bound m "versionEndIncluding" in
            let vee := version_bound m "versionEndExcluding" in
            if bool_decide (version = bs "*") && bool_decide (vsi = [] /\ vse = [] /\ vei = [] /\ vee = [])
            then None
            else
              let vulnerable := default true (json_get_bool (Some m) "vulnerable") in
              Some (CpeRow (Some cve_id) cpe_buf part
                     (clip_lower_into NVD_VENDOR_PRODUCT_BUF_LEN vendor)
                     (clip_lower_into NVD_VENDOR_PRODUCT_BUF_LEN product)
                     (Some version) (Some vsi) (Some vse) (Some vei) (Some vee)
                     (if vulnerable then 1 else 0))
      | _, _, _, _ => None
      end
  end.

(** The reading part of [process_one_cve]: the id and the columns to bind,
    or [None] when the record is skipped. *)
Definition read_cve (cve : option json) : option (bytes * cve_row) :=
  match nonempty (json_get_string cve "id") with
  | None => None
  | Some id =>
      if (NVD_CVE_ID_MAX_LEN <? Z.of_nat (length id)) || negb (is_valid_cve_id id) then None else
      let cve_id := clip_into (NVD_CVE_ID_MAX_LEN + 1) id in
      match json_get_string cve "published" ≫= normalize_nvd_timestamp with
      | None => None
      | Some published =>
          match json_get_string cve "lastModified" ≫= normalize_nvd_timestamp with
          | None => None
          | Some last_modified =>
              let metrics := json_item cve "metrics" in
              let v3 := match extract_first_cvss metrics "cvssMetricV31" with
                        | Some v => Some v
                        | None => extract_first_cvss metrics "cvssMetricV30"
                        end in
              let v2 := extract_first_cvss metrics "cvssMetricV2" in
              let severity :=
                match v3 ≫= cvss_base_score, v2 ≫= cvss_base_score with
                | Some s, _ => severity_from_v3_score s
                | None, Some s => severity_from_v2_score s
                | None, None => 0
                end in
              Some (cve_id,
                CveRow published last_modified (extract_description cve)
                  (v3 ≫= cvss_vector) (v3 ≫= cvss_base_score)
                  (keep_if is_valid_v3_severity (v3 ≫= cvss_severity))
                  (v2 ≫= cvss_vector) (v2 ≫= cvss_base_score)
                  (keep_if is_valid_v2_severity (v2 ≫= cvss_severity))
                  severity (bs "nvd"))
          end
      end
  end.

(** The [cpeMatch] arrays of a record, in the order they are walked. *)
Definition config_nodes (config : json) : list json :=
  match json_array (json_item (Some config) "nodes") with Some nodes => filter is_object nodes | None => [] end.

Definition cve_nodes (cve : option json) : list json :=
  match json_array (json_item cve "configurations") with
  | Some configs => flat_map config_nodes configs
  | None => []
  end.

(** ** The statements *)

Definition set_cves (f : gmap bytes cve_row -> gmap bytes cve_row) (d : database) : database :=
  Database (f (db_cves d)) (db_cpe d) (db_kev d) (db_epss d) (db_scans d) (db_results d) (db_sync d) (db_schema d).

(** The columns the upsert writes over a row published at [published]. *)
Definition upserted (published : bytes) (r : cve_row) : cve_row :=
  CveRow published (cve_last_modified r) (cve_description r)
    (cve_cvss_v3_vector r) (cve_cvss_v3_base_score r) (cve_cvss_v3_severity r)
    (cve_cvss_v2_vector r) (cve_cvss_v2_base_score r) (cve_cvss_v2_severity r)
    (cve_severity r) (bs "nvd").

(** [CYTADEL_NVD_CVE_UPSERT_SQL]: on a conflict every column but
    [published] is replaced. *)
Definition upsert_step (old : option cve_row) (r : cve_row) : option cve_row :=
  Some (upserted (match old with None => cve_published r | Some old => cve_published old end) r).

Definition cve_upsert (id : bytes) (r : cve_row) : database -> database :=
  set_cves (partial_alter (fun old => upsert_step old r) id).

(** The UNIQUE key of [cve_cpe_matches]. *)
Definition cpe_key (r : cpe_row) :=
  (cpe_cve_id r, cpe_uri r, cpe_start_including r, cpe_start_excluding r,
   cpe_end_including r, cpe_end_excluding r, cpe_vulnerable r).

(** [CYTADEL_NVD_CPE_UPSERT_SQL]: DO NOTHING on a conflict. *)
Definition cpe_upsert (r : cpe_row) (d : database) : database :=
  if bool_decide (cpe_key r ∈ map cpe_key (db_cpe d)) then d
  else Database (db_cves d) (db_cpe d ++ [r]) (db_kev d) (db_epss d) (db_scans d) (db_results d) (db_sync d) (db_schema d).

Definition update_sync (feed : bytes) (f : sync_row -> sync_row) (d : database) : database :=
  Database (db_cves d) (db_cpe d) (db_kev d) (db_epss d) (db_scans d) (db_results d)
    (alter f feed (db_sync d)) (db_schema d).

(** [CYTADEL_NVD_SYNC_STATE_COMPLETE_SQL] *)
Definition sync_complete (lastmod_end_date : bytes) (n : Z) : database -> database :=
  update_sync (bs "nvd") (fun s =>
    SyncRow (Some lastmod_end_date) (sync_total_records s + n) (bs "success") None).

(** [CYTADEL_NVD_SYNC_STATE_PARTIAL_SQL] *)
Definition sync_partial (n : Z) : database -> database :=
  update_sync (bs "nvd") (fun s =>
    SyncRow (sync_watermark s) (sync_total_records s + n) (bs "running") None).

Section Ingest.
Context {C : Type} `{Sqlite C}.
Variable json_parse : bytes -> option json.

(** A result is the counters, the [fatal_db_error] flag and the connection. *)
Definition process_one_cpe_match (cve_id : bytes) (m : json) (n : ingest_counts) (c : C) :
    ingest_counts * bool * C :=
  match read_cpe_match cve_id m with
  | None => (add_cpe_skipped n, false, c)
  | Some row =>
      let '(rc, c) := sql_write (cpe_upsert row) c in
      match rc with
      | SQLITE_DONE => (add_cpe_ingested n, false, c)
      | SQLITE_CONSTRAINT | SQLITE_BIND_FAILURE => (add_cpe_skipped n, false, c)
      | SQLITE_FAILURE => (n, true, c)
      end
  end.

(** The loop of [process_cpe_node]; returns the remaining budget as well. *)
Fixpoint cpe_loop (cve_id : bytes) (matches : list json) (budget : Z) (n : ingest_counts) (c : C) :
    Z * ingest_counts * bool * C :=
  match matches with
  | [] => (budget, n, false, c)
  | m :: matches =>
      if budget =? 0 then cpe_loop cve_id matches budget (add_cpe_skipped n) c
      else if negb (is_object m) then cpe_loop cve_id matches (budget - 1) (add_cpe_skipped n) c
      else
        let '(n, fatal, c) := process_one_cpe_match cve_id m n c in
        if fatal then (budget - 1, n, true, c) else cpe_loop cve_id matches (budget - 1) n c
  end.

Definition process_cpe_node (cve_id : bytes) (node : json) (budget : Z) (n : ingest_counts) (c : C) :
    Z * ingest_counts * bool * C :=
  match json_array (json_item (Some node) "cpeMatch") with
  | None => (budget, n, false, c)
  | Some matches => cpe_loop cve_id matches budget n c
  end.

Fixpoint node_loop (cve_id : bytes) (nodes : list json) (budget : Z) (n : ingest_counts) (c : C) :
    ingest_counts * bool * C :=
  match nodes with
  | [] => (n, false, c)
  | node :: nodes =>
      let '(budget, n, fatal, c) := process_cpe_node cve_id node budget n c in
      if fatal then (n, true, c) else node_loop cve_id nodes budget n c
  end.

Definition process_one_cve (elem : json) (n : ingest_counts) (c : C) : ingest_counts * bool * C :=
  let cve := json_item (Some elem) "cve" in
  match read_cve cve with
  | None => (add_cve_skipped 1 n, false, c)
  | Some (cve_id, row) =>
      let '(rc, c) := sql_write (cve_upsert cve_id row) c in
      match rc with
      | SQLITE_CONSTRAINT | SQLITE_BIND_FAILURE => (add_cve_skipped 1 n, false, c)
      | SQLITE_FAILURE => (n, true, c)
      | SQLITE_DONE => node_loop cve_id (cve_nodes cve) NVD_MAX_CPE_PER_CVE (add_cve_ingested n) c
      end
  end.

Fixpoint cve_loop (elems : list json) (n : ingest_counts) (c : C) : ingest_counts * bool * C :=
  match elems with
  | [] => (n, false, c)
  | elem :: elems =>
      let '(n, fatal, c) := process_one_cve elem n c in
      if fatal then (n, true, c) else cve_loop elems n c
  end.

(** The three statements are prepared before the first row. *)
Definition prepare_statements (c : C) : bool * C :=
  let '(ok, c) := sql_prepare c in
  if negb ok then (false, c) else
  let '(ok, c) := sql_prepare c in
  if negb ok then (false, c) else sql_prepare c.

Definition sync_update (window_complete : bool) (lastmod_end_date : bytes) (n : ingest_counts) :
    database -> database :=
  let records_seen := cve_ingested n + cve_skipped n in
  if window_complete then sync_complete lastmod_end_date records_seen else sync_partial records_seen.

(** The work between BEGIN and COMMIT; [false]: roll back. *)
Definition ingest_body (vulnerabilities : list json) (window_complete : bool) (lastmod_end_date : bytes)
    (c : C) : bool * ingest_counts * C :=
  let '(ok, c) := prepare_statements c in
  if negb ok then (false, counts0, c) else
  let '(n, fatal, c) := cve_loop (take (Z.to_nat NVD_MAX_CVES_PER_PAGE) vulnerabilities) counts0 c in
  if fatal then (false, n, c) else
  let n := add_cve_skipped
             (Z.of_nat (length (drop (Z.to_nat NVD_MAX_CVES_PER_PAGE) vulnerabilities))) n in
  let '(rc, c) := sql_write (sync_update window_complete lastmod_end_date n) c in
  (bool_decide (rc = SQLITE_DONE), n, c).

(** [cytadel_nvd_ingest_page]; [db] and [out_counts] are given. *)
Definition ingest_page (json_bytes lastmod_end_date : option bytes) (window_complete : bool) (c : C) :
    ingest_status * ingest_counts * C :=
  match json_bytes, nonempty lastmod_end_date with
  | Some json_bytes, Some lastmod_end_date =>
      if NVD_PAGE_MAX_BYTES <? Z.of_nat (length json_bytes) then (INGEST_ERR_PARSE, counts0, c) else
      match json_parse json_bytes with
      | None => (INGEST_ERR_PARSE, counts0, c)
      | Some root =>
          if negb (is_object root) then (INGEST_ERR_PARSE, counts0, c) else
          match json_array (json_item (Some root) "vulnerabilities") with
          | None => (INGEST_ERR_PARSE, counts0, c)
          | Some vulnerabilities =>
              let '(ok, n, c) := transaction counts0 (ingest_body vulnerabilities window_complete lastmod_end_date) c in
              (if ok then INGEST_OK else INGEST_ERR_DB, n, c)
          end
      end
  | _, _ => (INGEST_ERR_INVALID_ARG, counts0, c)
  end.
End Ingest.

(** ** What a page writes *)

(** One accepted record: its id, its columns and its CPE rows. *)
Record entry := Entry { entry_id : bytes; entry_row : cve_row; entry_cpes : list cpe_row }.

Definition node_matches (node : json) : list json :=
  default [] (json_array (json_item (Some node) "cpeMatch")).

Definition read_cpe_rows (cve_id : bytes) (matches : list json) : list cpe_row :=
  omap (read_cpe_match cve_id) (filter is_object matches).

(** The well-formed part of a record: its first [NVD_MAX_CPE_PER_CVE]
    [cpeMatch] entries are looked at. *)
Definition read_entry (elem : json) : option entry :=
  let cve := json_item (Some elem) "cve" in
  match read_cve cve with
  | None => None
  | Some (id, row) =>
      Some (Entry id row (read_cpe_rows id
        (take (Z.to_nat NVD_MAX_CPE_PER_CVE) (flat_map node_matches (cve_nodes cve)))))
  end.

Definition page_entries (vulnerabilities : list json) : list entry :=
  omap read_entry (take (Z.to_nat NVD_MAX_CVES_PER_PAGE) vulnerabilities).

(** Every row is offered to the database, one statement after the other on the
    same connection, and stored unless the database turns that statement
    down. *)
Section Offered.
Context {C : Type} `{Sqlite C}.

Inductive rows_offered : list cpe_row -> list cpe_row -> C -> C -> Prop :=
  | rows_end c : rows_offered [] [] c c
  | rows_stored r rs ws c c1 c' :
      sql_write (cpe_upsert r) c = (SQLITE_DONE, c1) ->
      rows_offered rs ws c1 c' -> rows_offered (r :: rs) (r :: ws) c c'
  | rows_refused r rs ws c c1 c' :
      turned_down (cpe_upsert r) c c1 ->
      rows_offered rs ws c1 c' -> rows_offered (r :: rs) ws c c'.

(** The records of a page, each with its rows once it is stored. *)
Inductive entries_offered : list entry -> list entry -> C -> C -> Prop :=
  | entries_end c : entries_offered [] [] c c
  | entries_stored id row rows rows' es ws c c1 c2 c' :
      sql_write (cve_upsert id row) c = (SQLITE_DONE, c1) ->
      rows_offered rows rows' c1 c2 -> entries_offered es ws c2 c' ->
      entries_offered (Entry id row rows :: es) (Entry id row rows' :: ws) c c'
  | entries_refused e es ws c c1 c' :
      turned_down (cve_upsert (entry_id e) (entry_row e)) c c1 ->
      entries_offered es ws c1 c' -> entries_offered (e :: es) ws c c'.
End Offered.

(** What may be left of the records of a page. *)
Inductive accepts : list entry -> list entry -> Prop :=
  | accepts_nil : accepts [] []
  | accepts_skip e es ws : accepts es ws -> accepts (e :: es) ws
  | accepts_keep id row rows rows' es ws :
      sublist rows' rows -> accepts es ws ->
      accepts (Entry id row rows :: es) (Entry id row rows' :: ws).

Definition apply_rows (d : database) (rows : list cpe_row) : database :=
  foldl (fun d r => cpe_upsert r d) d rows.

Definition apply_entry (d : database) (e : entry) : database :=
  apply_rows (cve_upsert (entry_id e) (entry_row e) d) (entry_cpes e).

Definition apply_entries (d : database) (es : list entry) : database := foldl apply_entry d es.

(** The counters of a page with [total] records. *)
Definition entries_counts (total : Z) (ws : list entry) (n : ingest_counts) : Prop :=
  cve_ingested n = Z.of_nat (length ws) /\
  cve_skipped n = total - Z.of_nat (length ws) /\
  cpe_ingested n = Z.of_nat (length (flat_map entry_cpes ws)).

(** The watermark of the NVD feed. *)
Definition nvd_watermark (d : database) : option bytes :=
  db_sync d !! bs "nvd" ≫= sync_watermark.

(** ** The invariant of the NVD tables *)

Definition score_ok (s : option double) : Prop :=
  forall d, s = Some d -> double_ge d 0 = true /\ double_le d 10 = true.

Definition cve_row_ok (id : bytes) (r : cve_row) : Prop :=
  is_valid_cve_id id = true /\ Z.of_nat (length id) <= NVD_CVE_ID_MAX_LEN /\
  0 <= cve_severity r <= 4 /\
  score_ok (cve_cvss_v3_base_score r) /\ score_ok (cve_cvss_v2_base_score r) /\
  Z.of_nat (length (cve_description r)) < NVD_DESC_BUF_LEN.

Definition lowercase (s : bytes) : Prop := map to_lower_ascii s = s.

(** The text columns of a CPE row, none of them NULL. *)
Definition cpe_bounds (r : cpe_row) : option (bytes * bytes * bytes * bytes) :=
  match cpe_start_including r, cpe_start_excluding r, cpe_end_including r, cpe_end_excluding r with
  | Some a, Some b, Some c, Some d => Some (a, b, c, d)
  | _, _, _, _ => None
  end.

Definition cpe_row_ok (r : cpe_row) : Prop :=
  exists id version bounds,
    cpe_cve_id r = Some id /\ cpe_version r = Some version /\ cpe_bounds r = Some bounds /\
    cpe_part r ∈ [bs "a"; bs "o"; bs "h"] /\
    cpe_vendor r <> [] /\ lowercase (cpe_vendor r) /\
    Z.of_nat (length (cpe_vendor r)) < NVD_VENDOR_PRODUCT_BUF_LEN /\
    cpe_product r <> [] /\ lowercase (cpe_product r) /\
    Z.of_nat (length (cpe_product r)) < NVD_VENDOR_PRODUCT_BUF_LEN /\
    ~ (version = bs "*" /\ bounds = ([], [], [], [])) /\
    (cpe_vulnerable r = 0 \/ cpe_vulnerable r = 1).

(** Every row well formed, every CPE row with its CVE, the UNIQUE key held. *)
Definition nvd_ok (d : database) : Prop :=
  (forall id r, db_cves d !! id = Some r -> cve_row_ok id r) /\
  Forall cpe_row_ok (db_cpe d) /\
  Forall (fun r => forall id, cpe_cve_id r = Some id -> is_Some (db_cves d !! id)) (db_cpe d) /\
  NoDup (map cpe_key (db_cpe d)).

Definition entry_ok (e : entry) : Prop :=
  cve_row_ok (entry_id e) (entry_row e) /\
  Forall (fun r => cpe_row_ok r /\ cpe_cve_id r = Some (entry_id e)) (entry_cpes e).

(** What reading a page guarantees of its entries. *)

Lemma to_lower_idempotent c : to_lower_ascii (to_lower_ascii c) = to_lower_ascii c.
Proof. unfold to_lower_ascii. repeat case_match; zbool. Qed.

Lemma clip_lower_lowercase cap s : lowercase (clip_lower_into cap s).
Proof.
  unfold lowercase, clip_lower_into. rewrite map_map. apply map_ext. apply to_lower_idempotent.
Qed.

Lemma clip_lower_length cap s : 1 <= cap -> Z.of_nat (length (clip_lower_into cap s)) < cap.
Proof. intros H. unfold clip_lower_into. rewrite length_map. by apply length_clip_into. Qed.

Lemma clip_lower_nonempty cap s : 2 <= cap -> s <> [] -> clip_lower_into cap s <> [].
Proof.
  intros Hc Hs. unfold clip_lower_into, clip_into. destruct s as [|x s]; [done|].
  replace (Z.to_nat (cap - 1)) with (S (Z.to_nat (cap - 2))) by lia. done.
Qed.

Lemma read_cpe_match_ok id m row :
  read_cpe_match id m = Some row -> cpe_row_ok row /\ cpe_cve_id row = Some id.
Proof.
  unfold read_cpe_match. destruct (nonempty _) as [criteria|]; [|done].
  destruct (cpe23_field _ 2) as [part|]; [|done].
  destruct (cpe23_field _ 3) as [vendor|]; [|done].
  destruct (cpe23_field _ 4) as [product|]; [|done].
  destruct (cpe23_field _ 5) as [version|]; [|done].
  destruct (negb _) eqn:Hp; [done|].
  destruct (bool_decide (vendor = []) || bool_decide (product = [])) eqn:Hvp; [done|].
  destruct (_ && _) eqn:Hw; [done|]. intros [= <-]. split; [|done].
  apply orb_false_elim in Hvp as [Hv%bool_decide_eq_false Hpr%bool_decide_eq_false].
  eexists _, _, _. unfold cpe_bounds. simpl. do 3 (split; [done|]). split_and!.
  - apply negb_false_iff in Hp. rewrite !orb_true_iff, !bool_decide_eq_true in Hp. set_solver.
  - by apply clip_lower_nonempty.
  - apply clip_lower_lowercase.
  - by apply clip_lower_length.
  - by apply clip_lower_nonempty.
  - apply clip_lower_lowercase.
  - by apply clip_lower_length.
  - intros [Hver Hb]. injection Hb as H1 H2 H3 H4.
    apply andb_false_iff in Hw as [Hw%bool_decide_eq_false|Hw%bool_decide_eq_false]; [done|].
    by apply Hw.
  - destruct (default _ _); auto.
Qed.

Lemma cvss_score_ok metrics key v :
  extract_first_cvss metrics key = Some v -> score_ok (cvss_base_score v).
Proof.
  unfold extract_first_cvss. destruct (json_array _) as [[|first items]|]; [done| |done].
  set (score := match json_get_number _ _ with Some _ => _ | None => _ end).
  assert (score_ok score) as Hs.
  { subst score. destruct (json_get_number _ _) as [s|]; [|done].
    destruct (_ && _) eqn:E; [|done]. apply andb_prop in E. by intros d [= <-]. }
  intros E. assert (cvss_base_score v = score) as ->; [|done].
  repeat case_match; by simplify_eq.
Qed.

Lemma severity_range score : 0 <= severity_from_v3_score score <= 4 /\ 0 <= severity_from_v2_score score <= 4.
Proof. unfold severity_from_v3_score, severity_from_v2_score. split; repeat case_match; lia. Qed.

Lemma extract_description_length cve : Z.of_nat (length (extract_description cve)) < NVD_DESC_BUF_LEN.
Proof.
  unfold extract_description. destruct (json_array _); [|done].
  destruct (description_loop _ _); [|done]. by apply length_clip_into.
Qed.

Lemma read_cve_ok cve id row : read_cve cve = Some (id, row) -> cve_row_ok id row.
Proof.
  unfold read_cve. destruct (nonempty _) as [raw|]; [|done].
  destruct (NVD_CVE_ID_MAX_LEN <? _) eqn:Hl; [done|].
  destruct (is_valid_cve_id raw) eqn:Hv; [|done]. cbn [negb orb].
  assert (clip_into (NVD_CVE_ID_MAX_LEN + 1) raw = raw) as ->.
  { unfold clip_into. apply take_ge. breflect. unfold NVD_CVE_ID_MAX_LEN in *. lia. }
  destruct (json_get_string cve "published" ≫= _) as [pub|]; [|done].
  destruct (json_get_string cve "lastModified" ≫= _) as [mod_|]; [|done].
  set (v3 := match extract_first_cvss _ "cvssMetricV31" with Some _ => _ | None => _ end).
  set (v2 := extract_first_cvss _ "cvssMetricV2").
  assert (score_ok (v3 ≫= cvss_base_score)) as H3.
  { subst v3. destruct (extract_first_cvss _ "cvssMetricV31") eqn:E1; simpl.
    - by eapply cvss_score_ok.
    - destruct (extract_first_cvss _ "cvssMetricV30") eqn:E2; [|done]. by eapply cvss_score_ok. }
  assert (score_ok (v2 ≫= cvss_base_score)) as H2.
  { subst v2. destruct (extract_first_cvss _ "cvssMetricV2") eqn:E2; [|done]. by eapply cvss_score_ok. }
  intros [= <- <-]. split; [done|]. split; [zbool|]. simpl. split; [|split; [done|]].
  - destruct (v3 ≫= _); [apply severity_range|].
    destruct (v2 ≫= _); [apply severity_range|lia].
  - split; [done|]. apply extract_description_length.
Qed.

Lemma read_cpe_rows_ok id ms :
  Forall (fun r => cpe_row_ok r /\ cpe_cve_id r = Some id) (read_cpe_rows id ms).
Proof.
  apply Forall_forall. intros r (m & _ & Hm)%list_elem_of_omap. by apply (read_cpe_match_ok _ m).
Qed.

Lemma page_entries_ok vs : Forall entry_ok (page_entries vs).
Proof.
  apply Forall_forall. intros e (elem & _ & He)%list_elem_of_omap. unfold read_entry in He.
  destruct (read_cve _) as [[id row]|] eqn:Er; [|done]. injection He as <-.
  split; [by eapply read_cve_ok|apply read_cpe_rows_ok].
Qed.

Lemma accepts_ok es ws : accepts es ws -> Forall entry_ok es -> Forall entry_ok ws.
Proof.
  induction 1 as [|e es ws _ IH|id row rows rows' es ws Hs _ IH]; [done|..]; rewrite !Forall_cons.
  - intros [_ H]. auto.
  - intros [[Hr Hrows] H]. split; [|auto]. split; [done|]. simpl in *.
    rewrite Forall_forall in *. intros r Hin. apply Hrows. by eapply elem_of_sublist.
Qed.

(** The statements keep it. *)

Lemma nvd_ok_cve_upsert id r d : cve_row_ok id r -> nvd_ok d -> nvd_ok (cve_upsert id r d).
Proof.
  intros Hr (Hc & Hp & Hf & Hk). unfold nvd_ok, cve_upsert, set_cves. simpl. split_and!; [|done| |done].
  - intros id' r'. destruct (decide (id = id')) as [<-|Hne].
    + rewrite lookup_partial_alter_eq. by intros [= <-].
    + rewrite lookup_partial_alter_ne by done. apply Hc.
  - eapply Forall_impl; [exact Hf|]. intros r' H id' Hid. destruct (decide (id = id')) as [<-|Hne].
    + rewrite lookup_partial_alter_eq. by eexists.
    + rewrite lookup_partial_alter_ne by done. by apply H.
Qed.

Lemma nvd_ok_cpe_upsert id r d :
  cpe_row_ok r -> cpe_cve_id r = Some id -> is_Some (db_cves d !! id) -> nvd_ok d -> nvd_ok (cpe_upsert r d).
Proof.
  intros Hr Hid Hs (Hc & Hp & Hf & Hk). unfold cpe_upsert. case_bool_decide as Hin; [done|].
  unfold nvd_ok. simpl. split_and!; [done|..].
  - apply Forall_app. by repeat constructor.
  - apply Forall_app. repeat constructor; [done|]. rewrite Hid. by intros ? [= <-].
  - rewrite map_app. apply NoDup_app. split; [done|]. split; [|apply NoDup_singleton].
    intros k Hk1 Hk2%list_elem_of_singleton. by subst.
Qed.

Lemma db_cves_apply_rows d rows : db_cves (apply_rows d rows) = db_cves d.
Proof.
  revert d; induction rows as [|r rows IH]; intros d; simpl; [done|].
  unfold apply_rows in IH. rewrite IH. unfold cpe_upsert. by case_bool_decide.
Qed.

Lemma nvd_ok_apply_entries ws d : Forall entry_ok ws -> nvd_ok d -> nvd_ok (apply_entries d ws).
Proof.
  intros Hws. revert d; induction Hws as [|e ws [Hr Hrows] _ IH]; intros d Hd; [done|].
  apply IH. unfold apply_entry. assert (nvd_ok (cve_upsert (entry_id e) (entry_row e) d)) as Hd1
    by by apply nvd_ok_cve_upsert.
  assert (is_Some (db_cves (cve_upsert (entry_id e) (entry_row e) d) !! entry_id e)) as Hs.
  { simpl. rewrite lookup_partial_alter_eq. by eexists. }
  revert Hd1 Hs. generalize (cve_upsert (entry_id e) (entry_row e) d). clear Hd d.
  induction Hrows as [|r rows [Hrok Hrid] _ IHr]; intros d Hd Hs; [done|]. simpl.
  apply IHr; [by eapply nvd_ok_cpe_upsert|].
  unfold cpe_upsert. by case_bool_decide.
Qed.

Lemma nvd_ok_sync complete e n d : nvd_ok d -> nvd_ok (sync_update complete e n d).
Proof. unfold sync_update. by destruct complete. Qed.

(** ** Fields of a CPE name *)

Lemma cpe23_scan_spec rest pre cur current idx :
  (current <= idx)%nat ->
  match cpe23_scan rest (length pre + length cur) current (length pre) idx with
  | Some (start, len) => Some (take len (drop start (pre ++ cur ++ rest)))
  | None => None
  end =
  match split_on 58 rest with f :: fs => ((cur ++ f) :: fs) !! (idx - current)%nat | [] => None end.
Proof.
  assert (Htd : forall post, take (length pre + length cur - length pre) (drop (length pre) (pre ++ cur ++ post)) = cur).
  { intros post. rewrite drop_app_length.
    replace (length pre + length cur - length pre)%nat with (length cur) by lia. apply take_app_length. }
  revert pre cur current Htd; induction rest as [|ch rest IH]; intros pre cur current Htd Hle; simpl.
  - destruct (Nat.eqb_spec current idx) as [->|Hne].
    + rewrite Nat.sub_diag, Htd, app_nil_r. done.
    + destruct (idx - current)%nat eqn:E; [lia|]. done.
  - destruct (Z.eqb_spec ch 58) as [->|Hch].
    + destruct (Nat.eqb_spec current idx) as [->|Hne].
      * rewrite Nat.sub_diag, Htd, app_nil_r. done.
      * specialize (IH (pre ++ cur ++ [58]) [] (S current)).
        rewrite !length_app in IH. cbn [length] in IH.
        replace (S (length pre + length cur)) with (length pre + (length cur + 1))%nat by lia.
        rewrite Nat.add_0_r in IH. replace ((pre ++ cur ++ [58]) ++ [] ++ rest) with (pre ++ cur ++ 58 :: rest) in IH
          by (rewrite <- !app_assoc; done).
        rewrite IH; [|intros post; rewrite app_nil_l, Nat.sub_diag; done|lia].
        replace (idx - current)%nat with (S (idx - S current))%nat by lia. simpl.
        by destruct (split_on_cons 58 rest) as (f & fs & ->).
    + specialize (IH pre (cur ++ [ch]) current).
      rewrite !length_app in IH. cbn [length] in IH.
      replace (S (length pre + length cur)) with (length pre + (length cur + 1))%nat by lia.
      replace (pre ++ cur ++ ch :: rest) with (pre ++ (cur ++ [ch]) ++ rest) by (by rewrite <- app_assoc).
      rewrite IH; [|intros post|lia].
      * destruct (split_on_cons 58 rest) as (f & fs & ->). rewrite <- app_assoc. done.
      * rewrite drop_app_length.
        replace (length pre + (length cur + 1) - length pre)%nat with (length (cur ++ [ch]))
          by (rewrite length_app; simpl; lia).
        apply take_app_length.
Qed.

(** The field scanner is splitting at the colons: it finds field [k]
    exactly when the string has more than [k] colon-separated fields, and then
    returns that field. *)
Theorem cpe23_field_splits s k : cpe23_field s k = split_on 58 s !! k.
Proof.
  unfold cpe23_field. pose proof (cpe23_scan_spec s [] [] 0 k ltac:(lia)) as E. simpl in E.
  rewrite E, Nat.sub_0_r. by destruct (split_on_cons 58 s) as (f & fs & ->).
Qed.

(** ** Writing the same page again *)

Lemma rows_offered_sublist {C : Type} `{Sqlite C} rs ws (c c' : C) : rows_offered rs ws c c' -> sublist ws rs.
Proof. induction 1; by constructor. Qed.

Lemma entries_offered_accepts {C : Type} `{Sqlite C} es ws (c c' : C) : entries_offered es ws c c' -> accepts es ws.
Proof. induction 1; constructor; (done || by eapply rows_offered_sublist). Qed.

Lemma rows_offered_app {C : Type} `{Sqlite C} r1 r2 w1 w2 (c c1 c' : C) :
  rows_offered r1 w1 c c1 -> rows_offered r2 w2 c1 c' -> rows_offered (r1 ++ r2) (w1 ++ w2) c c'.
Proof. induction 1; intros Hrest; simpl; [done|by eapply rows_stored; eauto|by eapply rows_refused; eauto]. Qed.

Lemma entries_offered_app {C : Type} `{Sqlite C} e1 e2 w1 w2 (c c1 c' : C) :
  entries_offered e1 w1 c c1 -> entries_offered e2 w2 c1 c' -> entries_offered (e1 ++ e2) (w1 ++ w2) c c'.
Proof. induction 1; intros Hrest; simpl; [done|by eapply entries_stored; eauto|by eapply entries_refused; eauto]. Qed.

Lemma accepts_length es ws :
  accepts es ws ->
  (length ws <= length es)%nat /\ (length (flat_map entry_cpes ws) <= length (flat_map entry_cpes es))%nat.
Proof.
  induction 1 as [|e es ws _ [IH1 IH2]|id row rows rows' es ws Hs _ [IH1 IH2]]; simpl;
    rewrite ?length_app; [lia..|]. apply sublist_length in Hs. simpl. lia.
Qed.

Lemma sublist_full {A} (l k : list A) : sublist l k -> (length k <= length l)%nat -> l = k.
Proof.
  induction 1 as [|x l k Hs IH|x l k Hs IH]; simpl; intros Hl; [done|f_equal; apply IH; lia|].
  apply sublist_length in Hs. lia.
Qed.

Lemma accepts_full es ws :
  accepts es ws -> length ws = length es ->
  length (flat_map entry_cpes ws) = length (flat_map entry_cpes es) -> ws = es.
Proof.
  induction 1 as [|e es ws Ha _|id row rows rows' es ws Hs Ha IH]; simpl; rewrite ?length_app; [done|..].
  - apply accepts_length in Ha. lia.
  - intros Hl Hc. pose proof (accepts_length _ _ Ha) as [_ H2]. pose proof (sublist_length _ _ Hs) as H1.
    simpl in *. rewrite IH by lia. by rewrite (sublist_full rows' rows Hs) by lia.
Qed.

Definition rows_of (id : bytes) (ws : list entry) : list cve_row :=
  omap (fun e => if bool_decide (entry_id e = id) then Some (entry_row e) else None) ws.

Lemma lookup_apply_entries d ws id :
  db_cves (apply_entries d ws) !! id = foldl upsert_step (db_cves d !! id) (rows_of id ws).
Proof.
  revert d; induction ws as [|e ws IH]; intros d; [done|].
  unfold apply_entries in *. cbn [foldl]. rewrite IH. unfold apply_entry at 1.
  rewrite db_cves_apply_rows. unfold rows_of. cbn [omap list_omap]. simpl.
  case_bool_decide as Hid.
  - rewrite Hid, lookup_partial_alter_eq. done.
  - by rewrite lookup_partial_alter_ne.
Qed.

Lemma upsert_steps_last old rs :
  foldl upsert_step (Some old) rs =
  Some (match last rs with Some r => upserted (cve_published old) r | None => old end).
Proof.
  revert old; induction rs as [|r rs IH]; intros old; [done|].
  cbn [foldl]. unfold upsert_step at 2. rewrite IH, last_cons. simpl. by destruct (last rs).
Qed.

Lemma upsert_steps_idempotent o rs :
  foldl upsert_step (foldl upsert_step o rs) rs = foldl upsert_step o rs.
Proof.
  destruct rs as [|r rs]; [done|].
  assert (foldl upsert_step o (r :: rs) =
    Some (upserted (match o with None => cve_published r | Some old => cve_published old end)
           (default r (last rs)))) as ->.
  { cbn [foldl]. unfold upsert_step at 2. rewrite upsert_steps_last. by destruct (last rs). }
  rewrite upsert_steps_last, last_cons. by destruct (last rs).
Qed.

Definition insert_row (l : list cpe_row) (r : cpe_row) : list cpe_row :=
  if bool_decide (cpe_key r ∈ map cpe_key l) then l else l ++ [r].

Lemma db_cpe_apply_rows d rows : db_cpe (apply_rows d rows) = foldl insert_row (db_cpe d) rows.
Proof.
  revert d; induction rows as [|r rows IH]; intros d; [done|]. unfold apply_rows in *. cbn [foldl].
  rewrite IH. f_equal. unfold cpe_upsert, insert_row. by case_bool_decide.
Qed.

Lemma db_cpe_apply_entries d ws :
  db_cpe (apply_entries d ws) = foldl insert_row (db_cpe d) (flat_map entry_cpes ws).
Proof.
  revert d; induction ws as [|e ws IH]; intros d; [done|]. unfold apply_entries in *. cbn [foldl flat_map].
  rewrite IH, foldl_app. unfold apply_entry. by rewrite db_cpe_apply_rows.
Qed.

Lemma insert_rows_keys l rows k :
  k ∈ map cpe_key (foldl insert_row l rows) <-> k ∈ map cpe_key l \/ k ∈ map cpe_key rows.
Proof.
  revert l; induction rows as [|r rows IH]; intros l; simpl.
  { rewrite elem_of_nil. tauto. }
  rewrite IH, elem_of_cons. unfold insert_row. case_bool_decide as Hd.
  - split; [tauto|]. intros [?|[->|?]]; auto.
  - rewrite map_app, elem_of_app. simpl. rewrite list_elem_of_singleton. tauto.
Qed.

Lemma insert_rows_id l rows :
  (forall r, r ∈ rows -> cpe_key r ∈ map cpe_key l) -> foldl insert_row l rows = l.
Proof.
  induction rows as [|r rows IH]; intros HH; [done|]. cbn [foldl]. unfold insert_row at 2.
  rewrite bool_decide_eq_true_2 by (apply HH; by left). apply IH. intros. apply HH. by right.
Qed.

Lemma apply_entries_idempotent d ws :
  db_cves (apply_entries (apply_entries d ws) ws) = db_cves (apply_entries d ws) /\
  db_cpe (apply_entries (apply_entries d ws) ws) = db_cpe (apply_entries d ws).
Proof.
  split.
  - apply map_eq. intros id. rewrite !lookup_apply_entries. apply upsert_steps_idempotent.
  - rewrite (db_cpe_apply_entries (apply_entries d ws)). apply insert_rows_id. intros r Hr.
    rewrite db_cpe_apply_entries, insert_rows_keys. right.
    apply list_elem_of_In, in_map, list_elem_of_In, Hr.
Qed.

Lemma sync_update_tables complete e n d :
  db_cves (sync_update complete e n d) = db_cves d /\ db_cpe (sync_update complete e n d) = db_cpe d.
Proof. unfold sync_update. by destruct complete. Qed.

Lemma apply_entries_congr d d' ws :
  db_cves d = db_cves d' -> db_cpe d = db_cpe d' ->
  db_cves (apply_entries d ws) = db_cves (apply_entries d' ws) /\
  db_cpe (apply_entries d ws) = db_cpe (apply_entries d' ws).
Proof.
  intros H1 H2. split.
  - apply map_eq. intros id. by rewrite !lookup_apply_entries, H1.
  - by rewrite !db_cpe_apply_entries, H2.
Qed.

Lemma apply_entries_frame d ws :
  db_sync (apply_entries d ws) = db_sync d /\ db_kev (apply_entries d ws) = db_kev d /\
  db_epss (apply_entries d ws) = db_epss d /\ db_scans (apply_entries d ws) = db_scans d /\
  db_results (apply_entries d ws) = db_results d.
Proof.
  assert (HR : forall rows d, let d' := apply_rows d rows in
    db_sync d' = db_sync d /\ db_kev d' = db_kev d /\ db_epss d' = db_epss d /\
    db_scans d' = db_scans d /\ db_results d' = db_results d).
  { clear. induction rows as [|r rows IH]; intros d; [done|].
    specialize (IH (cpe_upsert r d)). unfold apply_rows in *. cbn [foldl].
    destruct IH as (-> & -> & -> & -> & ->). unfold cpe_upsert. by case_bool_decide. }
  revert d; induction ws as [|e ws IH]; intros d; [done|].
  destruct (IH (apply_entry d e)) as (E1 & E2 & E3 & E4 & E5).
  unfold apply_entries in *. cbn [foldl]. rewrite E1, E2, E3, E4, E5. unfold apply_entry.
  by destruct (HR (entry_cpes e) (cve_upsert (entry_id e) (entry_row e) d)) as (-> & -> & -> & -> & ->).
Qed.

Lemma watermark_sync complete e n d :
  nvd_watermark (sync_update complete e n d) =
  if complete then (fun _ => e) <$> db_sync d !! bs "nvd" else nvd_watermark d.
Proof.
  unfold nvd_watermark, sync_update, sync_complete, sync_partial, update_sync.
  destruct complete; cbn [db_sync]; rewrite lookup_alter_eq; by destruct (db_sync d !! bs "nvd").
Qed.

(** ** Effects inside the transaction *)

Lemma apply_rows_app d r1 r2 : apply_rows d (r1 ++ r2) = apply_rows (apply_rows d r1) r2.
Proof. apply foldl_app. Qed.

Lemma read_cpe_rows_app id l k : read_cpe_rows id (l ++ k) = read_cpe_rows id l ++ read_cpe_rows id k.
Proof. unfold read_cpe_rows. by rewrite filter_app, omap_app. Qed.

Definition bump_cpe (k s : Z) (n : ingest_counts) : ingest_counts :=
  IngestCounts (cve_ingested n) (cve_skipped n) (cpe_ingested n + k) (cpe_skipped n + s).

Lemma bump_cpe_trans k s k' s' n : bump_cpe k' s' (bump_cpe k s n) = bump_cpe (k + k') (s + s') n.
Proof. unfold bump_cpe. simpl. f_equal; lia. Qed.

Section Effects.
Context {C : Type} `{SqliteLaws C}.

(** What a run over [looked] entries out of [total] did. *)
Definition rows_written (id : bytes) (looked : list json) (total : nat)
    (n n' : ingest_counts) (c c' : C) : Prop :=
  in_tx c' = true /\
  exists rows, rows_offered (read_cpe_rows id looked) rows c c' /\
    current c' = apply_rows (current c) rows /\
    n' = bump_cpe (Z.of_nat (length rows)) (Z.of_nat (total - length rows)) n /\
    (length rows <= total)%nat.

Lemma rows_written_refl id n (c : C) : in_tx c = true -> rows_written id [] 0 n n c c.
Proof.
  intros Ht. split; [done|]. exists []. split; [constructor|]. split; [done|].
  split; [|simpl; lia]. unfold bump_cpe. destruct n. simpl. f_equal; lia.
Qed.

Lemma rows_written_trans id l1 l2 t1 t2 n n1 n2 (c c1 c2 : C) :
  rows_written id l1 t1 n n1 c c1 -> rows_written id l2 t2 n1 n2 c1 c2 ->
  rows_written id (l1 ++ l2) (t1 + t2) n n2 c c2.
Proof.
  intros (_ & r1 & Hs1 & Hc1 & -> & Hl1) (Ht2 & r2 & Hs2 & Hc2 & -> & Hl2). split; [done|].
  exists (r1 ++ r2). rewrite read_cpe_rows_app, apply_rows_app, bump_cpe_trans, length_app.
  split; [by eapply rows_offered_app|]. split; [congruence|]. split; [f_equal; lia|lia].
Qed.

Lemma rows_written_skip id looked n (c : C) :
  in_tx c = true -> read_cpe_rows id looked = [] -> rows_written id looked 1 n (add_cpe_skipped n) c c.
Proof.
  intros Ht Hl. split; [done|]. exists []. rewrite Hl. split; [constructor|]. split; [done|].
  split; [|simpl; lia]. unfold bump_cpe, add_cpe_skipped. f_equal; simpl; lia.
Qed.

Lemma read_cpe_rows_one id m :
  read_cpe_rows id [m] = if is_object m then option_list (read_cpe_match id m) else [].
Proof.
  unfold read_cpe_rows. destruct (is_object m) eqn:Hm.
  - rewrite filter_cons_True by (by rewrite Hm). simpl. by destruct (read_cpe_match id m).
  - rewrite filter_cons_False by (rewrite Hm; exact (fun H => H)). done.
Qed.

Lemma rows_written_refused id m row n (c c' : C) :
  in_tx c = true -> is_object m = true -> read_cpe_match id m = Some row -> turned_down (cpe_upsert row) c c' ->
  rows_written id [m] 1 n (add_cpe_skipped n) c c'.
Proof.
  intros Ht Hm Hr Htd. pose proof (turned_down_same _ _ _ Htd) as (_ & Hc & Ht'). split; [congruence|]. exists [].
  rewrite read_cpe_rows_one, Hm, Hr. split; [by eapply rows_refused; [done|constructor]|]. split; [done|].
  split; [|simpl; lia]. unfold bump_cpe, add_cpe_skipped. f_equal; simpl; lia.
Qed.

Lemma process_one_cpe_match_effect id m n n' fatal (c c' : C) :
  in_tx c = true -> is_object m = true ->
  process_one_cpe_match id m n c = (n', fatal, c') ->
  durable c' = durable c /\ (fatal = false -> rows_written id [m] 1 n n' c c').
Proof.
  intros Ht Hm. unfold process_one_cpe_match.
  destruct (read_cpe_match id m) as [row|] eqn:Er.
  2: { intros [= <- <- <-]. split; [done|]. intros _. apply rows_written_skip; [done|]. by rewrite read_cpe_rows_one, Hm, Er. }
  destruct (sql_write (cpe_upsert row) c) as [rc c1] eqn:Ew.
  destruct rc; intros [= <- <- <-].
  - pose proof Ew as Ew0. apply write_done_tx in Ew as (Hc & Ht1 & Hd); [|done]. split; [done|]. intros _.
    split; [done|]. exists [row]. rewrite read_cpe_rows_one, Hm, Er. split; [by eapply rows_stored; [done|constructor]|]. split; [done|].
    split; [|simpl; lia]. unfold bump_cpe, add_cpe_ingested. simpl. f_equal; lia.
  - pose proof (write_constraint _ _ _ Ew) as (Hd & _). split; [done|]. intros _. eapply rows_written_refused; [done..|by left].
  - pose proof (write_unbound _ _ _ Ew) as (Hd & _). split; [done|]. intros _. eapply rows_written_refused; [done..|by right].
  - apply write_failure, aborted_durable in Ew. done.
Qed.

(** The budget of the caller decides how many entries are looked at. *)
Lemma cpe_loop_effect id ms b n b' n' fatal (c c' : C) :
  in_tx c = true -> 0 <= b -> cpe_loop id ms b n c = (b', n', fatal, c') ->
  durable c' = durable c /\
  (fatal = false ->
   b' = Z.max 0 (b - Z.of_nat (length ms)) /\
   rows_written id (take (Z.to_nat b) ms) (length ms) n n' c c').
Proof.
  revert b n c; induction ms as [|m ms IH]; intros b n c Ht Hb; simpl.
  { intros [= <- <- <- <-]. split; [done|]. intros _. split; [lia|]. rewrite take_nil.
    by apply rows_written_refl. }
  destruct (Z.eqb_spec b 0) as [->|Hb0].
  - intros E. destruct (IH 0 _ c Ht ltac:(lia) E) as [Hd HO]. split; [done|]. intros Hf.
    destruct (HO Hf) as [-> HR]. split; [lia|].
    apply (rows_written_trans id [] [] 1 (length ms) _ _ _ _ _ _ (rows_written_skip id [] n c Ht eq_refl) HR).
  - replace (Z.to_nat b) with (S (Z.to_nat (b - 1))) by lia. cbn [take firstn].
    change (m :: take (Z.to_nat (b - 1)) ms) with ([m] ++ take (Z.to_nat (b - 1)) ms).
    destruct (is_object m) eqn:Hm; cbn [negb].
    + destruct (process_one_cpe_match id m n c) as [[n1 f1] c1] eqn:E1.
      apply process_one_cpe_match_effect in E1 as [Hd1 HO1]; [|done..].
      destruct f1; [intros [= <- <- <- <-]; done|].
      specialize (HO1 eq_refl). intros E.
      destruct (IH (b - 1) _ c1 (proj1 HO1) ltac:(lia) E) as [Hd HO]. split; [congruence|].
      intros Hf. destruct (HO Hf) as [-> HR]. split; [lia|].
      exact (rows_written_trans _ _ _ _ _ _ _ _ _ _ _ HO1 HR).
    + intros E. destruct (IH (b - 1) _ c Ht ltac:(lia) E) as [Hd HO]. split; [done|].
      intros Hf. destruct (HO Hf) as [-> HR]. split; [lia|].
      refine (rows_written_trans _ _ _ _ _ _ _ _ _ _ _ (rows_written_skip id [m] n c Ht _) HR).
      by rewrite read_cpe_rows_one, Hm.
Qed.

Lemma node_loop_effect id nodes b n n' fatal (c c' : C) :
  in_tx c = true -> 0 <= b -> node_loop id nodes b n c = (n', fatal, c') ->
  durable c' = durable c /\
  (fatal = false ->
   rows_written id (take (Z.to_nat b) (flat_map node_matches nodes))
     (length (flat_map node_matches nodes)) n n' c c').
Proof.
  revert b n c; induction nodes as [|node nodes IH]; intros b n c Ht Hb; simpl.
  { intros [= <- <- <-]. split; [done|]. intros _. rewrite take_nil. by apply rows_written_refl. }
  destruct (process_cpe_node id node b n c) as [[[b1 n1] f1] c1] eqn:E1.
  assert (durable c1 = durable c /\ (f1 = false ->
    b1 = Z.max 0 (b - Z.of_nat (length (node_matches node))) /\
    rows_written id (take (Z.to_nat b) (node_matches node)) (length (node_matches node)) n n1 c c1))
    as [Hd1 HO1].
  { unfold process_cpe_node, node_matches in *.
    destruct (json_array _) as [ms|]; simpl in *.
    - exact (cpe_loop_effect _ _ _ _ _ _ _ _ _ Ht Hb E1).
    - injection E1 as <- <- <- <-. split; [done|]. intros _. split; [lia|]. rewrite take_nil.
      by apply rows_written_refl. }
  destruct f1; [by intros [= <- <- <-]|]. destruct (HO1 eq_refl) as [-> HR1]. intros E.
  destruct (IH _ _ c1 (proj1 HR1) (Z.le_max_l 0 _) E) as [Hd HO]. split; [congruence|].
  intros Hf. specialize (HO Hf). rewrite take_app, length_app.
  replace (Z.to_nat (Z.max 0 (b - Z.of_nat (length (node_matches node)))))
    with (Z.to_nat b - length (node_matches node))%nat in HO by lia.
  exact (rows_written_trans _ _ _ _ _ _ _ _ _ _ _ HR1 HO).
Qed.

(** What a run over [elems] did. *)
Definition entries_written (elems : list json) (n n' : ingest_counts) (c c' : C) : Prop :=
  in_tx c' = true /\
  exists ws, entries_offered (omap read_entry elems) ws c c' /\
    current c' = apply_entries (current c) ws /\
    cve_ingested n' = cve_ingested n + Z.of_nat (length ws) /\
    cve_skipped n' = cve_skipped n + (Z.of_nat (length elems) - Z.of_nat (length ws)) /\
    cpe_ingested n' = cpe_ingested n + Z.of_nat (length (flat_map entry_cpes ws)).

Lemma entries_written_nil n (c : C) : in_tx c = true -> entries_written [] n n c c.
Proof. intros Ht. split; [done|]. exists []. split; [constructor|]. simpl. split_and!; try done; lia. Qed.

Lemma entries_written_cons e es n n1 n2 (c c1 c2 : C) :
  entries_written [e] n n1 c c1 -> entries_written es n1 n2 c1 c2 ->
  entries_written (e :: es) n n2 c c2.
Proof.
  intros (_ & w1 & Ha1 & Hc1 & Hi1 & Hs1 & Hp1) (Ht & w2 & Ha2 & Hc2 & Hi2 & Hs2 & Hp2).
  split; [done|]. exists (w1 ++ w2). unfold apply_entries in *.
  rewrite foldl_app, flat_map_app, !length_app. cbn [length] in *.
  change (e :: es) with ([e] ++ es). rewrite omap_app. split; [by eapply entries_offered_app|split_and!; [congruence|lia..]].
Qed.

Lemma skip_one_written elem n (c : C) :
  in_tx c = true -> read_entry elem = None -> entries_written [elem] n (add_cve_skipped 1 n) c c.
Proof.
  intros Ht Hn. split; [done|]. exists []. cbn [omap list_omap]. rewrite Hn. simpl. split; [constructor|split_and!; try done; lia].
Qed.

Lemma refused_one_written elem e n (c c' : C) :
  in_tx c = true -> read_entry elem = Some e -> turned_down (cve_upsert (entry_id e) (entry_row e)) c c' ->
  entries_written [elem] n (add_cve_skipped 1 n) c c'.
Proof.
  intros Ht He Htd. pose proof (turned_down_same _ _ _ Htd) as (_ & Hc & Ht'). split; [congruence|]. exists [].
  cbn [omap list_omap]. rewrite He. simpl. split; [by eapply entries_refused; [done|constructor]|split_and!; try done; lia].
Qed.

Lemma process_one_cve_effect elem n n' fatal (c c' : C) :
  in_tx c = true -> process_one_cve elem n c = (n', fatal, c') ->
  durable c' = durable c /\ (fatal = false -> entries_written [elem] n n' c c').
Proof.
  intros Ht. unfold process_one_cve.
  destruct (read_cve (json_item (Some elem) "cve")) as [[id row]|] eqn:Er.
  2: { intros [= <- <- <-]. split; [done|]. intros _. apply skip_one_written; [done|]. unfold read_entry. by rewrite Er. }
  assert (He : exists e, read_entry elem = Some e /\ entry_id e = id /\ entry_row e = row)
    by (unfold read_entry; rewrite Er; by eexists). destruct He as (e & He & Hid & Hrow).
  destruct (sql_write (cve_upsert id row) c) as [rc c1] eqn:Ew. destruct rc.
  - pose proof Ew as Ew0. apply write_done_tx in Ew as (Hc & Ht1 & Hd); [|done]. intros E.
    apply node_loop_effect in E as [Hd2 HO]; [|done|unfold NVD_MAX_CPE_PER_CVE; lia].
    split; [congruence|]. intros Hf.
    destruct (HO Hf) as (Ht2 & rows & Hoff & Hc2 & -> & Hl). split; [done|].
    exists [Entry id row rows]. split_and!.
    + cbn [omap list_omap]. unfold read_entry. rewrite Er. by eapply entries_stored; [done|exact Hoff|constructor].
    + rewrite Hc2, Hc. done.
    + simpl. lia.
    + simpl. lia.
    + simpl. rewrite app_nil_r. done.
  - pose proof (write_constraint _ _ _ Ew) as (Hd & _). intros [= <- <- <-]. split; [done|]. intros _.
    eapply refused_one_written; [done..|]. rewrite Hid, Hrow. by left.
  - pose proof (write_unbound _ _ _ Ew) as (Hd & _). intros [= <- <- <-]. split; [done|]. intros _.
    eapply refused_one_written; [done..|]. rewrite Hid, Hrow. by right.
  - apply write_failure, aborted_durable in Ew. by intros [= <- <- <-].
Qed.

Lemma cve_loop_effect elems n n' fatal (c c' : C) :
  in_tx c = true -> cve_loop elems n c = (n', fatal, c') ->
  durable c' = durable c /\ (fatal = false -> entries_written elems n n' c c').
Proof.
  revert n c; induction elems as [|e elems IH]; intros n c Ht; simpl.
  { intros [= <- <- <-]. split; [done|]. intros _. by apply entries_written_nil. }
  destruct (process_one_cve e n c) as [[n1 f1] c1] eqn:E1.
  apply process_one_cve_effect in E1 as [Hd1 HO1]; [|done].
  destruct f1; [by intros [= <- <- <-]|]. specialize (HO1 eq_refl). intros E.
  destruct (IH _ c1 (proj1 HO1) E) as [Hd HO]. split; [congruence|].
  intros Hf. exact (entries_written_cons _ _ _ _ _ _ _ _ HO1 (HO Hf)).
Qed.

Lemma prepare_statements_effect (c c' : C) ok :
  prepare_statements c = (ok, c') -> durable c' = durable c /\ (ok = true -> same_conn c c').
Proof.
  unfold prepare_statements, same_conn.
  do 2 (sql_step; [|intros [= <- <-]; split; [congruence|done]]).
  intros E2. destruct ok.
  - apply prepare_ok in E2 as (? & ? & ?). split; [congruence|]. intros _. repeat split; congruence.
  - apply prepare_fail, aborted_durable in E2. split; [congruence|done].
Qed.

(** The contents a committed page leaves: inside the transaction every record
    of the page that can be read was offered to the database, and so was every
    row of a stored one; those it took are what is written. *)
Definition page_result (vs : list json) (complete : bool) (end_date : bytes) (d d' : database)
    (n : ingest_counts) : Prop :=
  exists ws (c1 c2 : C), in_tx c1 = true /\ current c1 = d /\ entries_offered (page_entries vs) ws c1 c2 /\
    d' = sync_update complete end_date n (apply_entries d ws) /\
    entries_counts (Z.of_nat (length vs)) ws n.

Lemma ingest_body_effect vs complete end_date n (c c' : C) ok :
  in_tx c = true -> ingest_body vs complete end_date c = (ok, n, c') ->
  durable c' = durable c /\
  (ok = true -> in_tx c' = true /\ page_result vs complete end_date (current c) (current c') n).
Proof.
  intros Ht. unfold ingest_body.
  destruct (prepare_statements c) as [ok1 c1] eqn:E1.
  apply prepare_statements_effect in E1 as [Hd1 Hs1].
  destruct ok1; cbn [negb]; [|by intros [= <- <- <-]].
  destruct (Hs1 eq_refl) as (_ & Hc1 & Ht1).
  destruct (cve_loop _ _ _) as [[n1 fatal] c2] eqn:E2.
  apply cve_loop_effect in E2 as [Hd2 HO2]; [|congruence].
  destruct fatal; [intros [= <- <- <-]; split; [congruence|done]|].
  destruct (HO2 eq_refl) as (Ht2 & ws & Ha & Hc2 & Hi & Hs & Hp).
  sql_step; intros [= <- <- <-]; (split; [congruence|]); try done.
  intros _. split; [done|]. exists ws, c1, c2. split; [congruence|]. split; [done|]. split; [done|]. split; [congruence|].
  unfold entries_counts. simpl in *. rewrite length_take in Hs. rewrite length_drop.
  split_and!; lia.
Qed.
End Effects.

Section Page.
Context {C : Type} `{SqliteLaws C}.
Variable json_parse : bytes -> option json.

(** The document of a page: parsed, within the size cap, with its array. *)
Definition page_document (body : bytes) : option (list json) :=
  if NVD_PAGE_MAX_BYTES <? Z.of_nat (length body) then None
  else match json_parse body with
       | Some root => if is_object root then json_array (json_item (Some root) "vulnerabilities") else None
       | None => None
       end.

Lemma ingest_page_effect body end_date complete (c : C) :
  in_tx c = false ->
  let '(st, n, c') := ingest_page json_parse body end_date complete c in
  (st <> INGEST_OK -> durable c' = durable c) /\
  (st = INGEST_OK ->
   exists b e vs, body = Some b /\ end_date = Some e /\ page_document b = Some vs /\
     in_tx c' = false /\ page_result (C := C) vs complete e (durable c) (durable c') n).
Proof.
  intros Ht. unfold ingest_page, page_document.
  destruct body as [b|]; [|done]. destruct end_date as [[|x e]|]; [done| |done]. cbn [nonempty].
  destruct (NVD_PAGE_MAX_BYTES <? _) eqn:El; [done|].
  destruct (json_parse b) as [root|] eqn:Ej; [|done].
  destruct (is_object root) eqn:Eo; [|done]. cbn [negb].
  destruct (json_array _) as [vs|] eqn:Ev; [|done].
  pose proof (transaction_effect counts0 (ingest_body vs complete (x :: e))
    (fun n d d' => page_result (C := C) vs complete (x :: e) d d' n) c Ht) as HT.
  destruct (transaction _ _ c) as [[ok n] c'].
  destruct HT as [HF HT]; [intros c1 ok1 n1 c2 Ht1; by apply ingest_body_effect|].
  destruct ok; [split; [done|]|split; [by intros _; apply HF|done]]. intros _.
  destruct (HT eq_refl) as [Ht' HR]. exists b, (x :: e), vs. rewrite El, Ej, Eo. done.
Qed.

(** C20: A page is written whole or not at all.  On success every record of
    the page that can be read, of its first 20000, was offered to the database
    in page order, and after each record it took, every CPE row that can be
    read among the first 4096 of that record; what the database turned down is
    left out, a record with all its rows, and nothing else is: all that it
    took is on disk, together with the update of the sync state.  On any
    failure (bad document, failing statement, crashing COMMIT, with or without
    a successful ROLLBACK) what is on disk is what was there before.  The
    counters of records add up to the number of records of the page. *)
Theorem ingest_page_atomic body end_date complete (c : C) :
  in_tx c = false ->
  let '(st, n, c') := ingest_page json_parse body end_date complete c in
  (st <> INGEST_OK -> durable c' = durable c) /\
  (st = INGEST_OK ->
   exists b e vs, body = Some b /\ end_date = Some e /\ page_document b = Some vs /\
     in_tx c' = false /\ page_result (C := C) vs complete e (durable c) (durable c') n).
Proof. apply ingest_page_effect. Qed.

Lemma ingest_page_ok body end_date complete (c : C) :
  in_tx c = false -> nvd_ok (durable c) ->
  nvd_ok (durable (ingest_page json_parse body end_date complete c).2).
Proof.
  intros Ht Hok. pose proof (ingest_page_effect body end_date complete c Ht) as HA.
  destruct (ingest_page _ _ _ _ _) as [[st n] c']. destruct HA as [HE HO]. simpl.
  destruct (decide (st = INGEST_OK)) as [Hst|Hst]; [|by rewrite HE].
  destruct (HO Hst) as (b & e & vs & _ & _ & _ & _ & ws & c1 & c2 & _ & _ & Ha%entries_offered_accepts & -> & _).
  apply nvd_ok_sync, nvd_ok_apply_entries; [|done].
  by apply (accepts_ok _ _ Ha), page_entries_ok.
Qed.

(** Whatever the document, the faults and the outcome, a page leaves the
    NVD tables well formed: valid CVE ids, severities and scores in range,
    CPE rows with part a/o/h, lower-case non-empty vendor and product within
    their caps, no unbounded wildcard row, no NULL column, every CPE row with
    its CVE and no two rows with the same key. *)
Theorem ingest_keeps_nvd_ok body end_date complete (c : C) :
  in_tx c = false -> nvd_ok (durable c) ->
  nvd_ok (durable (ingest_page json_parse body end_date complete c).2).
Proof. apply ingest_page_ok. Qed.

(** The watermark moves only when the last page of a window is committed,
    and then to the end of that window; an earlier page, a rejected document
    or a failed transaction leaves it where it was.  No page touches the KEV
    and EPSS tables, the scans, the results or another feed's state. *)
Theorem ingest_page_watermark body end_date complete (c : C) :
  in_tx c = false ->
  let '(st, n, c') := ingest_page json_parse body end_date complete c in
  nvd_watermark (durable c') =
    (if bool_decide (st = INGEST_OK) && complete
     then db_sync (durable c) !! bs "nvd" ≫= (fun _ => end_date)
     else nvd_watermark (durable c)) /\
  (forall feed, feed <> bs "nvd" -> db_sync (durable c') !! feed = db_sync (durable c) !! feed) /\
  db_kev (durable c') = db_kev (durable c) /\ db_epss (durable c') = db_epss (durable c) /\
  db_scans (durable c') = db_scans (durable c) /\ db_results (durable c') = db_results (durable c).
Proof.
  intros Ht. pose proof (ingest_page_effect body end_date complete c Ht) as HA.
  destruct (ingest_page _ _ _ _ _) as [[st n] c']. destruct HA as [HE HO].
  case_bool_decide as Hst; cbn [andb]; [|by rewrite HE].
  destruct (HO Hst) as (b & e & vs & _ & -> & _ & _ & ws & c1 & c2 & _ & _ & _ & Hd & _). rewrite Hd.
  destruct (apply_entries_frame (durable c) ws) as (E1 & E2 & E3 & E4 & E5).
  split; [|split_and!].
  - rewrite watermark_sync. unfold nvd_watermark. rewrite E1.
    destruct complete; [|done]. by destruct (_ !! _).
  - intros feed Hf. rewrite <- E1. unfold sync_update, sync_complete, sync_partial, update_sync.
    destruct complete; cbn [db_sync]; by rewrite lookup_alter_ne.
  - rewrite <- E2. by destruct complete.
  - rewrite <- E3. by destruct complete.
  - rewrite <- E4. by destruct complete.
  - rewrite <- E5. by destruct complete.
Qed.

(** Fetching a window again is harmless: when a page whose rows the
    database all accepted is ingested a second time (and all accepted again),
    the second run leaves the CVE and CPE tables exactly as the first did. *)
Theorem ingest_page_idempotent body end_date complete complete' (c c1 c2 : C) n1 n2 b vs :
  in_tx c = false -> body = Some b -> page_document b = Some vs ->
  ingest_page json_parse body end_date complete c = (INGEST_OK, n1, c1) ->
  ingest_page json_parse body end_date complete' c1 = (INGEST_OK, n2, c2) ->
  (forall n, n = n1 \/ n = n2 ->
     cve_ingested n = Z.of_nat (length (page_entries vs)) /\
     cpe_ingested n = Z.of_nat (length (flat_map entry_cpes (page_entries vs)))) ->
  db_cves (durable c2) = db_cves (durable c1) /\ db_cpe (durable c2) = db_cpe (durable c1).
Proof.
  intros Ht -> Hvs E1 E2 Hn.
  pose proof (ingest_page_effect (Some b) end_date complete c Ht) as HA. rewrite E1 in HA.
  destruct (proj2 HA eq_refl) as (b1 & e1 & vs1 & [= <-] & _ & Hvs1 & Ht1 & ws1 & ca & cb & _ & _ & Ha1%entries_offered_accepts & Hd1 & Hi1 & _ & Hp1).
  pose proof (ingest_page_effect (Some b) end_date complete' c1 Ht1) as HB. rewrite E2 in HB.
  destruct (proj2 HB eq_refl) as (b2 & e2 & vs2 & [= <-] & _ & Hvs2 & Ht2 & ws2 & cc & cd & _ & _ & Ha2%entries_offered_accepts & Hd2 & Hi2 & _ & Hp2).
  simplify_eq.
  destruct (Hn n1 (or_introl eq_refl)) as [Hi1' Hp1']. destruct (Hn n2 (or_intror eq_refl)) as [Hi2' Hp2'].
  apply accepts_full in Ha1; [|lia..]. apply accepts_full in Ha2; [|lia..]. subst ws1 ws2.
  set (ws := page_entries vs) in *.
  rewrite Hd2. destruct (sync_update_tables complete' e2 n2 (apply_entries (durable c1) ws)) as [-> ->].
  destruct (sync_update_tables complete e1 n1 (apply_entries (durable c) ws)) as [S1 S2].
  rewrite <- Hd1 in S1, S2.
  destruct (apply_entries_congr (durable c1) (apply_entries (durable c) ws) ws S1 S2) as [-> ->].
  destruct (apply_entries_idempotent (durable c) ws) as [-> ->]. by rewrite S1, S2.
Qed.
End Page.

(** ** Evaluating the stored rows *)

Lemma range_version_cases v :
  cpe_is_star (Span v) || (span_len (Span v) =? 0) = true -> v = [] \/ v = bs "*".
Proof.
  destruct v as [|x [|y v]]; simpl; [by left|..].
  - rewrite orb_false_r. intros ->%Z.eqb_eq. by right.
  - done.
Qed.

(** The four bounds of a row without NULL columns, as the evaluator sees
    them. *)
Lemma row_bounds_columns r a b c d :
  cpe_bounds r = Some (a, b, c, d) ->
  row_bounds (row_of_columns r) =
  [BoundField (Span a) BOUND_START_INCLUDING; BoundField (Span b) BOUND_START_EXCLUDING;
   BoundField (Span c) BOUND_END_INCLUDING; BoundField (Span d) BOUND_END_EXCLUDING].
Proof.
  unfold cpe_bounds. intros Hb.
  destruct (cpe_start_including r) eqn:E1, (cpe_start_excluding r) eqn:E2,
    (cpe_end_including r) eqn:E3, (cpe_end_excluding r) eqn:E4; try done.
  injection Hb as <- <- <- <-. unfold row_bounds, row_of_columns. simpl.
  by rewrite E1, E2, E3, E4.
Qed.

Lemma no_bound_set a b c d k1 k2 k3 k4 :
  existsb is_set [BoundField (Span a) k1; BoundField (Span b) k2;
                  BoundField (Span c) k3; BoundField (Span d) k4] = false ->
  (a, b, c, d) = ([], [], [], []).
Proof. by destruct a, b, c, d. Qed.

Lemma cpe_row_ok_bounds r : cpe_row_ok r -> row_ok (row_of_columns r).
Proof.
  intros (id & v & [[[a b] c] d] & _ & _ & Hb & _). unfold row_ok.
  rewrite (row_bounds_columns _ _ _ _ _ Hb). by repeat constructor.
Qed.

(** A well-formed row never makes the evaluator read through NULL and is
    never dropped for its CVE id; it can count as malformed only when it is a
    range row and its bounds are all empty (an empty version field) or one of
    them consists of [*] and [-] only. *)
Theorem nvd_rows_evaluate d r detected :
  nvd_ok d -> r ∈ db_cpe d ->
  is_Some (row_cve_id r) /\
  cpe_match_evaluate (Some (row_of_columns r)) detected = Some (row_outcome r detected) /\
  (row_outcome r detected = CPE_MALFORMED_ROW ->
   (cpe_version r = Some (bs "*") /\ existsb is_sentinel (row_bounds (row_of_columns r)) = true) \/
   (cpe_version r = Some [] /\
    (existsb is_set (row_bounds (row_of_columns r)) = false \/
     existsb is_sentinel (row_bounds (row_of_columns r)) = true))).
Proof.
  intros (Hcve & Hok & Hfk & _) Hr.
  rewrite Forall_forall in Hok, Hfk. specialize (Hok r Hr).
  pose proof (cpe_row_ok_bounds r Hok) as Hrok.
  destruct Hok as (id & v & [[[ba bb] bc] bd] & Hid & Hv & Hb & Hrow).
  destruct (Hfk r Hr id Hid) as [row Hlk]. destruct (Hcve id row Hlk) as (Hvalid & Hlen & _).
  split; [|split].
  - unfold row_cve_id. rewrite Hid. unfold NVD_CVE_ID_MAX_LEN, SCAN_CVE_ID_MAX_LEN in *.
    rewrite (proj2 (Z.ltb_ge _ _)) by lia.
    rewrite (proj2 (Z.leb_gt _ _)); [by eexists|]. destruct id; [done|simpl; lia].
  - unfold row_outcome. by destruct (match_evaluate_total _ detected Hrok) as [m ->].
  - unfold row_outcome. cbn [cpe_match_evaluate]. destruct (_ =? 0); [done|].
    replace (row_version (row_of_columns r)) with (Span v) by (simpl; by rewrite Hv). rewrite Hv.
    unfold cpe_evaluate_range_row. rewrite range_loop_spec by done.
    destruct (_ || _) eqn:Es; [|by destruct (version_compare _ _)].
    apply range_version_cases in Es. unfold range_spec.
    destruct (existsb is_sentinel _) eqn:Esn; [by destruct Es as [->| ->]; auto|].
    destruct (existsb is_set _) eqn:Est; simpl; [by repeat case_match|].
    intros _. destruct Es as [->| ->]; [by auto|]. exfalso.
    rewrite (row_bounds_columns _ _ _ _ _ Hb) in Est.
    apply no_bound_set in Est.
    destruct Hrow as (_ & _ & _ & _ & _ & _ & _ & Hnb & _). by apply Hnb.
Qed.

(** ** Examples *)

Definition member (name : string) (v : json) : bytes * json := (bs name, v).
Definition text (s : string) : json := JString (bs s).

Definition example_match : json :=
  JObject [member "criteria" (text "cpe:2.3:a:Apache:http_server:*:*:*:*:*:*:*:*");
           member "versionEndExcluding" (text "2.4.50"); member "vulnerable" (JBool true)].

Definition example_cve : json :=
  JObject [member "cve" (JObject
    [member "id" (text "CVE-2021-41773"); member "published" (text "2021-10-05T09:15:07.593");
     member "lastModified" (text "2021-10-06T00:00:00.000");
     member "descriptions" (JArray [JObject [member "lang" (text "en"); member "value" (text "path traversal")]]);
     member "configurations" (JArray [JObject [member "nodes" (JArray [JObject
       [member "cpeMatch" (JArray [example_match; JNull])]])]])])].

Definition example_vulnerabilities : list json := [example_cve; JNull].

(** A parser that knows one document. *)
Definition example_parse (body : bytes) : option json :=
  if bool_decide (body = bs "page")
  then Some (JObject [member "totalResults" (JNumber (Dyadic 1 0));
                      member "vulnerabilities" (JArray example_vulnerabilities)])
  else None.

Definition nvd_database : database :=
  Database ∅ [] ∅ ∅ [] [] {[bs "nvd" := SyncRow None 0 (bs "idle") None]} (Schema ∅ ∅ []).

Definition nvd_conn (faults : list fault) : toy_conn := ToyConn nvd_database None faults.

Lemma nvd_database_ok : nvd_ok nvd_database.
Proof.
  split; [|repeat split; constructor]. intros id r. simpl. by rewrite lookup_empty.
Qed.

Lemma ingest_page_atomic_witness :
  durable (ingest_page example_parse (Some (bs "page")) (Some (bs "2022-01-01")) true
    (nvd_conn [Works; Works; Works; Works; Works; Fails true])).2 = nvd_database.
Proof.
  pose proof (ingest_page_atomic example_parse (Some (bs "page")) (Some (bs "2022-01-01")) true
    (nvd_conn [Works; Works; Works; Works; Works; Fails true]) eq_refl) as R.
  destruct (ingest_page _ _ _ _ _) as [[st n] c'] eqn:E. destruct R as [R _]. cbn [snd].
  rewrite R; [done|]. vm_compute in E. intros ->. discriminate E.
Defined.

Lemma ingest_keeps_nvd_ok_witness :
  nvd_ok (durable (ingest_page example_parse (Some (bs "page")) (Some (bs "2022-01-01")) true (nvd_conn [])).2).
Proof. apply ingest_keeps_nvd_ok; [reflexivity|exact nvd_database_ok]. Defined.

Lemma ingest_page_watermark_witness :
  nvd_watermark (durable (ingest_page example_parse (Some (bs "page")) (Some (bs "2022-01-01")) true
    (nvd_conn [])).2) = Some (bs "2022-01-01").
Proof.
  pose proof (ingest_page_watermark example_parse (Some (bs "page")) (Some (bs "2022-01-01")) true
    (nvd_conn []) eq_refl) as R.
  destruct (ingest_page _ _ _ _ _) as [[st n] c'] eqn:E. destruct R as [R _]. cbn [snd]. rewrite R.
  vm_compute in E. injection E as <- <- <-. reflexivity.
Defined.

(** The page of the examples after a first run. *)
Definition example_conn1 : toy_conn :=
  (ingest_page example_parse (Some (bs "page")) (Some (bs "2022-01-01")) true (nvd_conn [])).2.
Definition example_counts : ingest_counts := IngestCounts 1 1 1 1.

Lemma ingest_page_idempotent_witness :
  db_cpe (durable (ingest_page example_parse (Some (bs "page")) (Some (bs "2022-01-01")) true example_conn1).2)
  = db_cpe (durable example_conn1).
Proof.
  apply (ingest_page_idempotent example_parse (Some (bs "page")) (Some (bs "2022-01-01")) true true
    (nvd_conn []) example_conn1
    (ingest_page example_parse (Some (bs "page")) (Some (bs "2022-01-01")) true example_conn1).2
    example_counts example_counts (bs "page") example_vulnerabilities); try (vm_compute; reflexivity).
  intros n [-> | ->]; vm_compute; split; reflexivity.
Defined.

Lemma nvd_rows_evaluate_witness :
  exists r, r ∈ db_cpe (durable example_conn1) /\
    cpe_match_evaluate (Some (row_of_columns r)) (Span (bs "2.4.49")) = Some CPE_MATCH.
Proof.
  destruct (db_cpe (durable example_conn1)) as [|r rest] eqn:E; [by vm_compute in E|].
  exists r. assert (Hr : r ∈ db_cpe (durable example_conn1)) by (rewrite E; left).
  split; [left|].
  destruct (nvd_rows_evaluate (durable example_conn1) r (Span (bs "2.4.49"))) as (_ & HE & _).
  - apply ingest_page_ok; [reflexivity|exact nvd_database_ok].
  - exact Hr.
  - rewrite HE. f_equal. vm_compute in E. injection E as <- _. vm_compute. reflexivity.
Defined.
