(* ===== verification/Feed.v ===== *)
(** * Ingesting a feed that names CVEs

    What [src/src/db/kev_ingest.c] and [epss_ingest.c] have in common, which
    is all but the fields of a record: one transaction, the placeholder rows
    that satisfy the foreign keys, the caps, the sync state.  The class [Feed]
    is what a feed brings; [KevIngest] and [EpssIngest] have its instances.
    [now i] is the clock read for the [i]-th element of the array ([None]: the
    reading failed), [today] SQLite's clock at the end of the transaction. *)

From S2P Require Import Prelude CveId Json Sqlite ScanPersist NvdIngest.

(** [cytadel_kev_ingest_counts_t], [cytadel_epss_ingest_counts_t] *)
Record feed_counts := FeedCounts { feed_ingested : Z; feed_skipped : Z }.

Definition feed_counts0 : feed_counts := FeedCounts 0 0.

Definition add_ingested (n : feed_counts) : feed_counts := FeedCounts (feed_ingested n + 1) (feed_skipped n).
Definition add_skipped (k : Z) (n : feed_counts) : feed_counts := FeedCounts (feed_ingested n) (feed_skipped n + k).

(** Both modules clip ids into a buffer of this size. *)
Definition FEED_CVE_ID_MAX_LEN : Z := 64.

(** The start of [process_one_kev] and [process_one_epss]. *)
Definition read_cve_id (elem : json) (key : string) : option bytes :=
  match nonempty (json_get_string (Some elem) key) with
  | None => None
  | Some id =>
      if (FEED_CVE_ID_MAX_LEN <? Z.of_nat (length id)) || negb (is_valid_cve_id id) then None
      else Some (clip_into (FEED_CVE_ID_MAX_LEN + 1) id)
  end.

(** A feed: its caps, the array that holds its records, its row of
    [sync_state], the reading of one record (the id and what the upsert
    binds, [None] when it is skipped) and the upsert. *)
Class Feed (R : Type) := {
  max_bytes : Z;
  max_records : Z;
  array_key : string;
  feed_name : bytes;
  read_record : json -> option (bytes * R);
  feed_upsert : bytes -> R -> database -> database
}.

(** The feed tables. *)
Definition probability_ok (d : double) : Prop :=
  double_finite d = true /\ double_ge d 0 = true /\ double_le d 1 = true.

Definition kev_row_ok (r : kev_row) : Prop :=
  kev_date_added r <> [] /\ kev_vendor_project r <> [] /\ kev_product r <> [] /\
  kev_vulnerability_name r <> [] /\ (kev_known_ransomware r = 0 \/ kev_known_ransomware r = 1).

Definition epss_row_ok (r : epss_row) : Prop :=
  probability_ok (epss_score r) /\ probability_ok (epss_percentile r) /\ epss_score_date r <> [].

(** Every row well formed and with its CVE. *)
Definition feeds_ok (d : database) : Prop :=
  (forall id r, db_kev d !! id = Some r -> kev_row_ok r /\ is_Some (db_cves d !! id)) /\
  (forall id r, db_epss d !! id = Some r -> epss_row_ok r /\ is_Some (db_cves d !! id)).

(** A statement on the feed tables leaves the others alone. *)
Definition only_feeds (d d' : database) : Prop :=
  db_cves d' = db_cves d /\ db_cpe d' = db_cpe d /\ db_scans d' = db_scans d /\
  db_results d' = db_results d /\ db_sync d' = db_sync d.

Class FeedLaws (R : Type) `{Feed R} : Prop := {
  max_records_pos : 0 < max_records;
  read_record_id elem id r : read_record elem = Some (id, r) -> is_valid_cve_id id = true;
  upsert_only id r d : only_feeds d (feed_upsert id r d);
  upsert_ok elem id r d : read_record elem = Some (id, r) ->
    is_Some (db_cves d !! id) -> feeds_ok d -> feeds_ok (feed_upsert id r d)
}.

Section Ingest.
Context {C R : Type} `{Sqlite C} `{Feed R}.
Variable json_parse : bytes -> option json.
Variable now : nat -> option bytes.
Variable today : bytes.

(** The writing part of [process_one_kev] and [process_one_epss]; a result is
    the counters, the [fatal_db_error] flag and the connection. *)
Definition write_record (id : bytes) (r : R) (now_ts : option bytes) (n : feed_counts) (c : C) :
    feed_counts * bool * C :=
  match now_ts with
  | None => (n, true, c)
  | Some now_ts =>
      let '(rc, c) := sql_write (cve_placeholder id now_ts) c in
      match rc with
      | SQLITE_CONSTRAINT | SQLITE_BIND_FAILURE => (add_skipped 1 n, false, c)
      | SQLITE_FAILURE => (n, true, c)
      | SQLITE_DONE =>
          let '(rc, c) := sql_write (feed_upsert id r) c in
          match rc with
          | SQLITE_DONE => (add_ingested n, false, c)
          | SQLITE_CONSTRAINT | SQLITE_BIND_FAILURE => (add_skipped 1 n, false, c)
          | SQLITE_FAILURE => (n, true, c)
          end
      end
  end.

Definition process_one (elem : json) (now_ts : option bytes) (n : feed_counts) (c : C) :
    feed_counts * bool * C :=
  match read_record elem with
  | None => (add_skipped 1 n, false, c)
  | Some (id, r) => write_record id r now_ts n c
  end.

(** The loop over the elements, from the [i]-th on. *)
Fixpoint record_loop (elems : list json) (i : nat) (n : feed_counts) (c : C) : feed_counts * bool * C :=
  match elems with
  | [] => (n, false, c)
  | elem :: elems =>
      if negb (is_object elem) then record_loop elems (S i) (add_skipped 1 n) c else
      let '(n, fatal, c) := process_one elem (now i) n c in
      if fatal then (n, true, c) else record_loop elems (S i) n c
  end.

(** The two [sync_state] statements. *)
Definition feed_complete (k : Z) : database -> database :=
  update_sync feed_name (fun s => SyncRow (Some today) (sync_total_records s + k) (bs "success") None).

Definition feed_partial (k : Z) : database -> database :=
  update_sync feed_name (fun s => SyncRow (sync_watermark s) (sync_total_records s + k) (bs "running") None).

Definition feed_sync_update (full_pull_complete : bool) (n : feed_counts) : database -> database :=
  let records_seen := feed_ingested n + feed_skipped n in
  if full_pull_complete then feed_complete records_seen else feed_partial records_seen.

(** The work between BEGIN and COMMIT; [false]: roll back. *)
Definition feed_body (elems : list json) (full_pull_complete : bool) (c : C) : bool * feed_counts * C :=
  let '(ok, c) := prepare_statements c in
  if negb ok then (false, feed_counts0, c) else
  let '(n, fatal, c) := record_loop (take (Z.to_nat max_records) elems) 0 feed_counts0 c in
  if fatal then (false, n, c) else
  let n := add_skipped (Z.of_nat (length (drop (Z.to_nat max_records) elems))) n in
  let '(rc, c) := sql_write (feed_sync_update full_pull_complete n) c in
  (bool_decide (rc = SQLITE_DONE), n, c).

(** [cytadel_kev_ingest], [cytadel_epss_ingest]; [db] and [out_counts] are
    given. *)
Definition feed_ingest (json_bytes : option bytes) (full_pull_complete : bool) (c : C) :
    ingest_status * feed_counts * C :=
  match json_bytes with
  | None => (INGEST_ERR_INVALID_ARG, feed_counts0, c)
  | Some json_bytes =>
      if max_bytes <? Z.of_nat (length json_bytes) then (INGEST_ERR_PARSE, feed_counts0, c) else
      match json_parse json_bytes with
      | None => (INGEST_ERR_PARSE, feed_counts0, c)
      | Some root =>
          if negb (is_object root) then (INGEST_ERR_PARSE, feed_counts0, c) else
          match json_array (json_item (Some root) array_key) with
          | None => (INGEST_ERR_PARSE, feed_counts0, c)
          | Some elems =>
              let '(ok, n, c) := transaction feed_counts0 (feed_body elems full_pull_complete) c in
              (if ok then INGEST_OK else INGEST_ERR_DB, n, c)
          end
      end
  end.

(** ** What an ingest writes *)

(** The records that can be read among the elements from the [i]-th on, with
    the clock read for each. *)
Fixpoint candidates (elems : list json) (i : nat) : list (bytes * option bytes * R) :=
  match elems with
  | [] => []
  | elem :: elems =>
      match (if is_object elem then read_record elem else None) with
      | Some (id, r) => (id, now i, r) :: candidates elems (S i)
      | None => candidates elems (S i)
      end
  end.

(** What became of a candidate: a constraint may turn down the placeholder, or
    the row after the placeholder was written. *)
Inductive verdict := TurnedDown | PlaceholderOnly | Stored.

Definition apply_record (d : database) (p : verdict * (bytes * option bytes * R)) : database :=
  let '(v, (id, ts, r)) := p in
  match v with
  | TurnedDown => d
  | PlaceholderOnly => cve_placeholder id (default [] ts) d
  | Stored => feed_upsert id r (cve_placeholder id (default [] ts) d)
  end.

Definition apply_records (d : database) (ps : list (verdict * (bytes * option bytes * R))) : database :=
  foldl apply_record d ps.

(** Every candidate is offered to the database, on the same connection and in
    their order: first the placeholder, which carries the time of a clock that
    could be read, then the row.  The verdicts are the answers: nothing is
    passed over that the database did not turn down. *)
Inductive records_offered : list (bytes * option bytes * R) -> list verdict -> C -> C -> Prop :=
  | offered_end c : records_offered [] [] c c
  | offered_turned_down id ts r cs vs c c1 c' :
      turned_down (cve_placeholder id ts) c c1 ->
      records_offered cs vs c1 c' -> records_offered ((id, Some ts, r) :: cs) (TurnedDown :: vs) c c'
  | offered_placeholder id ts r cs vs c c1 c2 c' :
      sql_write (cve_placeholder id ts) c = (SQLITE_DONE, c1) -> turned_down (feed_upsert id r) c1 c2 ->
      records_offered cs vs c2 c' -> records_offered ((id, Some ts, r) :: cs) (PlaceholderOnly :: vs) c c'
  | offered_stored id ts r cs vs c c1 c2 c' :
      sql_write (cve_placeholder id ts) c = (SQLITE_DONE, c1) -> sql_write (feed_upsert id r) c1 = (SQLITE_DONE, c2) ->
      records_offered cs vs c2 c' -> records_offered ((id, Some ts, r) :: cs) (Stored :: vs) c c'.

Definition stored (vs : list verdict) : Z :=
  Z.of_nat (length (List.filter (fun v => match v with Stored => true | _ => false end) vs)).

(** The elements of a document the feed accepts. *)
Definition feed_document (b : bytes) : option (list json) :=
  if max_bytes <? Z.of_nat (length b) then None else
  match json_parse b with
  | Some root => if is_object root then json_array (json_item (Some root) array_key) else None
  | None => None
  end.
End Ingest.

(** ** Effects inside the transaction *)

Section Effects.
Context {C R : Type} `{SqliteLaws C} `{Feed R}.
Variable json_parse : bytes -> option json.
Variable now : nat -> option bytes.
Variable today : bytes.

Lemma records_offered_app cs1 cs2 vs1 vs2 (c c1 c' : C) :
  records_offered cs1 vs1 c c1 -> records_offered cs2 vs2 c1 c' -> records_offered (cs1 ++ cs2) (vs1 ++ vs2) c c'.
Proof.
  induction 1; intros Hrest; cbn [app];
    [done|by eapply offered_turned_down; eauto|by eapply offered_placeholder; eauto|by eapply offered_stored; eauto].
Qed.

(** What a run over the elements from the [i]-th on did. *)
Definition records_written (elems : list json) (i : nat) (n n' : feed_counts) (c c' : C) : Prop :=
  in_tx c' = true /\
  exists vs, records_offered (candidates now elems i) vs c c' /\
    current c' = apply_records (current c) (zip vs (candidates now elems i)) /\
    feed_ingested n' = feed_ingested n + stored vs /\
    feed_skipped n' = feed_skipped n + (Z.of_nat (length elems) - stored vs).

Lemma skip_element elem elems i n n' (c c' : C) :
  (if is_object elem then read_record elem else None) = None ->
  records_written elems (S i) (add_skipped 1 n) n' c c' -> records_written (elem :: elems) i n n' c c'.
Proof.
  intros Hr (Ht & vs & Hl & Hc & Hi & Hs). split; [done|]. exists vs. cbn [candidates]. rewrite Hr.
  cbn [add_skipped feed_ingested feed_skipped length] in *. split_and!; try done; lia.
Qed.

(** One candidate, then the rest. *)
Lemma write_element v elem elems i id r n n1 n' (c c1 c' : C) :
  is_object elem = true -> read_record elem = Some (id, r) ->
  records_offered [(id, now i, r)] [v] c c1 ->
  current c1 = apply_record (current c) (v, (id, now i, r)) ->
  n1 = (match v with Stored => add_ingested n | _ => add_skipped 1 n end) ->
  records_written elems (S i) n1 n' c1 c' -> records_written (elem :: elems) i n n' c c'.
Proof.
  intros Ho Hr Hoff Hc1 -> (Ht & vs & Hl & Hc & Hi & Hs). split; [done|]. exists (v :: vs). cbn [candidates]. rewrite Ho, Hr.
  unfold apply_records in *. cbn [zip zip_with foldl length]. rewrite <- Hc1.
  unfold stored in *. split_and!; [exact (records_offered_app _ _ _ _ _ _ _ Hoff Hl)|done|..]; destruct v; cbn [List.filter length] in *;
    cbn [add_skipped add_ingested feed_ingested feed_skipped] in *; lia.
Qed.

Lemma write_record_effect id r i n n' fatal (c c' : C) :
  in_tx c = true -> write_record id r (now i) n c = (n', fatal, c') ->
  durable c' = durable c /\
  (fatal = false -> in_tx c' = true /\ exists v, records_offered [(id, now i, r)] [v] c c' /\
     current c' = apply_record (current c) (v, (id, now i, r)) /\
     n' = (match v with Stored => add_ingested n | _ => add_skipped 1 n end)).
Proof.
  intros Ht. unfold write_record. destruct (now i) as [ts|]; [|by intros [= <- <- <-]].
  assert (HT : forall c1, turned_down (cve_placeholder id ts) c c1 ->
    durable c1 = durable c /\ in_tx c1 = true /\ exists v, records_offered [(id, Some ts, r)] [v] c c1 /\
      current c1 = apply_record (current c) (v, (id, Some ts, r)) /\
      add_skipped 1 n = (match v with Stored => add_ingested n | _ => add_skipped 1 n end)).
  { intros c1 Htd. pose proof (turned_down_same _ _ _ Htd) as (Hd & Hc & Ht1). split; [done|]. split; [congruence|].
    exists TurnedDown. split; [by eapply offered_turned_down; [done|constructor]|done]. }
  destruct (sql_write (cve_placeholder id ts) c) as [[] c1] eqn:E1.
  - pose proof E1 as E0. apply write_done_tx in E1 as (Hc1 & Ht1 & Hd1); [|done].
    assert (HP : forall c2, turned_down (feed_upsert id r) c1 c2 ->
      durable c2 = durable c /\ in_tx c2 = true /\ exists v, records_offered [(id, Some ts, r)] [v] c c2 /\
        current c2 = apply_record (current c) (v, (id, Some ts, r)) /\
        add_skipped 1 n = (match v with Stored => add_ingested n | _ => add_skipped 1 n end)).
    { intros c2 Htd. pose proof (turned_down_same _ _ _ Htd) as (Hd & Hc & Ht2). split; [congruence|]. split; [congruence|].
      exists PlaceholderOnly. split; [by eapply offered_placeholder; [done..|constructor]|]. split; [|done]. cbn [apply_record]. by rewrite Hc, Hc1. }
    destruct (sql_write (feed_upsert id r) c1) as [[] c2] eqn:E2; intros [= <- <- <-].
    + pose proof E2 as E3. apply write_done_tx in E2 as (Hc2 & Ht2 & Hd2); [|done]. split; [congruence|]. intros _. split; [done|].
      exists Stored. split; [by eapply offered_stored; [done..|constructor]|]. cbn [apply_record]. by rewrite Hc2, Hc1.
    + destruct (HP c2 ltac:(by left)) as [? ?]. by split.
    + destruct (HP c2 ltac:(by right)) as [? ?]. by split.
    + apply write_failure, aborted_durable in E2. split; [congruence|done].
  - intros [= <- <- <-]. destruct (HT c1 ltac:(by left)) as [? ?]. by split.
  - intros [= <- <- <-]. destruct (HT c1 ltac:(by right)) as [? ?]. by split.
  - intros [= <- <- <-]. apply write_failure, aborted_durable in E1. done.
Qed.

Lemma record_loop_effect elems i n n' fatal (c c' : C) :
  in_tx c = true -> record_loop now elems i n c = (n', fatal, c') ->
  durable c' = durable c /\ (fatal = false -> records_written elems i n n' c c').
Proof.
  revert i n c; induction elems as [|elem elems IH]; intros i n c Ht; cbn [record_loop].
  { intros [= <- <- <-]. split; [done|]. intros _. split; [done|]. exists []. unfold stored. cbn. split_and!; (done || lia || constructor). }
  destruct (is_object elem) eqn:Ho; cbn [negb].
  - unfold process_one. destruct (read_record elem) as [[id r]|] eqn:Er.
    + destruct (write_record id r (now i) n c) as [[n1 f1] c1] eqn:E1.
      apply write_record_effect in E1 as [Hd1 HO1]; [|done]. destruct f1; [by intros [= <- <- <-]|].
      destruct (HO1 eq_refl) as (Ht1 & v & Hoff & Hc1 & Hn1). intros E. destruct (IH (S i) n1 c1 Ht1 E) as [Hd HO].
      split; [congruence|]. intros Hf. by eapply write_element, HO.
    + intros E. destruct (IH (S i) _ c Ht E) as [Hd HO]. split; [done|]. intros Hf.
      apply skip_element; [by rewrite Ho|by apply HO].
  - intros E. destruct (IH (S i) _ c Ht E) as [Hd HO]. split; [done|]. intros Hf.
    apply skip_element; [by rewrite Ho|by apply HO].
Qed.
End Effects.

(** ** The whole ingest *)

Section FeedIngest.
Context {C R : Type} `{SqliteLaws C} `{FeedLaws R}.
Variable json_parse : bytes -> option json.
Variable now : nat -> option bytes.
Variable today : bytes.

(** What a committed ingest of [elems] did to the database [d]: inside the
    transaction its candidates were offered one after the other. *)
Definition feed_result (elems : list json) (full : bool) (d d' : database) (n : feed_counts) : Prop :=
  let cs := candidates now (take (Z.to_nat max_records) elems) 0 in
  exists vs (c1 c2 : C), in_tx c1 = true /\ current c1 = d /\ records_offered cs vs c1 c2 /\
    d' = feed_sync_update today full n (apply_records d (zip vs cs)) /\
    feed_ingested n = stored vs /\ feed_skipped n = Z.of_nat (length elems) - stored vs.

Lemma feed_body_effect elems full n (c c' : C) ok :
  in_tx c = true -> feed_body now today elems full c = (ok, n, c') ->
  durable c' = durable c /\
  (ok = true -> in_tx c' = true /\ feed_result elems full (current c) (current c') n).
Proof.
  intros Ht. unfold feed_body.
  destruct (prepare_statements c) as [ok1 c1] eqn:E1. apply prepare_statements_effect in E1 as [Hd1 Hs1].
  destruct ok1; cbn [negb]; [|by intros [= <- <- <-]]. destruct (Hs1 eq_refl) as (_ & Hc1 & Ht1).
  destruct (record_loop _ _ _ _ _) as [[n1 fatal] c2] eqn:E2. apply record_loop_effect in E2 as [Hd2 HO2]; [|congruence].
  destruct fatal; [intros [= <- <- <-]; split; [congruence|done]|].
  destruct (HO2 eq_refl) as (Ht2 & vs & Hl & Hc2 & Hi & Hs).
  sql_step; intros [= <- <- <-]; (split; [congruence|]); try done.
  intros _. split; [done|]. exists vs, c1, c2. split; [congruence|]. split; [done|]. split; [done|]. split; [congruence|].
  simpl in *. rewrite length_take in Hs. rewrite length_drop. split; lia.
Qed.

Lemma feed_ingest_effect body full (c : C) :
  in_tx c = false ->
  let '(st, n, c') := feed_ingest json_parse now today body full c in
  (st <> INGEST_OK -> durable c' = durable c) /\
  (st = INGEST_OK ->
   exists b elems, body = Some b /\ feed_document json_parse b = Some elems /\ in_tx c' = false /\
     feed_result elems full (durable c) (durable c') n).
Proof.
  intros Ht. unfold feed_ingest, feed_document. destruct body as [b|]; [|done].
  destruct (max_bytes <? _) eqn:El; [done|].
  destruct (json_parse b) as [root|] eqn:Ej; [|done].
  destruct (is_object root) eqn:Eo; [|done]. cbn [negb].
  destruct (json_array _) as [elems|] eqn:Ev; [|done].
  pose proof (transaction_effect feed_counts0 (feed_body now today elems full)
    (fun n d d' => feed_result elems full d d' n) c Ht) as HT.
  destruct (transaction _ _ c) as [[ok n] c'].
  destruct HT as [HF HT]; [intros c1 ok1 n1 c2 Ht1; by apply feed_body_effect|].
  destruct ok; [split; [done|]|split; [by intros _; apply HF|done]]. intros _.
  destruct (HT eq_refl) as [Ht' HR]. exists b, elems. rewrite El, Ej, Eo. done.
Qed.

Lemma candidates_read elems i id ts r :
  (id, ts, r) ∈ candidates now elems i -> exists elem, elem ∈ elems /\ read_record elem = Some (id, r).
Proof.
  revert i; induction elems as [|elem elems IH]; intros i; cbn [candidates]; [by intros ?%elem_of_nil|].
  assert (Hrest : (id, ts, r) ∈ candidates now elems (S i) -> exists e, e ∈ elem :: elems /\ read_record e = Some (id, r)).
  { intros (e & ? & ?)%IH. exists e. split; [by right|done]. }
  destruct (is_object elem); [|done]. destruct (read_record elem) as [[id' r']|] eqn:Er; [|done].
  intros [E|?]%elem_of_cons; [|by apply Hrest]. simplify_eq. exists elem. split; [by left|done].
Qed.

(** The CVE rows stay, the new ones are placeholders of valid ids; nothing
    else changes but the feed tables. *)
Definition placeholders_added (d d' : database) : Prop :=
  (forall i x, db_cves d !! i = Some x -> db_cves d' !! i = Some x) /\
  (forall i x, db_cves d' !! i = Some x ->
     db_cves d !! i = Some x \/ (is_valid_cve_id i = true /\ cve_source x = bs "placeholder")) /\
  db_cpe d' = db_cpe d /\ db_scans d' = db_scans d /\ db_results d' = db_results d /\ db_sync d' = db_sync d.

Lemma placeholders_added_refl d : placeholders_added d d.
Proof. split_and!; auto. Qed.

Lemma placeholders_added_trans d1 d2 d3 :
  placeholders_added d1 d2 -> placeholders_added d2 d3 -> placeholders_added d1 d3.
Proof.
  intros (A1 & A2 & A3 & A4 & A5 & A6) (B1 & B2 & B3 & B4 & B5 & B6). split_and!; try congruence; [auto|].
  intros i x Hx. destruct (B2 i x Hx) as [Hy|]; [by apply A2|by right].
Qed.

Lemma placeholder_added id ts d : is_valid_cve_id id = true -> placeholders_added d (cve_placeholder id ts d).
Proof.
  intros Hv. unfold cve_placeholder. destruct (db_cves d !! id) as [x|] eqn:E; [apply placeholders_added_refl|].
  split_and!; try done; cbn [db_cves].
  - intros i x Hx. rewrite lookup_insert_ne; [done|congruence].
  - intros i x. destruct (decide (id = i)) as [<-|Hne]; [|rewrite lookup_insert_ne by done; auto].
    rewrite lookup_insert_eq. intros [= <-]. by right.
Qed.

Lemma apply_record_added d v id ts r :
  is_valid_cve_id id = true -> placeholders_added d (apply_record d (v, (id, ts, r))).
Proof.
  intros Hv. pose proof (placeholder_added id (default [] ts) d Hv) as HP.
  destruct v; cbn [apply_record]; [apply placeholders_added_refl|done|].
  destruct (upsert_only id r (cve_placeholder id (default [] ts) d)) as (E1 & E2 & E3 & E4 & E5).
  unfold placeholders_added. by rewrite E1, E2, E3, E4, E5.
Qed.

Lemma feeds_ok_placeholder id ts d : feeds_ok d -> feeds_ok (cve_placeholder id ts d).
Proof.
  unfold cve_placeholder. destruct (db_cves d !! id) eqn:E; [done|]. intros [Hk He].
  unfold feeds_ok. cbn [db_kev db_epss db_cves].
  split; intros i x Hx; [destruct (Hk i x Hx) as [? [y Hy]]|destruct (He i x Hx) as [? [y Hy]]]; (split; [done|]);
    rewrite lookup_insert_ne by congruence; by exists y.
Qed.

Lemma placeholder_is_there id ts d : is_Some (db_cves (cve_placeholder id ts d) !! id).
Proof.
  unfold cve_placeholder. destruct (db_cves d !! id) as [x|] eqn:E; [by exists x|]. cbn [db_cves].
  rewrite lookup_insert_eq. by eexists.
Qed.

Lemma apply_records_ok d ps :
  Forall (fun p => exists elem, read_record elem = Some (p.2.1.1, p.2.2)) ps ->
  placeholders_added d (apply_records d ps) /\ (feeds_ok d -> feeds_ok (apply_records d ps)).
Proof.
  intros Hps. revert d; induction Hps as [|[v [[id ts] r]] ps (elem & Hr) _ IH]; intros d; unfold apply_records; cbn [foldl].
  { split; [apply placeholders_added_refl|done]. }
  destruct (IH (apply_record d (v, (id, ts, r)))) as [Hadd Hkeep]. cbn [fst snd] in Hr.
  pose proof (read_record_id _ _ _ Hr) as Hv. split.
  - eapply placeholders_added_trans; [by apply apply_record_added|done].
  - intros Hd. apply Hkeep. destruct v; cbn [apply_record]; [done|by apply feeds_ok_placeholder|].
    eapply upsert_ok; [done|apply placeholder_is_there|by apply feeds_ok_placeholder].
Qed.

Lemma feed_result_ok elems full d d' n :
  feed_result elems full d d' n ->
  exists d1, d' = feed_sync_update today full n d1 /\ placeholders_added d d1 /\ (feeds_ok d -> feeds_ok d1) /\
    feed_ingested n + feed_skipped n = Z.of_nat (length elems).
Proof.
  intros (vs & c1 & c2 & _ & _ & _ & -> & Hi & Hs). eexists. split; [done|]. split_and!; [..|lia]; apply apply_records_ok.
  all: apply Forall_forall; intros [v [[id ts] r]] Hin; apply elem_of_zip_r, candidates_read in Hin as (elem & _ & Hr); by exists elem.
Qed.

Lemma feed_sync_update_lookup full n d feed :
  db_sync (feed_sync_update today full n d) !! feed =
  if bool_decide (feed = feed_name) then
    (fun s => SyncRow (if full then Some today else sync_watermark s) (sync_total_records s + (feed_ingested n + feed_skipped n))
                (bs (if full then "success" else "running")) None) <$> db_sync d !! feed
  else db_sync d !! feed.
Proof.
  unfold feed_sync_update, feed_complete, feed_partial, update_sync.
  case_bool_decide as E; [subst feed; destruct full; cbn [db_sync]; by rewrite lookup_alter_eq|].
  destruct full; cbn [db_sync]; by rewrite lookup_alter_ne.
Qed.

(** What callers use: no effect on a failure, and on success the sync state
    over a database that only gained placeholders and feed rows. *)
Lemma feed_ingest_step body full (c : C) :
  in_tx c = false ->
  let '(st, n, c') := feed_ingest json_parse now today body full c in
  (st <> INGEST_OK -> durable c' = durable c) /\
  (st = INGEST_OK ->
   in_tx c' = false /\
   exists b elems d1, body = Some b /\ feed_document json_parse b = Some elems /\
     durable c' = feed_sync_update today full n d1 /\ placeholders_added (durable c) d1 /\
     (feeds_ok (durable c) -> feeds_ok (durable c')) /\
     feed_ingested n + feed_skipped n = Z.of_nat (length elems)).
Proof.
  intros Ht. pose proof (feed_ingest_effect body full c Ht) as HE. destruct (feed_ingest _ _ _ _ _ _) as [[st n] c'].
  destruct HE as [HF HO]. split; [done|]. intros Hst. destruct (HO Hst) as (b & elems & Hb & Hdoc & Ht' & HR).
  destruct (feed_result_ok _ _ _ _ _ HR) as (d1 & -> & HA & Hok & Hn). split; [done|]. exists b, elems, d1.
  split_and!; try done. intros Hd. specialize (Hok Hd). by destruct full.
Qed.

(** C28: Ingesting a feed is all or nothing: unless the status is OK the
    database is what it was.  When it is OK, the document was within its size
    cap and an object holding the feed's array; every record among the first
    [max_records] elements that can be read was offered to the database, in
    their order, first the placeholder row of its CVE and, once that was
    taken, its upsert, and is left out only where the database turned that
    very statement down; what was committed is the rows it took and one update
    of the feed's sync state that counts every element of the array once, as
    ingested or as skipped. *)
Theorem feed_ingest_refines body full (c : C) :
  in_tx c = false ->
  let '(st, n, c') := feed_ingest json_parse now today body full c in
  (st <> INGEST_OK -> durable c' = durable c) /\
  (st = INGEST_OK ->
   exists b elems, body = Some b /\ feed_document json_parse b = Some elems /\ in_tx c' = false /\
     feed_result elems full (durable c) (durable c') n /\
     feed_ingested n + feed_skipped n = Z.of_nat (length elems)).
Proof.
  intros Ht. pose proof (feed_ingest_effect body full c Ht) as HE. destruct (feed_ingest _ _ _ _ _ _) as [[st n] c'].
  destruct HE as [HF HO]. split; [done|]. intros Hst. destruct (HO Hst) as (b & elems & Hb & Hdoc & Ht' & HR).
  exists b, elems. destruct (feed_result_ok _ _ _ _ _ HR) as (d1 & _ & _ & _ & Hn). done.
Qed.

(** C32: What no feed can do, whatever the document: it never breaks a foreign
    key or a CHECK of the KEV and EPSS tables (scores and percentiles are
    finite and between 0 and 1), never changes or removes a CVE row that is
    there, adds none but placeholders of well-formed ids, and touches neither
    CPE rows, scans and results nor the sync state of another feed; its own
    watermark moves, to today, only when a complete pull was committed. *)
Theorem feed_ingest_safe body full (c : C) :
  in_tx c = false ->
  let '(st, n, c') := feed_ingest json_parse now today body full c in
  (feeds_ok (durable c) -> feeds_ok (durable c')) /\
  (forall id x, db_cves (durable c) !! id = Some x -> db_cves (durable c') !! id = Some x) /\
  (forall id x, db_cves (durable c') !! id = Some x ->
     db_cves (durable c) !! id = Some x \/ (is_valid_cve_id id = true /\ cve_source x = bs "placeholder")) /\
  db_cpe (durable c') = db_cpe (durable c) /\ db_scans (durable c') = db_scans (durable c) /\
  db_results (durable c') = db_results (durable c) /\
  (forall feed, feed <> feed_name -> db_sync (durable c') !! feed = db_sync (durable c) !! feed) /\
  sync_watermark <$> db_sync (durable c') !! feed_name =
    (if bool_decide (st = INGEST_OK) && full then (fun _ => Some today) <$> db_sync (durable c) !! feed_name
     else sync_watermark <$> db_sync (durable c) !! feed_name).
Proof.
  intros Ht. pose proof (feed_ingest_step body full c Ht) as HE. destruct (feed_ingest _ _ _ _ _ _) as [[st n] c'].
  destruct HE as [HF HO]. case_bool_decide as Hst; cbn [andb]; [|rewrite (HF Hst); split_and!; auto].
  destruct (HO Hst) as (_ & b & elems & d1 & _ & _ & Hd & HA & Hok & _). split; [done|]. rewrite Hd.
  destruct HA as (A1 & A2 & A3 & A4 & A5 & A6).
  assert (HU : let d' := feed_sync_update today full n d1 in db_cves d' = db_cves d1 /\ db_cpe d' = db_cpe d1 /\
    db_scans d' = db_scans d1 /\ db_results d' = db_results d1) by by destruct full.
  destruct HU as (E1 & E2 & E3 & E4). rewrite E1, E2, E3, E4. split_and!; try done.
  - intros feed Hne. rewrite feed_sync_update_lookup, bool_decide_eq_false_2 by done. by rewrite A6.
  - rewrite feed_sync_update_lookup, bool_decide_eq_true_2, A6 by done.
    destruct full; by destruct (db_sync (durable c) !! feed_name).
Qed.
End FeedIngest.
