(* ===== verification/KevIngest.v ===== *)
(** * The CISA KEV catalogue ([src/src/db/kev_ingest.c])

    The fields of a KEV record and its upsert: an instance of [Feed]. *)

From S2P Require Import Prelude CveId Json Sqlite ScanPersist NvdIngest Feed.

Definition KEV_MAX_BYTES : Z := 64 * 1024 * 1024.
Definition KEV_MAX_RECORDS : Z := 100000.
Definition KEV_DATE_BUF_LEN : Z := 32 + 1.
Definition KEV_VENDOR_PRODUCT_BUF_LEN : Z := 256 + 1.
Definition KEV_NAME_BUF_LEN : Z := 512 + 1.
Definition KEV_ACTION_BUF_LEN : Z := 2048 + 1.
Definition KEV_NOTES_MAX_LEN : Z := 4096.
Definition KEV_NOTES_BUF_LEN : Z := KEV_NOTES_MAX_LEN + 1.

(** A member that must be a non-empty string, and one that may be. *)
Definition text_field (elem : json) (key : string) (buf_len : Z) : option bytes :=
  clip_into buf_len <$> nonempty (json_get_string (Some elem) key).

(** The reading part of [process_one_kev]. *)
Definition read_kev (elem : json) : option (bytes * kev_row) :=
  match read_cve_id elem "cveID" with
  | None => None
  | Some cve_id =>
      match text_field elem "dateAdded" KEV_DATE_BUF_LEN with
      | None => None
      | Some date_added =>
          match text_field elem "vendorProject" KEV_VENDOR_PRODUCT_BUF_LEN with
          | None => None
          | Some vendor_project =>
              match text_field elem "product" KEV_VENDOR_PRODUCT_BUF_LEN with
              | None => None
              | Some product =>
                  match text_field elem "vulnerabilityName" KEV_NAME_BUF_LEN with
                  | None => None
                  | Some vulnerability_name =>
                      let known_ransomware :=
                        bool_decide (json_get_string (Some elem) "knownRansomwareCampaignUse" = Some (bs "Known")) in
                      Some (cve_id,
                        KevRow date_added vendor_project product vulnerability_name
                          (text_field elem "requiredAction" KEV_ACTION_BUF_LEN)
                          (text_field elem "dueDate" KEV_DATE_BUF_LEN)
                          (if known_ransomware then 1 else 0)
                          (text_field elem "notes" KEV_NOTES_BUF_LEN))
                  end
              end
          end
      end
  end.

(** [CYTADEL_KEV_UPSERT_SQL]: a conflict keeps the vendor, the product and the
    name. *)
Definition kev_upserted (old : option kev_row) (r : kev_row) : kev_row :=
  match old with
  | None => r
  | Some old =>
      KevRow (kev_date_added r) (kev_vendor_project old) (kev_product old) (kev_vulnerability_name old)
        (kev_required_action r) (kev_due_date r) (kev_known_ransomware r) (kev_notes r)
  end.

Definition kev_upsert (id : bytes) (r : kev_row) (d : database) : database :=
  Database (db_cves d) (db_cpe d) (partial_alter (fun old => Some (kev_upserted old r)) id (db_kev d))
    (db_epss d) (db_scans d) (db_results d) (db_sync d) (db_schema d).

#[export] Instance kev_feed : Feed kev_row := {
  max_bytes := KEV_MAX_BYTES;
  max_records := KEV_MAX_RECORDS;
  array_key := "vulnerabilities";
  feed_name := bs "kev";
  read_record := read_kev;
  feed_upsert := kev_upsert
}.

Definition process_one_kev {C : Type} `{Sqlite C} : json -> option bytes -> feed_counts -> C -> feed_counts * bool * C :=
  process_one (R := kev_row).

(** [cytadel_kev_ingest] *)
Definition kev_ingest {C : Type} `{Sqlite C} :=
  feed_ingest (C := C) (R := kev_row).

(** ** The laws of the feed *)

Lemma clip_nonempty buf_len s x : 2 <= buf_len -> nonempty s = Some x -> clip_into buf_len x <> [].
Proof.
  intros Hb Hs. unfold clip_into. replace (Z.to_nat (buf_len - 1)) with (S (Z.to_nat (buf_len - 2))) by lia.
  destruct s as [[|c s]|]; [done| |done]. by injection Hs as <-.
Qed.

Lemma text_field_nonempty elem key buf_len x : 2 <= buf_len -> text_field elem key buf_len = Some x -> x <> [].
Proof.
  unfold text_field. intros Hb. destruct (nonempty _) as [s|] eqn:E; [|done]. intros [= <-]. by eapply clip_nonempty.
Qed.

Lemma read_cve_id_valid elem key id : read_cve_id elem key = Some id -> is_valid_cve_id id = true.
Proof.
  unfold read_cve_id. destruct (nonempty _) as [s|]; [|done]. destruct (FEED_CVE_ID_MAX_LEN <? _) eqn:Hl; [done|].
  destruct (is_valid_cve_id s) eqn:Hv; [|done]. cbn [orb negb]. intros [= <-].
  unfold clip_into. rewrite take_ge; [done|]. breflect. unfold FEED_CVE_ID_MAX_LEN in *. lia.
Qed.

Lemma read_kev_ok elem id r :
  read_kev elem = Some (id, r) -> is_valid_cve_id id = true /\ kev_row_ok r.
Proof.
  unfold read_kev. destruct (read_cve_id _ _) as [i|] eqn:Ei; [|done].
  destruct (text_field elem "dateAdded" _) as [a|] eqn:Ea; [|done].
  destruct (text_field elem "vendorProject" _) as [v|] eqn:Ev; [|done].
  destruct (text_field elem "product" _) as [p|] eqn:Ep; [|done].
  destruct (text_field elem "vulnerabilityName" _) as [n|] eqn:En; [|done]. intros [= <- <-].
  split; [by eapply read_cve_id_valid|]. unfold kev_row_ok.
  cbn [kev_date_added kev_vendor_project kev_product kev_vulnerability_name kev_known_ransomware].
  split_and!; [..|case_bool_decide; auto]; (eapply text_field_nonempty; [|eassumption]; done).
Qed.

#[export] Instance kev_feed_laws : FeedLaws kev_row.
Proof.
  split.
  - done.
  - intros elem id r Hr. by apply read_kev_ok in Hr as [? _].
  - intros id r d. by split_and!.
  - intros elem id r d Hr Hs [Hk He]. apply read_kev_ok in Hr as [_ Hok]. split; [|done].
    intros i x. cbn [feed_upsert kev_feed kev_upsert db_kev db_cves]. destruct (decide (id = i)) as [<-|Hne].
    + rewrite lookup_partial_alter_eq. intros [= <-]. split; [|done].
      destruct (db_kev d !! id) as [old|] eqn:Eo; [|done]. destruct (Hk id old Eo) as [(_ & ? & ? & ? & _) _].
      destruct Hok as (? & _ & _ & _ & ?). by split_and!.
    + rewrite lookup_partial_alter_ne by done. apply Hk.
Qed.

(** ** Examples *)

Definition example_kev (id name : string) : json :=
  JObject [(bs "cveID", JString (bs id)); (bs "dateAdded", JString (bs "2021-12-10"));
    (bs "vendorProject", JString (bs "Apache")); (bs "product", JString (bs "Log4j2"));
    (bs "vulnerabilityName", JString (bs name)); (bs "knownRansomwareCampaignUse", JString (bs "Known"))].

(** A parser that knows one document, whose second record has no valid id. *)
Definition example_catalogue (b : bytes) : option json :=
  Some (JObject [(bs "vulnerabilities",
    JArray [example_kev "CVE-2021-44228" "Log4Shell"; example_kev "CVE-2021" "bad"; JNull])]).

Definition feed_db (feed : string) : database :=
  Database ∅ [] ∅ ∅ [] [] {[bs feed := SyncRow None 0 (bs "idle") None]} (Schema ∅ ∅ []).

Definition example_now (i : nat) : option bytes := Some (bs "2022-01-01T00:00:00.000Z").

Lemma feed_ingest_refines_witness :
  exists c', kev_ingest example_catalogue example_now (bs "2022-01-01") (Some [123; 125]) true
      (ToyConn (feed_db "kev") None []) = (INGEST_OK, FeedCounts 1 2, c') /\
    exists elems, feed_result (C := toy_conn) example_now (bs "2022-01-01") elems true (feed_db "kev") (durable c') (FeedCounts 1 2) /\
      length elems = 3%nat.
Proof.
  pose proof (feed_ingest_refines (C := toy_conn) (R := kev_row) example_catalogue example_now (bs "2022-01-01")
    (Some [123; 125]) true (ToyConn (feed_db "kev") None []) eq_refl) as HR.
  unfold kev_ingest. destruct (feed_ingest _ _ _ _ _ _) as [[st n] c'] eqn:E.
  assert (st = INGEST_OK) as -> by (vm_compute in E; by injection E as <- _ _).
  assert (n = FeedCounts 1 2) as -> by (vm_compute in E; by injection E as <- _).
  exists c'. split; [done|]. destruct (proj2 HR eq_refl) as (b & elems & Hb & Hdoc & _ & Hres & _).
  exists elems. split; [exact Hres|]. injection Hb as <-. vm_compute in Hdoc. by injection Hdoc as <-.
Defined.
