(* ===== verification/Strtod.v ===== *)
(** * [strtod]

    The C library's conversion of text to [double], in the C locale, rounding
    to nearest with ties to even: decimal and hexadecimal numbers, infinities
    and NaNs.  The program calls it on the probabilities of the EPSS feed. *)

From S2P Require Import Prelude CveId.

(** ** Rounding *)

(** The positive rational [num / den] times a power of two. *)
Definition scale (num den e : Z) : Z * Z :=
  if 0 <=? e then (num * 2 ^ e, den) else (num, den * 2 ^ (- e)).

(** [floor (log2 (num / den))] *)
Definition log2_ratio (num den : Z) : Z :=
  let l := Z.log2 num - Z.log2 den in
  let '(n, d) := scale num den (- l) in
  if d <=? n then l else l - 1.

(** The nearest multiple of 2^[e], an even one when two are as near. *)
Definition round_at (num den e : Z) : Z :=
  let '(n, d) := scale num den (- e) in
  let q := n / d in
  let r := n mod d in
  if (d <? 2 * r) || ((2 * r =? d) && Z.odd q) then q + 1 else q.

(** The exponent of the last place of a double near [num / den]. *)
Definition ulp_exponent (num den : Z) : Z := Z.max (-1074) (log2_ratio num den - 52).

(** The nearest double of a positive rational, with [errno = ERANGE]. *)
Definition round_double (num den : Z) : double * bool :=
  let e := ulp_exponent num den in
  let m := round_at num den e in
  if (971 <? e) || ((e =? 971) && (2 ^ 53 <=? m)) then (Infinite false, true) else
  let '(n, d) := scale num den (- e) in
  (Dyadic m e, (log2_ratio num den <? -1022) && negb (n mod d =? 0)).

Definition negate (negative : bool) (v : double) : double :=
  if negative then match v with Dyadic m e => Dyadic (- m) e | Infinite n => Infinite (negb n) | NaN => NaN end else v.

(** ** The subject sequence *)

Definition lower (c : byte) : byte := if (65 <=? c) && (c <=? 90) then c + 32 else c.

Definition hex_value (c : byte) : option Z :=
  let c := lower c in
  if is_digit c then Some (c - 48) else if (97 <=? c) && (c <=? 102) then Some (c - 87) else None.

Definition dec_value (c : byte) : option Z := if is_digit c then Some (c - 48) else None.

(** The digits at the head of [s] in base [b], onto [acc]: the value, their
    number and the rest. *)
Fixpoint digits (value : byte -> option Z) (b : Z) (s : bytes) (acc : Z) (count : nat) : Z * nat * bytes :=
  match s with
  | c :: s' =>
      match value c with
      | Some v => digits value b s' (acc * b + v) (S count)
      | None => (acc, count, s)
      end
  | [] => (acc, count, [])
  end.

(** The integer part, a point and the fraction: the digits read as one
    integer, how many there are and how many of them follow the point. *)
Definition mantissa (value : byte -> option Z) (b : Z) (s : bytes) : Z * nat * nat * bytes :=
  let '(i, ni, s) := digits value b s 0 0 in
  match s with
  | 46 :: s' =>
      let '(f, nf, s'') := digits value b s' i 0 in
      if Nat.eqb (ni + nf) 0 then (0, 0%nat, 0%nat, s) else (f, (ni + nf)%nat, nf, s'')
  | _ => (i, ni, 0%nat, s)
  end.

(** The sign at the head of [s]. *)
Definition sign (s : bytes) : bool * bytes :=
  match s with 45 :: s => (true, s) | 43 :: s => (false, s) | _ => (false, s) end.

(** An exponent introduced by [marker]; none is there unless a digit follows. *)
Definition exponent (marker : byte) (s : bytes) : Z * bytes :=
  match s with
  | c :: s' =>
      if lower c =? marker then
        let '(negative, s'') := sign s' in
        let '(x, n, rest) := digits dec_value 10 s'' 0 0 in
        if Nat.eqb n 0 then (0, s) else (if negative then - x else x, rest)
      else (0, s)
  | [] => (0, [])
  end.

(** [m * b^x]; far outside the range of a double the power is not computed. *)
Definition convert (m b x : Z) (count : nat) : double * bool :=
  if m =? 0 then (Dyadic 0 0, false)
  else if 5000 <? x then (Infinite false, true)
  else if x <? - (5000 + 4 * Z.of_nat count) then (Dyadic 0 0, true)
  else if 0 <=? x then round_double (m * b ^ x) 1
  else round_double m (b ^ (- x)).

(** The literal word at the head of [s], case ignored. *)
Fixpoint word (w s : bytes) : option bytes :=
  match w, s with
  | [], _ => Some s
  | a :: w, c :: s => if lower c =? a then word w s else None
  | _, [] => None
  end.

(** The parenthesised part of a NaN. *)
Definition nan_payload (s : bytes) : bytes :=
  match s with
  | 40 :: s' =>
      match drop_while (fun c => is_digit c || ((97 <=? lower c) && (lower c <=? 122)) || (c =? 95)) s' with
      | 41 :: rest => rest
      | _ => s
      end
  | _ => s
  end.

(** The value, what follows it and whether [errno] is set; [None] when there
    is no conversion ([endptr] is the start). *)
Definition strtod (s : bytes) : option (double * bytes * bool) :=
  let '(negative, s) := sign (drop_while is_space s) in
  let finish '((v, erange), rest) := Some (negate negative v, rest, erange) in
  match word (bs "infinity") s, word (bs "inf") s, word (bs "nan") s with
  | Some rest, _, _ | None, Some rest, _ => Some (Infinite negative, rest, false)
  | None, None, Some rest => Some (NaN, nan_payload rest, false)
  | None, None, None =>
      let hex :=
        match word (bs "0x") s with
        | Some s' =>
            let '(m, n, nf, rest) := mantissa hex_value 16 s' in
            if Nat.eqb n 0 then None else
            let '(x, rest) := exponent 112 rest in
            Some (convert m 2 (x - 4 * Z.of_nat nf) n, rest)
        | None => None
        end in
      match hex with
      | Some r => finish r
      | None =>
          let '(m, n, nf, rest) := mantissa dec_value 10 s in
          if Nat.eqb n 0 then None else
          let '(x, rest) := exponent 101 rest in
          finish (convert m 10 (x - Z.of_nat nf) n, rest)
      end
  end.

Example strtod_examples :
  map (fun s => strtod (bs s)) ["0.5"; " -1e2x"; "0x1p-1"; "1e999"; "0x"; "nan(1)!"; "-.Inf"; "4e-324"]%string =
  [Some (Dyadic 4503599627370496 (-53), [], false); Some (Dyadic (-7036874417766400) (-46), [120], false);
   Some (Dyadic 4503599627370496 (-53), [], false); Some (Infinite false, [], true); Some (Dyadic 0 0, [120], false);
   Some (NaN, [33], false); None; Some (Dyadic 1 (-1074), [], true)].
Proof. vm_compute. reflexivity. Qed.

(** ** Lemmas *)

Lemma scale_pos num den e : 0 < num -> 0 < den -> let '(n, d) := scale num den e in 0 < n /\ 0 < d.
Proof.
  intros Hn Hd. unfold scale. destruct (Z.leb_spec 0 e).
  - split; [apply Z.mul_pos_pos; [done|apply Z.pow_pos_nonneg; lia]|done].
  - split; [done|apply Z.mul_pos_pos; [done|apply Z.pow_pos_nonneg; lia]].
Qed.

(** Scaling further multiplies the ratio. *)
Lemma scale_add num den a b n d n' d' :
  0 <= b -> scale num den a = (n, d) -> scale num den (a + b) = (n', d') -> n' * d = n * 2 ^ b * d'.
Proof.
  intros Hb. unfold scale. destruct (Z.leb_spec 0 a), (Z.leb_spec 0 (a + b)); intros [= <- <-] [= <- <-].
  - rewrite Z.pow_add_r by lia. ring.
  - lia.
  - assert (2 ^ b = 2 ^ (a + b) * 2 ^ (- a)) as -> by (rewrite <- Z.pow_add_r by lia; f_equal; lia). ring.
  - assert (2 ^ (- a) = 2 ^ b * 2 ^ (- (a + b))) as -> by (rewrite <- Z.pow_add_r by lia; f_equal; lia). ring.
Qed.

(** The nearest integer, halves to even. *)
Lemma round_at_spec num den e n d :
  scale num den (- e) = (n, d) -> 0 < d ->
  2 * Z.abs (round_at num den e * d - n) <= d /\
  (forall c, Z.even c = true -> (round_at num den e <= c <-> 2 * n <= (2 * c + 1) * d)).
Proof.
  intros E Hd. unfold round_at. rewrite E.
  pose proof (Z.div_mod n d ltac:(lia)) as Hdiv. pose proof (Z.mod_pos_bound n d Hd) as Hm.
  set (q := n / d) in *. set (r := n mod d) in *.
  destruct (Z.ltb_spec d (2 * r)); cbn [orb]; [|destruct (Z.eqb_spec (2 * r) d) as [Eh|]; cbn [andb]; [destruct (Z.odd q) eqn:Eo|]].
  - split; [lia|]. intros c _. split; nia.
  - split; [lia|]. intros c Hc. split; [nia|]. intros Hle. assert (q <= c) as [?|Eq]%Z.le_lteq by nia; [lia|].
    rewrite <- Z.negb_odd, <- Eq, Eo in Hc. done.
  - split; [lia|]. intros c _. split; nia.
  - split; [lia|]. intros c _. split; nia.
Qed.

Lemma log2_ratio_spec num den n d :
  0 < num -> 0 < den -> scale num den (- log2_ratio num den) = (n, d) -> d <= n < 2 * d.
Proof.
  intros Hn Hd. unfold log2_ratio. set (l := Z.log2 num - Z.log2 den).
  destruct (scale num den (- l)) as [n0 d0] eqn:E0.
  pose proof (Z.log2_spec num Hn) as HN. pose proof (Z.log2_spec den Hd) as HD.
  pose proof (Z.log2_nonneg num). pose proof (Z.log2_nonneg den).
  assert (Hb : d0 < 2 * n0 /\ n0 < 2 * d0).
  { unfold scale in E0. destruct (Z.leb_spec 0 (- l)); injection E0 as <- <-.
    - replace (Z.succ (Z.log2 den)) with (Z.log2 num + - l + 1) in HD by lia.
      replace (Z.log2 den) with (Z.log2 num + - l) in HD by lia. unfold Z.succ in HN.
      rewrite !Z.pow_add_r in * by lia. pose proof (Z.pow_pos_nonneg 2 (- l) ltac:(lia) ltac:(lia)). nia.
    - rewrite Z.opp_involutive. replace (Z.succ (Z.log2 num)) with (Z.log2 den + l + 1) in HN by lia.
      replace (Z.log2 num) with (Z.log2 den + l) in HN by lia. unfold Z.succ in HD.
      rewrite !Z.pow_add_r in * by lia. pose proof (Z.pow_pos_nonneg 2 l ltac:(lia) ltac:(lia)). nia. }
  destruct (Z.leb_spec d0 n0).
  - rewrite E0. intros [= <- <-]. lia.
  - intros E. replace (- (l - 1)) with (- l + 1) in E by lia.
    pose proof (scale_add _ _ _ 1 _ _ _ _ ltac:(lia) E0 E) as HS.
    pose proof (scale_pos num den (- l) Hn Hd) as HP. rewrite E0 in HP.
    pose proof (scale_pos num den (- l + 1) Hn Hd) as HP'. rewrite E in HP'. rewrite Z.pow_1_r in HS. nia.
Qed.

(** In the range of normal doubles the last place is the 53rd significant
    one. *)
Lemma round_double_normal num den :
  0 < num -> 0 < den -> -1022 <= log2_ratio num den <= 900 ->
  let e := log2_ratio num den - 52 in
  round_double num den = (Dyadic (round_at num den e) e, false) /\
  2 ^ 52 <= round_at num den e <= 2 ^ 53.
Proof.
  intros Hn Hd Hl e. unfold round_double, ulp_exponent. rewrite Z.max_r by lia. fold e.
  rewrite (proj2 (Z.ltb_ge 971 e)), (proj2 (Z.eqb_neq e 971)) by lia. cbn [orb andb].
  destruct (scale num den (- e)) as [n d] eqn:E. rewrite (proj2 (Z.ltb_ge (log2_ratio num den) (-1022))) by lia.
  split; [done|]. destruct (scale num den (- log2_ratio num den)) as [n0 d0] eqn:E0.
  pose proof (log2_ratio_spec num den n0 d0 Hn Hd E0) as HL.
  replace (- e) with (- log2_ratio num den + 52) in E by lia.
  pose proof (scale_add _ _ _ 52 _ _ _ _ ltac:(lia) E0 E) as HS.
  pose proof (scale_pos num den (- log2_ratio num den) Hn Hd) as HP0. rewrite E0 in HP0.
  pose proof (scale_pos num den (- log2_ratio num den + 52) Hn Hd) as HP. rewrite E in HP.
  assert (Hb : 2 ^ 52 * d <= n < 2 ^ 53 * d) by (change (2 ^ 53) with (2 * 2 ^ 52); nia).
  replace (- log2_ratio num den + 52) with (- e) in E by lia.
  destruct (round_at_spec num den e n d E ltac:(lia)) as [Habs Hround]. split.
  - destruct (Z.le_gt_cases (2 ^ 52) (round_at num den e)) as [|Hlt]; [done|exfalso]. nia.
  - apply (Hround (2 ^ 53) eq_refl). nia.
Qed.

Lemma digits_app l rest acc count :
  forallb is_digit l = true -> match rest with c :: _ => is_digit c = false | [] => True end ->
  digits dec_value 10 (l ++ rest) acc count = (foldl (fun v c => v * 10 + (c - 48)) acc l, (count + length l)%nat, rest).
Proof.
  revert acc count; induction l as [|c l IH]; intros acc count Hl Hr; cbn [app digits foldl length].
  - rewrite Nat.add_0_r. destruct rest as [|c rest]; [done|]. cbn [digits]. unfold dec_value. by rewrite Hr.
  - cbn [forallb] in Hl. apply andb_prop in Hl as [Hc Hl]. unfold dec_value at 1. rewrite Hc, IH by done.
    by rewrite <- Nat.add_succ_comm.
Qed.

Lemma digit_word w c s : is_digit c = true -> match w with a :: _ => is_digit a = false | [] => False end -> word w (c :: s) = None.
Proof.
  destruct w as [|a w]; [done|]. intros Hc Ha. cbn [word]. unfold lower, is_digit in *.
  rewrite (proj2 (andb_false_iff (65 <=? c) (c <=? 90))) by (left; zbool). destruct (Z.eqb_spec c a) as [->|]; [by rewrite Hc in Ha|done].
Qed.

(** A number written with digits and a point. *)
Lemma strtod_decimal ip fp :
  forallb is_digit ip = true -> forallb is_digit fp = true -> (1 <= length ip)%nat ->
  strtod (ip ++ 46 :: fp) =
    let '(v, erange) := convert (foldl (fun v c => v * 10 + (c - 48)) 0 (ip ++ fp)) 10 (- Z.of_nat (length fp)) (length ip + length fp) in
    Some (v, [], erange).
Proof.
  intros Hi Hf H1. destruct ip as [|c ip]; [cbn in H1; lia|]. cbn [forallb] in Hi. apply andb_prop in Hi as [Hc Hi].
  unfold strtod. cbn [app].
  assert (Hsp : drop_while is_space (c :: ip ++ 46 :: fp) = c :: ip ++ 46 :: fp).
  { cbn [drop_while]. assert (is_space c = false) as ->; [|done]. unfold is_space, is_digit in *. breflect.
    destruct (Z.eqb_spec c 32); [lia|]. rewrite (proj2 (Z.leb_gt c 13)) by lia. by rewrite andb_false_r. }
  rewrite Hsp. assert (Hsg : sign (c :: ip ++ 46 :: fp) = (false, c :: ip ++ 46 :: fp)).
  { assert (Hr : 48 <= c <= 57) by (unfold is_digit in Hc; zbool).
    assert (HP : exists p, c = Z.pos p) by (destruct c; [lia|by eexists|lia]). destruct HP as [p ->].
    unfold sign. do 6 (destruct p as [p|p|]; try (exfalso; lia); try reflexivity). }
  rewrite Hsg. rewrite !(digit_word _ c) by done.
  assert (Hx : word (bs "0x") (c :: ip ++ 46 :: fp) = None).
  { change (bs "0x") with [48; 120]. cbn [word]. destruct (lower c =? 48); [|done].
    destruct ip as [|d ip]; cbn [app word]; [done|]. cbn [forallb] in Hi. apply andb_prop in Hi as [Hd _].
    unfold lower, is_digit in *. rewrite (proj2 (andb_false_iff (65 <=? d) (d <=? 90))) by (left; zbool).
    destruct (Z.eqb_spec d 120) as [->|]; [by cbn in Hd|done]. }
  rewrite Hx. unfold mantissa. change (c :: ip ++ 46 :: fp) with ((c :: ip) ++ 46 :: fp).
  rewrite digits_app by (try done; cbn [forallb]; by rewrite Hc). cbn [Nat.add].
  rewrite <- (app_nil_r fp) at 1. rewrite digits_app by done. cbn [Nat.add].
  replace (Nat.eqb (length (c :: ip) + length fp) 0) with false by done. cbn [exponent].
  rewrite (app_comm_cons ip fp c), foldl_app. by destruct (convert _ _ _ _).
Qed.
