(* ===== verification/Calendar.v ===== *)
(** * Calendar instants ([src/src/db/nvd_catchup.c])

    The civil-calendar conversion, the parser and the printer of ISO-8601
    instants, and an independent definition of the Gregorian calendar they
    are checked against.  C's [/] and [%] are [Z.quot] and [Z.rem]. *)

From S2P Require Import Prelude CveId.

(** Tells [lia] about quotients and remainders. *)
Ltac Zify.zify_post_hook ::= Z.to_euclidean_division_equations.

Definition CATCHUP_TS_MAX_LEN : Z := 40.

Definition days_from_civil (y m d : Z) : Z :=
  let y := y - (if m <=? 2 then 1 else 0) in
  let era := Z.quot (if 0 <=? y then y else y - 399) 400 in
  let yoe := y - era * 400 in
  let doy := Z.quot (153 * (m + (if 2 <? m then -3 else 9)) + 2) 5 + d - 1 in
  let doe := yoe * 365 + Z.quot yoe 4 - Z.quot yoe 100 + doy in
  era * 146097 + doe - 719468.

Definition civil_from_days (z : Z) : Z * Z * Z :=
  let z := z + 719468 in
  let era := Z.quot (if 0 <=? z then z else z - 146096) 146097 in
  let doe := z - era * 146097 in
  let yoe := Z.quot (doe - Z.quot doe 1460 + Z.quot doe 36524 - Z.quot doe 146096) 365 in
  let yy := yoe + era * 400 in
  let doy := doe - (365 * yoe + Z.quot yoe 4 - Z.quot yoe 100) in
  let mp := Z.quot (5 * doy + 2) 153 in
  let dd := doy - Z.quot (153 * mp + 2) 5 + 1 in
  let mm := mp + (if mp <? 10 then 3 else -9) in
  (yy + (if mm <=? 2 then 1 else 0), mm, dd).

Definition is_valid_ymd (y m d : Z) : bool :=
  if (m <? 1) || (12 <? m) || (d <? 1) || (31 <? d) then false
  else
    let '(y2, m2, d2) := civil_from_days (days_from_civil y m d) in
    (y2 =? y) && (m2 =? m) && (d2 =? d).

(** [cytadel_instant_t] *)
Record instant := Instant { days : Z; ms_of_day : Z }.

Definition instant_compare (a b : instant) : Z :=
  if negb (days a =? days b) then (if days a <? days b then -1 else 1)
  else if negb (ms_of_day a =? ms_of_day b) then (if ms_of_day a <? ms_of_day b then -1 else 1)
  else 0.

Definition instant_add_days (i : instant) (n : Z) : instant := Instant (days i + n) (ms_of_day i).

(** ** Parsing

    The position in the string is the rest of it. *)

Fixpoint read_digits_loop (s : bytes) (n : nat) (val : Z) {struct n} : option (Z * bytes) :=
  match n, s with
  | O, _ => Some (val, s)
  | S n, c :: s => if is_digit c then read_digits_loop s n (val * 10 + (c - 48)) else None
  | S _, [] => None
  end.

Definition read_digits (s : bytes) (n : nat) : option (Z * bytes) :=
  if Z.of_nat (length s) <? Z.of_nat n then None else read_digits_loop s n 0.

(** One expected byte. *)
Definition expect (f : byte -> bool) (s : bytes) : option bytes :=
  match s with c :: s => if f c then Some s else None | [] => None end.

(** The fraction loop: digits seen, value of the first nine. *)
Fixpoint frac_loop (s : bytes) (frac_digits frac_val : Z) : Z * Z * bytes :=
  match s with
  | c :: s' =>
      if is_digit c
      then frac_loop s' (frac_digits + 1) (if frac_digits <? 9 then frac_val * 10 + (c - 48) else frac_val)
      else (frac_digits, frac_val, s)
  | [] => (frac_digits, frac_val, s)
  end.

Definition parse_fraction (s : bytes) : option (Z * bytes) :=
  match expect (Z.eqb 46) s with
  | Some s =>
      let '(frac_digits, frac_val, s) := frac_loop s 0 0 in
      if (frac_digits =? 0) || (9 <? frac_digits) then None
      else if 3 <=? frac_digits then Some (Z.quot frac_val (10 ^ (frac_digits - 3)), s)
      else Some (frac_val * 10 ^ (3 - frac_digits), s)
  | None => Some (0, s)
  end.

Definition parse_date (s : bytes) : option (Z * bytes) :=
  match read_digits s 4 with
  | None => None
  | Some (year, s) =>
      match expect (Z.eqb 45) s with
      | None => None
      | Some s =>
          match read_digits s 2 with
          | None => None
          | Some (month, s) =>
              match expect (Z.eqb 45) s with
              | None => None
              | Some s =>
                  match read_digits s 2 with
                  | None => None
                  | Some (day, s) =>
                      if is_valid_ymd year month day then Some (days_from_civil year month day, s) else None
                  end
              end
          end
      end
  end.

(** Two digits of at most [max]. *)
Definition read_field (max : Z) (s : bytes) : option (Z * bytes) :=
  match read_digits s 2 with
  | Some (v, s) => if max <? v then None else Some (v, s)
  | None => None
  end.

(** The part after the date separator: milliseconds of the day. *)
Definition parse_time (s : bytes) : option (Z * bytes) :=
  match read_field 23 s with
  | None => None
  | Some (hh, s) =>
      match expect (Z.eqb 58) s with
      | None => None
      | Some s =>
          match read_field 59 s with
          | None => None
          | Some (mm, s) =>
              match expect (Z.eqb 58) s with
              | None => None
              | Some s =>
                  match read_field 59 s with
                  | None => None
                  | Some (ss, s) =>
                      match parse_fraction s with
                      | None => None
                      | Some (millis, s) => Some (((hh * 60 + mm) * 60 + ss) * 1000 + millis, s)
                      end
                  end
              end
          end
      end
  end.

Definition parse_instant (s : option bytes) : option instant :=
  match s with
  | None => None
  | Some s =>
      let len := Z.min (Z.of_nat (length s)) (CATCHUP_TS_MAX_LEN + 1) in
      if (len =? 0) || (CATCHUP_TS_MAX_LEN <? len) then None else
      match parse_date s with
      | None => None
      | Some (days, []) => Some (Instant days 0)
      | Some (days, s) =>
          match expect (fun c => (c =? 84) || (c =? 116) || (c =? 32)) s with
          | None => None
          | Some s =>
              match parse_time s with
              | None => None
              | Some (ms, s) =>
                  let s := match expect (fun c => (c =? 90) || (c =? 122)) s with Some s => s | None => s end in
                  match s with [] => Some (Instant days ms) | _ => None end
              end
          end
      end
  end.

(** ** Printing *)

(** [%0<n>d] of a number that is not negative and has at most [n] digits. *)
Fixpoint pad_digits (n : nat) (v : Z) : bytes :=
  match n with
  | O => []
  | S n => pad_digits n (Z.quot v 10) ++ [48 + Z.rem v 10]
  end.

(** The output always fits the 32-byte buffer. *)
Definition format_instant (inst : instant) : option bytes :=
  let '(y, m, d) := civil_from_days (days inst) in
  if (y <? 0) || (9999 <? y) then None
  else if (ms_of_day inst <? 0) || (86400000 <=? ms_of_day inst) then None
  else
    let hh := Z.quot (ms_of_day inst) 3600000 in
    let mm := Z.rem (Z.quot (ms_of_day inst) 60000) 60 in
    let ss := Z.rem (Z.quot (ms_of_day inst) 1000) 60 in
    let ms := Z.rem (ms_of_day inst) 1000 in
    Some (pad_digits 4 y ++ [45] ++ pad_digits 2 m ++ [45] ++ pad_digits 2 d ++ [84] ++
          pad_digits 2 hh ++ [58] ++ pad_digits 2 mm ++ [58] ++ pad_digits 2 ss ++ [46] ++
          pad_digits 3 ms ++ [90]).

(** ** The Gregorian calendar *)

Definition leap (y : Z) : bool := (y mod 4 =? 0) && (negb (y mod 100 =? 0) || (y mod 400 =? 0)).

Definition month_length (y m : Z) : Z :=
  if m =? 2 then (if leap y then 29 else 28)
  else if (m =? 4) || (m =? 6) || (m =? 9) || (m =? 11) then 30 else 31.

Definition civil_date (y m d : Z) : Prop := 1 <= m <= 12 /\ 1 <= d <= month_length y m.

(** The day after a date. *)
Definition next_day (y m d : Z) : Z * Z * Z :=
  if d <? month_length y m then (y, m, d + 1)
  else if m <? 12 then (y, m + 1, 1)
  else (y + 1, 1, 1).

(** ** The conversion *)

(** Days before year [y] of an era that starts on 1 March of year 0. *)
Definition year_start (y : Z) : Z := 365 * y + Z.quot y 4 - Z.quot y 100.

Definition year_of_era (doe : Z) : Z :=
  Z.quot (doe - Z.quot doe 1460 + Z.quot doe 36524 - Z.quot doe 146096) 365.

(** Days before month [mp] (0 is March) of a year. *)
Definition month_start (mp : Z) : Z := Z.quot (153 * mp + 2) 5.

Lemma year_of_era_mono a b : 0 <= a -> a <= b -> year_of_era a <= year_of_era b.
Proof.
  intros Ha Hab. replace b with (a + Z.of_nat (Z.to_nat (b - a))) by lia.
  induction (Z.to_nat (b - a)) as [|n IH]; [rewrite Z.add_0_r; lia|].
  etransitivity; [exact IH|]. rewrite Nat2Z.inj_succ.
  replace (a + Z.succ (Z.of_nat n)) with (a + Z.of_nat n + 1) by lia.
  assert (0 <= a + Z.of_nat n) as H0 by lia. revert H0. generalize (a + Z.of_nat n) as x.
  clear. intros x H0. unfold year_of_era.
  apply Z.quot_le_mono; [lia|]. lia.
Qed.

Lemma year_of_era_bounds :
  forallb (fun n => let y := Z.of_nat n in
    (year_of_era (year_start y) =? y) &&
    (year_of_era (Z.min 146096 (year_start (y + 1) - 1 + (if y =? 399 then 1 else 0))) =? y))
    (seq 0 400) = true.
Proof. vm_compute. reflexivity. Qed.

(** The length of a year that starts in March: the leap day is its last. *)
Definition year_length (y : Z) : Z := if leap (y + 1) then 366 else 365.

Lemma year_length_cases y : year_length y = 365 \/ year_length y = 366.
Proof. unfold year_length. destruct (leap (y + 1)); auto. Qed.

Lemma leap_era y era : leap (y + era * 400) = leap y.
Proof.
  unfold leap.
  replace (y + era * 400) with (y + (era * 100) * 4) at 1 by lia. rewrite Z.mod_add by lia.
  replace (y + era * 400) with (y + (era * 4) * 100) at 1 by lia. rewrite Z.mod_add by lia.
  by rewrite Z.mod_add by lia.
Qed.

Lemma year_start_next y : 0 <= y < 399 -> year_start (y + 1) = year_start y + year_length y.
Proof. intros Hy. unfold year_start, year_length, leap. repeat case_match; zbool. Qed.

Lemma year_length_last : year_start 399 + year_length 399 = 146097.
Proof. reflexivity. Qed.

Lemma year_start_bounds y : 0 <= y <= 399 -> 0 <= year_start y /\ year_start y + year_length y <= 146097.
Proof.
  intros Hy. destruct (Z.eq_dec y 399) as [->|Hne]; [by vm_compute|].
  rewrite <- year_start_next by lia. unfold year_start. lia.
Qed.

(** The years of an era partition its days. *)
Lemma year_of_era_spec y doe :
  0 <= y <= 399 -> year_start y <= doe < year_start y + year_length y -> year_of_era doe = y.
Proof.
  intros Hy Hd. pose proof year_of_era_bounds as HB. rewrite forallb_forall in HB.
  specialize (HB (Z.to_nat y) ltac:(apply in_seq; lia)). rewrite Z2Nat.id in HB by lia.
  apply andb_prop in HB as [H1%Z.eqb_eq H2%Z.eqb_eq].
  pose proof (year_start_bounds y Hy) as [H0 Hmax].
  assert (doe <= Z.min 146096 (year_start (y + 1) - 1 + (if y =? 399 then 1 else 0))) as Hle.
  { destruct (Z.eqb_spec y 399) as [->|Hne].
    - apply Z.min_glb; [lia|]. change (year_start (399 + 1)) with 146096. change (year_start 399) with 145731 in Hd.
      change (year_length 399) with 366 in Hd. lia.
    - rewrite year_start_next by lia. lia. }
  pose proof (year_of_era_mono _ _ H0 (proj1 Hd)) as M1.
  pose proof (year_of_era_mono doe _ ltac:(lia) Hle) as M2. lia.
Qed.

Lemma year_of_era_bracket doe :
  0 <= doe < 146097 ->
  let y := year_of_era doe in
  0 <= y <= 399 /\ year_start y <= doe < year_start y + year_length y.
Proof.
  intros Hd.
  assert (exists y, 0 <= y <= 399 /\ year_start y <= doe < year_start y + year_length y) as (y & Hy & HB).
  { assert (forall n : nat, Z.of_nat n <= 399 -> doe < year_start (Z.of_nat n) + year_length (Z.of_nat n) ->
      exists y, 0 <= y <= 399 /\ year_start y <= doe < year_start y + year_length y) as HI.
    { induction n as [|n IH]; intros Hn Hlt.
      - exists 0. split; [lia|]. split; [unfold year_start; simpl; lia|done].
      - destruct (Z.lt_ge_cases doe (year_start (Z.of_nat (S n)))) as [Hlt'|Hge].
        + apply IH; [lia|]. rewrite <- year_start_next by lia.
          replace (Z.of_nat n + 1) with (Z.of_nat (S n)) by lia. done.
        + exists (Z.of_nat (S n)). split; [lia|done]. }
    apply (HI 399%nat); [lia|]. change (Z.of_nat 399) with 399. rewrite year_length_last. lia. }
  rewrite (year_of_era_spec y doe) by done. done.
Qed.

(** The months of a year partition its days. *)
Lemma month_of_day mp doy :
  0 <= mp <= 11 -> month_start mp <= doy < (if mp =? 11 then 366 else month_start (mp + 1)) ->
  Z.quot (5 * doy + 2) 153 = mp.
Proof.
  intros Hm. assert (mp ∈ [0; 1; 2; 3; 4; 5; 6; 7; 8; 9; 10; 11]) as Hin by (rewrite !elem_of_cons; lia).
  clear Hm. unfold month_start.
  repeat (apply elem_of_cons in Hin as [->|Hin]; [simpl Z.eqb; cbv iota; lia|]).
  by apply elem_of_nil in Hin.
Qed.

Lemma month_bracket doy :
  0 <= doy < 366 ->
  let mp := Z.quot (5 * doy + 2) 153 in
  0 <= mp <= 11 /\ month_start mp <= doy < (if mp =? 11 then 366 else month_start (mp + 1)).
Proof.
  intros Hd. cbv zeta. split; [lia|]. unfold month_start.
  destruct (Z.eqb_spec (Z.quot (5 * doy + 2) 153) 11); lia.
Qed.

(** C's division rounds towards zero: the code corrects the numerator. *)
Lemma floor_quot a n : 0 < n -> Z.quot (if 0 <=? a then a else a - (n - 1)) n = a / n.
Proof.
  intros Hn. destruct (Z.leb_spec 0 a); [apply Z.quot_div_nonneg; lia|].
  replace (a - (n - 1)) with (- ((n - 1) - a)) by lia. rewrite Z.quot_opp_l by lia.
  rewrite Z.quot_div_nonneg by lia.
  apply (Z.div_unique a n _ (n - 1 - ((n - 1 - a) mod n))).
  - left. pose proof (Z.mod_pos_bound (n - 1 - a) n Hn). lia.
  - pose proof (Z.div_mod (n - 1 - a) n ltac:(lia)). nia.
Qed.

Definition shift_month (m : Z) : Z := m + (if 2 <? m then -3 else 9).
Definition shift_year (y m : Z) : Z := y - (if m <=? 2 then 1 else 0).

Lemma days_from_civil_parts y m d :
  days_from_civil y m d =
  shift_year y m / 400 * 146097 +
  (year_start (shift_year y m mod 400) + (month_start (shift_month m) + d - 1)) - 719468.
Proof.
  unfold days_from_civil. fold (shift_year y m). fold (shift_month m).
  change 399 with (400 - 1). rewrite floor_quot by lia.
  replace (shift_year y m - shift_year y m / 400 * 400) with (shift_year y m mod 400)
    by (pose proof (Z.div_mod (shift_year y m) 400 ltac:(lia)); lia).
  unfold year_start, month_start. lia.
Qed.

Lemma civil_from_days_parts z :
  let era := (z + 719468) / 146097 in
  let doe := (z + 719468) mod 146097 in
  let yoe := year_of_era doe in
  let doy := doe - year_start yoe in
  let mp := Z.quot (5 * doy + 2) 153 in
  let mm := mp + (if mp <? 10 then 3 else -9) in
  civil_from_days z =
  (yoe + era * 400 + (if mm <=? 2 then 1 else 0), mm, doy - month_start mp + 1).
Proof.
  cbv zeta. unfold civil_from_days. cbv zeta.
  assert (E : Z.quot (if 0 <=? z + 719468 then z + 719468 else z + 719468 - 146096) 146097 =
              (z + 719468) / 146097) by (apply (floor_quot _ 146097); lia).
  rewrite E.
  replace (z + 719468 - (z + 719468) / 146097 * 146097) with ((z + 719468) mod 146097)
    by (pose proof (Z.div_mod (z + 719468) 146097 ltac:(lia)); lia).
  reflexivity.
Qed.

(** Month lengths between month starts; February ends the year. *)
Lemma month_length_shift y m :
  1 <= m <= 12 ->
  month_start (shift_month m) + month_length y m =
  if shift_month m =? 11 then 337 + (if leap y then 29 else 28) else month_start (shift_month m + 1).
Proof.
  intros Hm. assert (m ∈ [1; 2; 3; 4; 5; 6; 7; 8; 9; 10; 11; 12]) as Hin by (rewrite !elem_of_cons; lia).
  clear Hm. repeat (apply elem_of_cons in Hin as [->|Hin]; [reflexivity|]).
  by apply elem_of_nil in Hin.
Qed.

(** The position of a date in its year that starts in March. *)
Lemma civil_date_bounds y m d :
  civil_date y m d ->
  let yoe := shift_year y m mod 400 in
  let mp := shift_month m in
  let doy := month_start mp + d - 1 in
  0 <= mp <= 11 /\ 0 <= doy < year_length yoe /\
  month_start mp <= doy < (if mp =? 11 then 366 else month_start (mp + 1)).
Proof.
  intros [Hm Hd] yoe mp doy. pose proof (month_length_shift y m Hm) as HL.
  assert (0 <= mp <= 11) as Hmp.
  { subst mp. unfold shift_month. destruct (Z.ltb_spec 2 m); lia. }
  split; [done|]. fold mp in HL.
  pose proof (year_length_cases yoe) as HY.
  destruct (Z.eqb_spec mp 11) as [E|E].
  - assert (leap y = leap (yoe + 1)) as Hleap.
    { assert (m = 2) as Hm2 by (subst mp; unfold shift_month in E; destruct (Z.ltb_spec 2 m); lia).
      subst yoe. unfold shift_year. subst m. simpl.
      rewrite <- (leap_era (_ + 1) ((y - 1) / 400)). f_equal.
      pose proof (Z.div_mod (y - 1) 400 ltac:(lia)). lia. }
    rewrite Hleap in HL. unfold year_length.
    assert (month_start mp = 337) as H337 by (rewrite E; reflexivity).
    subst doy. destruct (leap (yoe + 1)); lia.
  - assert (0 <= month_start mp /\ month_start (mp + 1) <= 337) by (unfold month_start; lia).
    subst doy. lia.
Qed.

(** Converting a date to a day and back. *)
Lemma civil_days_civil y m d : civil_date y m d -> civil_from_days (days_from_civil y m d) = (y, m, d).
Proof.
  intros Hc. destruct (civil_date_bounds y m d Hc) as (Hmp & Hdoy & Hmon). destruct Hc as [Hm Hd].
  rewrite days_from_civil_parts, civil_from_days_parts. cbv zeta.
  set (yoe := shift_year y m mod 400) in *. set (era := shift_year y m / 400) in *.
  set (mp := shift_month m) in *. set (doy := month_start mp + d - 1) in *.
  assert (0 <= yoe <= 399) as Hy by (pose proof (Z.mod_pos_bound (shift_year y m) 400); lia).
  pose proof (year_start_bounds yoe Hy) as [Hs He].
  replace (era * 146097 + (year_start yoe + doy) - 719468 + 719468)
    with ((year_start yoe + doy) + era * 146097) by lia.
  rewrite Z.div_add, Z.mod_add by lia. rewrite Z.div_small, Z.mod_small by lia.
  rewrite (year_of_era_spec yoe) by lia.
  replace (year_start yoe + doy - year_start yoe) with doy by lia.
  rewrite (month_of_day mp doy) by done.
  assert (mp + (if mp <? 10 then 3 else -9) = m) as ->.
  { subst mp. unfold shift_month.
    destruct (Z.ltb_spec 2 m); [destruct (Z.ltb_spec (m + -3) 10)|destruct (Z.ltb_spec (m + 9) 10)]; lia. }
  assert (yoe + era * 400 = shift_year y m) as E
    by (pose proof (Z.div_mod (shift_year y m) 400 ltac:(lia)); lia).
  replace (yoe + (0 + era) * 400) with (shift_year y m) by lia.
  f_equal; [f_equal; unfold shift_year; destruct (m <=? 2); lia|subst doy; lia].
Qed.

(** Every day is a date, and converting it back gives the day. *)
Lemma days_civil_days z :
  let '(y, m, d) := civil_from_days z in civil_date y m d /\ days_from_civil y m d = z.
Proof.
  rewrite civil_from_days_parts. cbv zeta.
  set (era := (z + 719468) / 146097). set (doe := (z + 719468) mod 146097).
  assert (0 <= doe < 146097) as Hdoe by (apply Z.mod_pos_bound; lia).
  assert (z = era * 146097 + doe - 719468) as Hz
    by (pose proof (Z.div_mod (z + 719468) 146097 ltac:(lia)); lia).
  destruct (year_of_era_bracket doe Hdoe) as [Hy Hb].
  set (yoe := year_of_era doe) in *. set (doy := doe - year_start yoe) in *.
  assert (0 <= doy < year_length yoe) as Hdoy by lia.
  pose proof (year_length_cases yoe) as HY.
  destruct (month_bracket doy ltac:(lia)) as [Hmp Hmb].
  set (mp := Z.quot (5 * doy + 2) 153) in *.
  set (m := mp + (if mp <? 10 then 3 else -9)).
  assert (1 <= m <= 12) as Hm by (subst m; destruct (Z.ltb_spec mp 10); lia).
  assert (shift_month m = mp) as Hsm.
  { subst m. unfold shift_month.
    destruct (Z.ltb_spec mp 10); [destruct (Z.ltb_spec 2 (mp + 3))|destruct (Z.ltb_spec 2 (mp + -9))]; lia. }
  set (y := yoe + era * 400 + (if m <=? 2 then 1 else 0)).
  assert (shift_year y m = yoe + era * 400) as Hsy
    by (subst y; unfold shift_year; destruct (m <=? 2); lia).
  split.
  - split; [done|]. pose proof (month_length_shift y m Hm) as HL. rewrite Hsm in HL.
    destruct (Z.eqb_spec mp 11) as [E|E]; [|lia].
    assert (m = 2) as Hm2 by (subst m; rewrite E; reflexivity).
    assert (leap y = leap (yoe + 1)) as Hleap.
    { subst y. rewrite Hm2. simpl. rewrite <- (leap_era (yoe + 1) era). f_equal. lia. }
    assert (month_start mp = 337) as H337 by (rewrite E; reflexivity).
    rewrite Hleap in HL. unfold year_length in Hdoy. destruct (leap (yoe + 1)); lia.
  - rewrite days_from_civil_parts, Hsm, Hsy, Z.div_add, Z.mod_add by lia.
    rewrite Z.div_small, Z.mod_small by lia. lia.
Qed.

(** Days before the year [y] that starts in March. *)
Definition year_days (y : Z) : Z := y / 400 * 146097 + year_start (y mod 400).

Lemma year_days_next y : year_days (y + 1) = year_days y + (if leap (y + 1) then 366 else 365).
Proof.
  pose proof (Z.div_mod y 400 ltac:(lia)) as Hy. pose proof (Z.mod_pos_bound y 400 ltac:(lia)) as Hr.
  set (e := y / 400) in *. set (r := y mod 400) in *.
  assert (leap (y + 1) = leap (r + 1)) as -> by (rewrite <- (leap_era (r + 1) e); f_equal; lia).
  change (if leap (r + 1) then 366 else 365) with (year_length r). unfold year_days.
  destruct (Z.eq_dec r 399) as [E|E].
  - replace (y + 1) with (0 + (e + 1) * 400) by lia. rewrite Z.div_add, Z.mod_add by lia.
    change (0 / 400) with 0. change (0 mod 400) with 0. fold e r. rewrite E.
    pose proof year_length_last. change (year_start 0) with 0. lia.
  - replace (y + 1) with ((r + 1) + e * 400) by lia. rewrite Z.div_add, Z.mod_add by lia.
    rewrite Z.div_small, Z.mod_small by lia. fold e r. rewrite year_start_next by lia. lia.
Qed.

Lemma days_from_civil_year y m d :
  days_from_civil y m d = year_days (shift_year y m) + (month_start (shift_month m) + d - 1) - 719468.
Proof. rewrite days_from_civil_parts. unfold year_days. lia. Qed.

Lemma next_day_days y m d :
  civil_date y m d ->
  let '(y', m', d') := next_day y m d in days_from_civil y' m' d' = days_from_civil y m d + 1.
Proof.
  intros [Hm Hd]. unfold next_day. destruct (Z.ltb_spec d (month_length y m)).
  { rewrite !days_from_civil_year. lia. }
  assert (d = month_length y m) as -> by lia.
  pose proof (month_length_shift y m Hm) as HL.
  destruct (Z.ltb_spec m 12).
  - rewrite !days_from_civil_year. unfold shift_month in *.
    destruct (Z.eq_dec m 2) as [->|Hm2].
    + unfold shift_year. simpl in *. replace (y - 1 + 1) with y in * by lia.
      pose proof (year_days_next (y - 1)) as HN. replace (y - 1 + 1) with y in HN by lia.
      unfold month_start in *. simpl in *. replace (y - 0) with y by lia. destruct (leap y); lia.
    + assert (shift_year y (m + 1) = shift_year y m) as ->
        by (unfold shift_year; destruct (Z.leb_spec m 2), (Z.leb_spec (m + 1) 2); lia).
      destruct (Z.ltb_spec 2 m), (Z.ltb_spec 2 (m + 1)); try lia.
      * destruct (Z.eqb_spec (m + -3) 11); [lia|].
        replace (m + 1 + -3) with (m + -3 + 1) by lia. lia.
      * destruct (Z.eqb_spec (m + 9) 11); [lia|]. replace (m + 1 + 9) with (m + 9 + 1) by lia. lia.
  - assert (m = 12) as -> by lia. rewrite !days_from_civil_year. unfold shift_year, shift_month in *.
    simpl in *. replace (y + 1 - 1) with y by lia. replace (y - 0) with y by lia.
    unfold month_start in *. simpl in *. lia.
Qed.

(** C39: The conversion counts the days of the proleptic Gregorian calendar:
    1 January 1970 is day 0, the next day of the calendar is the next number,
    and dates and days correspond one to one, in both directions and for
    every year. *)
Theorem calendar_is_gregorian :
  days_from_civil 1970 1 1 = 0 /\
  (forall y m d, civil_date y m d ->
     civil_from_days (days_from_civil y m d) = (y, m, d) /\
     (let '(y', m', d') := next_day y m d in
      civil_date y' m' d' /\ days_from_civil y' m' d' = days_from_civil y m d + 1)) /\
  (forall z, let '(y, m, d) := civil_from_days z in civil_date y m d /\ days_from_civil y m d = z).
Proof.
  split; [reflexivity|]. split; [|apply days_civil_days].
  intros y m d Hc. split; [by apply civil_days_civil|].
  pose proof (next_day_days y m d Hc) as HN. pose proof Hc as [Hm Hd]. revert HN. unfold next_day.
  assert (forall y m, 28 <= month_length y m) as HL by (intros; unfold month_length; repeat case_match; lia).
  destruct (Z.ltb_spec d (month_length y m)); [|destruct (Z.ltb_spec m 12)]; intros HN; (split; [|done]);
    unfold civil_date.
  - lia.
  - specialize (HL y (m + 1)). lia.
  - specialize (HL (y + 1) 1). lia.
Qed.

Lemma is_valid_ymd_iff y m d : is_valid_ymd y m d = true <-> civil_date y m d.
Proof.
  unfold is_valid_ymd. split.
  - destruct (_ || _) eqn:Hr; [done|]. pose proof (days_civil_days (days_from_civil y m d)) as HD.
    destruct (civil_from_days _) as [[y2 m2] d2]. intros E.
    breflect. subst. exact (proj1 HD).
  - intros Hc. rewrite civil_days_civil by done. rewrite !Z.eqb_refl.
    destruct Hc as [Hm Hd].
    assert (month_length y m <= 31) by (unfold month_length; repeat case_match; lia).
    rewrite (proj2 (Z.ltb_ge m 1)), (proj2 (Z.ltb_ge 12 m)), (proj2 (Z.ltb_ge d 1)), (proj2 (Z.ltb_ge 31 d)) by lia.
    done.
Qed.

(** The round-trip validity test accepts exactly the dates of the
    Gregorian calendar, leap years included. *)
Theorem is_valid_ymd_calendar y m d : is_valid_ymd y m d = true <-> civil_date y m d.
Proof. apply is_valid_ymd_iff. Qed.

(** ** Parsing what was printed *)

Lemma length_pad_digits n v : length (pad_digits n v) = n.
Proof. revert v; induction n as [|n IH]; intros v; simpl; [done|]. rewrite length_app, IH. simpl. lia. Qed.

Lemma read_digits_loop_snoc l n v :
  read_digits_loop l (S n) v =
  match read_digits_loop l n v with
  | Some (w, c :: l') => if is_digit c then Some (w * 10 + (c - 48), l') else None
  | _ => None
  end.
Proof.
  revert l v; induction n as [|n IH]; intros l v.
  - destruct l as [|c l]; [done|]. simpl. by destruct (is_digit c).
  - change (read_digits_loop l (S (S n)) v) with
      (match l with c :: s => if is_digit c then read_digits_loop s (S n) (v * 10 + (c - 48)) else None
                  | [] => None end).
    destruct l as [|c l]; [done|]. cbn [read_digits_loop]. destruct (is_digit c); [|done]. apply IH.
Qed.

Lemma pad_digit_ok v : 0 <= v -> is_digit (48 + Z.rem v 10) = true.
Proof. intros Hv. unfold is_digit. apply andb_true_intro. split; apply Z.leb_le; lia. Qed.

Lemma read_pad_loop n v acc s :
  0 <= v < 10 ^ Z.of_nat n ->
  read_digits_loop (pad_digits n v ++ s) n acc = Some (acc * 10 ^ Z.of_nat n + v, s).
Proof.
  revert v acc s; induction n as [|n IH]; intros v acc s Hv.
  { simpl. f_equal. f_equal. change (10 ^ Z.of_nat 0) with 1 in Hv. lia. }
  rewrite Nat2Z.inj_succ, Z.pow_succ_r in * by lia.
  rewrite read_digits_loop_snoc. cbn [pad_digits]. rewrite <- app_assoc.
  rewrite IH.
  - cbn [app]. rewrite pad_digit_ok by lia. f_equal. f_equal. 
    pose proof (Z.quot_rem' v 10). set (q := Z.quot v 10) in *. set (r := Z.rem v 10) in *. nia.
  - rewrite Z.quot_div_nonneg by lia. split; [apply Z.div_pos; lia|apply Z.div_lt_upper_bound; lia].
Qed.

Lemma read_pad_digits n v s :
  0 <= v < 10 ^ Z.of_nat n -> read_digits (pad_digits n v ++ s) n = Some (v, s).
Proof.
  intros Hv. unfold read_digits. rewrite length_app, length_pad_digits.
  rewrite (proj2 (Z.ltb_ge _ _)) by lia. by rewrite read_pad_loop by done.
Qed.

Lemma read_pad_field max v s :
  0 <= v <= max -> max <= 99 -> read_field max (pad_digits 2 v ++ s) = Some (v, s).
Proof.
  intros Hv Hm. unfold read_field. rewrite read_pad_digits by (change (10 ^ Z.of_nat 2) with 100; lia).
  by rewrite (proj2 (Z.ltb_ge _ _)) by lia.
Qed.

Lemma parse_pad_date y m d s :
  0 <= y <= 9999 -> civil_date y m d ->
  parse_date (pad_digits 4 y ++ [45] ++ pad_digits 2 m ++ [45] ++ pad_digits 2 d ++ s) =
  Some (days_from_civil y m d, s).
Proof.
  intros Hy Hc. pose proof Hc as [Hm Hd].
  assert (month_length y m <= 31) by (unfold month_length; repeat case_match; lia).
  unfold parse_date. rewrite read_pad_digits by (change (10 ^ Z.of_nat 4) with 10000; lia).
  cbn [app expect]. rewrite Z.eqb_refl. rewrite read_pad_digits by (change (10 ^ Z.of_nat 2) with 100; lia).
  cbn [expect]. rewrite Z.eqb_refl. rewrite read_pad_digits by (change (10 ^ Z.of_nat 2) with 100; lia).
  by rewrite (proj2 (is_valid_ymd_iff y m d) Hc).
Qed.

Lemma parse_pad_fraction ms s :
  0 <= ms < 1000 -> (forall c s', s = c :: s' -> is_digit c = false) ->
  parse_fraction ([46] ++ pad_digits 3 ms ++ s) = Some (ms, s).
Proof.
  intros Hms Hs. unfold parse_fraction. cbn [app expect]. rewrite Z.eqb_refl.
  assert (frac_loop (pad_digits 3 ms ++ s) 0 0 = (3, ms, s)) as ->; [|simpl; by rewrite Z.quot_1_r].
  cbn [pad_digits app].
  assert (Hend : forall k v, frac_loop s k v = (k, v, s)).
  { intros k v. destruct s as [|c s]; [done|]. simpl. by rewrite (Hs c s eq_refl). }
  do 3 (cbn [frac_loop]; rewrite pad_digit_ok by lia; simpl Z.ltb; cbv iota).
  rewrite Hend. change (0 <? 9) with true. change (0 + 1 <? 9) with true. change (0 + 1 + 1 <? 9) with true.
  cbv iota. f_equal. f_equal. lia.
Qed.

Lemma parse_pad_time hh mm ss ms s :
  0 <= hh <= 23 -> 0 <= mm <= 59 -> 0 <= ss <= 59 -> 0 <= ms < 1000 ->
  (forall c s', s = c :: s' -> is_digit c = false) ->
  parse_time (pad_digits 2 hh ++ [58] ++ pad_digits 2 mm ++ [58] ++ pad_digits 2 ss ++ [46] ++
              pad_digits 3 ms ++ s) =
  Some (((hh * 60 + mm) * 60 + ss) * 1000 + ms, s).
Proof.
  intros Hh Hm Hss Hms Hs. unfold parse_time. rewrite read_pad_field by lia.
  cbn [app expect]. rewrite Z.eqb_refl. rewrite read_pad_field by lia.
  cbn [expect]. rewrite Z.eqb_refl. rewrite read_pad_field by lia.
  change (46 :: pad_digits 3 ms ++ s) with ([46] ++ pad_digits 3 ms ++ s).
  by rewrite parse_pad_fraction by done.
Qed.

Lemma parse_format i s : format_instant i = Some s -> parse_instant (Some s) = Some i.
Proof.
  destruct i as [n ms]. unfold format_instant. simpl days. simpl ms_of_day.
  pose proof (days_civil_days n) as HD. destruct (civil_from_days n) as [[y m] d].
  destruct HD as [Hc Hn].
  destruct ((y <? 0) || (9999 <? y)) eqn:Ey; [done|].
  destruct ((ms <? 0) || (86400000 <=? ms)) eqn:Em; [done|]. breflect.
  intros E%(inj Some). subst s.
  set (hh := Z.quot ms 3600000). set (mm := Z.rem (Z.quot ms 60000) 60).
  set (ss := Z.rem (Z.quot ms 1000) 60). set (f := Z.rem ms 1000).
  assert (0 <= hh <= 23) by (subst hh; lia). assert (0 <= mm <= 59) by (subst mm; lia).
  assert (0 <= ss <= 59) by (subst ss; lia). assert (0 <= f < 1000) by (subst f; lia).
  assert (((hh * 60 + mm) * 60 + ss) * 1000 + f = ms) as Hms by (subst hh mm ss f; lia).
  match goal with |- parse_instant (Some ?t) = _ =>
    assert (length t = 24%nat) as Hlen by (rewrite !length_app, !length_pad_digits; reflexivity);
    unfold parse_instant; rewrite Hlen end.
  change (Z.min (Z.of_nat 24) (CATCHUP_TS_MAX_LEN + 1)) with 24. cbn [Z.eqb orb].
  change (CATCHUP_TS_MAX_LEN <? 24) with false. cbv iota zeta.
  rewrite parse_pad_date by (done || lia).
  match goal with |- context [[84] ++ ?x] => change ([84] ++ x) with (84 :: x) end. cbn [expect]. rewrite Z.eqb_refl. cbn [orb].
  rewrite parse_pad_time by (done || (intros ? ? [= <- <-]; done)).
  simpl. by rewrite Hms, Hn.
Qed.

(** ** What parsing accepts *)

Lemma read_digits_loop_range s n v w s' :
  0 <= v -> read_digits_loop s n v = Some (w, s') ->
  v * 10 ^ Z.of_nat n <= w < (v + 1) * 10 ^ Z.of_nat n.
Proof.
  revert s v; induction n as [|n IH]; intros s v Hv.
  { simpl. intros [= <- <-]. lia. }
  destruct s as [|c s]; [done|]. cbn [read_digits_loop]. destruct (is_digit c) eqn:Hc; [|done].
  intros E. unfold is_digit in Hc. breflect. apply IH in E; [|lia].
  rewrite Nat2Z.inj_succ, Z.pow_succ_r by lia.
  assert (0 < 10 ^ Z.of_nat n) by lia. nia.
Qed.

Lemma read_digits_range s n w s' : read_digits s n = Some (w, s') -> 0 <= w < 10 ^ Z.of_nat n.
Proof.
  unfold read_digits. destruct (_ <? _); [done|]. intros E%read_digits_loop_range; [|done]. lia.
Qed.

Lemma read_field_range max s w s' : read_field max s = Some (w, s') -> 0 <= w <= max.
Proof.
  unfold read_field. destruct (read_digits s 2) as [[v r]|] eqn:E; [|done].
  apply read_digits_range in E. destruct (max <? v) eqn:El; [done|]. intros [= <- <-]. zbool.
Qed.

Lemma frac_loop_range s k v k' v' s' :
  0 <= k -> 0 <= v < 10 ^ Z.min k 9 -> frac_loop s k v = (k', v', s') ->
  k <= k' /\ 0 <= v' < 10 ^ Z.min k' 9.
Proof.
  revert k v; induction s as [|c s IH]; intros k v Hk Hv; simpl; [intros [= <- <- <-]; lia|].
  destruct (is_digit c) eqn:Hc; [|intros [= <- <- <-]; lia].
  intros E. unfold is_digit in Hc. breflect. apply IH in E as [E1 E2]; [lia|lia|].
  destruct (Z.ltb_spec k 9).
  - replace (Z.min (k + 1) 9) with (Z.succ (Z.min k 9)) by lia. rewrite Z.pow_succ_r by lia. lia.
  - replace (Z.min (k + 1) 9) with (Z.min k 9) by lia. done.
Qed.

Lemma parse_fraction_range s ms s' : parse_fraction s = Some (ms, s') -> 0 <= ms < 1000.
Proof.
  unfold parse_fraction. destruct (expect (Z.eqb 46) s) as [r|]; [|intros [= <- <-]; lia].
  destruct (frac_loop r 0 0) as [[k v] r'] eqn:E.
  apply frac_loop_range in E as [Hk Hv]; [|lia|simpl; lia].
  destruct (_ || _) eqn:Ek; [done|]. breflect. replace (Z.min k 9) with k in Hv by lia.
  destruct (Z.leb_spec 3 k); intros [= <- <-].
  - assert (10 ^ k = 10 ^ (k - 3) * 1000) as Hp
      by (change 1000 with (10 ^ 3); rewrite <- Z.pow_add_r by lia; f_equal; lia).
    assert (0 < 10 ^ (k - 3)) by lia. rewrite Z.quot_div_nonneg by lia.
    split; [apply Z.div_pos; lia|apply Z.div_lt_upper_bound; lia].
  - assert (1000 = 10 ^ k * 10 ^ (3 - k)) as Hp
      by (change 1000 with (10 ^ 3); rewrite <- Z.pow_add_r by lia; f_equal; lia).
    assert (0 < 10 ^ (3 - k)) by lia. rewrite Hp. nia.
Qed.

Lemma parse_time_range s ms s' : parse_time s = Some (ms, s') -> 0 <= ms < 86400000.
Proof.
  unfold parse_time. destruct (read_field 23 s) as [[hh s1]|] eqn:E1; [|done].
  destruct (expect _ s1) as [s2|]; [|done]. destruct (read_field 59 s2) as [[mm s3]|] eqn:E2; [|done].
  destruct (expect _ s3) as [s4|]; [|done]. destruct (read_field 59 s4) as [[ss s5]|] eqn:E3; [|done].
  destruct (parse_fraction s5) as [[f s6]|] eqn:E4; [|done]. intros [= <- <-].
  apply read_field_range in E1, E2, E3. apply parse_fraction_range in E4. lia.
Qed.

Lemma parse_date_range s n s' :
  parse_date s = Some (n, s') ->
  exists y m d, 0 <= y <= 9999 /\ civil_date y m d /\ n = days_from_civil y m d.
Proof.
  unfold parse_date. destruct (read_digits s 4) as [[y s1]|] eqn:E1; [|done].
  destruct (expect _ s1) as [s2|]; [|done]. destruct (read_digits s2 2) as [[m s3]|]; [|done].
  destruct (expect _ s3) as [s4|]; [|done]. destruct (read_digits s4 2) as [[d s5]|]; [|done].
  destruct (is_valid_ymd y m d) eqn:Hv; [|done]. intros [= <- <-].
  apply read_digits_range in E1. change (10 ^ Z.of_nat 4) with 10000 in E1.
  exists y, m, d. split; [lia|]. split; [by apply is_valid_ymd_iff|done].
Qed.

(** An instant the module can print. *)
Definition instant_ok (i : instant) : Prop :=
  (exists y m d, 0 <= y <= 9999 /\ civil_date y m d /\ days i = days_from_civil y m d) /\
  0 <= ms_of_day i < 86400000.

Lemma parse_instant_ok s i : parse_instant s = Some i -> instant_ok i.
Proof.
  unfold parse_instant. destruct s as [s|]; [|done]. destruct (_ || _); [done|].
  destruct (parse_date s) as [[n r]|] eqn:E; [|done]. apply parse_date_range in E.
  destruct r as [|c r]; [intros [= <-]; split; [done|simpl; lia]|].
  destruct (expect _ (c :: r)) as [r1|]; [|done].
  destruct (parse_time r1) as [[ms r2]|] eqn:E2; [|done]. apply parse_time_range in E2.
  destruct (match expect _ r2 with Some _ => _ | None => _ end); [|done].
  intros [= <-]. by split.
Qed.

Lemma format_instant_ok i : instant_ok i <-> is_Some (format_instant i).
Proof.
  unfold instant_ok, format_instant. split.
  - intros [(y & m & d & Hy & Hc & ->) Hms]. rewrite civil_days_civil by done.
    rewrite (proj2 (Z.ltb_ge y 0)), (proj2 (Z.ltb_ge 9999 y)), (proj2 (Z.ltb_ge (ms_of_day i) 0)), (proj2 (Z.leb_gt 86400000 (ms_of_day i))) by lia.
    by eexists.
  - pose proof (days_civil_days (days i)) as HD. destruct (civil_from_days _) as [[y m] d].
    destruct HD as [Hc Hn]. destruct (_ || _) eqn:Ey; [by intros []|]. breflect.
    destruct (_ || _) eqn:Em; [by intros []|]. intros _. breflect. split; [|lia]. exists y, m, d. by split_and!.
Qed.

(** Printing succeeds exactly on the instants of the years 0 to 9999,
    everything the parser accepts is such an instant, and parsing what was
    printed gives the instant back: the canonical form of an accepted
    watermark denotes the same instant, to the millisecond. *)
Theorem instant_roundtrip :
  (forall i, instant_ok i <-> is_Some (format_instant i)) /\
  (forall i s, format_instant i = Some s -> parse_instant (Some s) = Some i) /\
  (forall s i, parse_instant s = Some i ->
     exists s', format_instant i = Some s' /\ parse_instant (Some s') = Some i).
Proof.
  split; [apply format_instant_ok|]. split; [apply parse_format|].
  intros s i Hi. apply parse_instant_ok, format_instant_ok in Hi as [s' Hs'].
  exists s'. split; [done|by apply parse_format].
Qed.

(** ** The order of days and instants *)

Lemma year_days_mono y y' : y <= y' -> year_days y <= year_days y'.
Proof.
  intros H. replace y' with (y + Z.of_nat (Z.to_nat (y' - y))) by lia.
  induction (Z.to_nat (y' - y)) as [|n IH]; [rewrite Z.add_0_r; lia|].
  rewrite Nat2Z.inj_succ. replace (y + Z.succ (Z.of_nat n)) with (y + Z.of_nat n + 1) by lia.
  rewrite year_days_next. destruct (leap _); lia.
Qed.

(** The days of a year lie between its first of January and the next. *)
Lemma year_span y m d :
  civil_date y m d -> year_days (y - 1) + 306 <= days_from_civil y m d + 719468 < year_days y + 306.
Proof.
  intros Hc. destruct (civil_date_bounds y m d Hc) as (Hmp & Hdoy & Hmon). destruct Hc as [Hm Hd].
  pose proof (year_days_next (y - 1)) as HN. replace (y - 1 + 1) with y in HN by lia.
  rewrite days_from_civil_year. unfold shift_month in *. destruct (Z.ltb_spec 2 m).
  - replace (shift_year y m) with y by (unfold shift_year; destruct (Z.leb_spec m 2); lia).
    destruct (Z.eqb_spec (m + -3) 11); [lia|].
    assert (0 <= month_start (m + -3) /\ month_start (m + -3 + 1) <= 306) by (unfold month_start; lia).
    destruct (leap y); lia.
  - replace (shift_year y m) with (y - 1) in * by (unfold shift_year; destruct (Z.leb_spec m 2); lia).
    assert (306 <= month_start (m + 9)) by (unfold month_start; lia).
    assert (leap y = leap ((y - 1) mod 400 + 1)) as Hl.
    { rewrite <- (leap_era (_ + 1) ((y - 1) / 400)). f_equal.
      pose proof (Z.div_mod (y - 1) 400 ltac:(lia)). lia. }
    unfold year_length in Hdoy. rewrite <- Hl in Hdoy. destruct (leap y); lia.
Qed.

(** An instant between two printable ones is printable. *)
Lemma instant_ok_between i j x :
  instant_ok i -> instant_ok j -> days i <= days x <= days j -> 0 <= ms_of_day x < 86400000 -> instant_ok x.
Proof.
  intros [(y1 & m1 & d1 & Hy1 & Hc1 & E1) _] [(y2 & m2 & d2 & Hy2 & Hc2 & E2) _] Hx Hms.
  split; [|done]. pose proof (days_civil_days (days x)) as HD.
  destruct (civil_from_days (days x)) as [[y m] d]. destruct HD as [Hc E]. exists y, m, d.
  split; [|done]. pose proof (year_span _ _ _ Hc1). pose proof (year_span _ _ _ Hc2).
  pose proof (year_span _ _ _ Hc). split.
  - destruct (Z.le_gt_cases 0 y); [done|]. pose proof (year_days_mono y (y1 - 1) ltac:(lia)). lia.
  - destruct (Z.le_gt_cases y 9999); [done|]. pose proof (year_days_mono y2 (y - 1) ltac:(lia)). lia.
Qed.

(** Milliseconds since the epoch. *)
Definition instant_ms (i : instant) : Z := days i * 86400000 + ms_of_day i.

Lemma instant_ms_add_days i n : instant_ms (instant_add_days i n) = instant_ms i + n * 86400000.
Proof. unfold instant_ms, instant_add_days. simpl. lia. Qed.

Lemma instant_compare_lt i j :
  0 <= ms_of_day i < 86400000 -> 0 <= ms_of_day j < 86400000 ->
  (instant_compare i j <? 0) = (instant_ms i <? instant_ms j).
Proof.
  intros Hi Hj. unfold instant_compare, instant_ms.
  destruct (Z.eqb_spec (days i) (days j)) as [E|E]; cbn [negb].
  - destruct (Z.eqb_spec (ms_of_day i) (ms_of_day j)) as [E2|E2]; cbn [negb].
    + rewrite E, E2, !Z.ltb_irrefl. done.
    + destruct (Z.ltb_spec (ms_of_day i) (ms_of_day j)); symmetry; [apply Z.ltb_lt|apply Z.ltb_ge]; lia.
  - destruct (Z.ltb_spec (days i) (days j)); symmetry; [apply Z.ltb_lt|apply Z.ltb_ge]; lia.
Qed.

(** ** Examples *)

Lemma calendar_is_gregorian_witness :
  civil_from_days (days_from_civil 2024 2 29) = (2024, 2, 29) /\
  days_from_civil 2024 3 1 = days_from_civil 2024 2 29 + 1.
Proof.
  destruct calendar_is_gregorian as (_ & H & _).
  destruct (H 2024 2 29) as [H1 [_ H2]]; [vm_compute; repeat split; discriminate|].
  split; [exact H1|exact H2].
Defined.

Lemma instant_roundtrip_witness :
  exists s, format_instant (Instant 19782 45296700) = Some s /\
    parse_instant (Some (bs "2024-02-29T12:34:56.7")) = parse_instant (Some s).
Proof.
  destruct instant_roundtrip as (_ & _ & H).
  assert (parse_instant (Some (bs "2024-02-29T12:34:56.7")) = Some (Instant 19782 45296700)) as E
    by (vm_compute; reflexivity).
  destruct (H _ _ E) as (s & Hs & Hp). exists s. split; [exact Hs|]. rewrite E. symmetry. exact Hp.
Defined.
