(* ===== verification/Strtol.v ===== *)
(** * [strtol] and [strtoll] with base 10

    White space, a sign, digits; the value saturates at the limits of a 64-bit
    [long] and sets [errno]. *)

From S2P Require Import Prelude CveId Strtod.

Definition LONG_MAX : Z := 2 ^ 63 - 1.
Definition LONG_MIN : Z := - 2 ^ 63.
Definition INT_MAX : Z := 2 ^ 31 - 1.

(** The value, what [*endptr] is left at, and whether [errno] is [ERANGE].
    Without a digit nothing is converted and [*endptr] is the start. *)
Definition strtol (s : bytes) : Z * bytes * bool :=
  let '(negative, rest) := sign (drop_while is_space s) in
  match take_while is_digit rest with
  | [] => (0, s, false)
  | ds =>
      let n := foldl digit_value 0 ds in
      let v := if negative then - n else n in
      let rest := drop_while is_digit rest in
      if LONG_MAX <? v then (LONG_MAX, rest, true) else if v <? LONG_MIN then (LONG_MIN, rest, true) else (v, rest, false)
  end.

(** [end == s]: nothing was converted. *)
Definition no_conversion (s rest : bytes) : bool := Nat.eqb (length rest) (length s).

Example strtol_examples :
  map (fun s => strtol (bs s)) ["42"; " -7x"; "+0"; "abc"; "-"; "99999999999999999999"; "-99999999999999999999"]%string =
  [(42, [], false); (-7, bs "x", false); (0, [], false); (0, bs "abc", false); (0, bs "-", false); (LONG_MAX, [], true); (LONG_MIN, [], true)].
Proof. vm_compute. reflexivity. Qed.

(** ** Lemmas *)

Lemma strtol_range s : let '(v, _, _) := strtol s in LONG_MIN <= v <= LONG_MAX.
Proof.
  unfold strtol. destruct (sign _) as [negative rest]. destruct (take_while is_digit rest); [done|]. cbv zeta.
  match goal with |- context [LONG_MAX <? ?v] => generalize v; intros n end.
  destruct (Z.ltb_spec LONG_MAX n); [done|]. destruct (Z.ltb_spec n LONG_MIN); [done|lia].
Qed.

Lemma strtol_suffix s : let '(_, rest, _) := strtol s in exists p, s = p ++ rest.
Proof.
  unfold strtol. pose proof (take_drop_while is_space s) as E. remember (take_while is_space s) as w eqn:Ew. clear Ew.
  remember (drop_while is_space s) as r eqn:Er. clear Er. subst s.
  assert (H : exists p, r = p ++ snd (sign r)).
  { destruct r as [|c r]; [by exists []|]. unfold sign.
    repeat (match goal with |- context [match ?c with _ => _ end] => destruct c end; try (by exists [])); by eexists [_]. }
  destruct (sign r) as [negative rest]. cbn [snd] in H. destruct H as [p ->].
  destruct (take_while is_digit rest) as [|d ds] eqn:Ed; [by exists []|]. cbv zeta.
  assert (Hs : exists q, w ++ p ++ rest = q ++ drop_while is_digit rest).
  { exists (w ++ p ++ take_while is_digit rest). rewrite <- !app_assoc. by rewrite take_drop_while. }
  destruct (LONG_MAX <? _); [exact Hs|]. destruct (_ <? LONG_MIN); exact Hs.
Qed.

(** Reading back [%d] and [%lld]. *)
Lemma strtol_print_dec n : 0 <= n <= LONG_MAX -> strtol (print_dec n) = (n, [], false).
Proof.
  intros Hn. destruct (print_dec_digits n ltac:(lia)) as [Hne Hd]. unfold LONG_MAX in *.
  pose proof (print_dec_value n ltac:(lia)) as Hv. unfold strtol.
  assert (Hall : Forall (fun c => is_digit c = true) (print_dec n)).
  { eapply Forall_impl; [exact Hd|]. intros c Hc. unfold is_digit. cbn in Hc. lia. }
  assert (Hsp : drop_while is_space (print_dec n) = print_dec n).
  { destruct (print_dec n) as [|c l]; [done|]. apply Forall_cons in Hd as [Hc _]. cbn [drop_while]. unfold is_space.
    destruct (_ || _) eqn:E; [lia|done]. }
  rewrite Hsp. assert (Hsg : sign (print_dec n) = (false, print_dec n)).
  { destruct (print_dec n) as [|c l]; [done|]. apply Forall_cons in Hd as [Hc _]. unfold sign.
    repeat (match goal with |- context [match ?c with _ => _ end] => destruct c end; try done; try lia). }
  rewrite Hsg. rewrite (proj1 (take_drop_while_id _ _ Hall)), (proj2 (take_drop_while_id _ _ Hall)).
  destruct (print_dec n) as [|c l]; [done|]. cbv zeta. rewrite Hv. unfold LONG_MAX, LONG_MIN.
  destruct (Z.ltb_spec (2 ^ 63 - 1) n); [lia|]. destruct (Z.ltb_spec n (- 2 ^ 63)); [lia|]. done.
Qed.
