(* ===== verification/Log.v ===== *)
(** * The log ([src/src/log/log.c])

    Levels, the timestamp, the escaping of a message and the line that reaches
    stderr and the log file.  The mutex is not modelled: it makes a write of a
    line one step. *)

From S2P Require Import Prelude CveId Strtod Calendar.

(** [cytadel_log_level_t]; an enumerator is its number. *)
Inductive log_level := LOG_DEBUG | LOG_INFO | LOG_WARN | LOG_ERROR | LOG_AUDIT.

#[export] Instance log_level_eq_dec : EqDecision log_level.
Proof. solve_decision. Defined.

Definition level_number (l : log_level) : Z :=
  match l with LOG_DEBUG => 0 | LOG_INFO => 1 | LOG_WARN => 2 | LOG_ERROR => 3 | LOG_AUDIT => 4 end.

Definition LOG_MSG_MAX : Z := 4096.
Definition LOG_SANITIZED_MAX : Z := LOG_MSG_MAX * 4 + 1.
Definition ISO8601_BUF_LEN : Z := 32.

(** [strcasecmp] with a lower-case literal. *)
Definition strcasecmp_equal (name : bytes) (literal : string) : bool := bool_decide (map lower name = bs literal).

Definition log_level_from_string (name : option bytes) : option log_level :=
  match name with
  | None => None
  | Some name =>
      if strcasecmp_equal name "debug" then Some LOG_DEBUG else
      if strcasecmp_equal name "info" then Some LOG_INFO else
      if strcasecmp_equal name "warn" then Some LOG_WARN else
      if strcasecmp_equal name "error" then Some LOG_ERROR else None
  end.

Definition log_level_to_string (l : log_level) : bytes :=
  match l with
  | LOG_DEBUG => bs "DEBUG" | LOG_INFO => bs "INFO" | LOG_WARN => bs "WARN" | LOG_ERROR => bs "ERROR" | LOG_AUDIT => bs "AUDIT"
  end.

(** ** The timestamp *)

(** [%04d] of a year. *)
Definition year_digits (y : Z) : bytes :=
  if y <? 0 then 45 :: (if -1000 <? y then pad_digits 3 (- y) else print_dec (- y))
  else if y <=? 9999 then pad_digits 4 y else print_dec y.

(** [cytadel_log_format_timestamp_utc]; [clock] is [clock_gettime], seconds and
    nanoseconds, and [gmtime_r] is the civil date of the day. *)
Definition format_timestamp_utc (clock : option (Z * Z)) (buf_len : Z) : option bytes :=
  if buf_len <? ISO8601_BUF_LEN then None else
  match clock with
  | None => None
  | Some (sec, nsec) =>
      let '(y, m, d) := civil_from_days (sec / 86400) in
      let tod := sec mod 86400 in
      let msec := Z.quot nsec 1000000 in
      let written := year_digits y ++ [45] ++ pad_digits 2 m ++ [45] ++ pad_digits 2 d ++ [84] ++
        pad_digits 2 (tod / 3600) ++ [58] ++ pad_digits 2 (tod / 60 mod 60) ++ [58] ++ pad_digits 2 (tod mod 60) ++ [46] ++
        pad_digits 3 msec ++ [90] in
      if buf_len <=? Z.of_nat (length written) then None else Some written
  end.

(** ** Escaping *)

Definition hex_digit (n : Z) : byte := if n <? 10 then 48 + n else 87 + n.

(** ["\\x%02x"] *)
Definition control_escape (c : byte) : bytes := [92; 120; hex_digit (c / 16); hex_digit (c mod 16)].

Definition is_control (c : byte) : bool := (c <? 32) || (c =? 127).

(** The loop of [cytadel_log_sanitize]: what is written so far. *)
Fixpoint sanitize_loop (inp out : bytes) (out_len : Z) : bytes :=
  match inp with
  | [] => out
  | c :: inp =>
      if c =? 0 then out else
      if is_control c then
        if out_len <=? Z.of_nat (length out) + 4 then out else sanitize_loop inp (out ++ control_escape c) out_len
      else
        if out_len <=? Z.of_nat (length out) + 1 then out else sanitize_loop inp (out ++ [c]) out_len
  end.

Definition sanitize (inp : bytes) (out_len : Z) : bytes := sanitize_loop inp [] out_len.

(** ** Writing *)

(** The level filter, what stderr got, the log file that is open and the
    contents of files. *)
Record logger := Logger {
  min_level : log_level;
  err : bytes;
  log_file : option bytes;
  files : gmap bytes bytes
}.

Definition write_err (s : bytes) (g : logger) : logger := Logger (min_level g) (err g ++ s) (log_file g) (files g).

Definition file_text (p : bytes) (g : logger) : bytes := default [] (files g !! p).

(** Appending to the open log file. *)
Definition write_file (s : bytes) (g : logger) : logger :=
  match log_file g with
  | None => g
  | Some p => Logger (min_level g) (err g) (log_file g) (<[p := file_text p g ++ s]> (files g))
  end.

(** The buffer [vsnprintf] leaves; [None] is its failure. *)
Definition message_buffer (formatted : option bytes) : bytes :=
  match formatted with
  | None => bs "<log message formatting error>"
  | Some text => take (Z.to_nat (LOG_MSG_MAX - 1)) text
  end.

Definition no_timestamp : bytes := bs "0000-00-00T00:00:00.000Z".

Definition log_text (level : log_level) (clock : option (Z * Z)) (formatted : option bytes) : bytes :=
  default no_timestamp (format_timestamp_utc clock ISO8601_BUF_LEN) ++ bs " [" ++ log_level_to_string level ++ bs "] " ++
  sanitize (message_buffer formatted) LOG_SANITIZED_MAX ++ [10].

(** [cytadel_log_vwrite] *)
Definition log_vwrite (level : log_level) (clock : option (Z * Z)) (formatted : option bytes) (g : logger) : logger :=
  if negb (bool_decide (level = LOG_AUDIT)) && (level_number level <? level_number (min_level g)) then g else
  write_file (log_text level clock formatted) (write_err (log_text level clock formatted) g).

Definition log_audit := log_vwrite LOG_AUDIT.

Definition log_close (g : logger) : logger := Logger (min_level g) (err g) None (files g).

Definition log_set_level (level : log_level) (g : logger) : logger := Logger level (err g) (log_file g) (files g).

(** Opening the log file: [open] refuses a symbolic link; the message of
    [strerror] otherwise. *)
Inductive log_open := LogOpened | OpenFailed (reason : bytes) | FdopenFailed (reason : bytes).

Definition open_warning (path reason : bytes) : bytes :=
  bs "cytadel-scan: warning: could not open log file '" ++ path ++ bs "' (" ++ reason ++ bs "); continuing with stderr-only logging" ++ [10].

(** [O_CREAT] *)
Definition create_file (p : bytes) (g : logger) : logger := Logger (min_level g) (err g) (log_file g) (<[p := file_text p g]> (files g)).

(** [cytadel_log_init]; it returns 0 whatever happens. *)
Definition log_init (open_log : bytes -> log_open) (level : log_level) (log_file_path : option bytes) (g : logger) : Z * logger :=
  let g := log_close (log_set_level level g) in
  match log_file_path with
  | None | Some [] => (0, g)
  | Some p =>
      match open_log p with
      | OpenFailed reason => (0, write_err (open_warning p reason) g)
      | FdopenFailed reason => (0, write_err (open_warning p reason) (create_file p g))
      | LogOpened => let g := create_file p g in (0, Logger (min_level g) (err g) (Some p) (files g))
      end
  end.

(** ** Lemmas *)

(** What each character becomes. *)
Definition escaped (c : byte) : bytes := if is_control c then control_escape c else [c].

Lemma sanitize_loop_spec inp out out_len :
  Z.of_nat (length out) + 4 * Z.of_nat (length inp) < out_len -> sanitize_loop inp out out_len = out ++ concat (map escaped (c_string inp)).
Proof.
  induction inp as [|c inp IH] in out |- *; cbn [sanitize_loop length]; intros Hl; [by rewrite app_nil_r|].
  unfold c_string. cbn [take_while]. fold (c_string inp). destruct (c =? 0); cbn [negb]; [by rewrite app_nil_r|].
  cbn [map concat]. unfold escaped at 1. destruct (is_control c).
  - destruct (Z.leb_spec out_len (Z.of_nat (length out) + 4)); [lia|]. rewrite IH, <- app_assoc; [done|]. rewrite length_app. cbn [length control_escape]. lia.
  - destruct (Z.leb_spec out_len (Z.of_nat (length out) + 1)); [lia|]. rewrite IH, <- app_assoc; [done|]. rewrite length_app. cbn [length]. lia.
Qed.

Lemma sanitize_bounded inp out out_len :
  Z.of_nat (length out) < out_len -> Z.of_nat (length (sanitize_loop inp out out_len)) < out_len.
Proof.
  induction inp as [|c inp IH] in out |- *; cbn [sanitize_loop]; intros Hl; [done|]. destruct (c =? 0); [done|]. destruct (is_control c).
  - destruct (Z.leb_spec out_len (Z.of_nat (length out) + 4)); [done|]. apply IH. rewrite length_app. cbn [length control_escape]. lia.
  - destruct (Z.leb_spec out_len (Z.of_nat (length out) + 1)); [done|]. apply IH. rewrite length_app. cbn [length]. lia.
Qed.

(** A printed text: no control character. *)
Definition printable (s : bytes) : Prop := Forall (fun c => is_control c = false) s.

Lemma hex_digit_printable n : 0 <= n < 16 -> is_control (hex_digit n) = false.
Proof. intros Hn. unfold is_control, hex_digit. destruct (n <? 10) eqn:E; breflect; lia. Qed.

Lemma escaped_printable c : 0 <= c < 256 -> printable (escaped c).
Proof.
  intros Hc. unfold escaped. destruct (is_control c) eqn:E; [|by repeat constructor].
  unfold control_escape, printable. repeat constructor.
  - apply hex_digit_printable. split; [apply Z.div_pos; lia|apply Z.div_lt_upper_bound; lia].
  - apply hex_digit_printable. apply Z.mod_pos_bound. lia.
Qed.

Lemma sanitize_loop_printable inp out out_len :
  Forall (fun c => 0 <= c < 256) inp -> printable out -> printable (sanitize_loop inp out out_len).
Proof.
  intros Hi. induction Hi as [|c inp Hc _ IH] in out |- *; cbn [sanitize_loop]; intros Ho; [done|]. destruct (c =? 0); [done|].
  pose proof (escaped_printable c Hc) as He. unfold escaped in He. destruct (is_control c); destruct (_ <=? _); try done; apply IH, Forall_app; done.
Qed.

Lemma pad_digits_printable n v : 0 <= v -> printable (pad_digits n v).
Proof.
  induction n as [|n IH] in v |- *; intros Hv; cbn [pad_digits]; [constructor|]. apply Forall_app. split.
  - apply IH. rewrite Z.quot_div_nonneg by lia. apply Z.div_pos; lia.
  - repeat constructor. rewrite Z.rem_mod_nonneg by lia. pose proof (Z.mod_pos_bound v 10). unfold is_control. destruct (_ || _) eqn:E; [breflect; lia|done].
Qed.

Lemma print_dec_printable n : 0 <= n -> printable (print_dec n).
Proof.
  intros Hn. destruct (print_dec_digits n Hn) as [_ Hd]. eapply Forall_impl; [exact Hd|]. intros c Hc. cbn in Hc.
  unfold is_control. destruct (_ || _) eqn:E; [breflect; lia|done].
Qed.

Lemma year_digits_printable y : printable (year_digits y).
Proof.
  unfold year_digits. destruct (Z.ltb_spec y 0).
  - constructor; [done|]. destruct (-1000 <? y); [apply pad_digits_printable; lia|apply print_dec_printable; lia].
  - destruct (y <=? 9999); [by apply pad_digits_printable|by apply print_dec_printable].
Qed.

Lemma literal_printable s : forallb (fun c => negb (is_control c)) s = true -> printable s.
Proof.
  intros H. rewrite forallb_forall in H. apply Forall_forall. intros c Hc. apply negb_true_iff, H. by apply list_elem_of_In.
Qed.

Definition clock_ok (clock : option (Z * Z)) : Prop := match clock with Some (_, nsec) => 0 <= nsec < 1000000000 | None => True end.

Lemma timestamp_printable clock buf_len : clock_ok clock -> printable (default no_timestamp (format_timestamp_utc clock buf_len)).
Proof.
  intros Hc. assert (Hd : printable no_timestamp) by by apply literal_printable. unfold format_timestamp_utc. destruct (_ <? _); [done|].
  destruct clock as [[sec nsec]|]; [|done]. cbn in Hc. pose proof (days_civil_days (sec / 86400)) as HD.
  destruct (civil_from_days _) as [[y m] d]. destruct HD as [[Hm Hday] _]. cbv zeta. destruct (_ <=? _); [done|]. cbn [default]. unfold id.
  pose proof (Z.mod_pos_bound sec 86400 ltac:(lia)) as Ht. unfold printable. rewrite !Forall_app.
  split_and!; try (repeat constructor; done); try apply year_digits_printable; apply pad_digits_printable; lia.
Qed.

(** In the years the sync accepts, a timestamp is the canonical form of the
    instant, so what the log formats the sync parses back. *)
Lemma timestamp_is_instant sec nsec s :
  0 <= nsec < 1000000000 ->
  format_instant (Instant (sec / 86400) (sec mod 86400 * 1000 + nsec / 1000000)) = Some s ->
  format_timestamp_utc (Some (sec, nsec)) ISO8601_BUF_LEN = Some s.
Proof.
  intros Hn. unfold format_instant, format_timestamp_utc. cbn [days ms_of_day]. destruct (civil_from_days _) as [[y m] d].
  destruct (_ || _) eqn:Ey; [done|]. breflect. destruct (_ || _); [done|]. cbv zeta. intros E. apply (inj Some) in E. rewrite <- E. clear E. change (ISO8601_BUF_LEN <? ISO8601_BUF_LEN) with false. cbv iota.
  pose proof (Z.mod_pos_bound sec 86400 ltac:(lia)) as Ht. set (tod := sec mod 86400) in *.
  rewrite (Z.quot_div_nonneg nsec 1000000) by lia. set (ms := nsec / 1000000).
  assert (Hms : 0 <= ms < 1000) by (unfold ms; split; [apply Z.div_pos; lia|apply Z.div_lt_upper_bound; lia]). clearbody ms.
  rewrite !Z.quot_div_nonneg, !Z.rem_mod_nonneg by (try apply Z.div_pos; lia).
  assert (Hdiv : (tod * 1000 + ms) / 1000 = tod) by (rewrite Z.div_add_l, (Z.div_small ms), Z.add_0_r by lia; done).
  replace ((tod * 1000 + ms) / 3600000) with (tod / 3600) by (change 3600000 with (1000 * 3600); rewrite <- (Z.div_div _ 1000 3600), Hdiv by lia; done).
  replace ((tod * 1000 + ms) / 60000) with (tod / 60) by (change 60000 with (1000 * 60); rewrite <- (Z.div_div _ 1000 60), Hdiv by lia; done).
  rewrite Hdiv.
  replace ((tod * 1000 + ms) mod 1000) with ms by (rewrite Z.add_comm, Z.mod_add, Z.mod_small by lia; done).
  unfold year_digits. destruct (Z.ltb_spec y 0); [lia|]. destruct (Z.leb_spec y 9999); [|lia].
  match goal with |- context [if ?b then None else _] => destruct b eqn:E end; [|done]. breflect. exfalso. revert E.
  rewrite !length_app, !length_pad_digits. cbn. unfold ISO8601_BUF_LEN. lia.
Qed.

(** ** Theorems *)

(** C27: A log entry cannot be forged or lost.  Whatever bytes the message was
    formatted from, an entry that passes the level filter is exactly one line,
    appended to stderr and to the log file if one is open: the timestamp, the
    level and the message with every control character escaped, so no byte of
    it can end the line or start another; no other file changes.  An audit
    entry passes the filter at every level, anything below the level leaves
    no trace. *)
Theorem log_line_unforgeable level clock formatted g :
  clock_ok clock -> Forall (fun c => 0 <= c < 256) (default [] formatted) ->
  let g' := log_vwrite level clock formatted g in
  (level <> LOG_AUDIT -> level_number level < level_number (min_level g) -> g' = g) /\
  (level = LOG_AUDIT \/ level_number (min_level g) <= level_number level ->
   exists line, printable line /\
     line = default no_timestamp (format_timestamp_utc clock ISO8601_BUF_LEN) ++ bs " [" ++ log_level_to_string level ++ bs "] " ++
            concat (map escaped (c_string (message_buffer formatted))) /\
     err g' = err g ++ line ++ [10] /\ log_file g' = log_file g /\
     (forall p, log_file g = Some p -> file_text p g' = file_text p g ++ line ++ [10]) /\
     (forall p, log_file g <> Some p -> files g' !! p = files g !! p)).
Proof.
  intros Hc Hb. cbv zeta. unfold log_vwrite. split.
  - intros Hl Hn. rewrite bool_decide_eq_false_2 by done. cbn [negb andb]. by rewrite (proj2 (Z.ltb_lt _ _) Hn).
  - intros Hl. assert (negb (bool_decide (level = LOG_AUDIT)) && (level_number level <? level_number (min_level g)) = false) as ->.
    { destruct Hl as [->|Hl]; [done|]. destruct (Z.ltb_spec (level_number level) (level_number (min_level g))); [lia|]. by rewrite andb_false_r. }
    set (body := sanitize (message_buffer formatted) LOG_SANITIZED_MAX).
    set (line := default no_timestamp (format_timestamp_utc clock ISO8601_BUF_LEN) ++ bs " [" ++ log_level_to_string level ++ bs "] " ++ body).
    assert (Hbuf : (length (message_buffer formatted) <= 4095)%nat /\ Forall (fun c => 0 <= c < 256) (message_buffer formatted)).
    { unfold message_buffer. destruct formatted as [text|].
      - split; [rewrite length_take; unfold LOG_MSG_MAX; lia|]. by apply Forall_take.
      - split; [cbn; lia|]. vm_compute. repeat constructor; done. }
    assert (Hbody : body = concat (map escaped (c_string (message_buffer formatted)))).
    { unfold body, sanitize. rewrite sanitize_loop_spec; [done|]. unfold LOG_SANITIZED_MAX, LOG_MSG_MAX. cbn [length]. lia. }
    assert (Htext : log_text level clock formatted = line ++ [10]) by (unfold log_text, line; by rewrite <- !app_assoc).
    exists line. split_and!.
    + unfold line, printable. rewrite !Forall_app. split_and!; try (by apply literal_printable).
      * by apply timestamp_printable.
      * apply literal_printable. by destruct level.
      * unfold body, sanitize. apply sanitize_loop_printable; [by apply Hbuf|constructor].
    + unfold line. by rewrite Hbody.
    + rewrite Htext. unfold write_file. by destruct (log_file (write_err _ g)).
    + unfold write_file. destruct (log_file (write_err _ g)) eqn:E; [by rewrite <- E|done].
    + intros p Hp. rewrite Htext. unfold write_file. change (log_file (write_err (line ++ [10]) g)) with (log_file g). rewrite Hp.
      unfold file_text. cbn [files]. by rewrite lookup_insert_eq.
    + intros p Hp. unfold write_file. change (log_file (write_err (log_text level clock formatted) g)) with (log_file g).
      destruct (log_file g) as [q|]; [|done]. cbn [files]. rewrite lookup_insert_ne by congruence. done.
Qed.

Lemma log_line_unforgeable_witness :
  let g := Logger LOG_ERROR [] (Some (bs "scan.log")) {[ bs "scan.log" := bs "" ]} in
  let g' := log_audit (Some (1709210096, 700000000)) (Some (bs "operator='ops" ++ [10] ++ bs "2024 [AUDIT] forged'")) g in
  err g' = bs "2024-02-29T12:34:56.700Z [AUDIT] operator='ops\x0a2024 [AUDIT] forged'" ++ [10] /\ file_text (bs "scan.log") g' = err g'.
Proof.
  cbv zeta. set (g := Logger _ _ _ _).
  destruct (log_line_unforgeable LOG_AUDIT (Some (1709210096, 700000000)) (Some (bs "operator='ops" ++ [10] ++ bs "2024 [AUDIT] forged'")) g) as [_ H].
  - cbn. lia.
  - cbn [default]. vm_compute. repeat constructor; intros; discriminate.
  - destruct (H (or_introl eq_refl)) as (line & _ & Hl & He & _ & Hf & _). specialize (Hf (bs "scan.log") eq_refl).
    unfold log_audit. rewrite He, Hf. split; [|vm_compute; reflexivity]. rewrite Hl. vm_compute. reflexivity.
Defined.
