(* ===== verification/NvdFetch.v ===== *)
(** * The HTTP transport of the feeds ([src/src/net/nvd_fetch.c])

    One GET over libcurl with a body cap, fixed TLS and redirect options and a
    secret header, inside a bounded retry loop with backoff.  libcurl is a
    parameter: which options it accepts, what a transfer delivers, how it
    escapes a string.  A handle, an entry of a header list and an escaped
    string are blocks of the heap until the function that releases them is
    called. *)

From S2P Require Import Prelude CveId Strtod Strtol.

Definition SIZE_MAX : Z := 2 ^ 64 - 1.
Definition size_t (z : Z) : Z := z mod 2 ^ 64.

(** [cytadel_nvd_fetch_status_t] *)
Inductive fetch_status :=
  FETCH_OK | FETCH_ERR_INVALID_ARG | FETCH_ERR_TRANSPORT | FETCH_ERR_AUTH | FETCH_ERR_RATE_LIMITED | FETCH_ERR_SERVER | FETCH_ERR_HTTP.

#[export] Instance fetch_status_eq_dec : EqDecision fetch_status.
Proof. solve_decision. Defined.

Definition fetch_status_to_string (s : fetch_status) : bytes :=
  match s with
  | FETCH_OK => bs "OK" | FETCH_ERR_INVALID_ARG => bs "INVALID_ARG" | FETCH_ERR_TRANSPORT => bs "TRANSPORT" | FETCH_ERR_AUTH => bs "AUTH"
  | FETCH_ERR_RATE_LIMITED => bs "RATE_LIMITED" | FETCH_ERR_SERVER => bs "SERVER" | FETCH_ERR_HTTP => bs "HTTP"
  end.

(** [cytadel_nvd_fetch_config_t] *)
Record fetch_config := FetchConfig {
  base_url : option bytes;
  results_per_page : Z;
  connect_timeout_sec : Z;
  total_timeout_sec : Z;
  low_speed_limit_bytes : Z;
  low_speed_time_sec : Z;
  max_response_bytes : Z;
  max_retries : Z;
  backoff_initial_ms : Z;
  backoff_max_ms : Z;
  retry_after_max_sec : Z;
  ca_info_path : option bytes
}.

Definition NVD_FETCH_DEFAULT_BASE_URL : bytes := bs "https://services.nvd.nist.gov/rest/json/cves/2.0".
Definition NVD_FETCH_DEFAULT_MAX_BODY_BYTES : Z := 64 * 1024 * 1024.
Definition NVD_FETCH_USER_AGENT : bytes := bs "cytadel-scan-nvd-sync/1.0".
Definition NVD_FETCH_MAX_RESULTS : Z := 2000.
Definition NVD_FETCH_URL_BUF_LEN : Z := 4096.
Definition NVD_FETCH_APIKEY_MAX_LEN : Z := 256.
Definition NVD_FETCH_APIKEY_HEADER_BUF_LEN : Z := 8 + NVD_FETCH_APIKEY_MAX_LEN + 1.

(** [cytadel_nvd_fetch_config_init_default] *)
Definition config_init_default : fetch_config :=
  FetchConfig (Some NVD_FETCH_DEFAULT_BASE_URL) NVD_FETCH_MAX_RESULTS 10 60 256 30 NVD_FETCH_DEFAULT_MAX_BODY_BYTES 5 1000 30000 60
    (Some (bs "/etc/ssl/certs/ca-certificates.crt")).

(** ** The write callback *)

(** [fetch_write_ctx_t]; the buffer is NULL while its capacity is 0. *)
Record write_ctx := WriteCtx { w_data : bytes; alloc_cap : Z; hard_cap : Z; aborted : bool }.

Definition w_len (ctx : write_ctx) : Z := Z.of_nat (length (w_data ctx)).

Definition abort (ctx : write_ctx) : write_ctx := WriteCtx (w_data ctx) (alloc_cap ctx) (hard_cap ctx) true.

(** The doubling loop; a size has 64 bits, so 64 rounds are enough. *)
Fixpoint grow_cap (fuel : nat) (new_cap need : Z) : Z :=
  match fuel with
  | O => new_cap
  | S fuel => if new_cap <? need then if SIZE_MAX / 2 <? new_cap then need else grow_cap fuel (new_cap * 2) need else new_cap
  end.

(** [fetch_write_cb]: [ptr] are [size * nmemb] bytes; the value returned. *)
Definition fetch_write_cb (ptr : bytes) (size nmemb : Z) (ctx : write_ctx) (h : heap) : Z * write_ctx * heap :=
  if negb (size =? 0) && (SIZE_MAX / size <? nmemb) then (0, abort ctx, h) else
  let add := size_t (size * nmemb) in
  if add =? 0 then (0, ctx, h) else
  if size_t (hard_cap ctx - w_len ctx) <? add then (0, abort ctx, h) else
  let need := size_t (w_len ctx + add + 1) in
  let '(ok, ctx, h) :=
    if alloc_cap ctx <? need then
      let new_cap := grow_cap 64 (if alloc_cap ctx =? 0 then 8192 else alloc_cap ctx) need in
      let new_cap := if size_t (hard_cap ctx + 1) <? new_cap then size_t (hard_cap ctx + 1) else new_cap in
      let '(ok, h) := realloc (negb (alloc_cap ctx =? 0)) h in
      (ok, (if ok : bool then WriteCtx (w_data ctx) new_cap (hard_cap ctx) (aborted ctx) else ctx), h)
    else (true, ctx, h) in
  if negb ok then (0, abort ctx, h) else
  (add, WriteCtx (w_data ctx ++ take (Z.to_nat add) ptr) (alloc_cap ctx) (hard_cap ctx) (aborted ctx), h).

(** [free(ctx.buf)] *)
Definition free_buf (ctx : write_ctx) (h : heap) : heap := free_if (negb (alloc_cap ctx =? 0)) h.

(** ** The header with the key *)

Definition url_is_https (url : bytes) : bool := bool_decide (map lower (take 8 url) = bs "https://").

(** [curl_slist_append]: one block for the new entry; NULL without memory. *)
Definition curl_slist_append (l : list bytes) (line : bytes) (h : heap) : option (list bytes) * heap :=
  let '(ok, h) := malloc h in (if ok then Some (l ++ [line]) else None, h).

(** [curl_slist_free_all] *)
Definition curl_slist_free_all (l : list bytes) (h : heap) : heap := foldr (fun _ h => free_block h) h l.

(** [append_api_key_header], with the environment variable. *)
Definition append_api_key_header (key : option bytes) (headers : list bytes) (url : bytes) (h : heap) : list bytes * heap :=
  match key with
  | None | Some [] => (headers, h)
  | Some key =>
      if negb (url_is_https url) then (headers, h) else
      let key_len := Z.min (Z.of_nat (length key)) (NVD_FETCH_APIKEY_MAX_LEN + 1) in
      if NVD_FETCH_APIKEY_MAX_LEN <? key_len then (headers, h) else
      let header_line := bs "apiKey: " ++ take (Z.to_nat key_len) key in
      if NVD_FETCH_APIKEY_HEADER_BUF_LEN <=? Z.of_nat (length header_line) then (headers, h) else
      let '(updated, h) := curl_slist_append headers header_line h in (default headers updated, h)
  end.

(** A block that libcurl allocated for the program. *)
Definition curl_block (h : heap) : heap := Heap (oracle h) (live h + 1).

(** ** The URL of a page *)

Section Fetch.
Context {W : Type}.
(** libcurl: a new handle; the escaping of a string, NULL without memory. *)
Variable curl_easy_init : W -> bool * W.
Variable curl_easy_escape : bytes -> option bytes.

(** The escaped string is a block, released by [curl_free]; NULL is none. *)
Definition escape_string (s : bytes) (h : heap) : option bytes * heap :=
  match curl_easy_escape s with Some e => (Some e, curl_block h) | None => (None, h) end.

Definition curl_free (s : option bytes) (h : heap) : heap := free_if (bool_decide (is_Some s)) h.

(** [build_url] *)
Definition build_url (cfg : fetch_config) (start_index : Z) (last_mod_start_date last_mod_end_date : option bytes) (out_url_cap : Z) (h : heap) :
    option bytes * heap :=
  let head := default [] (base_url cfg) ++ bs "?resultsPerPage=" ++ print_dec (results_per_page cfg) ++ bs "&startIndex=" ++ print_dec start_index in
  let n := Z.of_nat (length head) in
  if out_url_cap <=? n then (None, h) else
  match last_mod_start_date with
  | None => (Some head, h)
  | Some start_date =>
      let '(esc_start, h) := escape_string start_date h in
      let '(esc_end, h) := escape_string (default [] last_mod_end_date) h in
      let url :=
        match esc_start, esc_end with
        | Some esc_start, Some esc_end =>
            let tail := bs "&lastModStartDate=" ++ esc_start ++ bs "&lastModEndDate=" ++ esc_end in
            if out_url_cap - n <=? Z.of_nat (length tail) then None else Some (head ++ tail)
        | _, _ => None
        end in
      let h := curl_free esc_start h in
      let h := curl_free esc_end h in
      (url, h)
  end.

(** ** One attempt *)

(** The options whose setting is checked. *)
Inductive critical_option :=
  | FOLLOWLOCATION (v : Z)
  | PROTOCOLS_STR (v : bytes)
  | REDIR_PROTOCOLS_STR (v : bytes)
  | SSL_VERIFYPEER (v : Z)
  | SSL_VERIFYHOST (v : Z)
  | CAINFO (path : bytes).

(** What [curl_easy_perform] is asked to do; [r_headers] is
    [CURLOPT_HTTPHEADER]. *)
Record request := Request {
  r_url : bytes;
  r_httpget : Z;
  r_headers : list bytes;
  r_user_agent : bytes;
  r_nosignal : Z;
  r_connect_timeout : Z;
  r_timeout : Z;
  r_low_speed_limit : Z;
  r_low_speed_time : Z;
  r_options : list critical_option
}.

(** The headers of a request that are ours, not libcurl's own. *)
Definition sent_headers (r : request) : list bytes := (bs "User-Agent: " ++ r_user_agent r) :: r_headers r.

(** What a transfer delivers: the pieces of the body, whether the network
    carried all of it, the status, the Retry-After header. *)
Record transfer := Transfer { t_chunks : list bytes; t_ok : bool; t_status : Z; t_retry_after : option bytes }.

Inductive attempt_result :=
  | ATTEMPT_OK | ATTEMPT_RETRY_429 | ATTEMPT_RETRY_5XX | ATTEMPT_RETRY_TRANSPORT | ATTEMPT_AUTH_FAIL | ATTEMPT_HTTP_FAIL | ATTEMPT_TRANSPORT_FAIL.

#[export] Instance attempt_result_eq_dec : EqDecision attempt_result.
Proof. solve_decision. Defined.

Variable curl_setopt_ok : critical_option -> bool.
Variable curl_perform : request -> W -> transfer * W.
(** The environment variable with the key. *)
Variable api_key : option bytes.

Definition critical_options (cfg : fetch_config) : list critical_option :=
  [FOLLOWLOCATION 0; PROTOCOLS_STR (bs "http,https"); REDIR_PROTOCOLS_STR (bs "http,https"); SSL_VERIFYPEER 1; SSL_VERIFYHOST 2] ++
  match ca_info_path cfg with None | Some [] => [] | Some path => [CAINFO path] end.

(** The callback on the pieces, until it returns short: then curl stops with
    an error. *)
Fixpoint deliver (chunks : list bytes) (ctx : write_ctx) (h : heap) : bool * write_ctx * heap :=
  match chunks with
  | [] => (true, ctx, h)
  | chunk :: chunks =>
      let n := Z.of_nat (length chunk) in
      let '(consumed, ctx, h) := fetch_write_cb chunk 1 n ctx h in
      if consumed =? n then deliver chunks ctx h else (false, ctx, h)
  end.

Definition retry_after_sec (header : option bytes) : Z :=
  match header with
  | None => 0
  | Some value =>
      let '(v, rest, erange) := strtol value in
      if negb erange && negb (no_conversion value rest) && (0 <=? v) then v else 0
  end.

(** [do_one_attempt]: the result, the body (NULL when nothing was written) and
    the wait the server asks for. *)
Definition do_one_attempt (cfg : fetch_config) (url : bytes) (attach_api_key : bool) (w : W) (h : heap) :
    attempt_result * option bytes * Z * W * heap :=
  let '(ok, w) := curl_easy_init w in
  if negb ok then (ATTEMPT_TRANSPORT_FAIL, None, 0, w, h) else
  let h := curl_block h in
  let '(headers, h) := if attach_api_key then append_api_key_header api_key [] url h else ([], h) in
  let cleanup (h : heap) := free_block (curl_slist_free_all headers h) in
  if negb (forallb curl_setopt_ok (critical_options cfg)) then (ATTEMPT_TRANSPORT_FAIL, None, 0, w, cleanup h) else
  let '(t, w) := curl_perform (Request url 1 headers NVD_FETCH_USER_AGENT 1 (connect_timeout_sec cfg) (total_timeout_sec cfg) (low_speed_limit_bytes cfg)
                                 (low_speed_time_sec cfg) (critical_options cfg)) w in
  let '(consumed, ctx, h) := deliver (t_chunks t) (WriteCtx [] 0 (max_response_bytes cfg) false) h in
  if negb (consumed && t_ok t) then
    if aborted ctx then (ATTEMPT_TRANSPORT_FAIL, None, 0, w, cleanup (free_buf ctx h))
    else (ATTEMPT_RETRY_TRANSPORT, None, 0, w, cleanup (free_buf ctx h))
  else if t_status t =? 200 then
    (ATTEMPT_OK, (if alloc_cap ctx =? 0 then None else Some (w_data ctx)), 0, w, cleanup h)
  else if t_status t =? 429 then (ATTEMPT_RETRY_429, None, retry_after_sec (t_retry_after t), w, cleanup (free_buf ctx h))
  else if (500 <=? t_status t) && (t_status t <=? 599) then (ATTEMPT_RETRY_5XX, None, 0, w, cleanup (free_buf ctx h))
  else if (t_status t =? 401) || (t_status t =? 403) then (ATTEMPT_AUTH_FAIL, None, 0, w, cleanup (free_buf ctx h))
  else (ATTEMPT_HTTP_FAIL, None, 0, w, cleanup (free_buf ctx h)).

(** ** Backoff *)

Definition uint32 (z : Z) : Z := z mod 2 ^ 32.

(** [fetch_prng_next]: the next state, which is the number drawn. *)
Definition fetch_prng_next (state : Z) : Z :=
  let x := if state =? 0 then 0x9e3779b9 else state in
  let x := Z.lxor x (uint32 (Z.shiftl x 13)) in
  let x := Z.lxor x (Z.shiftr x 17) in
  Z.lxor x (uint32 (Z.shiftl x 5)).

(** The doublings of [compute_backoff_ms]. *)
Fixpoint backoff_loop (rounds : nat) (delay backoff_max : Z) : Z :=
  match rounds with
  | O => delay
  | S rounds => if backoff_max - delay <=? delay then backoff_max else backoff_loop rounds (delay * 2) backoff_max
  end.

Definition backoff_base (cfg : fetch_config) (attempt : Z) : Z :=
  let delay := Z.max 0 (backoff_initial_ms cfg) in
  let delay := backoff_loop (Z.to_nat (attempt - 1)) delay (backoff_max_ms cfg) in
  if backoff_max_ms cfg <? delay then backoff_max_ms cfg else delay.

(** [compute_backoff_ms]; [seed] is made of the clock and an address. *)
Definition compute_backoff_ms (cfg : fetch_config) (attempt seed : Z) : Z :=
  let delay := backoff_base cfg attempt in
  let jitter_span := Z.quot delay 4 in
  let jitter := if 0 <? jitter_span then fetch_prng_next seed mod uint32 (jitter_span * 2 + 1) - jitter_span else 0 in
  let delay := delay + jitter in
  if delay <? 0 then 0 else delay.

(** ** The retry loop *)

Variable seed : Z -> W -> Z.
Variable sleep_ms : Z -> W -> W.

(** [fetch_retry_loop]; [None] is out of fuel.  [fetch_sleep_ms] does nothing
    for a delay that is not positive. *)
Fixpoint fetch_retry_loop (fuel : nat) (cfg : fetch_config) (url : bytes) (attach_api_key : bool) (attempt : Z) (w : W) (h : heap) :
    option (fetch_status * option bytes * W * heap) :=
  match fuel with
  | O => None
  | S fuel =>
      let '(r, body, retry_after, w, h) := do_one_attempt cfg url attach_api_key w h in
      match r with
      | ATTEMPT_OK => Some (FETCH_OK, body, w, h)
      | ATTEMPT_TRANSPORT_FAIL => Some (FETCH_ERR_TRANSPORT, None, w, h)
      | ATTEMPT_AUTH_FAIL => Some (FETCH_ERR_AUTH, None, w, h)
      | ATTEMPT_HTTP_FAIL => Some (FETCH_ERR_HTTP, None, w, h)
      | _ =>
          let attempt := attempt + 1 in
          if max_retries cfg <? attempt then
            Some (match r with ATTEMPT_RETRY_429 => FETCH_ERR_RATE_LIMITED | ATTEMPT_RETRY_5XX => FETCH_ERR_SERVER | _ => FETCH_ERR_TRANSPORT end,
                  None, w, h)
          else
            let delay_ms :=
              if bool_decide (r = ATTEMPT_RETRY_429) && (0 <? retry_after) then
                (if retry_after_max_sec cfg <? retry_after then retry_after_max_sec cfg else retry_after) * 1000
              else compute_backoff_ms cfg attempt (uint32 (seed attempt w)) in
            fetch_retry_loop fuel cfg url attach_api_key attempt (if delay_ms <=? 0 then w else sleep_ms delay_ms w) h
      end
  end.

Definition fetch_fuel (cfg : fetch_config) : nat := S (Z.to_nat (max_retries cfg)).

(** [cytadel_nvd_fetch_page] *)
Definition nvd_fetch_page (cfg : option fetch_config) (start_index : Z) (last_mod_start_date last_mod_end_date : option bytes) (w : W) (h : heap) :
    option (fetch_status * option bytes * W * heap) :=
  let given (s : option bytes) := match s with None | Some [] => None | _ => s end in
  match cfg with
  | None => Some (FETCH_ERR_INVALID_ARG, None, w, h)
  | Some cfg =>
      match given (base_url cfg) with
      | None => Some (FETCH_ERR_INVALID_ARG, None, w, h)
      | Some _ =>
          if start_index <? 0 then Some (FETCH_ERR_INVALID_ARG, None, w, h) else
          let start_date := given last_mod_start_date in
          let end_date := given last_mod_end_date in
          if negb (Bool.eqb (bool_decide (is_Some start_date)) (bool_decide (is_Some end_date))) then Some (FETCH_ERR_INVALID_ARG, None, w, h) else
          let '(ok, w) := curl_easy_init w in
          if negb ok then Some (FETCH_ERR_TRANSPORT, None, w, h) else
          let '(url, h) := build_url cfg start_index start_date end_date NVD_FETCH_URL_BUF_LEN (curl_block h) in
          let h := free_block h in
          match url with
          | None => Some (FETCH_ERR_INVALID_ARG, None, w, h)
          | Some url => fetch_retry_loop (fetch_fuel cfg) cfg url true 0 w h
          end
      end
  end.

(** [cytadel_nvd_fetch_get] *)
Definition nvd_fetch_get (cfg : option fetch_config) (url : option bytes) (w : W) (h : heap) : option (fetch_status * option bytes * W * heap) :=
  match cfg, url with
  | Some cfg, Some (c :: url) => fetch_retry_loop (fetch_fuel cfg) cfg (c :: url) false 0 w h
  | _, _ => Some (FETCH_ERR_INVALID_ARG, None, w, h)
  end.
End Fetch.

(** ** Lemmas: the buffer *)

Lemma grow_cap_enough fuel c need : 1 <= c -> need <= c * 2 ^ Z.of_nat fuel -> need <= grow_cap fuel c need.
Proof.
  revert c; induction fuel as [|fuel IH]; intros c Hc Hn; cbn [grow_cap].
  - change (2 ^ Z.of_nat 0) with 1 in Hn. lia.
  - rewrite Nat2Z.inj_succ, Z.pow_succ_r in Hn by lia. destruct (Z.ltb_spec c need); [|lia]. destruct (_ <? c); [lia|]. apply IH; lia.
Qed.

Lemma grow_cap_pos fuel c need : 1 <= c -> 1 <= need -> 1 <= grow_cap fuel c need.
Proof.
  revert c; induction fuel as [|fuel IH]; intros c Hc Hn; cbn [grow_cap]; [lia|]. destruct (c <? need); [|lia]. destruct (_ <? c); [lia|]. apply IH; lia.
Qed.

(** The buffer is NULL and empty, or has room for the data and its NUL within
    the cap. *)
Definition ctx_ok (ctx : write_ctx) : Prop :=
  0 <= w_len ctx <= hard_cap ctx /\ hard_cap ctx < 2 ^ 63 /\
  (alloc_cap ctx = 0 /\ w_data ctx = [] \/ w_len ctx + 1 <= alloc_cap ctx <= hard_cap ctx + 1).

Definition buf_blocks (ctx : write_ctx) : Z := if alloc_cap ctx =? 0 then 0 else 1.

Lemma free_buf_live ctx h : live (free_buf ctx h) = live h - buf_blocks ctx.
Proof. unfold free_buf, buf_blocks. destruct (alloc_cap ctx =? 0); cbn; lia. Qed.

Lemma write_cb_spec chunk ctx h :
  ctx_ok ctx -> Z.of_nat (length chunk) < 2 ^ 63 ->
  let '(r, ctx', h') := fetch_write_cb chunk 1 (Z.of_nat (length chunk)) ctx h in
  ctx_ok ctx' /\ hard_cap ctx' = hard_cap ctx /\ live h' - buf_blocks ctx' = live h - buf_blocks ctx /\
  (r = Z.of_nat (length chunk) /\ w_data ctx' = w_data ctx ++ chunk /\ aborted ctx' = aborted ctx \/
   r = 0 /\ chunk <> [] /\ w_data ctx' = w_data ctx /\ aborted ctx' = true).
Proof.
  intros Hok Hc. pose proof Hok as (Hl & Hh & Ha). unfold fetch_write_cb, SIZE_MAX, size_t. set (n := Z.of_nat (length chunk)) in *.
  replace (2 ^ 64 - 1) with 18446744073709551615 by reflexivity. change (1 =? 0) with false. cbn [negb andb]. rewrite Z.div_1_r.
  replace (2 ^ 63) with 9223372036854775808 in * by reflexivity. replace (2 ^ 64) with 18446744073709551616 by reflexivity.
  destruct (Z.ltb_spec 18446744073709551615 n); [lia|]. rewrite (Z.mul_1_l n), (Z.mod_small n) by lia.
  destruct (Z.eqb_spec n 0) as [Hn0|Hn0].
  { split; [exact Hok|]. split; [done|]. split; [done|]. left. assert (chunk = []) as -> by (apply length_zero_iff_nil; lia).
    by rewrite app_nil_r. }
  assert (Hne : chunk <> []) by (intros ->; done). rewrite (Z.mod_small (hard_cap ctx - w_len ctx)) by lia.
  destruct (Z.ltb_spec (hard_cap ctx - w_len ctx) n) as [|Hfit].
  { split; [exact Hok|]. split; [done|]. split; [done|by right]. }
  rewrite (Z.mod_small (w_len ctx + n + 1)) by lia. rewrite (Z.mod_small (hard_cap ctx + 1)) by lia.
  assert (Happ : Z.of_nat (length (w_data ctx ++ take (Z.to_nat n) chunk)) = w_len ctx + n).
  { rewrite length_app, take_ge by lia. unfold w_len. lia. }
  assert (Htake : take (Z.to_nat n) chunk = chunk) by (apply take_ge; lia).
  destruct (Z.ltb_spec (alloc_cap ctx) (w_len ctx + n + 1)) as [Hgrow|Hroom].
  - set (new_cap := if _ <? grow_cap _ _ _ then _ else _).
    assert (Hnew : w_len ctx + n + 1 <= new_cap <= hard_cap ctx + 1).
    { unfold new_cap. set (c0 := if alloc_cap ctx =? 0 then 8192 else alloc_cap ctx). assert (Hc0 : 1 <= c0) by (unfold c0; destruct (Z.eqb_spec (alloc_cap ctx) 0); lia).
      pose proof (grow_cap_enough 64 c0 (w_len ctx + n + 1) Hc0) as Hg. change (2 ^ Z.of_nat 64) with 18446744073709551616 in Hg.
      specialize (Hg ltac:(nia)). destruct (Z.ltb_spec (hard_cap ctx + 1) (grow_cap 64 c0 (w_len ctx + n + 1))); lia. }
    clearbody new_cap. destruct (realloc _ h) as [ok h1] eqn:E. apply realloc_spec in E as (Hlive & _). destruct ok; cbn [negb].
    + split; [|split; [done|]].
      * unfold ctx_ok, w_len. cbn [w_data alloc_cap hard_cap]. rewrite Happ. split; [lia|]. split; [done|]. right. lia.
      * split; [|by left; rewrite Htake]. unfold buf_blocks. cbn [alloc_cap]. destruct (Z.eqb_spec new_cap 0); [lia|].
        cbn [negb andb] in Hlive. destruct (alloc_cap ctx =? 0); cbn [negb andb] in Hlive; lia.
    + split; [exact Hok|]. split; [done|]. split; [|by right]. change (buf_blocks (abort ctx)) with (buf_blocks ctx). cbn [andb] in Hlive. lia.
  - cbn [negb]. split; [|split; [done|]].
    + unfold ctx_ok, w_len. cbn [w_data alloc_cap hard_cap]. rewrite Happ. split; [lia|]. split; [done|]. right. lia.
    + split; [done|]. left. by rewrite Htake.
Qed.

Lemma deliver_spec chunks : forall ctx h,
  ctx_ok ctx -> Forall (fun chunk : bytes => Z.of_nat (length chunk) < 2 ^ 63) chunks ->
  let '(consumed, ctx', h') := deliver chunks ctx h in
  ctx_ok ctx' /\ hard_cap ctx' = hard_cap ctx /\ live h' - buf_blocks ctx' = live h - buf_blocks ctx /\
  (consumed = true -> w_data ctx' = w_data ctx ++ concat chunks /\ aborted ctx' = aborted ctx) /\
  (consumed = false -> aborted ctx' = true).
Proof.
  induction chunks as [|chunk chunks IH]; intros ctx h Hok Hc; cbn [deliver concat].
  { split_and!; try done. intros _. by rewrite app_nil_r. }
  apply Forall_cons in Hc as [Hc Hcs]. pose proof (write_cb_spec chunk ctx h Hok Hc) as Hw.
  destruct (fetch_write_cb _ _ _ _ _) as [[r ctx1] h1]. destruct Hw as (Hok1 & Hh1 & Hl1 & [(-> & Hd & Ha)|(-> & Hne & Hd & Ha)]).
  - rewrite Z.eqb_refl. specialize (IH ctx1 h1 Hok1 Hcs). destruct (deliver chunks ctx1 h1) as [[consumed ctx2] h2].
    destruct IH as (Hok2 & Hh2 & Hl2 & Ht & Hf). split_and!; [done|congruence|lia| |done].
    intros Hcons. destruct (Ht Hcons) as [-> ->]. rewrite Hd, <- app_assoc. by split.
  - destruct (Z.eqb_spec 0 (Z.of_nat (length chunk))) as [E|_]; [destruct chunk; [done|cbn in E; lia]|]. by split_and!.
Qed.

(** ** Lemmas: the header and the backoff *)

Lemma slist_free_live l h : live (curl_slist_free_all l h) = live h - Z.of_nat (length l).
Proof. induction l as [|x l IH]; cbn [curl_slist_free_all foldr length]; [lia|]. unfold curl_slist_free_all in IH. cbn [free_block live]. lia. Qed.

Lemma api_key_header_live key url h : let '(l, h') := append_api_key_header key [] url h in live h' = live h + Z.of_nat (length l).
Proof.
  unfold append_api_key_header, curl_slist_append. destruct key as [[|c k]|]; [cbn; lia| |cbn; lia]. destruct (negb _); [cbn; lia|]. cbv zeta.
  destruct (_ <? _); [cbn; lia|]. destruct (_ <=? _); [cbn; lia|]. destruct (malloc h) as [ok h1] eqn:E. apply malloc_live in E. destruct ok; cbn; lia.
Qed.

(** Building the URL keeps no block. *)
Lemma build_url_live escape cfg si sd ed cap h : live (snd (build_url escape cfg si sd ed cap h)) = live h.
Proof.
  unfold build_url. cbv zeta. destruct (_ <=? _); [done|]. destruct sd as [s|]; [|done]. unfold escape_string, curl_free.
  destruct (escape s) as [e1|], (escape (default [] ed)) as [e2|]; cbn; lia.
Qed.

Lemma api_key_header_spec key url h line :
  line ∈ fst (append_api_key_header key [] url h) ->
  url_is_https url = true /\ exists k, key = Some k /\ (0 < length k <= 256)%nat /\ line = bs "apiKey: " ++ k.
Proof.
  unfold append_api_key_header. destruct key as [[|c k]|]; [by intros ?%elem_of_nil| |by intros ?%elem_of_nil].
  destruct (url_is_https url); cbn [negb]; [|by intros ?%elem_of_nil]. unfold NVD_FETCH_APIKEY_MAX_LEN.
  destruct (Z.ltb_spec 256 (Z.min (Z.of_nat (length (c :: k))) (256 + 1))); [by intros ?%elem_of_nil|].
  destruct (_ <=? _); [by intros ?%elem_of_nil|]. unfold curl_slist_append.
  destruct (malloc h) as [[] h1]; [|by intros ?%elem_of_nil]. intros ->%list_elem_of_singleton.
  split; [done|]. exists (c :: k). split; [done|]. split; [cbn [length] in *; lia|]. by rewrite take_ge by lia.
Qed.

Lemma backoff_loop_bounds rounds delay m : 0 <= delay -> 0 <= m -> 0 <= backoff_loop rounds delay m <= Z.max delay m.
Proof.
  revert delay; induction rounds as [|rounds IH]; intros delay Hd Hm; cbn [backoff_loop]; [lia|].
  destruct (Z.leb_spec (m - delay) delay); [lia|]. specialize (IH (delay * 2) ltac:(lia) Hm). lia.
Qed.

(** The doublings are the power of two, cut at the ceiling. *)
Lemma backoff_loop_power rounds delay m : 0 <= delay -> Z.min m (backoff_loop rounds delay m) = Z.min m (delay * 2 ^ Z.of_nat rounds).
Proof.
  revert delay; induction rounds as [|rounds IH]; intros delay Hd; cbn [backoff_loop].
  - change (2 ^ Z.of_nat 0) with 1. lia.
  - rewrite Nat2Z.inj_succ, Z.pow_succ_r by lia. destruct (Z.leb_spec (m - delay) delay).
    + assert (0 < 2 ^ Z.of_nat rounds) by (apply Z.pow_pos_nonneg; lia). nia.
    + rewrite IH by lia. f_equal. lia.
Qed.

Lemma compute_backoff_bounds cfg attempt s :
  0 <= backoff_max_ms cfg < 2 ^ 31 -> 0 <= compute_backoff_ms cfg attempt s <= backoff_max_ms cfg + backoff_max_ms cfg / 4.
Proof.
  intros Hm. unfold compute_backoff_ms. set (d := backoff_base cfg attempt).
  assert (Hd : 0 <= d <= backoff_max_ms cfg).
  { unfold d, backoff_base. pose proof (backoff_loop_bounds (Z.to_nat (attempt - 1)) (Z.max 0 (backoff_initial_ms cfg)) (backoff_max_ms cfg) ltac:(lia) ltac:(lia)).
    destruct (Z.ltb_spec (backoff_max_ms cfg) (backoff_loop (Z.to_nat (attempt - 1)) (Z.max 0 (backoff_initial_ms cfg)) (backoff_max_ms cfg))); lia. }
  clearbody d. rewrite Z.quot_div_nonneg by lia. pose proof (Z.div_le_mono d (backoff_max_ms cfg) 4 ltac:(lia) ltac:(lia)).
  assert (H0 : 0 <= d / 4) by (apply Z.div_pos; lia). assert (Hspan : d / 4 <= d) by (apply Z.div_le_upper_bound; lia).
  destruct (Z.ltb_spec 0 (d / 4)) as [Hpos|].
  - replace (2 ^ 31) with 2147483648 in Hm by reflexivity. assert (Hq : d / 4 < 536870912) by (apply Z.div_lt_upper_bound; lia).
    unfold uint32. replace (2 ^ 32) with 4294967296 by reflexivity. rewrite (Z.mod_small (d / 4 * 2 + 1)) by lia.
    pose proof (Z.mod_pos_bound (fetch_prng_next s) (d / 4 * 2 + 1) ltac:(lia)) as Hmod.
    destruct (Z.ltb_spec (d + (fetch_prng_next s mod (d / 4 * 2 + 1) - d / 4)) 0); lia.
  - destruct (Z.ltb_spec (d + 0) 0); lia.
Qed.

(** ** The requests and the waits of a fetch *)

Inductive fetch_event := Requested (r : request) (t : transfer) | Slept (ms : Z).

Definition is_request (e : fetch_event) : bool := match e with Requested _ _ => true | Slept _ => false end.

Definition requests (evs : list fetch_event) : Z := Z.of_nat (length (List.filter is_request evs)).

Section Logged.
Context {V : Type}.
Variable curl_easy_init : V -> bool * V.
Variable curl_easy_escape : bytes -> option bytes.
Variable curl_setopt_ok : critical_option -> bool.
Variable curl_perform : request -> V -> transfer * V.
Variable api_key : option bytes.
Variable seed : Z -> V -> Z.
Variable sleep_ms : Z -> V -> V.

(** A world that remembers what was asked of it. *)
Definition logged : Type := V * list fetch_event.
Definition init_logged (w : logged) : bool * logged := let '(ok, v) := curl_easy_init w.1 in (ok, (v, w.2)).
Definition perform_logged (r : request) (w : logged) : transfer * logged :=
  let '(t, v) := curl_perform r w.1 in (t, (v, w.2 ++ [Requested r t])).
Definition sleep_logged (ms : Z) (w : logged) : logged := (sleep_ms ms w.1, w.2 ++ [Slept ms]).
Definition seed_logged (attempt : Z) (w : logged) : Z := seed attempt w.1.

Definition attempt_logged := do_one_attempt init_logged curl_setopt_ok perform_logged api_key.
Definition retry_logged := fetch_retry_loop init_logged curl_setopt_ok perform_logged api_key seed_logged sleep_logged.

(** A request that confines itself: no redirect, http and https only, the peer
    and its name verified, every one of these options accepted by curl, and
    the key only where it belongs. *)
Definition request_safe (url : bytes) (attach : bool) (r : request) : Prop :=
  r_url r = url /\ r_user_agent r = NVD_FETCH_USER_AGENT /\
  FOLLOWLOCATION 0 ∈ r_options r /\ PROTOCOLS_STR (bs "http,https") ∈ r_options r /\ REDIR_PROTOCOLS_STR (bs "http,https") ∈ r_options r /\
  SSL_VERIFYPEER 1 ∈ r_options r /\ SSL_VERIFYHOST 2 ∈ r_options r /\
  (forall o, o ∈ r_options r -> curl_setopt_ok o = true) /\
  (forall line, line ∈ r_headers r ->
     attach = true /\ url_is_https url = true /\ exists k, api_key = Some k /\ (0 < length k <= 256)%nat /\ line = bs "apiKey: " ++ k).

(** A transfer whose body is what is handed out. *)
Definition whole_body (cfg : fetch_config) (t : transfer) (body : option bytes) : Prop :=
  t_ok t = true /\ t_status t = 200 /\ default [] body = concat (t_chunks t) /\ Z.of_nat (length (concat (t_chunks t))) <= max_response_bytes cfg.

Definition body_blocks (body : option bytes) : Z := match body with Some _ => 1 | None => 0 end.

(** A piece curl delivers is one object. *)
Hypothesis chunks_fit : forall r v, Forall (fun chunk : bytes => Z.of_nat (length chunk) < 2 ^ 63) (t_chunks (fst (curl_perform r v))).

Lemma request_is_safe cfg url attach h :
  forallb curl_setopt_ok (critical_options cfg) = true ->
  request_safe url attach (Request url 1 (fst (if attach then append_api_key_header api_key [] url h else ([], h))) NVD_FETCH_USER_AGENT 1 (connect_timeout_sec cfg)
    (total_timeout_sec cfg) (low_speed_limit_bytes cfg) (low_speed_time_sec cfg) (critical_options cfg)).
Proof.
  intros Hopt. unfold request_safe. cbn [r_url r_options r_headers r_user_agent]. rewrite forallb_forall in Hopt.
  split; [done|]. split; [done|]. do 5 (split; [unfold critical_options; apply elem_of_app; left; set_solver|]). split.
  - intros o Ho. apply Hopt. by apply list_elem_of_In.
  - intros line Hline. destruct attach; [|by apply elem_of_nil in Hline]. apply api_key_header_spec in Hline as [Hu Hk]. by split_and!.
Qed.

Lemma attempt_spec cfg url attach (v : V) log h :
  0 <= max_response_bytes cfg < 2 ^ 63 ->
  let '(res, body, wait, w', h') := attempt_logged cfg url attach (v, log) h in
  (w'.2 = log /\ res = ATTEMPT_TRANSPORT_FAIL \/
   exists r t, w'.2 = log ++ [Requested r t] /\ request_safe url attach r /\ (res = ATTEMPT_OK -> whole_body cfg t body)) /\
  live h' = live h + body_blocks body /\ (res <> ATTEMPT_OK -> body = None).
Proof.
  intros Hcap. unfold attempt_logged, do_one_attempt, init_logged. cbn [fst snd]. destruct (curl_easy_init v) as [[] v1]; cbn [negb].
  2: { split; [by left|]. split; [cbn; lia|done]. }
  assert (Hhdr : live (snd (if attach then append_api_key_header api_key [] url (curl_block h) else ([], curl_block h))) =
    live h + 1 + Z.of_nat (length (fst (if attach then append_api_key_header api_key [] url (curl_block h) else ([], curl_block h))))).
  { destruct attach; [|cbn; lia]. pose proof (api_key_header_live api_key url (curl_block h)) as HL.
    destruct (append_api_key_header _ _ _ _) as [l h']. cbn [fst snd]. change (live (curl_block h)) with (live h + 1) in HL. lia. }
  assert (Hsafe0 := request_is_safe cfg url attach (curl_block h)).
  destruct (if attach then _ else _) as [headers h0]. cbn [fst snd] in Hhdr, Hsafe0. cbv zeta.
  assert (Hclean : forall h, live (free_block (curl_slist_free_all headers h)) = live h - Z.of_nat (length headers) - 1)
    by (intros h2; cbn [free_block live]; rewrite slist_free_live; lia).
  destruct (forallb _ _) eqn:Hopt; cbn [negb]; [|split; [by left|split; [rewrite Hclean; cbn; lia|done]]]. unfold perform_logged. cbn [fst snd].
  pose proof (Hsafe0 eq_refl) as Hsafe. clear Hsafe0. set (r := Request _ _ _ _ _ _ _ _ _ _) in *. clearbody r.
  pose proof (chunks_fit r v1) as Hfit. destruct (curl_perform r v1) as [t v2]. cbn [fst] in Hfit.
  assert (Hok0 : ctx_ok (WriteCtx [] 0 (max_response_bytes cfg) false)) by (unfold ctx_ok, w_len; cbn; split; [lia|split; [lia|by left]]).
  pose proof (deliver_spec (t_chunks t) _ h0 Hok0 Hfit) as Hd. destruct (deliver _ _ _) as [[consumed ctx] h1].
  destruct Hd as (Hok & Hh & Hl & Ht & _). change (buf_blocks (WriteCtx [] 0 (max_response_bytes cfg) false)) with 0 in Hl. cbn [w_data hard_cap] in Hh, Ht.
  assert (Hfree : live (free_block (curl_slist_free_all headers (free_buf ctx h1))) = live h + 0) by (rewrite Hclean, free_buf_live; lia).
  assert (Hreq : forall P, (P \/ exists r0 t0, log ++ [Requested r t] = log ++ [Requested r0 t0] /\ request_safe url attach r0 /\ (False -> whole_body cfg t0 None))) by
    (intros P; right; by exists r, t).
  destruct (consumed && t_ok t) eqn:Eok; cbn [negb].
  2: { destruct (aborted ctx); (split; [right; exists r, t; by split_and!|]); (split; [done|done]). }
  apply andb_true_iff in Eok as [-> Etok]. destruct (Ht eq_refl) as [Hdata _]. cbn [app] in Hdata.
  destruct (Z.eqb_spec (t_status t) 200) as [E200|].
  { split; [|split; [|done]].
    - right. exists r, t. split_and!; try done. intros _. unfold whole_body. split_and!; try done.
      + destruct Hok as (_ & _ & Ha). destruct (Z.eqb_spec (alloc_cap ctx) 0) as [E|]; cbn [default]; unfold id; [|done].
        destruct Ha as [[_ Ha]|Ha]; [by rewrite <- Hdata, Ha|]. destruct Hok0 as [Hb _]. unfold w_len in Ha. lia.
      + destruct Hok as (Hb & _). unfold w_len in Hb. rewrite <- Hdata, Hh in *. lia.
    - rewrite Hclean. unfold buf_blocks in Hl. destruct (alloc_cap ctx =? 0); cbn; lia. }
  repeat match goal with |- context [if ?b then _ else _] => destruct b end; (split; [right; exists r, t; by split_and!|]); (split; [done|done]).
Qed.

(** The waits a configuration allows. *)
Definition wait_limit (cfg : fetch_config) : Z :=
  Z.max (backoff_max_ms cfg + backoff_max_ms cfg / 4) (retry_after_max_sec cfg * 1000).

Definition event_safe (cfg : fetch_config) (url : bytes) (attach : bool) (e : fetch_event) : Prop :=
  match e with Requested r _ => request_safe url attach r | Slept ms => 0 < ms <= wait_limit cfg end.

Definition config_ok (cfg : fetch_config) : Prop := 0 <= max_response_bytes cfg < 2 ^ 63 /\ 0 <= backoff_max_ms cfg < 2 ^ 31.

Lemma requests_app l k : requests (l ++ k) = requests l + requests k.
Proof. unfold requests. rewrite List.filter_app, length_app. lia. Qed.

Lemma retry_loop_spec cfg url attach : config_ok cfg -> forall fuel attempt (v : V) log h,
  (0 < fuel)%nat -> max_retries cfg - attempt < Z.of_nat fuel ->
  exists st body v' log' h' evs,
    retry_logged fuel cfg url attach attempt (v, log) h = Some (st, body, (v', log'), h') /\
    log' = log ++ evs /\ Forall (event_safe cfg url attach) evs /\
    requests evs <= 1 + Z.max 0 (max_retries cfg - attempt) /\
    live h' = live h + body_blocks body /\ (st <> FETCH_OK -> body = None) /\
    (st = FETCH_OK -> exists pre r t, evs = pre ++ [Requested r t] /\ whole_body cfg t body).
Proof.
  intros [Hcap Hmax]. induction fuel as [|fuel IH]; intros attempt v log h Hf Hm; [lia|]. unfold retry_logged. cbn [fetch_retry_loop].
  pose proof (attempt_spec cfg url attach v log h Hcap) as Ha. fold attempt_logged. destruct (attempt_logged cfg url attach (v, log) h) as [[[[res body] wait] [v1 log1]] h1].
  destruct Ha as (Hlog & Hlive & Hbody). cbn [snd] in Hlog.
  assert (Hevs : exists evs, log1 = log ++ evs /\ Forall (event_safe cfg url attach) evs /\ requests evs <= 1 /\
    (res = ATTEMPT_OK -> exists r t, evs = [Requested r t] /\ whole_body cfg t body)).
  { destruct Hlog as [[-> ->]|(r & t & -> & Hs & Hw)].
    - exists []. rewrite app_nil_r. by split_and!.
    - exists [Requested r t]. split_and!; [done|by apply Forall_singleton|done|]. intros E. exists r, t. by split; [|apply Hw]. }
  clear Hlog. destruct Hevs as (evs & -> & Hsafe & Hreq & Hok).
  assert (Hend : forall st, st <> FETCH_OK -> res <> ATTEMPT_OK -> exists st' body' v' log' h' evs',
    Some (st, @None bytes, (v1, log ++ evs), h1) = Some (st', body', (v', log'), h') /\
    log' = log ++ evs' /\ Forall (event_safe cfg url attach) evs' /\ requests evs' <= 1 + Z.max 0 (max_retries cfg - attempt) /\
    live h' = live h + body_blocks body' /\ (st' <> FETCH_OK -> body' = None) /\
    (st' = FETCH_OK -> exists pre r t, evs' = pre ++ [Requested r t] /\ whole_body cfg t body')).
  { intros st Hst Hres. exists st, None, v1, (log ++ evs), h1, evs. rewrite (Hbody Hres) in Hlive. split_and!; (done || lia). }
  assert (Hretry : forall st, st <> FETCH_OK -> res <> ATTEMPT_OK -> forall d, d <= wait_limit cfg -> exists st' body' v' log' h' evs',
    (if max_retries cfg <? attempt + 1 then Some (st, @None bytes, (v1, log ++ evs), h1)
     else fetch_retry_loop init_logged curl_setopt_ok perform_logged api_key seed_logged sleep_logged fuel cfg url attach (attempt + 1)
            (if d <=? 0 then (v1, log ++ evs) else sleep_logged d (v1, log ++ evs)) h1) = Some (st', body', (v', log'), h') /\
    log' = log ++ evs' /\ Forall (event_safe cfg url attach) evs' /\ requests evs' <= 1 + Z.max 0 (max_retries cfg - attempt) /\
    live h' = live h + body_blocks body' /\ (st' <> FETCH_OK -> body' = None) /\
    (st' = FETCH_OK -> exists pre r t, evs' = pre ++ [Requested r t] /\ whole_body cfg t body')).
  { intros st Hst Hres d Hd. destruct (Z.ltb_spec (max_retries cfg) (attempt + 1)) as [|Hgo]; [by apply Hend|].
    set (slept := if d <=? 0 then [] else [Slept d]).
    match goal with |- context [fetch_retry_loop _ _ _ _ _ _ fuel cfg url attach _ ?w h1] => assert (Hw : exists v2, w = (v2, log ++ evs ++ slept)) end.
    { unfold slept. destruct (d <=? 0); [exists v1; by rewrite app_nil_r|]. exists (sleep_ms d v1). unfold sleep_logged. cbn [fst snd]. by rewrite app_assoc. }
    destruct Hw as [v2 ->]. destruct (IH (attempt + 1) v2 (log ++ evs ++ slept) h1 ltac:(lia) ltac:(lia)) as (st' & body' & v' & log' & h' & evs' & E & -> & Hs' & Hr' & Hl' & Hb' & Hw').
    exists st', body', v', ((log ++ evs ++ slept) ++ evs'), h', (evs ++ slept ++ evs'). fold retry_logged. rewrite E. split; [done|]. split; [by rewrite <- !app_assoc|].
    rewrite (Hbody Hres) in Hlive. cbn [body_blocks] in Hlive. split.
    { rewrite !Forall_app. split; [done|]. split; [|done]. unfold slept. destruct (Z.leb_spec d 0); [constructor|]. apply Forall_singleton. cbn. lia. }
    split.
    { rewrite !requests_app. assert (requests slept = 0) as -> by (unfold slept; by destruct (d <=? 0)). lia. } split; [lia|]. split; [done|].
    intros Hst'. destruct (Hw' Hst') as (pre & r & t & -> & Hwhole). exists (evs ++ slept ++ pre), r, t. by rewrite <- !app_assoc. }
  assert (Hback : compute_backoff_ms cfg (attempt + 1) (uint32 (seed_logged (attempt + 1) (v1, log ++ evs))) <= wait_limit cfg).
  { pose proof (compute_backoff_bounds cfg (attempt + 1) (uint32 (seed_logged (attempt + 1) (v1, log ++ evs))) Hmax). unfold wait_limit. lia. }
  destruct res; try (apply Hend; done).
  - destruct (Hok eq_refl) as (r & t & -> & Hwhole). exists FETCH_OK, body, v1, (log ++ [Requested r t]), h1, [Requested r t].
    split_and!; try done; [lia|]. intros _. by exists [], r, t.
  - apply Hretry; [done|done|]. destruct (bool_decide _ && (0 <? wait)); [|exact Hback]. unfold wait_limit. destruct (Z.ltb_spec (retry_after_max_sec cfg) wait); lia.
  - apply Hretry; [done|done|]. exact Hback.
  - apply Hretry; [done|done|]. exact Hback.
Qed.

Definition get_logged (cfg : option fetch_config) (url : option bytes) (v : V) (h : heap) :=
  nvd_fetch_get init_logged curl_setopt_ok perform_logged api_key seed_logged sleep_logged cfg url (v, []) h.

Definition page_logged (cfg : option fetch_config) (start_index : Z) (start_date end_date : option bytes) (v : V) (h : heap) :=
  nvd_fetch_page init_logged curl_easy_escape curl_setopt_ok perform_logged api_key seed_logged sleep_logged cfg start_index start_date end_date (v, []) h.

(** How a fetch ends: a status and a body, after a bounded number of requests
    and bounded waits. *)
Definition fetch_ends (cfg : fetch_config) (h : heap) (out : option (fetch_status * option bytes * logged * heap)) : Prop :=
  exists st body v' evs h', out = Some (st, body, (v', evs), h') /\
    requests evs <= 1 + Z.max 0 (max_retries cfg) /\ (forall ms, Slept ms ∈ evs -> 0 < ms <= wait_limit cfg) /\
    live h' = live h + body_blocks body /\ (st <> FETCH_OK -> body = None) /\
    (st = FETCH_OK -> exists pre r t, evs = pre ++ [Requested r t] /\ whole_body cfg t body).

Lemma retry_ends cfg url attach (v : V) h : config_ok cfg ->
  let out := retry_logged (fetch_fuel cfg) cfg url attach 0 (v, []) h in
  fetch_ends cfg h out /\
  forall st body v' evs h', out = Some (st, body, (v', evs), h') -> forall r t, Requested r t ∈ evs -> request_safe url attach r.
Proof.
  intros Hc. destruct (retry_loop_spec cfg url attach Hc (fetch_fuel cfg) 0 v [] h) as (st & body & v' & log' & h' & evs & E & -> & Hs & Hr & Hl & Hb & Hw);
    [unfold fetch_fuel; lia|unfold fetch_fuel; lia|]. cbv zeta. rewrite E. rewrite Forall_forall in Hs. split.
  - exists st, body, v', evs, h'. rewrite Z.sub_0_r in Hr. split; [done|]. split; [done|]. split; [intros ms Hms; exact (Hs _ Hms)|]. by split_and!.
  - intros st2 body2 v2 evs2 h2 [= <- <- <- <- <-] r t Hin. exact (Hs _ Hin).
Qed.

Lemma refused_ends cfg st (v : V) h h' : st <> FETCH_OK -> live h' = live h -> fetch_ends cfg h (Some (st, None, (v, []), h')).
Proof.
  intros Hst Hl. exists st, None, v, [], h'. split; [done|]. split; [change (requests []) with 0; lia|].
  split; [by intros ms ?%elem_of_nil|]. split; [cbn; lia|]. by split.
Qed.

(** What [cytadel_nvd_fetch_page] does once its arguments are checked. *)
Lemma page_cases cfg si sd ed (v : V) h :
  (exists st v' h', st <> FETCH_OK /\ live h' = live h /\ page_logged (Some cfg) si sd ed v h = Some (st, None, (v', []), h')) \/
  exists url v' h', (exists rest, url = default [] (base_url cfg) ++ rest) /\ live h' = live h /\
    page_logged (Some cfg) si sd ed v h = retry_logged (fetch_fuel cfg) cfg url true 0 (v', []) h'.
Proof.
  assert (Hleft : forall st (v' : V), st <> FETCH_OK ->
    (exists st' v2 h', st' <> FETCH_OK /\ live h' = live h /\ Some (st, @None bytes, (v', @nil fetch_event), h) = Some (st', None, (v2, []), h'))).
  { intros st v' Hst. by exists st, v', h. }
  unfold page_logged, nvd_fetch_page. cbv zeta. destruct (match base_url cfg with None => _ | Some _ => _ end); [|left; by apply Hleft].
  destruct (si <? 0); [left; by apply Hleft|]. destruct (negb _); [left; by apply Hleft|].
  change (init_logged (v, [])) with (let '(ok, v1) := curl_easy_init v in (ok, (v1, @nil fetch_event))).
  destruct (curl_easy_init v) as [[] v1]; cbn [negb]; [|left; by apply Hleft].
  match goal with |- context [build_url curl_easy_escape cfg si ?x ?y ?z ?k] => set (sd' := x); set (ed' := y) end.
  pose proof (build_url_live curl_easy_escape cfg si sd' ed' NVD_FETCH_URL_BUF_LEN (curl_block h)) as HL.
  destruct (build_url _ _ _ _ _ _ _) as [url h1] eqn:E. cbn [snd] in HL. change (live (curl_block h)) with (live h + 1) in HL.
  assert (Hl : live (free_block h1) = live h) by (cbn [free_block live]; lia).
  destruct url as [url|]; [|left; exists FETCH_ERR_INVALID_ARG, v1, (free_block h1); by split_and!]. right. exists url, v1, (free_block h1). split; [|by split].
  unfold build_url in E. cbv zeta in E. destruct (_ <=? _); [done|]. destruct sd' as [s|]; [|injection E as <- _; eexists; reflexivity].
  unfold escape_string in E. destruct (curl_easy_escape s), (curl_easy_escape (default [] ed')); try done. destruct (_ <=? _); [done|]. injection E as <- _.
  eexists. rewrite <- app_assoc. reflexivity.
Qed.

(** A request without the key carries the User-Agent only. *)
Lemma feed_headers url r : request_safe url false r -> sent_headers r = [bs "User-Agent: cytadel-scan-nvd-sync/1.0"].
Proof.
  intros (_ & Hua & _ & _ & _ & _ & _ & _ & Hh). unfold sent_headers. rewrite Hua. destruct (r_headers r) as [|line l]; [done|].
  by destruct (Hh line ltac:(left)).
Qed.

(** ** Theorems *)

(** The end of a fetch counts blocks only. *)
Lemma fetch_ends_live cfg h h' out : live h = live h' -> fetch_ends cfg h out -> fetch_ends cfg h' out.
Proof. intros E (st & body & v' & evs & h2 & H1 & H2 & H3 & H4 & H5 & H6). exists st, body, v', evs, h2. rewrite <- E. by split_and!. Qed.

(** C24: A fetch always ends, and within its budget.  Whatever the peer sends,
    however often it fails and whatever it asks for in Retry-After, both entry
    points return after at most one request more than the configured retries; every
    wait is positive, and at most the ceiling of the backoff with a quarter of
    it for the jitter, or the cap on Retry-After when that is more.  A success
    carries the whole body of its last transfer, a 200 that the network
    completed, byte for byte and within the cap; any other status carries no
    body; and no block but the body stays allocated: neither buffer, handle,
    header list nor escaped string. *)
Theorem fetch_bounded cfg url si sd ed (v : V) h :
  config_ok cfg -> fetch_ends cfg h (get_logged (Some cfg) url v h) /\ fetch_ends cfg h (page_logged (Some cfg) si sd ed v h).
Proof.
  intros Hc. split.
  - unfold get_logged, nvd_fetch_get. destruct url as [[|c url]|]; [by apply refused_ends| |by apply refused_ends]. by apply retry_ends.
  - destruct (page_cases cfg si sd ed v h) as [(st & v' & h' & Hst & Hl & ->)|(url' & v' & h' & _ & Hl & ->)]; [by apply refused_ends|].
    apply (fetch_ends_live cfg h' h); [done|]. by apply retry_ends.
Qed.

(** C23: Every request is confined and the key stays where it belongs.  No
    request follows a redirect, speaks anything but http and https, or goes
    out without the peer and its name being verified: an option that libcurl
    does not accept stops the attempt.  The headers of ours are the fixed
    User-Agent and, on a page request, at most the key: a generic feed request
    has nothing but the User-Agent; a page request goes to the configured
    endpoint and carries the key only over https, whole. *)
Theorem fetch_confined cfg url si sd ed (v : V) h st body v' evs h' r t :
  config_ok cfg -> Requested r t ∈ evs ->
  (get_logged (Some cfg) (Some url) v h = Some (st, body, (v', evs), h') -> request_safe url false r /\ sent_headers r = [bs "User-Agent: cytadel-scan-nvd-sync/1.0"]) /\
  (page_logged (Some cfg) si sd ed v h = Some (st, body, (v', evs), h') ->
   request_safe (r_url r) true r /\ exists rest, r_url r = default [] (base_url cfg) ++ rest).
Proof.
  intros Hc Hin. split; intros E.
  - unfold get_logged, nvd_fetch_get in E. destruct url as [|c url]; [injection E as <- <- <- <- <-; by apply elem_of_nil in Hin|].
    assert (Hs : request_safe (c :: url) false r) by exact (proj2 (retry_ends cfg (c :: url) false v h Hc) _ _ _ _ _ E r t Hin).
    split; [done|]. by apply (feed_headers (c :: url)).
  - destruct (page_cases cfg si sd ed v h) as [(st' & v2 & h2 & _ & _ & Ep)|(url' & v2 & h2 & [rest Hu] & _ & Ep)]; rewrite Ep in E.
    + injection E as <- <- <- <- <-. by apply elem_of_nil in Hin.
    + assert (Hs : request_safe url' true r) by exact (proj2 (retry_ends cfg url' true v2 h2 Hc) _ _ _ _ _ E r t Hin).
      assert (Hr : r_url r = url') by apply Hs. rewrite Hr. split; [done|]. by exists rest.
Qed.
End Logged.

(** A server that is busy twice, and asks for a wait of a year the first time. *)
Definition busy_server (r : request) (n : nat) : transfer * nat :=
  (match n with
   | O => Transfer [bs "busy"] true 429 (Some (bs "31536000"))
   | S O => Transfer [] true 503 None
   | _ => Transfer [bs "{"; []; bs "}"] true 200 None
   end, S n).

Definition example_get :=
  get_logged (fun n => (true, n)) (fun _ => true) busy_server (Some (bs "secret")) (fun _ _ => 7) (fun _ n => n)
    (Some config_init_default) (Some (bs "https://example.org/kev.json")) O (Heap [] 0).

Lemma busy_fits r v : Forall (fun chunk : bytes => Z.of_nat (length chunk) < 2 ^ 63) (t_chunks (fst (busy_server r v))).
Proof. destruct v as [|[|v]]; cbn; repeat (apply Forall_cons; split; [cbn; lia|]); by apply Forall_nil. Qed.

Lemma default_config_ok : config_ok config_init_default.
Proof. split; cbn; unfold NVD_FETCH_DEFAULT_MAX_BODY_BYTES; lia. Qed.

Lemma fetch_bounded_witness :
  exists evs v h', example_get = Some (FETCH_OK, Some (bs "{}"), (v, evs), h') /\ requests evs = 3 /\ Slept 60000 ∈ evs /\ live h' = 1.
Proof.
  destruct (fetch_bounded (fun n => (true, n)) (fun _ => None) (fun _ => true) busy_server (Some (bs "secret")) (fun _ _ => 7) (fun _ n => n) busy_fits
    config_init_default (Some (bs "https://example.org/kev.json")) 0 None None O (Heap [] 0) default_config_ok) as [(st & body & v & evs & h' & E & _ & _ & Hl & _) _].
  assert (Ec := E). vm_compute in Ec. injection Ec as <- <- <- <- <-. fold example_get in E. eexists _, _, _. split; [exact E|]. split; [reflexivity|].
  split; [right; left|exact Hl].
Defined.

Lemma fetch_confined_witness :
  exists evs v h', example_get = Some (FETCH_OK, Some (bs "{}"), (v, evs), h') /\ forall r t, Requested r t ∈ evs -> sent_headers r = [bs "User-Agent: cytadel-scan-nvd-sync/1.0"].
Proof.
  assert (E : exists evs v h', example_get = Some (FETCH_OK, Some (bs "{}"), (v, evs), h')) by (eexists _, _, _; vm_compute; reflexivity).
  destruct E as (evs & v & h' & E). exists evs, v, h'. split; [exact E|]. intros r t Hin.
  exact (proj2 (proj1 (fetch_confined (fun n => (true, n)) (fun _ => None) (fun _ => true) busy_server (Some (bs "secret")) (fun _ _ => 7) (fun _ n => n) busy_fits
    config_init_default (bs "https://example.org/kev.json") 0 None None O (Heap [] 0) FETCH_OK (Some (bs "{}")) v evs h' r t default_config_ok Hin) E)).
Defined.
