(* ===== verification/NvdSync.v ===== *)
(** * One delta-sync window ([src/src/db/nvd_sync.c])

    The pagination driver.  The transport is a function of a state [W] of the
    world: any peer, any answers, any order of failures; the body it hands over
    is the driver's to free.  [start_index] is a 64-bit [long]; the theorems
    bound it far below its range. *)

From S2P Require Import Prelude Json Sqlite NvdIngest.

Definition NVD_SYNC_MAX_TOTAL_RESULTS : Z := 100000000.
Definition NVD_SYNC_MAX_PAGES : Z := 100000.
Definition NVD_FETCH_MAX_RESULTS_PER_PAGE : Z := 2000.
Definition INT_MAX : Z := 2147483647.

(** [cytadel_nvd_sync_status_t] *)
Inductive sync_status :=
  | SYNC_OK | SYNC_ERR_INVALID_ARG | SYNC_ERR_FETCH | SYNC_ERR_INGEST | SYNC_ERR_PROTOCOL.

#[export] Instance sync_status_eq_dec : EqDecision sync_status.
Proof. solve_decision. Defined.

Definition sync_status_to_string (s : sync_status) : bytes :=
  match s with
  | SYNC_OK => bs "OK"
  | SYNC_ERR_INVALID_ARG => bs "INVALID_ARG"
  | SYNC_ERR_FETCH => bs "FETCH"
  | SYNC_ERR_INGEST => bs "INGEST"
  | SYNC_ERR_PROTOCOL => bs "PROTOCOL"
  end.

(** [cytadel_nvd_sync_counts_t] *)
Record sync_counts := SyncCounts { pages_fetched : Z; sync_ingested : Z; sync_skipped : Z }.

Definition sync_counts0 : sync_counts := SyncCounts 0 0 0.

Definition add_page (n : ingest_counts) (out : sync_counts) : sync_counts :=
  SyncCounts (pages_fetched out + 1) (sync_ingested out + cve_ingested n) (sync_skipped out + cve_skipped n).

Definition clamp_per_page (results_per_page : Z) : Z :=
  if results_per_page <? 1 then 1
  else if NVD_FETCH_MAX_RESULTS_PER_PAGE <? results_per_page then NVD_FETCH_MAX_RESULTS_PER_PAGE
  else results_per_page.

(** What a fetch hands over: [None] for any status but OK, else [*out_body],
    NULL when nothing was received. *)
Definition answer : Type := option (option bytes).

Section Sync.
Context {C W : Type} `{Sqlite C}.
Variable json_parse : bytes -> option json.
(** [cytadel_nvd_fetch_page]: start index, start and end date; and [free] of
    the body it gave. *)
Variable fetch_page : Z -> option bytes -> option bytes -> W -> answer * W.
Variable free_body : option bytes -> W -> W.

(** cJSON finds no document in no buffer. *)
Definition parse_total_results (body : option bytes) : Z :=
  match body ≫= json_parse with
  | None => -1
  | Some root =>
      match json_item (Some root) "totalResults" with
      | Some (JNumber value) =>
          if double_finite value && double_ge value 0 && double_le value NVD_SYNC_MAX_TOTAL_RESULTS
          then double_trunc value else -1
      | _ => -1
      end
  end.

(** The [for] loop: [pages] iterations are left. *)
Fixpoint window_loop (pages : nat) (per_page : Z) (start_date : option bytes) (end_date : bytes)
    (start_index_l : Z) (out : sync_counts) (w : W) (c : C) : sync_status * sync_counts * W * C :=
  match pages with
  | O => (SYNC_ERR_PROTOCOL, out, w, c)
  | S pages =>
      if INT_MAX <? start_index_l then (SYNC_ERR_PROTOCOL, out, w, c) else
      let fetch_end_date := match start_date with Some _ => Some end_date | None => None end in
      let '(body, w) := fetch_page start_index_l start_date fetch_end_date w in
      match body with
      | None => (SYNC_ERR_FETCH, out, w, c)
      | Some body =>
          let total_results := parse_total_results body in
          if total_results <? 0 then (SYNC_ERR_PROTOCOL, out, free_body body w, c) else
          let is_last := (total_results =? 0) || (total_results <=? start_index_l + per_page) in
          let '(st, n, c) := ingest_page json_parse body (Some end_date) is_last c in
          let w := free_body body w in
          if negb (bool_decide (st = INGEST_OK)) then (SYNC_ERR_INGEST, out, w, c) else
          let out := add_page n out in
          if is_last then (SYNC_OK, out, w, c)
          else window_loop pages per_page start_date end_date (start_index_l + per_page) out w c
      end
  end.

(** [cytadel_nvd_sync_window]; [db], [cfg] and [out_counts] are given.  The
    counters are left as they were when the arguments are invalid. *)
Definition sync_window (results_per_page : Z) (start_date end_date : option bytes) (max_pages : Z)
    (out_counts : sync_counts) (w : W) (c : C) : sync_status * sync_counts * W * C :=
  match nonempty end_date with
  | None => (SYNC_ERR_INVALID_ARG, out_counts, w, c)
  | Some end_date =>
      let per_page := clamp_per_page results_per_page in
      let effective_max_pages := if 0 <? max_pages then max_pages else NVD_SYNC_MAX_PAGES in
      window_loop (Z.to_nat effective_max_pages) per_page start_date end_date 0 sync_counts0 w c
  end.
End Sync.

#[local] Arguments ingest_page : simpl never.
#[local] Arguments parse_total_results : simpl never.

(** ** Effects *)

Lemma clamp_per_page_range r : 1 <= clamp_per_page r <= 2000.
Proof.
  unfold clamp_per_page, NVD_FETCH_MAX_RESULTS_PER_PAGE. destruct (Z.ltb_spec r 1); [lia|].
  destruct (Z.ltb_spec 2000 r); lia.
Qed.

Lemma parse_total_results_range json_parse body :
  -1 <= parse_total_results json_parse body <= NVD_SYNC_MAX_TOTAL_RESULTS.
Proof.
  unfold parse_total_results. destruct (body ≫= json_parse) as [root|]; [|unfold NVD_SYNC_MAX_TOTAL_RESULTS; lia].
  destruct (json_item _ _) as [[]|]; try (unfold NVD_SYNC_MAX_TOTAL_RESULTS; lia).
  destruct (double_finite d && double_ge d 0 && double_le d NVD_SYNC_MAX_TOTAL_RESULTS) eqn:E;
    [|unfold NVD_SYNC_MAX_TOTAL_RESULTS; lia].
  breflect. pose proof (double_trunc_range d 0 NVD_SYNC_MAX_TOTAL_RESULTS ltac:(done) ltac:(done) ltac:(lia)). lia.
Qed.

Section Window.
Context {C W : Type} `{SqliteLaws C}.
Variable json_parse : bytes -> option json.
Variable fetch_page : Z -> option bytes -> option bytes -> W -> answer * W.
Variable free_body : option bytes -> W -> W.

(** What a window leaves behind, whatever its outcome: a well-formed
    database, and the watermark untouched unless the window completed. *)
Definition window_effect (st : sync_status) (end_date : bytes) (c c' : C) : Prop :=
  (nvd_ok (durable c) -> nvd_ok (durable c')) /\
  (is_Some (db_sync (durable c) !! bs "nvd") -> is_Some (db_sync (durable c') !! bs "nvd")) /\
  (st <> SYNC_OK -> nvd_watermark (durable c') = nvd_watermark (durable c)) /\
  (st = SYNC_OK -> in_tx c' = false /\
     nvd_watermark (durable c') = (fun _ => end_date) <$> db_sync (durable c) !! bs "nvd").

Lemma window_effect_refl st ed (c c' : C) :
  st <> SYNC_OK -> durable c' = durable c -> window_effect st ed c c'.
Proof. intros Hst Hd. unfold window_effect. rewrite Hd. by split_and!. Qed.

Lemma ingest_page_step b e complete (c : C) :
  in_tx c = false -> e <> [] ->
  let '(st, n, c') := ingest_page json_parse b (Some e) complete c in
  (nvd_ok (durable c) -> nvd_ok (durable c')) /\
  (st <> INGEST_OK -> durable c' = durable c) /\
  (st = INGEST_OK -> in_tx c' = false /\
     db_sync (durable c') !! bs "nvd" =
       (fun s => SyncRow (if complete then Some e else sync_watermark s)
                   (sync_total_records s + (cve_ingested n + cve_skipped n))
                   (if complete then bs "success" else bs "running") None)
       <$> db_sync (durable c) !! bs "nvd").
Proof.
  intros Ht He. pose proof (ingest_page_effect json_parse b (Some e) complete c Ht) as HA.
  pose proof (ingest_page_ok json_parse b (Some e) complete c Ht) as HB.
  destruct (ingest_page _ _ _ _ _) as [[st n] c']. destruct HA as [HE HO].
  split; [exact HB|]. split; [exact HE|]. intros Hst.
  destruct (HO Hst) as (b' & e' & vs & _ & [= <-] & _ & Ht' & ws & c1 & c2 & _ & _ & _ & Hd & _).
  split; [done|]. rewrite Hd. destruct (apply_entries_frame (durable c) ws) as (E1 & _). rewrite <- E1.
  unfold sync_update, sync_complete, sync_partial, update_sync.
  destruct complete; cbn [db_sync]; by rewrite lookup_alter_eq.
Qed.

Lemma window_loop_effect pages per_page sd ed si out w (c : C) :
  in_tx c = false -> ed <> [] ->
  let '(st, out', w', c') := window_loop json_parse fetch_page free_body pages per_page sd ed si out w c in
  window_effect st ed c c'.
Proof.
  intros Ht He. revert si out w c Ht; induction pages as [|pages IH]; intros si out w c Ht; simpl.
  { by apply window_effect_refl. }
  destruct (INT_MAX <? si); [by apply window_effect_refl|].
  destruct (fetch_page si sd _ w) as [[body|] w1]; [|by apply window_effect_refl].
  destruct (parse_total_results json_parse body <? 0); [by apply window_effect_refl|].
  set (is_last := (_ =? 0) || _).
  pose proof (ingest_page_step body ed is_last c Ht He) as HI.
  destruct (ingest_page _ _ _ _ c) as [[st n] c1]. destruct HI as (Hok & HE & HO).
  case_bool_decide as Hst; cbn [negb].
  2: { apply window_effect_refl; auto. }
  destruct (HO Hst) as [Ht1 Hs]. destruct is_last.
  - split_and!; [done| |done|].
    + intros [s Hs0]. rewrite Hs, Hs0. by eexists.
    + intros _. split; [done|]. unfold nvd_watermark. rewrite Hs. by destruct (db_sync (durable c) !! _).
  - specialize (IH (si + per_page) (add_page n out) (free_body body w1) c1 Ht1).
    destruct (window_loop _ _ _ _ _ _ _ _ _ _ c1) as [[[st' out'] w'] c'].
    destruct IH as (I1 & I2 & I3 & I4).
    assert (nvd_watermark (durable c1) = nvd_watermark (durable c)) as Hw
      by (unfold nvd_watermark; rewrite Hs; by destruct (db_sync (durable c) !! _)).
    split_and!; [tauto| | |].
    + intros [s Hs0]. apply I2. rewrite Hs, Hs0. by eexists.
    + intros Hne. by rewrite I3.
    + intros Heq. destruct (I4 Heq) as [Ht' ->]. split; [done|]. rewrite Hs.
      by destruct (db_sync (durable c) !! _).
Qed.

Lemma sync_window_effect rpp sd ed mp out w (c : C) :
  in_tx c = false ->
  let '(st, out', w', c') := sync_window json_parse fetch_page free_body rpp sd ed mp out w c in
  (is_Some ed \/ st <> SYNC_OK) /\ window_effect st (default [] ed) c c'.
Proof.
  intros Ht. unfold sync_window. destruct ed as [[|x e]|]; cbn [nonempty default];
    [by split; [right|apply window_effect_refl]| |by split; [right|apply window_effect_refl]].
  pose proof (window_loop_effect (Z.to_nat (if 0 <? mp then mp else NVD_SYNC_MAX_PAGES))
    (clamp_per_page rpp) sd (x :: e) 0 sync_counts0 w c Ht ltac:(done)) as HL.
  destruct (window_loop _ _ _ _ _ _ _ _ _ _ _) as [[[st' out'] w'] c']. split; [left; by eexists|done].
Qed.

(** The watermark reaches the end of a window exactly when the whole
    window was fetched and committed; any failure (transport, protocol,
    database, page cap) leaves it where it was, and in every case the tables
    stay well formed. *)
Theorem sync_window_watermark rpp sd ed mp out w (c : C) :
  in_tx c = false -> nvd_ok (durable c) -> is_Some (db_sync (durable c) !! bs "nvd") ->
  let '(st, out', w', c') := sync_window json_parse fetch_page free_body rpp sd ed mp out w c in
  nvd_ok (durable c') /\
  nvd_watermark (durable c') = if bool_decide (st = SYNC_OK) then ed else nvd_watermark (durable c).
Proof.
  intros Ht Hok [s Hs]. pose proof (sync_window_effect rpp sd ed mp out w c Ht) as HL.
  destruct (sync_window _ _ _ _ _ _ _ _ _ _) as [[[st out'] w'] c'].
  destruct HL as (Hed & HE1 & HE2 & HE3 & HE4). split; [auto|].
  case_bool_decide as Hst; [|auto]. destruct (HE4 Hst) as [_ ->]. rewrite Hs. simpl.
  destruct Hed as [[e ->]|]; done.
Qed.
End Window.

(** ** What is requested *)

(** A transport that records the requests it gets and its answers. *)
Abbreviation request := (Z * option bytes * option bytes)%type.
Abbreviation exchange := (request * answer)%type.

Definition logging {W} (fetch : Z -> option bytes -> option bytes -> W -> answer * W)
    (si : Z) (sd ed : option bytes) (w : W * list exchange) : answer * (W * list exchange) :=
  let '(body, w') := fetch si sd ed w.1 in (body, (w', w.2 ++ [((si, sd, ed), body)])).

Definition logging_free {W} (free : option bytes -> W -> W) (body : option bytes) (w : W * list exchange) : W * list exchange :=
  (free body w.1, w.2).

(** The total the last answer claims. *)
Definition last_total (json_parse : bytes -> option json) (log : list exchange) : Z :=
  match last log with
  | Some (_, Some body) => parse_total_results json_parse body
  | _ => -1
  end.

(** The requests of the first [n] pages. *)
Definition page_requests (per_page : Z) (sd : option bytes) (ed : bytes) (n : nat) : list request :=
  map (fun k => (Z.of_nat k * per_page, sd, match sd with Some _ => Some ed | None => None end)) (seq 0 n).

Lemma page_requests_S per_page sd ed n :
  page_requests per_page sd ed (S n) =
  page_requests per_page sd ed n ++
  [(Z.of_nat n * per_page, sd, match sd with Some _ => Some ed | None => None end)].
Proof. unfold page_requests. by rewrite seq_S, map_app. Qed.

Section Requests.
Context {C W : Type} `{Sqlite C}.
Variable json_parse : bytes -> option json.
Variable fetch_page : Z -> option bytes -> option bytes -> W -> answer * W.
Variable free_body : option bytes -> W -> W.

(** [k] pages were requested before. *)
Lemma window_loop_requests pages per_page sd ed k out w log (c : C) :
  1 <= per_page <= 2000 -> Z.of_nat k * per_page <= NVD_SYNC_MAX_TOTAL_RESULTS ->
  map fst log = page_requests per_page sd ed k ->
  let '(st, out', w', c') :=
    window_loop json_parse (logging fetch_page) (logging_free free_body) pages per_page sd ed (Z.of_nat k * per_page) out (w, log) c in
  exists n, (k <= n <= k + pages)%nat /\ map fst w'.2 = page_requests per_page sd ed n /\
    (n = k \/ Z.of_nat (n - 1) * per_page <= NVD_SYNC_MAX_TOTAL_RESULTS) /\
    (st = SYNC_OK -> (k < n)%nat /\ pages_fetched out' = pages_fetched out + Z.of_nat (n - k) /\
       0 <= last_total json_parse w'.2 <= Z.of_nat n * per_page).
Proof.
  intros Hpp. revert k out w log c; induction pages as [|pages IH]; intros k out w log c Hk Hlog.
  { simpl. exists k. split_and!; [lia|lia|done|by left|done]. }
  cbn [window_loop]. rewrite (proj2 (Z.ltb_ge _ _)) by (unfold INT_MAX, NVD_SYNC_MAX_TOTAL_RESULTS in *; lia).
  unfold logging at 1. cbn [fst snd].
  destruct (fetch_page (Z.of_nat k * per_page) sd _ w) as [body w1].
  set (log1 := log ++ [((Z.of_nat k * per_page, sd, match sd with Some _ => Some ed | None => None end), body)]).
  assert (Hlog1 : map fst log1 = page_requests per_page sd ed (S k))
    by (subst log1; by rewrite map_app, Hlog, page_requests_S).
  assert (Hlast : Z.of_nat (S k - 1) * per_page <= NVD_SYNC_MAX_TOTAL_RESULTS)
    by (by replace (S k - 1)%nat with k by lia).
  destruct body as [body|]; [|exists (S k); split_and!; [lia|lia|done|by right|done]].
  pose proof (parse_total_results_range json_parse body) as Htot.
  assert (Hbody : last_total json_parse log1 = parse_total_results json_parse body)
    by (unfold last_total; subst log1; by rewrite last_snoc).
  set (total := parse_total_results json_parse body) in *.
  destruct (Z.ltb_spec total 0); [exists (S k); split_and!; [lia|lia|done|by right|done]|].
  destruct ((total =? 0) || (total <=? Z.of_nat k * per_page + per_page)) eqn:El;
    destruct (ingest_page _ _ _ _ c) as [[st n] c1];
    change (logging_free free_body body (w1, log1)) with (free_body body w1, log1);
    (destruct (negb _); [exists (S k); split_and!; [lia|lia|done|by right|done]|]).
  - exists (S k). cbn [snd pages_fetched add_page]. split_and!; [lia|lia|done|by right|].
    intros _. rewrite Hbody. split_and!; [lia|lia|lia|]. apply orb_true_iff in El as [El|El]; breflect; nia.
  - breflect. replace (Z.of_nat k * per_page + per_page) with (Z.of_nat (S k) * per_page) in * by lia.
    specialize (IH (S k) (add_page n out) (free_body body w1) log1 c1 ltac:(lia) Hlog1).
    destruct (window_loop _ _ _ _ _ _ _ _ _ _ _) as [[[st' out'] w'] c'].
    destruct IH as (m & Hm & Hw & Hbm & Hok). cbn [pages_fetched add_page] in Hok.
    exists m. split_and!; [lia|lia|done| |].
    + right. destruct Hbm as [->|]; [done|done].
    + intros Hst. destruct (Hok Hst) as (? & ? & ?). split_and!; lia.
Qed.

(** A window asks for consecutive pages only, from index 0 in steps of
    the clamped page size, at most as many as the page cap, with both dates
    or neither.  No start index exceeds the largest accepted total, so the
    index never leaves the range of an [int] whatever the peer answers.  A
    successful window counts the pages it asked for, and they cover the total
    number of results that its last answer claims. *)
Theorem sync_window_requests rpp sd e mp out w (c : C) :
  e <> [] ->
  let '(st, out', w', c') :=
    sync_window json_parse (logging fetch_page) (logging_free free_body) rpp sd (Some e) mp out (w, []) c in
  exists n, Z.of_nat n <= (if 0 <? mp then mp else NVD_SYNC_MAX_PAGES) /\
    map fst w'.2 = page_requests (clamp_per_page rpp) sd e n /\
    Forall (fun x : exchange => 0 <= x.1.1.1 <= NVD_SYNC_MAX_TOTAL_RESULTS) w'.2 /\
    (st = SYNC_OK -> (1 <= n)%nat /\ pages_fetched out' = Z.of_nat n /\
       0 <= last_total json_parse w'.2 <= Z.of_nat n * clamp_per_page rpp).
Proof.
  intros He. unfold sync_window. destruct e as [|x e]; [done|]. cbn [nonempty].
  pose proof (clamp_per_page_range rpp) as Hpp.
  set (pages := if 0 <? mp then mp else NVD_SYNC_MAX_PAGES).
  assert (0 <= pages) by (subst pages; unfold NVD_SYNC_MAX_PAGES; destruct (Z.ltb_spec 0 mp); lia).
  pose proof (window_loop_requests (Z.to_nat pages) (clamp_per_page rpp) sd (x :: e) 0 sync_counts0 w [] c
    Hpp ltac:(done) eq_refl) as HL.
  change (Z.of_nat 0 * clamp_per_page rpp) with 0 in HL.
  destruct (window_loop _ _ _ _ _ _ _ _ _ _ _) as [[[st out'] w'] c'].
  destruct HL as (n & Hn & Hw & Hb & Hok). exists n. split_and!; [lia|done| |].
  - apply Forall_forall. intros y Hy.
    assert (y.1 ∈ map fst w'.2) as Hr by (apply list_elem_of_fmap; by exists y).
    rewrite Hw in Hr. apply list_elem_of_fmap in Hr as (k & -> & Hk%elem_of_seq). cbn [fst]. split; [lia|].
    destruct Hb as [->|Hb]; [lia|]. nia.
  - intros Hst. destruct (Hok Hst) as (Hk & Hp & Ht). split_and!; [lia|rewrite Hp; simpl; lia|lia|lia].
Qed.
End Requests.

(** ** Examples *)

(** A peer that always answers with the page of the examples. *)
Definition example_fetch (si : Z) (sd ed : option bytes) (w : unit) : answer * unit :=
  (Some (Some (bs "page")), tt).

Definition example_free (body : option bytes) (w : unit) : unit := w.

Lemma sync_window_watermark_witness :
  nvd_watermark (durable (sync_window example_parse example_fetch example_free 2000 None (Some (bs "2022-01-01")) 0
    sync_counts0 tt (nvd_conn [])).2) = Some (bs "2022-01-01").
Proof.
  pose proof (sync_window_watermark example_parse example_fetch example_free 2000 None (Some (bs "2022-01-01")) 0
    sync_counts0 tt (nvd_conn []) eq_refl nvd_database_ok ltac:(vm_compute; by eexists)) as R.
  destruct (sync_window _ _ _ _ _ _ _ _ _ _) as [[[st out] w] c'] eqn:E. destruct R as [_ R].
  cbn [snd]. rewrite R. vm_compute in E. injection E as <- _ _ _. reflexivity.
Defined.

Lemma sync_window_requests_witness :
  map fst (sync_window example_parse (logging example_fetch) (logging_free example_free) 0 None (Some (bs "2022-01-01")) 7
    sync_counts0 (tt, []) (nvd_conn [])).1.2.2 = [(0, None, None)].
Proof.
  pose proof (sync_window_requests example_parse example_fetch example_free 0 None (bs "2022-01-01") 7 sync_counts0 tt
    (nvd_conn []) ltac:(done)) as R.
  destruct (sync_window _ _ _ _ _ _ _ _ _ _) as [[[st out] w] c'] eqn:E.
  destruct R as (n & _ & Hw & _ & Hok). cbn [fst snd].
  vm_compute in E. injection E as <- <- <- <-. destruct (Hok eq_refl) as (_ & Hn & _).
  cbn [pages_fetched] in Hn. rewrite Hw. replace n with 1%nat by lia. reflexivity.
Defined.

(** A peer that announces 9 results and breaks off after the first page. *)
Definition broken_parse (body : bytes) : option json :=
  Some (JObject [member "totalResults" (JNumber (Dyadic 9 0));
                 member "vulnerabilities" (JArray example_vulnerabilities)]).
Definition broken_fetch (si : Z) (sd ed : option bytes) (w : unit) : answer * unit :=
  if si =? 0 then (Some (Some (bs "page")), tt) else (None, tt).

(** A window that fails after its first page keeps the committed pages:
    the failed call left records in the database, counted in the totals,
    while the watermark did not move. *)
Example failed_window_keeps_pages :
  let '(st, out, w, c') :=
    sync_window broken_parse broken_fetch example_free 2 None (Some (bs "2022-01-01")) 0 sync_counts0 tt (nvd_conn []) in
  st = SYNC_ERR_FETCH /\ pages_fetched out = 1 /\
  is_Some (db_cves (durable c') !! bs "CVE-2021-41773") /\
  (sync_total_records <$> db_sync (durable c') !! bs "nvd") = Some 2 /\
  nvd_watermark (durable c') = None.
Proof. vm_compute. split_and!; try reflexivity. by eexists. Qed.
