(* ===== verification/EpssIngest.v ===== *)
(** * The EPSS feed ([src/src/db/epss_ingest.c])

    The fields of an EPSS record and its upsert: an instance of [Feed]. *)

From S2P Require Import Prelude CveId Json Sqlite ScanPersist NvdIngest Cidr Feed KevIngest Strtod.

Definition EPSS_MAX_BYTES : Z := 128 * 1024 * 1024.
Definition EPSS_MAX_RECORDS : Z := 500000.
Definition EPSS_DATE_MAX_LEN : Z := 32.
Definition EPSS_DATE_BUF_LEN : Z := EPSS_DATE_MAX_LEN + 1.
Definition EPSS_PROB_STR_MAX_LEN : Z := 31.

Definition parse_probability_string (s : option bytes) : option double :=
  match s with
  | None => None
  | Some s =>
      let len := Z.min (Z.of_nat (length s)) (EPSS_PROB_STR_MAX_LEN + 1) in
      if (len =? 0) || (EPSS_PROB_STR_MAX_LEN <? len) then None else
      match strtod s with
      | None => None
      | Some (v, endptr, erange) =>
          if negb (bool_decide (endptr = [])) then None else
          if erange then None else
          if negb (double_finite v) then None else
          if double_lt v 0 || negb (double_le v 1) then None else Some v
      end
  end.

(** The reading part of [process_one_epss]. *)
Definition read_epss (elem : json) : option (bytes * epss_row) :=
  match read_cve_id elem "cve" with
  | None => None
  | Some cve_id =>
      match parse_probability_string (json_get_string (Some elem) "epss") with
      | None => None
      | Some epss_score =>
          match parse_probability_string (json_get_string (Some elem) "percentile") with
          | None => None
          | Some percentile =>
              match (match nonempty (json_get_string (Some elem) "date") with
                     | Some date => Some date
                     | None => nonempty (json_get_string (Some elem) "score_date")
                     end) with
              | None => None
              | Some date => Some (cve_id, EpssRow epss_score percentile (clip_into EPSS_DATE_BUF_LEN date))
              end
          end
      end
  end.

(** [CYTADEL_EPSS_UPSERT_SQL] *)
Definition epss_upsert (id : bytes) (r : epss_row) (d : database) : database :=
  Database (db_cves d) (db_cpe d) (db_kev d) (<[id := r]> (db_epss d)) (db_scans d) (db_results d) (db_sync d) (db_schema d).

#[export] Instance epss_feed : Feed epss_row := {
  max_bytes := EPSS_MAX_BYTES;
  max_records := EPSS_MAX_RECORDS;
  array_key := "data";
  feed_name := bs "epss";
  read_record := read_epss;
  feed_upsert := epss_upsert
}.

Definition process_one_epss {C : Type} `{Sqlite C} : json -> option bytes -> feed_counts -> C -> feed_counts * bool * C :=
  process_one (R := epss_row).

(** [cytadel_epss_ingest] *)
Definition epss_ingest {C : Type} `{Sqlite C} :=
  feed_ingest (C := C) (R := epss_row).

(** ** The laws of the feed *)

Lemma probability_string_ok s v : parse_probability_string s = Some v -> probability_ok v.
Proof.
  unfold parse_probability_string. destruct s as [s|]; [|done]. destruct (_ || _); [done|].
  destruct (strtod s) as [[[w e] er]|]; [|done]. case_bool_decide; [|done]. destruct er; [done|]. cbn [negb].
  destruct (double_finite w) eqn:Hf; [|done]. cbn [negb].
  destruct (double_lt w 0) eqn:Hl; [done|]. destruct (double_le w 1) eqn:Hu; [|done]. cbn. intros [= <-].
  split_and!; [done| |done]. destruct w as [m x| |]; [|done|done]. cbn [double_ge double_lt] in *. zbool.
Qed.

Lemma read_epss_ok elem id r : read_epss elem = Some (id, r) -> is_valid_cve_id id = true /\ epss_row_ok r.
Proof.
  unfold read_epss. destruct (read_cve_id _ _) as [i|] eqn:Ei; [|done].
  destruct (parse_probability_string (json_get_string _ "epss")) as [s|] eqn:Es; [|done].
  destruct (parse_probability_string (json_get_string _ "percentile")) as [p|] eqn:Ep; [|done].
  destruct (match nonempty _ with Some _ => _ | None => _ end) as [date|] eqn:Ed; [|done]. intros [= <- <-].
  split; [by eapply read_cve_id_valid|]. apply probability_string_ok in Es, Ep. split_and!; try done.
  cbn [epss_score_date]. assert (exists o, nonempty o = Some date) as [o Ho].
  { destruct (nonempty (json_get_string (Some elem) "date")) as [x|] eqn:En; [injection Ed as <-|]; by eexists. }
  by apply (clip_nonempty _ o).
Qed.

#[export] Instance epss_feed_laws : FeedLaws epss_row.
Proof.
  split.
  - done.
  - intros elem id r Hr. by apply read_epss_ok in Hr as [? _].
  - intros id r d. by split_and!.
  - intros elem id r d Hr Hs [Hk He]. apply read_epss_ok in Hr as [_ Hok]. split; [done|].
    intros i x. cbn [feed_upsert epss_feed epss_upsert db_epss db_cves]. destruct (decide (id = i)) as [<-|Hne].
    + rewrite lookup_insert_eq. by intros [= <-].
    + rewrite lookup_insert_ne by done. apply He.
Qed.

(** ** Accuracy of the probabilities *)

Lemma octet_value_bound l : forallb is_digit l = true -> 0 <= octet_value l < 10 ^ Z.of_nat (length l).
Proof.
  induction l as [|c l IH] using rev_ind; intros Hl; [done|]. rewrite forallb_app in Hl. apply andb_prop in Hl as [Hl Hc].
  specialize (IH Hl). unfold octet_value in *. rewrite foldl_app, length_app. cbn [foldl length forallb] in *.
  rewrite andb_true_r in Hc. unfold is_digit in Hc. breflect.
  replace (Z.of_nat (length l + 1)) with (Z.of_nat (length l) + 1) by lia. rewrite Z.pow_add_r by lia. lia.
Qed.

Lemma convert_fraction N k count :
  0 <= k <= 100 -> convert N 10 (- k) count = if N =? 0 then (Dyadic 0 0, false) else round_double N (10 ^ k).
Proof.
  intros Hk. unfold convert. destruct (N =? 0); [done|]. rewrite (proj2 (Z.ltb_ge 5000 _)), (proj2 (Z.ltb_ge _ (- _))) by lia.
  rewrite Z.opp_involutive. destruct (Z.leb_spec 0 (- k)); [|done]. replace k with 0 by lia. by rewrite Z.mul_1_r.
Qed.

(** Rounding to nearest keeps the order with 1, up to half a unit in the last
    place. *)
Lemma round_double_le1 N D :
  0 < N -> 0 < D -> -1022 <= log2_ratio N D <= 900 ->
  exists m e, round_double N D = (Dyadic m e, false) /\ 2 ^ 52 <= m <= 2 ^ 53 /\
    (double_le (Dyadic m e) 1 = true <-> N * 2 ^ 53 <= D * (2 ^ 53 + 1)) /\
    (double_le (Dyadic m e) 1 = true -> e <= 0 /\ 2 * Z.abs (m * D - N * 2 ^ (- e)) <= D).
Proof.
  intros HN HD Hl. set (l := log2_ratio N D) in *. destruct (round_double_normal N D HN HD Hl) as [Hr Hm].
  fold l in Hr, Hm. set (e := l - 52) in *. set (m := round_at N D e) in *. exists m, e. split; [done|]. split; [done|].
  destruct (scale N D (- l)) as [n0 d0] eqn:E0. pose proof (log2_ratio_spec N D n0 d0 HN HD E0) as HL.
  unfold scale in E0. cbn [double_le]. rewrite Z.leb_le.
  destruct (Z.leb_spec 0 (- l)) as [Hneg|Hpos]; injection E0 as <- <-.
  - assert (E : scale N D (- e) = (N * 2 ^ (- e), D)) by (unfold scale; by rewrite (proj2 (Z.leb_le 0 (- e))) by lia).
    destruct (round_at_spec N D e _ _ E HD) as [Habs Hround]. fold m in Habs, Hround.
    rewrite (Z.max_l 0 e), (Z.max_r 0 (- e)) by lia. split; [|intros _; split; [lia|done]].
    rewrite Z.mul_1_r, Z.mul_1_l. destruct (Z.eqb_spec l 0) as [El|El].
    + replace (- e) with 52 in * by lia. rewrite (Hround (2 ^ 52) eq_refl).
      change (2 ^ 53) with (2 * 2 ^ 52). nia.
    + assert (2 ^ 53 <= 2 ^ (- e)) by (apply Z.pow_le_mono_r; lia).
      assert (2 * N <= N * 2 ^ (- l)) by (pose proof (Z.pow_le_mono_r 2 1 (- l) ltac:(lia) ltac:(lia)); nia).
      split; [intros _; nia|intros _; lia].
  - rewrite Z.opp_involutive in HL. assert (Hbig : 2 * D <= N) by (pose proof (Z.pow_le_mono_r 2 1 l ltac:(lia) ltac:(lia)); nia).
    assert (Hnot : ~ m * 2 ^ Z.max 0 e <= 1 * 2 ^ Z.max 0 (- e)).
    { destruct (Z.le_gt_cases 0 e).
      - rewrite (Z.max_l 0 (- e)), Z.max_r by lia. pose proof (Z.pow_pos_nonneg 2 e ltac:(lia) ltac:(lia)). nia.
      - rewrite (Z.max_r 0 (- e)), Z.max_l by lia.
        assert (2 ^ (- e) <= 2 ^ 51) by (apply Z.pow_le_mono_r; lia). lia. }
    split; [split; [done|nia]|done].
Qed.

(** C40: Accuracy of the EPSS scores.  A score written in decimal, with at least
    one digit before the point and in at most 31 bytes, is accepted exactly
    when it is at most 1 plus half a unit in the last place of 1 (a score over
    1 by no more than that rounds to 1), and what is stored is a double within
    half a unit in its own last place of it, with all its 53 bits. *)
Theorem probability_nearest ip fp :
  forallb is_digit ip = true -> forallb is_digit fp = true ->
  (1 <= length ip)%nat -> (length ip + 1 + length fp <= 31)%nat ->
  let N := octet_value (ip ++ fp) in
  let D := 10 ^ Z.of_nat (length fp) in
  match parse_probability_string (Some (ip ++ 46 :: fp)) with
  | Some v =>
      N * 2 ^ 53 <= D * (2 ^ 53 + 1) /\
      exists m e, v = Dyadic m e /\ e <= 0 /\ 2 * Z.abs (m * D - N * 2 ^ (- e)) <= D /\
        (0 < N -> 2 ^ 52 <= m <= 2 ^ 53)
  | None => D * (2 ^ 53 + 1) < N * 2 ^ 53
  end.
Proof.
  intros Hi Hf H1 H31 N D. unfold parse_probability_string.
  assert (Hlen : length (ip ++ 46 :: fp) = (length ip + 1 + length fp)%nat) by (rewrite length_app; cbn [length]; lia).
  rewrite Hlen. unfold EPSS_PROB_STR_MAX_LEN. rewrite Z.min_l by lia.
  rewrite (proj2 (Z.eqb_neq _ 0)), (proj2 (Z.ltb_ge 31 _)) by lia. cbn [orb].
  rewrite strtod_decimal, convert_fraction by (done || lia). fold (octet_value (ip ++ fp)). fold N. fold D.
  assert (HD : 0 < D) by (apply Z.pow_pos_nonneg; lia).
  pose proof (octet_value_bound (ip ++ fp)) as HN. rewrite forallb_app, Hi, Hf, length_app in HN. specialize (HN eq_refl). fold N in HN.
  destruct (Z.eqb_spec N 0) as [E0|E0].
  { cbn. rewrite E0. split; [lia|]. exists 0, 0. split_and!; (done || lia). }
  assert (Hrange : -1022 <= log2_ratio N D <= 900).
  { assert (HP : 10 ^ 31 < 2 ^ 103) by (apply Z.ltb_lt; reflexivity).
    assert (HN1 : 10 ^ Z.of_nat (length ip + length fp) <= 10 ^ 31) by (apply Z.pow_le_mono_r; lia).
    assert (HD1 : D <= 10 ^ 31) by (apply Z.pow_le_mono_r; lia).
    assert (HN2 : Z.log2 N < 103) by (apply Z.log2_lt_pow2; lia).
    assert (HD2 : Z.log2 D < 103) by (apply Z.log2_lt_pow2; lia). pose proof (Z.log2_nonneg N). pose proof (Z.log2_nonneg D).
    unfold log2_ratio. destruct (scale _ _ _) as [n d]. destruct (d <=? n); lia. }
  destruct (round_double_le1 N D ltac:(lia) HD Hrange) as (m & e & -> & Hm & Hle & Habs).
  cbn [double_finite negb]. rewrite bool_decide_eq_true_2 by done. cbn [negb].
  assert (Hlt : double_lt (Dyadic m e) 0 = false).
  { cbn [double_lt]. apply Z.ltb_ge. pose proof (Z.pow_pos_nonneg 2 (Z.max 0 e) ltac:(lia) ltac:(lia)). nia. }
  rewrite Hlt. cbn [orb]. destruct (double_le (Dyadic m e) 1) eqn:El; cbn [negb].
  - destruct (Habs eq_refl) as [He Ha]. split; [by apply Hle|]. exists m, e. split_and!; done.
  - destruct (Z.le_gt_cases (N * 2 ^ 53) (D * (2 ^ 53 + 1))) as [Hc|]; [by apply Hle in Hc|done].
Qed.

Lemma probability_nearest_witness :
  exists v, parse_probability_string (Some (bs "0.97095")) = Some v /\
    exists m e, v = Dyadic m e /\ e <= 0 /\ 2 * Z.abs (m * 100000 - 97095 * 2 ^ (- e)) <= 100000.
Proof.
  pose proof (probability_nearest (bs "0") (bs "97095") eq_refl eq_refl ltac:(vm_compute; lia) ltac:(vm_compute; lia)) as R.
  cbv zeta in R. change (bs "0" ++ 46 :: bs "97095") with (bs "0.97095") in R.
  destruct (parse_probability_string (Some (bs "0.97095"))) as [v|] eqn:E.
  - exists v. split; [reflexivity|]. destruct R as (_ & m & e & Hv & He & Ha & _). exists m, e. split; [exact Hv|]. split; [exact He|].
    exact Ha.
  - vm_compute in E. discriminate E.
Defined.

(** ** Examples *)

Definition example_score (id score : string) : json :=
  JObject [(bs "cve", JString (bs id)); (bs "epss", JString (bs score)); (bs "percentile", JString (bs "0.5"));
    (bs "date", JString (bs "2022-01-01"))].

Definition example_page (total : Z) (b : bytes) : option json :=
  Some (JObject [(bs "total", JNumber (Dyadic total 0));
    (bs "data", JArray [example_score "CVE-2021-44228" "0.97095"; example_score "CVE-2021-0001" "1.5"])]).

Lemma feed_ingest_safe_witness :
  exists c', epss_ingest (example_page 2) example_now (bs "2022-01-01") (Some [123; 125]) true
      (ToyConn (feed_db "epss") None []) = (INGEST_OK, FeedCounts 1 1, c') /\ feeds_ok (durable c').
Proof.
  assert (H0 : feeds_ok (feed_db "epss")) by (split; intros id r H; cbn [feed_db db_kev db_epss] in H; rewrite lookup_empty in H; done).
  pose proof (feed_ingest_safe (C := toy_conn) (R := epss_row) (example_page 2) example_now (bs "2022-01-01")
    (Some [123; 125]) true (ToyConn (feed_db "epss") None []) eq_refl) as HR.
  unfold epss_ingest. destruct (feed_ingest _ _ _ _ _ _) as [[st n] c'] eqn:E.
  assert (st = INGEST_OK) as -> by (vm_compute in E; by injection E as <- _ _).
  assert (n = FeedCounts 1 1) as -> by (vm_compute in E; by injection E as <- _).
  exists c'. split; [reflexivity|]. exact (proj1 HR H0).
Defined.
