(* ===== verification/FeedSync.v ===== *)
(** * Pulling the KEV and EPSS feeds ([src/src/db/kev_sync.c],
    [epss_sync.c])

    The drivers that fetch the feeds and hand them to the ingest.  The
    transport is a function of a state [W] of the world.  The clock of the
    ingest of page [k] is [now k], [today k].  The KEV catalogue is one
    document, the EPSS feed is paged. *)

From S2P Require Import Prelude Json Sqlite NvdIngest NvdSync Feed KevIngest EpssIngest.

Definition KEV_DEFAULT_URL : bytes :=
  bs "https://www.cisa.gov/sites/default/files/feeds/known_exploited_vulnerabilities.json".
Definition EPSS_DEFAULT_URL : bytes := bs "https://api.first.org/data/v1/epss".
Definition EPSS_SYNC_URL_BUF_LEN : Z := 1024.
Definition EPSS_SYNC_DEFAULT_PAGE_SIZE : Z := 2000.
Definition EPSS_SYNC_MAX_PAGES : Z := 200000.
Definition EPSS_SYNC_MAX_TOTAL : Z := 100000000.

Section Sync.
Context {C W : Type} `{Sqlite C}.
Variable json_parse : bytes -> option json.
(** [cytadel_nvd_fetch_get], and [free] of the body it gave. *)
Variable fetch : bytes -> W -> answer * W.
Variable free_body : option bytes -> W -> W.
Variable now : Z -> nat -> option bytes.
Variable today : Z -> bytes.

(** [cytadel_kev_sync]; [db], [cfg] and [out_counts] are given. *)
Definition kev_sync (kev_url : option bytes) (w : W) (c : C) : sync_status * feed_counts * W * C :=
  let url := default KEV_DEFAULT_URL (nonempty kev_url) in
  let '(body, w) := fetch url w in
  match body with
  | None => (SYNC_ERR_FETCH, feed_counts0, w, c)
  | Some body =>
      let '(st, ic, c) := kev_ingest json_parse (now 0) (today 0) body true c in
      let w := free_body body w in
      if negb (bool_decide (st = INGEST_OK)) then (SYNC_ERR_INGEST, feed_counts0, w, c)
      else (SYNC_OK, ic, w, c)
  end.

(** The [total] and the number of elements of [data]; cJSON finds no document
    in no buffer. *)
Definition parse_envelope (body : option bytes) : option (Z * Z) :=
  match body ≫= json_parse with
  | None => None
  | Some root =>
      match json_item (Some root) "total", json_array (json_item (Some root) "data") with
      | Some (JNumber tv), Some data =>
          if double_finite tv && double_ge tv 0 && double_le tv EPSS_SYNC_MAX_TOTAL
          then Some (double_trunc tv, Z.of_nat (length data)) else None
      | _, _ => None
      end
  end.

Definition build_page_url (base_url : bytes) (limit offset : Z) : option bytes :=
  let url := base_url ++ bs "?limit=" ++ print_dec limit ++ bs "&offset=" ++ print_dec offset in
  if (0 <? Z.of_nat (length url)) && (Z.of_nat (length url) <? EPSS_SYNC_URL_BUF_LEN) then Some url else None.

Definition add_feed_page (n : feed_counts) (out : sync_counts) : sync_counts :=
  SyncCounts (pages_fetched out + 1) (sync_ingested out + feed_ingested n) (sync_skipped out + feed_skipped n).

(** The [for] loop from page [page] on: [pages] iterations are left. *)
Fixpoint epss_loop (pages : nat) (page : Z) (base_url : bytes) (limit offset : Z) (out : sync_counts) (w : W) (c : C)
    : sync_status * sync_counts * W * C :=
  match pages with
  | O => (SYNC_ERR_PROTOCOL, out, w, c)
  | S pages =>
      match build_page_url base_url limit offset with
      | None => (SYNC_ERR_PROTOCOL, out, w, c)
      | Some url =>
          let '(body, w) := fetch url w in
          match body with
          | None => (SYNC_ERR_FETCH, out, w, c)
          | Some body =>
              match parse_envelope body with
              | None => (SYNC_ERR_PROTOCOL, out, free_body body w, c)
              | Some (total, data_count) =>
                  let is_last := total <=? offset + data_count in
                  if (data_count =? 0) && negb is_last then (SYNC_ERR_PROTOCOL, out, free_body body w, c) else
                  let '(st, ic, c) := epss_ingest json_parse (now page) (today page) body is_last c in
                  let w := free_body body w in
                  if negb (bool_decide (st = INGEST_OK)) then (SYNC_ERR_INGEST, out, w, c) else
                  let out := add_feed_page ic out in
                  if is_last then (SYNC_OK, out, w, c)
                  else epss_loop pages (page + 1) base_url limit (offset + data_count) out w c
              end
          end
      end
  end.

(** [cytadel_epss_sync]; [db], [cfg] and [out_counts] are given. *)
Definition epss_sync (epss_url : option bytes) (page_size : Z) (w : W) (c : C) :
    sync_status * sync_counts * W * C :=
  let base_url := default EPSS_DEFAULT_URL (nonempty epss_url) in
  let limit := if 0 <? page_size then page_size else EPSS_SYNC_DEFAULT_PAGE_SIZE in
  epss_loop (Z.to_nat EPSS_SYNC_MAX_PAGES) 0 base_url limit 0 sync_counts0 w c.
End Sync.

#[local] Arguments feed_ingest : simpl never.
#[local] Arguments parse_envelope : simpl never.
#[local] Arguments build_page_url : simpl never.

(** ** What a pull leaves behind *)

Definition feed_watermark (feed : bytes) (d : database) : option (option bytes) := sync_watermark <$> db_sync d !! feed.

(** Nothing a pull of [feed] must not touch has changed. *)
Definition pull_safe (feed : bytes) (d d' : database) : Prop :=
  (feeds_ok d -> feeds_ok d') /\
  (forall id x, db_cves d !! id = Some x -> db_cves d' !! id = Some x) /\
  (forall other, other <> feed -> db_sync d' !! other = db_sync d !! other) /\
  (is_Some (db_sync d !! feed) <-> is_Some (db_sync d' !! feed)).

Lemma pull_safe_refl feed d : pull_safe feed d d.
Proof. split_and!; auto. Qed.

Lemma pull_safe_trans feed d1 d2 d3 : pull_safe feed d1 d2 -> pull_safe feed d2 d3 -> pull_safe feed d1 d3.
Proof.
  intros (A1 & A2 & A3 & A4) (B1 & B2 & B3 & B4). split_and!; auto.
  - intros other Hne. by rewrite B3, A3.
  - by rewrite A4.
Qed.

Section Effects.
Context {C W : Type} `{SqliteLaws C}.
Variable json_parse : bytes -> option json.
Variable fetch : bytes -> W -> answer * W.
Variable free_body : option bytes -> W -> W.
Variable now : Z -> nat -> option bytes.
Variable today : Z -> bytes.

(** One committed ingest, seen from a pull. *)
Lemma ingest_pull {R : Type} `{FeedLaws R} clock date body full (c : C) :
  in_tx c = false ->
  let '(st, n, c') := feed_ingest json_parse clock date body full c in
  pull_safe feed_name (durable c) (durable c') /\
  (st <> INGEST_OK -> durable c' = durable c) /\
  (st = INGEST_OK -> in_tx c' = false /\
     feed_watermark feed_name (durable c') =
       (if full then (fun _ => Some date) <$> db_sync (durable c) !! feed_name else feed_watermark feed_name (durable c)) /\
     exists b elems, body = Some b /\ feed_document json_parse b = Some elems /\
       feed_ingested n + feed_skipped n = Z.of_nat (length elems)).
Proof.
  intros Ht. pose proof (feed_ingest_step json_parse clock date body full c Ht) as HE.
  destruct (feed_ingest _ _ _ _ _ _) as [[st n] c']. destruct HE as [HF HO].
  destruct (decide (st = INGEST_OK)) as [Hst|Hst].
  - destruct (HO Hst) as (Ht' & b & elems & d1 & Hb & Hdoc & Hd & (A1 & A2 & A3 & A4 & A5 & A6) & Hok & Hn).
    assert (HC : db_cves (durable c') = db_cves d1) by (rewrite Hd; by destruct full).
    split; [split_and!|split; [done|intros _; split; [done|split]]].
    + done.
    + intros id x Hx. rewrite HC. by apply A1.
    + intros other Hne. rewrite Hd, feed_sync_update_lookup, bool_decide_eq_false_2 by done. by rewrite A6.
    + rewrite Hd, feed_sync_update_lookup, bool_decide_eq_true_2 by done. by rewrite A6, fmap_is_Some.
    + unfold feed_watermark. rewrite Hd, feed_sync_update_lookup, bool_decide_eq_true_2, A6 by done.
      destruct full; by destruct (db_sync (durable c) !! feed_name).
    + by exists b, elems.
  - rewrite (HF Hst). split; [apply pull_safe_refl|done].
Qed.

(** A complete pull from [offset] on: every page answers the request for the
    offset where the one before it ended, brings at least one record, and only
    the last one reaches the total it announces; its body is freed before the
    next request. *)
Inductive pulls (base_url : bytes) (limit : Z) : Z -> W -> list (bytes * Z) -> W -> Prop :=
  | pulls_last offset w url body w1 total k :
      build_page_url base_url limit offset = Some url -> fetch url w = (Some (Some body), w1) ->
      parse_envelope json_parse (Some body) = Some (total, k) -> total <= offset + k ->
      pulls base_url limit offset w [(body, k)] (free_body (Some body) w1)
  | pulls_more offset w url body w1 total k pages w' :
      build_page_url base_url limit offset = Some url -> fetch url w = (Some (Some body), w1) ->
      parse_envelope json_parse (Some body) = Some (total, k) -> 0 < k -> offset + k < total ->
      pulls base_url limit (offset + k) (free_body (Some body) w1) pages w' ->
      pulls base_url limit offset w ((body, k) :: pages) w'.

Definition records (pages : list (bytes * Z)) : Z := foldr (fun p n => p.2 + n) 0 pages.

(** The envelope counts the elements the ingest sees. *)
Lemma envelope_document body total k elems :
  parse_envelope json_parse (Some body) = Some (total, k) -> feed_document (R := epss_row) json_parse body = Some elems ->
  k = Z.of_nat (length elems).
Proof.
  unfold parse_envelope, feed_document. destruct (_ <? _); [done|]. cbn [mbind option_bind]. destruct (json_parse body) as [root|]; [|done].
  destruct (is_object root); [|by destruct (json_item _ _) as [[]|]]. cbn [array_key epss_feed].
  destruct (json_item _ "total") as [[]|]; try done. destruct (json_array _) as [data|]; [|done].
  destruct (_ && _); [|done]. by intros [= _ <-] [= <-].
Qed.

Lemma envelope_count body total k : parse_envelope json_parse body = Some (total, k) -> 0 <= k.
Proof.
  unfold parse_envelope. destruct (body ≫= json_parse) as [root|]; [|done].
  destruct (json_item _ "total") as [[]|]; try done. destruct (json_array _) as [data|]; [|done].
  destruct (_ && _); [|done]. intros [= _ <-]. lia.
Qed.

Lemma epss_loop_spec pages page base_url limit offset out w (c : C) :
  in_tx c = false ->
  let '(st, out', w', c') := epss_loop json_parse fetch free_body now today pages page base_url limit offset out w c in
  pull_safe (bs "epss") (durable c) (durable c') /\
  (st <> SYNC_OK -> feed_watermark (bs "epss") (durable c') = feed_watermark (bs "epss") (durable c)) /\
  (st = SYNC_OK -> exists ps, pulls base_url limit offset w ps w' /\ (length ps <= pages)%nat /\
     pages_fetched out' = pages_fetched out + Z.of_nat (length ps) /\
     sync_ingested out' + sync_skipped out' = sync_ingested out + sync_skipped out + records ps /\
     feed_watermark (bs "epss") (durable c') =
       (fun _ => Some (today (page + Z.of_nat (length ps) - 1))) <$> db_sync (durable c) !! bs "epss").
Proof.
  revert page offset out w c; induction pages as [|pages IH]; intros page offset out w c Ht; cbn [epss_loop].
  { split; [apply pull_safe_refl|done]. }
  destruct (build_page_url base_url limit offset) as [url|] eqn:Eu; [|by split; [apply pull_safe_refl|]].
  destruct (fetch url w) as [[body|] w1] eqn:Ef; [|by split; [apply pull_safe_refl|]].
  destruct (parse_envelope json_parse body) as [[total k]|] eqn:Ee; [|by split; [apply pull_safe_refl|]].
  pose proof (envelope_count _ _ _ Ee) as Hk0. set (is_last := total <=? offset + k).
  destruct ((k =? 0) && negb is_last) eqn:Eempty; [by split; [apply pull_safe_refl|]|].
  pose proof (ingest_pull (R := epss_row) (now page) (today page) body is_last c Ht) as HI.
  unfold epss_ingest. destruct (feed_ingest _ _ _ _ _ _) as [[st n] c1]. destruct HI as (Hsafe & HF & HO).
  cbn [feed_name epss_feed] in *. case_bool_decide as Hst; cbn [negb].
  2: { split; [done|]. split; [intros _; by rewrite (HF Hst)|done]. }
  destruct (HO Hst) as (Ht1 & Hwm & b & elems & -> & Hdoc & Hn). rewrite <- (envelope_document _ _ _ _ Ee Hdoc) in Hn.
  destruct is_last eqn:Elast; subst is_last.
  - split; [done|]. split; [done|]. intros _. exists [(b, k)]. cbn [length records foldr snd pages_fetched add_feed_page sync_ingested sync_skipped].
    split_and!; [by eapply pulls_last; try done; lia|lia|lia|lia|]. rewrite Hwm. by replace (page + Z.of_nat 1 - 1) with page by lia.
  - specialize (IH (page + 1) (offset + k) (add_feed_page n out) (free_body (Some b) w1) c1 Ht1).
    destruct (epss_loop _ _ _ _ _ _ _ _ _ _ _ _ _) as [[[st2 out2] w2] c2]. destruct IH as (Hsafe2 & HF2 & HO2).
    split; [by eapply pull_safe_trans|]. split; [intros Hne; by rewrite (HF2 Hne)|]. intros Hst2.
    destruct (HO2 Hst2) as (ps & Hp & Hl & Hpf & Hsum & Hw2). exists ((b, k) :: ps).
    cbn [length records foldr snd pages_fetched add_feed_page sync_ingested sync_skipped] in *. fold (records ps).
    split_and!; [|lia|lia|lia|].
    + eapply pulls_more; try done; rewrite andb_true_r in Eempty; zbool.
    + rewrite Hw2. replace (page + Z.of_nat (S (length ps)) - 1) with (page + 1 + Z.of_nat (length ps) - 1) by lia.
      destruct Hsafe as (_ & _ & _ & Hrow). destruct (db_sync (durable c) !! bs "epss") eqn:E1, (db_sync (durable c1) !! bs "epss") eqn:E2;
        try done; [by destruct (proj1 Hrow (ex_intro _ _ eq_refl))|by destruct (proj2 Hrow (ex_intro _ _ eq_refl))].
Qed.

(** C33: A pull of the EPSS feed.  The watermark moves only when the pull is
    complete: status OK means that the pages fetched answer requests for
    contiguous offsets from 0 up to the total the last one announces, that at
    most 200000 of them were needed, that every record they carry is counted
    once as ingested or as skipped, and then the watermark is the day of the
    last page.  On any other status the watermark is what it was.  Either way
    the feed tables keep their constraints, the CVE rows that were there are
    untouched, and so is the sync state of the other feeds. *)
Theorem epss_sync_complete epss_url page_size w (c : C) :
  in_tx c = false ->
  let '(st, out, w', c') := epss_sync json_parse fetch free_body now today epss_url page_size w c in
  pull_safe (bs "epss") (durable c) (durable c') /\
  (st <> SYNC_OK -> feed_watermark (bs "epss") (durable c') = feed_watermark (bs "epss") (durable c)) /\
  (st = SYNC_OK -> exists pages,
     pulls (default EPSS_DEFAULT_URL (nonempty epss_url)) (if 0 <? page_size then page_size else EPSS_SYNC_DEFAULT_PAGE_SIZE)
       0 w pages w' /\
     Z.of_nat (length pages) <= EPSS_SYNC_MAX_PAGES /\ pages_fetched out = Z.of_nat (length pages) /\
     sync_ingested out + sync_skipped out = records pages /\
     feed_watermark (bs "epss") (durable c') =
       (fun _ => Some (today (Z.of_nat (length pages) - 1))) <$> db_sync (durable c) !! bs "epss").
Proof.
  intros Ht. unfold epss_sync.
  pose proof (epss_loop_spec (Z.to_nat EPSS_SYNC_MAX_PAGES) 0 (default EPSS_DEFAULT_URL (nonempty epss_url))
    (if 0 <? page_size then page_size else EPSS_SYNC_DEFAULT_PAGE_SIZE) 0 sync_counts0 w c Ht) as HL.
  destruct (epss_loop _ _ _ _ _ _ _ _ _ _ _ _ _) as [[[st out] w'] c']. destruct HL as (Hsafe & HF & HO).
  split; [done|]. split; [done|]. intros Hst. destruct (HO Hst) as (ps & Hp & Hl & Hpf & Hsum & Hw).
  exists ps. cbn [sync_counts0 pages_fetched sync_ingested sync_skipped] in *. unfold EPSS_SYNC_MAX_PAGES in *.
  split_and!; [done|lia|lia|lia|done].
Qed.

(** A pull of the KEV catalogue.  On any status but OK nothing was written
    and the counters are 0.  Status OK means that the catalogue was fetched and
    accepted, that every one of its elements is counted once, as ingested or as
    skipped, and that the watermark is the day of the ingest.  Either way the
    feed tables keep their constraints, the CVE rows that were there are
    untouched, and so is the sync state of the other feeds. *)
Theorem kev_sync_complete kev_url w (c : C) :
  in_tx c = false ->
  let '(st, out, w', c') := kev_sync json_parse fetch free_body now today kev_url w c in
  pull_safe (bs "kev") (durable c) (durable c') /\
  (st <> SYNC_OK -> durable c' = durable c /\ out = feed_counts0) /\
  (st = SYNC_OK -> exists body elems w1,
     fetch (default KEV_DEFAULT_URL (nonempty kev_url)) w = (Some (Some body), w1) /\ w' = free_body (Some body) w1 /\
     feed_document (R := kev_row) json_parse body = Some elems /\
     feed_ingested out + feed_skipped out = Z.of_nat (length elems) /\
     feed_watermark (bs "kev") (durable c') = (fun _ => Some (today 0)) <$> db_sync (durable c) !! bs "kev").
Proof.
  intros Ht. unfold kev_sync. destruct (fetch _ w) as [[body|] w1] eqn:Ef; [|by split; [apply pull_safe_refl|]].
  pose proof (ingest_pull (R := kev_row) (now 0) (today 0) body true c Ht) as HI.
  unfold kev_ingest. destruct (feed_ingest _ _ _ _ _ _) as [[st n] c1]. destruct HI as (Hsafe & HF & HO).
  case_bool_decide as Hst; cbn [negb]; (split; [done|]).
  - split; [done|]. intros _. destruct (HO Hst) as (_ & Hw & b & elems & -> & Hdoc & Hn). by exists b, elems, w1.
  - split; [intros _; split; [by apply HF|done]|done].
Qed.
End Effects.

(** ** Examples *)

(** A server that caps its pages at the two records of the example. *)
Definition example_fetch (url : bytes) (w : nat) : answer * nat := (Some (Some (bs "{}")), S w).
Definition example_free (body : option bytes) (w : nat) : nat := w.

Lemma epss_sync_complete_witness :
  exists pages, pulls (W := nat) (example_page 3) example_fetch example_free EPSS_DEFAULT_URL 2000 0 0%nat pages 2%nat /\ records pages = 4.
Proof.
  pose proof (epss_sync_complete (C := toy_conn) (example_page 3) example_fetch example_free (fun _ => example_now) (fun _ => bs "2022-01-01")
    None 0 0%nat (ToyConn (feed_db "epss") None []) eq_refl) as R.
  assert (E : exists c', epss_sync (C := toy_conn) (example_page 3) example_fetch example_free (fun _ => example_now) (fun _ => bs "2022-01-01")
    None 0 0%nat (ToyConn (feed_db "epss") None []) = (SYNC_OK, SyncCounts 2 2 2, 2%nat, c')) by (eexists; vm_compute; reflexivity).
  destruct E as [c' E]. rewrite E in R. destruct (proj2 (proj2 R) eq_refl) as (pages & Hp & _ & _ & Hsum & _).
  exists pages. split; [exact Hp|]. exact (eq_sym Hsum).
Defined.

Lemma kev_sync_complete_witness :
  exists c', kev_sync (C := toy_conn) example_catalogue example_fetch example_free (fun _ => example_now) (fun _ => bs "2022-01-01")
      None 0%nat (ToyConn (feed_db "kev") None []) = (SYNC_OK, FeedCounts 1 2, 1%nat, c') /\
    feed_watermark (bs "kev") (durable c') = Some (Some (bs "2022-01-01")).
Proof.
  pose proof (kev_sync_complete (C := toy_conn) example_catalogue example_fetch example_free (fun _ => example_now) (fun _ => bs "2022-01-01")
    None 0%nat (ToyConn (feed_db "kev") None []) eq_refl) as R.
  assert (E : exists c', kev_sync (C := toy_conn) example_catalogue example_fetch example_free (fun _ => example_now) (fun _ => bs "2022-01-01")
    None 0%nat (ToyConn (feed_db "kev") None []) = (SYNC_OK, FeedCounts 1 2, 1%nat, c')) by (eexists; vm_compute; reflexivity).
  destruct E as [c' E]. exists c'. split; [exact E|]. rewrite E in R.
  destruct (proj2 (proj2 R) eq_refl) as (body & elems & w1 & _ & _ & _ & _ & Hw). rewrite Hw. vm_compute. reflexivity.
Defined.
