(* ===== verification/NvdCatchup.v ===== *)
(** * Catching up with NVD ([src/src/db/nvd_catchup.c])

    The window driver: reads the stored watermark, and drives windows in
    chronological order until the given current time. *)

From S2P Require Import Prelude CveId Json Sqlite NvdIngest NvdSync Calendar.

Definition CATCHUP_WINDOW_DAYS : Z := 120.
Definition CATCHUP_BULK_WINDOW_DAYS : Z := 30.
Definition CATCHUP_MAX_WINDOWS : Z := 1000.
Definition NVD_EPOCH_START : bytes := bs "1999-01-01T00:00:00.000Z".

(** [cytadel_nvd_catchup_status_t] *)
Inductive catchup_status :=
  | CATCHUP_OK | CATCHUP_ERR_INVALID_ARG | CATCHUP_ERR_DB | CATCHUP_ERR_MALFORMED_WATERMARK
  | CATCHUP_ERR_SYNC | CATCHUP_ERR_TOO_MANY_WINDOWS.

#[export] Instance catchup_status_eq_dec : EqDecision catchup_status.
Proof. solve_decision. Defined.

Definition catchup_status_to_string (s : catchup_status) : bytes :=
  match s with
  | CATCHUP_OK => bs "OK"
  | CATCHUP_ERR_INVALID_ARG => bs "INVALID_ARG"
  | CATCHUP_ERR_DB => bs "DB"
  | CATCHUP_ERR_MALFORMED_WATERMARK => bs "MALFORMED_WATERMARK"
  | CATCHUP_ERR_SYNC => bs "SYNC"
  | CATCHUP_ERR_TOO_MANY_WINDOWS => bs "TOO_MANY_WINDOWS"
  end.

(** [cytadel_nvd_catchup_counts_t] *)
Record catchup_counts := CatchupCounts {
  windows_completed : Z;
  total_pages : Z;
  total_ingested : Z;
  total_skipped : Z
}.

Definition catchup_counts0 : catchup_counts := CatchupCounts 0 0 0 0.

Definition add_window (n : sync_counts) (out : catchup_counts) : catchup_counts :=
  CatchupCounts (windows_completed out + 1) (total_pages out + pages_fetched n)
    (total_ingested out + sync_ingested n) (total_skipped out + sync_skipped n).

Section Catchup.
Context {C W : Type} `{Sqlite C}.
Variable json_parse : bytes -> option json.
Variable fetch_page : Z -> option bytes -> option bytes -> W -> answer * W.
Variable free_body : option bytes -> W -> W.

(** [read_watermark]; [None] is [CATCHUP_ERR_DB].  The inner value is the
    text of the column, [None] when it is NULL or empty. *)
Definition read_watermark (c : C) : option (option bytes) * C :=
  let '(ok, c) := sql_prepare c in
  if negb ok then (None, c) else
  let '(ok, c) := sql_read c in
  if negb ok then (None, c) else
  match db_sync (current c) !! bs "nvd" with
  | None => (None, c)
  | Some s =>
      (Some (match sync_watermark s with
             | None => None
             | Some text => nonempty (Some (clip_into (CATCHUP_TS_MAX_LEN + 1) text))
             end), c)
  end.

(** The end of the window that starts at [cursor]. *)
Definition window_end (window_days : Z) (now cursor : instant) : instant :=
  let candidate_end := instant_add_days cursor window_days in
  if instant_compare candidate_end now <? 0 then candidate_end else now.

(** The [while] loop; [None] when [fuel] runs out. *)
Fixpoint catchup_loop (fuel : nat) (results_per_page window_days : Z) (now cursor : instant)
    (out : catchup_counts) (w : W) (c : C) : option (catchup_status * catchup_counts * W * C) :=
  if negb (instant_compare cursor now <? 0) then Some (CATCHUP_OK, out, w, c) else
  match fuel with
  | O => None
  | S fuel =>
      if CATCHUP_MAX_WINDOWS <=? windows_completed out
      then Some (CATCHUP_ERR_TOO_MANY_WINDOWS, out, w, c) else
      match format_instant cursor with
      | None => Some (CATCHUP_ERR_MALFORMED_WATERMARK, out, w, c)
      | Some start_buf =>
          let wend := window_end window_days now cursor in
          match format_instant wend with
          | None => Some (CATCHUP_ERR_MALFORMED_WATERMARK, out, w, c)
          | Some end_buf =>
              let '(st, n, w, c) :=
                sync_window json_parse fetch_page free_body results_per_page (Some start_buf) (Some end_buf) 0
                  sync_counts0 w c in
              if negb (bool_decide (st = SYNC_OK)) then Some (CATCHUP_ERR_SYNC, out, w, c)
              else catchup_loop fuel results_per_page window_days now wend (add_window n out) w c
          end
      end
  end.

(** Enough for every run: one more than the windows the cap admits. *)
Definition catchup_fuel : nat := S (Z.to_nat CATCHUP_MAX_WINDOWS).

(** The cursor and the window length; [None]: the watermark is malformed. *)
Definition starting_point (watermark : option bytes) : option (instant * Z) :=
  match watermark with
  | Some raw =>
      match parse_instant (Some raw) with
      | Some cursor => Some (cursor, CATCHUP_WINDOW_DAYS)
      | None => None
      end
  | None =>
      match parse_instant (Some NVD_EPOCH_START) with
      | Some cursor => Some (cursor, CATCHUP_BULK_WINDOW_DAYS)
      | None => None
      end
  end.

(** [cytadel_nvd_catchup]; [db], [cfg] and [out] are given. *)
Definition catchup (results_per_page : Z) (now_iso8601 : option bytes) (w : W) (c : C) :
    option (catchup_status * catchup_counts * W * C) :=
  match nonempty now_iso8601 with
  | None => Some (CATCHUP_ERR_INVALID_ARG, catchup_counts0, w, c)
  | Some now_text =>
      match parse_instant (Some now_text) with
      | None => Some (CATCHUP_ERR_INVALID_ARG, catchup_counts0, w, c)
      | Some now_instant =>
          let '(watermark, c) := read_watermark c in
          match watermark with
          | None => Some (CATCHUP_ERR_DB, catchup_counts0, w, c)
          | Some watermark =>
              match starting_point watermark with
              | None => Some (CATCHUP_ERR_MALFORMED_WATERMARK, catchup_counts0, w, c)
              | Some (cursor, window_days) =>
                  catchup_loop catchup_fuel results_per_page window_days now_instant cursor
                    catchup_counts0 w c
              end
          end
      end
  end.
End Catchup.

(** ** The schedule of windows *)

(** The cursor after [k] windows. *)
Fixpoint cursor_after (window_days : Z) (now cursor : instant) (k : nat) : instant :=
  match k with
  | O => cursor
  | S k => cursor_after window_days now (window_end window_days now cursor) k
  end.

Definition DAY_MS : Z := 86400000.

Lemma instant_ok_ms i : instant_ok i -> 0 <= ms_of_day i < 86400000.
Proof. by intros [_ H]. Qed.

Lemma window_end_spec wd now cursor :
  0 < wd -> instant_ok now -> instant_ok cursor -> instant_ms cursor < instant_ms now ->
  instant_ok (window_end wd now cursor) /\
  instant_ms (window_end wd now cursor) = Z.min (instant_ms cursor + wd * DAY_MS) (instant_ms now).
Proof.
  intros Hwd Hn Hc Hlt. unfold window_end.
  pose proof (instant_ok_ms _ Hn) as Hnm. pose proof (instant_ok_ms _ Hc) as Hcm.
  assert (0 <= ms_of_day (instant_add_days cursor wd) < 86400000) as Hcm' by done.
  rewrite instant_compare_lt by done.
  destruct (Z.ltb_spec (instant_ms (instant_add_days cursor wd)) (instant_ms now)) as [H|H].
  - split.
    + apply (instant_ok_between cursor now); [done|done| |done].
      unfold instant_ms in H. simpl in *. lia.
    + rewrite instant_ms_add_days in *. unfold DAY_MS. lia.
  - split; [done|]. rewrite instant_ms_add_days in *. unfold DAY_MS. lia.
Qed.

(** The closed form of the schedule. *)
Lemma cursor_after_spec wd now cursor k :
  0 < wd -> instant_ok now -> instant_ok cursor -> instant_ms cursor < instant_ms now ->
  instant_ok (cursor_after wd now cursor k) /\
  instant_ms (cursor_after wd now cursor k) =
    Z.min (instant_ms cursor + Z.of_nat k * (wd * DAY_MS)) (instant_ms now).
Proof.
  intros Hwd Hn. revert cursor; induction k as [|k IH]; intros cursor Hc Hlt; [split; [done|simpl; lia]|].
  cbn [cursor_after]. destruct (window_end_spec wd now cursor Hwd Hn Hc Hlt) as [Hok Hms].
  assert (0 < DAY_MS) by done.
  destruct (Z.lt_ge_cases (instant_ms (window_end wd now cursor)) (instant_ms now)) as [H1|H1].
  - destruct (IH _ Hok H1) as [Hok' ->]. split; [done|]. rewrite Hms. nia.
  - assert (forall j, cursor_after wd now (window_end wd now cursor) j = window_end wd now cursor \/
      cursor_after wd now (window_end wd now cursor) j = now) as Hend.
    { assert (Hs : forall c, instant_ok c -> instant_ms now <= instant_ms c -> window_end wd now c = now).
      { intros c Hc' Hge. unfold window_end. rewrite instant_compare_lt by
          (apply instant_ok_ms in Hc', Hn; done).
        rewrite instant_ms_add_days, (proj2 (Z.ltb_ge _ _)) by lia. done. }
      assert (forall j, cursor_after wd now now j = now) as Hfix.
      { induction j as [|j IHj]; [done|]. cbn [cursor_after]. rewrite (Hs now Hn) by lia. done. }
      intros [|j]; [by left|]. cbn [cursor_after]. rewrite (Hs _ Hok H1). right. apply Hfix. }
    destruct (Hend k) as [-> | ->]; (split; [done|]); nia.
Qed.

#[local] Arguments bs : simpl never.
#[local] Arguments sync_window : simpl never.
#[local] Arguments format_instant : simpl never.
#[local] Arguments window_end : simpl never.

Section CatchupEffect.
Context {C W : Type} `{SqliteLaws C}.
Variable json_parse : bytes -> option json.
Variable fetch_page : Z -> option bytes -> option bytes -> W -> answer * W.
Variable free_body : option bytes -> W -> W.

Lemma catchup_loop_returns fuel rpp wd now cursor out w (c : C) :
  windows_completed out + Z.of_nat fuel = CATCHUP_MAX_WINDOWS + 1 -> windows_completed out <= CATCHUP_MAX_WINDOWS ->
  is_Some (catchup_loop json_parse fetch_page free_body fuel rpp wd now cursor out w c).
Proof.
  revert cursor out w c; induction fuel as [|fuel IH]; intros cursor out w c Hf Hle; simpl.
  - destruct (instant_compare _ _ <? 0); [lia|by eexists].
  - destruct (instant_compare _ _ <? 0); [|by eexists].
    destruct (Z.leb_spec CATCHUP_MAX_WINDOWS (windows_completed out)); [by eexists|].
    destruct (format_instant cursor); [|by eexists].
    destruct (format_instant (window_end wd now cursor)); [|by eexists].
    destruct (sync_window _ _ _ _ _ _ _ _ _ _) as [[[st n] w1] c1].
    case_bool_decide; cbn [negb]; [|by eexists]. apply IH; simpl; lia.
Qed.

(** A catch-up returns for every database, clock and peer: the cap on
    the number of windows is reached before the fuel of the model runs out,
    and at most [CATCHUP_MAX_WINDOWS] windows are driven. *)
Theorem catchup_terminates rpp now w (c : C) :
  exists st out w' c', catchup json_parse fetch_page free_body rpp now w c = Some (st, out, w', c').
Proof.
  unfold catchup. destruct (nonempty now) as [t|]; [|by eexists _, _, _, _].
  destruct (parse_instant (Some t)) as [n|]; [|by eexists _, _, _, _].
  destruct (read_watermark c) as [[wm|] c1]; [|by eexists _, _, _, _].
  destruct (starting_point wm) as [[cur wd]|]; [|by eexists _, _, _, _].
  destruct (catchup_loop_returns catchup_fuel rpp wd n cur catchup_counts0 w c1 eq_refl ltac:(done))
    as [[[[st out] w'] c'] E]. by exists st, out, w', c'.
Qed.

Lemma read_watermark_effect (c c' : C) r :
  in_tx c = false -> read_watermark c = (r, c') ->
  durable c' = durable c /\
  (forall wm, r = Some wm -> in_tx c' = false /\
     is_Some (db_sync (durable c) !! bs "nvd") /\
     wm = nonempty (clip_into (CATCHUP_TS_MAX_LEN + 1) <$> nvd_watermark (durable c))).
Proof.
  intros Ht. pose proof (autocommit_current c Ht) as Hcd. unfold read_watermark.
  do 2 (sql_step; [|intros [= <- <-]; split; [congruence|done]]).
  match goal with |- context [current ?x] => replace (current x) with (durable c) by congruence end.
  unfold nvd_watermark.
  destruct (db_sync (durable c) !! bs "nvd") as [s|]; intros [= <- <-]; (split; [congruence|]); [|done].
  intros wm [= <-]. split; [congruence|]. split; [by eexists|]. simpl. by destruct (sync_watermark s).
Qed.

(** What the loop leaves behind after [k] more windows. *)
Definition loop_effect (st : catchup_status) (k : nat) (wd : Z) (now cursor : instant)
    (out out' : catchup_counts) (c c' : C) : Prop :=
  nvd_ok (durable c') /\ windows_completed out' = windows_completed out + Z.of_nat k /\
  (k = O -> nvd_watermark (durable c') = nvd_watermark (durable c)) /\
  ((0 < k)%nat -> exists s, nvd_watermark (durable c') = Some s /\
     parse_instant (Some s) = Some (cursor_after wd now cursor k)) /\
  (st = CATCHUP_OK -> instant_ms now <= instant_ms (cursor_after wd now cursor k)) /\
  (st = CATCHUP_ERR_TOO_MANY_WINDOWS -> CATCHUP_MAX_WINDOWS <= windows_completed out') /\
  (st = CATCHUP_OK \/ st = CATCHUP_ERR_SYNC \/ st = CATCHUP_ERR_TOO_MANY_WINDOWS).

Lemma loop_effect_stop st wd now cursor out (c c' : C) :
  nvd_ok (durable c') -> nvd_watermark (durable c') = nvd_watermark (durable c) ->
  (st = CATCHUP_OK -> instant_ms now <= instant_ms cursor) ->
  (st = CATCHUP_ERR_TOO_MANY_WINDOWS -> CATCHUP_MAX_WINDOWS <= windows_completed out) ->
  (st = CATCHUP_OK \/ st = CATCHUP_ERR_SYNC \/ st = CATCHUP_ERR_TOO_MANY_WINDOWS) ->
  exists k, loop_effect st k wd now cursor out out c c'.
Proof. intros Hok Hw H1 H2 H3. exists O. unfold loop_effect. simpl. split_and!; try done; lia. Qed.

Lemma catchup_loop_effect fuel rpp wd now cursor out w (c : C) st out' w' c' :
  0 < wd -> instant_ok now -> instant_ok cursor -> in_tx c = false -> nvd_ok (durable c) ->
  is_Some (db_sync (durable c) !! bs "nvd") ->
  catchup_loop json_parse fetch_page free_body fuel rpp wd now cursor out w c = Some (st, out', w', c') ->
  exists k, loop_effect st k wd now cursor out out' c c'.
Proof.
  intros Hwd Hnow. revert cursor out w c; induction fuel as [|fuel IH]; intros cursor out w c Hcur Ht Hok Hrow;
    simpl; rewrite instant_compare_lt by (by apply instant_ok_ms).
  { destruct (Z.ltb_spec (instant_ms cursor) (instant_ms now)); [done|].
    intros [= <- <- <- <-]. apply loop_effect_stop; auto; done. }
  destruct (Z.ltb_spec (instant_ms cursor) (instant_ms now)) as [Hlt|Hge]; cbn [negb].
  2: { intros [= <- <- <- <-]. apply loop_effect_stop; auto; done. }
  destruct (Z.leb_spec CATCHUP_MAX_WINDOWS (windows_completed out)).
  { intros [= <- <- <- <-]. apply loop_effect_stop; auto; done. }
  destruct (window_end_spec wd now cursor Hwd Hnow Hcur Hlt) as [Hwok Hwms].
  destruct (proj1 (format_instant_ok cursor) Hcur) as [sb Hsb]. rewrite Hsb.
  destruct (proj1 (format_instant_ok _) Hwok) as [eb Heb]. rewrite Heb.
  pose proof (sync_window_effect json_parse fetch_page free_body rpp (Some sb) (Some eb) 0 sync_counts0 w c Ht) as HS.
  destruct (sync_window _ _ _ _ _ _ _ _ _ _) as [[[st1 n] w1] c1].
  destruct HS as (_ & HE1 & HE2 & HE3 & HE4). case_bool_decide as Hst; cbn [negb].
  2: { intros [= <- <- <- <-]. apply loop_effect_stop; auto; done. }
  destruct (HE4 Hst) as [Ht1 Hw1]. intros E.
  destruct (IH _ _ _ _ Hwok Ht1 (HE1 Hok) (HE2 Hrow) E) as (k & Hok' & Hk & Hnone & Hpos & HOK & Hmany & Hsts).
  exists (S k). unfold loop_effect. simpl in Hk. split_and!; try done; [lia|].
  intros _. destruct k as [|k]; [|apply Hpos; lia]. exists eb. split.
  - rewrite Hnone by done. rewrite Hw1. simpl. by destruct Hrow as [r ->].
  - by apply parse_format.
Qed.

Lemma starting_point_ok wm cursor wd : starting_point wm = Some (cursor, wd) -> instant_ok cursor /\ 0 < wd.
Proof.
  unfold starting_point. generalize NVD_EPOCH_START as epoch. intros epoch.
  destruct wm as [raw|];
    [destruct (parse_instant (Some raw)) eqn:E|destruct (parse_instant (Some epoch)) eqn:E];
    intros HH; try discriminate HH; injection HH as <- <-;
    (split; [by eapply parse_instant_ok|reflexivity]).
Qed.

(** The cursor and window length a run on this database starts with. *)
Definition stored_start (d : database) : option (instant * Z) :=
  starting_point (nonempty (clip_into (CATCHUP_TS_MAX_LEN + 1) <$> nvd_watermark d)).

Lemma catchup_effect rpp now_text now cursor wd w (c : C) st out w' c' :
  in_tx c = false -> nvd_ok (durable c) ->
  parse_instant (Some now_text) = Some now -> stored_start (durable c) = Some (cursor, wd) ->
  catchup json_parse fetch_page free_body rpp (Some now_text) w c = Some (st, out, w', c') ->
  nvd_ok (durable c') /\ 0 <= windows_completed out /\
  (windows_completed out = 0 -> nvd_watermark (durable c') = nvd_watermark (durable c)) /\
  (0 < windows_completed out -> exists s i,
     nvd_watermark (durable c') = Some s /\ parse_instant (Some s) = Some i /\
     instant_ms i = Z.min (instant_ms cursor + windows_completed out * (wd * DAY_MS)) (instant_ms now) /\
     (st = CATCHUP_OK -> instant_ms i = instant_ms now)) /\
  (st = CATCHUP_OK -> windows_completed out = 0 -> instant_ms now <= instant_ms cursor) /\
  (st = CATCHUP_ERR_TOO_MANY_WINDOWS -> CATCHUP_MAX_WINDOWS <= windows_completed out) /\
  (st = CATCHUP_OK \/ st = CATCHUP_ERR_DB \/ st = CATCHUP_ERR_SYNC \/ st = CATCHUP_ERR_TOO_MANY_WINDOWS).
Proof.
  intros Ht Hok Hnow Hstart. unfold catchup.
  assert (nonempty (Some now_text) = Some now_text) as -> by (by destruct now_text).
  rewrite Hnow. destruct (read_watermark c) as [r c1] eqn:Er.
  apply (read_watermark_effect c c1 r Ht) in Er as [Hd1 Hr]. destruct r as [wm|].
  2: { intros [= <- <- <- <-]. rewrite Hd1. simpl. split_and!; try done; auto. }
  destruct (Hr wm eq_refl) as (Ht1 & Hrow & ->). unfold stored_start in Hstart. rewrite Hstart.
  destruct (starting_point_ok _ _ _ Hstart) as [Hcur Hwd]. pose proof (parse_instant_ok _ _ Hnow) as Hnowok.
  intros E. rewrite <- Hd1 in Hok, Hrow.
  destruct (catchup_loop_effect _ _ _ _ _ _ _ _ _ _ _ _ Hwd Hnowok Hcur Ht1 Hok Hrow E)
    as (k & Hok' & Hk & Hnone & Hpos & HOK & Hmany & Hsts).
  rewrite <- Hd1. simpl in Hk.
  assert (Hdone : (0 < k)%nat -> instant_ms cursor < instant_ms now).
  { intros Hk0. unfold catchup_fuel in E. cbn [catchup_loop] in E.
    rewrite instant_compare_lt in E by (by apply instant_ok_ms).
    destruct (Z.ltb_spec (instant_ms cursor) (instant_ms now)); [done|]. cbn [negb] in E.
    injection E as _ <- _ _. simpl in Hk. lia. }
  split_and!; [done|lia|intros; apply Hnone; lia| | |done|tauto].
  - intros Hlt. destruct (Hpos ltac:(lia)) as (s & Hs & Hp).
    exists s, (cursor_after wd now cursor k). split_and!; [done|done| |].
    + destruct (cursor_after_spec wd now cursor k Hwd Hnowok Hcur (Hdone ltac:(lia))) as [_ ->]. by rewrite Hk.
    + intros Hst. specialize (HOK Hst).
      destruct (cursor_after_spec wd now cursor k Hwd Hnowok Hcur (Hdone ltac:(lia))) as [_ Hc]. lia.
  - intros Hst Hz. specialize (HOK Hst). replace k with O in HOK by lia. done.
Qed.

(** C34: Where a catch-up leaves the feed.  Without a completed window the
    stored watermark is untouched.  After [k] completed windows it is the
    canonical text of the instant [k] windows after the start, or of the
    current time if that comes first, so it never moves backwards and a next
    run starts exactly there.  Success means the current time was reached (or
    was already), the cap is only reported after [CATCHUP_MAX_WINDOWS]
    windows, and the tables stay well formed in every case. *)
Theorem catchup_advances rpp now_text now cursor wd w (c : C) st out w' c' :
  in_tx c = false -> nvd_ok (durable c) ->
  parse_instant (Some now_text) = Some now -> stored_start (durable c) = Some (cursor, wd) ->
  catchup json_parse fetch_page free_body rpp (Some now_text) w c = Some (st, out, w', c') ->
  nvd_ok (durable c') /\ 0 <= windows_completed out /\
  (windows_completed out = 0 -> nvd_watermark (durable c') = nvd_watermark (durable c)) /\
  (0 < windows_completed out -> exists s i,
     nvd_watermark (durable c') = Some s /\ parse_instant (Some s) = Some i /\
     instant_ms i = Z.min (instant_ms cursor + windows_completed out * (wd * DAY_MS)) (instant_ms now) /\
     (st = CATCHUP_OK -> instant_ms i = instant_ms now)) /\
  (st = CATCHUP_OK -> windows_completed out = 0 -> instant_ms now <= instant_ms cursor) /\
  (st = CATCHUP_ERR_TOO_MANY_WINDOWS -> CATCHUP_MAX_WINDOWS <= windows_completed out) /\
  (st = CATCHUP_OK \/ st = CATCHUP_ERR_DB \/ st = CATCHUP_ERR_SYNC \/ st = CATCHUP_ERR_TOO_MANY_WINDOWS).
Proof. apply catchup_effect. Qed.

(** ** Progress *)

(** A set of connections on which windows complete. *)
Definition windows_succeed (rpp : Z) (good : C -> Prop) : Prop :=
  forall sd ed w c, good c -> ed <> [] ->
  let '(st, _, _, c') :=
    sync_window json_parse fetch_page free_body rpp (Some sd) (Some ed) 0 sync_counts0 w c in
  st = SYNC_OK /\ good c'.

Lemma format_instant_nonempty i s : format_instant i = Some s -> s <> [].
Proof. intros Hf%parse_format ->. discriminate Hf. Qed.

Lemma catchup_loop_succeeds good fuel rpp wd now cursor out w (c : C) :
  windows_succeed rpp good -> 0 < wd -> instant_ok now -> instant_ok cursor -> good c ->
  windows_completed out + Z.of_nat fuel = CATCHUP_MAX_WINDOWS + 1 ->
  windows_completed out <= CATCHUP_MAX_WINDOWS ->
  instant_ms now <= instant_ms cursor + (CATCHUP_MAX_WINDOWS - windows_completed out) * (wd * DAY_MS) ->
  exists out' w' c', catchup_loop json_parse fetch_page free_body fuel rpp wd now cursor out w c =
    Some (CATCHUP_OK, out', w', c').
Proof.
  intros Hgood Hwd Hnow. revert cursor out w c; induction fuel as [|fuel IH];
    intros cursor out w c Hcur Hc Hf Hle Hreach; simpl; rewrite instant_compare_lt by (by apply instant_ok_ms);
    (destruct (Z.ltb_spec (instant_ms cursor) (instant_ms now)) as [Hlt|Hge]; cbn [negb];
     [|by eexists _, _, _]); [lia|].
  assert (0 < DAY_MS) by done.
  destruct (Z.leb_spec CATCHUP_MAX_WINDOWS (windows_completed out)).
  { replace (CATCHUP_MAX_WINDOWS - windows_completed out) with 0 in Hreach by lia. lia. }
  destruct (window_end_spec wd now cursor Hwd Hnow Hcur Hlt) as [Hwok Hwms].
  destruct (proj1 (format_instant_ok cursor) Hcur) as [sb Hsb]. rewrite Hsb.
  destruct (proj1 (format_instant_ok _) Hwok) as [eb Heb]. rewrite Heb.
  pose proof (Hgood sb eb w c Hc (format_instant_nonempty _ _ Heb)) as HS.
  destruct (sync_window _ _ _ _ _ _ _ _ _ _) as [[[st1 n] w1] c1]. destruct HS as [-> Hc1].
  rewrite bool_decide_eq_true_2 by done. cbn [negb].
  apply IH; [done|done|simpl; lia|simpl; lia|]. simpl. rewrite Hwms.
  set (m := wd * DAY_MS) in *. assert (0 < m) by (subst m; nia).
  replace ((CATCHUP_MAX_WINDOWS - (windows_completed out + 1)) * m)
    with ((CATCHUP_MAX_WINDOWS - windows_completed out) * m - m) by lia.
  assert (m <= (CATCHUP_MAX_WINDOWS - windows_completed out) * m) by nia. lia.
Qed.

(** Progress.  When the watermark can be read, every window completes and
    the current time is within [CATCHUP_MAX_WINDOWS] windows of the start, the
    catch-up succeeds, and a feed that was behind is then exactly at the
    current time. *)
Theorem catchup_succeeds good rpp now_text now cursor wd w (c : C) :
  in_tx c = false -> nvd_ok (durable c) ->
  windows_succeed rpp good -> (exists wm, (read_watermark c).1 = Some wm) -> good (read_watermark c).2 ->
  parse_instant (Some now_text) = Some now -> stored_start (durable c) = Some (cursor, wd) ->
  instant_ms now <= instant_ms cursor + CATCHUP_MAX_WINDOWS * (wd * DAY_MS) ->
  exists out w' c', catchup json_parse fetch_page free_body rpp (Some now_text) w c = Some (CATCHUP_OK, out, w', c') /\
    (instant_ms cursor < instant_ms now -> exists s i,
       nvd_watermark (durable c') = Some s /\ parse_instant (Some s) = Some i /\ instant_ms i = instant_ms now).
Proof.
  intros Ht Hok Hgood [wm Hwm] Hc Hnow Hstart Hreach.
  assert (exists out w' c', catchup json_parse fetch_page free_body rpp (Some now_text) w c =
    Some (CATCHUP_OK, out, w', c')) as (out & w' & c' & E).
  { unfold catchup. assert (nonempty (Some now_text) = Some now_text) as -> by (by destruct now_text).
    rewrite Hnow. destruct (read_watermark c) as [r c1] eqn:Er. cbn [fst snd] in Hwm, Hc. subst r.
    apply (read_watermark_effect c c1 _ Ht) in Er as [Hd1 Hr]. destruct (Hr wm eq_refl) as (_ & _ & ->).
    unfold stored_start in Hstart. rewrite Hstart.
    destruct (starting_point_ok _ _ _ Hstart) as [Hcur Hwd].
    apply (catchup_loop_succeeds good); try done. by eapply parse_instant_ok. }
  exists out, w', c'. split; [done|]. intros Hlt.
  destruct (catchup_effect _ _ _ _ _ _ _ _ _ _ _ Ht Hok Hnow Hstart E) as (_ & Hk & _ & Hpos & HOK & _).
  destruct (Z.eq_dec (windows_completed out) 0) as [Hz|Hz]; [specialize (HOK eq_refl Hz); lia|].
  destruct (Hpos ltac:(lia)) as (s & i & Hs & Hp & _ & Hi). exists s, i. split_and!; [done|done|by apply Hi].
Qed.
End CatchupEffect.

(** ** Examples *)

(** The connections of the examples: no fault to come, no open transaction. *)
Definition quiet (c : toy_conn) : Prop := toy_pending c = None /\ toy_faults c = [].

(** The document of the examples answers every request. *)
Definition always_parse (body : bytes) : option json :=
  Some (JObject [member "totalResults" (JNumber (Dyadic 0 0)); member "vulnerabilities" (JArray [])]).

Lemma quiet_ingest e complete (c : toy_conn) :
  quiet c -> e <> [] ->
  let '(st, n, c') := ingest_page always_parse (Some (bs "page")) (Some e) complete c in
  st = INGEST_OK /\ quiet c'.
Proof.
  intros [Hp Hf] He. destruct c as [d p fs]. simpl in Hp, Hf. subst.
  destruct e as [|x e]; [done|]. destruct complete; vm_compute; auto.
Qed.

Lemma quiet_windows rpp : windows_succeed always_parse example_fetch example_free rpp quiet.
Proof.
  intros sd ed w c Hc He. unfold sync_window. destruct ed as [|x ed]; [done|]. cbn [nonempty].
  change (Z.to_nat (if 0 <? 0 then 0 else NVD_SYNC_MAX_PAGES)) with (S (Z.to_nat (NVD_SYNC_MAX_PAGES - 1))).
  cbn [window_loop]. change (INT_MAX <? 0) with false. unfold example_fetch at 1.
  change (parse_total_results always_parse (Some (bs "page"))) with 0. cbn [Z.ltb Z.compare Z.eqb orb].
  pose proof (quiet_ingest (x :: ed) true c Hc ltac:(done)) as HI.
  destruct (ingest_page _ _ _ _ c) as [[st n] c1]. destruct HI as [-> Hq]. by split.
Qed.

Lemma nvd_conn_idle faults : in_tx (nvd_conn faults) = false.
Proof. reflexivity. Qed.

Lemma catchup_terminates_witness :
  exists st out w' c',
    catchup always_parse example_fetch example_free 2000 (Some (bs "1999-03-01")) tt (nvd_conn []) = Some (st, out, w', c').
Proof. apply catchup_terminates. Defined.

Lemma catchup_advances_witness :
  exists st out w' c',
    catchup always_parse example_fetch example_free 2000 (Some (bs "1999-03-01")) tt (nvd_conn []) = Some (st, out, w', c') /\
    windows_completed out = 2 /\
    exists s i, nvd_watermark (durable c') = Some s /\ parse_instant (Some s) = Some i.
Proof.
  destruct (catchup always_parse example_fetch example_free 2000 (Some (bs "1999-03-01")) tt (nvd_conn []))
    as [[[[st out] w'] c']|] eqn:E.
  - exists st, out, w', c'. split; [reflexivity|].
    destruct (catchup_advances (C:=toy_conn) (W:=unit) always_parse example_fetch example_free 2000 (bs "1999-03-01") (Instant 10651 0)
      (Instant 10592 0) 30 tt (nvd_conn []) st out w' c' (nvd_conn_idle []) nvd_database_ok
      ltac:(vm_compute; reflexivity) ltac:(vm_compute; reflexivity) E) as (_ & _ & _ & Hpos & _).
    vm_compute in E. injection E as <- <- <- <-. split; [reflexivity|].
    destruct (Hpos ltac:(vm_compute; reflexivity)) as (s & i & Hs & Hi & _). exists s, i. split; [exact Hs|exact Hi].
  - exfalso. vm_compute in E. discriminate E.
Defined.

Lemma catchup_succeeds_witness :
  exists out w' c',
    catchup always_parse example_fetch example_free 2000 (Some (bs "1999-03-01")) tt (nvd_conn []) =
    Some (CATCHUP_OK, out, w', c').
Proof.
  destruct (catchup_succeeds (C:=toy_conn) (W:=unit) always_parse example_fetch example_free quiet 2000 (bs "1999-03-01") (Instant 10651 0)
    (Instant 10592 0) 30 tt (nvd_conn []) (nvd_conn_idle []) nvd_database_ok (quiet_windows 2000))
    as (out & w' & c' & E & _).
  - vm_compute. by eexists.
  - vm_compute. by split.
  - vm_compute. reflexivity.
  - vm_compute. reflexivity.
  - vm_compute. discriminate.
  - exists out, w', c'. exact E.
Defined.
