(* ===== verification/WorkerPool.v ===== *)
(** * The worker pool ([src/src/core/worker_pool.c])

    The threads of a scan as a step relation: the main thread in its creation
    and its join loop, every worker between its atomic fetch-and-add and the
    end of a host scan, in every interleaving.  A target, the result of a scan
    and [cytadel_host_scan] itself are parameters: a scan writes its slot any
    number of times before it returns, and [scans] relates a target to the
    outcomes a scan of it can have. *)

From S2P Require Import Prelude.

Definition WORKER_POOL_HARD_CAP_WORKERS : Z := 1024.

(** ** State *)

Section Pool.
Context {target result : Type}.
Variable scans : target -> result -> Z -> Prop.

(** [cytadel_worker_result_t] *)
Record slot := Slot { slot_result : result; scan_rc : Z }.

(** A worker is about to fetch an index, scans the target it claimed, or has
    returned. *)
Inductive worker := Fetching | Scanning (i : nat) | Exited.

(** [cytadel_worker_pool_run]: in the creation loop, in the join loop at
    thread [t], or returned. *)
Inductive main_thread :=
  | Creating
  | Joining (create_failed join_failed : bool) (t : nat)
  | Returned (create_failed join_failed : bool).

(** The shared context and the threads created so far. *)
Record pool := Pool {
  next_index : Z;
  out_results : list slot;
  workers : list worker;
  main : main_thread;
  pool_heap : heap
}.

Definition worker_is_exited (w : worker) : bool := match w with Exited => true | _ => false end.

(** The return value. *)
Definition return_code (create_failed join_failed : bool) : Z :=
  if create_failed || join_failed then -1 else 0.

(** ** Steps *)

(** The step a thread takes, with what the environment decides: whether
    [pthread_create] and [pthread_join] succeed, and what a scan writes. *)
Inductive action :=
  | CreateOk
  | CreateFail
  | FetchAdd (w : nat)
  | SlotWrite (w : nat) (r : result)
  | ScanReturn (w : nat) (r : result) (rc : Z)
  | JoinOk
  | JoinFail.

(** The head of the join loop, and [free(threads)] after it. *)
Definition join_from (create_failed join_failed : bool) (t created : nat) (p : pool) : pool :=
  if Nat.ltb t created
  then Pool (next_index p) (out_results p) (workers p) (Joining create_failed join_failed t) (pool_heap p)
  else Pool (next_index p) (out_results p) (workers p) (Returned create_failed join_failed) (free_block (pool_heap p)).

Definition set_worker (w : nat) (s : worker) (p : pool) : pool :=
  Pool (next_index p) (out_results p) (<[w := s]> (workers p)) (main p) (pool_heap p).

Definition set_slot (i : nat) (s : slot) (p : pool) : pool :=
  Pool (next_index p) (<[i := s]> (out_results p)) (workers p) (main p) (pool_heap p).

(** One step, where it is enabled, for [n] targets and [worker_count]
    threads to create.  [atomic_size_t] wraps around. *)
Definition exec (n worker_count : nat) (a : action) (p : pool) : option pool :=
  match a with
  | CreateOk =>
      match main p with
      | Creating =>
          let p := Pool (next_index p) (out_results p) (workers p ++ [Fetching]) Creating (pool_heap p) in
          Some (if Nat.ltb (length (workers p)) worker_count then p else join_from false false 0 (length (workers p)) p)
      | _ => None
      end
  | CreateFail =>
      match main p with
      | Creating => Some (join_from true false 0 (length (workers p)) p)
      | _ => None
      end
  | FetchAdd w =>
      match workers p !! w with
      | Some Fetching =>
          let i := next_index p in
          let p := Pool ((i + 1) mod 2 ^ 64) (out_results p) (workers p) (main p) (pool_heap p) in
          Some (set_worker w (if Z.of_nat n <=? i then Exited else Scanning (Z.to_nat i)) p)
      | _ => None
      end
  | SlotWrite w r =>
      match workers p !! w with
      | Some (Scanning i) =>
          match out_results p !! i with
          | Some s => Some (set_slot i (Slot r (scan_rc s)) p)
          | None => None
          end
      | _ => None
      end
  | ScanReturn w r rc =>
      match workers p !! w with
      | Some (Scanning i) => Some (set_worker w Fetching (set_slot i (Slot r rc) p))
      | _ => None
      end
  | JoinOk =>
      match main p with
      | Joining cf jf t =>
          match workers p !! t with
          | Some Exited => Some (join_from cf jf (S t) (length (workers p)) p)
          | _ => None
          end
      | _ => None
      end
  | JoinFail =>
      match main p with
      | Joining cf jf t => Some (join_from cf true (S t) (length (workers p)) p)
      | _ => None
      end
  end.

(** The clamps on [max_workers]. *)
Definition worker_count (max_workers : Z) (n : nat) : nat :=
  let max_workers := if max_workers <? 1 then 1 else max_workers in
  let max_workers :=
    if WORKER_POOL_HARD_CAP_WORKERS <? max_workers then WORKER_POOL_HARD_CAP_WORKERS else max_workers in
  if Z.of_nat n <? max_workers then n else Z.to_nat max_workers.

(** [cytadel_worker_pool_run] up to the creation loop: a return value, or the
    pool as the first [pthread_create] finds it.  [args_ok] tells whether the
    three pointers are non-null. *)
Definition pool_start (args_ok : bool) (n : nat) (max_workers : Z) (init : list slot) (h : heap) : Z * heap + pool :=
  if Nat.eqb n 0 then inl (0, h) else
  if negb args_ok then inl (-1, h) else
  let '(ok, h) := malloc h in
  if negb ok then inl (-1, h) else inr (Pool 0 init [] Creating h).

(** What a step claims: the index it hands out, if it does. *)
Definition claim (n : nat) (a : action) (p : pool) : list Z :=
  match a with
  | FetchAdd _ => if Z.of_nat n <=? next_index p then [] else [next_index p]
  | _ => []
  end.

Definition is_slot_write (a : action) : bool := match a with SlotWrite _ _ => true | _ => false end.

Section Runs.
Variable targets : list target.
Variable wc : nat.
Let n := length targets.

(** What a returning scan wrote is an outcome for its target. *)
Definition scan_ok (a : action) (p : pool) : Prop :=
  match a with
  | ScanReturn w r rc =>
      forall i tgt, workers p !! w = Some (Scanning i) -> targets !! i = Some tgt -> scans tgt r rc
  | _ => True
  end.

(** A run: the indices claimed, in the order they were, and the number of
    steps other than a write inside a scan. *)
Inductive run (p0 : pool) : list Z -> nat -> pool -> Prop :=
  | run_start : run p0 [] 0 p0
  | run_step cs k p a p' :
      run p0 cs k p -> exec n wc a p = Some p' -> scan_ok a p ->
      run p0 (cs ++ claim n a p) (k + if is_slot_write a then 0 else 1) p'.

(** ** Invariant *)

Definition finished (p : pool) (i : nat) : Prop :=
  exists tgt r rc, targets !! i = Some tgt /\ out_results p !! i = Some (Slot r rc) /\ scans tgt r rc.

Definition exited (ws : list worker) : nat := length (filter worker_is_exited ws).

Definition main_inv (m : main_thread) (ws : list worker) : Prop :=
  match m with
  | Creating => (length ws < wc)%nat
  | Joining cf jf t =>
      (t < length ws <= wc)%nat /\ cf = Nat.ltb (length ws) wc /\
      (jf = false -> forall w, (w < t)%nat -> ws !! w = Some Exited)
  | Returned cf jf =>
      (length ws <= wc)%nat /\ cf = Nat.ltb (length ws) wc /\
      (jf = false -> forall w, (w < length ws)%nat -> ws !! w = Some Exited)
  end.

Record pool_inv (init : list slot) (h0 : Z) (cs : list Z) (p : pool) : Prop := {
  inv_length : length (out_results p) = n;
  inv_next : 0 <= next_index p /\ next_index p = Z.of_nat (length cs) + Z.of_nat (exited (workers p));
  inv_claims : (length cs <= n)%nat /\ cs = seqZ 0 (Z.of_nat (length cs));
  inv_workers : (0 < length cs)%nat -> workers p <> [];
  inv_exited : (0 < exited (workers p))%nat -> length cs = n;
  inv_scanning : forall w i, workers p !! w = Some (Scanning i) -> (i < length cs)%nat;
  inv_disjoint : forall w w' i,
    workers p !! w = Some (Scanning i) -> workers p !! w' = Some (Scanning i) -> w = w';
  inv_claimed : forall i, (i < length cs)%nat ->
    (exists w, workers p !! w = Some (Scanning i)) \/ finished p i;
  inv_untouched : forall i, (length cs <= i)%nat -> out_results p !! i = init !! i;
  inv_main : main_inv (main p) (workers p);
  inv_heap : live (pool_heap p) = h0 + match main p with Returned _ _ => 0 | _ => 1 end
}.

(** ** Lemmas *)

Lemma exited_insert ws w s0 s :
  ws !! w = Some s0 ->
  (exited (<[w := s]> ws) + Nat.b2n (worker_is_exited s0) = exited ws + Nat.b2n (worker_is_exited s))%nat.
Proof.
  unfold exited. revert w; induction ws as [|x ws IH]; intros [|w] Hw; try done.
  - injection Hw as ->. simpl. rewrite !filter_cons. destruct s, s0; simpl; lia.
  - specialize (IH w Hw). simpl. rewrite !filter_cons. destruct (decide (worker_is_exited x)); simpl; lia.
Qed.

Lemma exited_app ws ws' : exited (ws ++ ws') = (exited ws + exited ws')%nat.
Proof. unfold exited. by rewrite filter_app, length_app. Qed.

Lemma exited_le ws : (exited ws <= length ws)%nat.
Proof. apply length_filter. Qed.

Lemma exited_pos ws w : ws !! w = Some Exited -> (0 < exited ws)%nat.
Proof.
  clear n targets. intros Hw. unfold exited. destruct (filter _ ws) as [|x l] eqn:E; [|simpl; lia].
  assert (Exited ∈ filter (fun x => worker_is_exited x) ws) as Hin.
  { apply list_elem_of_filter. split; [done|]. by eapply list_elem_of_lookup_2. }
  rewrite E in Hin. by apply elem_of_nil in Hin.
Qed.

Lemma main_inv_length m ws : main_inv m ws -> (length ws <= wc)%nat.
Proof. clear n targets. destruct m; simpl; lia. Qed.

(** A worker that changes its state, other than an exited one, leaves the main
    thread where it was. *)
Lemma main_inv_insert m ws w s0 s :
  ws !! w = Some s0 -> s0 <> Exited -> main_inv m ws -> main_inv m (<[w := s]> ws).
Proof.
  intros Hw Hs. assert (forall k, ws !! k = Some Exited -> <[w := s]> ws !! k = Some Exited) as Hk.
  { intros k Hk. rewrite list_lookup_insert_ne; [done|]. intros ->. congruence. }
  destruct m; simpl; rewrite length_insert; [done| |]; intros (? & ? & Hj); split_and!; try first [done|lia]; intros Hjf k Hlt;
    apply Hk; by apply Hj.
Qed.

Lemma join_from_inv cf jf t p :
  (length (workers p) <= wc)%nat -> (t <= length (workers p))%nat -> cf = Nat.ltb (length (workers p)) wc ->
  (jf = false -> forall w, (w < t)%nat -> workers p !! w = Some Exited) ->
  main_inv (main (join_from cf jf t (length (workers p)) p)) (workers p).
Proof.
  intros Hc Ht Hcf Hj. unfold join_from. destruct (Nat.ltb_spec t (length (workers p))); simpl.
  - split_and!; auto with lia.
  - split_and!; auto. intros Hjf w Hw. apply Hj; [done|lia].
Qed.

(** The steps of the main thread change neither the context nor the workers
    there are. *)
Lemma inv_main_step init h0 cs p p' :
  pool_inv init h0 cs p ->
  next_index p' = next_index p -> out_results p' = out_results p ->
  (workers p' = workers p \/ workers p' = workers p ++ [Fetching]) ->
  main_inv (main p') (workers p') ->
  live (pool_heap p') = h0 + (match main p' with Returned _ _ => 0 | _ => 1 end) ->
  pool_inv init h0 cs p'.
Proof.
  intros [] Hn Ho Hw Hm Hh. assert (exited (workers p') = exited (workers p)) as He.
  { destruct Hw as [->| ->]; [done|]. rewrite exited_app. unfold exited at 2. simpl. lia. }
  assert (forall w i, workers p' !! w = Some (Scanning i) <-> workers p !! w = Some (Scanning i)) as Hs.
  { intros w i. destruct Hw as [->| ->]; [done|]. rewrite lookup_snoc_Some. split.
    - by intros [[_ ?]|[_ [=]]].
    - intros Hw. left. split; [by eapply lookup_lt_Some|done]. }
  split; rewrite ?Hn, ?Ho, ?He; auto.
  - intros Hc. destruct Hw as [->| ->]; [auto|]. by intros [_ ?]%app_nil.
  - intros w i Hi%Hs. eauto.
  - intros w w' i Hi%Hs Hi'%Hs. eauto.
  - intros i Hi. destruct (inv_claimed0 i Hi) as [[w Hwi]|Hf]; [left; exists w; by apply Hs|right].
    destruct Hf as (tgt & r & rc & ?). exists tgt, r, rc. by rewrite Ho.
Qed.
Lemma insert_not_nil {A} (l : list A) (w : nat) x y : l !! w = Some x -> <[w := y]> l <> [].
Proof. destruct l, w; done. Qed.

Lemma lookup_set_worker p w s w' i :
  workers (set_worker w s p) !! w' = Some (Scanning i) ->
  (w = w' /\ s = Scanning i) \/ (w <> w' /\ workers p !! w' = Some (Scanning i)).
Proof.
  unfold set_worker. simpl. rewrite list_lookup_insert_Some. intros [(-> & <- & _)|[? ?]]; [left|right]; done.
Qed.

Hypothesis wc_pos : (0 < wc)%nat.
Hypothesis no_wrap : Z.of_nat n + Z.of_nat wc < 2 ^ 64.

(** The fetch-and-add that hands out an index. *)
Lemma inv_fetch_claim init h0 cs p w :
  pool_inv init h0 cs p -> workers p !! w = Some Fetching -> next_index p < Z.of_nat n ->
  pool_inv init h0 (cs ++ [next_index p])
    (set_worker w (Scanning (Z.to_nat (next_index p)))
       (Pool ((next_index p + 1) mod 2 ^ 64) (out_results p) (workers p) (main p) (pool_heap p))).
Proof.
  intros [] Hw Hlt. destruct inv_next0 as [H0 Hn], inv_claims0 as [Hle Hcs].
  pose proof (exited_insert _ _ _ (Scanning (Z.to_nat (next_index p))) Hw) as He. simpl in He.
  assert (exited (workers p) = 0%nat) as E0.
  { destruct (decide (exited (workers p) = 0%nat)); [done|]. pose proof (inv_exited0 ltac:(lia)). lia. }
  rewrite E0 in *. split; simpl; rewrite ?length_app; simpl; try done.
  - rewrite Z.mod_small by lia. lia.
  - split; [lia|]. replace (Z.of_nat (length cs + 1)) with (Z.of_nat (length cs) + 1) by lia.
    rewrite seqZ_app by lia. rewrite <- Hcs. simpl. f_equal. rewrite seqZ_cons, seqZ_nil by lia. f_equal. lia.
  - intros _. by eapply insert_not_nil.
  - lia.
  - intros w' i [[_ [= <-]]|[_ Hi]]%lookup_set_worker; [lia|]. specialize (inv_scanning0 _ _ Hi). lia.
  - intros w1 w2 i [[-> E]|[? H1]]%lookup_set_worker [[-> E']|[? H2]]%lookup_set_worker; [done| | |by eapply inv_disjoint0];
      exfalso; simplify_eq/=; [specialize (inv_scanning0 _ _ H2)|specialize (inv_scanning0 _ _ H1)]; lia.
  - intros i Hi. destruct (decide (i = Z.to_nat (next_index p))) as [->|Hne].
    + left. exists w. rewrite list_lookup_insert_eq; [done|]. by eapply lookup_lt_Some.
    + destruct (inv_claimed0 i ltac:(lia)) as [[w' Hw']|?]; [left; exists w'|by right].
      rewrite list_lookup_insert_ne; [done|]. intros ->. congruence.
  - intros i Hi. apply inv_untouched0. lia.
  - by eapply main_inv_insert.
Qed.

(** The fetch-and-add past the end. *)
Lemma inv_fetch_exit init h0 cs p w :
  pool_inv init h0 cs p -> workers p !! w = Some Fetching -> Z.of_nat n <= next_index p ->
  pool_inv init h0 cs
    (set_worker w Exited
       (Pool ((next_index p + 1) mod 2 ^ 64) (out_results p) (workers p) (main p) (pool_heap p))).
Proof.
  intros [] Hw Hge. destruct inv_next0 as [H0 Hn], inv_claims0 as [Hle Hcs].
  pose proof (exited_insert _ _ _ Exited Hw) as He. simpl in He.
  pose proof (main_inv_length _ _ inv_main0) as Hwc. pose proof (exited_le (<[w := Exited]> (workers p))) as Hel.
  rewrite length_insert in Hel.
  split; simpl; try done.
  - rewrite Z.mod_small by lia. lia.
  - intros _. by eapply insert_not_nil.
  - intros _. destruct (decide (exited (workers p) = 0%nat)); [lia|]. apply inv_exited0. lia.
  - intros w' i [[_ ?]|[_ Hi]]%lookup_set_worker; [done|]. by eapply inv_scanning0.
  - intros w1 w2 i [[_ ?]|[? H1]]%lookup_set_worker [[_ ?]|[? H2]]%lookup_set_worker; try done. by eapply inv_disjoint0.
  - intros i Hi. destruct (inv_claimed0 i Hi) as [[w' Hw']|?]; [left; exists w'|by right].
    rewrite list_lookup_insert_ne; [done|]. intros ->. congruence.
  - by eapply main_inv_insert.
Qed.

Lemma finished_set_slot i s p j : i <> j -> finished (set_slot i s p) j <-> finished p j.
Proof. intros Hij. unfold finished, set_slot. simpl. by rewrite list_lookup_insert_ne. Qed.

(** A write to the slot of the target that is being scanned. *)
Lemma inv_slot_write init h0 cs p w i s :
  pool_inv init h0 cs p -> workers p !! w = Some (Scanning i) -> pool_inv init h0 cs (set_slot i s p).
Proof.
  intros [] Hw. split; simpl; try done.
  - by rewrite length_insert.
  - intros j Hj. destruct (decide (i = j)) as [<-|Hij]; [left; by exists w|]. rewrite finished_set_slot by done. auto.
  - intros j Hj. rewrite list_lookup_insert_ne; [by apply inv_untouched0|]. specialize (inv_scanning0 _ _ Hw). lia.
Qed.

Lemma inv_scan_return init h0 cs p w i r rc tgt :
  pool_inv init h0 cs p -> workers p !! w = Some (Scanning i) -> targets !! i = Some tgt -> scans tgt r rc ->
  pool_inv init h0 cs (set_worker w Fetching (set_slot i (Slot r rc) p)).
Proof.
  intros Hinv Hw Ht Hs. pose proof (inv_slot_write _ _ _ _ _ _ (Slot r rc) Hinv Hw) as [].
  pose proof (exited_insert _ _ _ Fetching Hw) as He. simpl in He.
  pose proof (lookup_lt_Some _ _ _ Ht) as Hi. fold n in Hi.
  assert (He' : exited (<[w:=Fetching]> (workers p)) = exited (workers p)) by lia.
  split; simpl in *; rewrite ?He'; try done.
  - intros _. by eapply insert_not_nil.
  - intros w' j [[_ ?]|[_ Hj]]%lookup_set_worker; [done|]. by eapply inv_scanning0.
  - intros w1 w2 j [[_ ?]|[? H1]]%lookup_set_worker [[_ ?]|[? H2]]%lookup_set_worker; try done. by eapply inv_disjoint0.
  - intros j Hj. destruct (inv_claimed0 j Hj) as [[w' Hw']|?]; [|by right].
    destruct (decide (w = w')) as [<-|Hww].
    + right. rewrite Hw in Hw'. injection Hw' as <-. exists tgt, r, rc. simpl. split_and!; [done| |done].
      apply list_lookup_insert_eq. destruct Hinv. lia.
    + left. exists w'. by rewrite list_lookup_insert_ne.
  - by eapply main_inv_insert.
Qed.

Lemma inv_create_ok init h0 cs p p' :
  pool_inv init h0 cs p -> exec n wc CreateOk p = Some p' -> pool_inv init h0 cs p'.
Proof.
  simpl. intros Hinv E. pose proof (inv_main _ _ _ _ Hinv) as Hm. pose proof (inv_heap _ _ _ _ Hinv) as Hh.
  destruct (main p); [|done|done]. simpl in Hm. injection E as <-. rewrite length_app. simpl length.
  destruct (Nat.ltb_spec (length (workers p) + 1) wc); unfold join_from; simpl.
  - apply (inv_main_step _ _ _ _ _ Hinv); try done; [by right|]. simpl. rewrite length_app. simpl. lia.
  - rewrite (proj2 (Nat.ltb_lt 0 _)) by lia. apply (inv_main_step _ _ _ _ _ Hinv); try done; [by right|].
    simpl. rewrite length_app. simpl. split; [lia|]. split; [symmetry; apply Nat.ltb_ge; lia|]. intros _ w Hw. lia.
Qed.

(** The join loop goes on at [t]. *)
Lemma inv_join_from init h0 cs p cf jf t :
  pool_inv init h0 cs p -> (match main p with Returned _ _ => False | _ => True end) ->
  (t <= length (workers p))%nat -> cf = Nat.ltb (length (workers p)) wc ->
  (jf = false -> forall w, (w < t)%nat -> workers p !! w = Some Exited) ->
  pool_inv init h0 cs (join_from cf jf t (length (workers p)) p).
Proof.
  intros Hinv Hnr Ht Hcf Hj.
  pose proof (main_inv_length _ _ (inv_main _ _ _ _ Hinv)) as Hc. pose proof (inv_heap _ _ _ _ Hinv) as Hh.
  pose proof (join_from_inv cf jf t p Hc Ht Hcf Hj) as Hm.
  assert (live (pool_heap p) = h0 + 1) as Hl by (destruct (main p); [lia|lia|done]). clear Hh Hnr.
  revert Hm. unfold join_from. destruct (Nat.ltb t (length (workers p))); simpl; intros Hm;
    apply (inv_main_step _ _ _ _ _ Hinv); simpl; auto; lia.
Qed.

Lemma inv_join init h0 cs p p' a :
  a = JoinOk \/ a = JoinFail ->
  pool_inv init h0 cs p -> exec n wc a p = Some p' -> pool_inv init h0 cs p'.
Proof.
  intros Ha Hinv E. pose proof (inv_main _ _ _ _ Hinv) as Hm.
  destruct (main p) as [|cf jf t|] eqn:Em; [by destruct Ha as [-> | ->]; simpl in E; rewrite Em in E| |by destruct Ha as [-> | ->]; simpl in E; rewrite Em in E].
  destruct Hm as (Ht & Hcf & Hj). assert (Hnr : match main p with Returned _ _ => False | _ => True end) by (by rewrite Em).
  destruct Ha as [-> | ->]; simpl in E; rewrite Em in E.
  - destruct (workers p !! t) as [[]|] eqn:Hw; try done. injection E as <-.
    apply inv_join_from; [done|done|lia|done|]. intros Hjf w Hlt. destruct (decide (w = t)) as [-> |]; [done|].
    apply Hj; [done|lia].
  - injection E as <-. by apply inv_join_from; [| |lia| |].
Qed.

Lemma inv_step init h0 cs p a p' :
  pool_inv init h0 cs p -> exec n wc a p = Some p' -> scan_ok a p -> pool_inv init h0 (cs ++ claim n a p) p'.
Proof.
  intros Hinv E Hok. pose proof (inv_length _ _ _ _ Hinv) as Hlen. fold n in Hlen.
  destruct a as [| |w|w r|w r rc| |]; cbn [claim]; rewrite ?app_nil_r.
  - by eapply inv_create_ok.
  - pose proof (inv_main _ _ _ _ Hinv) as Hm. simpl in E. destruct (main p) eqn:Em; [|done|done]. injection E as <-.
    simpl in Hm. apply inv_join_from; [done|by rewrite Em|lia|symmetry; by apply Nat.ltb_lt|intros _ w Hw; lia].
  - simpl in E. destruct (workers p !! w) as [[]|] eqn:Hw; try done. injection E as <-.
    destruct (Z.leb_spec (Z.of_nat n) (next_index p)).
    + rewrite app_nil_r. by apply inv_fetch_exit.
    + by apply inv_fetch_claim.
  - simpl in E. destruct (workers p !! w) as [[]|] eqn:Hw; try done.
    destruct (out_results p !! i) as [s|]; [|done]. injection E as <-. by eapply inv_slot_write.
  - simpl in E, Hok. destruct (workers p !! w) as [[]|] eqn:Hw; try done. injection E as <-.
    pose proof (inv_scanning _ _ _ _ Hinv _ _ Hw) as Hi. pose proof (inv_claims _ _ _ _ Hinv) as [Hle _].
    destruct (lookup_lt_is_Some_2 targets i) as [tgt Ht]; [fold n; lia|].
    eapply inv_scan_return; try done. by apply Hok with i.
  - by eapply inv_join; [left| |].
  - by eapply inv_join; [right| |].
Qed.

Lemma run_inv init h0 p0 cs k p :
  pool_inv init h0 [] p0 -> run p0 cs k p -> pool_inv init h0 cs p.
Proof. intros H0. induction 1; [done|]. by eapply inv_step. Qed.

Lemma start_inv init h h' mw p0 :
  length init = n -> pool_start true n mw init h = inr p0 -> h' = live h -> pool_inv init h' [] p0.
Proof.
  intros Hi E ->. unfold pool_start in E. destruct (Nat.eqb n 0); [done|]. simpl in E.
  destruct (malloc h) as [ok h1] eqn:Em. destruct ok; [|done]. injection E as <-.
  apply malloc_live in Em. split; simpl; try done; try (intros; lia).
  - split; [lia|done].
  - change (exited []) with 0%nat. lia.
Qed.

(** ** Progress *)

(** The steps left: two for a target not yet claimed, one for a scan under
    way, one for a worker to exit; then those of the main thread. *)
Definition worker_weight (w : worker) : nat := match w with Fetching => 1 | Scanning _ => 2 | Exited => 0 end.

Definition weight (ws : list worker) : nat := foldr (fun w k => worker_weight w + k)%nat 0%nat ws.

Definition main_weight (m : main_thread) (created : nat) : nat :=
  match m with
  | Creating => 2 * (wc - created) + wc
  | Joining _ _ t => created - t
  | Returned _ _ => 0
  end.

Definition steps_left (cs : list Z) (p : pool) : nat :=
  2 * (n - length cs) + weight (workers p) + main_weight (main p) (length (workers p)).

Lemma weight_insert ws w s0 s :
  ws !! w = Some s0 -> (weight (<[w := s]> ws) + worker_weight s0 = weight ws + worker_weight s)%nat.
Proof.
  revert w; induction ws as [|x ws IH]; intros [|w] Hw; try done; simpl.
  - injection Hw as ->. lia.
  - specialize (IH w Hw). lia.
Qed.

Lemma weight_app ws ws' : weight (ws ++ ws') = (weight ws + weight ws')%nat.
Proof. induction ws as [|x ws IH]; simpl; [done|]. lia. Qed.

Lemma join_from_weight cf jf t p :
  workers (join_from cf jf t (length (workers p)) p) = workers p /\
  main_weight (main (join_from cf jf t (length (workers p)) p)) (length (workers p)) = (length (workers p) - t)%nat.
Proof. unfold join_from. destruct (Nat.ltb_spec t (length (workers p))); simpl; split; (done || lia). Qed.

Lemma step_decreases init h0 cs p a p' :
  pool_inv init h0 cs p -> exec n wc a p = Some p' ->
  (steps_left (cs ++ claim n a p) p' + (if is_slot_write a then 0 else 1) <= steps_left cs p)%nat.
Proof.
  intros Hinv E. pose proof (inv_main _ _ _ _ Hinv) as Hm. pose proof (inv_claims _ _ _ _ Hinv) as [Hle _].
  pose proof (inv_next _ _ _ _ Hinv) as [_ Hn].
  destruct a as [| |w|w r|w r rc| |]; cbn [claim is_slot_write]; rewrite ?app_nil_r; simpl in E.
  - destruct (main p) eqn:Em; [|done|done]. simpl in Hm. injection E as <-. rewrite length_app. simpl length.
    destruct (Nat.ltb_spec (length (workers p) + 1) wc); unfold join_from, steps_left; simpl;
      [|rewrite (proj2 (Nat.ltb_lt 0 _)) by lia; simpl]; rewrite Em, length_app, weight_app; simpl; lia.
  - destruct (main p) eqn:Em; [|done|done]. simpl in Hm. injection E as <-. unfold steps_left.
    destruct (join_from_weight true false 0 p) as [-> ->]. rewrite Em. simpl. lia.
  - destruct (workers p !! w) as [[]|] eqn:Hw; try done. injection E as <-. unfold steps_left. simpl.
    rewrite length_insert. destruct (Z.leb_spec (Z.of_nat n) (next_index p)) as [Hge|Hlt].
    + pose proof (weight_insert _ _ _ Exited Hw) as Hi. simpl in Hi. rewrite app_nil_r. lia.
    + pose proof (weight_insert _ _ _ (Scanning (Z.to_nat (next_index p))) Hw) as Hi. simpl in Hi.
      rewrite length_app. simpl length. lia.
  - destruct (workers p !! w) as [[]|] eqn:Hw; try done. destruct (out_results p !! i); [|done].
    injection E as <-. unfold steps_left. simpl. lia.
  - destruct (workers p !! w) as [[]|] eqn:Hw; try done. injection E as <-. unfold steps_left. simpl.
    pose proof (weight_insert _ _ _ Fetching Hw) as Hi. simpl in Hi. rewrite length_insert. lia.
  - destruct (main p) as [|cf jf t|] eqn:Em; [done| |done]. simpl in Hm. destruct (workers p !! t) as [[]|]; try done.
    injection E as <-. unfold steps_left. destruct (join_from_weight cf jf (S t) p) as [-> ->]. rewrite Em. simpl. lia.
  - destruct (main p) as [|cf jf t|] eqn:Em; [done| |done]. simpl in Hm.
    injection E as <-. unfold steps_left. destruct (join_from_weight cf true (S t) p) as [-> ->]. rewrite Em. simpl. lia.
Qed.

Lemma run_steps init h0 p0 cs k p :
  pool_inv init h0 [] p0 -> run p0 cs k p -> (steps_left cs p + k <= steps_left [] p0)%nat.
Proof.
  intros H0 Hr. induction Hr as [|cs k p a p' Hr IH E Hok]; [lia|].
  pose proof (step_decreases _ _ _ _ _ _ (run_inv _ _ _ _ _ _ H0 Hr) E). lia.
Qed.

(** Until the main thread returns, some thread can take a step of its own. *)
Lemma progress init h0 cs p :
  (forall tgt, exists r rc, scans tgt r rc) ->
  pool_inv init h0 cs p -> (forall cf jf, main p <> Returned cf jf) ->
  exists a p', is_slot_write a = false /\ scan_ok a p /\ exec n wc a p = Some p'.
Proof.
  intros Hscan Hinv Hnr. pose proof (inv_main _ _ _ _ Hinv) as Hm. destruct (main p) as [|cf jf t|cf jf] eqn:Em.
  - exists CreateOk. simpl. rewrite Em. by eexists.
  - destruct Hm as (Ht & _). destruct (lookup_lt_is_Some_2 (workers p) t) as [s Hs]; [lia|]. destruct s as [|i|].
    + exists (FetchAdd t). simpl. rewrite Hs. by eexists.
    + pose proof (inv_scanning _ _ _ _ Hinv _ _ Hs) as Hi. pose proof (inv_claims _ _ _ _ Hinv) as [Hle _].
      destruct (lookup_lt_is_Some_2 targets i) as [tgt Htgt]; [fold n; lia|]. destruct (Hscan tgt) as (r & rc & Hout).
      exists (ScanReturn t r rc). simpl. rewrite Hs. eexists. split_and!; [done| |done].
      intros i' tgt' [= <-] Ht'. congruence.
    + exists JoinOk. simpl. rewrite Em, Hs. by eexists.
  - by destruct (Hnr cf jf).
Qed.

End Runs.
End Pool.

(** ** Theorems *)

Lemma worker_count_bounds mw n :
  (0 < n)%nat -> (0 < worker_count mw n <= n)%nat /\ Z.of_nat (worker_count mw n) <= WORKER_POOL_HARD_CAP_WORKERS.
Proof.
  intros Hn. unfold worker_count, WORKER_POOL_HARD_CAP_WORKERS.
  destruct (mw <? 1) eqn:E1; cbv zeta; repeat case_match_eqn; breflect; lia.
Qed.

Lemma pool_start_n {result} n mw (init : list (slot (result := result))) h p0 :
  pool_start true n mw init h = inr p0 -> (0 < n)%nat.
Proof. unfold pool_start. destruct n; [done|lia]. Qed.

Section Theorems.
Context {target result : Type} (scans : target -> result -> Z -> Prop).
Variables (targets : list target) (init : list (slot (result := result))) (max_workers : Z) (h : heap).
Variable p0 : pool (result := result).

Let n := length targets.
Let wc := worker_count max_workers n.

(** The target array is one object, so its length plus the cap is far from
    the width of [size_t]; the caller passes one slot per target. *)
Hypothesis targets_fit : Z.of_nat n + WORKER_POOL_HARD_CAP_WORKERS < 2 ^ 64.
Hypothesis one_slot_each : length init = n.
Hypothesis started : pool_start true n max_workers init h = inr p0.

Lemma started_inv cs k p :
  run scans targets wc p0 cs k p -> (0 < wc)%nat /\ Z.of_nat n + Z.of_nat wc < 2 ^ 64 /\
  pool_inv scans targets wc init (live h) [] p0 /\ pool_inv scans targets wc init (live h) cs p.
Proof.
  intros Hr. pose proof (pool_start_n _ _ _ _ _ started) as Hn.
  destruct (worker_count_bounds max_workers n Hn) as [Hw Hc]. fold wc in Hw, Hc.
  assert (pool_inv scans targets wc init (live h) [] p0) as H0 by (by eapply start_inv; [lia| |exact started|]).
  split_and!; [lia|lia|exact H0|]. eapply (run_inv scans targets wc); [lia|fold n; lia|exact H0|exact Hr].
Qed.

(** C14: Disjoint claims.  In every state every interleaving can reach, the
    indices were handed out in order, each once, and the cursor has not
    wrapped around; no two workers scan the same target, a worker only writes
    a slot of the array, and a slot no worker has claimed is as the caller
    left it. *)
Theorem pool_race_free cs k p :
  run scans targets wc p0 cs k p ->
  cs = seqZ 0 (Z.of_nat (length cs)) /\ (length cs <= n)%nat /\
  Z.of_nat (length cs) <= next_index p <= Z.of_nat (length cs) + Z.of_nat wc /\
  length (out_results p) = n /\
  (forall w i, workers p !! w = Some (Scanning i) -> (i < n)%nat) /\
  (forall w w' i, workers p !! w = Some (Scanning i) -> workers p !! w' = Some (Scanning i) -> w = w') /\
  (forall i, Z.of_nat i ∉ cs -> out_results p !! i = init !! i).
Proof.
  intros Hr. destruct (started_inv _ _ _ Hr) as (_ & _ & _ & []). destruct inv_claims0 as [Hle Hcs].
  pose proof (exited_le (workers p)) as He. pose proof (main_inv_length _ _ _ inv_main0) as Hl.
  split_and!; try done; try lia.
  - intros w i Hi. specialize (inv_scanning0 _ _ Hi). lia.
  - intros i Hi. apply inv_untouched0. destruct (decide (length cs <= i)%nat) as [|Hlt]; [done|].
    destruct Hi. rewrite Hcs. apply elem_of_seqZ. lia.
Qed.

(** C15: The outcome of the pool.  When it has returned and no join failed,
    then unless not one thread could be created, every target was claimed
    exactly once and every slot holds an outcome of a scan of its own target,
    however many later threads failed to start; with no thread at all the
    slots are untouched.  The return value is 0 exactly when every thread was
    created and joined, and the thread array is freed. *)
Theorem pool_outcome cs k p cf jf :
  run scans targets wc p0 cs k p -> main p = Returned cf jf ->
  (return_code cf jf = 0 <-> length (workers p) = wc /\ jf = false) /\
  live (pool_heap p) = live h /\
  (jf = false ->
   (workers p = [] -> out_results p = init) /\
   (workers p <> [] ->
      cs = seqZ 0 (Z.of_nat n) /\
      forall i tgt, targets !! i = Some tgt ->
      exists r rc, out_results p !! i = Some (Slot r rc) /\ scans tgt r rc)).
Proof.
  intros Hr Hm. destruct (started_inv _ _ _ Hr) as (_ & _ & _ & []). rewrite Hm in inv_main0, inv_heap0.
  destruct inv_main0 as (Hl & -> & Hj), inv_claims0 as [Hle Hcs]. split_and!.
  - unfold return_code. destruct (Nat.ltb_spec (length (workers p)) wc), jf; simpl; intuition (try discriminate; lia).
  - lia.
  - intros ->. specialize (Hj eq_refl). split.
    + intros Hnil. apply list_eq. intros i. apply inv_untouched0.
      destruct (decide (0 < length cs)%nat) as [Hpos|]; [by apply inv_workers0 in Hpos|lia].
    + intros Hne. assert (workers p !! 0%nat = Some Exited) as H0.
      { apply Hj. destruct (workers p); [done|simpl; lia]. }
      specialize (inv_exited0 (exited_pos _ _ H0)). rewrite inv_exited0 in Hcs. split; [done|].
      intros i tgt Ht. pose proof (lookup_lt_Some _ _ _ Ht) as Hi. fold n in Hi.
      destruct (inv_claimed0 i ltac:(lia)) as [[w Hw]|(tgt' & r & rc & Ht' & Ho & Hs)].
      * rewrite (Hj w) in Hw; [done|]. by eapply lookup_lt_Some.
      * exists r, rc. split; [done|]. congruence.
Qed.

(** Termination without deadlock.  However the threads interleave, the
    pool takes at most two steps for each target and three for each worker
    (not counting what happens inside a scan), and until
    [cytadel_worker_pool_run] returns some thread can take its next step. *)
Theorem pool_terminates cs k p :
  (forall tgt, exists r rc, scans tgt r rc) ->
  run scans targets wc p0 cs k p ->
  (k <= 2 * n + 3 * wc)%nat /\
  ((exists cf jf, main p = Returned cf jf) \/
   exists a p', is_slot_write a = false /\ scan_ok scans targets a p /\ exec n wc a p = Some p').
Proof.
  intros Hscan Hr. destruct (started_inv _ _ _ Hr) as (Hw & Hfit & H0 & Hp). split.
  - pose proof (run_steps scans targets wc Hw Hfit _ _ _ _ _ _ H0 Hr) as Hk.
    assert (steps_left targets wc [] p0 <= 2 * n + 3 * wc)%nat; [|lia].
    unfold pool_start in started. destruct (Nat.eqb n 0); [done|]. simpl in started.
    destruct (malloc h) as [[] ?]; [|done]. injection started as <-. unfold steps_left. simpl. fold n. lia.
  - destruct (main p) as [|cf jf t|cf jf] eqn:Em; [right|right|left; by exists cf, jf];
      eapply progress; try eassumption; intros ? ?; by rewrite Em.
Qed.
End Theorems.

(** Two targets and two workers of which the second cannot be created: the
    first one scans both. *)
Definition example_scans (tgt r rc : Z) : Prop := tgt < r /\ rc = 0.

Definition example_pool : pool (result := Z) := Pool 0 [Slot 0 0; Slot 0 0] [] Creating (Heap [] 1).

Definition example_end : pool (result := Z) := Pool 3 [Slot 107 0; Slot 108 0] [Exited] (Returned true false) (Heap [] 0).

(** The states a sequence of actions passes through. *)
Fixpoint replay {result} (n wc : nat) (acts : list (action (result := result))) (cs : list Z) (k : nat) (p : pool)
    : option (list Z * nat * pool) :=
  match acts with
  | [] => Some (cs, k, p)
  | a :: acts =>
      match exec n wc a p with
      | Some p' => replay n wc acts (cs ++ claim n a p) (k + if is_slot_write a then 0 else 1)%nat p'
      | None => None
      end
  end.

Lemma replay_run {target result} (scans : target -> result -> Z -> Prop) targets wc p0 acts cs k p cs' k' p' :
  run scans targets wc p0 cs k p -> replay (length targets) wc acts cs k p = Some (cs', k', p') ->
  (forall a p, a ∈ acts -> scan_ok scans targets a p) -> run scans targets wc p0 cs' k' p'.
Proof.
  revert cs k p; induction acts as [|a acts IH]; intros cs k p Hr E Hok; simpl in E; [by injection E as <- <- <-|].
  destruct (exec _ wc a p) as [p1|] eqn:E1; [|done]. eapply IH; [|exact E|intros; apply Hok; by right].
  eapply run_step; [done|done|]. apply Hok. by left.
Qed.

Definition example_actions : list (action (result := Z)) :=
  [CreateOk; FetchAdd 0; CreateFail; SlotWrite 0 3; ScanReturn 0 107 0; FetchAdd 0; ScanReturn 0 108 0; FetchAdd 0; JoinOk].

Lemma example_run : run example_scans [7; 8] 2 example_pool [0; 1] 8 example_end.
Proof.
  eapply (replay_run _ _ _ _ example_actions); [apply run_start|reflexivity|].
  assert (forall i tgt, [7; 8] !! i = Some tgt -> tgt <= 8) as Hb.
  { intros [|[|i]] tgt; simpl; intros [=]; lia. }
  intros a p Ha. unfold example_actions in Ha. repeat (apply elem_of_cons in Ha as [->|Ha]; [simpl; try done|]);
    [intros i tgt _ Ht%Hb; split; [lia|done]..|]. by apply elem_of_nil in Ha.
Qed.

Lemma pool_race_free_witness : out_results example_end !! 5%nat = None.
Proof.
  exact (proj2 (proj2 (proj2 (proj2 (proj2 (proj2 (pool_race_free example_scans [7; 8] [Slot 0 0; Slot 0 0] 2 (Heap [] 0)
    example_pool eq_refl eq_refl eq_refl _ _ _ example_run)))))) 5%nat ltac:(set_solver)).
Defined.

Lemma pool_outcome_witness :
  return_code true false = -1 /\ exists r rc, out_results example_end !! 1%nat = Some (Slot r rc) /\ example_scans 8 r rc.
Proof.
  split; [reflexivity|].
  refine (proj2 (proj2 (proj2 (proj2 (pool_outcome example_scans [7; 8] [Slot 0 0; Slot 0 0] 2 (Heap [] 0)
    example_pool eq_refl eq_refl eq_refl _ _ _ _ _ example_run eq_refl)) eq_refl) _) 1%nat 8 eq_refl). discriminate.
Defined.

Lemma pool_terminates_witness : (8 <= 2 * 2 + 3 * 2)%nat.
Proof.
  refine (proj1 (pool_terminates example_scans [7; 8] [Slot 0 0; Slot 0 0] 2 (Heap [] 0)
    example_pool eq_refl eq_refl eq_refl _ _ _ _ example_run)).
  intros tgt. exists (tgt + 1), 0. split; [lia|reflexivity].
Defined.
