(* ===== verification/Escape.v ===== *)
(** * Output escaping of the reports ([src/src/report/escape.c])

    The growing output buffer and the four escapers that write to it: HTML
    text, HTML attribute values, URLs and JSON strings. *)

From S2P Require Import Prelude Utf8.

#[local] Arguments bs : simpl never.

(** ** The buffer *)

Definition SIZE_MAX : Z := 2 ^ 64 - 1.

(** [cytadel_report_buf_t]: [len] is the length of the bytes; the block is
    NULL when the capacity is 0. *)
Record report_buf := Buf { buf_data : bytes; buf_cap : Z }.

Definition sink : Type := report_buf * heap.

Definition report_buf_init : report_buf := Buf [] 0.

Definition report_buf_free (st : sink) : sink :=
  (report_buf_init, free_if (negb (buf_cap (fst st) =? 0)) (snd st)).

(** The doubling loop: [need <= SIZE_MAX], so 64 rounds are enough. *)
Fixpoint grow_cap (fuel : nat) (new_cap need : Z) : Z :=
  match fuel with
  | O => need
  | S fuel =>
      if new_cap <? need then
        if Z.quot SIZE_MAX 2 <? new_cap then need else grow_cap fuel (new_cap * 2) need
      else new_cap
  end.

Definition buf_reserve (extra : Z) (st : sink) : bool * sink :=
  let '(buf, h) := st in
  let len := Z.of_nat (length (buf_data buf)) in
  if SIZE_MAX - 1 <? len then (false, st) else
  let base := len + 1 in
  if SIZE_MAX - base <? extra then (false, st) else
  let need := base + extra in
  if need <=? buf_cap buf then (true, st) else
  let new_cap := grow_cap 64 (if buf_cap buf =? 0 then 64 else buf_cap buf) need in
  let '(ok, h) := realloc (negb (buf_cap buf =? 0)) h in
  if negb ok then (false, (buf, h)) else (true, (Buf (buf_data buf) new_cap, h)).

Definition buf_append (src : bytes) (st : sink) : bool * sink :=
  let '(ok, (buf, h)) := buf_reserve (Z.of_nat (length src)) st in
  if negb ok then (false, (buf, h)) else (true, (Buf (buf_data buf ++ src) (buf_cap buf), h)).

Definition buf_append_byte (c : byte) (st : sink) : bool * sink := buf_append [c] st.

Definition report_buf_append_lit (lit : bytes) (st : sink) : bool * sink := buf_append lit st.

(** ** Helpers *)

Definition hex_digit_upper (nibble : Z) : byte := if nibble <? 10 then 48 + nibble else 65 + (nibble - 10).
Definition hex_digit_lower (nibble : Z) : byte := if nibble <? 10 then 48 + nibble else 97 + (nibble - 10).

Definition is_alpha_ascii (c : byte) : bool := ((65 <=? c) && (c <=? 90)) || ((97 <=? c) && (c <=? 122)).
Definition is_scheme_char (c : byte) : bool :=
  is_alpha_ascii c || ((48 <=? c) && (c <=? 57)) || (c =? 43) || (c =? 45) || (c =? 46).

(** ** HTML *)

Definition html_escape_one (escape_quotes : bool) (c : byte) (st : sink) : bool * sink :=
  if c =? 38 then buf_append (bs "&amp;") st
  else if c =? 60 then buf_append (bs "&lt;") st
  else if c =? 62 then buf_append (bs "&gt;") st
  else if c =? 34 then if escape_quotes then buf_append (bs "&quot;") st else buf_append_byte c st
  else if c =? 39 then if escape_quotes then buf_append (bs "&#39;") st else buf_append_byte c st
  else buf_append_byte c st.

(** A [for] loop that returns false at the first step that fails. *)
Fixpoint for_each (f : byte -> sink -> bool * sink) (l : bytes) (st : sink) : bool * sink :=
  match l with
  | [] => (true, st)
  | c :: l => let '(ok, st) := f c st in if ok then for_each f l st else (false, st)
  end.

Definition escape_html_body (l : bytes) : sink -> bool * sink := for_each (html_escape_one false) l.
Definition escape_html_attr (l : bytes) : sink -> bool * sink := for_each (html_escape_one true) l.

(** ** URL *)

Definition is_tab_lf_cr (c : byte) : bool := (c =? 9) || (c =? 10) || (c =? 13).

Definition url_has_disallowed_control (l : bytes) : bool :=
  existsb (fun c => negb (is_tab_lf_cr c) && ((c <? 32) || (c =? 127))) l.

Definition url_is_safe_char (c : byte) : bool :=
  is_alpha_ascii c || ((48 <=? c) && (c <=? 57)) ||
  existsb (Z.eqb c) (bs "-_.~:/?#[]@!$()*+,;=%").

Definition url_percent_encode_one (c : byte) (st : sink) : bool * sink :=
  if url_is_safe_char c then buf_append_byte c st
  else buf_append [37; hex_digit_upper (Z.shiftr c 4); hex_digit_upper (Z.land c 15)] st.

Definition url_percent_encode_append (l : bytes) : sink -> bool * sink := for_each url_percent_encode_one l.

Definition to_lower (a : byte) : byte := if (65 <=? a) && (a <=? 90) then a + 32 else a.

Definition scheme_equals_ci (s lowercase_lit : bytes) : bool :=
  Nat.eqb (length s) (length lowercase_lit) && forallb (fun '(a, b) => to_lower a =? b) (zip s lowercase_lit).

Definition trim_right (l : bytes) : bytes := rev (drop_while (Z.eqb 32) (rev l)).

(** What is left of the value: no TAB, LF or CR, no spaces at the ends. *)
Definition url_clean (l : bytes) : bytes :=
  trim_right (drop_while (Z.eqb 32) (List.filter (fun c => negb (is_tab_lf_cr c)) l)).

(** The scheme, where the value has one. *)
Definition url_scheme (clean : bytes) : option bytes :=
  match clean with
  | c :: l =>
      if is_alpha_ascii c then
        match drop_while is_scheme_char l with
        | d :: _ => if d =? 58 then Some (c :: take_while is_scheme_char l) else None
        | [] => None
        end
      else None
  | [] => None
  end.

Definition url_allowed (clean : bytes) : bool :=
  match url_scheme clean with
  | Some s => scheme_equals_ci s (bs "http") || scheme_equals_ci s (bs "https")
  | None =>
      match clean with
      | c :: d :: _ => negb ((c =? 47) && ((d =? 47) || (d =? 92)))
      | _ => true
      end
  end.

Definition escape_url (l : bytes) (st : sink) : bool * sink :=
  if Nat.eqb (length l) 0 then (true, st) else
  if url_has_disallowed_control l then report_buf_append_lit (bs "#") st else
  let '(got, h) := malloc (snd st) in
  if negb got then (false, (fst st, h)) else
  let clean := url_clean l in
  let '(ok, (buf, h)) :=
    if negb (url_allowed clean) then report_buf_append_lit (bs "#") (fst st, h)
    else url_percent_encode_append clean (fst st, h) in
  (ok, (buf, free_block h)).

(** ** JSON *)

Definition json_escape_one (c : byte) (st : sink) : bool * sink :=
  if c =? 34 then buf_append [92; 34] st
  else if c =? 92 then buf_append [92; 92] st
  else if c =? 8 then buf_append [92; 98] st
  else if c =? 12 then buf_append [92; 102] st
  else if c =? 10 then buf_append [92; 110] st
  else if c =? 13 then buf_append [92; 114] st
  else if c =? 9 then buf_append [92; 116] st
  else if c <? 32 then
    buf_append [92; 117; 48; 48; hex_digit_lower (Z.shiftr c 4); hex_digit_lower (Z.land c 15)] st
  else buf_append_byte c st.

Definition escape_json (l : bytes) : sink -> bool * sink := for_each json_escape_one l.

(** ** Reference renderings

    What each escaper writes for a whole value, as the chunks it reserves
    space for. *)
Definition html_chunk (escape_quotes : bool) (c : byte) : bytes :=
  if c =? 38 then bs "&amp;" else if c =? 60 then bs "&lt;" else if c =? 62 then bs "&gt;"
  else if escape_quotes && (c =? 34) then bs "&quot;"
  else if escape_quotes && (c =? 39) then bs "&#39;" else [c].

Definition percent_chunk (c : byte) : bytes :=
  if url_is_safe_char c then [c] else [37; hex_digit_upper (c / 16); hex_digit_upper (c mod 16)].

Definition json_chunk (c : byte) : bytes :=
  if c =? 34 then bs "\" ++ [34] else if c =? 92 then bs "\\" else if c =? 8 then bs "\b"
  else if c =? 12 then bs "\f" else if c =? 10 then bs "\n" else if c =? 13 then bs "\r"
  else if c =? 9 then bs "\t"
  else if c <? 32 then bs "\u00" ++ [hex_digit_lower (c / 16); hex_digit_lower (c mod 16)] else [c].

Inductive context := HtmlBody | HtmlAttr | Url | Json.

#[export] Instance context_eq_dec : EqDecision context.
Proof. solve_decision. Defined.

Definition escape (ctx : context) : bytes -> sink -> bool * sink :=
  match ctx with
  | HtmlBody => escape_html_body
  | HtmlAttr => escape_html_attr
  | Url => escape_url
  | Json => escape_json
  end.

Definition chunks (ctx : context) (l : bytes) : list bytes :=
  match ctx with
  | HtmlBody => map (html_chunk false) l
  | HtmlAttr => map (html_chunk true) l
  | Url =>
      if url_has_disallowed_control l || negb (url_allowed (url_clean l)) then [bs "#"]
      else map percent_chunk (url_clean l)
  | Json => map json_chunk l
  end.

Definition rendering (ctx : context) (l : bytes) : bytes := concat (chunks ctx l).

(** ** The buffer *)

(** The bytes and their NUL fit in the block. *)
Definition buf_ok (b : report_buf) : Prop :=
  (buf_cap b = 0 /\ buf_data b = []) \/ Z.of_nat (length (buf_data b)) < buf_cap b <= SIZE_MAX.

Definition owned (b : report_buf) : Z := if buf_cap b =? 0 then 0 else 1.

Lemma grow_cap_spec fuel cap need :
  1 <= cap <= SIZE_MAX -> need <= SIZE_MAX -> need <= grow_cap fuel cap need <= SIZE_MAX.
Proof.
  revert cap; induction fuel as [|fuel IH]; intros cap Hc Hn; cbn [grow_cap]; [lia|].
  destruct (Z.ltb_spec cap need); [|lia]. change (Z.quot SIZE_MAX 2) with (2 ^ 63 - 1).
  destruct (Z.ltb_spec (2 ^ 63 - 1) cap); [lia|]. apply IH; [unfold SIZE_MAX; lia|done].
Qed.

(** The 64 rounds are never used up: more of them change nothing. *)
Lemma grow_cap_fuel fuel extra cap need :
  1 <= cap <= SIZE_MAX -> 2 ^ 64 <= cap * 2 ^ Z.of_nat fuel ->
  grow_cap (fuel + extra) cap need = grow_cap fuel cap need.
Proof.
  revert cap; induction fuel as [|fuel IH]; intros cap Hc Hf; cbn [grow_cap Nat.add].
  - unfold SIZE_MAX in Hc. change (Z.of_nat 0) with 0 in Hf. lia.
  - destruct (cap <? need); [|done]. change (Z.quot SIZE_MAX 2) with (2 ^ 63 - 1).
    destruct (Z.ltb_spec (2 ^ 63 - 1) cap); [done|]. apply IH; [unfold SIZE_MAX; lia|].
    rewrite Nat2Z.inj_succ, Z.pow_succ_r in Hf by lia. lia.
Qed.

(** The outcome of an append: everything or nothing. *)
Definition appended (src : bytes) (st : sink) (r : bool * sink) : Prop :=
  let '(ok, st') := r in
  buf_ok (fst st') /\
  buf_data (fst st') = buf_data (fst st) ++ (if ok then src else []) /\
  live (snd st') - owned (fst st') = live (snd st) - owned (fst st) /\
  (forall b, b ∈ oracle (snd st') -> b ∈ oracle (snd st)) /\
  (ok = false -> false ∈ oracle (snd st) \/
     SIZE_MAX < Z.of_nat (length (buf_data (fst st))) + Z.of_nat (length src) + 1).

Lemma buf_append_spec src st : buf_ok (fst st) -> appended src st (buf_append src st).
Proof.
  destruct st as [[data cap] h]. unfold appended, buf_append, buf_reserve, owned. cbn [fst snd buf_data buf_cap].
  intros Hok. set (len := Z.of_nat (length data)). set (extra := Z.of_nat (length src)).
  assert (0 <= len /\ 0 <= extra) as [Hl He] by lia.
  destruct (Z.ltb_spec (SIZE_MAX - 1) len); [cbn; rewrite app_nil_r; split_and!; try done; right; lia|].
  destruct (Z.ltb_spec (SIZE_MAX - (len + 1)) extra); [cbn; rewrite app_nil_r; split_and!; try done; right; lia|].
  destruct (Z.leb_spec (len + 1 + extra) cap).
  { cbn. split_and!; try done. right. cbn in *. rewrite length_app, Nat2Z.inj_add. fold len extra.
    destruct Hok as [[? _]|?]; cbn in *; lia. }
  destruct (realloc _ h) as [ok h'] eqn:E. apply realloc_spec in E as (Hlive & Hf & Ho). rewrite negb_involutive in Hlive.
  destruct ok; cbn [negb andb] in *.
  - pose proof (grow_cap_spec 64 (if cap =? 0 then 64 else cap) (len + 1 + extra)) as Hg.
    assert (len + 1 + extra <= grow_cap 64 (if cap =? 0 then 64 else cap) (len + 1 + extra) <= SIZE_MAX) as Hg'.
    { apply Hg; [|lia]. destruct (Z.eqb_spec cap 0); [unfold SIZE_MAX; lia|]. destruct Hok as [[? _]|?]; cbn in *; lia. }
    clear Hg. set (g := grow_cap _ _ _) in *. cbn [fst snd buf_data buf_cap].
    rewrite (proj2 (Z.eqb_neq g 0)) by lia. split_and!; try done.
    + right. cbn [buf_data buf_cap]. rewrite length_app, Nat2Z.inj_add. fold len extra. lia.
    + destruct (cap =? 0); cbn in Hlive; lia.
  - cbn [fst snd buf_data buf_cap]. rewrite app_nil_r. split_and!; try done; [lia|]. left. by apply Hf.
Qed.

(** Chunk after chunk, up to the first failure. *)
Fixpoint append_chunks (cs : list bytes) (st : sink) : bool * sink :=
  match cs with
  | [] => (true, st)
  | c :: cs => let '(ok, st) := buf_append c st in if ok then append_chunks cs st else (false, st)
  end.

Lemma append_chunks_spec cs st :
  buf_ok (fst st) ->
  let '(ok, st') := append_chunks cs st in
  exists k, (k <= length cs)%nat /\ (ok = true <-> k = length cs) /\ buf_ok (fst st') /\
  buf_data (fst st') = buf_data (fst st) ++ concat (take k cs) /\
  live (snd st') - owned (fst st') = live (snd st) - owned (fst st) /\
  (forall b, b ∈ oracle (snd st') -> b ∈ oracle (snd st)) /\
  (ok = false -> false ∈ oracle (snd st) \/
     SIZE_MAX < Z.of_nat (length (buf_data (fst st)) + length (concat cs)) + 1).
Proof.
  revert st; induction cs as [|c cs IH]; intros st Hok; cbn [append_chunks].
  { exists 0%nat. cbn. rewrite app_nil_r. by split_and!. }
  pose proof (buf_append_spec c st Hok) as Ha. destruct (buf_append c st) as [ok st1].
  destruct Ha as (Hok1 & Hd & Hl & Ho & Hf). destruct ok; cbn [concat] in *.
  - specialize (IH st1 Hok1). destruct (append_chunks cs st1) as [ok2 st2].
    destruct IH as (k & Hk & Hiff & Hok2 & Hd2 & Hl2 & Ho2 & Hf2). exists (S k). cbn [length take concat].
    split_and!; try done; try lia; auto.
    + rewrite Hiff. lia.
    + by rewrite Hd2, Hd, app_assoc.
    + intros E. destruct (Hf2 E) as [?|Hs]; [left; auto|right]. rewrite Hd, length_app in Hs. rewrite length_app. lia.
  - exists 0%nat. cbn [length take concat]. rewrite app_nil_r in *. split_and!; try done; [lia|].
    intros _. destruct (Hf eq_refl) as [?|?]; [by left|right]. rewrite length_app. lia.
Qed.

(** ** The escapers write their renderings *)

Lemma for_each_chunks f g l st :
  (forall c st, f c st = buf_append (g c) st) -> for_each f l st = append_chunks (map g l) st.
Proof.
  intros H. revert st; induction l as [|c l IH]; intros st; simpl; [done|]. rewrite H.
  destruct (buf_append (g c) st) as [[] st']; [apply IH|done].
Qed.

Lemma html_one_chunk q c st : html_escape_one q c st = buf_append (html_chunk q c) st.
Proof. unfold html_escape_one, html_chunk, buf_append_byte. destruct q; repeat case_match_eqn; done. Qed.

Lemma percent_one_chunk c st : url_percent_encode_one c st = buf_append (percent_chunk c) st.
Proof.
  unfold url_percent_encode_one, percent_chunk, buf_append_byte. destruct (url_is_safe_char c); [done|].
  rewrite Z.shiftr_div_pow2 by lia. change 15 with (Z.ones 4). by rewrite Z.land_ones by lia.
Qed.

Lemma json_one_chunk c st : json_escape_one c st = buf_append (json_chunk c) st.
Proof.
  unfold json_escape_one, json_chunk, buf_append_byte. rewrite Z.shiftr_div_pow2 by lia.
  change (Z.land c 15) with (Z.land c (Z.ones 4)). rewrite Z.land_ones by lia.
  repeat case_match_eqn; done.
Qed.

(** The loop of every context but [Url], and that of [Url] once it has its
    copy of the value. *)
Lemma escape_append_chunks ctx l st :
  ctx <> Url -> escape ctx l st = append_chunks (chunks ctx l) st.
Proof.
  destruct ctx; [| |done|]; intros _; apply for_each_chunks; auto using html_one_chunk, json_one_chunk.
Qed.

Lemma append_one c st : append_chunks [c] st = buf_append c st.
Proof. simpl. by destruct (buf_append c st) as [[] ?]. Qed.

Lemma escape_url_append_chunks l st :
  escape_url l st = append_chunks (chunks Url l) st \/
  (let '(got, h) := malloc (snd st) in
   escape_url l st =
   if got then
     let '(ok, (buf, h)) := append_chunks (chunks Url l) (fst st, h) in (ok, (buf, free_block h))
   else (false, (fst st, h))).
Proof.
  unfold escape_url. destruct l as [|c l]; [by left|]. cbn [length Nat.eqb chunks].
  destruct (url_has_disallowed_control (c :: l)); [left; cbn [orb]; by rewrite append_one|right]. cbn [orb].
  destruct (malloc (snd st)) as [[] h]; [cbn [negb]|done].
  destruct (url_allowed (url_clean (c :: l))); cbn [negb].
  - unfold url_percent_encode_append. rewrite (for_each_chunks _ percent_chunk) by apply percent_one_chunk. done.
  - by rewrite append_one.
Qed.

(** All or nothing per escape sequence.  For every context, value, buffer
    and pattern of failing allocations: what is written is the rendering of
    the value, or on a failure (which happens only when an allocation fails or
    the length passes [SIZE_MAX]) some first chunks of it, never a part of an
    escape sequence; the block always has room for the bytes and their NUL;
    and nothing leaks. *)
Theorem escape_all_or_nothing ctx l st :
  buf_ok (fst st) ->
  let '(ok, st') := escape ctx l st in
  (exists k, buf_data (fst st') = buf_data (fst st) ++ concat (take k (chunks ctx l))) /\
  (ok = true -> buf_data (fst st') = buf_data (fst st) ++ rendering ctx l) /\
  (ok = false -> false ∈ oracle (snd st) \/
     SIZE_MAX < Z.of_nat (length (buf_data (fst st)) + length (rendering ctx l)) + 1) /\
  buf_ok (fst st') /\
  live (snd st') - owned (fst st') = live (snd st) - owned (fst st) /\
  (forall b, b ∈ oracle (snd st') -> b ∈ oracle (snd st)).
Proof.
  intros Hok. unfold rendering. set (cs := chunks ctx l).
  assert (Hmain : forall h,
    let '(ok, st') := append_chunks cs (fst st, h) in
    (exists k, buf_data (fst st') = buf_data (fst st) ++ concat (take k cs)) /\
    (ok = true -> buf_data (fst st') = buf_data (fst st) ++ concat cs) /\
    (ok = false -> false ∈ oracle h \/ SIZE_MAX < Z.of_nat (length (buf_data (fst st)) + length (concat cs)) + 1) /\
    buf_ok (fst st') /\ live (snd st') - owned (fst st') = live h - owned (fst st) /\ (forall b, b ∈ oracle (snd st') -> b ∈ oracle h)).
  { intros h. pose proof (append_chunks_spec cs (fst st, h) Hok) as Ha. destruct (append_chunks cs (fst st, h)) as [ok st'].
    destruct Ha as (k & Hk & Hiff & Hok' & Hd & Hl & Ho & Hf). split_and!; eauto.
    intros E. rewrite Hd. f_equal. apply Hiff in E as ->. by rewrite firstn_all. }
  assert (Hcase : escape ctx l st = append_chunks cs st \/ ctx = Url).
  { destruct (decide (ctx = Url)) as [->|Hne]; [by right|left; by apply escape_append_chunks]. }
  destruct st as [buf h]. cbn [fst snd] in *. destruct Hcase as [->| ->]; [apply Hmain|].
  pose proof (escape_url_append_chunks l (buf, h)) as Hu. cbn [escape]. fold cs in Hu.
  destruct Hu as [->|Hu]; [apply Hmain|]. cbn [fst snd] in *. malloc_case h got h1 Hl Hf Ho. rewrite Hu. destruct got.
  - specialize (Hmain h1). destruct (append_chunks cs (buf, h1)) as [ok [buf' h2]]. cbn [fst snd] in *.
    destruct Hmain as (? & ? & Hfail & ? & ? & ?). split_and!; try done.
    + intros E. destruct (Hfail E) as [?|?]; [left; auto with alloc|by right].
    + unfold free_block. cbn. lia.
    + cbn. auto.
  - cbn [fst snd]. split_and!; try done; [by exists 0%nat; rewrite app_nil_r|left; auto|lia].
Qed.

Lemma escape_all_or_nothing_witness :
  buf_data (fst (snd (escape HtmlBody [60; 65] (report_buf_init, Heap [] 0)))) = rendering HtmlBody [60; 65] /\
  fst (escape Url [65] (report_buf_init, Heap [true; false] 0)) = false.
Proof.
  assert (H : buf_ok report_buf_init) by (left; split; reflexivity). split; [|reflexivity].
  pose proof (escape_all_or_nothing HtmlBody [60; 65] (report_buf_init, Heap [] 0) H) as R.
  destruct (escape HtmlBody [60; 65] (report_buf_init, Heap [] 0)) as [ok st] eqn:E. vm_compute in E. injection E as <- <-.
  exact (proj1 (proj2 R) eq_refl).
Defined.

(** ** HTML as a browser reads it *)

Fixpoint strip_prefix (p s : bytes) : option bytes :=
  match p, s with
  | [], _ => Some s
  | a :: p, b :: s => if a =? b then strip_prefix p s else None
  | _ :: _, [] => None
  end.

Definition char_refs : list (bytes * byte) :=
  [(bs "amp;", 38); (bs "lt;", 60); (bs "gt;", 62); (bs "quot;", 34); (bs "#39;", 39)].

Fixpoint find_ref (refs : list (bytes * byte)) (s : bytes) : option (byte * bytes) :=
  match refs with
  | [] => None
  | (name, c) :: refs =>
      match strip_prefix name s with Some s => Some (c, s) | None => find_ref refs s end
  end.

(** The value up to the byte [stop], with its character references decoded,
    and what follows; [fuel] bounds the characters read. *)
Fixpoint html_read (fuel : nat) (stop : byte) (s : bytes) : bytes * bytes :=
  match fuel, s with
  | S fuel, c :: s' =>
      if c =? stop then ([], s) else
      let '(v, rest) :=
        if c =? 38 then
          match find_ref char_refs s' with Some (d, s') => (d, s') | None => (c, s') end
        else (c, s') in
      let '(vs, rest) := html_read fuel stop rest in
      (v :: vs, rest)
  | _, _ => ([], s)
  end.

Lemma html_read_stop fuel stop rest : html_read (S fuel) stop (stop :: rest) = ([], stop :: rest).
Proof. simpl. by rewrite Z.eqb_refl. Qed.

Lemma html_read_chunk q c fuel stop s :
  stop = 60 \/ (q = true /\ (stop = 34 \/ stop = 39)) ->
  html_read (S fuel) stop (html_chunk q c ++ s) =
  let '(vs, rest) := html_read fuel stop s in (c :: vs, rest).
Proof.
  intros Hstop. unfold html_chunk.
  destruct (Z.eqb_spec c 38) as [->|]; [by destruct Hstop as [->|[_ [->| ->]]]|].
  destruct (Z.eqb_spec c 60) as [->|]; [by destruct Hstop as [->|[_ [->| ->]]]|].
  destruct (Z.eqb_spec c 62) as [->|]; [by destruct Hstop as [->|[_ [->| ->]]]|].
  assert (Hraw : c <> stop ->
    html_read (S fuel) stop ([c] ++ s) = let '(vs, rest) := html_read fuel stop s in (c :: vs, rest)).
  { intros Hne. cbn [html_read app]. rewrite (proj2 (Z.eqb_neq c stop)), (proj2 (Z.eqb_neq c 38)) by done. done. }
  destruct q; cbn [andb].
  - destruct (Z.eqb_spec c 34) as [->|]; [by destruct Hstop as [->|[_ [->| ->]]]|].
    destruct (Z.eqb_spec c 39) as [->|]; [by destruct Hstop as [->|[_ [->| ->]]]|].
    apply Hraw. lia.
  - apply Hraw. destruct Hstop as [->|[? _]]; [done|discriminate].
Qed.

Lemma html_read_chunks q l stop rest fuel :
  stop = 60 \/ (q = true /\ (stop = 34 \/ stop = 39)) -> (length l < fuel)%nat ->
  html_read fuel stop (concat (map (html_chunk q) l) ++ stop :: rest) = (l, stop :: rest).
Proof.
  intros Hstop. revert fuel; induction l as [|c l IH]; intros [|fuel] Hf; simpl in Hf; try lia; [apply html_read_stop|].
  cbn [map concat]. rewrite <- app_assoc, html_read_chunk, IH by (done || lia). done.
Qed.

Lemma html_chunk_markup q c : 60 ∉ html_chunk q c /\ 62 ∉ html_chunk q c.
Proof.
  unfold html_chunk. repeat case_match_eqn; breflect; split; vm_compute bs; rewrite ?not_elem_of_cons; split_and?;
    try done; try apply not_elem_of_nil; congruence.
Qed.

(** Injection into HTML is impossible.  A browser that reads a rendered
    text up to the next tag, or a rendered attribute up to its closing quote
    (double or, should a template use it, single), reads back exactly the
    value, whatever its bytes, and stops exactly where the template goes on;
    and no rendering contains a byte that could open or close a tag. *)
Theorem escape_html_safe l rest :
  (let s := rendering HtmlBody l ++ 60 :: rest in html_read (length s) 60 s = (l, 60 :: rest)) /\
  (let s := rendering HtmlAttr l ++ 34 :: rest in html_read (length s) 34 s = (l, 34 :: rest)) /\
  (let s := rendering HtmlAttr l ++ 39 :: rest in html_read (length s) 39 s = (l, 39 :: rest)) /\
  (forall c, c ∈ rendering HtmlBody l \/ c ∈ rendering HtmlAttr l -> c <> 60 /\ c <> 62).
Proof.
  assert (Hlen : forall q, (length l <= length (concat (map (html_chunk q) l)))%nat).
  { intros q. induction l as [|c l' IH]; [done|]. cbn [map concat]. rewrite length_app. simpl length.
    assert (1 <= length (html_chunk q c))%nat; [|lia]. unfold html_chunk. repeat case_match_eqn; vm_compute; lia. }
  unfold rendering, chunks. split_and!.
  - apply html_read_chunks; [by left|]. rewrite length_app. specialize (Hlen false). simpl. lia.
  - apply html_read_chunks; [right; auto|]. rewrite length_app. specialize (Hlen true). simpl. lia.
  - apply html_read_chunks; [right; auto|]. rewrite length_app. specialize (Hlen true). simpl. lia.
  - assert (forall q c, c ∈ concat (map (html_chunk q) l) -> c <> 60 /\ c <> 62) as Hc; [|intros c [?|?]; eauto].
    intros q c Hin. clear Hlen. induction l as [|d l' IH]; [by apply elem_of_nil in Hin|].
    cbn [map concat] in Hin. apply elem_of_app in Hin as [Hin|Hin]; [|by apply IH].
    pose proof (html_chunk_markup q d) as [H1 H2]. split; intros ->; contradiction.
Qed.

(** ** JSON strings as a parser reads them *)

Definition hex_value (c : byte) : option Z :=
  if (48 <=? c) && (c <=? 57) then Some (c - 48)
  else if (97 <=? c) && (c <=? 102) then Some (c - 87)
  else if (65 <=? c) && (c <=? 70) then Some (c - 55) else None.

(** The escapes of one letter. *)
Definition short_escape (d : byte) : option byte :=
  if d =? 34 then Some 34 else if d =? 92 then Some 92 else if d =? 47 then Some 47
  else if d =? 98 then Some 8 else if d =? 102 then Some 12 else if d =? 110 then Some 10
  else if d =? 114 then Some 13 else if d =? 116 then Some 9 else None.

(** The grammar of a string, byte by byte, after the opening quote: the value
    up to the closing quote, and what follows; no raw control byte is allowed,
    and the code units of [\u] escapes are restricted to ASCII.  That the text
    is UTF-8, as RFC 8259 asks of a document, is [utf8_text]; nothing here
    checks it, and [cytadel_escape_json] does not either. *)
Fixpoint json_string (s : bytes) : option (bytes * bytes) :=
  match s with
  | [] => None
  | c :: s =>
      if c =? 34 then Some ([], s)
      else if c =? 92 then
        match s with
        | d :: s =>
            if d =? 117 then
              match s with
              | x1 :: x2 :: x3 :: x4 :: s =>
                  match hex_value x1, hex_value x2, hex_value x3, hex_value x4 with
                  | Some v1, Some v2, Some v3, Some v4 =>
                      let v := v1 * 4096 + v2 * 256 + v3 * 16 + v4 in
                      if v <? 128 then prod_map (cons v) id <$> json_string s else None
                  | _, _, _, _ => None
                  end
              | _ => None
              end
            else match short_escape d with
                 | Some v => prod_map (cons v) id <$> json_string s
                 | None => None
                 end
        | [] => None
        end
      else if c <? 32 then None
      else prod_map (cons c) id <$> json_string s
  end.

Lemma hex_value_lower k : 0 <= k < 16 -> hex_value (hex_digit_lower k) = Some k.
Proof.
  intros Hk. unfold hex_value, hex_digit_lower. destruct (Z.ltb_spec k 10).
  - rewrite !(proj2 (Z.leb_le _ _)) by lia. cbn [andb]. f_equal. lia.
  - rewrite (proj2 (Z.leb_gt (97 + (k - 10)) 57)) by lia. rewrite andb_false_r.
    rewrite !(proj2 (Z.leb_le _ _)) by lia. cbn [andb]. f_equal. lia.
Qed.

Lemma json_string_chunk c s :
  byte_ok c -> json_string (json_chunk c ++ s) = prod_map (cons c) id <$> json_string s.
Proof.
  unfold byte_ok, json_chunk. intros Hc.
  destruct (Z.eqb_spec c 34) as [->|]; [done|]. destruct (Z.eqb_spec c 92) as [->|]; [done|].
  destruct (Z.eqb_spec c 8) as [->|]; [done|]. destruct (Z.eqb_spec c 12) as [->|]; [done|].
  destruct (Z.eqb_spec c 10) as [->|]; [done|]. destruct (Z.eqb_spec c 13) as [->|]; [done|].
  destruct (Z.eqb_spec c 9) as [->|]; [done|]. destruct (Z.ltb_spec c 32) as [Hlt|Hge].
  - pose proof (Z.div_mod c 16 ltac:(lia)) as Hd. pose proof (Z.mod_pos_bound c 16 ltac:(lia)) as Hm.
    change (bs "\u00") with [92; 117; 48; 48]. cbn [app json_string Z.eqb Pos.eqb].
    rewrite !hex_value_lower by lia. change (hex_value 48) with (Some 0). cbv iota beta zeta.
    replace (0 * 4096 + 0 * 256 + c / 16 * 16 + c mod 16) with c by lia. by rewrite (proj2 (Z.ltb_lt c 128)) by lia.
  - cbn [app json_string]. rewrite (proj2 (Z.eqb_neq c 34)), (proj2 (Z.eqb_neq c 92)) by done.
    by rewrite (proj2 (Z.ltb_ge c 32)) by done.
Qed.

(** JSON strings round-trip.  A reader of the grammar that reads a rendered
    value followed by the closing quote gets the value back, byte for byte,
    and stops right after that quote. *)
Theorem escape_json_roundtrip l rest :
  Forall byte_ok l -> json_string (rendering Json l ++ 34 :: rest) = Some (l, rest).
Proof.
  unfold rendering. cbn [chunks]. induction 1 as [|c l Hc _ IH]; [done|].
  cbn [map concat]. rewrite <- app_assoc, json_string_chunk, IH by done. done.
Qed.

Lemma escape_json_roundtrip_witness : json_string (rendering Json [10; 34; 65; 1] ++ [34; 44]) = Some ([10; 34; 65; 1], [44]).
Proof. apply (escape_json_roundtrip [10; 34; 65; 1] [44]). unfold byte_ok. repeat constructor; done. Defined.

(** The escaper neither makes nor mends a text that is not UTF-8. *)
Lemma json_chunk_bytes c : byte_ok c -> c < 128 /\ json_chunk c <> [] /\ Forall ascii (json_chunk c) \/ 128 <= c /\ json_chunk c = [c].
Proof.
  intros Hc. destruct (Z.ltb_spec c 128) as [Hlt|Hge]; [left|right; split; [done|]].
  - split; [done|]. unfold byte_ok in Hc. assert (Hin : c ∈ map Z.of_nat (seq 0 128)) by (apply list_elem_of_In, in_map_iff; exists (Z.to_nat c); split; [lia|apply in_seq; lia]).
    assert (Hall : forallb (fun c => negb (bool_decide (json_chunk c = [])) && forallb (fun x => (0 <=? x) && (x <? 128)) (json_chunk c)) (map Z.of_nat (seq 0 128)) = true) by (vm_compute; reflexivity).
    rewrite forallb_forall in Hall. specialize (Hall c ltac:(by apply list_elem_of_In)). apply andb_prop in Hall as [Hne%negb_true_iff%bool_decide_eq_false Hx].
    split; [done|]. rewrite forallb_forall in Hx. apply Forall_forall. intros x Hin'. specialize (Hx x ltac:(by apply list_elem_of_In)). unfold ascii. zbool.
  - unfold json_chunk. repeat rewrite (proj2 (Z.eqb_neq c _)) by lia. by rewrite (proj2 (Z.ltb_ge c 32)) by lia.
Qed.

Lemma escape_json_utf8 l : Forall byte_ok l -> utf8_text (rendering Json l) <-> utf8_text l.
Proof.
  assert (Hgen : Forall byte_ok l -> forall a, utf8_text (a ++ rendering Json l) <-> utf8_text (a ++ l)); [|intros Hl; apply (Hgen Hl [])].
  unfold rendering. cbn [chunks]. induction 1 as [|c l Hc Hl IH]; intros a; [done|]. cbn [map concat].
  destruct (json_chunk_bytes c Hc) as [(Hlt & Hne & Hall)|[_ ->]].
  - unfold byte_ok in Hc. rewrite utf8_split by (unfold ascii; lia). rewrite (separates_ascii _ Hne Hall a _). specialize (IH []). cbn [app] in IH. rewrite IH. tauto.
  - specialize (IH (a ++ [c])). rewrite <- !app_assoc in IH. exact IH.
Qed.

(** ** URLs *)

Lemma safe_hex k : 0 <= k < 16 -> url_is_safe_char (hex_digit_upper k) = true.
Proof.
  intros Hk. unfold url_is_safe_char, hex_digit_upper, is_alpha_ascii. destruct (Z.ltb_spec k 10).
  - rewrite (proj2 (Z.leb_le 48 _)), (proj2 (Z.leb_le _ 57)) by lia. by rewrite orb_true_r.
  - rewrite (proj2 (Z.leb_le 65 _)), (proj2 (Z.leb_le _ 90)) by lia. done.
Qed.

Lemma percent_chunk_safe c : byte_ok c -> Forall (fun c => url_is_safe_char c = true) (percent_chunk c).
Proof.
  intros Hc. unfold percent_chunk, byte_ok in *. destruct (url_is_safe_char c) eqn:E; [by repeat constructor|].
  assert (0 <= c / 16 < 16) by (split; [apply Z.div_pos|apply Z.div_lt_upper_bound]; lia).
  pose proof (Z.mod_pos_bound c 16 ltac:(lia)).
  repeat apply Forall_cons_2; [done|by apply safe_hex..|apply Forall_nil_2].
Qed.

Lemma percent_safe l :
  Forall byte_ok l -> Forall (fun c => url_is_safe_char c = true) (concat (map percent_chunk l)).
Proof.
  induction 1 as [|c l Hc _ IH]; [constructor|]. cbn [map concat]. apply Forall_app_2; [by apply percent_chunk_safe|done].
Qed.

(** A rendered value needs no encoding. *)
Lemma percent_id l : Forall (fun c => url_is_safe_char c = true) l -> concat (map percent_chunk l) = l.
Proof. induction 1 as [|c l Hc _ IH]; [done|]. cbn [map concat]. unfold percent_chunk at 1. rewrite Hc, IH. done. Qed.

Lemma scheme_char_safe c : is_scheme_char c = true -> url_is_safe_char c = true.
Proof.
  unfold is_scheme_char, url_is_safe_char. intros H. apply orb_true_iff. rewrite !orb_true_iff in H.
  destruct H as [[[H|H]|H]|H]; [left; by apply orb_true_iff|right; apply Z.eqb_eq in H as ->; reflexivity..].
Qed.

Lemma percent_chunk_head c : exists d t, percent_chunk c = d :: t /\ (d = c /\ url_is_safe_char c = true \/ d = 37 /\ url_is_safe_char c = false).
Proof. unfold percent_chunk. destruct (url_is_safe_char c); eexists _, _; split; try done; auto. Qed.

(** Encoding keeps the scheme and the verdict on it. *)
Lemma percent_scheme_tail l :
  take_while is_scheme_char (concat (map percent_chunk l)) = take_while is_scheme_char l /\
  (match drop_while is_scheme_char (concat (map percent_chunk l)) with d :: _ => d =? 58 | [] => false end) =
  (match drop_while is_scheme_char l with d :: _ => d =? 58 | [] => false end).
Proof.
  induction l as [|c l IH]; [done|]. cbn [map concat]. destruct (is_scheme_char c) eqn:Hs.
  - unfold percent_chunk at 1 3. rewrite (scheme_char_safe c Hs). cbn [app take_while drop_while]. rewrite Hs.
    destruct IH as [-> ->]. done.
  - cbn [take_while drop_while]. rewrite Hs.
    destruct (percent_chunk_head c) as (d & t & -> & [[-> _]|[-> Hu]]); cbn [app take_while drop_while].
    + by rewrite Hs.
    + change (is_scheme_char 37) with false. cbv iota. split; [done|].
      destruct (Z.eqb_spec c 58) as [->|]; [discriminate|done].
Qed.

Lemma url_scheme_match c l :
  url_scheme (c :: l) =
  if is_alpha_ascii c && (match drop_while is_scheme_char l with d :: _ => d =? 58 | [] => false end)
  then Some (c :: take_while is_scheme_char l) else None.
Proof. cbn [url_scheme]. destruct (is_alpha_ascii c); [|done]. by destruct (drop_while is_scheme_char l). Qed.

Lemma alpha_scheme_char c : is_alpha_ascii c = true -> is_scheme_char c = true.
Proof. unfold is_scheme_char. intros ->. done. Qed.

Lemma percent_scheme l : url_scheme (concat (map percent_chunk l)) = url_scheme l.
Proof.
  destruct l as [|c l]; [done|]. cbn [map concat]. destruct (percent_scheme_tail l) as [H1 H2].
  rewrite (url_scheme_match c l). destruct (is_alpha_ascii c) eqn:Ha.
  - unfold percent_chunk at 1. rewrite (scheme_char_safe c) by by apply alpha_scheme_char. cbn [app].
    by rewrite url_scheme_match, Ha, H1, H2.
  - cbn [andb]. destruct (percent_chunk_head c) as (d & t & -> & [[-> _]|[-> _]]); cbn [app url_scheme]; [by rewrite Ha|done].
Qed.

Lemma percent_allowed l : url_allowed l = true -> url_allowed (concat (map percent_chunk l)) = true.
Proof.
  unfold url_allowed. rewrite percent_scheme. destruct (url_scheme l); [done|].
  destruct l as [|c [|d l]]; [done| |]; cbn [map concat].
  - intros _. unfold percent_chunk. destruct (url_is_safe_char c); [done|]. reflexivity.
  - destruct (percent_chunk_head c) as (c' & t & Hc' & [[-> Hs]|[-> Hs]]); rewrite Hc'; cbn [app]; intros Hn.
    2: { destruct t; cbn [app]; [by destruct (percent_chunk d ++ _)|done]. }
    unfold percent_chunk in Hc'. rewrite Hs in Hc'. injection Hc' as <-. cbn [app].
    destruct (Z.eqb_spec c 47) as [->|]; cbn [andb] in *.
    2: { by destruct (percent_chunk d ++ _). }
    destruct (percent_chunk_head d) as (d' & u & -> & [[-> Hd]|[-> _]]); cbn [app]; done.
Qed.

(** ** What a URL parser sees *)

Definition is_scheme (s : bytes) : Prop :=
  exists c s', s = c :: s' /\ is_alpha_ascii c = true /\ Forall (fun c => is_scheme_char c = true) s'.

Lemma url_scheme_complete s rest : is_scheme s -> url_scheme (s ++ 58 :: rest) = Some s.
Proof.
  intros (c & s' & -> & Hc & Hs). rewrite <- app_comm_cons, url_scheme_match, Hc.
  autorewrite with scan. cbn [drop_while take_while].
  change (is_scheme_char 58) with false. cbv iota. by rewrite app_nil_r.
Qed.

Lemma scheme_equals_ci_spec s lit : scheme_equals_ci s lit = true -> map to_lower s = lit.
Proof.
  unfold scheme_equals_ci. intros [Hl Hz]%andb_prop. apply Nat.eqb_eq in Hl.
  revert lit Hl Hz; induction s as [|a s IH]; intros [|b lit] Hl Hz; try done. cbn in *.
  apply andb_prop in Hz as [->%Z.eqb_eq Hz]. f_equal. apply IH; [lia|done].
Qed.

Lemma safe_range c : url_is_safe_char c = true -> 33 <= c <= 126.
Proof.
  unfold url_is_safe_char, is_alpha_ascii. rewrite !orb_true_iff, !andb_true_iff, !Z.leb_le.
  intros [[[?|?]|?]|H]; [lia..|]. apply existsb_true in H as (d & Hd & ->%Z.eqb_eq). revert d Hd. apply Forall_forall.
  unfold bs. cbn. repeat apply Forall_cons_2; try lia. apply Forall_nil_2.
Qed.

(** A clean value is what is left of itself. *)
Lemma safe_no_space c : url_is_safe_char c = true -> (32 =? c) = false /\ is_tab_lf_cr c = false /\ (c <? 32) || (c =? 127) = false.
Proof.
  intros Hr%safe_range.
  unfold is_tab_lf_cr. rewrite (proj2 (Z.eqb_neq 32 c)), (proj2 (Z.ltb_ge c 32)), !(proj2 (Z.eqb_neq c _)) by lia. done.
Qed.

Lemma drop_while_none f l : Forall (fun c => f c = false) l -> drop_while f l = l.
Proof. destruct 1 as [|c l Hc _]; [done|]. simpl. by rewrite Hc. Qed.

Lemma url_clean_safe l : Forall (fun c => url_is_safe_char c = true) l -> url_clean l = l.
Proof.
  intros H. unfold url_clean, trim_right.
  assert (List.filter (fun c => negb (is_tab_lf_cr c)) l = l) as ->.
  { induction H as [|c l' Hc _ IH]; [done|]. cbn [List.filter]. destruct (safe_no_space c Hc) as (_ & -> & _). cbn [negb]. by rewrite IH. }
  assert (Forall (fun c => (32 =? c) = false) l) as Hs.
  { eapply Forall_impl; [exact H|]. intros c Hc. by apply safe_no_space. }
  rewrite (drop_while_none _ l) by done. rewrite drop_while_none; [apply rev_involutive|].
  apply Forall_rev. done.
Qed.

Lemma safe_no_control l : Forall (fun c => url_is_safe_char c = true) l -> url_has_disallowed_control l = false.
Proof.
  intros H. apply existsb_false. intros c Hc. pose proof (proj1 (Forall_forall _ _) H c Hc) as Hs.
  destruct (safe_no_space c Hs) as (_ & _ & ->). apply andb_false_r.
Qed.

Lemma Forall_drop_while P f l : Forall P l -> Forall P (drop_while f l).
Proof. induction 1 as [|c l Hc Hl IH]; simpl; [constructor|]. destruct (f c); [done|by constructor]. Qed.

Lemma url_clean_bytes l : Forall byte_ok l -> Forall byte_ok (url_clean l).
Proof.
  intros H. unfold url_clean, trim_right. apply Forall_rev, Forall_drop_while, Forall_rev, Forall_drop_while.
  induction H as [|c l Hc _ IH]; cbn [List.filter]; [constructor|]. destruct (negb _); [by constructor|done].
Qed.

Lemma rendering_url_safe l : Forall byte_ok l -> Forall (fun c => url_is_safe_char c = true) (rendering Url l).
Proof.
  intros Hl. unfold rendering. cbn [chunks]. destruct (_ || _); [|by apply percent_safe, url_clean_bytes].
  vm_compute. by repeat constructor.
Qed.

Lemma rendering_url_allowed l : url_allowed (rendering Url l) = true.
Proof.
  unfold rendering. cbn [chunks]. destruct (_ || _) eqn:E; [reflexivity|]. apply orb_false_elim in E as [_ E].
  apply percent_allowed. by apply negb_false_iff in E.
Qed.

(** The URLs of a report are inert.  Every byte of a rendered URL is one
    of the allowed ones, so that neither quotes, markup, [&], backslashes,
    white space nor control bytes remain; if it has a scheme, that is http or
    https in some case; it is never protocol-relative; and rendering it again
    changes nothing. *)
Theorem escape_url_safe l :
  Forall byte_ok l ->
  let out := rendering Url l in
  Forall (fun c => 33 <= c <= 126 /\ c ∉ bs "<>&'\`^{|}" /\ c <> 34) out /\
  (forall s rest, is_scheme s -> out = s ++ 58 :: rest ->
     map to_lower s = bs "http" \/ map to_lower s = bs "https") /\
  (forall rest, out <> 47 :: 47 :: rest) /\
  rendering Url out = out.
Proof.
  intros Hl out. pose proof (rendering_url_safe l Hl) as Hs. pose proof (rendering_url_allowed l) as Ha.
  fold out in Hs, Ha. split_and!.
  - eapply Forall_impl; [exact Hs|]. intros c Hc. cbv beta in Hc.
    split; [by apply safe_range|]. split; [|by intros ->].
    intros Hin. assert (Forall (fun c => url_is_safe_char c = false) (bs "<>&'\`^{|}")) as Hu by (by repeat constructor).
    pose proof (proj1 (Forall_forall _ _) Hu c Hin) as Hf. cbv beta in Hf. congruence.
  - intros s rest Hsc E. unfold url_allowed in Ha. rewrite E, url_scheme_complete in Ha by done.
    apply orb_true_iff in Ha as [Ha|Ha]; apply scheme_equals_ci_spec in Ha; auto.
  - intros rest E. rewrite E in Ha. vm_compute in Ha. done.
  - unfold rendering at 1. cbn [chunks]. rewrite safe_no_control, url_clean_safe, Ha by done. cbn [orb negb].
    by apply percent_id.
Qed.

Lemma escape_url_safe_witness :
  rendering Url (bs "HTTPS://nvd.nist.gov/?a=1&b") = bs "HTTPS://nvd.nist.gov/?a=1%26b" /\
  rendering Url (bs " java" ++ [10] ++ bs "script:alert(1)") = bs "#" /\
  rendering Url (bs "#") = bs "#".
Proof.
  split; [reflexivity|]. split; [reflexivity|].
  assert (H : Forall byte_ok (bs "#")) by (unfold byte_ok; repeat constructor; done).
  exact (proj2 (proj2 (proj2 (escape_url_safe (bs "#") H)))).
Defined.
