(* ===== verification/DepGraph.v ===== *)
(** * Plugin dependency order ([src/src/plugin/depgraph.c])

    Kahn's algorithm over the dependencies the plugins declare.  [in_degree]
    holds [size_t]s, with their wrap-around. *)

From S2P Require Import Prelude.

(** [cytadel_depgraph_node_t] *)
Record depgraph_node := DepNode { node_script_id : Z; node_deps : list Z }.

(** The status with its out-parameters. *)
Inductive toposort_result :=
  | DEPGRAPH_OK (out_order : list nat)
  | DEPGRAPH_MISSING_DEPENDENCY (out_bad_index : nat) (out_bad_dep : Z)
  | DEPGRAPH_CYCLE (out_in_cycle : list bool).

Fixpoint depgraph_find_index (nodes : list depgraph_node) (script_id : Z) (i : nat) : option nat :=
  match nodes with
  | [] => None
  | n :: nodes => if node_script_id n =? script_id then Some i else depgraph_find_index nodes script_id (S i)
  end.

(** The inner and the outer validation loop. *)
Fixpoint missing_dep (nodes : list depgraph_node) (deps : list Z) : option Z :=
  match deps with
  | [] => None
  | d :: deps =>
      match depgraph_find_index nodes d 0 with
      | None => Some d
      | Some _ => missing_dep nodes deps
      end
  end.

Fixpoint first_missing (nodes todo : list depgraph_node) (i : nat) : option (nat * Z) :=
  match todo with
  | [] => None
  | n :: todo =>
      match missing_dep nodes (node_deps n) with
      | Some d => Some (i, d)
      | None => first_missing nodes todo (S i)
      end
  end.

(** The lowest unplaced index with in-degree 0. *)
Fixpoint find_ready (placed : list bool) (in_degree : list Z) (i : nat) : option nat :=
  match placed, in_degree with
  | p :: placed, d :: in_degree =>
      if negb p && (d =? 0) then Some i else find_ready placed in_degree (S i)
  | _, _ => None
  end.

Definition size_t_dec (d : Z) : Z := (d - 1) mod 2 ^ 64.

(** [in_degree[i]--] for every dependency of one node on [id]. *)
Definition decrement (deps : list Z) (id d : Z) : Z :=
  foldl (fun d dep => if dep =? id then size_t_dec d else d) d deps.

Fixpoint decrement_all (nodes : list depgraph_node) (placed : list bool) (in_degree : list Z) (id : Z) : list Z :=
  match nodes, placed, in_degree with
  | n :: nodes, p :: placed, d :: in_degree =>
      (if p then d else decrement (node_deps n) id d) :: decrement_all nodes placed in_degree id
  | _, _, _ => []
  end.

(** The [while] loop; [remaining] is [count - placed_count]. *)
Fixpoint kahn (remaining : nat) (nodes : list depgraph_node) (in_degree : list Z) (placed : list bool)
    (order : list nat) : toposort_result :=
  match remaining with
  | O => DEPGRAPH_OK order
  | S remaining =>
      match find_ready placed in_degree 0 with
      | None => DEPGRAPH_CYCLE (map negb placed)
      | Some ready =>
          let placed := <[ready := true]> placed in
          let id := from_option node_script_id 0 (nodes !! ready) in
          kahn remaining nodes (decrement_all nodes placed in_degree id) placed (order ++ [ready])
      end
  end.

(** [cytadel_depgraph_toposort]; the flags are written in every case, and are
    all false unless the result is a cycle that was found. *)
Definition depgraph_toposort (nodes : list depgraph_node) (h : heap) : toposort_result * heap :=
  let count := length nodes in
  if Nat.eqb count 0 then (DEPGRAPH_OK [], h) else
  match first_missing nodes nodes 0 with
  | Some (i, d) => (DEPGRAPH_MISSING_DEPENDENCY i d, h)
  | None =>
      let '(ok1, h) := malloc h in
      let '(ok2, h) := malloc h in
      if negb (ok1 && ok2) then (DEPGRAPH_CYCLE (replicate count false), free_if ok2 (free_if ok1 h))
      else
        let r := kahn count nodes (map (fun n => Z.of_nat (length (node_deps n))) nodes)
                   (replicate count false) [] in
        (r, free_block (free_block h))
  end.

(** ** Specification *)

Definition script_ids (nodes : list depgraph_node) : list Z := map node_script_id nodes.

(** Node [i] depends on node [j]. *)
Definition depends (nodes : list depgraph_node) (i j : nat) : Prop :=
  exists ni nj, nodes !! i = Some ni /\ nodes !! j = Some nj /\ node_script_id nj ∈ node_deps ni.

(** Every node once, each after the nodes it depends on. *)
Definition valid_order (nodes : list depgraph_node) (order : list nat) : Prop :=
  Permutation order (seq 0 (length nodes)) /\
  forall k i j, order !! k = Some i -> depends nodes i j -> j ∈ take k order.

(** At each position the lowest index that could be there. *)
Definition lowest_first (nodes : list depgraph_node) (order : list nat) : Prop :=
  forall k i i', order !! k = Some i -> (i' < i)%nat -> i' ∉ take k order ->
  exists j, depends nodes i' j /\ j ∉ take k order.

Definition known_deps (nodes : list depgraph_node) : Prop :=
  forall n d, n ∈ nodes -> d ∈ node_deps n -> d ∈ script_ids nodes.

(** The size of every dependency array is a [size_t]. *)
Definition deps_fit (nodes : list depgraph_node) : Prop :=
  Forall (fun n => Z.of_nat (length (node_deps n)) < 2 ^ 64) nodes.

(** ** Lemmas *)

Lemma find_index_spec nodes id i :
  match depgraph_find_index nodes id i with
  | Some j => exists n, nodes !! (j - i)%nat = Some n /\ node_script_id n = id /\ (i <= j)%nat
  | None => id ∉ script_ids nodes
  end.
Proof.
  revert i; induction nodes as [|n nodes IH]; intros i; simpl; [apply not_elem_of_nil|].
  destruct (Z.eqb_spec (node_script_id n) id) as [E|E].
  - exists n. by rewrite Nat.sub_diag.
  - specialize (IH (S i)). destruct (depgraph_find_index nodes id (S i)) as [j|].
    + destruct IH as (m & Hm & Hid & Hle). exists m. replace (j - i)%nat with (S (j - S i)) by lia.
      split_and!; [done|done|lia].
    + rewrite elem_of_cons. intros [->|?]; done.
Qed.

Lemma missing_dep_spec nodes deps :
  match missing_dep nodes deps with
  | Some d => d ∈ deps /\ d ∉ script_ids nodes
  | None => forall d, d ∈ deps -> d ∈ script_ids nodes
  end.
Proof.
  induction deps as [|d deps IH]; simpl; [intros d Hd; by apply not_elem_of_nil in Hd|].
  pose proof (find_index_spec nodes d 0) as HF. destruct (depgraph_find_index nodes d 0) as [j|].
  - destruct (missing_dep nodes deps) as [e|].
    + destruct IH. split; [by right|done].
    + intros e [->|He]%elem_of_cons; [|auto]. destruct HF as (n & Hn & <- & _).
      apply list_elem_of_fmap. exists n. split; [done|]. by eapply list_elem_of_lookup_2.
  - split; [by left|done].
Qed.

Lemma first_missing_spec nodes todo i :
  match first_missing nodes todo i with
  | Some (k, d) => (i <= k)%nat /\ (exists n, todo !! (k - i)%nat = Some n /\ d ∈ node_deps n /\ d ∉ script_ids nodes) /\
      (forall n e, n ∈ take (k - i) todo -> e ∈ node_deps n -> e ∈ script_ids nodes)
  | None => forall n d, n ∈ todo -> d ∈ node_deps n -> d ∈ script_ids nodes
  end.
Proof.
  revert i; induction todo as [|n todo IH]; intros i; simpl.
  { intros n d Hn. by apply not_elem_of_nil in Hn. }
  pose proof (missing_dep_spec nodes (node_deps n)) as HM. destruct (missing_dep nodes (node_deps n)) as [d|].
  - rewrite Nat.sub_diag. split; [lia|]. split; [by exists n|]. intros m e Hm. by apply not_elem_of_nil in Hm.
  - specialize (IH (S i)). destruct (first_missing nodes todo (S i)) as [[k d]|].
    + destruct IH as (Hle & (m & Hm & Hd) & Hall). replace (k - i)%nat with (S (k - S i)) by lia.
      split; [lia|]. split; [by exists m|]. simpl. intros m' e [->|Hin]%elem_of_cons He; eauto.
    + intros m d [->|Hin]%elem_of_cons Hd; eauto.
Qed.

Lemma find_ready_spec placed in_degree i :
  length placed = length in_degree ->
  match find_ready placed in_degree i with
  | Some k => (i <= k)%nat /\ placed !! (k - i)%nat = Some false /\ in_degree !! (k - i)%nat = Some 0 /\
      (forall j, (j < k - i)%nat -> placed !! j = Some false -> in_degree !! j <> Some 0)
  | None => forall j, placed !! j = Some false -> in_degree !! j <> Some 0
  end.
Proof.
  revert in_degree i; induction placed as [|p placed IH]; intros [|d in_degree] i Hl; simpl; try done.
  destruct (negb p && (d =? 0)) eqn:E.
  - apply andb_prop in E as [->%negb_true_iff ->%Z.eqb_eq]. rewrite Nat.sub_diag. split_and!; try done. lia.
  - injection Hl as Hl. specialize (IH in_degree (S i) Hl).
    assert (H0 : p = false -> d <> 0) by (intros ->; simpl in E; by apply Z.eqb_neq).
    destruct (find_ready placed in_degree (S i)) as [k|].
    + destruct IH as (Hle & Hp & Hd & Hall). replace (k - i)%nat with (S (k - S i)) by lia.
      split_and!; [lia|done|done|]. intros [|j] Hj; simpl; [|apply Hall; lia].
      intros E1 E2. injection E1 as E1. injection E2 as E2. by apply H0.
    + intros [|j]; simpl; [|apply IH].
      intros E1 E2. injection E1 as E1. injection E2 as E2. by apply H0.
Qed.

(** How often [id] is declared. *)
Definition occurrences (id : Z) (deps : list Z) : Z := Z.of_nat (length (filter (eq id) deps)).

Lemma decrement_spec deps id d :
  occurrences id deps <= d < 2 ^ 64 -> decrement deps id d = d - occurrences id deps.
Proof.
  unfold occurrences, decrement. revert d; induction deps as [|e deps IH]; intros d Hd; [simpl; lia|].
  cbn [foldl]. destruct (Z.eqb_spec e id) as [->|Hne].
  - rewrite filter_cons_True in * by done. cbn [length] in *.
    unfold size_t_dec at 2. rewrite Z.mod_small by lia. rewrite IH by lia. lia.
  - rewrite filter_cons_False in * by congruence. by rewrite IH.
Qed.

Lemma decrement_all_lookup nodes placed in_degree id (i : nat) :
  length placed = length nodes -> length in_degree = length nodes ->
  length (decrement_all nodes placed in_degree id) = length nodes /\
  (forall (n : depgraph_node) (p : bool) (d : Z), nodes !! i = Some n -> placed !! i = Some p -> in_degree !! i = Some d ->
   decrement_all nodes placed in_degree id !! i =
   Some (if p then d else decrement (node_deps n) id d)).
Proof.
  revert placed in_degree i; induction nodes as [|n nodes IH]; intros [|p placed] [|d in_degree] i; try done.
  simpl. intros [= Hp] [= Hd]. destruct (IH placed in_degree (pred i) Hp Hd) as [Hl Hi]. split; [by rewrite Hl|].
  intros n' p' d'. destruct i as [|i]; simpl; [by intros [= <-] [= <-] [= <-]|]. apply Hi.
Qed.

(** ** The loop invariant *)

(** The identifiers of the nodes placed so far. *)
Definition placed_ids (nodes : list depgraph_node) (order : list nat) : list Z :=
  omap (fun i => node_script_id <$> nodes !! i) order.

(** Dependencies not placed yet, with their multiplicity. *)
Definition open_deps (nodes : list depgraph_node) (order : list nat) (n : depgraph_node) : list Z :=
  filter (fun d => d ∉ placed_ids nodes order) (node_deps n).

Record kahn_inv (nodes : list depgraph_node) (in_degree : list Z) (placed : list bool) (order : list nat) : Prop := {
  inv_placed_len : length placed = length nodes;
  inv_degree_len : length in_degree = length nodes;
  inv_range : Forall (fun i => (i < length nodes)%nat) order;
  inv_nodup : NoDup order;
  inv_placed : forall i : nat, (i < length nodes)%nat -> placed !! i = Some (bool_decide (i ∈ order));
  inv_degree : forall (i : nat) n, nodes !! i = Some n -> i ∉ order ->
    in_degree !! i = Some (Z.of_nat (length (open_deps nodes order n)));
  inv_before : forall (k i j : nat), order !! k = Some i -> depends nodes i j -> j ∈ take k order;
  inv_lowest : lowest_first nodes order
}.

Section Kahn.
Variable nodes : list depgraph_node.
Hypothesis unique : NoDup (script_ids nodes).
Hypothesis known : known_deps nodes.
Hypothesis fit : deps_fit nodes.

Lemma unique_index (i j : nat) ni nj :
  nodes !! i = Some ni -> nodes !! j = Some nj -> node_script_id ni = node_script_id nj -> i = j.
Proof.
  intros Hi Hj He. eapply (NoDup_lookup (script_ids nodes)); [done| |];
    unfold script_ids; rewrite list_lookup_fmap; [by rewrite Hi|]. rewrite Hj. simpl. by rewrite He.
Qed.

Lemma elem_of_placed_ids order d :
  d ∈ placed_ids nodes order <-> exists (j : nat) nj, j ∈ order /\ nodes !! j = Some nj /\ node_script_id nj = d.
Proof.
  unfold placed_ids. rewrite list_elem_of_omap. split.
  - intros (j & Hj & E). destruct (nodes !! j) as [nj|] eqn:En; [|done]. injection E as <-. by exists j, nj.
  - intros (j & nj & Hj & En & <-). exists j. by rewrite En.
Qed.

Lemma placed_ids_depends order (i j : nat) ni :
  nodes !! i = Some ni -> depends nodes i j -> (forall d, d ∈ node_deps ni -> d ∈ placed_ids nodes order) ->
  j ∈ order.
Proof.
  intros Hi (ni' & nj & Hi' & Hj & Hd) Hall. simplify_eq.
  apply Hall, elem_of_placed_ids in Hd as (j' & nj' & Hin & Hj' & He).
  by rewrite (unique_index j j' nj nj' Hj Hj' (eq_sym He)).
Qed.

(** A node with an open dependency depends on an unplaced node. *)
Lemma open_dep_unplaced order (i : nat) ni :
  nodes !! i = Some ni -> open_deps nodes order ni <> [] -> exists j, depends nodes i j /\ j ∉ order.
Proof.
  intros Hi Ho. destruct (open_deps nodes order ni) as [|d l] eqn:E; [done|].
  assert (d ∈ open_deps nodes order ni) as Hd by (rewrite E; left).
  apply list_elem_of_filter in Hd as [Hnp Hd].
  assert (d ∈ script_ids nodes) as Hk by (eapply known; [by eapply list_elem_of_lookup_2|done]).
  apply list_elem_of_fmap in Hk as (nj & -> & [j Hj]%list_elem_of_lookup_1).
  exists j. split; [by exists ni, nj|]. intros Hin. apply Hnp, elem_of_placed_ids. by exists j, nj.
Qed.

Lemma open_deps_snoc order (r : nat) nr n :
  nodes !! r = Some nr -> r ∉ order ->
  Z.of_nat (length (open_deps nodes (order ++ [r]) n)) =
  Z.of_nat (length (open_deps nodes order n)) - occurrences (node_script_id nr) (node_deps n).
Proof.
  intros Hr Hnr. unfold open_deps, occurrences.
  assert (Hids : forall d, d ∈ placed_ids nodes (order ++ [r]) <-> d ∈ placed_ids nodes order \/ d = node_script_id nr).
  { intros d. unfold placed_ids. rewrite omap_app, elem_of_app. simpl. rewrite Hr. simpl.
    by rewrite list_elem_of_singleton. }
  assert (Hfresh : node_script_id nr ∉ placed_ids nodes order).
  { intros (j & nj & Hj & Hnj & He)%elem_of_placed_ids. apply Hnr. by rewrite (unique_index r j nr nj). }
  induction (node_deps n) as [|d deps IH]; [done|].
  destruct (decide (node_script_id nr = d)) as [<-|Hne].
  - rewrite (filter_cons_False (fun d => d ∉ placed_ids nodes (order ++ [r]))) by (rewrite Hids; tauto).
    rewrite (filter_cons_True (fun d => d ∉ placed_ids nodes order)) by done.
    rewrite (filter_cons_True (eq (node_script_id nr))) by done. cbn [length]. lia.
  - rewrite (filter_cons_False (eq (node_script_id nr))) by done.
    destruct (decide (d ∈ placed_ids nodes order)) as [Hin|Hin].
    + rewrite (filter_cons_False (fun d => d ∉ placed_ids nodes (order ++ [r]))) by (rewrite Hids; tauto).
      by rewrite (filter_cons_False (fun d => d ∉ placed_ids nodes order)) by tauto.
    + rewrite (filter_cons_True (fun d => d ∉ placed_ids nodes (order ++ [r])))
        by (rewrite Hids; intros [?|?]; congruence).
      rewrite (filter_cons_True (fun d => d ∉ placed_ids nodes order)) by done. cbn [length]. lia.
Qed.

Lemma kahn_step in_degree placed order ready nr :
  kahn_inv nodes in_degree placed order -> nodes !! ready = Some nr ->
  placed !! ready = Some false -> in_degree !! ready = Some 0 ->
  (forall j, (j < ready)%nat -> placed !! j = Some false -> in_degree !! j <> Some 0) ->
  kahn_inv nodes (decrement_all nodes (<[ready := true]> placed) in_degree (node_script_id nr))
    (<[ready := true]> placed) (order ++ [ready]).
Proof.
  intros [Hpl Hdl Hrng Hnd Hp Hd Hb Hlow] Hr Hpr Hdr Hmin.
  assert (Hlt : (ready < length nodes)%nat) by (by eapply lookup_lt_Some).
  assert (Hnr : ready ∉ order).
  { rewrite Hp in Hpr by done. injection Hpr as Hpr. by apply bool_decide_eq_false in Hpr. }
  assert (Hlen : length (<[ready:=true]> placed) = length nodes) by (by rewrite length_insert).
  split.
  - done.
  - by apply (decrement_all_lookup nodes _ _ _ 0).
  - apply Forall_app. by repeat constructor.
  - apply NoDup_app. split; [done|]. split; [|apply NoDup_singleton]. intros x Hx ->%list_elem_of_singleton. done.
  - intros i Hi. destruct (decide (i = ready)) as [->|Hne].
    + rewrite list_lookup_insert_eq by lia. f_equal. symmetry. apply bool_decide_eq_true. set_solver.
    + rewrite list_lookup_insert_ne by done. rewrite Hp by done. f_equal. apply bool_decide_ext. set_solver.
  - intros i n Hn Hni. rewrite elem_of_app, list_elem_of_singleton in Hni.
    assert (Hi : (i < length nodes)%nat) by (by eapply lookup_lt_Some).
    destruct (decrement_all_lookup nodes (<[ready:=true]> placed) in_degree (node_script_id nr) i Hlen Hdl) as [_ HL].
    rewrite (HL n false (Z.of_nat (length (open_deps nodes order n)))); [|done| |apply Hd; [done|tauto]].
    + f_equal. rewrite (open_deps_snoc order ready nr n Hr Hnr). apply decrement_spec.
      pose proof (open_deps_snoc order ready nr n Hr Hnr) as HS. split; [lia|].
      pose proof (proj1 (Forall_lookup _ _) fit i n Hn) as HF. simpl in HF.
      assert (length (open_deps nodes order n) <= length (node_deps n))%nat by apply length_filter. lia.
    + rewrite list_lookup_insert_ne by (intros ->; tauto). rewrite Hp by done. f_equal.
      apply bool_decide_eq_false. tauto.
  - intros k i j Hk Hdep. apply lookup_app_Some in Hk as [Hk|[Hle Hk]].
    + rewrite take_app_le by (apply lookup_lt_Some in Hk; lia). by eapply Hb.
    + destruct (k - length order)%nat as [|m] eqn:Ek; [|by destruct m]. injection Hk as <-.
      rewrite take_app_le, take_ge by lia. eapply (placed_ids_depends order ready j nr); [done|done|].
      rewrite (Hd ready nr Hr Hnr) in Hdr. injection Hdr as Hz.
      intros d Hdin. destruct (decide (d ∈ placed_ids nodes order)) as [|Hno]; [done|]. exfalso.
      assert (d ∈ open_deps nodes order nr) as Hin by (by apply list_elem_of_filter).
      destruct (open_deps nodes order nr); [by apply not_elem_of_nil in Hin|done].
  - intros k i i' Hk Hlt' Hni. apply lookup_app_Some in Hk as [Hk|[Hle Hk]].
    + rewrite take_app_le in * by (apply lookup_lt_Some in Hk; lia). by eapply Hlow.
    + destruct (k - length order)%nat as [|m] eqn:Ek; [|by destruct m]. injection Hk as <-.
      rewrite take_app_le, take_ge in * by lia.
      assert (Hi' : (i' < length nodes)%nat) by lia.
      destruct (lookup_lt_is_Some_2 nodes i' Hi') as [n' Hn'].
      apply (open_dep_unplaced order i' n' Hn'). intros Hz.
      apply (Hmin i' Hlt'); [rewrite Hp by done; f_equal; by apply bool_decide_eq_false|].
      rewrite (Hd i' n' Hn' Hni), Hz. done.
Qed.

Lemma full_order in_degree placed order :
  kahn_inv nodes in_degree placed order -> length order = length nodes -> valid_order nodes order.
Proof.
  intros [_ _ Hrng Hnd _ _ Hb _] Hlen. split; [|exact Hb].
  apply submseteq_length_Permutation; [|rewrite length_seq; lia].
  apply NoDup_submseteq; [done|]. intros i Hi. apply elem_of_seq.
  rewrite Forall_forall in Hrng. specialize (Hrng i Hi). lia.
Qed.

(** A set of nodes that each wait for another one excludes every order. *)
Lemma stuck_no_order (flags : list bool) order :
  (exists i : nat, flags !! i = Some true) ->
  (forall i : nat, flags !! i = Some true -> (i < length nodes)%nat /\
     exists j, depends nodes i j /\ flags !! j = Some true) ->
  ~ valid_order nodes order.
Proof.
  intros [i0 Hi0] Hstep [Hperm Hord].
  assert (forall n (i : nat), flags !! i = Some true -> i ∉ take n order) as Hnone.
  { induction n as [|n IH]; intros i Hi Hin; [by apply not_elem_of_nil in Hin|].
    destruct (order !! n) as [x|] eqn:Ex.
    - rewrite (take_S_r _ _ _ Ex), elem_of_app, list_elem_of_singleton in Hin.
      destruct Hin as [Hin|Hin]; [by eapply IH|]. subst x.
      destruct (Hstep i Hi) as (_ & j & Hdep & Hj). apply (IH j Hj). by eapply Hord.
    - rewrite take_ge in Hin by (apply lookup_ge_None in Ex; lia).
      apply (IH i Hi). rewrite take_ge; [done|apply lookup_ge_None in Ex; lia]. }
  apply (Hnone (length order) i0 Hi0). rewrite take_ge by done.
  rewrite Hperm. apply elem_of_seq. pose proof (proj1 (Hstep i0 Hi0)). lia.
Qed.

(** What the algorithm answers when both allocations succeed. *)
Definition kahn_answer (r : toposort_result) : Prop :=
  match r with
  | DEPGRAPH_OK order => valid_order nodes order /\ lowest_first nodes order
  | DEPGRAPH_MISSING_DEPENDENCY _ _ => False
  | DEPGRAPH_CYCLE flags =>
      length flags = length nodes /\
      (exists i : nat, flags !! i = Some true) /\
      (forall i : nat, flags !! i = Some true -> (i < length nodes)%nat /\
         exists j, depends nodes i j /\ flags !! j = Some true) /\
      (forall order, ~ valid_order nodes order)
  end.

Lemma kahn_spec remaining in_degree placed order :
  kahn_inv nodes in_degree placed order -> (remaining + length order = length nodes)%nat ->
  kahn_answer (kahn remaining nodes in_degree placed order).
Proof.
  revert in_degree placed order; induction remaining as [|remaining IH]; intros in_degree placed order Hinv Hlen.
  { split; [by eapply full_order|by destruct Hinv]. }
  cbn [kahn]. pose proof Hinv as [Hpl Hdl Hrng Hnd Hp Hd Hb Hlow].
  pose proof (find_ready_spec placed in_degree 0 ltac:(congruence)) as HF.
  destruct (find_ready placed in_degree 0) as [ready|].
  - rewrite Nat.sub_0_r in HF. destruct HF as (_ & Hpr & Hdr & Hmin).
    destruct (lookup_lt_is_Some_2 nodes ready) as [nr Hr]; [rewrite <- Hpl; by eapply lookup_lt_Some|].
    rewrite Hr. simpl. apply IH; [by apply kahn_step|]. rewrite length_app. simpl. lia.
  - assert (Hflag : forall i, map negb placed !! i = Some true <-> (i < length nodes)%nat /\ i ∉ order).
    { intros i. rewrite list_lookup_fmap, fmap_Some. split.
      - intros (b & Hi & Hb'). assert ((i < length nodes)%nat) as Hi' by (rewrite <- Hpl; by eapply lookup_lt_Some).
        split; [done|]. rewrite Hp in Hi by done. injection Hi as <-. symmetry in Hb'.
        apply negb_true_iff in Hb'. by apply bool_decide_eq_false in Hb'.
      - intros [Hi Hni]. exists false. split; [|done]. rewrite Hp by done. f_equal. by apply bool_decide_eq_false. }
    assert (Hstep : forall i : nat, map negb placed !! i = Some true -> (i < length nodes)%nat /\
      exists j, depends nodes i j /\ map negb placed !! j = Some true).
    { intros i [Hi Hni]%Hflag. split; [done|]. destruct (lookup_lt_is_Some_2 nodes i Hi) as [ni Hn].
      destruct (open_dep_unplaced order i ni Hn) as (j & Hdep & Hj).
      - intros Hz. apply (HF i); [rewrite Hp by done; f_equal; by apply bool_decide_eq_false|].
        rewrite (Hd i ni Hn Hni), Hz. done.
      - exists j. split; [done|]. apply Hflag. split; [|done].
        destruct Hdep as (? & nj & _ & Hj' & _). by eapply lookup_lt_Some. }
    assert (Hex : exists i : nat, map negb placed !! i = Some true).
    { destruct (decide (Forall (fun i => i ∈ order) (seq 0 (length nodes)))) as [Hall|Hnot].
      - exfalso. assert (length (seq 0 (length nodes)) <= length order)%nat as HH
          by (apply submseteq_length, NoDup_submseteq; [apply NoDup_seq|]; by apply Forall_forall).
        rewrite length_seq in HH. lia.
      - apply not_Forall_Exists in Hnot; [|apply _]. apply Exists_exists in Hnot as (i & Hi & Hni).
        exists i. apply Hflag. apply elem_of_seq in Hi. split; [lia|done]. }
    split_and!; [by rewrite length_map, Hpl|done|done|].
    intros o. by apply (stuck_no_order (map negb placed)).
Qed.

Lemma kahn_init :
  kahn_inv nodes (map (fun n => Z.of_nat (length (node_deps n))) nodes) (replicate (length nodes) false) [].
Proof.
  split.
  - apply length_replicate.
  - apply length_map.
  - constructor.
  - constructor.
  - intros i Hi. rewrite lookup_replicate_2 by done. by rewrite bool_decide_eq_false_2 by apply not_elem_of_nil.
  - intros i n Hn _. rewrite list_lookup_fmap, Hn. simpl. do 3 f_equal. unfold open_deps.
    symmetry. apply filter_id_all. intros d _. apply not_elem_of_nil.
  - intros k i j Hk. by rewrite lookup_nil in Hk.
  - intros k i i' Hk. by rewrite lookup_nil in Hk.
Qed.
End Kahn.

(** The run order of the plugins.  For plugins with distinct ids: when
    the answer is an order, it lists every plugin once, each after everything
    it depends on, always the lowest possible index first; a missing
    dependency is reported exactly when there is one, and it is the first;
    when a cycle is reported and memory sufficed, every flagged plugin depends
    on a flagged one and no order exists at all.  So an order is found
    whenever there is one.  No memory is lost in any case. *)
Lemma toposort_spec nodes h :
  NoDup (script_ids nodes) -> deps_fit nodes ->
  let '(r, h') := depgraph_toposort nodes h in
  live h' = live h /\
  match r with
  | DEPGRAPH_MISSING_DEPENDENCY i d =>
      (exists n, nodes !! i = Some n /\ d ∈ node_deps n /\ d ∉ script_ids nodes) /\
      (forall n e, n ∈ take i nodes -> e ∈ node_deps n -> e ∈ script_ids nodes)
  | DEPGRAPH_OK order => known_deps nodes /\ valid_order nodes order /\ lowest_first nodes order
  | DEPGRAPH_CYCLE flags =>
      known_deps nodes /\
      (false ∈ oracle h \/
       (exists i : nat, flags !! i = Some true) /\
       (forall i : nat, flags !! i = Some true -> exists j, depends nodes i j /\ flags !! j = Some true) /\
       (forall order, ~ valid_order nodes order))
  end.
Proof.
  intros Hu Hfit. unfold depgraph_toposort. destruct (Nat.eqb_spec (length nodes) 0) as [E|E].
  { apply nil_length_inv in E as ->. split; [done|]. split; [intros n d Hn; by apply not_elem_of_nil in Hn|].
    split; [split; [done|]|]; intros k i j Hk; by rewrite lookup_nil in Hk. }
  pose proof (first_missing_spec nodes nodes 0) as HM. destruct (first_missing nodes nodes 0) as [[i d]|].
  { rewrite Nat.sub_0_r in HM. split; [done|]. by destruct HM as (_ & ? & ?). }
  malloc_case h ok1 h1 L1 O1 O1'. malloc_case h1 ok2 h2 L2 O2 O2'.
  destruct (ok1 && ok2) eqn:Eok; cbn [negb].
  - apply andb_prop in Eok as [-> ->].
    split; [unfold free_block; simpl; lia|].
    pose proof (kahn_spec nodes Hu HM Hfit (length nodes) _ _ [] (kahn_init nodes) (Nat.add_0_r _)) as HK.
    destruct (kahn _ _ _ _ _) as [order|? ?|flags]; simpl in HK; [done|done|].
    split; [done|]. right. destruct HK as (_ & ? & Hst & ?). split_and!; [done| |done].
    intros i Hi. by apply Hst.
  - split; [destruct ok1, ok2; simpl in *; try done; unfold free_block; simpl; lia|].
    split; [exact HM|]. left. destruct ok1; [|by apply O1]. destruct ok2; [done|]. apply O1'. by apply O2.
Qed.

Lemma toposort_oracle nodes h : false ∉ oracle h -> false ∉ oracle (snd (depgraph_toposort nodes h)).
Proof.
  intros Ho. unfold depgraph_toposort. destruct (Nat.eqb _ _); [done|]. destruct (first_missing _ _ _) as [[? ?]|]; [done|].
  destruct (malloc_ok h Ho) as (h1 & -> & _ & Ho1), (malloc_ok h1 Ho1) as (h2 & -> & _ & Ho2). exact Ho2.
Qed.

(** The three plugins of a small installation: the third depends on the
    second, the first on both. *)
Definition example_nodes : list depgraph_node :=
  [DepNode 10 [20; 30]; DepNode 20 []; DepNode 30 [20]].

Example example_order : depgraph_toposort example_nodes (Heap [] 0) = (DEPGRAPH_OK [1; 2; 0]%nat, Heap [] 0).
Proof. reflexivity. Qed.
