(* ===== verification/LuaFields.v ===== *)
(** * Tables of Lua ([src/src/plugin/field_utils.c])

    How the C functions a plugin calls read the fields of their table argument.
    Lua is third-party code: a table is what [lua_rawget], [lua_rawlen] and
    [lua_rawgeti] answer.  The locals of the C function and the allocator are
    the state of a small monad; [luaL_error] leaves it without a value.  The
    rules that follow count the blocks a computation allocates. *)

From S2P Require Import Prelude.

(** ** Lua values *)

(** A string may hold NUL bytes; [items] are the values at 1 to [lua_rawlen]. *)
Inductive lua_value :=
  | LNil
  | LInteger (i : Z)
  | LFloat (d : double)
  | LString (s : bytes)
  | LTable (items : list lua_value)
  | LOther
  | LBoolean (b : bool).

(** The argument of [register]: its raw fields. *)
Definition lua_fields := bytes -> lua_value.

Definition some_b {A} (o : option A) : bool := match o with Some _ => true | None => false end.

(** [cytadel_plugin_free_string_array]: the block of the array and those of
    its first [count] strings. *)
Definition free_string_array (arr : option (list bytes)) (count : nat) (h : heap) : heap :=
  match arr with
  | None => h
  | Some _ => free_block (Nat.iter count free_block h)
  end.

(** A float with an integer value that fits. *)
Definition double_integer (d : double) : option Z :=
  match d with
  | Dyadic m e =>
      let v := double_trunc d in
      if (m * 2 ^ Z.max 0 e =? v * 2 ^ Z.max 0 (- e)) && (- 2 ^ 63 <=? v) && (v <? 2 ^ 63) then Some v else None
  | _ => None
  end.

(** ** The monad *)

Definition M (St A : Type) : Type := St -> heap -> option A * St * heap.

Definition ret {St A} (a : A) : M St A := fun s h => (Some a, s, h).
Definition raise {St A} : M St A := fun s h => (None, s, h).
Definition bind {St A B} (m : M St A) (k : A -> M St B) : M St B := fun s h =>
  match m s h with
  | (Some a, s, h) => k a s h
  | (None, s, h) => (None, s, h)
  end.
Definition modify {St} (f : St -> St) : M St unit := fun s h => (Some tt, f s, h).
Definition get {St} : M St St := fun s h => (Some s, s, h).

Declare Scope lua_scope.
Delimit Scope lua_scope with lua.
Notation "x <- m ;; k" := (bind m (fun x => k)) (at level 100, m at next level, right associativity) : lua_scope.
Notation "m ;; k" := (bind m (fun _ => k)) (at level 100, right associativity) : lua_scope.
#[local] Open Scope lua_scope.

(** [malloc] or [calloc] of one block; an error when it fails. *)
Definition alloc {St} : M St unit := fun s h =>
  let '(ok, h) := malloc h in if ok then (Some tt, s, h) else (None, s, h).

Definition with_heap {St} (f : heap -> heap) : M St unit := fun s h => (Some tt, s, f h).


Section Fields.
Context {St : Type}.

(** ** Fields *)

(** [cytadel_plugin_strdup]: a C string ends at its first NUL. *)
Definition strdup (s : bytes) : M St bytes := alloc ;; ret (c_string s).

Definition required_string_impl (tbl : lua_fields) (field : string) (allow_empty : bool) : M St bytes :=
  match tbl (bs field) with
  | LString s => if negb allow_empty && Nat.eqb (length s) 0 then raise else strdup s
  | _ => raise
  end.

Definition field_required_string (tbl : lua_fields) (field : string) : M St bytes := required_string_impl tbl field false.

Definition field_required_string_allow_empty (tbl : lua_fields) (field : string) : M St bytes :=
  required_string_impl tbl field true.

Definition field_optional_string (tbl : lua_fields) (field : string) : M St (option bytes) :=
  match tbl (bs field) with
  | LNil => ret None
  | LString s => copy <- strdup s ;; ret (Some copy)
  | _ => raise
  end.

(** What [lua_tointegerx] makes of a string. *)
Variable string_to_integer : bytes -> option Z.

(** [lua_tointegerx] *)
Definition to_integer (v : lua_value) : option Z :=
  match v with
  | LInteger i => Some i
  | LFloat d => double_integer d
  | LString s => string_to_integer s
  | _ => None
  end.

Definition field_required_integer (tbl : lua_fields) (field : string) : M St Z :=
  match to_integer (tbl (bs field)) with Some v => ret v | None => raise end.

Definition field_optional_integer (tbl : lua_fields) (field : string) (default_value : Z) : M St Z :=
  match tbl (bs field) with
  | LNil => ret default_value
  | v => match to_integer v with Some v => ret v | None => raise end
  end.

(** The copy loop of [cytadel_plugin_field_optional_string_array]; [copied]
    are the strings already there. *)
Fixpoint string_loop (items : list lua_value) (copied : list bytes) : M St (list bytes) :=
  match items with
  | [] => ret copied
  | LString s :: items => copy <- strdup s ;; string_loop items (copied ++ [copy])
  | _ :: _ => with_heap (free_string_array (Some copied) (length copied)) ;; raise
  end.

(** The array, NULL when it is empty, and [*out_count]. *)
Definition field_optional_string_array (tbl : lua_fields) (field : string) (set_count : nat -> M St unit) :
    M St (option (list bytes)) :=
  set_count 0%nat ;;
  match tbl (bs field) with
  | LNil => ret None
  | LTable [] => ret None
  | LTable items => alloc ;; arr <- string_loop items [] ;; set_count (length items) ;; ret (Some arr)
  | _ => raise
  end.

Fixpoint integer_loop (items : list lua_value) (copied : list Z) : M St (list Z) :=
  match items with
  | [] => ret copied
  | v :: items =>
      match to_integer v with
      | Some v => integer_loop items (copied ++ [v])
      | None => with_heap free_block ;; raise
      end
  end.

Definition field_optional_integer_array (tbl : lua_fields) (field : string) (set_count : nat -> M St unit) :
    M St (option (list Z)) :=
  set_count 0%nat ;;
  match tbl (bs field) with
  | LNil => ret None
  | LTable [] => ret None
  | LTable items => alloc ;; arr <- integer_loop items [] ;; set_count (length items) ;; ret (Some arr)
  | _ => raise
  end.

End Fields.

(** ** Blocks *)

Definition array_blocks (arr : option (list bytes)) : Z :=
  match arr with None => 0 | Some items => 1 + Z.of_nat (length items) end.

Definition one_block {A} (o : option A) : Z := if some_b o then 1 else 0.

(** When no allocation fails, [h'] has [d] more blocks than [h]. *)
Definition grows (h h' : heap) (d : Z) : Prop :=
  false ∉ oracle h -> false ∉ oracle h' /\ live h' = live h + d.

Lemma grows_refl h : grows h h 0.
Proof. intros Ho. split; [done|lia]. Qed.

Lemma grows_trans h h' h'' d d' e : grows h h' d -> grows h' h'' d' -> e = d + d' -> grows h h'' e.
Proof. intros H1 H2 -> Ho. destruct (H1 Ho) as [Ho' E1]. destruct (H2 Ho') as [? E2]. split; [done|lia]. Qed.

Lemma grows_eq h h' d e : grows h h' d -> d = e -> grows h h' e.
Proof. by intros ? <-. Qed.

Lemma grows_malloc h h' : malloc h = (true, h') -> grows h h' 1.
Proof.
  intros E Ho. split; [|apply (malloc_live _ _ _ E)]. unfold malloc in E.
  destruct (oracle h) as [|[] o]; inversion E; subst; cbn [oracle]; [done|]. by intros ?%(list_elem_of_further _ true).
Qed.

Lemma malloc_false h h' : malloc h = (false, h') -> forall d, grows h h' d.
Proof.
  intros E d Ho. unfold malloc in E. destruct (oracle h) as [|b o]; [done|]. destruct b; [done|]. destruct Ho. by left.
Qed.

Lemma live_iter_free n h : live (Nat.iter n free_block h) = live h - Z.of_nat n /\ oracle (Nat.iter n free_block h) = oracle h.
Proof.
  induction n as [|n [IH1 IH2]]; [split; [cbn; lia|done]|].
  change (Nat.iter (S n) free_block h) with (free_block (Nat.iter n free_block h)). cbn [free_block live oracle].
  split; [lia|done].
Qed.

Lemma grows_free_string_array arr n h :
  n = length (default [] arr) -> grows h (free_string_array arr n h) (- array_blocks arr).
Proof.
  intros -> Ho. destruct arr as [arr|]; cbn [free_string_array array_blocks default]; [|split; [done|lia]].
  destruct (live_iter_free (length arr) h) as [H1 H2]. cbn [free_block oracle live]. unfold id. rewrite H1, H2. split; [done|lia].
Qed.

Lemma grows_free_if {A} (o : option A) h : grows h (free_if (some_b o) h) (- one_block o).
Proof. intros Ho. destruct o; cbn [some_b one_block free_if free_block oracle live]; split; try done; lia. Qed.


Section Rules.
Context {St : Type}.

(** ** Reasoning in the monad *)

(** What holds of the value ([None] for an error), the header and the heap a
    computation ends with. *)
Definition wp {A} (m : M St A) (hdr : St) (h : heap) (Q : option A -> St -> heap -> Prop) : Prop :=
  let '(o, hdr', h') := m hdr h in Q o hdr' h'.

Lemma wp_bind {A B} (m : M St A) (f : A -> M St B) hdr h Q :
  wp m hdr h (fun o hdr' h' => match o with Some a => wp (f a) hdr' h' Q | None => Q None hdr' h' end) ->
  wp (bind m f) hdr h Q.
Proof. unfold wp, bind. by destruct (m hdr h) as [[[a|] hdr'] h']. Qed.

Lemma wp_ret {A} (a : A) hdr h (Q : option A -> St -> heap -> Prop) : Q (Some a) hdr h -> wp (ret a) hdr h Q.
Proof. done. Qed.

Lemma wp_raise {A} hdr h (Q : option A -> St -> heap -> Prop) : Q None hdr h -> wp raise hdr h Q.
Proof. done. Qed.

Lemma wp_modify f hdr h (Q : option unit -> St -> heap -> Prop) : Q (Some tt) (f hdr) h -> wp (modify f) hdr h Q.
Proof. done. Qed.

Lemma wp_get hdr h (Q : option St -> St -> heap -> Prop) : Q (Some hdr) hdr h -> wp get hdr h Q.
Proof. done. Qed.

Lemma wp_with_heap f hdr h (Q : option unit -> St -> heap -> Prop) : Q (Some tt) hdr (f h) -> wp (with_heap f) hdr h Q.
Proof. done. Qed.

(** A computation that leaves the header alone and, when it ends well, has
    allocated [d] blocks. *)
Definition wp_grow {A} (m : M St A) (d : A -> Z) (P : A -> Prop) : Prop :=
  forall hdr h Q,
    (forall h', grows h h' 0 -> Q None hdr h') ->
    (forall a h', P a -> grows h h' (d a) -> Q (Some a) hdr h') ->
    wp m hdr h Q.

(** An allocation that fails breaks every hypothesis that none does. *)
Lemma wp_alloc hdr h (Q : option unit -> St -> heap -> Prop) :
  (forall h', (forall d, grows h h' d) -> Q None hdr h') -> (forall h', grows h h' 1 -> Q (Some tt) hdr h') ->
  wp alloc hdr h Q.
Proof.
  intros HN HS. unfold wp, alloc. destruct (malloc h) as [[] h'] eqn:E.
  - by apply HS, grows_malloc.
  - apply HN. by apply malloc_false.
Qed.

Lemma wp_strdup s hdr h (Q : option bytes -> St -> heap -> Prop) :
  (forall h', (forall d, grows h h' d) -> Q None hdr h') ->
  (forall h', grows h h' 1 -> Q (Some (c_string s)) hdr h') ->
  wp (strdup s) hdr h Q.
Proof. intros HN HS. apply wp_bind, wp_alloc; [exact HN|]. intros h' Hg. by apply wp_ret, HS. Qed.

Lemma grow_ret {A} (a : A) : wp_grow (ret a) (fun _ => 0) (fun b => b = a).
Proof. intros hdr h Q _ HS. apply wp_ret, HS; [done|apply grows_refl]. Qed.

Lemma grow_raise {A} d P : wp_grow (@raise St A) d P.
Proof. intros hdr h Q HN _. apply wp_raise, HN, grows_refl. Qed.

Lemma grow_mono {A} (m : M St A) (d d' : A -> Z) (P P' : A -> Prop) :
  wp_grow m d P -> (forall a, P a -> P' a /\ d a = d' a) -> wp_grow m d' P'.
Proof.
  intros Hm HP hdr h Q HN HS. apply Hm; [exact HN|]. intros a h' Ha Hg. destruct (HP a Ha) as [Ha' Hd].
  apply HS; [done|]. by rewrite <- Hd.
Qed.

Lemma grow_strdup s : wp_grow (strdup s) (fun _ => 1) (fun _ => True).
Proof. intros hdr h Q HN HS. apply wp_strdup; intros h' H'; [by apply HN|by apply HS]. Qed.

Lemma grow_required_string tbl field : wp_grow (field_required_string tbl field) (fun _ => 1) (fun _ => True).
Proof.
  unfold field_required_string, required_string_impl. destruct (tbl _); try apply grow_raise.
  destruct (_ && _); [apply grow_raise|apply grow_strdup].
Qed.

Lemma grow_optional_string tbl field : wp_grow (field_optional_string tbl field) one_block (fun _ => True).
Proof.
  unfold field_optional_string. destruct (tbl _); try apply grow_raise.
  - apply (grow_mono _ _ _ _ _ (grow_ret None)). by intros ? ->.
  - intros hdr h Q HN HS. apply wp_bind, grow_strdup; [exact HN|]. intros c h' _ Hg. apply wp_ret. by apply HS.
Qed.

Lemma wp_string_loop items copied h0 hdr h (Q : option (list bytes) -> St -> heap -> Prop) :
  grows h0 h (1 + Z.of_nat (length copied)) ->
  (forall h', grows h0 h' 0 -> Q None hdr h') ->
  (forall arr h', length arr = (length copied + length items)%nat -> grows h0 h' (array_blocks (Some arr)) ->
     Q (Some arr) hdr h') ->
  wp (string_loop items copied) hdr h Q.
Proof.
  revert copied h; induction items as [|v items IH]; intros copied h Hg HN HS; cbn [string_loop].
  - apply wp_ret, HS; [cbn; lia|done].
  - destruct v.
    4: { apply wp_bind, wp_strdup.
      + intros h' H'. apply HN. eapply grows_trans; [exact Hg|apply (H' (-1 - Z.of_nat (length copied)))|lia].
      + intros h' H'. apply IH; [|done|].
        * eapply grows_trans; [exact Hg|exact H'|rewrite length_app; cbn; lia].
        * intros arr h'' Hl. apply HS. rewrite Hl, length_app. cbn. lia. }
    all: apply wp_bind, wp_with_heap, wp_raise, HN; eapply grows_trans;
      [exact Hg|by apply grows_free_string_array|cbn; lia].
Qed.

(** An array field: its count is that of the array. *)
Definition array_rule {A} (m : (nat -> M St unit) -> M St (option (list A))) (d : option (list A) -> Z) : Prop :=
  forall set_count hdr h Q,
    (forall n m hdr, set_count n (set_count m hdr) = set_count n hdr) ->
    (forall h', grows h h' 0 -> Q None (set_count 0%nat hdr) h') ->
    (forall arr h', grows h h' (d arr) -> Q (Some arr) (set_count (length (default [] arr)) hdr) h') ->
    wp (m (fun n => modify (set_count n))) hdr h Q.

Lemma wp_string_array tbl field : array_rule (field_optional_string_array tbl field) array_blocks.
Proof.
  intros set_count hdr h Q Hset HN HS. unfold field_optional_string_array. apply wp_bind, wp_modify.
  destruct (tbl _) as [| | | |items| |]; try (apply wp_raise, HN, grows_refl); [apply wp_ret, (HS None), grows_refl|].
  destruct items as [|v items]; [apply wp_ret, (HS None), grows_refl|].
  apply wp_bind, wp_alloc; [intros h' H'; by apply HN|]. intros h' H'.
  apply wp_bind, (wp_string_loop _ _ h); [exact H'|intros ? ?; by apply HN|].
  intros arr h'' Hl Hg. apply wp_bind, wp_modify, wp_ret. cbn [length plus] in Hl. cbn [length]. rewrite <- Hl, Hset.
    by apply (HS (Some arr)).
Qed.


Section Integers.
Variable string_to_integer : bytes -> option Z.

Lemma grow_required_integer tbl field :
  wp_grow (field_required_integer string_to_integer tbl field) (fun _ => 0) (fun _ => True).
Proof.
  unfold field_required_integer. destruct (to_integer _ _); [|apply grow_raise].
  by apply (grow_mono _ _ _ _ _ (grow_ret _)).
Qed.

Lemma wp_integer_loop items copied hdr h (Q : option (list Z) -> St -> heap -> Prop) :
  (forall h', grows h h' (-1) -> Q None hdr h') ->
  (forall arr, length arr = (length copied + length items)%nat -> Q (Some arr) hdr h) ->
  wp (integer_loop string_to_integer items copied) hdr h Q.
Proof.
  intros HN. revert copied; induction items as [|v items IH]; intros copied HS; cbn [integer_loop].
  - apply wp_ret, HS. cbn. lia.
  - destruct (to_integer _ v).
    + apply IH. intros arr Hl. apply HS. rewrite Hl, length_app. cbn. lia.
    + apply wp_bind, wp_with_heap, wp_raise, HN. intros Ho. cbn [free_block oracle live]. split; [done|lia].
Qed.

Lemma wp_integer_array tbl field : array_rule (field_optional_integer_array string_to_integer tbl field) one_block.
Proof.
  intros set_count hdr h Q Hset HN HS. unfold field_optional_integer_array. apply wp_bind, wp_modify.
  destruct (tbl _) as [| | | |items| |]; try (apply wp_raise, HN, grows_refl); [apply wp_ret, (HS None), grows_refl|].
  destruct items as [|v items]; [apply wp_ret, (HS None), grows_refl|].
  apply wp_bind, wp_alloc; [intros h' H'; by apply HN|]. intros h' H'.
  apply wp_bind, wp_integer_loop.
  - intros h'' H''. apply HN. by eapply grows_trans.
  - intros arr Hl. apply wp_bind, wp_modify, wp_ret. cbn [length plus] in Hl. cbn [length]. rewrite <- Hl, Hset.
    by apply (HS (Some arr)).
Qed.

End Integers.
End Rules.

(** ** Independence of the heap

    While no allocation fails, neither the value nor the header depends on the
    heap. *)

Create HintDb lua.

Section HeapFree.
Context {St : Type}.

Definition heap_free {A} (m : M St A) : Prop := forall hdr h1 h2, false ∉ oracle h1 -> false ∉ oracle h2 ->
  let '(o1, hdr1, h1') := m hdr h1 in
  let '(o2, hdr2, h2') := m hdr h2 in
  o1 = o2 /\ hdr1 = hdr2 /\ false ∉ oracle h1' /\ false ∉ oracle h2'.

Lemma free_ret {A} (a : A) : heap_free (ret a).
Proof. by intros hdr h1 h2 H1 H2. Qed.
Lemma free_raise {A} : heap_free (@raise St A).
Proof. by intros hdr h1 h2 H1 H2. Qed.
Lemma free_modify f : heap_free (modify f).
Proof. by intros hdr h1 h2 H1 H2. Qed.
Lemma free_get : heap_free get.
Proof. by intros hdr h1 h2 H1 H2. Qed.

Lemma free_with_heap f : (forall h, oracle (f h) = oracle h) -> heap_free (with_heap f).
Proof. intros Hf hdr h1 h2 H1 H2. cbn. by rewrite !Hf. Qed.

Lemma free_bind {A B} (m : M St A) (k : A -> M St B) : heap_free m -> (forall a, heap_free (k a)) -> heap_free (bind m k).
Proof.
  intros Hm Hk hdr h1 h2 H1 H2. unfold bind. specialize (Hm hdr h1 h2 H1 H2).
  destruct (m hdr h1) as [[o1 hdr1] h1'], (m hdr h2) as [[o2 hdr2] h2']. destruct Hm as (<- & <- & H1' & H2').
  destruct o1 as [a|]; [by apply Hk|done].
Qed.

Lemma free_alloc : heap_free alloc.
Proof.
  intros hdr h1 h2 H1 H2. unfold alloc. destruct (malloc_ok h1 H1) as (h1' & -> & _ & ?), (malloc_ok h2 H2) as (h2' & -> & _ & ?).
  done.
Qed.

#[local] Hint Resolve free_ret free_raise free_modify free_get free_bind free_alloc : lua.

Lemma oracle_free_string_array arr n h : oracle (free_string_array arr n h) = oracle h.
Proof. destruct arr; [|done]. cbn [free_string_array free_block oracle]. apply live_iter_free. Qed.


Variable string_to_integer : bytes -> option Z.

Lemma free_strdup s : heap_free (strdup s).
Proof. unfold strdup. auto with lua. Qed.
#[local] Hint Resolve free_strdup : lua.

Lemma free_string_loop items copied : heap_free (string_loop items copied).
Proof.
  revert copied; induction items as [|v items IH]; intros copied; cbn [string_loop]; [auto with lua|].
  destruct v; apply free_bind; auto with lua; intros; auto with lua; apply free_with_heap, oracle_free_string_array.
Qed.

Lemma free_integer_loop items copied : heap_free (integer_loop string_to_integer items copied).
Proof.
  revert copied; induction items as [|v items IH]; intros copied; cbn [integer_loop]; [auto with lua|].
  destruct (to_integer _ v); [apply IH|]. apply free_bind; [by apply free_with_heap|auto with lua].
Qed.
#[local] Hint Resolve free_string_loop free_integer_loop : lua.

End HeapFree.

#[export] Hint Resolve free_ret free_raise free_modify free_get free_bind free_alloc free_strdup free_string_loop
  free_integer_loop : lua.

Ltac free_step :=
  first
  [ apply free_bind; intros
  | by auto with lua
  | match goal with |- heap_free (match ?x with _ => _ end) => destruct x end
  | match goal with |- heap_free (if ?b then _ else _) => destruct b end ].

(** Joins two steps of the heap. *)
Ltac merge_grows :=
  match goal with H1 : grows ?a ?b _, H2 : grows ?b ?c _ |- _ => pose proof (grows_trans _ _ _ _ _ _ H1 H2 eq_refl); clear H1 H2 end.

(** A table from its fields. *)
Definition table (fields : list (string * lua_value)) : lua_fields := fun key =>
  match List.find (fun e => bool_decide (key = bs e.1)) fields with Some e => e.2 | None => LNil end.

Definition no_string (_ : bytes) : option Z := None.

