(* ===== verification/Plugin.v ===== *)
(** * Plugin headers ([src/src/plugin/register.c], [plugin_header.c], [loader.c])

    What [register{...}] captures from the table a plugin passes to it.  A chunk
    is the list of the tables it calls [register] with (an error of [register]
    may be caught by the chunk's own [pcall]), whether the chunk then ends
    without an error, and whether it defines [run].  The state of the monad of
    [LuaFields] is the header under construction. *)

From S2P Require Import Prelude CveId LuaFields.
#[local] Open Scope lua_scope.

(** ** The header *)

Inductive category := ACT_SETTINGS | ACT_GATHER_INFO.

(** [cytadel_plugin_header_t]; a pointer that may be NULL is an [option]. *)
Record plugin_header := Header {
  script_id : Z;
  script_name : option bytes;
  script_version : option bytes;
  family : option bytes;
  hdr_category : category;
  dependencies : option (list Z);
  dependency_count : nat;
  required_keys : option (list bytes);
  required_key_count : nat;
  wildcard_index : option nat;
  cve : option (list bytes);
  cve_count : nat;
  cvss_vector : option bytes;
  risk_factor : Z;
  hdr_description : option bytes;
  solution : option bytes;
  source_path : option bytes;
  captured : bool
}.

(** [memset(hdr, 0, sizeof)] *)
Definition zero_header : plugin_header :=
  Header 0 None None None ACT_SETTINGS None 0 None 0 (Some 0%nat) None 0 None 0 None None None false.

(** ** Setters: one field of the header *)

Definition set_script_id v h := Header v (script_name h) (script_version h) (family h) (hdr_category h) (dependencies h) (dependency_count h) (required_keys h) (required_key_count h) (wildcard_index h) (cve h) (cve_count h) (cvss_vector h) (risk_factor h) (hdr_description h) (solution h) (source_path h) (captured h).
Definition set_script_name v h := Header (script_id h) v (script_version h) (family h) (hdr_category h) (dependencies h) (dependency_count h) (required_keys h) (required_key_count h) (wildcard_index h) (cve h) (cve_count h) (cvss_vector h) (risk_factor h) (hdr_description h) (solution h) (source_path h) (captured h).
Definition set_script_version v h := Header (script_id h) (script_name h) v (family h) (hdr_category h) (dependencies h) (dependency_count h) (required_keys h) (required_key_count h) (wildcard_index h) (cve h) (cve_count h) (cvss_vector h) (risk_factor h) (hdr_description h) (solution h) (source_path h) (captured h).
Definition set_family v h := Header (script_id h) (script_name h) (script_version h) v (hdr_category h) (dependencies h) (dependency_count h) (required_keys h) (required_key_count h) (wildcard_index h) (cve h) (cve_count h) (cvss_vector h) (risk_factor h) (hdr_description h) (solution h) (source_path h) (captured h).
Definition set_category v h := Header (script_id h) (script_name h) (script_version h) (family h) v (dependencies h) (dependency_count h) (required_keys h) (required_key_count h) (wildcard_index h) (cve h) (cve_count h) (cvss_vector h) (risk_factor h) (hdr_description h) (solution h) (source_path h) (captured h).
Definition set_dependencies v h := Header (script_id h) (script_name h) (script_version h) (family h) (hdr_category h) v (dependency_count h) (required_keys h) (required_key_count h) (wildcard_index h) (cve h) (cve_count h) (cvss_vector h) (risk_factor h) (hdr_description h) (solution h) (source_path h) (captured h).
Definition set_dependency_count v h := Header (script_id h) (script_name h) (script_version h) (family h) (hdr_category h) (dependencies h) v (required_keys h) (required_key_count h) (wildcard_index h) (cve h) (cve_count h) (cvss_vector h) (risk_factor h) (hdr_description h) (solution h) (source_path h) (captured h).
Definition set_required_keys v h := Header (script_id h) (script_name h) (script_version h) (family h) (hdr_category h) (dependencies h) (dependency_count h) v (required_key_count h) (wildcard_index h) (cve h) (cve_count h) (cvss_vector h) (risk_factor h) (hdr_description h) (solution h) (source_path h) (captured h).
Definition set_required_key_count v h := Header (script_id h) (script_name h) (script_version h) (family h) (hdr_category h) (dependencies h) (dependency_count h) (required_keys h) v (wildcard_index h) (cve h) (cve_count h) (cvss_vector h) (risk_factor h) (hdr_description h) (solution h) (source_path h) (captured h).
Definition set_wildcard_index v h := Header (script_id h) (script_name h) (script_version h) (family h) (hdr_category h) (dependencies h) (dependency_count h) (required_keys h) (required_key_count h) v (cve h) (cve_count h) (cvss_vector h) (risk_factor h) (hdr_description h) (solution h) (source_path h) (captured h).
Definition set_cve v h := Header (script_id h) (script_name h) (script_version h) (family h) (hdr_category h) (dependencies h) (dependency_count h) (required_keys h) (required_key_count h) (wildcard_index h) v (cve_count h) (cvss_vector h) (risk_factor h) (hdr_description h) (solution h) (source_path h) (captured h).
Definition set_cve_count v h := Header (script_id h) (script_name h) (script_version h) (family h) (hdr_category h) (dependencies h) (dependency_count h) (required_keys h) (required_key_count h) (wildcard_index h) (cve h) v (cvss_vector h) (risk_factor h) (hdr_description h) (solution h) (source_path h) (captured h).
Definition set_cvss_vector v h := Header (script_id h) (script_name h) (script_version h) (family h) (hdr_category h) (dependencies h) (dependency_count h) (required_keys h) (required_key_count h) (wildcard_index h) (cve h) (cve_count h) v (risk_factor h) (hdr_description h) (solution h) (source_path h) (captured h).
Definition set_risk_factor v h := Header (script_id h) (script_name h) (script_version h) (family h) (hdr_category h) (dependencies h) (dependency_count h) (required_keys h) (required_key_count h) (wildcard_index h) (cve h) (cve_count h) (cvss_vector h) v (hdr_description h) (solution h) (source_path h) (captured h).
Definition set_description v h := Header (script_id h) (script_name h) (script_version h) (family h) (hdr_category h) (dependencies h) (dependency_count h) (required_keys h) (required_key_count h) (wildcard_index h) (cve h) (cve_count h) (cvss_vector h) (risk_factor h) v (solution h) (source_path h) (captured h).
Definition set_solution v h := Header (script_id h) (script_name h) (script_version h) (family h) (hdr_category h) (dependencies h) (dependency_count h) (required_keys h) (required_key_count h) (wildcard_index h) (cve h) (cve_count h) (cvss_vector h) (risk_factor h) (hdr_description h) v (source_path h) (captured h).
Definition set_source_path v h := Header (script_id h) (script_name h) (script_version h) (family h) (hdr_category h) (dependencies h) (dependency_count h) (required_keys h) (required_key_count h) (wildcard_index h) (cve h) (cve_count h) (cvss_vector h) (risk_factor h) (hdr_description h) (solution h) v (captured h).
Definition set_captured v h := Header (script_id h) (script_name h) (script_version h) (family h) (hdr_category h) (dependencies h) (dependency_count h) (required_keys h) (required_key_count h) (wildcard_index h) (cve h) (cve_count h) (cvss_vector h) (risk_factor h) (hdr_description h) (solution h) (source_path h) v.
(** [cytadel_plugin_header_free] *)
Definition header_free (hdr : plugin_header) (h : heap) : plugin_header * heap :=
  let h := free_if (some_b (script_name hdr)) h in
  let h := free_if (some_b (script_version hdr)) h in
  let h := free_if (some_b (family hdr)) h in
  let h := free_if (some_b (dependencies hdr)) h in
  let h := free_string_array (required_keys hdr) (required_key_count hdr) h in
  let h := free_string_array (cve hdr) (cve_count hdr) h in
  let h := free_if (some_b (cvss_vector hdr)) h in
  let h := free_if (some_b (hdr_description hdr)) h in
  let h := free_if (some_b (solution hdr)) h in
  let h := free_if (some_b (source_path hdr)) h in
  (zero_header, h).

(** [cytadel_plugin_severity_from_name] *)
Definition severity_table : list (string * Z) :=
  [("Info", 0); ("Low", 1); ("Medium", 2); ("High", 3); ("Critical", 4)]%string.

Definition severity_from_name (name : bytes) : option Z :=
  match List.find (fun e => bool_decide (name = bs e.1)) severity_table with
  | Some e => Some e.2
  | None => None
  end.

(** ** [required_keys] *)

Definition svc_char (c : byte) : bool :=
  ((65 <=? c) && (c <=? 90)) || ((97 <=? c) && (c <=? 122)) || ((48 <=? c) && (c <=? 57)) ||
  (c =? 95) || (c =? 46) || (c =? 45).

(** [NoWildcard]: an exact key; [Malformed]: [*out_malformed]. *)
Inductive wildcard := NoWildcard | Malformed | Wildcard (svc_len : nat).

(** [cytadel_plugin_match_service_wildcard] *)
Definition match_service_wildcard (key : bytes) : wildcard :=
  let prefix := bs "Services/" in
  let key_len := length key in
  if negb (existsb (fun c => c =? 42) key) then NoWildcard else
  if Nat.leb key_len 9 || negb (bool_decide (take 9 key = prefix)) then Malformed else
  if negb (bool_decide (key !! (key_len - 1)%nat = Some 42)) || Nat.ltb key_len 12 ||
     negb (bool_decide (key !! (key_len - 2)%nat = Some 47)) then Malformed else
  let svc_len := (key_len - 9 - 2)%nat in
  if negb (forallb svc_char (take svc_len (drop 9 key))) then Malformed else
  if Nat.eqb svc_len 0 then Malformed else Wildcard svc_len.

(** The loop of [cytadel_plugin_validate_required_keys]: the index of the
    wildcard, [None] for an error. *)
Fixpoint validate_keys (keys : list bytes) (i : nat) (wildcard_index : option nat) : option (option nat) :=
  match keys with
  | [] => Some wildcard_index
  | key :: keys =>
      match key with
      | [] => None
      | _ =>
          match match_service_wildcard key with
          | Malformed => None
          | Wildcard _ =>
              match wildcard_index with Some _ => None | None => validate_keys keys (S i) (Some i) end
          | NoWildcard => validate_keys keys (S i) wildcard_index
          end
      end
  end.

(** [cytadel_plugin_validate_required_keys] *)
Definition validate_required_keys : M plugin_header unit :=
  modify (set_wildcard_index None) ;;
  hdr <- get ;;
  match validate_keys (take (required_key_count hdr) (default [] (required_keys hdr))) 0 None with
  | None => raise
  | Some w => modify (set_wildcard_index w)
  end.

Section Registration.
Variable string_to_integer : bytes -> option Z.

(** [cytadel_plugin_register_capture] of a table. *)
Definition register_capture (tbl : lua_fields) : M plugin_header unit :=
  hdr <- get ;;
  (if captured hdr then raise else ret tt) ;;
  script_id <- field_required_integer string_to_integer tbl "script_id" ;; modify (set_script_id script_id) ;;
  script_name <- field_required_string tbl "script_name" ;; modify (set_script_name (Some script_name)) ;;
  script_version <- field_required_string tbl "script_version" ;; modify (set_script_version (Some script_version)) ;;
  family <- field_required_string tbl "family" ;; modify (set_family (Some family)) ;;
  match tbl (bs "category") with
  | LString s =>
      if bool_decide (c_string s = bs "ACT_SETTINGS") then modify (set_category ACT_SETTINGS)
      else if bool_decide (c_string s = bs "ACT_GATHER_INFO") then modify (set_category ACT_GATHER_INFO)
      else raise
  | _ => raise
  end ;;
  deps <- field_optional_integer_array string_to_integer tbl "dependencies" (fun n => modify (set_dependency_count n)) ;;
  modify (set_dependencies deps) ;;
  keys <- field_optional_string_array tbl "required_keys" (fun n => modify (set_required_key_count n)) ;;
  modify (set_required_keys keys) ;;
  validate_required_keys ;;
  cve <- field_optional_string_array tbl "cve" (fun n => modify (set_cve_count n)) ;; modify (set_cve cve) ;;
  cvss_vector <- field_optional_string tbl "cvss_vector" ;; modify (set_cvss_vector cvss_vector) ;;
  match tbl (bs "risk_factor") with
  | LString s =>
      match severity_from_name (c_string s) with
      | Some severity => modify (set_risk_factor severity)
      | None => raise
      end
  | _ => raise
  end ;;
  description <- field_required_string tbl "description" ;; modify (set_description (Some description)) ;;
  solution <- field_required_string tbl "solution" ;; modify (set_solution (Some solution)) ;;
  modify (set_captured true).

(** ** One file ([loader.c]) *)

(** What a chunk does: the tables it calls [register] with, whether it ends
    without an error, and whether it defines [run]. *)
Record lua_chunk := Chunk { register_calls : list lua_fields; chunk_ok : bool; has_run : bool }.

Fixpoint run_calls (calls : list lua_fields) (hdr : plugin_header) (h : heap) : plugin_header * heap :=
  match calls with
  | [] => (hdr, h)
  | tbl :: calls => let '(_, hdr, h) := register_capture tbl hdr h in run_calls calls hdr h
  end.

(** [cytadel_plugin_register_one_file]: [chunk] is [None] when there is no
    [lua_State] or the file does not load. *)
Definition register_one_file (path : bytes) (chunk : option lua_chunk) (h : heap) : option plugin_header * heap :=
  match chunk with
  | None => (None, snd (header_free zero_header h))
  | Some chunk =>
      let '(hdr, h) := run_calls (register_calls chunk) zero_header h in
      if negb (chunk_ok chunk) then (None, snd (header_free hdr h)) else
      if negb (captured hdr) then (None, snd (header_free hdr h)) else
      if negb (has_run chunk) then (None, snd (header_free hdr h)) else
      let '(ok, h) := malloc h in
      if negb ok then (None, snd (header_free hdr h)) else (Some (set_source_path (Some path) hdr), h)
  end.
End Registration.

(** ** What a registered header satisfies *)

(** A wildcard key and its service. *)
Definition wildcard_key (key svc : bytes) : Prop :=
  key = bs "Services/" ++ svc ++ bs "/*" /\ svc <> [] /\ Forall (fun c => svc_char c = true) svc.

Definition exact_key (key : bytes) : Prop := key <> [] /\ 42 ∉ key.

(** Every key is exact, but the wildcard, and its index is in range. *)
Definition keys_ok (w : option nat) (keys : list bytes) : Prop :=
  (forall (i : nat) key, keys !! i = Some key ->
     if bool_decide (w = Some i) then exists svc, wildcard_key key svc else exact_key key) /\
  (forall i, w = Some i -> (i < length keys)%nat).

Record header_ok (hdr : plugin_header) : Prop := {
  ok_captured : captured hdr = true;
  ok_strings : is_Some (script_name hdr) /\ is_Some (script_version hdr) /\ is_Some (family hdr) /\
    is_Some (hdr_description hdr) /\ is_Some (solution hdr);
  ok_dependencies : dependency_count hdr = length (default [] (dependencies hdr));
  ok_keys : required_key_count hdr = length (default [] (required_keys hdr));
  ok_cve : cve_count hdr = length (default [] (cve hdr));
  ok_wildcard : keys_ok (wildcard_index hdr) (default [] (required_keys hdr));
  ok_risk : 0 <= risk_factor hdr <= 4
}.

Lemma existsb_star key : existsb (fun c => c =? 42) key = false <-> 42 ∉ key.
Proof.
  rewrite existsb_false. split.
  - intros H Hin. by specialize (H 42 Hin).
  - intros H x Hx. apply Z.eqb_neq. by intros ->.
Qed.

(** The matcher recognises the grammar. *)
Lemma match_wildcard_spec key :
  key <> [] ->
  match match_service_wildcard key with
  | NoWildcard => exact_key key
  | Wildcard n => wildcard_key key (take n (drop 9 key)) /\ n = (length key - 11)%nat
  | Malformed => ~ exact_key key /\ forall svc, ~ wildcard_key key svc
  end.
Proof.
  intros Hne. unfold match_service_wildcard. destruct (existsb (fun c => c =? 42) key) eqn:Es; cbn [negb].
  2: { split; [done|]. by apply existsb_star. }
  assert (Hex : ~ exact_key key).
  { intros [_ Hn]. apply existsb_star in Hn. congruence. }
  destruct (Nat.leb (length key) 9 || _) eqn:E1.
  { split; [done|]. intros svc (-> & Hs & _). apply orb_true_iff in E1 as [E1|E1].
    - apply Nat.leb_le in E1. rewrite !length_app in E1. cbn in E1. destruct svc; [done|cbn in E1; lia].
    - apply negb_true_iff, bool_decide_eq_false in E1. destruct E1. reflexivity. }
  apply orb_false_elim in E1 as [E1 Et]. apply Nat.leb_gt in E1. apply negb_false_iff, bool_decide_eq_true in Et.
  destruct (negb (bool_decide (key !! (length key - 1)%nat = Some 42)) || _ || _) eqn:E2.
  { split; [done|]. intros svc (Hk & Hs & _). apply orb_true_iff in E2 as [E2|E2].
    - apply orb_true_iff in E2 as [E2|E2].
      + apply negb_true_iff, bool_decide_eq_false in E2. destruct E2. rewrite Hk. change (bs "/*") with ([47] ++ [42]).
        rewrite !app_assoc, length_app. cbn [length]. rewrite list_lookup_middle; [done|lia].
      + apply Nat.ltb_lt in E2. rewrite Hk, !length_app in E2. cbn in E2. destruct svc; [done|cbn in E2; lia].
    - apply negb_true_iff, bool_decide_eq_false in E2. destruct E2. rewrite Hk. change (bs "/*") with ([47] ++ [42]).
      rewrite app_assoc, length_app. cbn [length app]. rewrite list_lookup_middle; [done|rewrite length_app; cbn; lia]. }
  apply orb_false_elim in E2 as [[E2 E3]%orb_false_elim E4]. apply Nat.ltb_ge in E3.
  apply negb_false_iff, bool_decide_eq_true in E2, E4.
  set (n := (length key - 9 - 2)%nat). assert (Hn : n = (length key - 11)%nat) by lia.
  assert (Hkey : key = bs "Services/" ++ take n (drop 9 key) ++ bs "/*").
  { rewrite <- (take_drop 9 key) at 1. rewrite Et. f_equal. rewrite <- (take_drop n (drop 9 key)) at 1. f_equal.
    rewrite drop_drop. apply list_eq. intros [|[|i]].
    - rewrite lookup_drop. by replace (9 + n + 0)%nat with (length key - 2)%nat by lia.
    - rewrite lookup_drop. by replace (9 + n + 1)%nat with (length key - 1)%nat by lia.
    - rewrite lookup_drop. rewrite lookup_ge_None_2 by lia. done. }
  destruct (forallb svc_char (take n (drop 9 key))) eqn:Ef; cbn [negb].
  - destruct (Nat.eqb_spec n 0) as [E0|E0]; [lia|]. split; [split; [done|]|done]. split.
    + intros E. apply (f_equal length) in E. rewrite length_take, length_drop in E. cbn in E. lia.
    + apply Forall_forall. intros x Hx. rewrite forallb_forall in Ef. apply Ef. by apply list_elem_of_In.
  - split; [done|]. intros svc (Hk & _ & Hall). assert (svc = take n (drop 9 key)) as ->.
    { rewrite Hk in Hkey at 1. apply app_inv_head in Hkey. by apply app_inv_tail in Hkey. }
    apply not_true_iff_false in Ef. apply Ef. apply forallb_forall. intros x Hx. rewrite Forall_forall in Hall.
    apply Hall. by apply list_elem_of_In.
Qed.

Lemma validate_keys_spec keys i w w' :
  validate_keys keys i w = Some w' -> (forall j, w = Some j -> (j < i)%nat) ->
  (forall j key, keys !! j = Some key ->
     if bool_decide (w' = Some (i + j)%nat) then exists svc, wildcard_key key svc else exact_key key) /\
  (forall j, w' = Some j -> (j < i + length keys)%nat /\ ((j < i)%nat -> w = Some j)).
Proof.
  revert i w; induction keys as [|key keys IH]; intros i w; cbn [validate_keys].
  { intros [= <-] Hw. split; [done|]. intros j Hj. cbn [length]. split; [specialize (Hw j Hj); lia|done]. }
  destruct key as [|c key']; [done|]. set (key := c :: key') in *. pose proof (match_wildcard_spec key ltac:(done)) as HM.
  destruct (match_service_wildcard key) as [| |n]; [|done|].
  - intros Hv Hw. destruct (IH (S i) w Hv) as [H1 H2]; [intros j Hj; specialize (Hw j Hj); lia|]. split.
    + intros [|j] k; cbn [lookup list_lookup].
      * intros [= <-]. rewrite Nat.add_0_r. case_bool_decide as E; [|done]. destruct (H2 i E) as [_ Hlt].
        specialize (Hlt ltac:(lia)). specialize (Hw i Hlt). lia.
      * intros Hk. specialize (H1 j k Hk). by replace (i + S j)%nat with (S i + j)%nat by lia.
    + intros j Hj. destruct (H2 j Hj) as [Ha Hb]. cbn [length]. split; [lia|]. intros Hlt. apply Hb. lia.
  - destruct w as [j0|]; [done|]. intros Hv Hw. destruct (IH (S i) (Some i) Hv) as [H1 H2]; [intros j [= <-]; lia|].
    assert (Hwi : w' = Some i).
    { clear -Hv. revert Hv. generalize (S i) as k. induction keys as [|key keys IH]; intros k; cbn [validate_keys]; [by intros [= <-]|].
      destruct key; [done|]. destruct (match_service_wildcard _); [apply IH|done|done]. }
    split.
    + intros [|j] k; cbn [lookup list_lookup].
      * intros [= <-]. rewrite Nat.add_0_r. rewrite bool_decide_eq_true_2 by done. destruct HM as [HM _]. by eexists.
      * intros Hk. specialize (H1 j k Hk). by replace (i + S j)%nat with (S i + j)%nat by lia.
    + intros j Hj. destruct (H2 j Hj) as [Ha Hb]. cbn [length]. split; [lia|]. intros Hlt. rewrite Hwi in Hj. injection Hj as <-. lia.
Qed.

(** ** Blocks *)

(** The blocks a header owns. *)
Definition blocks (hdr : plugin_header) : Z :=
  one_block (script_name hdr) + one_block (script_version hdr) + one_block (family hdr) +
  one_block (dependencies hdr) + array_blocks (required_keys hdr) + array_blocks (cve hdr) +
  one_block (cvss_vector hdr) + one_block (hdr_description hdr) + one_block (solution hdr) +
  one_block (source_path hdr).

(** [header_free] releases all of them. *)
Lemma grows_header_free hdr h :
  required_key_count hdr = length (default [] (required_keys hdr)) -> cve_count hdr = length (default [] (cve hdr)) ->
  grows h (snd (header_free hdr h)) (- blocks hdr).
Proof.
  intros Hk Hc. unfold header_free, blocks. cbn [snd].
  eapply grows_eq.
  - repeat (eapply grows_trans;
      [|first [apply grows_free_if | apply grows_free_string_array; assumption]|reflexivity]).
    apply grows_refl.
  - lia.
Qed.

Section Capture.
Variable string_to_integer : bytes -> option Z.

Lemma severity_from_name_range name v : severity_from_name name = Some v -> 0 <= v <= 4.
Proof.
  unfold severity_from_name. destruct (List.find _ _) as [e|] eqn:E; [|done]. intros [= <-].
  apply List.find_some in E as [Hin _]. repeat (destruct Hin as [<-|Hin]; [cbn; lia|]). done.
Qed.
Lemma wp_validate hdr h (Q : option unit -> plugin_header -> heap -> Prop) :
  required_key_count hdr = length (default [] (required_keys hdr)) ->
  Q None (set_wildcard_index None hdr) h ->
  (forall w, keys_ok w (default [] (required_keys hdr)) -> Q (Some tt) (set_wildcard_index w hdr) h) ->
  wp validate_required_keys hdr h Q.
Proof.
  intros Hc HN HS. apply wp_bind, wp_modify, wp_bind, wp_get. cbn [set_wildcard_index required_key_count required_keys].
  rewrite Hc, firstn_all. destruct (validate_keys _ 0 None) as [w|] eqn:E; [|by apply wp_raise].
  apply wp_modify. destruct (validate_keys_spec _ _ _ _ E) as [H1 H2]; [done|]. apply (HS w). split.
  - intros i key Hk. by apply (H1 i key).
  - intros i Hi. by apply (H2 i Hi).
Qed.

(** What one [register{...}] leaves: a well-formed header when it succeeds,
    and in every case all its blocks in the header, when it was the first. *)
Definition capture_post (hdr0 : plugin_header) (h0 : heap) (o : option unit) (hdr : plugin_header) (h : heap) : Prop :=
  (o = Some tt -> header_ok hdr) /\
  (o <> None \/ captured hdr = captured hdr0) /\
  (hdr0 = zero_header -> grows h0 h (blocks hdr) /\
    required_key_count hdr = length (default [] (required_keys hdr)) /\ cve_count hdr = length (default [] (cve hdr)) /\
    source_path hdr = None).

Tactic Notation "header_cbn" :=
  cbn [set_script_id set_script_name set_script_version set_family set_category set_dependencies set_dependency_count
       set_required_keys set_required_key_count set_wildcard_index set_cve set_cve_count set_cvss_vector set_risk_factor
       set_description set_solution zero_header script_name script_version family dependencies required_keys
       required_key_count cve cve_count cvss_vector hdr_description solution source_path one_block some_b array_blocks default captured risk_factor dependency_count wildcard_index set_captured].

(** The header, one field at a time. *)
Ltac header_norm :=
  let norm hdr := eval cbn -[length default] in hdr in
  lazymatch goal with
  | |- wp ?m ?hdr ?h ?Q => let hdr' := norm hdr in change (wp m hdr' h Q)
  | |- capture_post ?hdr0 ?h0 ?o ?hdr ?h => let hdr' := norm hdr in change (capture_post hdr0 h0 o hdr' h)
  end.

(** An error: the blocks so far are in the header. *)
Ltac capture_error :=
  header_norm; split; [done|split; [by right|intros [= -> -> -> -> -> -> -> -> -> -> -> -> -> -> -> -> -> ->]; split; [eapply grows_eq; [eassumption|unfold blocks]|]]];
  header_cbn;
  first [lia | split_and!; reflexivity].

Ltac capture_step :=
  let failed := (intros ? ?; merge_grows; capture_error) in
  header_norm;
  lazymatch goal with
  | |- wp (bind _ _) _ _ _ => apply wp_bind
  | |- wp (modify _) _ _ _ => apply wp_modify
  | |- wp (field_required_integer _ _ _) _ _ _ => apply grow_required_integer; [failed|intros ? ? _ ?; merge_grows]
  | |- wp (field_required_string _ _) _ _ _ => apply grow_required_string; [failed|intros ? ? _ ?; merge_grows]
  | |- wp (field_optional_string _ _) _ _ _ => apply grow_optional_string; [failed|intros ? ? _ ?; merge_grows]
  | |- wp (field_optional_integer_array _ _ _ _) _ _ _ => apply wp_integer_array; [done|failed|intros ? ? ?; merge_grows]
  | |- wp (field_optional_string_array _ _ _) _ _ _ => apply wp_string_array; [done|failed|intros ? ? ?; merge_grows]
  end.

Lemma wp_category v hdr h (Q : option unit -> plugin_header -> heap -> Prop) :
  Q None hdr h -> (forall c, Q (Some tt) (set_category c hdr) h) ->
  wp match v with
     | LString s =>
         if bool_decide (c_string s = bs "ACT_SETTINGS") then modify (set_category ACT_SETTINGS)
         else if bool_decide (c_string s = bs "ACT_GATHER_INFO") then modify (set_category ACT_GATHER_INFO)
         else raise
     | _ => raise
     end hdr h Q.
Proof. intros HN HS. destruct v; auto. do 2 (case_bool_decide; [apply wp_modify, HS|]). by apply wp_raise. Qed.

Lemma wp_risk v hdr h (Q : option unit -> plugin_header -> heap -> Prop) :
  Q None hdr h -> (forall r, 0 <= r <= 4 -> Q (Some tt) (set_risk_factor r hdr) h) ->
  wp match v with
     | LString s =>
         match severity_from_name (c_string s) with
         | Some severity => modify (set_risk_factor severity)
         | None => raise
         end
     | _ => raise
     end hdr h Q.
Proof.
  intros HN HS. destruct v; auto. destruct (severity_from_name _) eqn:E; [|by apply wp_raise].
  apply wp_modify, HS. by apply (severity_from_name_range _ _ E).
Qed.

Lemma register_capture_wp tbl hdr h :
  captured hdr = false -> wp (register_capture string_to_integer tbl) hdr h (capture_post hdr h).
Proof.
  intros Hc. unfold register_capture. apply wp_bind, wp_get, wp_bind. rewrite Hc. apply wp_ret.
  destruct hdr as [? ? ? ? ? ? ? ? ? ? ? ? ? ? ? ? ? ?]. cbn in Hc.
  pose proof (grows_refl h) as H0.
  repeat capture_step. apply wp_category; [capture_error|]. intros cat. repeat capture_step.
  apply wp_validate; [done|capture_error|]. intros w Hkeys. repeat capture_step.
  apply wp_risk; [capture_error|]. intros risk Hr. repeat capture_step.
  header_norm. split; [intros _|split; [by left|intros [= -> -> -> -> -> -> -> -> -> -> -> -> -> -> -> -> -> ->]]].
  - split; header_cbn; [done|split_and!; by eexists|done|done|done|exact Hkeys|exact Hr].
  - split; [eapply grows_eq; [eassumption|unfold blocks; header_cbn; lia]|by header_cbn].
Qed.

(** *** [register_one_file] *)

Lemma register_capture_twice tbl hdr h : captured hdr = true -> register_capture string_to_integer tbl hdr h = (None, hdr, h).
Proof. intros Hc. unfold register_capture, bind, get. by rewrite Hc. Qed.

Lemma run_calls_ok calls hdr h :
  (captured hdr = true -> header_ok hdr) ->
  captured (fst (run_calls string_to_integer calls hdr h)) = true -> header_ok (fst (run_calls string_to_integer calls hdr h)).
Proof.
  revert hdr h; induction calls as [|tbl calls IH]; intros hdr h Hok; cbn [run_calls]; [exact Hok|].
  destruct (register_capture _ tbl hdr h) as [[o hdr'] h'] eqn:E. apply IH.
  destruct (captured hdr) eqn:Ec.
  - rewrite register_capture_twice in E by done. injection E as <- <- <-. intros _. by apply Hok.
  - pose proof (register_capture_wp tbl hdr h Ec) as HW. unfold wp in HW. rewrite E in HW. destruct HW as (H1 & H2 & _).
    destruct o as [[]|]; [intros _; by apply H1|]. destruct H2 as [|H2]; [done|]. intros Hc. congruence.
Qed.
Lemma set_source_path_ok path hdr : header_ok hdr -> header_ok (set_source_path (Some path) hdr).
Proof. by intros []. Qed.

(** The blocks after at most one [register{...}] are those of the header. *)
Lemma run_calls_blocks calls h :
  (length calls <= 1)%nat ->
  let '(hdr, h') := run_calls string_to_integer calls zero_header h in
  grows h h' (blocks hdr) /\ required_key_count hdr = length (default [] (required_keys hdr)) /\
  cve_count hdr = length (default [] (cve hdr)) /\ source_path hdr = None.
Proof.
  intros Hl. destruct calls as [|tbl [|]]; cbn [length] in Hl; [|cbn [run_calls]|lia].
  - split_and!; try done. apply grows_refl.
  - pose proof (register_capture_wp tbl zero_header h eq_refl) as HW. unfold wp in HW.
    destruct (register_capture _ tbl zero_header h) as [[o hdr] h']. destruct HW as (_ & _ & HW). by apply HW.
Qed.

(** Whatever a plugin file does, the header [cytadel_plugin_register_one_file]
    returns is well formed: captured, its required strings present, its counts
    those of its arrays, its keys exact but for at most one
    [Services/<svc>/*] at [wildcard_index], its risk factor between 0 and 4,
    its path that of the file.  When the file calls [register] at most once and
    no allocation fails, the blocks in use grow by those of the header, and by
    none when the file is rejected. *)
Lemma register_one_file_correct path chunk h res h' :
  register_one_file string_to_integer path chunk h = (res, h') ->
  (forall hdr, res = Some hdr -> header_ok hdr /\ source_path hdr = Some path) /\
  ((length (from_option register_calls [] chunk) <= 1)%nat -> false ∉ oracle h ->
   live h' = live h + from_option blocks 0 res).
Proof.
  unfold register_one_file. destruct chunk as [[calls ok run]|]; cbn [register_calls chunk_ok has_run from_option].
  2: { intros [= <- <-]. split; [done|]. intros _ _. cbn. lia. }
  pose proof (run_calls_ok calls zero_header h ltac:(done)) as Hok. pose proof (run_calls_blocks calls h) as Hb.
  destruct (run_calls _ calls zero_header h) as [hdr h1]. cbn [fst] in Hok.
  assert (Hfree : forall h2 d, (length calls <= 1)%nat -> false ∉ oracle h -> grows h1 h2 d ->
    live (snd (header_free hdr h2)) = live h + d).
  { intros h2 d Hl Ho Hg. destruct (Hb Hl) as (H1 & H2 & H3 & _). destruct (H1 Ho) as [Ho1 E1].
    destruct (Hg Ho1) as [Ho2 E2]. destruct (grows_header_free hdr h2 H2 H3 Ho2) as [_ E3]. lia. }
  destruct ok; cbn [negb]; [|intros [= <- <-]; split; [done|]; intros; by apply Hfree, grows_refl].
  destruct (captured hdr) eqn:Ec; cbn [negb]; [|intros [= <- <-]; split; [done|]; intros; by apply Hfree, grows_refl].
  destruct run; cbn [negb]; [|intros [= <- <-]; split; [done|]; intros; by apply Hfree, grows_refl].
  destruct (malloc h1) as [[] h2] eqn:Em; cbn [negb]; intros [= <- <-].
  - split.
    + intros ? [= <-]. split; [by apply set_source_path_ok, Hok|done].
    + intros Hl Ho. destruct (Hb Hl) as (H1 & _ & _ & Hs). destruct (grows_trans _ _ _ _ _ _ H1 (grows_malloc _ _ Em) eq_refl Ho) as [_ ->].
      cbn [from_option]. unfold blocks. destruct hdr; cbn in Hs |- *. subst. cbn. lia.
  - split; [done|]. intros Hl Ho. apply Hfree; [done|done|]. by apply malloc_false.
Qed.
End Capture.

(** ** Independence of the heap *)

Section HeapFree.
Variable string_to_integer : bytes -> option Z.

Lemma free_register_capture tbl : heap_free (register_capture string_to_integer tbl).
Proof.
  unfold register_capture, validate_required_keys, field_required_string, required_string_impl,
    field_optional_string, field_required_integer, field_optional_integer_array, field_optional_string_array.
  repeat free_step.
Qed.

Lemma run_calls_heap_free calls hdr h1 h2 :
  false ∉ oracle h1 -> false ∉ oracle h2 ->
  let '(hdr1, h1') := run_calls string_to_integer calls hdr h1 in
  let '(hdr2, h2') := run_calls string_to_integer calls hdr h2 in
  hdr1 = hdr2 /\ false ∉ oracle h1' /\ false ∉ oracle h2'.
Proof.
  revert hdr h1 h2; induction calls as [|tbl calls IH]; intros hdr h1 h2 H1 H2; cbn [run_calls]; [done|].
  pose proof (free_register_capture tbl hdr h1 h2 H1 H2) as H.
  destruct (register_capture _ tbl hdr h1) as [[o1 hdr1] h1'], (register_capture _ tbl hdr h2) as [[o2 hdr2] h2'].
  destruct H as (_ & <- & H1' & H2'). by apply IH.
Qed.
End HeapFree.

Lemma oracle_header_free hdr h : oracle (snd (header_free hdr h)) = oracle h.
Proof.
  assert (Hf : forall b h', oracle (free_if b h') = oracle h') by (by intros []).
  unfold header_free. cbn [snd]. by repeat (rewrite Hf || rewrite oracle_free_string_array).
Qed.

(** What a file registers while no allocation fails. *)
Definition registers (string_to_integer : bytes -> option Z) (path : bytes) (chunk : option lua_chunk) : option plugin_header :=
  fst (register_one_file string_to_integer path chunk (Heap [] 0)).

Lemma register_one_file_registers sti path chunk h :
  false ∉ oracle h ->
  fst (register_one_file sti path chunk h) = registers sti path chunk /\
  false ∉ oracle (snd (register_one_file sti path chunk h)).
Proof.
  intros Ho. unfold registers, register_one_file. destruct chunk as [[calls ok run]|]; [|split; [done|exact (eq_ind_r (fun o => false ∉ o) Ho (oracle_header_free zero_header h))]].
  cbn [register_calls chunk_ok has_run].
  pose proof (run_calls_heap_free sti calls zero_header h (Heap [] 0) Ho (not_elem_of_nil _)) as H.
  destruct (run_calls sti calls zero_header h) as [hdr h1], (run_calls sti calls zero_header (Heap [] 0)) as [hdr2 h2].
  destruct H as (<- & H1 & H2). destruct ok, (captured hdr), run; cbn [negb]; try (split; [done|]; cbn [fst snd]; by rewrite oracle_header_free).
  destruct (malloc_ok h1 H1) as (h1' & -> & _ & ?), (malloc_ok h2 H2) as (h2' & -> & _ & ?). done.
Qed.

(** ** Concrete files *)

Definition http_table (script_id script_name category : lua_value) : lua_fields := table
  [("script_id", script_id); ("script_name", script_name); ("script_version", LString (bs "1.0"));
   ("family", LString (bs "Web")); ("category", category);
   ("dependencies", LTable [LInteger 3; LFloat (Dyadic 5 0)]);
   ("required_keys", LTable [LString (bs "Host/os"); LString (bs "Services/http/*")]);
   ("risk_factor", LString (bs "High")); ("description", LString (bs "d")); ("solution", LString (bs "s"))]%string.

Definition http_plugin : lua_chunk :=
  Chunk [http_table (LInteger 7) (LString (bs "web")) (LString (bs "ACT_GATHER_INFO"))] true true.

Example http_plugin_registers :
  match registers no_string (bs "p.lua") (Some http_plugin) with
  | Some hdr => dependencies hdr = Some [3; 5] /\ wildcard_index hdr = Some 1%nat /\ risk_factor hdr = 3 /\ blocks hdr = 10
  | None => False
  end.
Proof. vm_compute. split_and!; reflexivity. Qed.

Section Divergences.
(** [lua_tointegerx] converts a string that spells an integer. *)
Variable string_to_integer : bytes -> option Z.
Hypothesis digits_convert : string_to_integer (bs "21") = Some 21.

(** The comment says any non-number is rejected; ["21"] is a [script_id]. *)
Lemma string_script_id_accepted :
  exists hdr h', register_one_file string_to_integer (bs "p.lua")
    (Some (Chunk [http_table (LString (bs "21")) (LString (bs "web")) (LString (bs "ACT_SETTINGS"))] true true))
    (Heap [] 0) = (Some hdr, h') /\ script_id hdr = 21.
Proof.
  unfold register_one_file, run_calls, register_calls, register_capture, field_required_integer.
  change (http_table _ _ _ (bs "script_id")) with (LString (bs "21")). cbn [to_integer]. rewrite digits_convert.
  eexists _, _. split; [vm_compute; reflexivity|]. reflexivity.
Qed.
End Divergences.

(** A name that starts with a NUL byte passes the non-empty check and is
    stored empty. *)
Example nul_name_is_empty :
  from_option script_name None (fst (register_one_file no_string (bs "p.lua")
    (Some (Chunk [http_table (LInteger 7) (LString [0; 120]) (LString (bs "ACT_SETTINGS"))] true true)) (Heap [] 0)))
  = Some [].
Proof. vm_compute. reflexivity. Qed.

(** A chunk that catches the error of a first [register] and calls it again:
    the strings of the first call (name, version, family) are lost. *)
Example retry_leaks :
  let '(res, h) := register_one_file no_string (bs "p.lua")
    (Some (Chunk [http_table (LInteger 7) (LString (bs "web")) LNil;
                  http_table (LInteger 7) (LString (bs "web")) (LString (bs "ACT_SETTINGS"))] true true)) (Heap [] 0) in
  from_option blocks 0 res = 10 /\ live h = 13.
Proof. vm_compute. split; reflexivity. Qed.

(** A string array whose second copy fails keeps its array and first string. *)
Example array_copy_fails_leaks :
  let '(res, h) := register_one_file no_string (bs "p.lua")
    (Some (Chunk (register_calls http_plugin) false true)) (Heap [true; true; true; true; true; true; false] 0) in
  res = None /\ live h = 2.
Proof. vm_compute. split; reflexivity. Qed.

