(* ===== verification/Registry.v ===== *)
(** * The plugin registry ([src/src/plugin/registry.c])

    Startup: the [.lua] files of the plugins directory in [strcmp] order, each
    registered ([Plugin]), ids that are taken skipped, and the headers put in
    dependency order ([DepGraph]).  The names [readdir] answers and what each
    file does are parameters.  [qsort] is a merge sort: equal strings are the
    same, so every sort gives this list. *)

From S2P Require Import Prelude CveId LuaFields Plugin DepGraph.

Definition lua_filename (name : bytes) : bool :=
  Nat.ltb 4 (length name) && bool_decide (drop (length name - 4) name = bs ".lua").

(** The copies of the names so far, then the array ([capacity] is 0 while it is NULL). *)
Definition free_names (names : list bytes) (capacity : nat) (h : heap) : heap :=
  free_if (Nat.ltb 0 capacity) (Nat.iter (length names) free_block h).

(** The loop of [cytadel_plugin_scan_lua_filenames]. *)
Fixpoint scan_entries (entries names : list bytes) (capacity : nat) (h : heap) : option (list bytes) * heap :=
  match entries with
  | [] => (Some names, h)
  | name :: entries =>
      if negb (lua_filename name) then scan_entries entries names capacity h else
      let '(ok, capacity', h) :=
        if Nat.eqb (length names) capacity then
          let new_capacity := if Nat.eqb capacity 0 then 8%nat else (capacity * 2)%nat in
          let '(ok, h) := realloc (Nat.ltb 0 capacity) h in
          (ok, if ok then new_capacity else capacity, h)
        else (true, capacity, h) in
      if negb ok then (None, free_names names capacity' h) else
      let '(ok, h) := malloc h in
      if negb ok then (None, free_names names capacity' h) else
      scan_entries entries (names ++ [name]) capacity' h
  end.

(** [cytadel_plugin_scan_lua_filenames]; [entries] is [None] when the directory
    does not open. *)
Definition scan_lua_filenames (entries : option (list bytes)) (h : heap) : option (list bytes) * heap :=
  match entries with
  | None => (None, h)
  | Some entries =>
      match scan_entries entries [] 0 h with
      | (Some names, h) => (Some (merge_sort bytes_le names), h)
      | (None, h) => (None, h)
      end
  end.

Definition plugin_path (plugins_dir name : bytes) : bytes := plugins_dir ++ bs "/" ++ name.

(** The node of a header. *)
Definition header_node (hdr : plugin_header) : depgraph_node :=
  DepNode (script_id hdr) (take (dependency_count hdr) (default [] (dependencies hdr))).

(** Every header of an array, then the array. *)
Definition free_headers (headers : list plugin_header) (has_array : bool) (h : heap) : heap :=
  free_if has_array (foldl (fun h hdr => snd (header_free hdr h)) h headers).

Section Registry.
Variable string_to_integer : bytes -> option Z.
(** What the file at a path does. *)
Variable lua_file : bytes -> option lua_chunk.

(** The registration loop of [cytadel_plugin_registry_load]. *)
Fixpoint register_files (plugins_dir : bytes) (names : list bytes) (headers : list plugin_header) (h : heap) :
    list plugin_header * heap :=
  match names with
  | [] => (headers, h)
  | name :: names =>
      let path := plugin_path plugins_dir name in
      let h := free_block h in
      if 4096 <=? Z.of_nat (length path) then register_files plugins_dir names headers h else
      match register_one_file string_to_integer path (lua_file path) h with
      | (None, h) => register_files plugins_dir names headers h
      | (Some candidate, h) =>
          if existsb (fun hdr => script_id hdr =? script_id candidate) headers
          then register_files plugins_dir names headers (snd (header_free candidate h))
          else register_files plugins_dir names (headers ++ [candidate]) h
      end
  end.

(** From the headers to the registry; [has_array]: [headers] is not NULL. *)
Definition order_headers (headers : list plugin_header) (has_array : bool) (h : heap) :
    option (list plugin_header) * heap :=
  let some := negb (Nat.eqb (length headers) 0) in
  let '(ok, h) :=
    if some then
      let '(ok1, h) := malloc h in
      let '(ok2, h) := malloc h in
      let '(ok3, h) := malloc h in
      if ok1 && ok2 && ok3 then (true, h) else (false, free_if ok3 (free_if ok2 (free_if ok1 h)))
    else (true, h) in
  if negb ok then (None, free_headers headers has_array h) else
  let '(topo_status, h) := depgraph_toposort (map header_node headers) h in
  let h := free_if some h in
  match topo_status with
  | DEPGRAPH_OK order =>
      let h := free_if some h in
      let '(ok, h) := if some then malloc h else (true, h) in
      if negb ok then (None, free_headers headers has_array (free_if some h)) else
      let ordered := omap (fun i => headers !! i) order in
      let h := free_if has_array (free_if some h) in
      let '(ok, h) := malloc h in
      if negb ok then (None, free_headers ordered some h) else (Some ordered, h)
  | _ => (None, free_headers headers has_array (free_if some (free_if some h)))
  end.

(** [cytadel_plugin_registry_load]: the headers of the registry. *)
Definition registry_load (plugins_dir : option bytes) (entries : option (list bytes)) (h : heap) :
    option (list plugin_header) * heap :=
  match plugins_dir with
  | None => (None, h)
  | Some plugins_dir =>
      match scan_lua_filenames entries h with
      | (None, h) => (None, h)
      | (Some filenames, h) =>
          let some := negb (Nat.eqb (length filenames) 0) in
          let '(ok, h) := if some then malloc h else (true, h) in
          if negb ok then (None, free_names filenames (if some then 1 else 0) h) else
          let '(headers, h) := register_files plugins_dir filenames [] h in
          order_headers headers some (free_if some h)
      end
  end.

(** [cytadel_plugin_registry_free], [cytadel_plugin_registry_count] *)
Definition registry_free (registry : option (list plugin_header)) (h : heap) : heap :=
  match registry with
  | None => h
  | Some headers => free_block (free_headers headers (negb (Nat.eqb (length headers) 0)) h)
  end.

Definition registry_count (registry : option (list plugin_header)) : nat := from_option length 0%nat registry.
End Registry.

(** ** What the registry is *)

(** The first header of each id. *)
Fixpoint keep_first (seen : list Z) (headers : list plugin_header) : list plugin_header :=
  match headers with
  | [] => []
  | hdr :: headers =>
      if bool_decide (script_id hdr ∈ seen) then keep_first seen headers
      else hdr :: keep_first (script_id hdr :: seen) headers
  end.

(** Every plugin after those it depends on. *)
Definition run_order (headers : list plugin_header) : Prop :=
  forall (k : nat) hdr d, headers !! k = Some hdr -> d ∈ default [] (dependencies hdr) ->
  d ∈ map script_id (take k headers).

Definition headers_blocks (headers : list plugin_header) : Z := foldr (fun hdr n => blocks hdr + n) 0 headers.

(** The blocks of the registry. *)
Definition registry_blocks (headers : list plugin_header) : Z :=
  1 + (if negb (Nat.eqb (length headers) 0) then 1 else 0) + headers_blocks headers.

(** ** Scanning *)

Lemma scan_entries_spec entries names capacity h :
  false ∉ oracle h -> (capacity = 0%nat <-> names = []) ->
  exists h', scan_entries entries names capacity h = (Some (names ++ List.filter lua_filename entries), h') /\ false ∉ oracle h' /\
    live h' = live h + Z.of_nat (length (List.filter lua_filename entries)) +
      (if Nat.eqb (length (names ++ List.filter lua_filename entries)) 0 then 0 else 1) - (if Nat.ltb 0 capacity then 1 else 0).
Proof.
  revert names capacity h; induction entries as [|e entries IH]; intros names capacity h Ho Hc; cbn [scan_entries List.filter].
  - exists h. rewrite app_nil_r. split_and!; [done|done|]. cbn [length].
    destruct names as [|n names].
    + rewrite (proj2 Hc eq_refl). cbn. lia.
    + destruct capacity; [discriminate (proj1 Hc eq_refl)|cbn; lia].
  - destruct (lua_filename e); cbn [negb]; [|by apply IH].
    assert (Hgrow : exists capacity' h1, (if Nat.eqb (length names) capacity then
          let '(ok, h) := realloc (Nat.ltb 0 capacity) h in
          (ok, if ok then if Nat.eqb capacity 0 then 8%nat else (capacity * 2)%nat else capacity, h)
        else (true, capacity, h)) = (true, capacity', h1) /\ false ∉ oracle h1 /\ (0 < capacity')%nat /\
        live h1 = live h + (if Nat.ltb 0 capacity then 0 else 1)).
    { destruct (Nat.eqb_spec (length names) capacity) as [E|E].
      - destruct (realloc_ok (Nat.ltb 0 capacity) h Ho) as (h1 & -> & Hl & Ho1). eexists _, h1. split_and!; [done|done| |done].
        destruct (Nat.eqb_spec capacity 0); lia.
      - exists capacity, h. split_and!; [done|done| |].
        + destruct capacity; [|lia]. destruct Hc as [Hc _]. rewrite Hc in E by done. cbn in E. lia.
        + destruct capacity; [|cbn; lia]. destruct Hc as [Hc _]. rewrite Hc in E by done. cbn in E. lia. }
    destruct Hgrow as (capacity' & h1 & -> & Ho1 & Hp & Hl1). cbn [negb].
    destruct (malloc_ok h1 Ho1) as (h2 & -> & Hl2 & Ho2). cbn [negb].
    destruct (IH (names ++ [e]) capacity' h2 Ho2) as (h' & -> & Ho' & Hl').
    { split; [lia|by destruct names]. }
    exists h'. rewrite <- app_assoc in Hl' |- *. cbn [app] in Hl' |- *. split_and!; [done|done|]. rewrite Hl', Hl2, Hl1.
    cbn [length]. replace (Nat.ltb 0 capacity') with true by (symmetry; by apply Nat.ltb_lt). destruct (Nat.ltb 0 capacity); lia.
Qed.

Definition lua_names (entries : list bytes) : list bytes := merge_sort bytes_le (List.filter lua_filename entries).

Lemma scan_spec entries h :
  false ∉ oracle h ->
  exists h', scan_lua_filenames (Some entries) h = (Some (lua_names entries), h') /\ false ∉ oracle h' /\
    live h' = live h + Z.of_nat (length (lua_names entries)) + (if Nat.eqb (length (lua_names entries)) 0 then 0 else 1).
Proof.
  intros Ho. cbn [scan_lua_filenames]. destruct (scan_entries_spec entries [] 0 h Ho) as (h' & -> & Ho' & Hl); [done|].
  exists h'. unfold lua_names. cbn [app Nat.ltb] in *. split_and!; [done|done|].
  rewrite (Permutation_length (merge_sort_Permutation bytes_le _)). cbn in Hl. lia.
Qed.

(** ** Registering *)

Section Load.
Variable string_to_integer : bytes -> option Z.
Variable lua_file : bytes -> option lua_chunk.

(** The files that register, in the order of their names. *)
Definition candidates (plugins_dir : bytes) (names : list bytes) : list plugin_header :=
  omap (fun name =>
    let path := plugin_path plugins_dir name in
    if 4096 <=? Z.of_nat (length path) then None else registers string_to_integer path (lua_file path)) names.

(** No plugin calls [register] twice. *)
Definition registers_once : Prop :=
  forall path, (length (from_option register_calls [] (lua_file path)) <= 1)%nat.

Lemma registers_ok path hdr : registers string_to_integer path (lua_file path) = Some hdr -> header_ok hdr.
Proof.
  unfold registers. destruct (register_one_file _ _ _ _) as [res h'] eqn:E. cbn [fst]. intros ->.
  by apply (register_one_file_correct _ _ _ _ _ _ E).
Qed.

Lemma keep_first_app seen l l' :
  keep_first seen (l ++ l') = keep_first seen l ++ keep_first (rev (map script_id (keep_first seen l)) ++ seen) l'.
Proof.
  revert seen; induction l as [|hdr l IH]; intros seen; cbn [keep_first app map rev]; [done|].
  case_bool_decide; [apply IH|]. cbn [app map rev]. by rewrite IH, <- app_assoc.
Qed.

Lemma existsb_taken id headers :
  existsb (fun hdr => script_id hdr =? id) headers = bool_decide (id ∈ map script_id headers).
Proof.
  apply eq_true_iff_eq. rewrite existsb_exists, bool_decide_eq_true. split.
  - intros (hdr & Hin & <-%Z.eqb_eq). apply list_elem_of_fmap. exists hdr. split; [done|]. by apply list_elem_of_In.
  - intros (hdr & -> & Hin)%list_elem_of_fmap. exists hdr. split; [by apply list_elem_of_In|apply Z.eqb_refl].
Qed.

Lemma keep_first_ext seen seen' l : (forall id, id ∈ seen <-> id ∈ seen') -> keep_first seen l = keep_first seen' l.
Proof.
  revert seen seen'; induction l as [|hdr l IH]; intros seen seen' Hs; cbn [keep_first]; [done|].
  rewrite (bool_decide_ext _ _ (Hs _)). case_bool_decide; [by apply IH|]. f_equal. apply IH. intros id.
  by rewrite !elem_of_cons, Hs.
Qed.

Lemma headers_blocks_app l l' : headers_blocks (l ++ l') = headers_blocks l + headers_blocks l'.
Proof. unfold headers_blocks. induction l as [|hdr l IH]; cbn [app foldr]; [done|]. rewrite IH. lia. Qed.

Lemma register_files_spec plugins_dir names headers h :
  false ∉ oracle h ->
  exists h', register_files string_to_integer lua_file plugins_dir names headers h =
      (headers ++ keep_first (map script_id headers) (candidates plugins_dir names), h') /\ false ∉ oracle h' /\
    (registers_once -> live h' = live h - Z.of_nat (length names) +
       headers_blocks (keep_first (map script_id headers) (candidates plugins_dir names))).
Proof.
  revert headers h; induction names as [|name names IH]; intros headers h Ho; cbn [register_files candidates omap list_omap].
  { exists h. rewrite app_nil_r. split_and!; [done|done|intros _; cbn; lia]. }
  set (path := plugin_path plugins_dir name). destruct (4096 <=? Z.of_nat (length path)).
  { destruct (IH headers (free_block h) Ho) as (h' & -> & Ho' & Hl). exists h'. split_and!; [done|done|].
    intros Honce. rewrite (Hl Honce). cbn [free_block live length]. unfold candidates. lia. }
  destruct (register_one_file_registers string_to_integer path (lua_file path) (free_block h) Ho) as [Hres Ho1].
  destruct (register_one_file _ path (lua_file path) (free_block h)) as [res h1] eqn:E. cbn [fst snd] in Hres, Ho1.
  pose proof (register_one_file_correct _ _ _ _ _ _ E) as [Hok Hlive]. cbn [free_block live] in Hlive.
  rewrite <- Hres. destruct res as [candidate|]; cbn [from_option] in Hlive.
  2: { destruct (IH headers h1 Ho1) as (h' & -> & Ho' & Hl). exists h'. split_and!; [done|done|].
    intros Honce. rewrite (Hl Honce), Hlive by auto. cbn [length]. unfold candidates. lia. }
  cbn [keep_first]. rewrite existsb_taken. case_bool_decide as Hin.
  - destruct (Hok _ eq_refl) as [Hh _].
    pose proof (grows_header_free candidate h1 (ok_keys _ Hh) (ok_cve _ Hh) Ho1) as [Ho2 Hl2].
    destruct (IH headers _ Ho2) as (h' & -> & Ho' & Hl). exists h'. split_and!; [done|done|].
    intros Honce. rewrite (Hl Honce), Hl2, Hlive by auto. cbn [length]. unfold candidates. lia.
  - destruct (IH (headers ++ [candidate]) h1 Ho1) as (h' & -> & Ho' & Hl). exists h'.
    assert (Hk : keep_first (map script_id (headers ++ [candidate])) (candidates plugins_dir names) =
                 keep_first (script_id candidate :: map script_id headers) (candidates plugins_dir names)).
    { apply keep_first_ext. intros id. rewrite map_app. cbn [map]. rewrite elem_of_app, !elem_of_cons.
      split; [intros [?|[?|[]%not_elem_of_nil]]; auto|intros [?|?]; auto]. }
    rewrite Hk in Hl |- *. rewrite <- app_assoc. split_and!; [done|done|].
    intros Honce. rewrite (Hl Honce), Hlive by auto. cbn [length headers_blocks foldr]. unfold headers_blocks, candidates. lia.
Qed.

Lemma keep_first_nodup seen l :
  NoDup (map script_id (keep_first seen l)) /\ (forall id, id ∈ map script_id (keep_first seen l) -> id ∉ seen) /\
  (forall hdr, hdr ∈ keep_first seen l -> hdr ∈ l).
Proof.
  revert seen; induction l as [|hdr l IH]; intros seen; cbn [keep_first map].
  { split_and!; [constructor|intros ? Hx; by apply not_elem_of_nil in Hx|done]. }
  case_bool_decide as Hin.
  - destruct (IH seen) as (H1 & H2 & H3). split_and!; [done|done|]. intros x Hx. right. auto.
  - destruct (IH (script_id hdr :: seen)) as (H1 & H2 & H3). cbn [map]. split_and!.
    + constructor; [|done]. intros Hx. apply H2 in Hx. apply Hx. by left.
    + intros id [->|Hx]%elem_of_cons; [done|]. specialize (H2 _ Hx). intros ?. apply H2. by right.
    + intros x [->|Hx]%elem_of_cons; [by left|]. right. auto.
Qed.
End Load.

(** ** Ordering *)

Lemma omap_lookup_all {A B} (f : A -> option B) l (k : nat) :
  (forall x, x ∈ l -> is_Some (f x)) -> omap f l !! k = l !! k ≫= f /\ take k (omap f l) = omap f (take k l).
Proof.
  revert k; induction l as [|x l IH]; intros k Hl; [by destruct k|].
  destruct (Hl x ltac:(by left)) as [y Hy]. assert (Hl' : forall z, z ∈ l -> is_Some (f z)) by (intros; apply Hl; by right).
  destruct k as [|k]; cbn; rewrite Hy; [done|]. destruct (IH k Hl') as [H1 H2]. split; [exact H1|exact (f_equal (cons y) H2)].
Qed.

Lemma take_elem {A} (x : A) k l : x ∈ take k l -> x ∈ l.
Proof. intros (m & Hm & _)%elem_of_take. by eapply list_elem_of_lookup_2. Qed.

Lemma omap_lookup_seq {A} (l : list A) : omap (fun i : nat => l !! i) (seq 0 (length l)) = l.
Proof.
  apply list_eq. intros k. destruct (omap_lookup_all (fun i => l !! i) (seq 0 (length l)) k) as [-> _].
  { intros i [_ Hi]%elem_of_seq. by apply lookup_lt_is_Some. }
  destruct (decide (k < length l)%nat).
  - rewrite lookup_seq_lt by done. done.
  - rewrite lookup_seq_ge, (lookup_ge_None_2 l) by lia. done.
Qed.

Section Order.
Variable headers : list plugin_header.
Hypothesis headers_ok : Forall header_ok headers.
Hypothesis ids_unique : NoDup (map script_id headers).
Let nodes := map header_node headers.

Lemma node_lookup (i : nat) : nodes !! i = header_node <$> headers !! i.
Proof. apply list_lookup_fmap. Qed.

Lemma node_ids : script_ids nodes = map script_id headers.
Proof. unfold script_ids, nodes. rewrite map_map. done. Qed.

Lemma header_deps hdr : header_ok hdr -> node_deps (header_node hdr) = default [] (dependencies hdr).
Proof. intros Hok. cbn. rewrite (ok_dependencies _ Hok). apply firstn_all. Qed.

Lemma header_at (i : nat) hdr : headers !! i = Some hdr -> node_deps (header_node hdr) = default [] (dependencies hdr).
Proof. intros Hi. apply header_deps. by apply (Forall_lookup_1 _ _ _ _ headers_ok Hi). Qed.

Lemma id_index (i j : nat) hi hj :
  headers !! i = Some hi -> headers !! j = Some hj -> script_id hi = script_id hj -> i = j.
Proof.
  intros Hi Hj He. eapply (NoDup_lookup (map script_id headers)); [done| |]; rewrite list_lookup_fmap; [by rewrite Hi|].
  rewrite Hj. cbn. by rewrite He.
Qed.

Lemma depends_at (i j : nat) hi hj :
  headers !! i = Some hi -> headers !! j = Some hj ->
  depends nodes i j <-> script_id hj ∈ default [] (dependencies hi).
Proof.
  intros Hi Hj. unfold depends. rewrite !node_lookup, Hi, Hj. cbn. rewrite <- (header_at _ _ Hi). split.
  - intros (? & ? & [= <-] & [= <-] & H). done.
  - intros H. eauto 10.
Qed.

(** From an order of the nodes to the registry. *)
Definition reordered (order : list nat) : list plugin_header := omap (fun i => headers !! i) order.

Lemma order_in_range order (i : nat) : Permutation order (seq 0 (length nodes)) -> i ∈ order -> is_Some (headers !! i).
Proof.
  intros Hp Hi. rewrite Hp in Hi. apply elem_of_seq in Hi as [_ Hi]. apply lookup_lt_is_Some.
  unfold nodes in Hi. by rewrite length_map in Hi.
Qed.

Lemma reordered_run_order order :
  known_deps nodes -> valid_order nodes order -> Permutation (reordered order) headers /\ run_order (reordered order).
Proof.
  intros Hk [Hp Ho]. split.
  - unfold reordered. rewrite Hp. unfold nodes. rewrite length_map. by rewrite omap_lookup_seq.
  - intros k hdr d Hhdr Hd. destruct (omap_lookup_all (fun i => headers !! i) order k) as [H1 H2]; [intros; by eapply order_in_range|].
    unfold reordered in *. rewrite H1 in Hhdr. destruct (order !! k) as [i|] eqn:Ei; [|done]. cbn in Hhdr.
    assert (Hin : d ∈ script_ids nodes).
    { apply (Hk (header_node hdr)); [|by rewrite (header_at _ _ Hhdr)]. apply list_elem_of_fmap. exists hdr.
      split; [done|]. by eapply list_elem_of_lookup_2. }
    rewrite node_ids in Hin. apply list_elem_of_fmap in Hin as (hd' & -> & [j Hj]%list_elem_of_lookup).
    rewrite H2. apply list_elem_of_fmap. exists hd'. split; [done|]. apply list_elem_of_omap. exists j. split; [|done].
    apply (Ho k i j Ei). by apply (depends_at i j _ _ Hhdr Hj).
Qed.

(** Every registry in which each plugin runs as early as it can, the files in
    the order of their names. *)
Definition earliest (reg : list plugin_header) : Prop :=
  forall (k i i' : nat) hdr hdr', reg !! k = Some hdr -> headers !! i = Some hdr -> headers !! i' = Some hdr' ->
  (i' < i)%nat -> hdr' ∉ take k reg ->
  exists d, d ∈ default [] (dependencies hdr') /\ d ∉ map script_id (take k reg).

Lemma reordered_earliest order :
  valid_order nodes order -> lowest_first nodes order -> earliest (reordered order).
Proof.
  intros [Hp _] Hl k i i' hdr hdr' Hk Hi Hi' Hlt Hn.
  destruct (omap_lookup_all (fun i => headers !! i) order k) as [H1 H2]; [intros; by eapply order_in_range|].
  unfold reordered in *. rewrite H1 in Hk. rewrite H2 in Hn. destruct (order !! k) as [i0|] eqn:Ei; [|done]. cbn in Hk.
  assert (i0 = i) as -> by (by eapply id_index).
  destruct (Hl k i i' Ei Hlt) as (j & Hd & Hj).
  { intros Hin. apply Hn. apply list_elem_of_omap. by exists i'. }
  destruct Hd as (ni & nj & Hni & Hnj & Hd). rewrite node_lookup, Hi' in Hni. injection Hni as <-.
  rewrite node_lookup in Hnj. destruct (headers !! j) as [hj|] eqn:Ej; [|done]. injection Hnj as <-.
  rewrite (header_at _ _ Hi') in Hd. exists (script_id hj). split; [exact Hd|]. rewrite H2.
  intros (h2 & He & (j2 & Hj2 & E2)%list_elem_of_omap)%list_elem_of_fmap. assert (j2 = j) as -> by (by eapply id_index). done.
Qed.

(** From a registry to an order of the nodes. *)
Definition index_of (hdr : plugin_header) : nat := default 0%nat (depgraph_find_index nodes (script_id hdr) 0).

Lemma index_of_at (i : nat) hdr : headers !! i = Some hdr -> index_of hdr = i.
Proof.
  intros Hi. unfold index_of. pose proof (find_index_spec nodes (script_id hdr) 0) as HF.
  destruct (depgraph_find_index _ _ _) as [j|]; cbn.
  - destruct HF as (n & Hn & He & _). rewrite Nat.sub_0_r, node_lookup in Hn. destruct (headers !! j) as [hj|] eqn:Ej; [|done].
    injection Hn as <-. by eapply id_index.
  - destruct HF. rewrite node_ids. apply list_elem_of_fmap. exists hdr. split; [done|]. by eapply list_elem_of_lookup_2.
Qed.

Lemma run_order_valid reg :
  Permutation reg headers -> run_order reg -> known_deps nodes /\ valid_order nodes (map index_of reg).
Proof.
  intros Hp Ho. split; [|split].
  - intros n d (hdr & -> & Hin)%list_elem_of_fmap Hd. rewrite node_ids. rewrite <- Hp in Hin |- *.
    apply list_elem_of_lookup in Hin as [k Hk]. assert (Hin : hdr ∈ headers) by (rewrite <- Hp; by eapply list_elem_of_lookup_2).
    apply list_elem_of_lookup in Hin as [i Hi]. rewrite (header_at _ _ Hi) in Hd. specialize (Ho k hdr d Hk Hd).
    apply list_elem_of_fmap in Ho as (h2 & -> & Hin). apply list_elem_of_fmap. exists h2. split; [done|].
    by eapply take_elem.
  - rewrite Hp. unfold nodes. rewrite length_map. apply reflexive_eq. apply list_eq. intros i. rewrite list_lookup_fmap.
    destruct (headers !! i) as [hdr|] eqn:Ei; cbn.
    + rewrite (index_of_at _ _ Ei). rewrite lookup_seq_lt; [done|]. by eapply lookup_lt_Some.
    + apply lookup_ge_None_1 in Ei. rewrite lookup_seq_ge; [done|lia].
  - intros k i j Hk Hd. rewrite list_lookup_fmap in Hk. destruct (reg !! k) as [hdr|] eqn:Ek; [|done]. injection Hk as Hk.
    assert (Hin : hdr ∈ headers) by (rewrite <- Hp; by eapply list_elem_of_lookup_2).
    apply list_elem_of_lookup in Hin as [i' Hi]. assert (i' = i) as -> by (rewrite <- Hk; symmetry; by apply index_of_at).
    assert (Hj : exists hj, headers !! j = Some hj).
    { destruct Hd as (ni & nj & _ & Hnj & _). rewrite node_lookup in Hnj. destruct (headers !! j); [by eexists|done]. }
    destruct Hj as [hj Hj]. apply (depends_at i j _ _ Hi Hj) in Hd. specialize (Ho k hdr _ Ek Hd).
    apply list_elem_of_fmap in Ho as (h2 & He & Hin). rewrite <- fmap_take. apply list_elem_of_fmap. exists h2. split; [|done].
    assert (Hin2 : h2 ∈ headers) by (rewrite <- Hp; by eapply take_elem).
    apply list_elem_of_lookup in Hin2 as [j' Hj']. rewrite (index_of_at _ _ Hj'). symmetry. by eapply id_index.
Qed.
End Order.

(** ** Loading *)

Lemma free_headers_live headers has_array h :
  Forall header_ok headers -> false ∉ oracle h ->
  live (free_headers headers has_array h) = live h - headers_blocks headers - (if has_array then 1 else 0) /\
  false ∉ oracle (free_headers headers has_array h).
Proof.
  intros Hok Ho. unfold free_headers.
  assert (H : live (foldl (fun h hdr => snd (header_free hdr h)) h headers) = live h - headers_blocks headers /\
              false ∉ oracle (foldl (fun h hdr => snd (header_free hdr h)) h headers)).
  { revert h Ho; induction Hok as [|hdr headers Hh Hok IH]; intros h Ho; cbn [foldl headers_blocks foldr]; [split; [lia|done]|].
    destruct (grows_header_free hdr h (ok_keys _ Hh) (ok_cve _ Hh) Ho) as [Ho1 Hl1].
    destruct (IH _ Ho1) as [Hl2 Ho2]. split; [|done]. rewrite Hl2, Hl1. unfold headers_blocks. lia. }
  destruct H as [Hl Ho']. destruct has_array; cbn [free_if free_block live oracle]; split; (done || lia).
Qed.

Definition deps_bounded (headers : list plugin_header) : Prop :=
  Forall (fun hdr => Z.of_nat (length (default [] (dependencies hdr))) < 2 ^ 64) headers.

Lemma deps_bounded_fit headers : Forall header_ok headers -> deps_bounded headers -> deps_fit (map header_node headers).
Proof.
  intros Hok Hd. apply Forall_map. apply Forall_forall. intros hdr Hin.
  rewrite Forall_forall in Hok. unfold deps_bounded in Hd. rewrite Forall_forall in Hd. cbn [header_node].
  rewrite header_deps by auto. auto.
Qed.

Lemma headers_blocks_perm l l' : Permutation l l' -> headers_blocks l = headers_blocks l'.
Proof. unfold headers_blocks. induction 1; cbn; lia. Qed.

Lemma order_headers_spec headers has_array h :
  Forall header_ok headers -> NoDup (map script_id headers) -> deps_bounded headers -> false ∉ oracle h ->
  let '(res, h') := order_headers headers has_array h in
  match res with
  | Some reg => Permutation reg headers /\ run_order reg /\ earliest headers reg
  | None => forall reg, Permutation reg headers -> ~ run_order reg
  end /\ false ∉ oracle h' /\
  live h' = live h - headers_blocks headers - (if has_array then 1 else 0) + from_option registry_blocks 0 res.
Proof.
  intros Hok Hu Hd Ho. unfold order_headers. set (some := negb (Nat.eqb (length headers) 0)).
  assert (H1 : exists h1, (if some then
      let '(ok1, h) := malloc h in
      let '(ok2, h) := malloc h in
      let '(ok3, h) := malloc h in
      if ok1 && ok2 && ok3 then (true, h) else (false, free_if ok3 (free_if ok2 (free_if ok1 h)))
    else (true, h)) = (true, h1) /\ false ∉ oracle h1 /\ live h1 = live h + (if some then 3 else 0)).
  { destruct some; [|exists h; split_and!; [done|done|lia]].
    destruct (malloc_ok h Ho) as (ha & -> & La & Oa), (malloc_ok ha Oa) as (hb & -> & Lb & Ob), (malloc_ok hb Ob) as (hc & -> & Lc & Oc).
    exists hc. split_and!; [done|done|lia]. }
  destruct H1 as (h1 & -> & Ho1 & Hl1). cbn [negb].
  assert (Hu' : NoDup (script_ids (map header_node headers))) by (by rewrite node_ids).
  pose proof (toposort_spec (map header_node headers) h1 Hu' (deps_bounded_fit _ Hok Hd)) as HT.
  pose proof (toposort_oracle (map header_node headers) h1 Ho1) as Ho2.
  destruct (depgraph_toposort _ h1) as [status h2]. cbn [snd] in Ho2. destruct HT as [Hl2 HT].
  assert (Hfail : (forall reg, Permutation reg headers -> ~ run_order reg) ->
    let h3 := free_headers headers has_array (free_if some (free_if some (free_if some h2))) in
    (forall reg, Permutation reg headers -> ~ run_order reg) /\ false ∉ oracle h3 /\
    live h3 = live h - headers_blocks headers - (if has_array then 1 else 0) + from_option registry_blocks 0 None).
  { intros Hno. split; [done|]. destruct (free_headers_live headers has_array (free_if some (free_if some (free_if some h2)))) as [Hl Hf]; [done|by destruct some|].
    split; [done|]. rewrite Hl. cbn [from_option]. destruct some; cbn [free_if free_block live]; lia. }
  destruct status as [order|i d|flags].
  - destruct HT as (Hk & Hv & Hlow). destruct (reordered_run_order headers Hok order Hk Hv) as [Hp Hr].
    pose proof (reordered_earliest headers Hok Hu order Hv Hlow) as He. fold (reordered headers order).
    assert (H3 : exists h3, (if some then malloc (free_if some (free_if some h2)) else (true, free_if some (free_if some h2))) = (true, h3) /\
      false ∉ oracle h3 /\ live h3 = live h + (if some then 2 else 0)).
    { destruct some; cbn [free_if]; [|exists h2; split_and!; [done|done|lia]].
      destruct (malloc_ok (free_block (free_block h2)) Ho2) as (h3 & -> & L3 & O3). exists h3. split_and!; [done|done|].
      rewrite L3. cbn [free_block live]. lia. }
    destruct H3 as (h3 & -> & Ho3 & Hl3). cbn [negb].
    destruct (malloc_ok (free_if has_array (free_if some h3))) as (h4 & -> & Hl4 & Ho4); [by destruct has_array, some|]. cbn [negb].
    split_and!; [done|done|done|done|]. rewrite Hl4. cbn [from_option]. unfold registry_blocks.
    rewrite (Permutation_length Hp), (headers_blocks_perm _ _ Hp). fold some.
    destruct has_array, some; cbn [free_if free_block live] in *; lia.
  - apply Hfail. intros reg Hp Hr. destruct (run_order_valid headers Hok Hu reg Hp Hr) as [Hk _].
    destruct HT as [(n & Hn & Hin & Hnot) _]. apply Hnot, (Hk n d); [by eapply list_elem_of_lookup_2|done].
  - apply Hfail. intros reg Hp Hr. destruct (run_order_valid headers Hok Hu reg Hp Hr) as [_ Hv].
    destruct HT as (_ & [Hf|(_ & _ & Hno)]); [done|]. by apply (Hno (map (index_of headers) reg)).
Qed.

Section LoadCorrect.
Variable string_to_integer : bytes -> option Z.
Variable lua_file : bytes -> option lua_chunk.

(** C16: Startup.  While memory lasts, the plugins are the [.lua] files that
    register, in [strcmp] order, the first for each id; the registry holds
    exactly these, every header well formed, each plugin after everything it
    depends on and as early as the order of the names allows.  Loading fails
    only when no such order exists (a missing dependency or a cycle).  When no
    file calls [register] twice, exactly the registry's blocks are in use
    afterwards, none after a failure, and [registry_free] returns them. *)
Theorem registry_load_correct plugins_dir entries h :
  let plugins := keep_first [] (candidates string_to_integer lua_file plugins_dir (lua_names entries)) in
  deps_bounded plugins -> false ∉ oracle h ->
  let '(res, h') := registry_load string_to_integer lua_file (Some plugins_dir) (Some entries) h in
  match res with
  | Some reg =>
      Permutation reg plugins /\ NoDup (map script_id reg) /\ Forall header_ok reg /\ run_order reg /\ earliest plugins reg
  | None => forall reg, Permutation reg plugins -> ~ run_order reg
  end /\
  (registers_once lua_file ->
   live h' = live h + from_option registry_blocks 0 res /\ live (registry_free res h') = live h).
Proof.
  intros plugins Hd Ho. cbn [registry_load]. destruct (scan_spec entries h Ho) as (h1 & -> & Ho1 & Hl1).
  set (some := negb (Nat.eqb (length (lua_names entries)) 0)).
  assert (H2 : exists h2, (if some then malloc h1 else (true, h1)) = (true, h2) /\ false ∉ oracle h2 /\
    live h2 = live h1 + (if some then 1 else 0)).
  { destruct some; [|exists h1; split_and!; [done|done|lia]].
    destruct (malloc_ok h1 Ho1) as (h2 & -> & L2 & O2). exists h2. split_and!; done. }
  destruct H2 as (h2 & -> & Ho2 & Hl2). cbn [negb].
  destruct (register_files_spec string_to_integer lua_file plugins_dir (lua_names entries) [] h2 Ho2) as (h3 & -> & Ho3 & Hl3).
  cbn [app map] in Hl3 |- *. fold plugins in Hl3 |- *.
  destruct (keep_first_nodup [] (candidates string_to_integer lua_file plugins_dir (lua_names entries))) as (Hu & _ & Hsub).
  fold plugins in Hu, Hsub.
  assert (Hok : Forall header_ok plugins).
  { apply Forall_forall. intros hdr Hin%Hsub. unfold candidates in Hin. apply list_elem_of_omap in Hin as (name & _ & Hr). cbv zeta in Hr.
    destruct (4096 <=? _); [done|]. by eapply registers_ok. }
  pose proof (order_headers_spec plugins some (free_if some h3) Hok Hu Hd) as HO.
  destruct (order_headers plugins some (free_if some h3)) as [res h4].
  destruct HO as (Hres & Ho4 & Hl4); [by destruct some|]. split.
  - destruct res as [reg|]; [|exact Hres]. destruct Hres as (Hp & Hr & He). split_and!; [done| | |done|done].
    + by rewrite Hp.
    + by rewrite Hp.
  - intros Honce. specialize (Hl3 Honce).
    assert (Hl : live h4 = live h + from_option registry_blocks 0 res).
    { rewrite Hl4. unfold some in *. destruct (Nat.eqb (length (lua_names entries)) 0); cbn [negb free_if free_block live] in *; lia. }
    split; [done|]. destruct res as [reg|]; cbn [registry_free from_option] in *; [|lia]. destruct Hres as (Hp & _).
    destruct (free_headers_live reg (negb (Nat.eqb (length reg) 0)) h4) as [Hf _]; [by rewrite Hp|done|].
    cbn [free_block live]. rewrite Hf, Hl. unfold registry_blocks. lia.
Qed.
End LoadCorrect.

(** A directory whose first plugin depends on the other two. *)
Definition example_plugin (id : Z) (deps : list lua_value) : lua_chunk :=
  Chunk [table
    [("script_id", LInteger id); ("script_name", LString (bs "n")); ("script_version", LString (bs "1"));
     ("family", LString (bs "f")); ("category", LString (bs "ACT_SETTINGS")); ("dependencies", LTable deps);
     ("risk_factor", LString (bs "Low")); ("description", LString (bs "d")); ("solution", LString (bs "s"))]%string]
    true true.

Definition example_files (path : bytes) : option lua_chunk :=
  if bool_decide (path = bs "p/a.lua") then Some (example_plugin 30 [LInteger 20; LInteger 10])
  else if bool_decide (path = bs "p/b.lua") then Some (example_plugin 20 [LInteger 10])
  else if bool_decide (path = bs "p/c.lua") then Some (example_plugin 10 [])
  else if bool_decide (path = bs "p/d.lua") then Some (example_plugin 20 [])
  else None.

Definition example_entries : list bytes :=
  [bs "."; bs "d.lua"; bs "c.lua"; bs "README"; bs "a.lua"; bs "b.lua"; bs ".lua"].

Lemma registry_load_correct_witness :
  exists reg h', registry_load no_string example_files (Some (bs "p")) (Some example_entries) (Heap [] 0) = (Some reg, h') /\
    map script_id reg = [10; 20; 30] /\ run_order reg /\ Forall header_ok reg /\ live h' = registry_blocks reg.
Proof.
  assert (Hd : deps_bounded (keep_first [] (candidates no_string example_files (bs "p") (lua_names example_entries)))).
  { apply (bool_decide_unpack _). vm_compute. exact I. }
  pose proof (registry_load_correct no_string example_files (bs "p") example_entries (Heap [] 0) Hd (not_elem_of_nil _)) as H.
  destruct (registry_load _ _ _ _ _) as [res h'] eqn:E.
  assert (Hids : (map script_id <$> fst (registry_load no_string example_files (Some (bs "p")) (Some example_entries) (Heap [] 0))) = Some [10; 20; 30])
    by (vm_compute; reflexivity).
  rewrite E in Hids. cbn [fst] in Hids. destruct res as [reg|]; [|discriminate Hids]. exists reg, h'.
  destruct H as [(_ & _ & Hok & Hr & _) Hl]. split_and!; [done|by injection Hids|done|done|].
  apply Hl. intros path. unfold example_files. repeat case_bool_decide; cbn; lia.
Defined.
