(* ===== verification/PortRange.v ===== *)
(** * Port specifications ([src/src/net/port_range.c])

    The parser of the [--ports] grammar, with its bitmap of 65536 bits.  The
    error text is not modelled. *)

From S2P Require Import Prelude CveId.

Definition PORT_MIN : Z := 1.
Definition PORT_MAX : Z := 65535.
Definition PORT_BITMAP_BITS : Z := PORT_MAX + 1.
Definition PORT_BITMAP_BYTES : Z := Z.quot (PORT_BITMAP_BITS + 7) 8.
Definition PORT_TOKEN_MAX_LEN : Z := 16.
Definition PORT_SPEC_MAX_LEN : Z := 8192.
Definition PORT_SPEC_MAX_TOKENS : Z := 4096.

(** [cytadel_port_range_status_t] *)
Inductive port_status :=
  | PORT_RANGE_OK | PORT_RANGE_ERR_MALFORMED | PORT_RANGE_ERR_OUT_OF_BOUNDS | PORT_RANGE_ERR_EMPTY
  | PORT_RANGE_ERR_TOO_MANY | PORT_RANGE_ERR_ALLOC.

#[export] Instance port_status_eq_dec : EqDecision port_status.
Proof. solve_decision. Defined.

(** The accumulation loop, clamp included. *)
Fixpoint parse_uint_loop (tok : bytes) (val : Z) : option Z :=
  match tok with
  | [] => Some val
  | c :: tok =>
      if is_digit c then
        let val := val * 10 + (c - 48) in
        parse_uint_loop tok (if 1000000 <? val then 1000000 else val)
      else None
  end.

Definition port_parse_uint (tok : bytes) : option Z :=
  if Nat.eqb (length tok) 0 || (6 <? Z.of_nat (length tok)) then None else parse_uint_loop tok 0.

(** [bitmap[idx / 8] |= 1u << (idx % 8)] *)
Definition port_bitmap_set (bitmap : list Z) (port : Z) : list Z :=
  alter (fun b => Z.lor b (Z.shiftl 1 (port mod 8))) (Z.to_nat (port / 8)) bitmap.

Definition port_bitmap_get (bitmap : list Z) (port : Z) : bool :=
  negb (Z.land (default 0 (bitmap !! Z.to_nat (port / 8))) (Z.shiftl 1 (port mod 8)) =? 0).

(** [for (v = start_v; v <= end_v; v++)] *)
Definition bitmap_set_range (bitmap : list Z) (start_v end_v : Z) : list Z :=
  foldl port_bitmap_set bitmap (seqZ start_v (end_v - start_v + 1)).

(** The number of dashes, and the token around the first one. *)
Definition is_dash (c : byte) : bool := c =? 45.
Definition dash_count (tok : bytes) : nat := length (filter is_dash tok).

(** One token: its bounds, or the status it is rejected with. *)
Definition port_token (tok : bytes) : port_status + Z * Z :=
  if Nat.eqb (length tok) 0 || (PORT_TOKEN_MAX_LEN <? Z.of_nat (length tok)) then inl PORT_RANGE_ERR_MALFORMED
  else if Nat.ltb 1 (dash_count tok) then inl PORT_RANGE_ERR_MALFORMED
  else
    let values :=
      if Nat.eqb (dash_count tok) 1 then
        let left_ := take_while (fun c => negb (is_dash c)) tok in
        let right_ := tail (drop_while (fun c => negb (is_dash c)) tok) in
        match port_parse_uint left_, port_parse_uint right_ with
        | Some s, Some e => Some (s, e)
        | _, _ => None
        end
      else match port_parse_uint tok with Some v => Some (v, v) | None => None end in
    match values with
    | None => inl PORT_RANGE_ERR_MALFORMED
    | Some (start_v, end_v) =>
        if (start_v <? PORT_MIN) || (PORT_MAX <? start_v) || (end_v <? PORT_MIN) || (PORT_MAX <? end_v)
        then inl PORT_RANGE_ERR_OUT_OF_BOUNDS
        else if end_v <? start_v then inl PORT_RANGE_ERR_MALFORMED
        else inr (start_v, end_v)
    end.

(** The [for (;;)] loop: [tokens_left] is what the token cap still admits. *)
Fixpoint port_tokens (tokens_left : nat) (rest : bytes) (bitmap : list Z) : port_status + list Z :=
  match tokens_left with
  | O => inl PORT_RANGE_ERR_TOO_MANY
  | S tokens_left =>
      match port_token (take_while (fun c => negb (c =? 44)) rest) with
      | inl e => inl e
      | inr (start_v, end_v) =>
          let bitmap := bitmap_set_range bitmap start_v end_v in
          match drop_while (fun c => negb (c =? 44)) rest with
          | [] => inr bitmap
          | _ :: rest => port_tokens tokens_left rest bitmap
          end
      end
  end.

Definition all_ports : list Z := seqZ PORT_MIN (PORT_MAX - PORT_MIN + 1).

(** [cytadel_port_range_parse] over [*out_list], a port list or a null pointer. *)
Definition port_range_parse (spec : option bytes) (out_list : option (list Z)) (h : heap)
    : port_status * option (list Z) * heap :=
  match out_list, spec with
  | None, _ | _, None | _, Some [] => (PORT_RANGE_ERR_MALFORMED, out_list, h)
  | Some _, Some spec =>
      if PORT_SPEC_MAX_LEN <=? Z.min (Z.of_nat (length spec)) PORT_SPEC_MAX_LEN
      then (PORT_RANGE_ERR_MALFORMED, out_list, h) else
      match port_tokens (Z.to_nat PORT_SPEC_MAX_TOKENS) spec (replicate (Z.to_nat PORT_BITMAP_BYTES) 0) with
      | inl e => (e, out_list, h)
      | inr bitmap =>
          let ports := filter (fun v => port_bitmap_get bitmap v) all_ports in
          if Nat.eqb (length ports) 0 then (PORT_RANGE_ERR_EMPTY, out_list, h) else
          let '(ok, h) := malloc h in
          if negb ok then (PORT_RANGE_ERR_ALLOC, out_list, h) else (PORT_RANGE_OK, Some ports, h)
      end
  end.

(** [cytadel_port_list_free]: the list frees its block, if it holds one. *)
Definition port_list_free (list_ : option (option (list Z))) (h : heap) : option (option (list Z)) * heap :=
  match list_ with
  | None => (None, h)
  | Some None => (Some None, h)
  | Some (Some _) => (Some None, free_block h)
  end.

(** ** Reference grammar *)

(** The value of a string of decimal digits. *)
Definition decimal (l : bytes) : Z := foldl (fun v c => v * 10 + (c - 48)) 0 l.

Definition number (l : bytes) (v : Z) : Prop :=
  (1 <= length l <= 6)%nat /\ Forall (fun c => 48 <= c <= 57) l /\ v = decimal l.

(** [tok] denotes the ports from [a] to [b]. *)
Definition denotes (tok : bytes) (a b : Z) : Prop :=
  ((number tok a /\ b = a) \/
   (exists l r, tok = l ++ [45] ++ r /\ number l a /\ number r b)) /\
  1 <= a <= b /\ b <= 65535.

(** ** The bitmap *)

Lemma land_bit_test x k : 0 <= k -> (Z.land x (Z.shiftl 1 k) =? 0) = negb (Z.testbit x k).
Proof.
  intros Hk. rewrite Z.shiftl_1_l. destruct (Z.testbit x k) eqn:E; simpl.
  - apply Z.eqb_neq. intros H0. assert (Z.testbit (Z.land x (2 ^ k)) k = false) as HF by (rewrite H0; apply Z.bits_0).
    rewrite Z.land_spec, E, Z.pow2_bits_true in HF by done. done.
  - apply Z.eqb_eq, Z.bits_inj'. intros n Hn. rewrite Z.land_spec, Z.bits_0, Z.pow2_bits_eqb by done.
    destruct (Z.eqb_spec k n) as [<-|]; [by rewrite E|apply andb_false_r].
Qed.

Lemma length_bitmap_set b p : length (port_bitmap_set b p) = length b.
Proof. apply length_alter. Qed.

Lemma bitmap_get_set b p q :
  0 <= p -> 0 <= q -> p / 8 < Z.of_nat (length b) ->
  port_bitmap_get (port_bitmap_set b p) q = (p =? q) || port_bitmap_get b q.
Proof.
  intros Hp Hq Hl. unfold port_bitmap_get, port_bitmap_set.
  pose proof (Z.mod_pos_bound p 8 ltac:(lia)). pose proof (Z.mod_pos_bound q 8 ltac:(lia)).
  pose proof (Z.div_mod p 8 ltac:(lia)). pose proof (Z.div_mod q 8 ltac:(lia)).
  pose proof (Z.div_pos p 8 ltac:(lia) ltac:(lia)). pose proof (Z.div_pos q 8 ltac:(lia) ltac:(lia)).
  destruct (Z.eq_dec (p / 8) (q / 8)) as [E|E].
  - rewrite <- E, list_lookup_alter_eq.
    destruct (lookup_lt_is_Some_2 b (Z.to_nat (p / 8))) as [x Hx]; [lia|]. rewrite Hx. simpl.
    rewrite !land_bit_test, !negb_involutive by lia. rewrite Z.lor_spec, Z.shiftl_1_l, Z.pow2_bits_eqb by lia.
    rewrite orb_comm. f_equal. destruct (Z.eqb_spec (p mod 8) (q mod 8)), (Z.eqb_spec p q); try done; exfalso; lia.
  - rewrite list_lookup_alter_ne by lia. destruct (Z.eqb_spec p q) as [->|]; [done|done].
Qed.

Lemma bitmap_set_range_spec b s e q :
  0 <= s -> 0 <= q -> e / 8 < Z.of_nat (length b) ->
  length (bitmap_set_range b s e) = length b /\
  port_bitmap_get (bitmap_set_range b s e) q = ((s <=? q) && (q <=? e)) || port_bitmap_get b q.
Proof.
  intros Hs Hq Hl. unfold bitmap_set_range.
  assert (forall l b, Forall (fun v => 0 <= v /\ v / 8 < Z.of_nat (length b)) l ->
    length (foldl port_bitmap_set b l) = length b /\
    port_bitmap_get (foldl port_bitmap_set b l) q = existsb (Z.eqb q) l || port_bitmap_get b q) as HF.
  { clear -Hq. induction l as [|v l IH]; intros b Hall; [done|]. cbn [foldl existsb].
    apply Forall_cons in Hall as [[Hv Hv8] Hall].
    destruct (IH (port_bitmap_set b v)) as [-> ->]; [by rewrite length_bitmap_set|].
    rewrite length_bitmap_set, bitmap_get_set by done. split; [done|].
    rewrite (Z.eqb_sym q v). destruct (v =? q), (existsb (Z.eqb q) l); done. }
  destruct (HF (seqZ s (e - s + 1)) b) as [-> ->].
  - apply Forall_forall. intros v Hv%elem_of_seqZ. split; [lia|].
    assert (v / 8 <= e / 8) by (apply Z.div_le_mono; lia). lia.
  - split; [done|]. f_equal. apply eq_true_iff_eq. rewrite existsb_true, andb_true_iff, !Z.leb_le.
    split; [intros (v & Hv%elem_of_seqZ & E%Z.eqb_eq); lia|]. intros Hr. exists q. split; [|by apply Z.eqb_eq].
    apply elem_of_seqZ. lia.
Qed.

(** ** Numbers and tokens *)

Lemma decimal_snoc l c : decimal (l ++ [c]) = decimal l * 10 + (c - 48).
Proof. unfold decimal. by rewrite foldl_app. Qed.

Lemma decimal_bound l : Forall (fun c => 48 <= c <= 57) l -> 0 <= decimal l < 10 ^ Z.of_nat (length l).
Proof.
  induction l as [|c l IH] using rev_ind; intros Hl; [done|].
  apply Forall_app in Hl as [Hl Hc]. apply Forall_inv in Hc. specialize (IH Hl).
  rewrite decimal_snoc, length_app. simpl length.
  replace (Z.of_nat (length l + 1)) with (Z.succ (Z.of_nat (length l))) by lia.
  rewrite Z.pow_succ_r by lia. lia.
Qed.

Lemma parse_uint_loop_spec l val k :
  0 <= val < 10 ^ k -> 0 <= k -> k + Z.of_nat (length l) <= 6 ->
  parse_uint_loop l val =
  if forallb is_digit l then Some (foldl (fun v c => v * 10 + (c - 48)) val l) else None.
Proof.
  revert val k; induction l as [|c l IH]; intros val k Hv Hk Hl; [done|]. cbn [parse_uint_loop forallb foldl].
  destruct (is_digit c) eqn:Hc; [|done]. cbn [andb length] in *. unfold is_digit in Hc. breflect.
  assert (Hb : 0 <= val * 10 + (c - 48) < 10 ^ (k + 1)) by (rewrite Z.pow_add_r by lia; lia).
  assert (10 ^ (k + 1) <= 10 ^ 6) by (apply Z.pow_le_mono_r; lia). change (10 ^ 6) with 1000000 in *.
  rewrite (proj2 (Z.ltb_ge _ _)) by lia. apply (IH _ (k + 1)); lia.
Qed.

Lemma port_parse_uint_spec l v : port_parse_uint l = Some v <-> number l v.
Proof.
  unfold port_parse_uint, number. destruct (Nat.eqb_spec (length l) 0) as [E|E]; cbn [orb].
  { split; [done|lia]. }
  destruct (Z.ltb_spec 6 (Z.of_nat (length l))); [split; [done|lia]|].
  rewrite (parse_uint_loop_spec l 0 0) by lia. rewrite <- forallb_is_digit. unfold decimal.
  destruct (forallb is_digit l); split; [intros [= <-]|intros (_ & _ & ->)|done|intros (_ & HF & _)];
    [split_and!; [lia|lia|done|done]|done|done].
Qed.

Definition no_dash (c : byte) : bool := negb (is_dash c).

Lemma digits_no_dash l : Forall (fun c => 48 <= c <= 57) l -> Forall (fun c => no_dash c = true) l.
Proof.
  intros H. eapply Forall_impl; [exact H|]. intros c Hc. unfold no_dash, is_dash.
  simpl in Hc. rewrite (proj2 (Z.eqb_neq c 45)) by lia. done.
Qed.

Lemma no_dash_count l : Forall (fun c => no_dash c = true) l -> dash_count l = 0%nat.
Proof.
  unfold dash_count. induction 1 as [|c l Hc _ IH]; [done|].
  rewrite filter_cons_False; [exact IH|]. cbv beta in Hc. unfold no_dash in Hc.
  apply negb_true_iff in Hc. rewrite Hc. exact id.
Qed.

Lemma dash_count_app l r : dash_count (l ++ r) = (dash_count l + dash_count r)%nat.
Proof. unfold dash_count. by rewrite filter_app, length_app. Qed.

Lemma number_length l v : number l v -> (1 <= length l <= 6)%nat.
Proof. by intros [H _]. Qed.

(** The values a token is cut into. *)
Definition token_values (tok : bytes) (a b : Z) : Prop :=
  (number tok a /\ b = a) \/ (exists l r, tok = l ++ [45] ++ r /\ number l a /\ number r b).

Lemma one_dash_split tok :
  dash_count tok = 1%nat -> exists r, drop_while no_dash tok = 45 :: r.
Proof.
  intros H1. pose proof (take_drop_while no_dash tok) as E.
  pose proof (no_dash_count _ (take_while_all no_dash tok)) as H0.
  destruct (drop_while no_dash tok) as [|c r] eqn:Ed.
  - rewrite app_nil_r in E. rewrite E in H0. lia.
  - exists r. apply drop_while_head in Ed. unfold no_dash, is_dash in Ed.
    apply negb_false_iff, Z.eqb_eq in Ed. by subst.
Qed.

(** A token with values is short enough and has at most one dash. *)
Lemma token_values_shape tok a b :
  token_values tok a b ->
  (1 <= length tok <= 13)%nat /\
  ((dash_count tok = 0%nat /\ number tok a /\ b = a) \/
   (dash_count tok = 1%nat /\ number (take_while no_dash tok) a /\
    number (tail (drop_while no_dash tok)) b)).
Proof.
  intros [[Hn ->]|(l & r & -> & Hl & Hr)].
  - pose proof (number_length _ _ Hn). split; [lia|]. left. split; [|done].
    apply no_dash_count, digits_no_dash, Hn.
  - pose proof (number_length _ _ Hl). pose proof (number_length _ _ Hr).
    rewrite !length_app. simpl length. split; [lia|]. right.
    rewrite !dash_count_app, (no_dash_count l), (no_dash_count r) by (apply digits_no_dash; first [apply Hl|apply Hr]).
    split; [done|]. pose proof (digits_no_dash l (proj1 (proj2 Hl))) as Hld.
    autorewrite with scan. simpl. by rewrite app_nil_r.
Qed.

Lemma port_token_spec tok a b : port_token tok = inr (a, b) <-> denotes tok a b.
Proof.
  unfold port_token, denotes. fold (token_values tok a b). fold no_dash. split.
  - destruct (Nat.eqb (length tok) 0 || _); [done|]. destruct (Nat.ltb_spec 1 (dash_count tok)); [done|].
    assert (forall v, v = Some (a, b) ->
      match v with
      | None => inl PORT_RANGE_ERR_MALFORMED
      | Some (s, e) => if (s <? PORT_MIN) || (PORT_MAX <? s) || (e <? PORT_MIN) || (PORT_MAX <? e)
                       then inl PORT_RANGE_ERR_OUT_OF_BOUNDS
                       else if e <? s then inl PORT_RANGE_ERR_MALFORMED else inr (s, e)
      end = inr (a, b) -> 1 <= a <= b /\ b <= 65535) as Hrange.
    { intros v ->. unfold PORT_MIN, PORT_MAX. destruct (_ || _) eqn:E1; [done|].
      destruct (b <? a) eqn:E2; [done|]. breflect. lia. }
    set (values := if Nat.eqb (dash_count tok) 1 then _ else _). intros E.
    assert (Hv : values = Some (a, b)).
    { destruct values as [[s e]|]; [|done]. destruct (_ || _) in E; [done|]. destruct (e <? s) in E; [done|].
      by injection E as <- <-. }
    split; [|by apply (Hrange values)]. clear E Hrange. subst values. revert Hv.
    destruct (Nat.eqb_spec (dash_count tok) 1) as [E1|E1].
    + destruct (one_dash_split tok E1) as [r Hr]. change (fun c => negb (is_dash c)) with no_dash. rewrite Hr. simpl tail.
      destruct (port_parse_uint (take_while no_dash tok)) as [s|] eqn:Es; [|done].
      destruct (port_parse_uint r) as [e|] eqn:Ee; [|done]. intros [= <- <-]. right.
      exists (take_while no_dash tok), r. split; [|by split; apply port_parse_uint_spec].
      rewrite <- (take_drop_while no_dash tok) at 1. by rewrite Hr.
    + destruct (port_parse_uint tok) as [s|] eqn:Es; [|done]. intros [= <- <-]. left.
      split; [by apply port_parse_uint_spec|done].
  - intros [Hv Hr]. destruct (token_values_shape _ _ _ Hv) as [Hlen Hshape].
    destruct (Nat.eqb_spec (length tok) 0); [lia|]. cbn [orb].
    rewrite (proj2 (Z.ltb_ge PORT_TOKEN_MAX_LEN _)) by (unfold PORT_TOKEN_MAX_LEN; lia).
    assert (Hend : (if (a <? PORT_MIN) || (PORT_MAX <? a) || (b <? PORT_MIN) || (PORT_MAX <? b)
      then inl PORT_RANGE_ERR_OUT_OF_BOUNDS else if b <? a then inl PORT_RANGE_ERR_MALFORMED else inr (a, b))
      = @inr port_status (Z * Z) (a, b)).
    { unfold PORT_MIN, PORT_MAX. rewrite !(proj2 (Z.ltb_ge _ _)) by lia. done. }
    destruct Hshape as [(H0 & Hn & ->)|(H1 & Hl & Hn)].
    + rewrite H0. cbn [Nat.ltb Nat.leb Nat.eqb]. apply port_parse_uint_spec in Hn. by rewrite Hn.
    + rewrite H1. cbn [Nat.ltb Nat.leb Nat.eqb]. apply port_parse_uint_spec in Hl, Hn.
      change (fun c => negb (is_dash c)) with no_dash. by rewrite Hl, Hn.
Qed.

(** ** The specification as a whole *)

(** Within the caps, and every token denotes a range. *)
Definition valid_spec (spec : bytes) : Prop :=
  spec <> [] /\ Z.of_nat (length spec) < PORT_SPEC_MAX_LEN /\
  Z.of_nat (length (split_on 44 spec)) <= PORT_SPEC_MAX_TOKENS /\
  forall tok, tok ∈ split_on 44 spec -> exists a b, denotes tok a b.

Definition selects (toks : list bytes) (q : Z) : Prop :=
  exists tok a b, tok ∈ toks /\ denotes tok a b /\ a <= q <= b.

Lemma port_tokens_spec n rest bm :
  length bm = Z.to_nat PORT_BITMAP_BYTES ->
  match port_tokens n rest bm with
  | inr bm' => (length (split_on 44 rest) <= n)%nat /\
      (forall tok, tok ∈ split_on 44 rest -> exists a b, denotes tok a b) /\
      (forall q, 0 <= q -> port_bitmap_get bm' q = true <->
         port_bitmap_get bm q = true \/ selects (split_on 44 rest) q)
  | inl _ => (n < length (split_on 44 rest))%nat \/
      exists tok, tok ∈ split_on 44 rest /\ forall a b, ~ denotes tok a b
  end.
Proof.
  revert rest bm; induction n as [|n IH]; intros rest bm Hbm; cbn [port_tokens].
  { left. destruct (split_on_cons 44 rest) as (f & fs & ->). simpl. lia. }
  rewrite (split_on_scan 44 rest). set (tok := take_while _ rest).
  destruct (port_token tok) as [e|[a b]] eqn:Et.
  { right. exists tok. split; [by left|]. intros a b Hd%port_token_spec. by rewrite Hd in Et. }
  pose proof (proj1 (port_token_spec _ _ _) Et) as Hd. pose proof Hd as [_ Hr].
  assert (Hset : forall q, 0 <= q -> length (bitmap_set_range bm a b) = length bm /\
    port_bitmap_get (bitmap_set_range bm a b) q = ((a <=? q) && (q <=? b)) || port_bitmap_get bm q).
  { intros q Hq. apply bitmap_set_range_spec; [lia|done|]. rewrite Hbm.
    assert (b / 8 <= 65535 / 8) by (apply Z.div_le_mono; lia). change (65535 / 8) with 8191 in *.
    change (Z.of_nat (Z.to_nat PORT_BITMAP_BYTES)) with 8192. lia. }
  destruct (drop_while _ rest) as [|c after].
  - split; [simpl; lia|]. split.
    + intros t Ht%list_elem_of_singleton. subst t. by exists a, b.
    + intros q Hq. rewrite (proj2 (Hset q Hq)), orb_true_iff, andb_true_iff, !Z.leb_le. split.
      * intros [Hin|?]; [right; exists tok, a, b; by split; [left|]|by left].
      * intros [?|(t & a' & b' & Ht%list_elem_of_singleton & Hd' & Hin)]; [by right|left]. subst t.
        apply port_token_spec in Hd'. rewrite Hd' in Et. injection Et as <- <-. done.
  - specialize (IH after (bitmap_set_range bm a b)). rewrite (proj1 (Hset 0 ltac:(done))) in IH. specialize (IH Hbm).
    destruct (port_tokens n after _) as [e|bm'].
    + destruct IH as [Hl|(t & Ht & Hn)]; [left; simpl; lia|right]. exists t. split; [by right|done].
    + destruct IH as (Hl & Hall & Hget). split; [simpl; lia|]. split.
      * intros t [->|Ht]%elem_of_cons; [by exists a, b|by apply Hall].
      * intros q Hq. rewrite Hget, (proj2 (Hset q Hq)), orb_true_iff, andb_true_iff, !Z.leb_le by done. split.
        -- intros [[Hin|?]|(t & a' & b' & Ht & Hd' & Hin)]; [right|by left|right].
           ++ exists tok, a, b. by split; [left|].
           ++ exists t, a', b'. by split; [right|].
        -- intros [?|(t & a' & b' & [->|Ht]%elem_of_cons & Hd' & Hin)]; [left; by right| |right; by exists t, a', b'].
           left. left. apply port_token_spec in Hd'. rewrite Hd' in Et. injection Et as <- <-. done.
Qed.

Lemma bitmap_empty q : port_bitmap_get (replicate (Z.to_nat PORT_BITMAP_BYTES) 0) q = false.
Proof.
  unfold port_bitmap_get. generalize (Z.to_nat PORT_BITMAP_BYTES) (Z.to_nat (q / 8)). intros n i.
  destruct (replicate n 0 !! i) as [x|] eqn:E; simpl; [|done].
  apply lookup_replicate in E as [-> _]. done.
Qed.

Lemma sorted_filter_seqZ (P : Z -> Prop) `{forall x, Decision (P x)} m n :
  StronglySorted Z.lt (filter P (seqZ m n)).
Proof.
  assert (forall k i, StronglySorted Z.lt (filter P (seqZ i (Z.of_nat k))) ) as HS.
  { induction k as [|k IH]; intros i; [constructor|].
    rewrite seqZ_cons by lia. replace (Z.pred (Z.of_nat (S k))) with (Z.of_nat k) by lia.
    rewrite filter_cons. destruct (decide (P i)); [|apply IH]. constructor; [apply IH|].
    apply Forall_forall. intros x [_ Hx%elem_of_seqZ]%list_elem_of_filter. lia. }
  destruct (Z.le_gt_cases 0 n) as [Hn|Hn].
  - specialize (HS (Z.to_nat n) m). by rewrite Z2Nat.id in HS.
  - rewrite seqZ_nil by lia. constructor.
Qed.

Lemma elem_of_all_ports q : q ∈ all_ports <-> 1 <= q <= 65535.
Proof. unfold all_ports, PORT_MIN, PORT_MAX. rewrite elem_of_seqZ. lia. Qed.

Lemma port_tokens_status n rest bm : port_tokens n rest bm <> inl PORT_RANGE_OK.
Proof.
  revert rest bm; induction n as [|n IH]; intros rest bm; [done|]. cbn [port_tokens]. unfold port_token.
  repeat case_match; simplify_eq; try done; apply IH.
Qed.

(** The ports of the final bitmap. *)
Lemma port_tokens_ports n spec bm :
  port_tokens n spec (replicate (Z.to_nat PORT_BITMAP_BYTES) 0) = inr bm ->
  let ports := filter (fun v => port_bitmap_get bm v) all_ports in
  (length (split_on 44 spec) <= n)%nat /\
  (forall tok, tok ∈ split_on 44 spec -> exists a b, denotes tok a b) /\
  ports <> [] /\ StronglySorted Z.lt ports /\
  (forall q, q ∈ ports <-> selects (split_on 44 spec) q).
Proof.
  intros E ports.
  pose proof (port_tokens_spec n spec (replicate (Z.to_nat PORT_BITMAP_BYTES) 0) (length_replicate _ _)) as H.
  rewrite E in H. destruct H as (Hn & Hall & Hget).
  assert (Hin : forall q, q ∈ ports <-> selects (split_on 44 spec) q).
  { intros q. unfold ports. rewrite list_elem_of_filter, elem_of_all_ports, Is_true_true. split.
    - intros [Hq Hr]. apply Hget in Hq; [|lia]. rewrite bitmap_empty in Hq. by destruct Hq.
    - intros Hs. assert (1 <= q <= 65535) as Hr.
      { destruct Hs as (tok & a & b & _ & [_ Hab] & Hq). lia. }
      split; [|done]. apply Hget; [lia|by right]. }
  split_and!; [done|done| |apply sorted_filter_seqZ|done].
  destruct (split_on_cons 44 spec) as (f & fs & Hs). destruct (Hall f) as (a & b & Hd).
  { rewrite Hs. by left. }
  assert (a ∈ ports) as Ha.
  { apply Hin. exists f, a, b. split_and!; [rewrite Hs; by left|done|lia|apply Hd]. }
  intros Hnil. rewrite Hnil in Ha. by apply elem_of_nil in Ha.
Qed.

(** The port list of a specification.  The parser succeeds exactly on the
    specifications within the caps whose every token denotes a range of ports
    (memory permitting), and then stores, strictly ascending and without
    repetition, exactly the ports some token selects, never an empty list; on
    a failure [*out_list] is left as it was, and no block stays allocated. *)
Theorem port_range_correct spec out h :
  let '(st, out', h') := port_range_parse (Some spec) (Some out) h in
  (st = PORT_RANGE_OK ->
     valid_spec spec /\
     (exists ports, out' = Some ports /\ ports <> [] /\ StronglySorted Z.lt ports /\
        forall q, q ∈ ports <-> selects (split_on 44 spec) q) /\
     live h' = live h + 1) /\
  (st <> PORT_RANGE_OK ->
     (~ valid_spec spec \/ (st = PORT_RANGE_ERR_ALLOC /\ false ∈ oracle h)) /\
     out' = Some out /\ live h' = live h).
Proof.
  unfold port_range_parse, valid_spec. destruct spec as [|c spec]; [split; [done|intros _]; split_and!; [left; tauto|done|done]|].
  destruct (Z.leb_spec PORT_SPEC_MAX_LEN (Z.min (Z.of_nat (length (c :: spec))) PORT_SPEC_MAX_LEN)) as [Hl|Hl].
  { split; [done|intros _]. split_and!; [left; cbn [length] in *; lia|done|done]. }
  pose proof (port_tokens_status (Z.to_nat PORT_SPEC_MAX_TOKENS) (c :: spec) (replicate (Z.to_nat PORT_BITMAP_BYTES) 0)) as Hst.
  destruct (port_tokens _ _ _) as [e|bm] eqn:E.
  - split; [intros ->; done|intros _]. split_and!; [left|done|done].
    pose proof (port_tokens_spec (Z.to_nat PORT_SPEC_MAX_TOKENS) (c :: spec) _ (length_replicate _ 0)) as H.
    rewrite E in H. intros (_ & _ & Hn & Hall). destruct H as [H|(tok & Ht & Hno)]; [lia|].
    destruct (Hall tok Ht) as (a & b & Hd). by eapply Hno.
  - destruct (port_tokens_ports _ _ _ E) as (Hn & Hall & Hne & Hsort & Hin).
    destruct (Nat.eqb_spec (length (filter (fun v => port_bitmap_get bm v) all_ports)) 0) as [H0|_];
      [by apply length_zero_iff_nil in H0|].
    malloc_case h ok h' Hlive Hor Ho. destruct ok.
    + split; [intros _|done]. split; [|split; [by eexists|done]].
      split_and!; [done|lia|unfold PORT_SPEC_MAX_TOKENS in *; lia|exact Hall].
    + split; [done|intros _]. split_and!; [right; split; [done|by apply Hor]|done|lia].
Qed.
