(* ===== verification/TargetsFile.v ===== *)
(** * The targets file ([src/src/net/targets_file.c])

    Reading a file line by line.  A file is the bytes a reader gets and whether
    the stream then fails instead of ending ([ferror]); a path that cannot be
    opened (missing, a symbolic link, [fdopen] failing) has none.  [fgets] is
    that of the C library. *)

From S2P Require Import Prelude Cidr.

Definition TARGETS_FILE_LINE_MAX : Z := 512.
Definition TARGETS_FILE_MAX_LINES : Z := 100000.

(** [cytadel_targets_file_status_t] *)
Inductive file_status :=
  | FILE_OK | FILE_ERR_OPEN | FILE_ERR_LINE_TOO_LONG | FILE_ERR_TOO_MANY_LINES | FILE_ERR_ALLOC.

#[export] Instance file_status_eq_dec : EqDecision file_status.
Proof. solve_decision. Defined.

Record file_data := FileData { content : bytes; read_error : bool }.

(** ** [fgets] *)

(** Up to [n] bytes, through the first newline; and the rest. *)
Fixpoint take_line (n : nat) (s : bytes) : bytes * bytes :=
  match n, s with
  | S n, c :: s =>
      if c =? 10 then ([c], s) else let '(l, r) := take_line n s in (c :: l, r)
  | _, _ => ([], s)
  end.

(** Into a buffer of [n + 1] bytes: what it stores, the rest and [feof];
    [None] at the end of the stream or when the stream fails. *)
Definition fgets (n : nat) (s : bytes) (err : bool) : option (bytes * bytes * bool) :=
  match s with
  | [] => None
  | _ =>
      let '(l, r) := take_line n s in
      let hit_end := bool_decide (r = []) && Nat.ltb (length l) n && negb (bool_decide (last l = Some 10)) in
      if hit_end && err then None else Some (l, r, hit_end)
  end.

(** ** The module *)

(** [cytadel_targets_file_trim_line] *)
Definition trim_line (line : bytes) : bytes :=
  let line := trim_right_while (fun c => (c =? 10) || (c =? 13)) line in
  trim_spaces (before_char 35 line).

(** The lines read so far; the array has a block once [capacity] is not 0,
    and every line has one. *)
Record lines_array := Lines { lines : list bytes; lines_capacity : Z }.

(** [cytadel_targets_file_lines_release] *)
Definition lines_release (a : lines_array) (h : heap) : heap :=
  if lines_capacity a =? 0 then h else free_block (foldr (fun _ h => free_block h) h (lines a)).

(** The growth of the array and the copy of one line. *)
Definition lines_push (a : lines_array) (line : bytes) (h : heap) : bool * lines_array * heap :=
  let '(ok, a, h) :=
    if Z.of_nat (length (lines a)) =? lines_capacity a then
      let new_capacity := if lines_capacity a =? 0 then 16 else lines_capacity a * 2 in
      let '(ok, h) := realloc (negb (lines_capacity a =? 0)) h in
      if ok then (true, Lines (lines a) new_capacity, h) else (false, a, h)
    else (true, a, h) in
  if negb ok then (false, a, h) else
  let '(ok, h) := malloc h in
  if negb ok then (false, a, h) else (true, Lines (lines a ++ [line]) (lines_capacity a), h).

(** The [while (fgets(...) != NULL)] loop; every turn reads at least one byte,
    so the length of the content is fuel enough. *)
Fixpoint read_loop (fuel : nat) (s : bytes) (err : bool) (a : lines_array) (h : heap)
    : file_status * lines_array * heap :=
  match fuel with
  | O => (FILE_OK, a, h)
  | S fuel =>
      match fgets (Z.to_nat TARGETS_FILE_LINE_MAX) s err with
      | None => (FILE_OK, a, h)
      | Some (chunk, rest, feof) =>
          let raw := c_string chunk in
          let has_newline := bool_decide (last raw = Some 10) in
          if negb has_newline && negb feof then (FILE_ERR_LINE_TOO_LONG, a, h) else
          let line := trim_line raw in
          if Nat.eqb (length line) 0 then read_loop fuel rest err a h else
          if TARGETS_FILE_MAX_LINES <=? Z.of_nat (length (lines a)) then (FILE_ERR_TOO_MANY_LINES, a, h) else
          let '(ok, a, h) := lines_push a line h in
          if negb ok then (FILE_ERR_ALLOC, a, h) else read_loop fuel rest err a h
      end
  end.

Section Reader.
Variable open_file : bytes -> option file_data.

(** [cytadel_targets_file_read]; [out] is given. *)
Definition targets_file_read (path : option bytes) (out : lines_array) (h : heap)
    : file_status * lines_array * heap :=
  match path with
  | None | Some [] => (FILE_ERR_OPEN, out, h)
  | Some path =>
      match open_file path with
      | None => (FILE_ERR_OPEN, out, h)
      | Some f =>
          let '(st, a, h) := read_loop (S (length (content f))) (content f) (read_error f) (Lines [] 0) h in
          if negb (bool_decide (st = FILE_OK)) then (st, out, lines_release a h) else (FILE_OK, a, h)
      end
  end.
End Reader.

(** ** Specification *)

(** The lines of a text: what is between the newlines, and after the last one
    if it is not empty. *)
Definition text_lines (s : bytes) : list bytes :=
  let fs := split_on 10 s in
  if bool_decide (last fs = Some []) then removelast fs else fs.

(** What a line of the file asks for: its text before a [#], trimmed, when
    that is not empty. *)
Definition line_entry (l : bytes) : option bytes :=
  match trim_spaces (before_char 35 l) with [] => None | e => Some e end.

Definition file_entries (s : bytes) : list bytes := omap line_entry (text_lines s).

(** The blocks of the array. *)
Definition lines_owned (a : lines_array) : Z :=
  if lines_capacity a =? 0 then 0 else 1 + Z.of_nat (length (lines a)).

Definition lines_ok (a : lines_array) : Prop :=
  0 <= lines_capacity a /\ Z.of_nat (length (lines a)) <= lines_capacity a.

(** ** Lemmas on text *)

Definition no_newline (c : byte) : bool := negb (c =? 10).

Lemma text_lines_cons s :
  s <> [] ->
  text_lines s = take_while no_newline s ::
    match drop_while no_newline s with [] => [] | _ :: r => text_lines r end.
Proof.
  intros Hs. unfold text_lines. rewrite (split_on_scan 10 s). fold no_newline.
  change (fun c : Z => negb (c =? 10)) with no_newline.
  pose proof (take_drop_while no_newline s) as E. destruct (drop_while no_newline s) as [|c r].
  - rewrite app_nil_r in E. rewrite E. cbn [last]. rewrite bool_decide_eq_false_2; [done|]. intros [=]. done.
  - destruct (split_on_cons 10 r) as (f & fs & Er). rewrite Er.
    change (last (take_while no_newline s :: f :: fs)) with (last (f :: fs)).
    case_bool_decide; [|done]. by destruct fs.
Qed.

Lemma take_line_spec n s :
  let f := take_while no_newline s in
  match drop_while no_newline s with
  | [] => take_line n s = (take n s, drop n s)
  | _ :: rest =>
      take_line n s = if Nat.ltb (length f) n then (f ++ [10], rest) else (take n s, drop n s)
  end.
Proof.
  revert s; induction n as [|n IH]; intros s; cbn [take_line].
  { destruct (drop_while no_newline s); [done|]. by rewrite (proj2 (Nat.ltb_ge _ 0)) by lia. }
  destruct s as [|c s]; [done|]. cbn [take_while drop_while]. specialize (IH s). cbv zeta in IH.
  destruct (no_newline c) eqn:Hn; unfold no_newline in Hn; breflect.
  - rewrite (proj2 (Z.eqb_neq c 10)) by done. destruct (drop_while no_newline s) as [|d rest]; rewrite IH; [done|].
    cbn [length].
    destruct (Nat.ltb_spec (length (take_while no_newline s)) n), (Nat.ltb_spec (S (length (take_while no_newline s))) (S n));
      (done || lia).
  - subst c. done.
Qed.

Lemma trim_right_split f l : exists t, l = trim_right_while f l ++ t /\ Forall (fun c => f c = true) t.
Proof.
  exists (rev (take_while f (rev l))). unfold trim_right_while. split.
  - rewrite <- rev_app_distr, take_drop_while. by rewrite rev_involutive.
  - apply Forall_rev, take_while_all.
Qed.

Lemma drop_while_app_all f l t : Forall (fun c => f c = true) l -> drop_while f (l ++ t) = drop_while f t.
Proof. apply drop_while_app. Qed.

Lemma trim_spaces_app l t : Forall (fun c => is_space c = true) t -> trim_spaces (l ++ t) = trim_spaces l.
Proof.
  intros Ht. unfold trim_spaces, trim_right_while. f_equal.
  assert (Hl : drop_while is_space (l ++ t) = drop_while is_space l ++ t \/
               (drop_while is_space (l ++ t) = [] /\ drop_while is_space l = [])).
  { induction l as [|c l IH]; cbn [app drop_while].
    - right. by destruct (take_drop_while_id _ _ Ht).
    - destruct (is_space c); [exact IH|by left]. }
  destruct Hl as [->|[-> ->]]; [|done]. rewrite rev_app_distr, drop_while_app; [done|]. by apply Forall_rev.
Qed.

Lemma before_char_app ch l t :
  before_char ch (l ++ t) =
  if forallb (fun c => negb (c =? ch)) l then l ++ before_char ch t else before_char ch l.
Proof.
  unfold before_char. induction l as [|c l IH]; cbn [app take_while forallb]; [done|].
  destruct (negb (c =? ch)); cbn [andb]; [|done]. rewrite IH. by destruct (forallb _ l).
Qed.

Lemma before_char_none ch l : forallb (fun c => negb (c =? ch)) l = true -> before_char ch l = l.
Proof.
  intros H. unfold before_char. apply take_drop_while_id, Forall_forall. intros c Hc.
  rewrite forallb_forall in H. apply H. by apply list_elem_of_In.
Qed.

(** White space at the end of a line is not part of its entry. *)
Lemma entry_app_spaces l t :
  Forall (fun c => is_space c = true) t -> trim_spaces (before_char 35 (l ++ t)) = trim_spaces (before_char 35 l).
Proof.
  intros Ht. rewrite before_char_app. destruct (forallb _ l) eqn:E; [|done].
  rewrite (before_char_none 35 l E), (before_char_none 35 t); [by apply trim_spaces_app|].
  apply forallb_forall. intros c Hc%list_elem_of_In. pose proof (proj1 (Forall_forall _ _) Ht c Hc) as Hs. cbv beta in Hs.
  apply negb_true_iff, Z.eqb_neq. intros ->. discriminate.
Qed.

Lemma trim_line_entry l : trim_line l = trim_spaces (before_char 35 l).
Proof.
  unfold trim_line. destruct (trim_right_split (fun c => (c =? 10) || (c =? 13)) l) as (t & E & Ht).
  rewrite E at 2. symmetry. apply entry_app_spaces. eapply Forall_impl; [exact Ht|].
  intros c Hc. cbv beta in *. apply orb_true_iff in Hc as [Hc|Hc]; apply Z.eqb_eq in Hc as ->; done.
Qed.

(** ** One line at a time *)

Lemma last_no_newline l : Forall (fun c => no_newline c = true) l -> last l <> Some 10.
Proof.
  intros H E. apply last_Some in E as [l' ->]. apply Forall_app in H as [_ H]. apply Forall_inv in H. discriminate.
Qed.

(** What [fgets] reads of a stream that does not fail: the next line, whole
    (with its newline, if it has one), or a piece of a line that is too long. *)
Lemma fgets_spec n s :
  s <> [] ->
  let f := take_while no_newline s in
  if Nat.ltb (length f) n then
    fgets n s false =
    match drop_while no_newline s with
    | [] => Some (f, [], true)
    | _ :: rest => Some (f ++ [10], rest, false)
    end
  else exists rest, fgets n s false = Some (take n f, rest, false) /\ last (take n f) <> Some 10.
Proof.
  intros Hs f. pose proof (take_line_spec n s) as HT. cbv zeta in HT. fold f in HT.
  pose proof (take_drop_while no_newline s) as E. fold f in E.
  assert (Hf : Forall (fun c => no_newline c = true) f) by apply take_while_all.
  assert (Hgets : fgets n s false = let '(l, r) := take_line n s in
    Some (l, r, bool_decide (r = []) && Nat.ltb (length l) n && negb (bool_decide (last l = Some 10)))).
  { unfold fgets. destruct s; [done|]. destruct (take_line n _) as [l r]. by rewrite andb_false_r. }
  rewrite Hgets. clear Hgets. destruct (Nat.ltb_spec (length f) n) as [Hlt|Hge].
  - destruct (drop_while no_newline s) as [|c rest].
    + rewrite app_nil_r in E. rewrite HT, take_ge, drop_ge by (rewrite <- E; lia). rewrite <- E.
      rewrite bool_decide_eq_true_2, (proj2 (Nat.ltb_lt _ _)), bool_decide_eq_false_2 by (done || by apply last_no_newline). done.
    + rewrite HT. rewrite last_snoc. by rewrite (bool_decide_eq_true_2 (Some 10 = Some 10)), andb_false_r.
  - assert (take_line n s = (take n s, drop n s)) as ->.
    { destruct (drop_while no_newline s); [done|]. done. }
    assert (take n s = take n f) as -> by (rewrite <- E; by rewrite take_app_le by lia).
    exists (drop n s). split; [|by apply last_no_newline, Forall_take]. do 2 f_equal.
    rewrite (proj2 (Nat.ltb_ge _ n)) by (rewrite length_take; lia). by rewrite andb_false_r.
Qed.

Lemma lines_push_spec a line h :
  lines_ok a ->
  let '(ok, a', h') := lines_push a line h in
  lines_ok a' /\ lines a' = lines a ++ (if ok then [line] else []) /\
  live h' - lines_owned a' = live h - lines_owned a /\
  (forall b, b ∈ oracle h' -> b ∈ oracle h) /\ (ok = false -> false ∈ oracle h).
Proof.
  unfold lines_ok, lines_push. intros [H0 Hle].
  destruct (Z.eqb_spec (Z.of_nat (length (lines a))) (lines_capacity a)) as [Heq|Hne].
  - destruct (realloc _ h) as [ok h1] eqn:E. apply realloc_spec in E as (Hl & Hf & Ho). rewrite negb_involutive in Hl.
    destruct ok; cbn [negb] in *.
    + malloc_case h1 ok2 h2 Hl2 Hf2 Ho2. unfold lines_owned. destruct ok2; cbn [lines lines_capacity negb andb] in *;
        rewrite ?length_app, ?app_nil_r; cbn [length]; destruct (Z.eqb_spec (lines_capacity a) 0) as [E0|E0]; rewrite ?E0; cbn [Z.eqb Pos.eqb];
        rewrite ?(proj2 (Z.eqb_neq (lines_capacity a * 2) 0)) by lia; split_and!; (lia || done || auto with alloc).
    + unfold lines_owned. rewrite app_nil_r. cbn [andb] in Hl. split_and!; (lia || done || auto).
  - malloc_case h ok2 h2 Hl2 Hf2 Ho2. unfold lines_owned. destruct ok2; cbn [lines lines_capacity negb];
      rewrite ?length_app, ?app_nil_r; cbn [length]; rewrite ?(proj2 (Z.eqb_neq (lines_capacity a) 0)) by lia;
      split_and!; (lia || done || auto).
Qed.

Lemma lines_release_spec a h : live (lines_release a h) = live h - lines_owned a.
Proof.
  unfold lines_release, lines_owned. destruct (lines_capacity a =? 0); [lia|]. cbn [free_block live].
  assert (forall l : list bytes, live (foldr (fun _ h => free_block h) h l) = live h - Z.of_nat (length l)) as ->; [|lia].
  induction l as [|x l IH]; cbn [foldr length]; [lia|]. unfold free_block at 1. cbn [live]. lia.
Qed.

Lemma lines_release_oracle a h : oracle (lines_release a h) = oracle h.
Proof.
  unfold lines_release. destruct (lines_capacity a =? 0); [done|]. cbn [free_block oracle]. by induction (lines a).
Qed.

(** A text without NUL bytes whose lines the reader accepts. *)
Definition readable (s : bytes) : Prop :=
  Forall (fun l => Z.of_nat (length l) < TARGETS_FILE_LINE_MAX) (text_lines s) /\
  Z.of_nat (length (file_entries s)) <= TARGETS_FILE_MAX_LINES.

Lemma read_loop_spec fuel s a h :
  (length s < fuel)%nat -> Forall (fun c => c <> 0) s -> lines_ok a ->
  Z.of_nat (length (lines a)) <= TARGETS_FILE_MAX_LINES ->
  let '(st, a', h') := read_loop fuel s false a h in
  lines_ok a' /\ live h' - lines_owned a' = live h - lines_owned a /\ (forall b, b ∈ oracle h' -> b ∈ oracle h) /\
  match st with
  | FILE_OK => lines a' = lines a ++ file_entries s /\
      Forall (fun l => Z.of_nat (length l) < TARGETS_FILE_LINE_MAX) (text_lines s) /\
      Z.of_nat (length (lines a')) <= TARGETS_FILE_MAX_LINES
  | FILE_ERR_LINE_TOO_LONG => Exists (fun l => TARGETS_FILE_LINE_MAX <= Z.of_nat (length l)) (text_lines s)
  | FILE_ERR_TOO_MANY_LINES => TARGETS_FILE_MAX_LINES < Z.of_nat (length (lines a ++ file_entries s))
  | FILE_ERR_ALLOC => false ∈ oracle h
  | FILE_ERR_OPEN => False
  end.
Proof.
  revert s a h; induction fuel as [|fuel IH]; intros s a h Hfuel Hnz Ha Hmax; [lia|]. cbn [read_loop].
  destruct s as [|c s0]; [split_and!; try done; by rewrite app_nil_r|]. set (s := c :: s0) in *.
  assert (Hs : s <> []) by done. pose proof (fgets_spec (Z.to_nat TARGETS_FILE_LINE_MAX) s Hs) as HG. cbv zeta in HG.
  unfold file_entries. rewrite (text_lines_cons s Hs). set (f := take_while no_newline s) in *.
  pose proof (take_drop_while no_newline s) as E. fold f in E.
  destruct (Nat.ltb_spec (length f) (Z.to_nat TARGETS_FILE_LINE_MAX)) as [Hlt|Hge].
  - assert (Hstep : exists chunk rest feof, fgets (Z.to_nat TARGETS_FILE_LINE_MAX) s false = Some (chunk, rest, feof) /\
      negb (bool_decide (last (c_string chunk) = Some 10)) && negb feof = false /\
      trim_line (c_string chunk) = trim_spaces (before_char 35 f) /\ Forall (fun c => c <> 0) rest /\
      (length rest < fuel)%nat /\ match drop_while no_newline s with [] => [] | _ :: r => text_lines r end = text_lines rest).
    { destruct (drop_while no_newline s) as [|d rest]; rewrite HG; eexists _, _, _; split; try done.
      - rewrite app_nil_r in E. rewrite (c_string_id f) by (by rewrite E). rewrite andb_false_r, trim_line_entry.
        split_and!; try done. unfold s in Hfuel. cbn in *. lia.
      - rewrite <- E in Hnz, Hfuel. rewrite length_app in Hfuel. apply Forall_app in Hnz as [Hf Hr].
        apply Forall_cons in Hr as [_ Hr]. rewrite c_string_id by (apply Forall_app; by repeat constructor).
        rewrite last_snoc, bool_decide_eq_true_2 by done. rewrite trim_line_entry.
        split_and!; try done; [|cbn in Hfuel; lia]. by apply entry_app_spaces; repeat constructor. }
    destruct Hstep as (chunk & rest & feof & -> & -> & -> & Hnz' & Hfuel' & ->). clear HG.
    assert (Homap : omap line_entry (f :: text_lines rest) =
      (if Nat.eqb (length (trim_spaces (before_char 35 f))) 0 then [] else [trim_spaces (before_char 35 f)]) ++ file_entries rest).
    { cbn [omap list_omap]. unfold line_entry at 1. by destruct (trim_spaces _). }
    rewrite Homap. clear Homap. set (e := trim_spaces (before_char 35 f)). destruct (Nat.eqb_spec (length e) 0) as [He|He].
    + cbn [app].
      specialize (IH rest a h Hfuel' Hnz' Ha Hmax). destruct (read_loop fuel rest false a h) as [[st a'] h'].
      destruct IH as (? & ? & ? & HI). split_and!; try done. destruct st; try done.
      * destruct HI as (? & ? & ?). split_and!; try done. constructor; [|done]. unfold TARGETS_FILE_LINE_MAX in *. lia.
      * by right.
    + destruct (Z.leb_spec TARGETS_FILE_MAX_LINES (Z.of_nat (length (lines a)))) as [Hm|Hm].
      { split_and!; try done. rewrite !length_app. cbn [length]. lia. }
      pose proof (lines_push_spec a e h Ha) as HP. destruct (lines_push a e h) as [[ok a1] h1].
      destruct HP as (Ha1 & Hl1 & Hlive1 & Ho1 & Hf1). destruct ok; cbn [negb].
      * assert (Hmax1 : Z.of_nat (length (lines a1)) <= TARGETS_FILE_MAX_LINES) by (rewrite Hl1, length_app; cbn [length]; lia).
        specialize (IH rest a1 h1 Hfuel' Hnz' Ha1 Hmax1). destruct (read_loop fuel rest false a1 h1) as [[st a'] h'].
        destruct IH as (? & ? & ? & HI). rewrite Hl1, <- app_assoc in HI. split_and!; auto; [lia|]. destruct st; auto.
        -- destruct HI as (? & ? & ?). split_and!; try done. constructor; [|done]. unfold TARGETS_FILE_LINE_MAX in *. lia.
      * split_and!; auto.
  - destruct HG as (rest & -> & Hlast). rewrite c_string_id.
    + rewrite bool_decide_eq_false_2 by done. cbn [negb andb]. split_and!; try done. left. lia.
    + apply Forall_take. rewrite <- E in Hnz. by apply Forall_app in Hnz as [? _].
Qed.

(** Reading a targets file.  For a file without NUL bytes that can be read
    to its end, the reader succeeds exactly when every line has fewer than 512
    bytes and at most 100000 lines are not blank (memory permitting), and then
    returns, in order, the text of every line before its comment, trimmed, for
    those where there is any; on a failure [*out] is left as it was and
    nothing stays allocated. *)
Lemma targets_file_entries open_file path f out h :
  path <> [] -> open_file path = Some f -> read_error f = false -> Forall (fun c => c <> 0) (content f) ->
  let '(st, a, h') := targets_file_read open_file (Some path) out h in
  (forall b, b ∈ oracle h' -> b ∈ oracle h) /\
  (st = FILE_OK -> readable (content f) /\ lines a = file_entries (content f) /\
     live h' = live h + lines_owned a) /\
  (st <> FILE_OK -> (~ readable (content f) \/ (st = FILE_ERR_ALLOC /\ false ∈ oracle h)) /\
     a = out /\ live h' = live h).
Proof.
  intros Hp Ho He Hnz. unfold targets_file_read. destruct path as [|c path]; [done|]. rewrite Ho, He. clear Hp.
  pose proof (read_loop_spec (S (length (content f))) (content f) (Lines [] 0) h ltac:(lia) Hnz) as HL.
  destruct (read_loop _ _ _ _ _) as [[st a] h'].
  destruct HL as (Ha & Hlive & Horacle & Hst); [split; cbn; lia|done|]. cbn in Hlive.
  case_bool_decide as Hok; cbn [negb]; (split; [by rewrite ?lines_release_oracle|]).
  - subst st. destruct Hst as (Hl & Hall & Hmax). split; [intros _|done]. rewrite Hl in *. cbn [lines app] in *.
    split_and!; [split; [done|lia]|done|lia].
  - split; [done|intros _]. split; [|split; [done|rewrite lines_release_spec; lia]].
    destruct st; [done|done| | |].
    + left. intros [Hall _]. apply Exists_exists in Hst as (l & Hin & Hl). pose proof (proj1 (Forall_forall _ _) Hall l Hin) as H.
      cbv beta in H. lia.
    + left. intros [_ Hmax]. cbn [lines app] in Hst. lia.
    + by right.
Qed.

Definition example_file : file_data := FileData (bs "10.0.0.1  # gateway" ++ [10; 35; 10] ++ bs " db.example") false.

Example example_file_read :
  fst (targets_file_read (fun _ => Some example_file) (Some (bs "t")) (Lines [] 0) (Heap [] 0)) =
  (FILE_OK, Lines [bs "10.0.0.1"; bs "db.example"] 16).
Proof. vm_compute. reflexivity. Qed.

(** A stream that fails is taken for one that ends: the lines before the
    failure are the whole file. *)
Example read_error_ends_file :
  fst (targets_file_read (fun _ => Some (FileData (bs "10.0.0.1" ++ [10] ++ bs "10.0.0.2") true)) (Some (bs "t")) (Lines [] 0) (Heap [] 0)) =
  (FILE_OK, Lines [bs "10.0.0.1"] 16).
Proof. vm_compute. reflexivity. Qed.
