(* ===== verification/TargetList.v ===== *)
(** * The targets of a scan ([src/src/net/target.c], [target_list.c])

    From a specification and a targets file to the bounded, de-duplicated list
    of hosts.  Name resolution is a function of a state [W] of the world: any
    answers, which may differ from call to call.  [qsort] is an insertion sort
    by the comparator, whose keys are all distinct, so that any sort gives the
    same array.  The texts of the errors are not modelled. *)

From S2P Require Import Prelude CveId Cidr TargetsFile.

Definition NET_HOST_STR_MAX : Z := 256.
Definition MAX_TARGETS : Z := 65536.
Definition TARGET_LIST_TOKEN_MAX_LEN : Z := NET_HOST_STR_MAX.
Definition TARGET_LIST_SPEC_MAX_LEN : Z := 65536.
Definition TARGET_LIST_SPEC_MAX_TOKENS : Z := 8192.

(** ** One target ([target.c]) *)

(** [cytadel_target_status_t] *)
Inductive target_status := TARGET_OK | TARGET_ERR_MULTI | TARGET_ERR_INVALID | TARGET_ERR_RESOLVE.

#[export] Instance target_status_eq_dec : EqDecision target_status.
Proof. solve_decision. Defined.

(** [cytadel_target_t] *)
Record target := Target { host : bytes; ip : bytes }.

(** [cytadel_target_looks_like_multi] *)
Definition looks_like_multi (spec : bytes) : bool :=
  existsb (fun c => (c =? 47) || (c =? 44) || is_space c) spec.

(** An entry of the chain [getaddrinfo] returns. *)
Inductive addrinfo := AiInet (addr : Z) | AiInet6 | AiOther.

Fixpoint first_ipv4 (res : list addrinfo) : option bytes :=
  match res with
  | [] => None
  | AiInet addr :: _ => Some (inet_ntop addr)
  | _ :: res => first_ipv4 res
  end.

(** [cytadel_target_is_ipv4_literal] *)
Definition target_is_ipv4_literal (spec : option bytes) : bool :=
  match spec with Some spec => bool_decide (is_Some (inet_pton spec)) | None => false end.

Section Targets.
Context {W : Type}.
(** [None] when the resolver reports an error. *)
Variable getaddrinfo : bytes -> W -> option (list addrinfo) * W.

(** [cytadel_target_parse]; [out_target] is given, and left alone on an
    error. *)
Definition target_parse (spec : option bytes) (w : W) : (target_status + target) * W :=
  match spec with
  | None | Some [] => (inl TARGET_ERR_INVALID, w)
  | Some spec =>
      if NET_HOST_STR_MAX <=? Z.min (Z.of_nat (length spec)) NET_HOST_STR_MAX then (inl TARGET_ERR_INVALID, w) else
      if looks_like_multi spec then (inl TARGET_ERR_MULTI, w) else
      match inet_pton spec with
      | Some addr => (inr (Target spec (inet_ntop addr)), w)
      | None =>
          let '(res, w) := getaddrinfo spec w in
          match res with
          | None => (inl TARGET_ERR_RESOLVE, w)
          | Some res =>
              match first_ipv4 res with
              | None => (inl TARGET_ERR_RESOLVE, w)
              | Some ip => (inr (Target spec ip), w)
              end
          end
      end
  end.

(** ** The list ([target_list.c]) *)

(** [cytadel_target_list_status_t] *)
Inductive list_status :=
  | LIST_OK | LIST_ERR_INVALID | LIST_ERR_RESOLVE | LIST_ERR_TOO_MANY | LIST_ERR_EMPTY | LIST_ERR_FILE | LIST_ERR_ALLOC.

(** [cytadel_target_dynarray_t]: [count] is the length of the items; there is
    a block once [capacity] is not 0. *)
Record dynarray := Dynarray { items : list target; capacity : Z }.

Definition dynarray_push (arr : dynarray) (t : target) (h : heap) : bool * dynarray * heap :=
  if Z.of_nat (length (items arr)) =? capacity arr then
    let new_capacity := if capacity arr =? 0 then 64 else capacity arr * 2 in
    let '(ok, h) := realloc (negb (capacity arr =? 0)) h in
    if negb ok then (false, arr, h) else (true, Dynarray (items arr ++ [t]) new_capacity, h)
  else (true, Dynarray (items arr ++ [t]) (capacity arr), h).

Definition dynarray_free (arr : dynarray) (h : heap) : heap := free_if (negb (capacity arr =? 0)) h.

(** The loop over the addresses of a block. *)
Fixpoint expand_cidr (c : cidr) (remaining : nat) (n : Z) (arr : dynarray) (h : heap) : list_status * dynarray * heap :=
  match remaining with
  | O => (LIST_OK, arr, h)
  | S remaining =>
      match cidr_nth_address c n NET_IP_STR_MAX with
      | None => (LIST_ERR_INVALID, arr, h)
      | Some ip =>
          let '(ok, arr, h) := dynarray_push arr (Target ip ip) h in
          if negb ok then (LIST_ERR_ALLOC, arr, h) else expand_cidr c remaining (n + 1) arr h
      end
  end.

(** [cytadel_target_list_expand_token] *)
Definition expand_token (tok : bytes) (arr : dynarray) (total : Z) (w : W) (h : heap)
    : list_status * dynarray * Z * W * heap :=
  let tok := trim_spaces tok in
  if Nat.eqb (length tok) 0 then (LIST_ERR_INVALID, arr, total, w, h) else
  if TARGET_LIST_TOKEN_MAX_LEN <=? Z.of_nat (length tok) then (LIST_ERR_INVALID, arr, total, w, h) else
  match after_char 47 tok with
  | Some _ =>
      match cidr_parse tok with
      | inl _ => (LIST_ERR_INVALID, arr, total, w, h)
      | inr c =>
          let host_count := cidr_host_count c in
          if (host_count =? 0) || (MAX_TARGETS <? (total + host_count) mod 2 ^ 64)
          then (LIST_ERR_TOO_MANY, arr, total, w, h) else
          let '(st, arr, h) := expand_cidr c (Z.to_nat host_count) 0 arr h in
          match st with
          | LIST_OK => (LIST_OK, arr, total + host_count, w, h)
          | _ => (st, arr, total, w, h)
          end
      end
  | None =>
      if MAX_TARGETS <? total + 1 then (LIST_ERR_TOO_MANY, arr, total, w, h) else
      let '(r, w) := target_parse (Some tok) w in
      match r with
      | inl TARGET_ERR_RESOLVE => (LIST_ERR_RESOLVE, arr, total, w, h)
      | inl _ => (LIST_ERR_INVALID, arr, total, w, h)
      | inr t =>
          let '(ok, arr, h) := dynarray_push arr t h in
          if negb ok then (LIST_ERR_ALLOC, arr, total, w, h) else (LIST_OK, arr, total + 1, w, h)
      end
  end.

(** The comma loop of [cytadel_target_list_expand_spec]; [tokens_left] is what
    the token cap still admits. *)
Fixpoint spec_loop (tokens_left : nat) (rest : bytes) (arr : dynarray) (total : Z) (w : W) (h : heap)
    : list_status * dynarray * Z * W * heap :=
  match tokens_left with
  | O => (LIST_ERR_INVALID, arr, total, w, h)
  | S tokens_left =>
      let '(st, arr, total, w, h) := expand_token (before_char 44 rest) arr total w h in
      match st with
      | LIST_OK =>
          match after_char 44 rest with
          | None => (LIST_OK, arr, total, w, h)
          | Some rest => spec_loop tokens_left rest arr total w h
          end
      | _ => (st, arr, total, w, h)
      end
  end.

Definition expand_spec (spec : bytes) (arr : dynarray) (total : Z) (w : W) (h : heap)
    : list_status * dynarray * Z * W * heap :=
  if TARGET_LIST_SPEC_MAX_LEN <=? Z.min (Z.of_nat (length spec)) TARGET_LIST_SPEC_MAX_LEN
  then (LIST_ERR_INVALID, arr, total, w, h)
  else spec_loop (Z.to_nat TARGET_LIST_SPEC_MAX_TOKENS) spec arr total w h.

(** The loop over the lines of the file. *)
Fixpoint lines_loop (ls : list bytes) (arr : dynarray) (total : Z) (w : W) (h : heap)
    : list_status * dynarray * Z * W * heap :=
  match ls with
  | [] => (LIST_OK, arr, total, w, h)
  | l :: ls =>
      let '(st, arr, total, w, h) := expand_token l arr total w h in
      match st with
      | LIST_OK => lines_loop ls arr total w h
      | _ => (st, arr, total, w, h)
      end
  end.

(** *** De-duplication *)

(** [cytadel_target_dedup_key_t] *)
Record dedup_key := Key { key_ip : bytes; key_idx : nat }.

Definition dedup_key_cmp (a b : dedup_key) : Z :=
  let c := strcmp (key_ip a) (key_ip b) in
  if negb (c =? 0) then c
  else if Nat.ltb (key_idx a) (key_idx b) then -1
  else if Nat.ltb (key_idx b) (key_idx a) then 1 else 0.

Fixpoint insert_key (k : dedup_key) (l : list dedup_key) : list dedup_key :=
  match l with
  | [] => [k]
  | k' :: l' => if dedup_key_cmp k k' <=? 0 then k :: l else k' :: insert_key k l'
  end.

Definition sort_keys (l : list dedup_key) : list dedup_key := foldr insert_key [] l.

(** [keep[keys[i].idx] = 1] where a run of equal addresses starts. *)
Fixpoint mark_keep (prev : option bytes) (keys : list dedup_key) (keep : list bool) : list bool :=
  match keys with
  | [] => keep
  | k :: keys =>
      let first := match prev with None => true | Some p => negb (strcmp (key_ip k) p =? 0) end in
      mark_keep (Some (key_ip k)) keys (if first then <[key_idx k := true]> keep else keep)
  end.

(** The compaction loop: the items whose flag is set, in order. *)
Fixpoint compact (l : list target) (keep : list bool) : list target :=
  match l, keep with
  | t :: l, k :: keep => if k then t :: compact l keep else compact l keep
  | _, _ => []
  end.

(** [cytadel_target_list_dedup] *)
Definition dedup (arr : dynarray) (h : heap) : list_status * dynarray * heap :=
  let n := length (items arr) in
  if Nat.leb n 1 then (LIST_OK, arr, h) else
  let '(ok, h) := malloc h in
  if negb ok then (LIST_ERR_ALLOC, arr, h) else
  let keys := sort_keys (zip_with (fun t i => Key (ip t) i) (items arr) (seq 0 n)) in
  let '(ok, h) := malloc h in
  if negb ok then (LIST_ERR_ALLOC, arr, free_block h) else
  let keep := mark_keep None keys (replicate n false) in
  (LIST_OK, Dynarray (compact (items arr) keep) (capacity arr), free_block (free_block h)).

(** *** The entry point *)

Variable open_file : bytes -> option file_data.

Definition given (s : option bytes) : option bytes := match s with Some [] => None | _ => s end.

(** Both sources, in order. *)
Definition expand_all (spec path : option bytes) (w : W) (h : heap) : list_status * dynarray * Z * W * heap :=
  let '(st, arr, total, w, h) :=
    match given spec with
    | Some spec => expand_spec spec (Dynarray [] 0) 0 w h
    | None => (LIST_OK, Dynarray [] 0, 0, w, h)
    end in
  match st, given path with
  | LIST_OK, Some path =>
      let '(fst, ls, h) := targets_file_read open_file (Some path) (Lines [] 0) h in
      if negb (bool_decide (fst = FILE_OK)) then (LIST_ERR_FILE, arr, total, w, h) else
      let '(st, arr, total, w, h) := lines_loop (lines ls) arr total w h in
      (st, arr, total, w, lines_release ls h)
  | _, _ => (st, arr, total, w, h)
  end.

(** The shrinking [realloc] may fail; the array is good either way. *)
Definition shrink (arr : dynarray) (h : heap) : heap :=
  let count := Z.of_nat (length (items arr)) in
  if (0 <? count) && (count <? capacity arr) then snd (realloc true h) else h.

(** [cytadel_target_list_parse] over [*out_list]. *)
Definition target_list_parse (spec path : option bytes) (out_list : option (list target)) (w : W) (h : heap)
    : list_status * option (list target) * W * heap :=
  match out_list with
  | None => (LIST_ERR_INVALID, None, w, h)
  | Some _ =>
      match given spec, given path with
      | None, None => (LIST_ERR_EMPTY, out_list, w, h)
      | _, _ =>
          let '(st, arr, total, w, h) := expand_all spec path w h in
          match st with
          | LIST_OK =>
              if total =? 0 then (LIST_ERR_EMPTY, out_list, w, dynarray_free arr h) else
              let '(st, arr, h) := dedup arr h in
              match st with
              | LIST_OK => (LIST_OK, Some (items arr), w, shrink arr h)
              | _ => (st, out_list, w, dynarray_free arr h)
              end
          | _ => (st, out_list, w, dynarray_free arr h)
          end
      end
  end.

(** ** What a specification asks for *)

(** The hosts of one token, with the state of the world after it. *)
Definition token_hosts (tok : bytes) (w : W) : option (list target * W) :=
  let tok := trim_spaces tok in
  if Nat.eqb (length tok) 0 || (TARGET_LIST_TOKEN_MAX_LEN <=? Z.of_nat (length tok)) then None else
  match after_char 47 tok with
  | Some _ =>
      match cidr_parse tok with
      | inr c => Some (map (fun a => Target (inet_ntop a) (inet_ntop a))
                         (seqZ (network c) (2 ^ (32 - prefix c))), w)
      | inl _ => None
      end
  | None =>
      match target_parse (Some tok) w with
      | (inr t, w) => Some ([t], w)
      | (inl _, _) => None
      end
  end.

(** All the tokens in order. *)
Fixpoint tokens_hosts (toks : list bytes) (w : W) : option (list target * W) :=
  match toks with
  | [] => Some ([], w)
  | tok :: toks =>
      match token_hosts tok w with
      | None => None
      | Some (ts, w) =>
          match tokens_hosts toks w with
          | None => None
          | Some (ts', w) => Some (ts ++ ts', w)
          end
      end
  end.

(** The first host of every address, in order. *)
Fixpoint first_of_each (seen : list bytes) (l : list target) : list target :=
  match l with
  | [] => []
  | t :: l =>
      if bool_decide (ip t ∈ seen) then first_of_each seen l else t :: first_of_each (ip t :: seen) l
  end.
End Targets.

(** [cytadel_target_list_free] *)
Definition target_list_free (l : option (option (list target))) (h : heap) : option (option (list target)) * heap :=
  match l with
  | None => (None, h)
  | Some None => (Some None, h)
  | Some (Some _) => (Some None, free_block h)
  end.

(** ** De-duplication *)

Definition key_lt (a b : dedup_key) : Prop :=
  (bytes_leb (key_ip a) (key_ip b) = true /\ key_ip a <> key_ip b) \/
  (key_ip a = key_ip b /\ (key_idx a < key_idx b)%nat).

Lemma key_cmp_le a b : dedup_key_cmp a b <= 0 <-> key_lt a b \/ a = b.
Proof.
  unfold dedup_key_cmp, key_lt. cbv zeta. destruct (Z.eqb_spec (strcmp (key_ip a) (key_ip b)) 0) as [E|E]; cbn [negb].
  - apply strcmp_eq in E. rewrite E. destruct a as [pa ia], b as [pb ib]. cbn [key_ip key_idx] in *. subst pb.
    destruct (Nat.ltb_spec ia ib); [split; [intros _; left; by right|intros _; lia]|].
    destruct (Nat.ltb_spec ib ia).
    + split; [lia|]. intros [[[_ ?]|[_ ?]]|[=]]; [done|lia|lia].
    + split; [intros _; right; f_equal; lia|intros _; lia].
  - pose proof (strcmp_neg (key_ip a) (key_ip b)) as HN. assert (key_ip a <> key_ip b) by (by rewrite <- strcmp_eq).
    split.
    + intros Hle. left. left. apply HN. lia.
    + intros [[Hl|[? _]]| ->]; [apply HN in Hl; lia|done|done].
Qed.

Lemma key_lt_trans a b c : key_lt a b -> key_lt b c -> key_lt a c.
Proof.
  unfold key_lt. intros [[H1 N1]|[E1 L1]] [[H2 N2]|[E2 L2]].
  - left. split; [by eapply bytes_leb_trans|]. intros E. rewrite E in *. apply N2. by apply bytes_leb_antisym.
  - left. rewrite <- E2. done.
  - left. rewrite E1. done.
  - right. split; [congruence|lia].
Qed.

Lemma key_lt_irrefl a : ~ key_lt a a.
Proof. intros [[_ ?]|[_ ?]]; [done|lia]. Qed.

Lemma insert_key_perm k l : Permutation (insert_key k l) (k :: l).
Proof.
  induction l as [|k' l IH]; cbn; [done|]. destruct (_ <=? 0); [done|]. rewrite IH. constructor.
Qed.

Lemma sort_keys_perm l : Permutation (sort_keys l) l.
Proof. induction l as [|k l IH]; cbn; [done|]. by rewrite insert_key_perm, IH. Qed.

Lemma key_lt_total a b : a <> b -> ~ key_lt a b -> key_lt b a.
Proof.
  intros Hne Hnot. destruct (bytes_leb_total (key_ip b) (key_ip a)) as [H|H]; unfold key_lt in *.
  - destruct (decide (key_ip b = key_ip a)) as [E|E]; [right|by left]. split; [done|].
    destruct (Nat.lt_trichotomy (key_idx b) (key_idx a)) as [?|[Ei|?]]; [done| |].
    + destruct Hne. destruct a, b. cbn in *. congruence.
    + destruct Hnot. by right.
  - destruct (decide (key_ip a = key_ip b)) as [E|E]; [right|destruct Hnot; by left]. split; [done|].
    destruct (Nat.lt_trichotomy (key_idx b) (key_idx a)) as [?|[Ei|?]]; [done| |].
    + destruct Hne. destruct a, b. cbn in *. congruence.
    + destruct Hnot. by right.
Qed.

Lemma insert_key_sorted k l : k ∉ l -> StronglySorted key_lt l -> StronglySorted key_lt (insert_key k l).
Proof.
  intros Hk HS. induction HS as [|k' l HS IH Hall]; cbn; [repeat constructor|].
  apply not_elem_of_cons in Hk as [Hne Hk]. destruct (Z.leb_spec (dedup_key_cmp k k') 0) as [Hle|Hgt].
  - apply key_cmp_le in Hle as [Hlt|]; [|done]. constructor; [by constructor|]. constructor; [done|].
    eapply Forall_impl; [exact Hall|]. intros x Hx. by eapply key_lt_trans.
  - constructor; [by apply IH|]. apply Forall_forall. intros x Hx. rewrite insert_key_perm in Hx.
    apply elem_of_cons in Hx as [->|Hx]; [|by apply (proj1 (Forall_forall _ _) Hall)].
    apply key_lt_total; [done|]. intros Hlt. assert (dedup_key_cmp k k' <= 0) by (apply key_cmp_le; by left). lia.
Qed.

Lemma sort_keys_sorted l : NoDup l -> StronglySorted key_lt (sort_keys l).
Proof.
  induction 1 as [|k l Hk _ IH]; cbn; [constructor|]. apply insert_key_sorted; [|done].
  unfold sort_keys. by rewrite sort_keys_perm.
Qed.

(** A flag is set for the least key of every address. *)
Lemma mark_keep_spec prev keys keep i :
  StronglySorted key_lt keys ->
  (forall p k, prev = Some p -> k ∈ keys -> bytes_leb p (key_ip k) = true) ->
  length (mark_keep prev keys keep) = length keep /\
  (mark_keep prev keys keep !! i = Some true <->
   keep !! i = Some true \/
   ((i < length keep)%nat /\ exists k, k ∈ keys /\ key_idx k = i /\ prev <> Some (key_ip k) /\
     forall k', k' ∈ keys -> key_ip k' = key_ip k -> ~ key_lt k' k)).
Proof.
  intros HS. revert prev keep; induction HS as [|k keys HS IH Hall]; intros prev keep Hprev; cbn [mark_keep].
  { split; [done|]. split; [by left|]. intros [?|(_ & k & Hk & _)]; [done|by apply elem_of_nil in Hk]. }
  set (first := match prev with None => true | Some p => _ end).
  assert (Hfirst : first = true <-> prev <> Some (key_ip k)).
  { unfold first. destruct prev as [p|]; [|done]. rewrite negb_true_iff, Z.eqb_neq, strcmp_eq. split; congruence. }
  destruct (IH (Some (key_ip k)) (if first then <[key_idx k := true]> keep else keep)) as [Hlen Hget].
  { intros p k' [= <-] Hk'. pose proof (proj1 (Forall_forall _ _) Hall k' Hk') as [[? _]|[-> _]]; [done|].
    by destruct (bytes_leb_total (key_ip k') (key_ip k')). }
  assert (Hl : length (if first then <[key_idx k := true]> keep else keep) = length keep) by (destruct first; [apply length_insert|done]).
  rewrite Hl in *. split; [done|]. rewrite Hget. clear Hget IH Hlen.
  (* the keys after [k] whose run is new *)
  assert (Htail : forall k', k' ∈ keys ->
    (key_ip k <> key_ip k' /\ (forall x, x ∈ keys -> key_ip x = key_ip k' -> ~ key_lt x k')) <->
    (prev <> Some (key_ip k') /\ (forall x, x ∈ k :: keys -> key_ip x = key_ip k' -> ~ key_lt x k'))).
  { intros k' Hk'. pose proof (proj1 (Forall_forall _ _) Hall k' Hk') as Hkk'. split.
    - intros [Hne Hmin]. split.
      + intros ->. apply Hne, bytes_leb_antisym.
        * destruct Hkk' as [[? _]|[? _]]; done.
        * apply Hprev; [done|by left].
      + intros x [->|Hx]%elem_of_cons; [done|by apply Hmin].
    - intros [_ Hmin]. split.
      + intros E. by apply (Hmin k); [left|..].
      + intros x Hx. apply Hmin. by right. }
  split.
  - intros [Hkeep|(Hi & k' & Hk' & Hidx & Hne & Hmin)].
    + destruct first; [|by left]. apply list_lookup_insert_Some in Hkeep as [(<- & _ & Hi)|[_ ?]]; [right|by left].
      split; [done|]. exists k. split; [by left|]. split; [done|]. split; [by apply Hfirst|].
      intros x [->|Hx]%elem_of_cons _; [apply key_lt_irrefl|]. intros Hlt.
      apply (key_lt_irrefl x). eapply key_lt_trans; [exact Hlt|]. by apply (proj1 (Forall_forall _ _) Hall).
    + right. split; [done|]. exists k'. destruct (proj1 (Htail k' Hk')) as [H1 H2]; [split; [congruence|done]|].
      split; [by right|done].
  - intros [Hkeep|(Hi & k' & [->|Hk']%elem_of_cons & Hidx & Hne & Hmin)].
    + left. destruct first; [|done]. destruct (decide (key_idx k = i)) as [<-|].
      * apply list_lookup_insert_eq. by eapply lookup_lt_Some.
      * by rewrite list_lookup_insert_ne.
    + left. apply Hfirst in Hne as ->. subst i. by apply list_lookup_insert_eq.
    + right. split; [done|]. destruct (proj2 (Htail k' Hk')) as [H1 H2]; [done|]. exists k'. split_and!; try done. congruence.
Qed.

Lemma compact_first l keep seen :
  length keep = length l ->
  (forall i t, l !! i = Some t ->
    (keep !! i = Some true <->
     ip t ∉ seen /\ forall j t', (j < i)%nat -> l !! j = Some t' -> ip t' <> ip t)) ->
  compact l keep = first_of_each seen l.
Proof.
  revert keep seen; induction l as [|t l IH]; intros [|k keep] seen Hlen Hk; try done. cbn [compact first_of_each].
  injection Hlen as Hlen. pose proof (Hk 0%nat t eq_refl) as H0. cbn in H0.
  assert (Hk0 : k = true <-> ip t ∉ seen).
  { split; [intros ->; by apply H0|]. intros Hn. assert (Some k = Some true) as [=]; [|done]. apply H0. split; [done|lia]. }
  case_bool_decide as Hin.
  - assert (k = false) as -> by (destruct k; [by destruct (proj1 Hk0 eq_refl)|done]). apply IH; [done|].
    intros i u Hu. rewrite (Hk (S i) u Hu). split; intros [Hns Hall]; (split; [done|]).
    + intros j u' Hj Hu'. apply (Hall (S j)); [lia|done].
    + intros [|j] u' Hj Hu'; [injection Hu' as <-; congruence|]. apply (Hall j); [lia|done].
  - assert (k = true) as -> by by apply Hk0. f_equal. apply IH; [done|].
    intros i u Hu. rewrite (Hk (S i) u Hu). rewrite not_elem_of_cons. split.
    + intros [Hns Hall]. split; [split; [|done]|].
      * intros E. apply (Hall 0%nat t); [lia|done|done].
      * intros j u' Hj Hu'. apply (Hall (S j)); [lia|done].
    + intros [[Hne Hns] Hall]. split; [done|]. intros [|j] u' Hj Hu'; [injection Hu' as <-; congruence|].
      apply (Hall j); [lia|done].
Qed.

Definition dedup_keys (l : list target) : list dedup_key :=
  zip_with (fun t i => Key (ip t) i) l (seq 0 (length l)).

Lemma elem_of_dedup_keys l k :
  k ∈ dedup_keys l <-> exists t, l !! key_idx k = Some t /\ key_ip k = ip t.
Proof.
  unfold dedup_keys. rewrite list_elem_of_lookup. setoid_rewrite lookup_zip_with_Some. split.
  - intros (i & t & j & -> & Ht & Hj). apply lookup_seq in Hj as [-> _]. by exists t.
  - intros (t & Ht & E). exists (key_idx k), t, (key_idx k). split; [destruct k; cbn in *; by rewrite E|]. split; [done|].
    apply lookup_seq. split; [done|]. by eapply lookup_lt_Some.
Qed.

Lemma dedup_keys_NoDup l : NoDup (dedup_keys l).
Proof.
  apply NoDup_alt. intros i j k Hi Hj. unfold dedup_keys in *.
  apply lookup_zip_with_Some in Hi as (? & ? & -> & _ & Hi). apply lookup_zip_with_Some in Hj as (? & ? & [= _ ->] & _ & Hj).
  apply lookup_seq in Hi as [E1 _]. apply lookup_seq in Hj as [E2 _]. cbn in *. congruence.
Qed.

Lemma dedup_compact l :
  compact l (mark_keep None (sort_keys (dedup_keys l)) (replicate (length l) false)) = first_of_each [] l.
Proof.
  assert (HS : StronglySorted key_lt (sort_keys (dedup_keys l))) by (apply sort_keys_sorted, dedup_keys_NoDup).
  assert (Hin : forall k, k ∈ sort_keys (dedup_keys l) <-> exists t, l !! key_idx k = Some t /\ key_ip k = ip t).
  { intros k. rewrite sort_keys_perm. apply elem_of_dedup_keys. }
  apply compact_first.
  - by destruct (mark_keep_spec None _ (replicate (length l) false) 0 HS) as [-> _]; rewrite ?length_replicate.
  - intros i t Ht. destruct (mark_keep_spec None _ (replicate (length l) false) i HS) as [_ ->]; [done|]. split.
    + intros [H|(_ & k & Hk & Hidx & _ & Hmin)]; [apply lookup_replicate in H as [? _]; done|].
      split; [apply not_elem_of_nil|]. intros j t' Hj Ht' E. apply Hin in Hk as (u & Hu & Hku). subst i.
      rewrite Ht in Hu. injection Hu as <-. apply (Hmin (Key (ip t') j)).
      * apply Hin. by exists t'.
      * cbn. congruence.
      * right. cbn. split; [congruence|done].
    + intros [_ Hall]. right. split; [rewrite length_replicate; by eapply lookup_lt_Some|].
      exists (Key (ip t) i). split; [apply Hin; by exists t|]. split; [done|]. split; [done|].
      intros k Hk E [[_ Hne]|[_ Hlt]]; [done|]. cbn in *. apply Hin in Hk as (u & Hu & Hku).
      apply (Hall (key_idx k) u Hlt Hu). congruence.
Qed.

Lemma first_of_each_fresh seen l :
  NoDup (map ip (first_of_each seen l)) /\ forall t, t ∈ first_of_each seen l -> ip t ∉ seen /\ t ∈ l.
Proof.
  revert seen; induction l as [|t l IH]; intros seen; cbn [first_of_each map].
  { split; [constructor|]. intros t Ht. by apply elem_of_nil in Ht. }
  case_bool_decide as Hin.
  - destruct (IH seen) as [H1 H2]. split; [done|]. intros u Hu. destruct (H2 u Hu). split; [done|by right].
  - destruct (IH (ip t :: seen)) as [H1 H2]. cbn [map]. split.
    + constructor; [|done]. intros Hm. apply list_elem_of_fmap in Hm as (u & E & Hu). apply (proj1 (H2 u Hu)). rewrite E. by left.
    + intros u [->|Hu]%elem_of_cons; [split; [done|by left]|]. destruct (H2 u Hu) as [Hn Hl].
      apply not_elem_of_cons in Hn as [_ ?]. split; [done|by right].
Qed.

Lemma first_of_each_length seen l : (length (first_of_each seen l) <= length l)%nat.
Proof. revert seen; induction l as [|t l IH]; intros seen; cbn; [lia|]. case_bool_decide; cbn; [specialize (IH seen)|specialize (IH (ip t :: seen))]; lia. Qed.

(** Every address of the list is the address of an entry that stays. *)
Lemma first_of_each_covers seen l t :
  t ∈ l -> ip t ∉ seen -> exists u, u ∈ first_of_each seen l /\ ip u = ip t.
Proof.
  revert seen; induction l as [|x l IH]; intros seen Ht Hn; [by apply elem_of_nil in Ht|]. cbn [first_of_each].
  case_bool_decide as Hin.
  - apply elem_of_cons in Ht as [->|Ht]; [done|]. by apply IH.
  - destruct (decide (ip t = ip x)) as [E|E]; [exists x; split; [by left|done]|].
    apply elem_of_cons in Ht as [->|Ht]; [done|]. destruct (IH (ip x :: seen) Ht) as (u & Hu & Eu).
    + by apply not_elem_of_cons.
    + exists u. split; [by right|done].
Qed.

(** ** The array *)

#[export] Instance list_status_eq_dec : EqDecision list_status.
Proof. solve_decision. Defined.

Definition arr_owned (a : dynarray) : Z := if capacity a =? 0 then 0 else 1.

Definition arr_ok (a : dynarray) : Prop := 0 <= capacity a /\ Z.of_nat (length (items a)) <= capacity a.

(** What every step that works on the array keeps: its shape, the balance of
    the blocks, and an oracle that only loses outcomes. *)
Definition steps (a : dynarray) (h : heap) (a' : dynarray) (h' : heap) : Prop :=
  arr_ok a' /\ live h' - arr_owned a' = live h - arr_owned a /\ (forall b, b ∈ oracle h' -> b ∈ oracle h).

Lemma steps_refl a h : arr_ok a -> steps a h a h.
Proof. unfold steps. auto with lia. Qed.

Lemma steps_trans a1 h1 a2 h2 a3 h3 : steps a1 h1 a2 h2 -> steps a2 h2 a3 h3 -> steps a1 h1 a3 h3.
Proof. intros (? & ? & ?) (? & ? & ?). split_and!; [done|lia|auto]. Qed.

Lemma dynarray_push_spec a t h :
  arr_ok a ->
  let '(ok, a', h') := dynarray_push a t h in
  steps a h a' h' /\ items a' = items a ++ (if ok then [t] else []) /\ (ok = false -> false ∈ oracle h).
Proof.
  unfold steps, arr_ok, dynarray_push. intros [H0 Hle].
  destruct (Z.eqb_spec (Z.of_nat (length (items a))) (capacity a)) as [Heq|Hne].
  - destruct (realloc _ h) as [ok h1] eqn:E. apply realloc_spec in E as (Hl & Hf & Ho). rewrite negb_involutive in Hl.
    unfold arr_owned. destruct ok; cbn [negb items capacity andb] in *; rewrite ?length_app, ?app_nil_r; cbn [length].
    + destruct (Z.eqb_spec (capacity a) 0) as [E0|E0]; rewrite ?E0; cbn [Z.eqb Pos.eqb];
        rewrite ?(proj2 (Z.eqb_neq (capacity a * 2) 0)) by lia; split_and!; (lia || done || auto).
    + split_and!; (lia || done || auto).
  - unfold arr_owned. cbn [items capacity]. rewrite length_app. cbn [length]. split_and!; (lia || done).
Qed.

Lemma dynarray_free_spec a h : live (dynarray_free a h) = live h - arr_owned a.
Proof. unfold dynarray_free, arr_owned. destruct (capacity a =? 0); cbn; lia. Qed.

Lemma dedup_spec a h :
  arr_ok a ->
  let '(st, a', h') := dedup a h in
  steps a h a' h' /\
  ((st = LIST_OK /\ items a' = first_of_each [] (items a)) \/
   (st = LIST_ERR_ALLOC /\ a' = a /\ false ∈ oracle h)).
Proof.
  intros Ha. unfold dedup. destruct (Nat.leb_spec (length (items a)) 1) as [H1|H1].
  { split; [by apply steps_refl|left]. split; [done|]. by destruct (items a) as [|t [|? ?]]; [..|cbn in H1; lia]. }
  malloc_case h ok1 h1 Hl1 Hf1 Ho1. destruct ok1; cbn [negb]; [|by split; [split_and!; [..|lia|]|right; auto]].
  malloc_case h1 ok2 h2 Hl2 Hf2 Ho2. destruct ok2; cbn [negb].
  - change (zip_with _ _ _) with (dedup_keys (items a)). rewrite dedup_compact. split; [|by left].
    destruct Ha as [Ha1 Ha2]. pose proof (first_of_each_length [] (items a)).
    split_and!; [split; cbn; lia|unfold arr_owned; cbn; lia|cbn; auto].
  - split; [split_and!; [done|cbn; lia|cbn; auto]|right]. auto.
Qed.

(** ** Expansion *)

Definition literal_target (a : Z) : target := Target (inet_ntop a) (inet_ntop a).

Lemma expand_cidr_spec q p remaining n arr h :
  0 <= p <= 32 -> 0 <= n -> n + Z.of_nat remaining <= 2 ^ (32 - p) -> arr_ok arr ->
  let '(st, arr', h') := expand_cidr (Cidr (q * 2 ^ (32 - p)) p) remaining n arr h in
  steps arr h arr' h' /\
  ((st = LIST_OK /\ items arr' = items arr ++ map literal_target (seqZ (q * 2 ^ (32 - p) + n) (Z.of_nat remaining))) \/
   (st = LIST_ERR_ALLOC /\ false ∈ oracle h)).
Proof.
  intros Hp. revert n arr h; induction remaining as [|m IH]; intros n arr h Hn Hm Ha; cbn [expand_cidr].
  { split; [by apply steps_refl|left]. by rewrite app_nil_r. }
  rewrite nth_address, (proj2 (Z.ltb_lt n _)) by lia.
  pose proof (dynarray_push_spec arr (literal_target (q * 2 ^ (32 - p) + n)) h Ha) as HP. fold (literal_target (q * 2 ^ (32 - p) + n)).
  destruct (dynarray_push _ _ _) as [[ok a1] h1]. destruct HP as (Hs & Hi & Hf).
  destruct ok; cbn [negb]; [|split; [done|right; auto]].
  specialize (IH (n + 1) a1 h1 ltac:(lia) ltac:(lia) (proj1 Hs)). destruct (expand_cidr _ _ _ _ _) as [[st a2] h2].
  destruct IH as [Hs2 Hst]. split; [by eapply steps_trans|].
  destruct Hst as [[-> Hi2]|[-> Hf2]]; [left|right; split; [done|by apply Hs]]. split; [done|].
  rewrite Hi2, Hi, <- app_assoc, Nat2Z.inj_succ. unfold Z.succ. rewrite (seqZ_cons _ (Z.of_nat m + 1)) by lia. cbn [map app].
  do 3 f_equal. f_equal; lia.
Qed.

Section Expansion.
Context {W : Type}.
Variable getaddrinfo : bytes -> W -> option (list addrinfo) * W.

(** What expanding some tokens from [arr], [total] comes to, when they ask for
    [asked]. *)
Definition expanded (asked : option (list target * W)) (arr : dynarray) (h : heap)
    (r : list_status * dynarray * Z * W * heap) : Prop :=
  let '(st, arr', total', w', h') := r in
  steps arr h arr' h' /\
  match st with
  | LIST_OK => exists ts, asked = Some (ts, w') /\ items arr' = items arr ++ ts /\
      total' = Z.of_nat (length (items arr')) /\ total' <= MAX_TARGETS
  | _ => false ∈ oracle h \/
      forall ts w2, asked = Some (ts, w2) -> MAX_TARGETS < Z.of_nat (length (items arr ++ ts))
  end.

Lemma expand_token_spec tok arr total w h :
  arr_ok arr -> total = Z.of_nat (length (items arr)) -> total <= MAX_TARGETS ->
  expanded (token_hosts getaddrinfo tok w) arr h (expand_token getaddrinfo tok arr total w h) /\
  forall ts w2, token_hosts getaddrinfo tok w = Some (ts, w2) -> ts <> [].
Proof.
  intros Ha Htot Hmax. unfold expand_token, token_hosts. set (t := trim_spaces tok).
  destruct (Nat.eqb (length t) 0); [split; [split; [by apply steps_refl|by right]|done]|].
  destruct (TARGET_LIST_TOKEN_MAX_LEN <=? Z.of_nat (length t)); [split; [split; [by apply steps_refl|by right]|done]|]. cbn [orb].
  destruct (after_char 47 t) as [rest|].
  - destruct (cidr_parse t) as [e|c] eqn:Ec; [split; [split; [by apply steps_refl|by right]|done]|].
    apply cidr_parse_spec in Ec as (a & p & Hd & H0 & ->). destruct Hd as (s1 & s2 & _ & _ & _ & _ & _ & Hp).
    rewrite host_count_pow by done. cbn [network prefix]. fold literal_target.
    change (fun a0 => Target (inet_ntop a0) (inet_ntop a0)) with literal_target.
    pose proof (Z.pow_pos_nonneg 2 (32 - p) ltac:(lia) ltac:(lia)) as Hpos.
    assert (2 ^ (32 - p) <= 2 ^ 32) by (apply Z.pow_le_mono_r; lia).
    rewrite (proj2 (Z.eqb_neq (2 ^ (32 - p)) 0)) by lia. cbn [orb]. rewrite Z.mod_small by (unfold MAX_TARGETS in *; lia).
    split.
    + destruct (Z.ltb_spec MAX_TARGETS (total + 2 ^ (32 - p))) as [Hbig|Hfit].
      * split; [by apply steps_refl|right]. intros ts w2 [= <- _]. rewrite length_app, length_map, length_seqZ. lia.
      * pose proof (expand_cidr_spec (a / 2 ^ (32 - p)) p (Z.to_nat (2 ^ (32 - p))) 0 arr h ltac:(lia) ltac:(lia) ltac:(lia) Ha) as HC.
        destruct (expand_cidr _ _ _ _ _) as [[st a1] h1]. destruct HC as (Hs & [[-> Hi]|[-> Hf]]); (split; [done|]); [|by left].
        rewrite Z.add_0_r, Z2Nat.id in Hi by lia.
        exists (map literal_target (seqZ (a / 2 ^ (32 - p) * 2 ^ (32 - p)) (2 ^ (32 - p)))). split_and!; [done|done| |lia].
        rewrite Hi, length_app, length_map, length_seqZ. lia.
    + intros ts w2 [= <- _] E. apply (f_equal length) in E. rewrite length_map, length_seqZ in E. cbn [length] in E. lia.
  - destruct (target_parse getaddrinfo (Some t) w) as [r w1]. split.
    + destruct (Z.ltb_spec MAX_TARGETS (total + 1)) as [Hbig|Hfit].
      * split; [by apply steps_refl|right]. intros ts w2. destruct r; [done|]. intros [= <- _]. rewrite length_app. cbn [length]. lia.
      * destruct r as [[]|x]; try (split; [by apply steps_refl|by right]).
        pose proof (dynarray_push_spec arr x h Ha) as HP. destruct (dynarray_push _ _ _) as [[ok a1] h1].
        destruct HP as (Hs & Hi & Hf). destruct ok; cbn [negb]; (split; [done|]); [|left; auto].
        exists [x]. split_and!; [done|done| |lia]. rewrite Hi, length_app. cbn [length]. lia.
    + intros ts w2. destruct r; [done|]. by intros [= <- _].
Qed.

(** One request after another. *)
Definition asked_seq (asked : option (list target * W)) (k : W -> option (list target * W)) : option (list target * W) :=
  match asked with
  | None => None
  | Some (ts, w) => match k w with None => None | Some (ts', w) => Some (ts ++ ts', w) end
  end.

Lemma expanded_seq asked k arr h st arr1 total1 w1 h1 r :
  expanded asked arr h (st, arr1, total1, w1, h1) ->
  (st = LIST_OK -> arr_ok arr1 -> total1 = Z.of_nat (length (items arr1)) -> total1 <= MAX_TARGETS ->
   expanded (k w1) arr1 h1 r) ->
  expanded (asked_seq asked k) arr h (match st with LIST_OK => r | _ => (st, arr1, total1, w1, h1) end).
Proof.
  unfold expanded, asked_seq. intros [Hs Hst] Hr. destruct r as [[[[st2 a2] total2] w2] h2].
  destruct (decide (st = LIST_OK)) as [->|Hne].
  - destruct Hst as (ts & -> & Hi & Htot1 & Hmax1). destruct (Hr eq_refl (proj1 Hs) Htot1 Hmax1) as [Hs2 Hst2].
    split; [by eapply steps_trans|]. rewrite Hi in Hst2. destruct st2.
    { destruct Hst2 as (ts' & -> & Hi2 & ? & ?). exists (ts ++ ts'). by rewrite app_assoc. }
    all: destruct Hst2 as [Hf|Hbig]; [left; by apply Hs|right]; intros l w3 E;
      destruct (k w1) as [[ts' w3']|]; [|done]; injection E as <- _; rewrite app_assoc; by eapply Hbig.
  - assert (Hbig : false ∈ oracle h \/ forall ts w2, asked = Some (ts, w2) -> MAX_TARGETS < Z.of_nat (length (items arr ++ ts))) by (by destruct st).
    assert (Hgoal : false ∈ oracle h \/ forall ts w2, asked_seq asked k = Some (ts, w2) -> MAX_TARGETS < Z.of_nat (length (items arr ++ ts))).
    { destruct Hbig as [?|Hbig]; [by left|right]. intros l w3. unfold asked_seq. destruct asked as [[ts w4]|]; [|done].
      destruct (k w4) as [[ts' ?]|]; [|done]. intros [= <- _]. specialize (Hbig _ _ eq_refl). rewrite !length_app in *. lia. }
    destruct st; done.
Qed.

Lemma lines_loop_spec ls arr total w h :
  arr_ok arr -> total = Z.of_nat (length (items arr)) -> total <= MAX_TARGETS ->
  expanded (tokens_hosts getaddrinfo ls w) arr h (lines_loop getaddrinfo ls arr total w h).
Proof.
  revert arr total w h; induction ls as [|tok ls IH]; intros arr total w h Ha Htot Hmax; cbn [lines_loop tokens_hosts].
  { split; [by apply steps_refl|]. exists []. by rewrite app_nil_r. }
  pose proof (proj1 (expand_token_spec tok arr total w h Ha Htot Hmax)) as HT.
  destruct (expand_token _ _ _ _ _ _) as [[[[st a1] total1] w1] h1].
  apply (expanded_seq _ (tokens_hosts getaddrinfo ls) _ _ _ _ _ _ _ _ HT). intros _. apply IH.
Qed.

(** The tokens of a specification, within its limits. *)
Definition spec_tokens (limit : nat) (spec : bytes) : option (list bytes) :=
  if Nat.leb (length (split_on 44 spec)) limit then Some (split_on 44 spec) else None.

Definition all_hosts (toks : option (list bytes)) (w : W) : option (list target * W) :=
  match toks with Some toks => tokens_hosts getaddrinfo toks w | None => None end.

Lemma expanded_none asked arr h r : asked = None -> expanded None arr h r -> expanded asked arr h r.
Proof. by intros ->. Qed.

Lemma spec_loop_spec fuel rest arr total w h :
  arr_ok arr -> total = Z.of_nat (length (items arr)) -> total <= MAX_TARGETS ->
  expanded (all_hosts (spec_tokens fuel rest) w) arr h (spec_loop getaddrinfo fuel rest arr total w h).
Proof.
  revert rest arr total w h; induction fuel as [|fuel IH]; intros rest arr total w h Ha Htot Hmax; cbn [spec_loop].
  { assert (spec_tokens 0 rest = None) as ->.
    { unfold spec_tokens. by destruct (split_on_cons 44 rest) as (f & fs & ->). }
    split; [by apply steps_refl|by right]. }
  pose proof (proj1 (expand_token_spec (before_char 44 rest) arr total w h Ha Htot Hmax)) as HT.
  destruct (expand_token _ _ _ _ _ _) as [[[[st a1] total1] w1] h1].
  assert (Hsplit : split_on 44 rest = before_char 44 rest :: match after_char 44 rest with None => [] | Some r => split_on 44 r end).
  { rewrite split_on_scan. unfold before_char, after_char. by destruct (drop_while _ _). }
  assert (all_hosts (spec_tokens (S fuel) rest) w = asked_seq (token_hosts getaddrinfo (before_char 44 rest) w)
    (fun w => match after_char 44 rest with None => Some ([], w) | Some r => all_hosts (spec_tokens fuel r) w end)) as ->.
  { unfold spec_tokens. rewrite Hsplit. destruct (after_char 44 rest) as [r|]; cbn [length Nat.leb].
    - unfold asked_seq. destruct (Nat.leb _ fuel); cbn [all_hosts]; [done|]. by destruct (token_hosts _ _ _) as [[? ?]|].
    - done. }
  apply (expanded_seq _ _ _ _ _ _ _ _ _ _ HT). intros _ Ha1 Htot1 Hmax1. destruct (after_char 44 rest); [by apply IH|].
  split; [by apply steps_refl|]. exists []. by rewrite app_nil_r.
Qed.

Lemma expand_spec_spec spec arr total w h :
  arr_ok arr -> total = Z.of_nat (length (items arr)) -> total <= MAX_TARGETS ->
  expanded (if Z.of_nat (length spec) <? TARGET_LIST_SPEC_MAX_LEN
            then all_hosts (spec_tokens (Z.to_nat TARGET_LIST_SPEC_MAX_TOKENS) spec) w else None)
    arr h (expand_spec getaddrinfo spec arr total w h).
Proof.
  intros Ha Htot Hmax. unfold expand_spec. destruct (Z.ltb_spec (Z.of_nat (length spec)) TARGET_LIST_SPEC_MAX_LEN).
  - rewrite (proj2 (Z.leb_gt _ _)) by lia. by apply spec_loop_spec.
  - rewrite (proj2 (Z.leb_le _ _)) by lia. split; [by apply steps_refl|by right].
Qed.
End Expansion.

(** ** The whole list *)

#[export] Instance readable_dec s : Decision (readable s).
Proof. unfold readable. apply _. Defined.

Section Parse.
Context {W : Type}.
Variable getaddrinfo : bytes -> W -> option (list addrinfo) * W.
Variable open_file : bytes -> option file_data.

Definition spec_hosts (spec : option bytes) (w : W) : option (list target * W) :=
  match given spec with
  | None => Some ([], w)
  | Some s =>
      if (Z.of_nat (length s) <? TARGET_LIST_SPEC_MAX_LEN) &&
         (Z.of_nat (length (split_on 44 s)) <=? TARGET_LIST_SPEC_MAX_TOKENS)
      then tokens_hosts getaddrinfo (split_on 44 s) w else None
  end.

Definition file_hosts (path : option bytes) (w : W) : option (list target * W) :=
  match given path with
  | None => Some ([], w)
  | Some p =>
      match open_file p with
      | Some f => if decide (readable (content f)) then tokens_hosts getaddrinfo (file_entries (content f)) w else None
      | None => None
      end
  end.

(** The hosts a specification and a targets file ask for, in order. *)
Definition asked_hosts (spec path : option bytes) (w : W) : option (list target * W) :=
  asked_seq (spec_hosts spec w) (file_hosts path).

(** Files are text, and can be read to their end. *)
Definition text_files : Prop :=
  forall p f, open_file p = Some f -> read_error f = false /\ Forall (fun c => c <> 0) (content f).

Lemma given_Some s p : given s = Some p -> s = Some p /\ p <> [].
Proof. destruct s as [[|c s]|]; [done| |done]. by intros [= <-]. Qed.

Lemma expand_file_spec path arr total w h :
  text_files -> path <> [] ->
  arr_ok arr -> total = Z.of_nat (length (items arr)) -> total <= MAX_TARGETS ->
  expanded (file_hosts (Some path) w) arr h
    (let '(fst, ls, h) := targets_file_read open_file (Some path) (Lines [] 0) h in
     if negb (bool_decide (fst = FILE_OK)) then (LIST_ERR_FILE, arr, total, w, h) else
     let '(st, arr, total, w, h) := lines_loop getaddrinfo (lines ls) arr total w h in
     (st, arr, total, w, lines_release ls h)).
Proof.
  intros Htext Hp Ha Htot Hmax. unfold file_hosts. destruct path as [|c path]; [done|]. cbn [given].
  destruct (open_file (c :: path)) as [f|] eqn:Ho.
  - destruct (Htext _ _ Ho) as [He Hnz]. pose proof (targets_file_entries open_file _ f (Lines [] 0) h Hp Ho He Hnz) as HR.
    destruct (targets_file_read _ _ _ _) as [[fst ls] h1]. destruct HR as (Horacle & HOK & HBAD). case_bool_decide as Hst; cbn [negb].
    + destruct (HOK Hst) as (Hr & Hl & Hlive). rewrite decide_True by done. rewrite Hl.
      pose proof (lines_loop_spec getaddrinfo (file_entries (content f)) arr total w h1 Ha Htot Hmax) as HL.
      destruct (lines_loop _ _ _ _ _ _) as [[[[st a2] total2] w2] h2]. destruct HL as [(Ha2 & Hlive2 & Ho2) Hst2]. split.
      * split_and!; [done|rewrite lines_release_spec; lia|rewrite lines_release_oracle; auto].
      * assert (Hmono : forall P : Prop, false ∈ oracle h1 \/ P -> false ∈ oracle h \/ P) by (intros P [?|?]; [left; auto|by right]).
        destruct st; auto.
    + destruct (HBAD Hst) as (Hwhy & _ & Hlive). split; [split_and!; [done|lia|done]|].
      destruct Hwhy as [Hnr|[_ ?]]; [right; by rewrite decide_False by done|by left].
  - unfold targets_file_read. rewrite Ho. cbn. split; [by apply steps_refl|by right].
Qed.

Lemma expand_all_spec spec path w h :
  text_files ->
  expanded (asked_hosts spec path w) (Dynarray [] 0) h (expand_all getaddrinfo open_file spec path w h).
Proof.
  intros Htext. unfold expand_all, asked_hosts. assert (Ha : arr_ok (Dynarray [] 0)) by (split; cbn; lia).
  assert (H0 : 0 <= MAX_TARGETS) by (unfold MAX_TARGETS; lia).
  assert (HT : expanded (spec_hosts spec w) (Dynarray [] 0) h
    match given spec with
    | Some spec => expand_spec getaddrinfo spec (Dynarray [] 0) 0 w h
    | None => (LIST_OK, Dynarray [] 0, 0, w, h)
    end).
  { unfold spec_hosts. destruct (given spec) as [s|].
    - pose proof (expand_spec_spec getaddrinfo s (Dynarray [] 0) 0 w h Ha eq_refl H0) as HE. unfold spec_tokens, all_hosts in HE.
      destruct (_ <? TARGET_LIST_SPEC_MAX_LEN); cbn [andb]; [|done].
      destruct (Nat.leb_spec (length (split_on 44 s)) (Z.to_nat TARGET_LIST_SPEC_MAX_TOKENS)).
      + rewrite (proj2 (Z.leb_le _ _)); [done|]. unfold TARGET_LIST_SPEC_MAX_TOKENS in *. lia.
      + rewrite (proj2 (Z.leb_gt _ _)); [done|]. unfold TARGET_LIST_SPEC_MAX_TOKENS in *. lia.
    - split; [by apply steps_refl|]. by exists []. }
  destruct (match given spec with Some spec => _ | None => _ end) as [[[[st a1] total1] w1] h1].
  assert (HS := fun r => expanded_seq _ (file_hosts path) _ _ _ _ _ _ _ r HT). cbv beta in HS.
  destruct (given path) as [p|] eqn:Ep.
  - apply given_Some in Ep as [-> Hp]. specialize (HS _ (fun _ Ha1 Ht Hm => expand_file_spec p a1 total1 w1 h1 Htext Hp Ha1 Ht Hm)).
    by destruct st.
  - assert (HN : forall w, file_hosts path w = Some ([], w)) by (intros v; unfold file_hosts; by rewrite Ep).
    specialize (HS (LIST_OK, a1, total1, w1, h1)). rewrite HN in HS. assert (HE := HS (fun _ Ha1 Ht Hm => conj (steps_refl a1 h1 Ha1)
      (ex_intro _ [] (conj eq_refl (conj (eq_sym (app_nil_r _)) (conj Ht Hm)))))). by destruct st.
Qed.

(** C12: The target list.  With text files, building the list succeeds exactly
    when every token of the specification and every entry of the file denotes
    hosts (a host name or address that resolves to an IPv4 address, or a valid
    CIDR block), within the limits on lengths and tokens, there is at least
    one host and at most 65536 before duplicates are removed; allocations
    permitting.  The result is then the hosts in the order asked for, the
    first one of every address, with no address twice and none missing, in one
    block.  Otherwise [*out_list] is left as it was and nothing stays
    allocated. *)
Theorem target_list_correct spec path out w h :
  text_files ->
  let '(st, out', w', h') := target_list_parse getaddrinfo open_file spec path (Some out) w h in
  (st = LIST_OK ->
   exists ts l, asked_hosts spec path w = Some (ts, w') /\ 1 <= Z.of_nat (length ts) <= MAX_TARGETS /\
     out' = Some l /\ l = first_of_each [] ts /\ NoDup (map ip l) /\
     (forall t, t ∈ ts -> exists u, u ∈ l /\ ip u = ip t) /\ live h' = live h + 1) /\
  (st <> LIST_OK ->
   (false ∈ oracle h \/
    (forall ts w2, asked_hosts spec path w = Some (ts, w2) -> ~ 1 <= Z.of_nat (length ts) <= MAX_TARGETS)) /\
   out' = Some out /\ live h' = live h).
Proof.
  intros Htext. unfold target_list_parse. pose proof (expand_all_spec spec path w h Htext) as HE.
  destruct (expand_all _ _ _ _ _ _) as [[[[st a1] total1] w1] h1] eqn:EA.
  assert (HP : forall r : list_status * option (list target) * W * heap,
    match given spec, given path with None, None => (LIST_ERR_EMPTY, Some out, w, h) | _, _ => r end =
    if bool_decide (given spec = None /\ given path = None) then (LIST_ERR_EMPTY, Some out, w, h) else r).
  { intros r. by destruct (given spec), (given path). }
  rewrite HP. clear HP. case_bool_decide as Hnone.
  { split; [done|intros _]. split; [right|done]. destruct Hnone as [H1 H2]. unfold asked_hosts, spec_hosts, file_hosts.
    rewrite H1, H2. cbn. intros ts w2 [= <- _]. cbn. lia. }
  destruct HE as [(Ha1 & Hl1 & Ho1) Hst]. change (arr_owned (Dynarray [] 0)) with 0 in Hl1. rewrite Z.sub_0_r in Hl1.
  destruct (decide (st = LIST_OK)) as [->|Hne].
  - destruct Hst as (ts & Hask & Hi & Htot & Hmax). rewrite app_nil_l in Hi. destruct (Z.eqb_spec total1 0) as [E0|E0].
    { split; [done|intros _]. split; [right|split; [done|rewrite dynarray_free_spec; lia]].
      rewrite Hask, <- Hi. intros ? ? [= <- _]. lia. }
    pose proof (dedup_spec a1 h1 Ha1) as HD. destruct (dedup a1 h1) as [[st2 a2] h2].
    destruct HD as [(Ha2 & Hl2 & Ho2) [[-> Hi2]|(-> & -> & Hf)]].
    + split; [intros _|done]. exists ts, (first_of_each [] (items a1)). rewrite <- Hi, Hi2.
      destruct (first_of_each_fresh [] (items a1)) as [HN _]. split_and!; try done; try lia; [by rewrite Hi| |].
      * intros t Ht. apply first_of_each_covers; [done|apply not_elem_of_nil].
      * assert (arr_owned a2 = 1) as Hown.
        { unfold arr_owned. destruct (Z.eqb_spec (capacity a2) 0) as [Ec|]; [exfalso|done]. destruct Ha2 as [_ Hc].
          rewrite Hi2, Ec in Hc. destruct (items a1) as [|t l] eqn:El; [cbn in Htot; lia|].
          cbn [first_of_each] in Hc. rewrite bool_decide_eq_false_2 in Hc by apply not_elem_of_nil. cbn in Hc. lia. }
        assert (live (shrink a2 h2) = live h2) as ->; [|lia]. unfold shrink. destruct (_ && _); [|done].
        destruct (realloc true h2) as [ok h3] eqn:ER. apply realloc_spec in ER as [E3 _]. rewrite andb_false_r in E3. cbn. lia.
    + split; [done|intros _]. split; [left; auto|]. split; [done|rewrite dynarray_free_spec; lia].
  - assert (HR : match st with LIST_OK => if total1 =? 0 then (LIST_ERR_EMPTY, Some out, w1, dynarray_free a1 h1) else
       let '(st, arr, h) := dedup a1 h1 in
       match st with LIST_OK => (LIST_OK, Some (items arr), w1, shrink arr h) | _ => (st, Some out, w1, dynarray_free arr h) end
       | _ => (st, Some out, w1, dynarray_free a1 h1) end = (st, Some out, w1, dynarray_free a1 h1)) by by destruct st.
    rewrite HR. split; [done|intros _]. split; [|split; [done|rewrite dynarray_free_spec; lia]].
    assert (HB : false ∈ oracle h \/ forall ts w2, asked_hosts spec path w = Some (ts, w2) -> MAX_TARGETS < Z.of_nat (length ([] ++ ts)))
      by by destruct st.
    destruct HB as [?|HB]; [by left|right]. intros ts w2 E. specialize (HB _ _ E). cbn in HB. lia.
Qed.
End Parse.

(** A resolver that knows one name, and a file. *)
Definition demo_resolver (name : bytes) (w : nat) : option (list addrinfo) * nat :=
  if bool_decide (name = bs "db.example") then (Some [AiInet6; AiInet (10 * 2 ^ 24 + 2)], S w) else (None, S w).

Definition demo_files (p : bytes) : option file_data := Some example_file.

Lemma target_list_correct_witness :
  exists l, snd (fst (fst (target_list_parse demo_resolver demo_files (Some (bs "10.0.0.0/30,10.0.0.9")) (Some (bs "f")) (Some []) 0%nat (Heap [] 0)))) = Some l /\
    NoDup (map ip l) /\ length l = 5%nat.
Proof.
  assert (Htext : text_files demo_files) by (intros p f [= <-]; vm_compute; split; [done|repeat constructor; done]).
  pose proof (target_list_correct demo_resolver demo_files (Some (bs "10.0.0.0/30,10.0.0.9")) (Some (bs "f")) [] 0%nat (Heap [] 0) Htext) as R.
  destruct (target_list_parse _ _ _ _ _ _ _) as [[[st out'] w'] h'] eqn:E. vm_compute in E. injection E as <- <- <- <-.
  destruct (proj1 R eq_refl) as (ts & l & _ & _ & Hl & _ & HN & _). cbn [fst snd]. exists l. split; [exact Hl|split; [exact HN|]].
  injection Hl as <-. reflexivity.
Defined.
