(* ===== verification/KbValidate.v ===== *)
(** * Validation of knowledge-base keys and values ([src/src/kb/kb_validate.c])

    A key is a NUL-terminated string (its bytes, without the NUL) or NULL; a
    value is a [(pointer, length)] span. *)

From S2P Require Import Prelude Utf8.

Definition KB_KEY_MAX_LEN : Z := 255.
Definition KB_VALUE_MAX_LEN : Z := 4096.

(** ** The checks *)

Definition kb_key_char (c : byte) : bool :=
  ((65 <=? c) && (c <=? 90)) || ((97 <=? c) && (c <=? 122)) || ((48 <=? c) && (c <=? 57)) ||
  (c =? 95) || (c =? 46) || (c =? 45).

(** The scan over the characters; [seg_len] is the length of the segment
    read so far. *)
Fixpoint kb_key_scan (key : bytes) (seg_len : Z) : bool :=
  match key with
  | [] => 0 <? seg_len
  | c :: key =>
      if c =? 47 then (if seg_len =? 0 then false else kb_key_scan key 0)
      else if negb (kb_key_char c) then false
      else kb_key_scan key (seg_len + 1)
  end.

(** [cytadel_kb_validate_key] *)
Definition kb_validate_key (key : option bytes) : bool :=
  match key with
  | None => false
  | Some key =>
      let len := Z.min (Z.of_nat (length key)) (KB_KEY_MAX_LEN + 1) in
      if (len =? 0) || (KB_KEY_MAX_LEN <? len) then false
      else if bool_decide (head key = Some 47) || bool_decide (last key = Some 47) then false
      else kb_key_scan key 0
  end.

(** [cytadel_kb_validate_no_embedded_nul] *)
Definition kb_validate_no_embedded_nul (buf : span) : bool :=
  match buf with
  | NullSpan len => len =? 0
  | Span b => forallb (fun c => negb (c =? 0)) b
  end.

(** The lead-byte table: continuation bytes expected, and the bounds of the
    first of them. *)
Definition utf8_lead (b0 : byte) : option (nat * Z * Z) :=
  if (194 <=? b0) && (b0 <=? 223) then Some (1%nat, 128, 191)
  else if b0 =? 224 then Some (2%nat, 160, 191)
  else if (225 <=? b0) && (b0 <=? 236) then Some (2%nat, 128, 191)
  else if b0 =? 237 then Some (2%nat, 128, 159)
  else if (238 <=? b0) && (b0 <=? 239) then Some (2%nat, 128, 191)
  else if b0 =? 240 then Some (3%nat, 144, 191)
  else if (241 <=? b0) && (b0 <=? 243) then Some (3%nat, 128, 191)
  else if b0 =? 244 then Some (3%nat, 128, 143)
  else None.

(** The [while (i < len)] loop: the suffix at [i]; every round drops at least
    one byte, so the length of the buffer is enough fuel ([None] is never
    returned by [kb_validate_utf8], see [utf8_loop_total]). *)
Fixpoint utf8_loop (fuel : nat) (buf : bytes) : option bool :=
  match buf with
  | [] => Some true
  | b0 :: rest =>
      match fuel with
      | O => None
      | S fuel =>
          if b0 <? 128 then utf8_loop fuel rest
          else
            match utf8_lead b0 with
            | None => Some false
            | Some (extra, lo, hi) =>
                if Nat.leb (length buf) extra then Some false
                else
                  let c1 := nth 0 rest 0 in
                  if (c1 <? lo) || (hi <? c1) then Some false
                  else if forallb (fun k => let ck := nth k rest 0 in negb ((ck <? 128) || (191 <? ck)))
                            (seq 1 (extra - 1))
                  then utf8_loop fuel (drop extra rest)
                  else Some false
            end
      end
  end.

(** [cytadel_kb_validate_utf8] *)
Definition kb_validate_utf8 (buf : span) : bool :=
  match buf with
  | NullSpan len => len =? 0
  | Span b => default false (utf8_loop (length b) b)
  end.

(** ** Reference definitions *)

(** Segments joined by slashes. *)
Fixpoint join_slash (segs : list bytes) : bytes :=
  match segs with
  | [] => []
  | [s] => s
  | s :: segs => s ++ 47 :: join_slash segs
  end.

Definition segment_ok (s : bytes) : Prop := s <> [] /\ Forall (fun c => kb_key_char c = true) s.

(** ** Lemmas: UTF-8 *)

Ltac Zify.zify_post_hook ::= Z.to_euclidean_division_equations.

Lemma utf8_lead_inv b0 extra lo hi :
  utf8_lead b0 = Some (extra, lo, hi) ->
  (extra = 1%nat /\ 194 <= b0 <= 223 /\ lo = 128 /\ hi = 191) \/
  (extra = 2%nat /\ 224 <= b0 <= 239 /\
     lo = (if b0 =? 224 then 160 else 128) /\ hi = (if b0 =? 237 then 159 else 191)) \/
  (extra = 3%nat /\ 240 <= b0 <= 244 /\
     lo = (if b0 =? 240 then 144 else 128) /\ hi = (if b0 =? 244 then 143 else 191)).
Proof.
  unfold utf8_lead.
  repeat match goal with |- (if ?b then _ else _) = _ -> _ => destruct b eqn:? end;
    intros [= <- <- <-]; breflect; subst; simpl; try lia;
    try (destruct (Z.eqb_spec b0 237); lia); destruct (Z.eqb_spec b0 244); lia.
Qed.

Lemma utf8_lead_some b0 :
  194 <= b0 <= 244 -> exists extra lo hi, utf8_lead b0 = Some (extra, lo, hi).
Proof.
  intros Hb. unfold utf8_lead.
  repeat match goal with |- context [if ?b then _ else _] => destruct b eqn:? end; eauto.
  exfalso. breflect.
  repeat match goal with H : (_ <=? _) = false \/ (_ <=? _) = false |- _ =>
    rewrite !Z.leb_gt in H end. lia.
Qed.

(** A continuation byte. *)
Definition cont (lo hi c : Z) : Prop := lo <= c <= hi.

Lemma utf8_seq1 fuel b0 rest : b0 < 128 -> utf8_loop (S fuel) (b0 :: rest) = utf8_loop fuel rest.
Proof. intros H. simpl. by rewrite (proj2 (Z.ltb_lt _ _) H). Qed.

Ltac cont_bool :=
  unfold cont in *;
  repeat match goal with
  | |- context [?a <? ?b] => destruct (Z.ltb_spec a b); try lia; simpl
  end; try done.

Lemma utf8_seq2 fuel b0 lo hi c1 rest :
  128 <= b0 -> utf8_lead b0 = Some (1%nat, lo, hi) -> cont lo hi c1 ->
  utf8_loop (S fuel) (b0 :: c1 :: rest) = utf8_loop fuel rest.
Proof. intros Hb Hl H1. simpl. rewrite Hl. cont_bool. Qed.

Lemma utf8_seq3 fuel b0 lo hi c1 c2 rest :
  128 <= b0 -> utf8_lead b0 = Some (2%nat, lo, hi) -> cont lo hi c1 -> cont 128 191 c2 ->
  utf8_loop (S fuel) (b0 :: c1 :: c2 :: rest) = utf8_loop fuel rest.
Proof. intros Hb Hl H1 H2. simpl. rewrite Hl. cont_bool. Qed.

Lemma utf8_seq4 fuel b0 lo hi c1 c2 c3 rest :
  128 <= b0 -> utf8_lead b0 = Some (3%nat, lo, hi) -> cont lo hi c1 -> cont 128 191 c2 ->
  cont 128 191 c3 ->
  utf8_loop (S fuel) (b0 :: c1 :: c2 :: c3 :: rest) = utf8_loop fuel rest.
Proof. intros Hb Hl H1 H2 H3. simpl. rewrite Hl. cont_bool. Qed.

(** The continuation bytes of a sequence the loop accepts. *)
Lemma utf8_seq_inv fuel b0 extra lo hi rest :
  128 <= b0 -> utf8_lead b0 = Some (extra, lo, hi) -> (1 <= extra)%nat ->
  utf8_loop (S fuel) (b0 :: rest) = Some true ->
  exists c1 cs rest', rest = c1 :: cs ++ rest' /\ length cs = (extra - 1)%nat /\ cont lo hi c1 /\
    Forall (cont 128 191) cs /\ utf8_loop fuel rest' = Some true.
Proof.
  intros Hb Hl He. cbn -[Nat.leb nth forallb seq drop]. rewrite Hl.
  destruct (Z.ltb_spec b0 128); [lia|].
  destruct (Nat.leb_spec (S (length rest)) extra) as [|Hlen]; [done|].
  destruct rest as [|c1 rest]; [simpl in Hlen; lia|]. simpl nth.
  destruct ((c1 <? lo) || (hi <? c1)) eqn:H1; [done|].
  destruct (forallb _ _) eqn:Hc; [|done]. intros HL.
  destruct extra as [|extra]; [lia|]. change (drop (S extra) (c1 :: rest)) with (drop extra rest) in HL.
  replace (S extra - 1)%nat with extra in * by lia. simpl length in Hlen.
  exists c1, (take extra rest), (drop extra rest).
  rewrite take_drop, length_take. split; [done|]. split; [lia|].
  split; [unfold cont; breflect; lia|]. split; [|done].
  apply Forall_forall. intros x Hx. apply list_elem_of_lookup in Hx as [k Hk].
  apply lookup_take_Some in Hk as [Hk Hlt].
  rewrite forallb_forall in Hc. specialize (Hc (S k)).
  assert (In (S k) (seq 1 extra)) as Hin by (apply in_seq; lia).
  specialize (Hc Hin). simpl in Hc. rewrite (nth_lookup_Some rest k 0 x Hk) in Hc.
  unfold cont. apply negb_true_iff in Hc. breflect. lia.
Qed.

(** One encoded scalar value is one round of the loop. *)
Lemma utf8_loop_encode fuel cp rest :
  scalar_value cp -> utf8_loop (S fuel) (utf8_encode cp ++ rest) = utf8_loop fuel rest.
Proof.
  intros Hcp. unfold scalar_value in Hcp. unfold utf8_encode.
  destruct (Z.ltb_spec cp 128); [by apply utf8_seq1|].
  destruct (Z.ltb_spec cp 2048); [|destruct (Z.ltb_spec cp 65536)]; simpl.
  - destruct (utf8_lead_some (192 + cp / 64)) as (e & lo & hi & E); [lia|].
    destruct (utf8_lead_inv _ _ _ _ E) as [(-> & ? & -> & ->)|[(_ & ? & _)|(_ & ? & _)]]; [|lia|lia].
    eapply utf8_seq2; [lia|done|unfold cont; lia].
  - destruct (utf8_lead_some (224 + cp / 4096)) as (e & lo & hi & E); [lia|].
    destruct (utf8_lead_inv _ _ _ _ E) as [(_ & ? & _)|[(-> & ? & Hlo & Hhi)|(_ & ? & _)]]; [lia| |lia].
    eapply utf8_seq3; [lia|done| |unfold cont; lia].
    unfold cont. rewrite Hlo, Hhi.
    destruct (Z.eqb_spec (224 + cp / 4096) 224), (Z.eqb_spec (224 + cp / 4096) 237); lia.
  - destruct (utf8_lead_some (240 + cp / 262144)) as (e & lo & hi & E); [lia|].
    destruct (utf8_lead_inv _ _ _ _ E) as [(_ & ? & _)|[(_ & ? & _)|(-> & ? & Hlo & Hhi)]]; [lia|lia|].
    eapply utf8_seq4; [lia|done| |unfold cont; lia|unfold cont; lia].
    unfold cont. rewrite Hlo, Hhi.
    destruct (Z.eqb_spec (240 + cp / 262144) 240), (Z.eqb_spec (240 + cp / 262144) 244); lia.
Qed.

(** The scalar value of an accepted sequence. *)
Lemma utf8_loop_decode fuel b0 rest :
  byte_ok b0 -> utf8_loop (S fuel) (b0 :: rest) = Some true ->
  exists cp rest', scalar_value cp /\ b0 :: rest = utf8_encode cp ++ rest' /\
    utf8_loop fuel rest' = Some true.
Proof.
  unfold byte_ok, scalar_value. intros Hb HL. destruct (Z.lt_ge_cases b0 128) as [Hlt|Hge].
  { rewrite utf8_seq1 in HL by done. exists b0, rest. unfold utf8_encode.
    rewrite (proj2 (Z.ltb_lt _ _) Hlt). split; [lia|done]. }
  destruct (utf8_lead b0) as [[[e lo] hi]|] eqn:E.
  2: { simpl in HL. rewrite E in HL. by destruct (Z.ltb_spec b0 128); [lia|]. }
  destruct (utf8_lead_inv _ _ _ _ E) as [(-> & ? & -> & ->)|[(-> & ? & Hlo & Hhi)|(-> & ? & Hlo & Hhi)]];
    (destruct (utf8_seq_inv _ _ _ _ _ _ Hge E ltac:(lia) HL) as
      (c1 & cs & rest' & -> & Hlen & H1 & Hcs & HL'); unfold cont in H1).
  - destruct cs; [|done]. exists ((b0 - 192) * 64 + (c1 - 128)), rest'.
    split; [lia|]. split; [|done]. unfold utf8_encode.
    destruct (Z.ltb_spec ((b0 - 192) * 64 + (c1 - 128)) 128); [lia|].
    destruct (Z.ltb_spec ((b0 - 192) * 64 + (c1 - 128)) 2048); [|lia].
    simpl. f_equal; [lia|]. f_equal. lia.
  - destruct cs as [|c2 [|]]; try done. apply Forall_cons in Hcs as [H2 _]. unfold cont in H2.
    exists ((b0 - 224) * 4096 + (c1 - 128) * 64 + (c2 - 128)), rest'.
    assert (128 <= c1 <= 191).
    { revert Hlo Hhi. destruct (Z.eqb_spec b0 224), (Z.eqb_spec b0 237); intros -> ->; lia. }
    assert (2048 <= (b0 - 224) * 4096 + (c1 - 128) * 64 + (c2 - 128) < 55296 \/
            57344 <= (b0 - 224) * 4096 + (c1 - 128) * 64 + (c2 - 128) < 65536).
    { revert Hlo Hhi. destruct (Z.eqb_spec b0 224), (Z.eqb_spec b0 237); intros -> ->; lia. }
    split; [lia|]. split; [|done]. unfold utf8_encode.
    do 2 (rewrite (proj2 (Z.ltb_ge _ _)) by lia). rewrite (proj2 (Z.ltb_lt _ _)) by lia.
    simpl. f_equal; [lia|]. f_equal; [lia|]. f_equal. lia.
  - destruct cs as [|c2 [|c3 [|]]]; try done. apply Forall_cons in Hcs as [H2 Hcs].
    apply Forall_cons in Hcs as [H3 _]. unfold cont in H2, H3.
    exists ((b0 - 240) * 262144 + (c1 - 128) * 4096 + (c2 - 128) * 64 + (c3 - 128)), rest'.
    assert (128 <= c1 <= 191).
    { revert Hlo Hhi. destruct (Z.eqb_spec b0 240), (Z.eqb_spec b0 244); intros -> ->; lia. }
    assert (65536 <= (b0 - 240) * 262144 + (c1 - 128) * 4096 + (c2 - 128) * 64 + (c3 - 128) <= 1114111).
    { revert Hlo Hhi. destruct (Z.eqb_spec b0 240), (Z.eqb_spec b0 244); intros -> ->; lia. }
    split; [lia|]. split; [|done]. unfold utf8_encode.
    do 3 (rewrite (proj2 (Z.ltb_ge _ _)) by lia).
    simpl. f_equal; [lia|]. f_equal; [lia|]. f_equal; [lia|]. f_equal. lia.
Qed.

Lemma utf8_loop_total fuel buf : (length buf <= fuel)%nat -> is_Some (utf8_loop fuel buf).
Proof.
  revert buf; induction fuel as [|fuel IH]; intros [|b0 rest] Hl;
    [by eexists|simpl in Hl; lia|by eexists|].
  simpl in Hl. cbn -[Nat.leb nth forallb seq drop].
  destruct (b0 <? 128); [apply IH; lia|].
  destruct (utf8_lead b0) as [[[e lo] hi]|]; [|by eexists].
  destruct (Nat.leb _ _); [by eexists|]. destruct (_ || _); [by eexists|].
  destruct (forallb _ _); [|by eexists]. apply IH. rewrite length_drop. lia.
Qed.

Lemma utf8_encode_nonempty cp : exists c cs, utf8_encode cp = c :: cs.
Proof. unfold utf8_encode. repeat case_match; eauto. Qed.

Lemma utf8_loop_spec fuel buf :
  (length buf <= fuel)%nat -> Forall byte_ok buf ->
  utf8_loop fuel buf = Some true <->
  exists cps, Forall scalar_value cps /\ buf = concat (map utf8_encode cps).
Proof.
  revert buf; induction fuel as [|fuel IH]; intros [|b0 rest] Hl Hok;
    [split; [by exists []|done]|simpl in Hl; lia|split; [by exists []|done]|].
  split.
  - intros HL. destruct (utf8_loop_decode fuel b0 rest) as (cp & rest' & Hcp & Heq & HL');
      [by inversion Hok|done|].
    destruct (utf8_encode_nonempty cp) as (c & cs & Ec).
    rewrite Heq in Hok, Hl. rewrite Ec in Hl. simpl in Hl. rewrite length_app in Hl.
    apply Forall_app in Hok as [_ Hok].
    destruct (proj1 (IH rest' ltac:(lia) Hok) HL') as (cps & Hcps & ->).
    exists (cp :: cps). split; [by constructor|done].
  - intros (cps & Hcps & Heq). destruct Hcps as [|cp cps Hcp Hcps]; [done|].
    simpl in Heq. rewrite Heq, utf8_loop_encode by done.
    destruct (utf8_encode_nonempty cp) as (c & cs & Ec).
    rewrite Heq in Hok, Hl. rewrite Ec in Hl. simpl in Hl. rewrite length_app in Hl.
    apply Forall_app in Hok as [_ Hok].
    apply IH; [lia|done|]. by exists cps.
Qed.

(** ** Lemmas: keys *)

Lemma kb_key_char_slash : kb_key_char 47 = false.
Proof. reflexivity. Qed.

Lemma kb_key_scan_spec key n :
  0 <= n ->
  kb_key_scan key n = true <->
  exists s segs, key = join_slash (s :: segs) /\ Forall (fun c => kb_key_char c = true) s /\
    (0 < n \/ s <> []) /\ Forall segment_ok segs.
Proof.
  revert n; induction key as [|c key IH]; intros n Hn; simpl kb_key_scan.
  - rewrite Z.ltb_lt. split.
    + intros H. exists [], []. split_and!; [done|constructor|by left|constructor].
    + intros (s & segs & E & _ & Hs & _). destruct Hs as [?|Hs]; [done|].
      destruct s, segs; done.
  - destruct (Z.eqb_spec c 47) as [->|Hc].
    + destruct (Z.eqb_spec n 0) as [->|Hn0].
      * split; [done|]. intros (s & segs & E & Hch & Hs & _). exfalso.
        destruct s as [|x s]; [destruct Hs; [lia|done]|].
        inversion Hch as [|? ? Hx]; subst. destruct segs; injection E as <- _; done.
      * rewrite IH by lia. split.
        -- intros (s & segs & -> & Hch & Hs & Hsegs). exists [], (s :: segs).
           repeat split; [constructor|left; lia|].
           constructor; [|done]. split; [|done]. destruct Hs; [lia|done].
        -- intros (s & segs & E & Hch & _ & Hsegs).
           destruct s as [|x s].
           ++ destruct segs as [|s segs]; [done|]. injection E as ->.
              inversion_clear Hsegs as [|? ? [Hne Hs]]. exists s, segs. repeat split; auto.
           ++ inversion Hch as [|? ? Hx]; subst. destruct segs; injection E as <- _; done.
    + destruct (kb_key_char c) eqn:Hk; simpl.
      * rewrite IH by lia. split.
        -- intros (s & segs & -> & Hch & _ & Hsegs). exists (c :: s), segs.
           repeat split; [by destruct segs|by constructor|by right|done].
        -- intros (s & segs & E & Hch & Hs & Hsegs).
           destruct s as [|x s].
           ++ destruct segs; [done|]. injection E as ? _. congruence.
           ++ inversion_clear Hch. exists s, segs. repeat split; [|done|left; lia|done].
              destruct segs; injection E as <- ->; done.
      * split; [done|]. intros (s & segs & E & Hch & Hs & Hsegs).
        destruct s as [|x s].
        -- destruct segs; [done|]. injection E as ? _. congruence.
        -- inversion Hch; subst. destruct segs; injection E as <- _; congruence.
Qed.

Lemma kb_key_scan_head key : kb_key_scan key 0 = true -> head key <> Some 47.
Proof. destruct key as [|c key]; [done|]. simpl. intros H [= ->]. done. Qed.

Lemma kb_key_scan_cons c key n :
  kb_key_scan (c :: key) n =
  if c =? 47 then (if n =? 0 then false else kb_key_scan key 0)
  else if negb (kb_key_char c) then false else kb_key_scan key (n + 1).
Proof. done. Qed.

Lemma kb_key_scan_last key n : kb_key_scan key n = true -> last key <> Some 47.
Proof.
  revert n; induction key as [|c key IH]; intros n; [done|]. rewrite kb_key_scan_cons.
  destruct key as [|d key].
  - intros H [= ->]. simpl in H. destruct (n =? 0); vm_compute in H; discriminate.
  - intros H. change (last (c :: d :: key)) with (last (d :: key)).
    destruct (c =? 47); [destruct (n =? 0); [done|]; exact (IH 0 H)|].
    destruct (kb_key_char c); [|done]. exact (IH (n + 1) H).
Qed.

Lemma kb_validate_key_some key :
  kb_validate_key (Some key) = true <->
  0 < Z.of_nat (length key) <= KB_KEY_MAX_LEN /\ kb_key_scan key 0 = true.
Proof.
  unfold kb_validate_key, KB_KEY_MAX_LEN.
  destruct ((Z.min (Z.of_nat (length key)) (255 + 1) =? 0) ||
            (255 <? Z.min (Z.of_nat (length key)) (255 + 1))) eqn:E.
  { split; [done|]. intros [? _]. apply orb_true_iff in E. rewrite Z.eqb_eq, Z.ltb_lt in E. lia. }
  breflect. destruct (bool_decide (head key = Some 47)) eqn:Eh.
  { apply bool_decide_eq_true in Eh. split; [done|]. intros [_ H']. by apply kb_key_scan_head in H'. }
  destruct (bool_decide (last key = Some 47)) eqn:El.
  { apply bool_decide_eq_true in El. split; [done|]. intros [_ H']. by apply kb_key_scan_last in H'. }
  simpl. split; [|by intros [_ ?]]. intros ?. split; [lia|done].
Qed.

(** ** Properties *)

(** On every buffer of bytes the validator terminates within its fuel
    and accepts exactly the well-formed UTF-8 texts: the concatenations of
    encodings of Unicode scalar values (no overlong forms, no surrogates,
    nothing above U+10FFFF, no truncated sequence). *)
Theorem validate_utf8_spec b :
  Forall byte_ok b ->
  is_Some (utf8_loop (length b) b) /\
  (kb_validate_utf8 (Span b) = true <->
   utf8_text b).
Proof.
  unfold utf8_text. intros Hok. destruct (utf8_loop_total (length b) b (le_n _)) as [v Hv].
  split; [by eexists|]. rewrite <- (utf8_loop_spec (length b) b) by done.
  simpl. rewrite Hv. simpl. split; [by intros ->|by intros [= ->]].
Qed.

Lemma validate_utf8_spec_witness :
  exists cps, Forall scalar_value cps /\ [226; 130; 172; 240; 159; 152; 128] = concat (map utf8_encode cps).
Proof.
  assert (Forall byte_ok [226; 130; 172; 240; 159; 152; 128]) as H
    by (repeat constructor; unfold byte_ok; lia).
  apply (proj1 (proj2 (validate_utf8_spec [226; 130; 172; 240; 159; 152; 128] H))). reflexivity.
Defined.

(** The accepted keys are exactly the non-empty strings of at most 255
    bytes that are non-empty segments of letters, digits, [_], [.] and [-]
    joined by single slashes. *)
Theorem validate_key_grammar key :
  kb_validate_key (Some key) = true <->
  0 < Z.of_nat (length key) <= KB_KEY_MAX_LEN /\
  exists segs, segs <> [] /\ Forall segment_ok segs /\ key = join_slash segs.
Proof.
  rewrite kb_validate_key_some. apply and_iff_compat_l. rewrite kb_key_scan_spec by lia. split.
  - intros (s & segs & -> & Hch & [?|Hs] & Hsegs); [lia|]. exists (s :: segs).
    repeat split; [done|]. by repeat constructor.
  - intros (segs & Hne & Hok & ->). destruct Hok as [|s segs [Hs Hch] Hsegs]; [done|].
    exists s, segs. auto.
Qed.
