(* ===== verification/Streams.v ===== *)
(** * Connections and byte streams ([src/src/net/tcp_connect.c],
    [banner_grab.c], [http_probe.c], [tls_session.c], [src/src/log/strerror_safe.c])

    A connection attempt is what its system calls answer; an open connection is
    a stream: what was sent, what the peer sends, and how much each call moves.
    The descriptors and the objects of OpenSSL are counted, so that a theorem
    can say that every path closes what it opened. *)

From S2P Require Import Prelude Cidr KbValidate.

(** ** Errors *)

(** [errno] and its values on Linux. *)
Abbreviation errno := Z (only parsing).

Definition EAGAIN : errno := 11.
Definition EPIPE : errno := 32.
Definition ENETUNREACH : errno := 101.
Definition ECONNRESET : errno := 104.
Definition ECONNREFUSED : errno := 111.
Definition EHOSTUNREACH : errno := 113.
Definition EINPROGRESS : errno := 115.

(** What [strerror_r] does: the XSI one answers a code and fills the buffer,
    the GNU one answers the buffer or another text. *)
Inductive strerror_reply := Xsi (rc : Z) (filled : bytes) | GnuBuffer (filled : bytes) | GnuText (text : bytes).

(** [cytadel_strerror_safe]: the C string in [buf], of [buflen] > 0 bytes. *)
Definition strerror_safe (strerror_r : errno -> strerror_reply) (errnum : errno) (buflen : nat) : bytes :=
  match strerror_r errnum with
  | Xsi rc filled => if rc =? 0 then take (buflen - 1) (c_string filled) else take (buflen - 1) (bs "Unknown error " ++ print_dec errnum)
  | GnuBuffer filled => take (buflen - 1) (c_string filled)
  | GnuText text => take (buflen - 1) (c_string text)
  end.

(** ** Connecting *)

(** What the calls of one attempt answer: [socket] and [connect] ([None] when
    they succeed), the two [fcntl], [poll], and [getsockopt(SO_ERROR)] ([None] when
    it fails, [Some None] for no error). *)
Record attempt := Attempt {
  a_socket : option errno;
  a_nonblocking : bool;
  a_connect : option errno;
  a_poll : Z;
  a_so_error : option (option errno)
}.

(** The descriptors, the [SSL_CTX]s and the [SSL]s in use. *)
Record handles := Handles { n_fds : Z; n_ctxs : Z; n_ssls : Z }.

Definition add_fds (d : Z) (hd : handles) : handles := Handles (n_fds hd + d) (n_ctxs hd) (n_ssls hd).
Definition add_ctxs (d : Z) (hd : handles) : handles := Handles (n_fds hd) (n_ctxs hd + d) (n_ssls hd).
Definition add_ssls (d : Z) (hd : handles) : handles := Handles (n_fds hd) (n_ctxs hd) (n_ssls hd + d).

Definition fd_opened : handles -> handles := add_fds 1.
Definition fd_closed : handles -> handles := add_fds (-1).

(** The shape that the three modules repeat: connect without blocking, wait,
    keep the descriptor. *)
Definition connect_stream (ip : bytes) (a : attempt) (hd : handles) : bool * handles :=
  if bool_decide (is_Some (a_socket a)) then (false, hd) else
  let hd := fd_opened hd in
  if negb (a_nonblocking a) then (false, fd_closed hd) else
  if negb (bool_decide (is_Some (inet_pton ip))) then (false, fd_closed hd) else
  match a_connect a with
  | None => (true, hd)
  | Some e =>
      if negb (e =? EINPROGRESS) then (false, fd_closed hd) else
      if a_poll a <=? 0 then (false, fd_closed hd) else
      match a_so_error a with
      | Some None => (true, hd)
      | _ => (false, fd_closed hd)
      end
  end.

Definition banner_connect : bytes -> attempt -> handles -> bool * handles := connect_stream.
Definition http_connect : bytes -> attempt -> handles -> bool * handles := connect_stream.
Definition tls_raw_connect : bytes -> attempt -> handles -> bool * handles := connect_stream.

(** ** Streams *)

(** What a call that moves bytes answers: how many, or [errno]. *)
Inductive reply := Moved (n : nat) | Refused (e : errno).

(** [sends], [arrivals] and [polls] are the answers to come of [send], [recv]
    and [poll]; when a list is exhausted everything is accepted, the peer has
    closed, and data is ready. *)
Record stream := Stream { sent : bytes; sends : list reply; incoming : bytes; arrivals : list reply; polls : list bool }.

(** [send] of data that is not empty. *)
Definition send_once (data : bytes) (s : stream) : reply * stream :=
  match sends s with
  | [] => (Moved (length data), Stream (sent s ++ data) [] (incoming s) (arrivals s) (polls s))
  | Moved n :: rest =>
      (Moved (Nat.min n (length data)), Stream (sent s ++ take n data) rest (incoming s) (arrivals s) (polls s))
  | Refused e :: rest => (Refused e, Stream (sent s) rest (incoming s) (arrivals s) (polls s))
  end.

(** [recv] into [room] bytes: what arrived, nothing at the end. *)
Definition recv_once (room : nat) (s : stream) : (bytes + errno) * stream :=
  match arrivals s with
  | [] => (inl [], s)
  | Moved n :: rest =>
      let n := Nat.min n room in
      (inl (take n (incoming s)), Stream (sent s) (sends s) (drop n (incoming s)) rest (polls s))
  | Refused e :: rest => (inr e, Stream (sent s) (sends s) (incoming s) rest (polls s))
  end.

(** [poll(POLLIN)] > 0 *)
Definition poll_once (s : stream) : bool * stream :=
  match polls s with
  | [] => (true, s)
  | b :: rest => (b, Stream (sent s) (sends s) (incoming s) (arrivals s) rest)
  end.

(** [while (sent < len) { n = send(...); if (n <= 0) break; sent += n; }]: the
    answer it stopped at, [None] when everything is sent. *)
Fixpoint send_loop (fuel : nat) (data : bytes) (s : stream) : option reply * stream :=
  match fuel, data with
  | _, [] => (None, s)
  | O, _ => (Some (Moved 0), s)
  | S fuel, _ =>
      match send_once data s with
      | (Moved (S n), s) => send_loop fuel (drop (S n) data) s
      | (r, s) => (Some r, s)
      end
  end.

(** Every round sends at least a byte. *)
Definition send_all (data : bytes) (s : stream) : option reply * stream := send_loop (length data) data s.

(** [while (len < max) { if (poll(...) <= 0) break; n = recv(max - len); if (n <= 0) break; len += n; }],
    without the [poll] over TLS; every round takes an arrival. *)
Fixpoint recv_loop (fuel : nat) (polled : bool) (room : nat) (buf : bytes) (s : stream) : bytes * stream :=
  match fuel with
  | O => (buf, s)
  | S fuel =>
      if Nat.eqb room 0 then (buf, s) else
      let '(ready, s) := if polled then poll_once s else (true, s) in
      if negb ready then (buf, s) else
      match recv_once room s with
      | (inl (c :: chunk), s) => recv_loop fuel polled (room - length (c :: chunk)) (buf ++ c :: chunk) s
      | (_, s) => (buf, s)
      end
  end.

Definition recv_all (polled : bool) (room : nat) (s : stream) : bytes * stream :=
  recv_loop (S (length (arrivals s))) polled room [] s.

(** ** Banners and HTTP probes *)

Definition BANNER_MAX_LEN : nat := Z.to_nat KB_VALUE_MAX_LEN.

(** [cytadel_net_banner_grab] *)
Definition banner_grab (ip : option bytes) (port : Z) (a : attempt) (s : stream) (hd : handles) : option bytes * stream * handles :=
  match ip with
  | None => (None, s, hd)
  | Some ip =>
      if port =? 0 then (None, s, hd) else
      let '(ok, hd) := banner_connect ip a hd in
      if negb ok then (None, s, hd) else
      let '(data, s) := recv_all true BANNER_MAX_LEN s in
      (Some data, s, fd_closed hd)
  end.

Definition HTTP_RESPONSE_MAX_LEN : nat := 8192.

Definition CRLF : bytes := [13; 10].

(** [cytadel_http_build_request] with a buffer of [out_len] bytes. *)
Definition http_build_request (host : bytes) (out_len : Z) : option bytes :=
  let text := bs "GET / HTTP/1.0" ++ CRLF ++ bs "Host: " ++ host ++ CRLF ++ bs "Connection: close" ++ CRLF ++ CRLF in
  if out_len <=? Z.of_nat (length text) then None else Some text.

(** [cytadel_net_http_probe_plain]: the response to parse. *)
Definition http_probe_plain (ip : option bytes) (a : attempt) (s : stream) (hd : handles) : option bytes * stream * handles :=
  match ip with
  | None => (None, s, hd)
  | Some ip =>
      let '(ok, hd) := http_connect ip a hd in
      if negb ok then (None, s, hd) else
      match http_build_request ip 300 with
      | None => (None, s, fd_closed hd)
      | Some request =>
          let '(stopped, s) := send_all request s in
          if bool_decide (is_Some stopped) then (None, s, fd_closed hd) else
          let '(buf, s) := recv_all true HTTP_RESPONSE_MAX_LEN s in
          (Some buf, s, fd_closed hd)
      end
  end.

(** [cytadel_net_http_probe_tls], on a session of the caller. *)
Definition http_probe_tls (host : option bytes) (s : stream) : option bytes * stream :=
  match host with
  | None => (None, s)
  | Some host =>
      match http_build_request host 300 with
      | None => (None, s)
      | Some request =>
          let '(stopped, s) := send_all request s in
          if bool_decide (is_Some stopped) then (None, s) else
          let '(buf, s) := recv_all false HTTP_RESPONSE_MAX_LEN s in
          (Some buf, s)
      end
  end.

(** ** TLS sessions *)

(** [tv_sec] and [tv_usec] of a timeout. *)
Definition timeval_of (timeout_ms : Z) : Z * Z := (Z.quot timeout_ms 1000, Z.rem timeout_ms 1000 * 1000).

(** What OpenSSL answers: [SSL_CTX_new], [SSL_new], [SSL_set_fd],
    [SSL_connect]. *)
Record handshake := Handshake { h_ctx : bool; h_ssl : bool; h_set_fd : Z; h_connect : Z }.

(** [cytadel_net_tls_connect_impl]: whether there is a session, the timeouts of
    its socket, and the host name it sends. *)
Record tls_session := TlsSession { tls_timeval : Z * Z; tls_sni : option bytes }.

Definition tls_connect_impl (ip sni : option bytes) (port timeout_ms : Z) (a : attempt) (t : handshake) (hd : handles) :
    option tls_session * handles :=
  match ip with
  | None => (None, hd)
  | Some ip =>
      if port =? 0 then (None, hd) else
      let timeout_ms := if timeout_ms <? 1 then 1 else timeout_ms in
      let '(ok, hd) := tls_raw_connect ip a hd in
      if negb ok then (None, hd) else
      if negb (h_ctx t) then (None, fd_closed hd) else
      let hd := add_ctxs 1 hd in
      if negb (h_ssl t) then (None, fd_closed (add_ctxs (-1) hd)) else
      let hd := add_ssls 1 hd in
      if negb (h_set_fd t =? 1) then (None, fd_closed (add_ctxs (-1) (add_ssls (-1) hd))) else
      if negb (h_connect t =? 1) then (None, fd_closed (add_ctxs (-1) (add_ssls (-1) hd))) else
      (Some (TlsSession (timeval_of timeout_ms) sni), hd)
  end.

Definition net_tls_connect (ip : option bytes) : Z -> Z -> attempt -> handshake -> handles -> option tls_session * handles :=
  tls_connect_impl ip ip.

Definition net_tls_connect_sni : option bytes -> option bytes -> Z -> Z -> attempt -> handshake -> handles -> option tls_session * handles :=
  tls_connect_impl.

(** [cytadel_net_tls_session_close] *)
Definition tls_session_close (session : option tls_session) (hd : handles) : handles :=
  match session with
  | None => hd
  | Some _ => fd_closed (add_ctxs (-1) (add_ssls (-1) hd))
  end.

(** ** Lemmas: streams *)

(** What a call may change of a stream besides what it moves. *)
Definition same_input (s s' : stream) : Prop := incoming s' = incoming s /\ arrivals s' = arrivals s /\ polls s' = polls s.

Definition same_output (s s' : stream) : Prop := sent s' = sent s /\ sends s' = sends s.

Lemma send_once_spec data s :
  let '(r, s') := send_once data s in
  same_input s s' /\
  match r with
  | Moved n => sent s' = sent s ++ take n data /\ (n <= length data)%nat
  | Refused _ => sent s' = sent s
  end.
Proof.
  unfold send_once. destruct (sends s) as [|[n|e] rest]; (split; [done|]); cbn [sent]; [| |done].
  - rewrite take_ge by lia. split; [done|lia].
  - split; [|lia]. f_equal. destruct (Nat.min_spec n (length data)) as [[_ ->]|[? ->]]; [done|]. by rewrite !take_ge by lia.
Qed.

(** The peer accepts everything at once. *)
Lemma send_once_all data s : sends s = [] -> send_once data s = (Moved (length data), Stream (sent s ++ data) [] (incoming s) (arrivals s) (polls s)).
Proof. unfold send_once. by intros ->. Qed.

(** What is sent is a prefix of the data, the whole of it when the loop
    succeeds; the loop ends for lack of fuel never. *)
Lemma send_loop_spec fuel data s :
  (length data <= fuel)%nat ->
  let '(stopped, s') := send_loop fuel data s in
  same_input s s' /\ exists k, sent s' = sent s ++ take k data /\ (stopped = None -> k = length data) /\
  (forall r, stopped = Some r -> (r = Moved 0 \/ exists e, r = Refused e) /\ sends s <> []).
Proof.
  induction fuel as [|fuel IH] in data, s |- *; intros Hf.
  { destruct data; [|cbn in Hf; lia]. cbn. split; [done|]. exists 0%nat. rewrite app_nil_r. done. }
  destruct data as [|c data]; [cbn; split; [done|]; exists 0%nat; by rewrite app_nil_r|]. cbn [send_loop].
  pose proof (send_once_spec (c :: data) s) as H. pose proof (send_once_all (c :: data) s) as Hall.
  destruct (send_once (c :: data) s) as [[[|n]|e] s1]; destruct H as [Hin H].
  - destruct H as [Hs _]. split; [done|]. exists 0%nat. split; [done|]. split; [done|]. intros r [= <-]. split; [by left|]. intros Hn. by specialize (Hall Hn).
  - destruct H as [Hs Hn]. cbn [length] in Hf, Hn.
    specialize (IH (drop (S n) (c :: data)) s1 ltac:(rewrite length_drop; cbn [length]; lia)).
    destruct (send_loop fuel (drop (S n) (c :: data)) s1) as [stopped s2]. destruct IH as ((I1 & I2 & I3) & k & Hk & Hok & Hno).
    split; [unfold same_input in *; destruct Hin as (? & ? & ?); split_and!; congruence|]. exists (S n + k)%nat. split_and!.
    + rewrite Hk, Hs, <- app_assoc. f_equal. by rewrite take_take_drop.
    + intros E. rewrite (Hok E), length_drop. cbn [length]. lia.
    + intros r E. destruct (Hno r E) as [Hr Hs1]. split; [done|]. intros Hnil. specialize (Hall Hnil). injection Hall as _ Es1. apply Hs1. by rewrite Es1.
  - split; [done|]. exists 0%nat. rewrite app_nil_r. split; [done|]. split; [done|]. intros r [= <-]. split; [right; by eexists|].
    intros Hn. by specialize (Hall Hn).
Qed.

Lemma send_all_spec data s :
  let '(stopped, s') := send_all data s in
  same_input s s' /\ exists k, sent s' = sent s ++ take k data /\ (stopped = None -> k = length data) /\
  (forall r, stopped = Some r -> (r = Moved 0 \/ exists e, r = Refused e) /\ sends s <> []).
Proof. by apply send_loop_spec. Qed.

Lemma recv_once_spec room s :
  let '(r, s') := recv_once room s in
  same_output s s' /\ polls s' = polls s /\
  match r with
  | inl chunk => exists k, (k <= room)%nat /\ chunk = take k (incoming s) /\ incoming s' = drop k (incoming s)
  | inr _ => incoming s' = incoming s
  end /\ (arrivals s <> [] -> (length (arrivals s') < length (arrivals s))%nat) /\ (arrivals s = [] -> r = inl []).
Proof.
  unfold recv_once. destruct (arrivals s) as [|[n|e] rest] eqn:E.
  - split_and!; try done. exists 0%nat. split; [lia|done].
  - split_and!; try done; [|cbn; lia]. eexists. split; [|done]. lia.
  - split_and!; try done. cbn. lia.
Qed.

Lemma poll_once_spec s : let '(b, s') := poll_once s in same_output s s' /\ incoming s' = incoming s /\ arrivals s' = arrivals s.
Proof. unfold poll_once. by destruct (polls s). Qed.

(** What is received is a prefix of what the peer sends that fits. *)
Lemma recv_loop_spec fuel polled room buf s :
  let '(buf', s') := recv_loop fuel polled room buf s in
  same_output s s' /\ exists k, (k <= room)%nat /\ buf' = buf ++ take k (incoming s) /\ incoming s' = drop k (incoming s).
Proof.
  induction fuel as [|fuel IH] in room, buf, s |- *; cbn [recv_loop]; [split; [done|]; exists 0%nat; rewrite app_nil_r; split; [lia|done]|].
  assert (Hstop : exists k, (k <= room)%nat /\ buf = buf ++ take k (incoming s) /\ incoming s = drop k (incoming s))
    by (exists 0%nat; rewrite app_nil_r; split; [lia|done]).
  destruct (Nat.eqb room 0); [done|].
  assert (Hp : exists b s1, (if polled then poll_once s else (true, s)) = (b, s1) /\ same_output s s1 /\ incoming s1 = incoming s /\ arrivals s1 = arrivals s).
  { destruct polled; [|by eexists _, _]. pose proof (poll_once_spec s) as H. destruct (poll_once s). by eexists _, _. }
  destruct Hp as (b & s1 & -> & Ho & Hi & _). destruct b; cbn [negb]; [|split; [done|]; rewrite Hi; exact Hstop].
  pose proof (recv_once_spec room s1) as H. destruct (recv_once room s1) as [[[|c chunk]|e] s2]; destruct H as ([Ho1 Ho2] & _ & H & _).
  - split; [unfold same_output in *; destruct Ho; split; congruence|]. destruct H as (k & Hk & Hc & Hd). exists k.
    rewrite <- Hi, <- Hc, app_nil_r. done.
  - destruct H as (k & Hk & Hc & Hd). specialize (IH (room - length (c :: chunk))%nat (buf ++ c :: chunk) s2).
    destruct (recv_loop fuel polled _ _ s2) as [buf' s3]. destruct IH as ([I1 I2] & k' & Hk' & Hb & Hd').
    split; [unfold same_output in *; destruct Ho; split; congruence|].
    assert (Hl : length (c :: chunk) = Nat.min k (length (incoming s1))) by (rewrite Hc; apply length_take).
    rewrite Hi in *. destruct (Nat.min_spec k (length (incoming s))) as [[Hlt Hm]|[Hge Hm]]; rewrite Hm in Hl.
    + exists (k + k')%nat. split; [lia|]. rewrite Hb, Hd', Hd, Hc, <- app_assoc, take_take_drop, drop_drop. done.
    + exists k. split; [lia|]. rewrite Hb, Hd', Hd, Hc. rewrite (drop_ge (incoming s) k) by lia. rewrite take_nil, drop_nil, app_nil_r. done.
  - split; [unfold same_output in *; destruct Ho; split; congruence|]. rewrite H, Hi. exact Hstop.
Qed.

(** The fuel is enough: with more the loop gives the same. *)
Lemma recv_loop_fuel fuel polled room buf s :
  (length (arrivals s) < fuel)%nat -> recv_loop fuel polled room buf s = recv_loop (S (length (arrivals s))) polled room buf s.
Proof.
  remember (length (arrivals s)) as n eqn:En. revert fuel room buf s En. induction n as [n IH] using lt_wf_ind. intros fuel room buf s En Hf.
  destruct fuel as [|fuel]; [lia|]. cbn [recv_loop]. destruct (Nat.eqb room 0); [done|].
  assert (Hp : exists b s1, (if polled then poll_once s else (true, s)) = (b, s1) /\ arrivals s1 = arrivals s).
  { destruct polled; [|by eexists _, _]. pose proof (poll_once_spec s) as H. destruct (poll_once s). destruct H as (_ & _ & ?). by eexists _, _. }
  destruct Hp as (b & s1 & -> & Ha). destruct b; cbn [negb]; [|done].
  pose proof (recv_once_spec room s1) as H. destruct (recv_once room s1) as [[[|c chunk]|e] s2]; try done.
  destruct H as (_ & _ & _ & Hdec & Hend).
  assert (Hlt : (length (arrivals s2) < n)%nat).
  { rewrite En, <- Ha. apply Hdec. intros Hn. by specialize (Hend Hn). }
  rewrite (IH _ Hlt fuel _ _ s2 eq_refl ltac:(lia)), (IH _ Hlt n _ _ s2 eq_refl ltac:(lia)). done.
Qed.

Lemma recv_all_spec polled room s :
  let '(buf, s') := recv_all polled room s in
  same_output s s' /\ exists k, (k <= room)%nat /\ buf = take k (incoming s) /\ incoming s' = drop k (incoming s).
Proof. apply (recv_loop_spec _ polled room []). Qed.

(** Handles that were opened and closed again. *)
Ltac balance :=
  repeat match goal with hd : handles |- _ => destruct hd end;
  unfold fd_closed, fd_opened, add_fds, add_ctxs, add_ssls; cbn; try done; f_equal; lia.

Lemma close_open hd : fd_closed (fd_opened hd) = hd.
Proof. balance. Qed.

(** A connection that fails leaves no descriptor, one that succeeds one, and
    the address was an IPv4 literal. *)
Lemma connect_stream_spec ip a hd :
  let '(ok, hd') := connect_stream ip a hd in
  if ok then hd' = fd_opened hd /\ is_Some (inet_pton ip) else hd' = hd.
Proof.
  pose proof (close_open hd) as Hc.
  unfold connect_stream. case_bool_decide; [done|]. cbv zeta.
  destruct (a_nonblocking a); cbn [negb]; [|done]. case_bool_decide; cbn [negb]; [|done].
  destruct (a_connect a) as [e|]; [|done]. destruct (e =? EINPROGRESS); cbn [negb]; [|done].
  destruct (a_poll a <=? 0); [done|]. by destruct (a_so_error a) as [[]|].
Qed.

(** ** Lemmas: probes *)

(** The request of both probes: the same for every port. *)
Definition probe_request (host : bytes) : bytes :=
  bs "GET / HTTP/1.0" ++ CRLF ++ bs "Host: " ++ host ++ CRLF ++ bs "Connection: close" ++ CRLF ++ CRLF.

(** Descriptors and OpenSSL objects in use. *)
Definition tls_open (hd : handles) : handles := Handles (n_fds hd + 1) (n_ctxs hd + 1) (n_ssls hd + 1).

Lemma http_build_request_spec host out_len :
  http_build_request host out_len = if out_len <=? Z.of_nat (length (probe_request host)) then None else Some (probe_request host).
Proof. done. Qed.

(** One exchange: the request goes out, a bounded prefix comes back. *)
Lemma exchange_spec (polled : bool) request room s :
  let '(stopped, s1) := send_all request s in
  exists k, sent s1 = sent s ++ take k request /\ incoming s1 = incoming s /\ (stopped = None -> k = length request) /\
  let '(buf, s2) := recv_all polled room s1 in
  sent s2 = sent s1 /\ exists k, (k <= room)%nat /\ buf = take k (incoming s).
Proof.
  pose proof (send_all_spec request s) as H. destruct (send_all request s) as [stopped s1]. destruct H as ((Hi & _ & _) & k & Hk & Hok & _).
  exists k. split; [done|]. split; [done|]. split; [done|].
  pose proof (recv_all_spec polled room s1) as H. destruct (recv_all polled room s1) as [buf s2]. destruct H as ((Ho & _) & k' & Hk' & Hb & _).
  split; [done|]. exists k'. split; [done|]. by rewrite <- Hi.
Qed.

Lemma tls_connect_impl_spec ip sni port timeout_ms a t hd :
  let '(session, hd') := tls_connect_impl ip sni port timeout_ms a t hd in
  match session with
  | None => hd' = hd
  | Some se => hd' = tls_open hd /\ tls_session_close session hd' = hd /\ tls_timeval se = timeval_of (Z.max 1 timeout_ms) /\
      tls_sni se = sni /\ port <> 0 /\ exists text, ip = Some text /\ is_Some (inet_pton text)
  end.
Proof.
  unfold tls_connect_impl, tls_raw_connect. destruct ip as [ip|]; [|done]. destruct (Z.eqb_spec port 0); [done|].
  pose proof (connect_stream_spec ip a hd) as H. destruct (connect_stream ip a hd) as [[] hd1]; cbn [negb]; [|done]. destruct H as [-> Hip].
  destruct (h_ctx t); cbn [negb]; [|apply close_open]. destruct (h_ssl t); cbn [negb]; [|balance].
  destruct (h_set_fd t =? 1); cbn [negb]; [|balance]. destruct (h_connect t =? 1); cbn [negb]; [|balance].
  split; [unfold tls_open; balance|]. split; [unfold tls_session_close; balance|]. cbn [tls_timeval tls_sni]. split_and!; [|done..|eauto].
  f_equal. destruct (Z.ltb_spec timeout_ms 1); lia.
Qed.

(** No timeout is the pair of zeros that a socket takes for none. *)
Lemma timeval_nonzero timeout_ms : timeval_of (Z.max 1 timeout_ms) <> (0, 0) /\
  0 <= fst (timeval_of (Z.max 1 timeout_ms)) /\ 0 <= snd (timeval_of (Z.max 1 timeout_ms)) < 1000000.
Proof.
  unfold timeval_of. cbn [fst snd]. pose proof (Z.quot_rem' (Z.max 1 timeout_ms) 1000).
  pose proof (Z.rem_bound_pos (Z.max 1 timeout_ms) 1000 ltac:(lia) ltac:(lia)). pose proof (Z.quot_pos (Z.max 1 timeout_ms) 1000 ltac:(lia) ltac:(lia)).
  split_and!; [|lia..]. intros [= E1 E2]. lia.
Qed.

(** ** Theorems *)

(** C35: Detecting a service is no more than listening and one fixed GET.  A
    banner grab sends nothing; an HTTP probe sends a prefix of the one request
    for its host, and the whole of it when it has a response; what they answer
    is a prefix of what the peer sends, within the buffer.  Nothing is sent
    unless the address is an IPv4 literal, and every path closes the descriptor
    it opened; a TLS connection that fails leaves no descriptor and no object
    of OpenSSL, and one that succeeds leaves what closing the session returns,
    on a socket whose timeouts are not the pair of zeros that means none. *)
Theorem detection_confined (ip sni host : option bytes) (port timeout_ms : Z) (a : attempt) (t : handshake) (s : stream) (hd : handles) :
  (let '(data, s', hd') := banner_grab ip port a s hd in
   hd' = hd /\ sent s' = sent s /\ forall b, data = Some b -> (length b <= 4096)%nat /\ exists k, b = take k (incoming s)) /\
  (let '(response, s', hd') := http_probe_plain ip a s hd in
   hd' = hd /\ (exists k, sent s' = sent s ++ take k (probe_request (default [] ip)) /\ (is_Some response -> (length (probe_request (default [] ip)) <= k)%nat)) /\
   (sent s' <> sent s -> is_Some (inet_pton (default [] ip))) /\
   forall b, response = Some b -> (length b <= 8192)%nat /\ exists k, b = take k (incoming s)) /\
  (let '(response, s') := http_probe_tls host s in
   (exists k, sent s' = sent s ++ take k (probe_request (default [] host)) /\ (is_Some response -> (length (probe_request (default [] host)) <= k)%nat)) /\
   forall b, response = Some b -> (length b <= 8192)%nat /\ exists k, b = take k (incoming s)) /\
  (let '(session, hd') := net_tls_connect_sni ip sni port timeout_ms a t hd in
   tls_session_close session hd' = hd /\
   forall se, session = Some se -> tls_sni se = sni /\ tls_timeval se <> (0, 0) /\ is_Some (inet_pton (default [] ip))).
Proof.
  split_and!.
  - unfold banner_grab, banner_connect. destruct ip as [ip|]; [|done]. destruct (port =? 0); [done|].
    pose proof (connect_stream_spec ip a hd) as H. destruct (connect_stream ip a hd) as [[] hd1]; cbn [negb]; [|done]. destruct H as [-> _].
    pose proof (recv_all_spec true BANNER_MAX_LEN s) as H. destruct (recv_all true BANNER_MAX_LEN s) as [data s']. destruct H as ((Ho & _) & k & Hk & -> & _).
    split; [apply close_open|]. split; [done|]. intros b [= <-]. split; [|eauto]. rewrite length_take. change BANNER_MAX_LEN with 4096%nat in Hk. lia.
  - assert (Hnone : forall r : bytes, exists k, sent s = sent s ++ take k r /\ (is_Some (@None bytes) -> (length r <= k)%nat))
      by (intros r; exists 0%nat; rewrite app_nil_r; split; [done|by intros []]).
    unfold http_probe_plain, http_connect. destruct ip as [ip|]; [|done]. cbn [default id from_option].
    pose proof (connect_stream_spec ip a hd) as H. destruct (connect_stream ip a hd) as [[] hd1]; cbn [negb]; [|by rewrite H]. destruct H as [-> Hip].
    rewrite http_build_request_spec. destruct (_ <=? _); [rewrite close_open; done|].
    pose proof (exchange_spec true (probe_request ip) HTTP_RESPONSE_MAX_LEN s) as H. destruct (send_all (probe_request ip) s) as [stopped s1].
    destruct H as (k & Hk & Hi & Hok & H). case_bool_decide as Hst; [rewrite close_open; split; [done|]; split; [exists k; split; [done|by intros []]|done]|apply eq_None_not_Some in Hst].
    destruct (recv_all true HTTP_RESPONSE_MAX_LEN s1) as [buf s2]. destruct H as (-> & k' & Hk' & ->). rewrite close_open.
    split; [done|]. split; [exists k; rewrite (Hok Hst); split; [by rewrite <- (Hok Hst)|lia]|]. split; [done|].
    intros b [= <-]. split; [|eauto]. rewrite length_take. change HTTP_RESPONSE_MAX_LEN with 8192%nat in Hk'. lia.
  - unfold http_probe_tls. destruct host as [host|]; [|split; [exists 0%nat; rewrite app_nil_r; split; [done|by intros []]|done]]. cbn [default id from_option].
    rewrite http_build_request_spec. destruct (_ <=? _); [split; [exists 0%nat; rewrite app_nil_r; split; [done|by intros []]|done]|].
    pose proof (exchange_spec false (probe_request host) HTTP_RESPONSE_MAX_LEN s) as H. destruct (send_all (probe_request host) s) as [stopped s1].
    destruct H as (k & Hk & Hi & Hok & H). case_bool_decide as Hst; [split; [exists k; split; [done|by intros []]|done]|apply eq_None_not_Some in Hst].
    destruct (recv_all false HTTP_RESPONSE_MAX_LEN s1) as [buf s2]. destruct H as (-> & k' & Hk' & ->).
      split; [exists k; split; [done|]; rewrite Hok by done; lia|]. intros b [= <-]. split; [|eauto].
      rewrite length_take. change HTTP_RESPONSE_MAX_LEN with 8192%nat in Hk'. lia.
  - pose proof (tls_connect_impl_spec ip sni port timeout_ms a t hd) as H. unfold net_tls_connect_sni.
    destruct (tls_connect_impl ip sni port timeout_ms a t hd) as [[se|] hd']; [|split; [exact H|done]].
    destruct H as (_ & Hc & Ht & Hs & _ & text & -> & Hip). split; [done|]. intros ? [= <-]. rewrite Ht. split_and!; [done|apply timeval_nonzero|done].
Qed.

(** A probe of a web server. *)
Example probe_example :
  let s := Stream [] [Moved 10; Moved 40] (bs "HTTP/1.0 200 OK") [Moved 5; Moved 100] [] in
  let '(r, s', hd) := http_probe_plain (Some (bs "10.0.0.1")) (Attempt None true (Some EINPROGRESS) 1 (Some None)) s (Handles 3 0 0) in
  r = Some (bs "HTTP/1.0 200 OK") /\ sent s' = probe_request (bs "10.0.0.1") /\ hd = Handles 3 0 0.
Proof. vm_compute. done. Qed.
