(* ===== verification/Kb.v ===== *)
(** * The knowledge base ([src/src/kb/kb.c])

    A chained hash table from validated keys to typed values, growing by
    doubling.  A chain is the list of its entries; an entry pointer returned
    by [kb_find] or [kb_insert_new] is represented by its key, which no other
    entry has (invariant [kb_ok]).  The heap is threaded through every
    operation, so each allocation may fail.  The abstract state is a finite
    map. *)

From S2P Require Import Prelude KbValidate.

(** [cytadel_kb_type_t] with the union it selects; the pointer of a string
    may be NULL while an entry is being built. *)
Inductive kb_value :=
  | KB_STRING (str : option bytes)
  | KB_INT (i64 : Z)
  | KB_BOOL (b : bool).

(** [cytadel_kb_entry_t] (the [next] pointer is the list structure). *)
Record kb_entry := KbEntry { e_key : bytes; e_value : kb_value }.

(** [struct cytadel_kb] *)
Record kb := Kb {
  buckets : list (list kb_entry);
  bucket_count : Z;
  entry_count : Z
}.

Definition KB_INITIAL_BUCKETS : Z := 64.

(** FNV-1a, 64-bit, with the wrap-around of [uint64_t]. *)
Definition kb_hash (s : bytes) : Z :=
  fold_left (fun h c => Z.lxor h c * 1099511628211 mod 2 ^ 64) s 1469598103934665603.

Definition bucket_index (key : bytes) (count : Z) : nat := Z.to_nat (kb_hash key mod count).

Definition chain_find (key : bytes) (chain : list kb_entry) : option kb_entry :=
  find (fun e => bool_decide (e_key e = key)) chain.

(** [cytadel_kb_find] *)
Definition kb_find (k : kb) (key : bytes) : option kb_entry :=
  chain_find key (default [] (buckets k !! bucket_index key (bucket_count k))).

(** Pushing an entry in front of its chain. *)
Definition push_entry (count : Z) (bs : list (list kb_entry)) (e : kb_entry) : list (list kb_entry) :=
  alter (cons e) (bucket_index (e_key e) count) bs.

(** The [bucket_count * 2] of [size_t]. *)
Definition double_count (n : Z) : Z := n * 2 mod 2 ^ 64.

(** [cytadel_kb_grow_if_needed] *)
Definition kb_grow_if_needed (k : kb) (h : heap) : bool * kb * heap :=
  if (entry_count k + 1) * 4 <=? bucket_count k * 3 then (true, k, h)
  else
    let new_count := double_count (bucket_count k) in
    if new_count <=? bucket_count k then (false, k, h)
    else
      let '(ok, h) := malloc h in
      if negb ok then (false, k, h)
      else
        let new_buckets :=
          foldl (push_entry new_count) (replicate (Z.to_nat new_count) []) (concat (buckets k)) in
        (true, Kb new_buckets new_count (entry_count k), free_block h).

(** [cytadel_kb_insert_new]: the flag tells whether an entry was linked in;
    its value is the zeroed one ([calloc]). *)
Definition kb_insert_new (k : kb) (key : bytes) (h : heap) : bool * kb * heap :=
  let '(ok, h) := malloc h in
  if negb ok then (false, k, h)
  else
    let '(ok, h) := malloc h in
    if negb ok then (false, k, free_block h)
    else
      let '(_, k, h) := kb_grow_if_needed k h in
      (true,
       Kb (push_entry (bucket_count k) (buckets k) (KbEntry key (KB_STRING None)))
          (bucket_count k) (entry_count k + 1), h).

(** Writing [type] and [v] through the entry pointer of [key]. *)
Definition store_value (k : kb) (key : bytes) (v : kb_value) : kb :=
  Kb (alter (map (fun e => if bool_decide (e_key e = key) then KbEntry key v else e))
        (bucket_index key (bucket_count k)) (buckets k))
     (bucket_count k) (entry_count k).

(** Whether the entry owns a string block. *)
Definition owns_string (v : kb_value) : bool :=
  match v with KB_STRING (Some _) => true | _ => false end.

(** [cytadel_kb_create]: [None] is NULL. *)
Definition kb_create (h : heap) : option kb * heap :=
  let '(ok, h) := malloc h in
  if negb ok then (None, h)
  else
    let '(ok, h) := malloc h in
    if negb ok then (None, free_block h)
    else (Some (Kb (replicate (Z.to_nat KB_INITIAL_BUCKETS) []) KB_INITIAL_BUCKETS 0), h).

(** The body of the loop of [cytadel_kb_free] for one entry. *)
Definition free_entry (h : heap) (e : kb_entry) : heap :=
  let h := free_if (owns_string (e_value e)) h in
  free_block (free_block h).

(** [cytadel_kb_free] *)
Definition kb_free (k : option kb) (h : heap) : heap :=
  match k with
  | None => h
  | Some k => free_block (free_block (foldl free_entry h (concat (buckets k))))
  end.

(** The find, insert or release the old string, and store, which the three
    setters share. *)
Definition kb_put (k : kb) (key : bytes) (v : kb_value) (h : heap) : bool * kb * heap :=
  match kb_find k key with
  | Some e => (true, store_value k key v, free_if (owns_string (e_value e)) h)
  | None =>
      let '(ok, k, h) := kb_insert_new k key h in
      if negb ok then (false, k, h) else (true, store_value k key v, h)
  end.

(** [cytadel_kb_set_str_n]; the result is 0 or -1. *)
Definition kb_set_str_n (k : option kb) (key : option bytes) (value : span) (h : heap)
    : Z * option kb * heap :=
  match k, key with
  | Some kk, Some ky =>
      if negb (kb_validate_key key) then (-1, k, h) else
      match value with
      | NullSpan _ => (-1, k, h)
      | Span v =>
          if KB_VALUE_MAX_LEN <? Z.of_nat (length v) then (-1, k, h) else
          if negb (kb_validate_no_embedded_nul value) then (-1, k, h) else
          if negb (kb_validate_utf8 value) then (-1, k, h) else
          let '(ok, h) := malloc h in
          if negb ok then (-1, k, h) else
          let '(ok, kk, h) := kb_put kk ky (KB_STRING (Some v)) h in
          if negb ok then (-1, Some kk, free_block h) else (0, Some kk, h)
      end
  | _, _ => (-1, k, h)
  end.

(** [cytadel_kb_set_str] *)
Definition kb_set_str (k : option kb) (key : option bytes) (value : option bytes) (h : heap)
    : Z * option kb * heap :=
  match value with
  | None => (-1, k, h)
  | Some v => kb_set_str_n k key (Span v) h
  end.

(** [cytadel_kb_set_int] and [cytadel_kb_set_bool]: the same code with
    another value. *)
Definition kb_set_scalar (k : option kb) (key : option bytes) (v : kb_value) (h : heap)
    : Z * option kb * heap :=
  match k, key with
  | Some kk, Some ky =>
      if negb (kb_validate_key key) then (-1, k, h) else
      let '(ok, kk, h) := kb_put kk ky v h in
      if negb ok then (-1, Some kk, h) else (0, Some kk, h)
  | _, _ => (-1, k, h)
  end.

Definition kb_set_int (k : option kb) (key : option bytes) (i : Z) (h : heap) : Z * option kb * heap :=
  kb_set_scalar k key (KB_INT i) h.

Definition kb_set_bool (k : option kb) (key : option bytes) (b : bool) (h : heap) : Z * option kb * heap :=
  kb_set_scalar k key (KB_BOOL b) h.

(** [cytadel_kb_get_status_t] with the value found. *)
Inductive kb_get_result := KB_GET_FOUND (v : kb_value) | KB_GET_NOT_FOUND | KB_GET_INVALID_KEY.

(** [cytadel_kb_get] *)
Definition kb_get (k : option kb) (key : option bytes) : kb_get_result :=
  match k, key with
  | Some kk, Some ky =>
      if negb (kb_validate_key key) then KB_GET_INVALID_KEY
      else match kb_find kk ky with
           | None => KB_GET_NOT_FOUND
           | Some e => KB_GET_FOUND (e_value e)
           end
  | _, _ => KB_GET_INVALID_KEY
  end.

(** [cytadel_kb_get_str] *)
Definition kb_get_str (k : option kb) (key : option bytes) : option bytes :=
  match kb_get k key with KB_GET_FOUND (KB_STRING s) => s | _ => None end.

(** [cytadel_kb_foreach]: the calls of the callback, in order. *)
Definition kb_foreach (k : option kb) : list (bytes * kb_value) :=
  match k with
  | None => []
  | Some k => map (fun e => (e_key e, e_value e)) (concat (buckets k))
  end.

(** [cytadel_kb_count] *)
Definition kb_count (k : option kb) : Z :=
  match k with Some k => entry_count k | None => 0 end.

(** ** The abstract state and the invariant *)

Definition entries (k : kb) : list kb_entry := concat (buckets k).

Definition pairs (l : list kb_entry) : list (bytes * kb_value) := map (fun e => (e_key e, e_value e)) l.

(** What the table promises: a finite map. *)
Definition kb_map (k : kb) : gmap bytes kb_value := list_to_map (pairs (entries k)).

Definition stored_value_ok (v : kb_value) : Prop :=
  match v with
  | KB_STRING None => False
  | KB_STRING (Some s) =>
      Z.of_nat (length s) <= KB_VALUE_MAX_LEN /\ kb_validate_no_embedded_nul (Span s) = true /\
      kb_validate_utf8 (Span s) = true
  | _ => True
  end.

Definition entry_ok (e : kb_entry) : Prop :=
  kb_validate_key (Some (e_key e)) = true /\ stored_value_ok (e_value e).

(** Every entry is in the chain its hash selects. *)
Definition placed (count : Z) (bs : list (list kb_entry)) : Prop :=
  forall i chain e, bs !! i = Some chain -> e ∈ chain -> bucket_index (e_key e) count = i.

Record table_ok (k : kb) : Prop := {
  ok_count : 0 < bucket_count k;
  ok_length : length (buckets k) = Z.to_nat (bucket_count k);
  ok_entries : entry_count k = Z.of_nat (length (entries k));
  ok_placed : placed (bucket_count k) (buckets k);
  ok_nodup : NoDup (map e_key (entries k))
}.

Record kb_ok (k : kb) : Prop := {
  ok_table : table_ok k;
  ok_values : Forall entry_ok (entries k)
}.

(** Blocks the table owns: the struct, the bucket array, two per entry and
    one per string value. *)
Definition owned_by_entries (l : list kb_entry) : Z :=
  foldr (fun e n => (if owns_string (e_value e) then 1 else 0) + 2 + n) 0 l.

Definition kb_blocks (k : kb) : Z := 2 + owned_by_entries (entries k).

(** A table without entries, for the examples. *)
Definition empty_kb : kb := Kb (replicate 64 []) 64 0.

(** ** Lemmas: chains *)

Lemma bucket_index_lt key count : 0 < count -> (bucket_index key count < Z.to_nat count)%nat.
Proof.
  intros H. unfold bucket_index. pose proof (Z.mod_pos_bound (kb_hash key) count H). lia.
Qed.

Lemma elem_of_concat {A} (x : A) ll : x ∈ concat ll <-> exists i l, ll !! i = Some l /\ x ∈ l.
Proof.
  induction ll as [|l ll IH]; simpl.
  - split; [intros ?%elem_of_nil; done|]. intros (i & l & E & _). by rewrite lookup_nil in E.
  - rewrite elem_of_app, IH. split.
    + intros [Hx|(i & l' & E & Hx)]; [by exists 0%nat, l|]. by exists (S i), l'.
    + intros ([|i] & l' & E & Hx); simpl in E; [injection E as ->; by left|].
      right. eauto.
Qed.

Lemma concat_alter_cons {A} (x : A) i ll :
  (i < length ll)%nat -> concat (alter (cons x) i ll) ≡ₚ x :: concat ll.
Proof.
  revert i; induction ll as [|l ll IH]; intros [|i] Hi; simpl in Hi; try lia; [done|].
  change (alter (cons x) (S i) (l :: ll)) with (l :: alter (cons x) i ll). simpl concat.
  rewrite IH by lia. by rewrite Permutation_middle.
Qed.

Lemma NoDup_fmap_inj {A B} (f : A -> B) (l : list A) x y :
  NoDup (map f l) -> x ∈ l -> y ∈ l -> f x = f y -> x = y.
Proof.
  induction l as [|z l IH]; intros Hn Hx Hy Hf; [by apply elem_of_nil in Hx|].
  simpl in Hn. apply NoDup_cons in Hn as [Hz Hn].
  assert (forall w, w ∈ l -> f w ∈ map f l) as Hin by (intros; apply list_elem_of_fmap; eauto).
  apply elem_of_cons in Hx as [->|Hx]; apply elem_of_cons in Hy as [->|Hy]; try done.
  - exfalso. apply Hz. rewrite Hf. by apply Hin.
  - exfalso. apply Hz. rewrite <- Hf. by apply Hin.
  - by apply IH.
Qed.

Lemma chain_find_some key chain e : chain_find key chain = Some e -> e ∈ chain /\ e_key e = key.
Proof.
  intros [Hin Hk]%find_some. split; [by apply list_elem_of_In|]. by apply bool_decide_eq_true in Hk.
Qed.

Lemma chain_find_none key chain e : chain_find key chain = None -> e ∈ chain -> e_key e <> key.
Proof.
  intros Hf He E. apply list_elem_of_In in He. pose proof (find_none _ _ Hf _ He) as H.
  by apply bool_decide_eq_false in H.
Qed.

Lemma kb_find_elem k key e :
  table_ok k -> kb_find k key = Some e <-> e ∈ entries k /\ e_key e = key.
Proof.
  intros [Hc Hl _ Hp Hn]. unfold kb_find.
  destruct (lookup_lt_is_Some_2 (buckets k) (bucket_index key (bucket_count k))) as [chain Hch].
  { rewrite Hl. by apply bucket_index_lt. }
  rewrite Hch. simpl. unfold entries in *. split.
  - intros [Hin Hk]%chain_find_some. split; [|done]. apply elem_of_concat. eauto.
  - intros [Hin <-]. pose proof Hin as Hall. apply elem_of_concat in Hin as (i & chain' & Hi & Hin).
    rewrite (Hp i chain' e Hi Hin), Hi in Hch. injection Hch as ->.
    destruct (chain_find (e_key e) chain) as [e'|] eqn:Ef.
    + f_equal. apply chain_find_some in Ef as [Hin' Hk'].
      eapply (NoDup_fmap_inj e_key); [done| |done|done]. apply elem_of_concat. eauto.
    + by destruct (chain_find_none _ _ _ Ef Hin).
Qed.

Lemma pairs_nodup l : NoDup (map e_key l) -> NoDup (pairs l).*1.
Proof.
  intros H. unfold pairs. replace (fst <$> map _ l) with (map e_key l); [done|].
  induction l as [|e l IH]; [done|]. simpl. f_equal. apply IH. simpl in H. by apply NoDup_cons in H as [_ ?].
Qed.

Lemma kb_map_lookup k key v :
  table_ok k -> kb_map k !! key = Some v <-> exists e, e ∈ entries k /\ e_key e = key /\ e_value e = v.
Proof.
  intros Hok. unfold kb_map. rewrite <- elem_of_list_to_map by (apply pairs_nodup, Hok).
  unfold pairs. rewrite list_elem_of_fmap. split.
  - intros (e & [= -> ->] & He). eauto.
  - intros (e & He & <- & <-). eauto.
Qed.

Lemma kb_map_find k key : table_ok k -> kb_map k !! key = e_value <$> kb_find k key.
Proof.
  intros Hok. destruct (kb_find k key) as [e|] eqn:E; simpl.
  - apply kb_map_lookup; [done|]. apply kb_find_elem in E; [|done]. naive_solver.
  - apply eq_None_not_Some. intros [v Hv]. apply kb_map_lookup in Hv as (e & He & Hk & _); [|done].
    assert (kb_find k key = Some e) by (by apply kb_find_elem). congruence.
Qed.

(** ** Lemmas: linking an entry in, growing *)

Lemma length_push_entry count bs e : length (push_entry count bs e) = length bs.
Proof. apply length_alter. Qed.

Lemma push_entry_placed count bs e : placed count bs -> placed count (push_entry count bs e).
Proof.
  intros Hp i chain x Hi Hx. unfold push_entry in Hi.
  destruct (decide (i = bucket_index (e_key e) count)) as [->|Hne].
  - rewrite list_lookup_alter_eq in Hi.
    destruct (bs !! bucket_index (e_key e) count) as [chain'|] eqn:E; [|done].
    simpl in Hi. injection Hi as <-. apply elem_of_cons in Hx as [->|Hx]; [done|]. by eapply Hp.
  - rewrite list_lookup_alter_ne in Hi by done. by eapply Hp.
Qed.

Lemma push_all count l bs :
  0 < count -> length bs = Z.to_nat count -> placed count bs ->
  let bs' := foldl (push_entry count) bs l in
  length bs' = length bs /\ placed count bs' /\ concat bs' ≡ₚ l ++ concat bs.
Proof.
  intros Hc. revert bs; induction l as [|e l IH]; intros bs Hl Hp; simpl; [by split_and!|].
  destruct (IH (push_entry count bs e)) as (Hl' & Hp' & Hc').
  - by rewrite length_push_entry.
  - by apply push_entry_placed.
  - rewrite length_push_entry in Hl'. split; [done|]. split; [done|].
    rewrite Hc'. unfold push_entry. rewrite concat_alter_cons.
    + by rewrite Permutation_middle.
    + rewrite Hl. by apply bucket_index_lt.
Qed.

Lemma concat_replicate_nil {A} n : concat (replicate n (@nil A)) = [].
Proof. by induction n. Qed.

Lemma placed_empty count n : placed count (replicate n []).
Proof. intros i chain e [-> _]%lookup_replicate He. by apply elem_of_nil in He. Qed.

Lemma kb_grow_ok k h g k' h' :
  table_ok k -> kb_grow_if_needed k h = (g, k', h') ->
  table_ok k' /\ entries k' ≡ₚ entries k /\ entry_count k' = entry_count k /\ live h' = live h.
Proof.
  intros Hok. unfold kb_grow_if_needed.
  destruct (_ <=? _); [by intros [= _ <- <-]|].
  destruct (Z.leb_spec (double_count (bucket_count k)) (bucket_count k)) as [|Hlt];
    [by intros [= _ <- <-]|].
  destruct (malloc h) as [ok h1] eqn:Em. apply malloc_live in Em.
  destruct ok; simpl; [|intros [= _ <- <-]; repeat split; try apply Hok; try done; lia].
  intros [= _ <- <-]. destruct Hok as [Hc Hl He Hp Hn].
  destruct (push_all (double_count (bucket_count k)) (concat (buckets k))
    (replicate (Z.to_nat (double_count (bucket_count k))) [])) as (Hl' & Hp' & Hc');
    [lia|apply length_replicate|apply placed_empty|].
  rewrite concat_replicate_nil, app_nil_r in Hc'. rewrite length_replicate in Hl'.
  split; [|simpl; unfold entries; simpl; repeat split; [done|lia]].
  split; simpl; unfold entries in *; simpl; [lia|done|by rewrite Hc'|done|].
  by rewrite (Permutation_map e_key Hc').
Qed.

Lemma table_ok_perm_map k k' :
  table_ok k -> table_ok k' -> entries k' ≡ₚ entries k -> kb_map k' = kb_map k.
Proof.
  intros Hok Hok' Hp. unfold kb_map, pairs. apply list_to_map_proper.
  - apply pairs_nodup, Hok'.
  - by apply Permutation_map.
Qed.

Lemma owned_perm l l' : l ≡ₚ l' -> owned_by_entries l = owned_by_entries l'.
Proof. induction 1; simpl; lia. Qed.

(** ** Lemmas: storing *)

Definition set_entry (key : bytes) (v : kb_value) (e : kb_entry) : kb_entry :=
  if bool_decide (e_key e = key) then KbEntry key v else e.

Lemma set_entry_key key v e : e_key (set_entry key v e) = e_key e.
Proof. unfold set_entry. by case_bool_decide. Qed.

Lemma map_id_on {A} (f : A -> A) l : (forall x, x ∈ l -> f x = x) -> map f l = l.
Proof.
  induction l as [|x l IH]; intros H; [done|]. simpl. rewrite H by (by left). f_equal.
  apply IH. intros. apply H. by right.
Qed.

Lemma concat_alter_map {A} (f : A -> A) i ll :
  (forall j l x, j <> i -> ll !! j = Some l -> x ∈ l -> f x = x) ->
  concat (alter (map f) i ll) = map f (concat ll).
Proof.
  revert i; induction ll as [|l ll IH]; intros i H; [done|]. destruct i as [|i].
  - change (alter (map f) 0%nat (l :: ll)) with (map f l :: ll). simpl. rewrite map_app. f_equal.
    symmetry. apply map_id_on. intros x Hx. apply elem_of_concat in Hx as (j & l' & Hj & Hx).
    by apply (H (S j) l').
  - change (alter (map f) (S i) (l :: ll)) with (l :: alter (map f) i ll). simpl. rewrite map_app.
    rewrite IH by (intros j l' x Hj; apply (H (S j)); lia). f_equal.
    symmetry. apply map_id_on. intros x Hx. by apply (H 0%nat l).
Qed.

Lemma store_entries k key v :
  table_ok k -> entries (store_value k key v) = map (set_entry key v) (entries k).
Proof.
  intros [_ _ _ Hp _]. unfold entries, store_value. simpl. apply concat_alter_map.
  intros j l x Hj Hl Hx. case_bool_decide as Hk; [|done]. exfalso. apply Hj.
  rewrite <- Hk. symmetry. by eapply Hp.
Qed.

Lemma map_set_entry_keys key v l : map e_key (map (set_entry key v) l) = map e_key l.
Proof. rewrite map_map. apply map_ext. intros. apply set_entry_key. Qed.

Lemma store_ok k key v : table_ok k -> table_ok (store_value k key v).
Proof.
  intros Hok. pose proof (store_entries k key v Hok) as Es. destruct Hok as [Hc Hl He Hp Hn].
  split; simpl; [done|by rewrite length_alter| | |].
  - by rewrite Es, length_map.
  - intros i chain x Hi Hx.
    destruct (decide (i = bucket_index key (bucket_count k))) as [->|Hne].
    + rewrite list_lookup_alter_eq in Hi.
      destruct (buckets k !! bucket_index key (bucket_count k)) as [ch|] eqn:E; [|done].
      simpl in Hi. injection Hi as <-. apply list_elem_of_fmap in Hx as (e & -> & Hin).
      change (bucket_index (e_key (set_entry key v e)) (bucket_count k) =
              bucket_index key (bucket_count k)).
      rewrite set_entry_key. by eapply Hp.
    + rewrite list_lookup_alter_ne in Hi by done. by eapply Hp.
  - by rewrite Es, map_set_entry_keys.
Qed.

Lemma store_map k key v e :
  table_ok k -> kb_find k key = Some e -> kb_map (store_value k key v) = <[key := v]> (kb_map k).
Proof.
  intros Hok Hf. apply map_eq. intros key'. apply option_eq. intros v'.
  rewrite kb_map_lookup by (by apply store_ok). rewrite store_entries by done.
  destruct (decide (key' = key)) as [->|Hne].
  - rewrite lookup_insert_eq. split.
    + intros (x & Hx & Hk & <-). apply list_elem_of_fmap in Hx as (x0 & -> & _).
      rewrite set_entry_key in Hk. unfold set_entry. by rewrite bool_decide_eq_true_2.
    + intros [= <-]. apply kb_find_elem in Hf as [Hin Hk]; [|done]. exists (KbEntry key v).
      split; [|done]. apply list_elem_of_fmap. exists e. split; [|done].
      unfold set_entry. by rewrite bool_decide_eq_true_2.
  - rewrite lookup_insert_ne, kb_map_lookup by done. split.
    + intros (x & Hx & Hk & <-). apply list_elem_of_fmap in Hx as (x0 & -> & Hx).
      rewrite set_entry_key in Hk. exists x0. split; [done|]. split; [done|].
      unfold set_entry. by rewrite bool_decide_eq_false_2 by congruence.
    + intros (x & Hx & Hk & <-). exists x. split; [|done]. apply list_elem_of_fmap.
      exists x. split; [|done]. unfold set_entry. by rewrite bool_decide_eq_false_2 by congruence.
Qed.

Lemma set_entry_other key v l :
  (forall e, e ∈ l -> e_key e <> key) -> map (set_entry key v) l = l.
Proof.
  intros H. apply map_id_on. intros e He. unfold set_entry. by rewrite bool_decide_eq_false_2 by auto.
Qed.

Lemma owned_set_entry key v e l :
  NoDup (map e_key l) -> e ∈ l -> e_key e = key ->
  owned_by_entries (map (set_entry key v) l) =
  owned_by_entries l + (if owns_string v then 1 else 0) - (if owns_string (e_value e) then 1 else 0).
Proof.
  induction l as [|x l IH]; intros Hn He Hk; [by apply elem_of_nil in He|].
  simpl in Hn. apply NoDup_cons in Hn as [Hx Hn]. simpl map.
  apply elem_of_cons in He as [->|He].
  - rewrite (set_entry_other key v l).
    + unfold set_entry. rewrite bool_decide_eq_true_2 by done. simpl. lia.
    + intros e' He' Hk'. apply Hx. apply list_elem_of_fmap. exists e'. split; [congruence|done].
  - assert (e_key x <> key) as Hne.
    { intros Hxk. apply Hx. apply list_elem_of_fmap. exists e. split; [congruence|done]. }
    specialize (IH Hn He Hk). simpl. rewrite IH. unfold set_entry at 1.
    rewrite bool_decide_eq_false_2 by done. lia.
Qed.

(** ** Lemmas: insertion and the setters *)

Lemma kb_insert_new_ok k key h ok k' h' :
  table_ok k -> kb_find k key = None -> kb_insert_new k key h = (ok, k', h') ->
  (ok = false -> k' = k /\ live h' = live h /\ false ∈ oracle h) /\
  (ok = true -> table_ok k' /\ entries k' ≡ₚ KbEntry key (KB_STRING None) :: entries k /\
                live h' = live h + 2).
Proof.
  intros Hok Hf. unfold kb_insert_new.
  destruct (malloc h) as [ok1 h1] eqn:E1.
  pose proof (malloc_oracle _ _ _ E1) as [O1 O1']. apply malloc_live in E1.
  destruct ok1; simpl; [|intros [= <- <- <-]; split; [intros _; split_and!; [done|lia|by apply O1]|done]].
  destruct (malloc h1) as [ok2 h2] eqn:E2.
  pose proof (malloc_oracle _ _ _ E2) as [O2 _]. apply malloc_live in E2.
  destruct ok2; simpl;
    [|intros [= <- <- <-]; split; [intros _; split_and!; [done|simpl; lia|by apply O1', O2]|done]].
  destruct (kb_grow_if_needed k h2) as [[g k1] h3] eqn:Eg.
  destruct (kb_grow_ok _ _ _ _ _ Hok Eg) as (Hok1 & Hp1 & Hc1 & Hl1).
  intros [= <- <- <-]. split; [done|]. intros _.
  assert (Hperm : concat (push_entry (bucket_count k1) (buckets k1) (KbEntry key (KB_STRING None)))
                  ≡ₚ KbEntry key (KB_STRING None) :: entries k1).
  { unfold push_entry. apply concat_alter_cons. simpl. destruct Hok1 as [Hc Hl _ _ _]. rewrite Hl.
    by apply bucket_index_lt. }
  split; [|split; [unfold entries at 1; simpl; by rewrite Hperm, Hp1|lia]].
  assert (forall e, e ∈ entries k1 -> e_key e <> key) as Hfresh.
  { intros e He Hk. rewrite Hp1 in He.
    assert (kb_find k key = Some e) by (by apply kb_find_elem). congruence. }
  destruct Hok1 as [Hc Hl He Hp Hn]. split; unfold entries; simpl.
  - done.
  - by rewrite length_push_entry.
  - rewrite Hperm. simpl. rewrite He. lia.
  - by apply push_entry_placed.
  - rewrite (Permutation_map e_key Hperm). simpl. constructor; [|done].
    intros Hin. apply list_elem_of_fmap in Hin as (e & Hk & Hin). by apply (Hfresh e Hin).
Qed.

Lemma kb_map_insert k k' key v :
  table_ok k -> table_ok k' -> kb_find k key = None ->
  entries k' ≡ₚ KbEntry key v :: entries k -> kb_map k' = <[key := v]> (kb_map k).
Proof.
  intros Hok Hok' Hf Hp. apply map_eq. intros key'. apply option_eq. intros v'.
  rewrite kb_map_lookup by done. setoid_rewrite Hp. setoid_rewrite elem_of_cons.
  destruct (decide (key' = key)) as [->|Hne].
  - rewrite lookup_insert_eq. split.
    + intros (e & [->|Hin] & Hk & <-); [done|]. exfalso.
      assert (kb_find k key = Some e) by (by apply kb_find_elem). congruence.
    + intros [= <-]. exists (KbEntry key v). auto.
  - rewrite lookup_insert_ne, kb_map_lookup by done. split.
    + intros (e & [->|Hin] & Hk & Hv); [simpl in Hk; congruence|]. eauto.
    + intros (e & Hin & Hk & Hv). eauto.
Qed.

(** What the shared part of the setters does, and the block ledger: the
    caller has already allocated the block of a string value. *)
Lemma kb_put_ok k key v h ok k' h' :
  table_ok k -> kb_put k key v h = (ok, k', h') ->
  (ok = false -> k' = k /\ live h' = live h /\ false ∈ oracle h) /\
  (ok = true -> table_ok k' /\ kb_map k' = <[key := v]> (kb_map k) /\
     (Forall entry_ok (entries k) -> entry_ok (KbEntry key v) -> Forall entry_ok (entries k')) /\
     live h' - kb_blocks k' = live h - kb_blocks k - (if owns_string v then 1 else 0)).
Proof.
  intros Hok. unfold kb_put. destruct (kb_find k key) as [e|] eqn:Ef.
  - intros [= <- <- <-]. split; [done|]. intros _. split; [by apply store_ok|].
    split; [by eapply store_map|]. pose proof (store_entries k key v Hok) as Es.
    apply kb_find_elem in Ef as [Hin Hk]; [|done]. split.
    + rewrite Es. intros Hall Hnew. apply Forall_fmap. eapply Forall_impl; [exact Hall|].
      intros x Hx. unfold set_entry. simpl. case_bool_decide; [done|]. by destruct x.
    + unfold kb_blocks. rewrite Es, (owned_set_entry key v e) by (try apply Hok; done).
      unfold free_if, free_block. destruct (owns_string (e_value e)); simpl; lia.
  - destruct (kb_insert_new k key h) as [[ok1 k1] h1] eqn:Ei.
    destruct (kb_insert_new_ok _ _ _ _ _ _ Hok Ef Ei) as [Hfail Hdone].
    destruct ok1; simpl; [|intros [= <- <- <-]; split; [by intros _; apply Hfail|done]].
    intros [= <- <- <-]. split; [done|]. intros _.
    destruct (Hdone eq_refl) as (Hok1 & Hp1 & Hl1).
    assert (entries (store_value k1 key v) ≡ₚ KbEntry key v :: entries k) as Hp.
    { rewrite store_entries by done. rewrite (Permutation_map _ Hp1). simpl.
      rewrite set_entry_other.
      - unfold set_entry. by rewrite bool_decide_eq_true_2.
      - intros e He Hk. assert (kb_find k key = Some e) by (by apply kb_find_elem). congruence. }
    split; [by apply store_ok|]. split; [apply (kb_map_insert k); [done|by apply store_ok|done|done]|]. split.
    + intros Hall Hnew. rewrite Hp. by constructor.
    + unfold kb_blocks. rewrite (owned_perm _ _ Hp). simpl.
      rewrite Hl1. lia.
Qed.

(** ** Properties *)

(** The outcome of a setter for the value [v]: it either stores exactly that
    binding, or reports -1 and leaves the table as it was, which happens only
    for a bad key, a bad value or a failed allocation; the table stays
    well-formed and the allocated blocks are accounted for. *)
Definition set_contract (key : option bytes) (v : kb_value) (k : kb) (h : heap)
    (r : Z * option kb * heap) : Prop :=
  exists code k' h', r = (code, Some k', h') /\ kb_ok k' /\
    live h' - kb_blocks k' = live h - kb_blocks k /\
    ((code = -1 /\ k' = k /\
        (kb_validate_key key = false \/ ~ stored_value_ok v \/ false ∈ oracle h)) \/
     (code = 0 /\ exists ky, key = Some ky /\ kb_validate_key key = true /\
        kb_map k' = <[ky := v]> (kb_map k))).

Lemma set_rejected key v k h h' :
  kb_ok k -> live h' = live h ->
  kb_validate_key key = false \/ ~ stored_value_ok v \/ false ∈ oracle h ->
  set_contract key v k h (-1, Some k, h').
Proof. intros Hok Hl Hwhy. exists (-1), k, h'. split_and!; auto. lia. Qed.

Lemma set_scalar_contract k key v h :
  kb_ok k -> stored_value_ok v -> owns_string v = false ->
  set_contract key v k h (kb_set_scalar (Some k) key v h).
Proof.
  intros Hk Hv Hown. unfold kb_set_scalar.
  destruct key as [ky|]; [|apply set_rejected; auto].
  destruct (kb_validate_key (Some ky)) eqn:Hkey; cbn [negb]; [|apply set_rejected; auto].
  destruct (kb_put k ky v h) as [[ok k'] h'] eqn:E.
  destruct (kb_put_ok _ _ _ _ _ _ _ (ok_table _ Hk) E) as [Hfail Hdone].
  destruct ok; cbn [negb].
  - destruct (Hdone eq_refl) as (Hok' & Hmap & Hall & Hl). rewrite Hown in Hl.
    exists 0, k', h'. split_and!; [done| |lia|right; eauto 6].
    split; [done|]. apply Hall; [apply Hk|done].
  - destruct (Hfail eq_refl) as (-> & Hl & Ho). apply set_rejected; auto.
Qed.

Lemma set_str_contract k key b h :
  kb_ok k -> set_contract key (KB_STRING (Some b)) k h (kb_set_str_n (Some k) key (Span b) h).
Proof.
  intros Hk. unfold kb_set_str_n.
  destruct key as [ky|]; [|apply set_rejected; auto].
  destruct (kb_validate_key (Some ky)) eqn:Hkey; cbn [negb]; [|apply set_rejected; auto].
  destruct (Z.ltb_spec KB_VALUE_MAX_LEN (Z.of_nat (length b))) as [Hlen|Hlen];
    [apply set_rejected; auto; right; left; intros (? & _); lia|].
  destruct (kb_validate_no_embedded_nul (Span b)) eqn:Hnul; cbn [negb];
    [|apply set_rejected; auto; right; left; intros (_ & Hn & _); congruence].
  destruct (kb_validate_utf8 (Span b)) eqn:Hutf; cbn [negb];
    [|apply set_rejected; auto; right; left; intros (_ & _ & Hn); congruence].
  destruct (malloc h) as [ok1 h1] eqn:Em.
  pose proof (malloc_oracle _ _ _ Em) as [O1 O1']. apply malloc_live in Em.
  destruct ok1; cbn [negb]; [|apply set_rejected; auto; lia].
  destruct (kb_put k ky _ h1) as [[ok k'] h'] eqn:E.
  destruct (kb_put_ok _ _ _ _ _ _ _ (ok_table _ Hk) E) as [Hfail Hdone].
  destruct ok; cbn [negb].
  - destruct (Hdone eq_refl) as (Hok' & Hmap & Hall & Hl). simpl in Hl.
    exists 0, k', h'. split_and!; [done| |lia|right; eauto 6].
    split; [done|]. apply Hall; [apply Hk|]. by split; [|split_and!].
  - destruct (Hfail eq_refl) as (-> & Hl & Ho). apply set_rejected; auto. simpl. lia.
Qed.

(** The setters consume outcomes of the oracle in order. *)
Definition consumes (h h' : heap) : Prop := forall b, b ∈ oracle h' -> b ∈ oracle h.

#[export] Instance consumes_preorder : PreOrder consumes.
Proof. split; [by intros h b|]. intros h h' h'' H1 H2 b Hb. auto. Qed.

Lemma malloc_consumes h ok h' : malloc h = (ok, h') -> consumes h h'.
Proof. intros E. exact (proj2 (malloc_oracle _ _ _ E)). Qed.

Lemma free_if_consumes b h : consumes h (free_if b h).
Proof. destruct b; intros c Hc; exact Hc. Qed.

Lemma kb_create_oracle h k h' : kb_create h = (k, h') -> (k = None -> false ∈ oracle h) /\ consumes h h'.
Proof.
  unfold kb_create. destruct (malloc h) as [ok1 h1] eqn:E1. destruct (malloc_oracle _ _ _ E1) as [F1 C1]. destruct ok1; cbn [negb].
  2: { intros [= <- <-]. split; [by intros _; apply F1|exact C1]. }
  destruct (malloc h1) as [ok2 h2] eqn:E2. destruct (malloc_oracle _ _ _ E2) as [F2 C2]. destruct ok2; cbn [negb]; intros [= <- <-].
  - split; [done|]. intros b Hb. auto.
  - split; [intros _; apply C1; by apply F2|]. intros b Hb. apply C1, C2, Hb.
Qed.

Lemma kb_grow_consumes k h : consumes h (snd (kb_grow_if_needed k h)).
Proof.
  unfold kb_grow_if_needed. destruct (_ <=? _); [reflexivity|]. cbv zeta. destruct (_ <=? _); [reflexivity|].
  destruct (malloc h) as [ok h'] eqn:E. apply malloc_consumes in E. by destruct ok.
Qed.

Lemma kb_put_consumes k key v h : consumes h (snd (kb_put k key v h)).
Proof.
  unfold kb_put. destruct (kb_find k key); [apply free_if_consumes|]. unfold kb_insert_new.
  destruct (malloc h) as [ok1 h1] eqn:E1. apply malloc_consumes in E1. destruct ok1; cbn [negb]; [|done].
  destruct (malloc h1) as [ok2 h2] eqn:E2. apply malloc_consumes in E2. destruct ok2; cbn [negb]; [|by transitivity h1].
  pose proof (kb_grow_consumes k h2) as H3. destruct (kb_grow_if_needed k h2) as [[ok3 k3] h3]. cbn [negb snd] in *.
  etransitivity; [exact E1|]. by etransitivity.
Qed.

Lemma set_scalar_oracle k key v h : consumes h (snd (kb_set_scalar k key v h)).
Proof.
  unfold kb_set_scalar. destruct k as [k|]; [|reflexivity]. destruct key as [key|]; [|reflexivity].
  destruct (kb_validate_key _); [|reflexivity]. pose proof (kb_put_consumes k key v h) as H. cbn [negb].
  by destruct (kb_put k key v h) as [[[] k'] h'].
Qed.

Lemma set_str_oracle k key b h : consumes h (snd (kb_set_str_n k key (Span b) h)).
Proof.
  unfold kb_set_str_n. destruct k as [k|]; [|reflexivity]. destruct key as [key|]; [|reflexivity].
  destruct (kb_validate_key _); [|reflexivity]. cbn [negb]. destruct (_ <? _); [reflexivity|].
  destruct (kb_validate_no_embedded_nul _); [|reflexivity]. destruct (kb_validate_utf8 _); [|reflexivity]. cbn [negb].
  destruct (malloc h) as [ok1 h1] eqn:E1. apply malloc_consumes in E1. destruct ok1; cbn [negb]; [|done].
  pose proof (kb_put_consumes k key (KB_STRING (Some b)) h1) as H.
  destruct (kb_put k key _ h1) as [[ok k'] h']. cbn [snd] in H. destruct ok; cbn [negb snd]; by transitivity h1.
Qed.

Lemma create_ok h k h' :
  kb_create h = (Some k, h') -> kb_ok k /\ kb_map k = ∅ /\ live h' = live h + kb_blocks k.
Proof.
  unfold kb_create. destruct (malloc h) as [ok1 h1] eqn:E1. apply malloc_live in E1.
  destruct ok1; simpl; [|done]. destruct (malloc h1) as [ok2 h2] eqn:E2. apply malloc_live in E2.
  destruct ok2; simpl; [|done]. intros [= <- <-].
  assert (Hc : entries (Kb (replicate (Z.to_nat KB_INITIAL_BUCKETS) []) KB_INITIAL_BUCKETS 0) = [])
    by apply concat_replicate_nil.
  split; [split; [split|]|]; rewrite ?Hc; try done.
  - exact (placed_empty KB_INITIAL_BUCKETS (Z.to_nat KB_INITIAL_BUCKETS)).
  - constructor.
  - split; [reflexivity|]. change (live h2 = live h + 2). lia.
Qed.

Lemma free_live k h : live (kb_free (Some k) h) = live h - kb_blocks k.
Proof.
  unfold kb_free, kb_blocks, entries. simpl.
  assert (forall l h, live (foldl free_entry h l) = live h - owned_by_entries l) as ->.
  { intros l. induction l as [|e l IH]; intros h0; simpl; [lia|].
    rewrite IH. unfold free_entry, free_if, free_block. destruct (owns_string _); simpl; lia. }
  lia.
Qed.

(** C13: The table implements a finite map: on a well-formed table each setter
    either stores exactly its binding (the other keys keep theirs, growth
    included) and answers 0, or answers -1 and leaves the table as it was;
    -1 means a bad key, a bad value or a failed allocation.  Well-formedness
    (placement, unique keys, the stored keys and values valid, the count) is
    preserved, and no block is lost on any path. *)
Theorem kb_set_refines_map k key b i v h :
  kb_ok k ->
  set_contract key (KB_STRING (Some b)) k h (kb_set_str_n (Some k) key (Span b) h) /\
  set_contract key (KB_INT i) k h (kb_set_int (Some k) key i h) /\
  set_contract key (KB_BOOL v) k h (kb_set_bool (Some k) key v h).
Proof.
  intros Hk. split; [by apply set_str_contract|].
  split; by apply set_scalar_contract.
Qed.

Lemma empty_kb_ok : kb_ok empty_kb.
Proof. destruct (create_ok (Heap [] 0) empty_kb (Heap [] 2) eq_refl) as [H _]. exact H. Qed.

Lemma kb_set_refines_map_witness :
  kb_ok empty_kb /\
  set_contract (Some (bs "Ports/tcp/22")) (KB_INT 1) empty_kb (Heap [true; false] 2)
    (kb_set_int (Some empty_kb) (Some (bs "Ports/tcp/22")) 1 (Heap [true; false] 2)).
Proof.
  split; [exact empty_kb_ok|].
  exact (proj1 (proj2 (kb_set_refines_map empty_kb (Some (bs "Ports/tcp/22")) [] 1 true
    (Heap [true; false] 2) empty_kb_ok))).
Defined.

(** The readers agree with the map: a lookup finds a value exactly when
    the map binds the (valid) key to it, the count is the size of the map, and
    the iteration calls back once for every binding. *)
Theorem kb_get_reads_map k key :
  kb_ok k ->
  kb_get (Some k) (Some key) =
    (if kb_validate_key (Some key) then
       match kb_map k !! key with Some v => KB_GET_FOUND v | None => KB_GET_NOT_FOUND end
     else KB_GET_INVALID_KEY) /\
  kb_count (Some k) = Z.of_nat (size (kb_map k)) /\
  kb_foreach (Some k) ≡ₚ map_to_list (kb_map k).
Proof.
  intros [Hok Hval]. split_and!.
  - unfold kb_get. destruct (kb_validate_key (Some key)); cbn [negb]; [|done].
    rewrite kb_map_find by done. by destruct (kb_find k key).
  - simpl. rewrite (ok_entries _ Hok). f_equal. unfold kb_map.
    rewrite <- length_map_to_list, map_to_list_to_map by (apply pairs_nodup, Hok).
    unfold pairs. by rewrite length_map.
  - unfold kb_foreach, kb_map. rewrite map_to_list_to_map by (apply pairs_nodup, Hok). done.
Qed.

Lemma kb_get_reads_map_witness :
  kb_get (Some empty_kb) (Some (bs "Host/up")) = KB_GET_NOT_FOUND.
Proof.
  rewrite (proj1 (kb_get_reads_map empty_kb (bs "Host/up") empty_kb_ok)).
  vm_compute. reflexivity.
Defined.

(** Creation and destruction: a created table is empty and well-formed,
    a failed creation leaks nothing, and freeing a table returns every block
    it owns, whatever was stored in it. *)
Theorem kb_create_free k h h1 h2 :
  (kb_create h = (Some k, h1) -> kb_ok k /\ kb_map k = ∅ /\ live h1 = live h + kb_blocks k) /\
  (kb_create h = (None, h1) -> live h1 = live h) /\
  live (kb_free (Some k) h2) = live h2 - kb_blocks k.
Proof.
  split_and!; [apply create_ok| |apply free_live].
  unfold kb_create. destruct (malloc h) as [ok1 h3] eqn:E1. apply malloc_live in E1.
  destruct ok1; simpl; [|intros [= <-]; lia].
  destruct (malloc h3) as [ok2 h4] eqn:E2. apply malloc_live in E2.
  destruct ok2; simpl; [done|]. intros [= <-]. simpl. lia.
Qed.

Lemma kb_create_free_witness :
  kb_ok empty_kb /\ live (kb_free (Some empty_kb) (Heap [] 2)) = 0.
Proof.
  split.
  - exact (proj1 (proj1 (kb_create_free empty_kb (Heap [] 0) (Heap [] 2) (Heap [] 2)) eq_refl)).
  - rewrite (proj2 (proj2 (kb_create_free empty_kb (Heap [] 0) (Heap [] 2) (Heap [] 2)))).
    reflexivity.
Defined.
