(* ===== verification/Scheduler.v ===== *)
(** * The plugin scheduler ([src/src/plugin/scheduler.c])

    Runs the plugins of a registry against one host in their order.  A plugin
    without a wildcard runs once when its [required_keys] are all in the
    knowledge base; one with [Services/<svc>/*] runs once for each entry that
    records a port of the service.  One invocation
    ([cytadel_plugin_invoke_one], which drives the Lua machine) is a parameter:
    it may change the knowledge base, the findings and the heap.  The calls of the observer are listed in order.  [qsort] of the
    ports is a merge sort, as equal ports are the same. *)

From S2P Require Import Prelude CveId LuaFields Plugin KbValidate Kb.

Inductive result_status := RESULT_OK | RESULT_SKIPPED | RESULT_FAILED.

(** One call of the observer. *)
Record report := Report { rp_script_id : Z; rp_script_name : option bytes; rp_port : Z; rp_status : result_status }.

Definition exact_key_present (k : kb) (key : bytes) : bool :=
  match kb_get (Some k) (Some key) with KB_GET_FOUND _ => true | _ => false end.

(** The keys a header requires. *)
Definition hdr_keys (hdr : plugin_header) : list bytes := take (required_key_count hdr) (default [] (required_keys hdr)).

(** [cytadel_scheduler_extra_gates_satisfied] from index [i]; [skip_index] is [None] for [(size_t)-1]. *)
Fixpoint gates_from (keys : list bytes) (i : nat) (skip_index : option nat) (k : kb) : bool :=
  match keys with
  | [] => true
  | key :: keys =>
      if bool_decide (skip_index = Some i) then gates_from keys (S i) skip_index k
      else if negb (exact_key_present k key) then false
      else gates_from keys (S i) skip_index k
  end.

Definition extra_gates_satisfied (hdr : plugin_header) (k : kb) (skip_index : option nat) : bool :=
  gates_from (hdr_keys hdr) 0 skip_index k.

(** The digits of a port: [None] for any other byte or a number above 65535. *)
Fixpoint port_digits (s : bytes) (port : Z) : option Z :=
  match s with
  | [] => Some port
  | c :: s =>
      if (c <? 48) || (57 <? c) then None else
      let port := port * 10 + (c - 48) in
      if 65535 <? port then None else port_digits s port
  end.

(** The port of a key [Services/<svc>/<port>]. *)
Definition key_port (svc key : bytes) : option Z :=
  let prefix := bs "Services/" in
  let svc_len := length svc in
  if Nat.leb (length key) (9 + svc_len + 1) then None else
  if negb (bool_decide (take 9 key = prefix)) then None else
  if negb (bool_decide (take svc_len (drop 9 key) = svc)) then None else
  if negb (bool_decide (key !! (9 + svc_len)%nat = Some 47)) then None else
  let port_str := drop (9 + svc_len + 1) key in
  if Nat.eqb (length port_str) 0 || existsb (fun c => c =? 47) port_str then None else
  match port_digits port_str 0 with
  | Some port => if port <? 1 then None else Some port
  | None => None
  end.

(** [cytadel_scheduler_collect_port]: the ports and their capacity (0 while
    the array is NULL). *)
Definition collect_port (svc : bytes) (key : bytes) (st : list Z * nat * heap) : list Z * nat * heap :=
  let '(ports, capacity, h) := st in
  match key_port svc key with
  | None => st
  | Some port =>
      if Nat.eqb (length ports) capacity then
        let new_capacity := if Nat.eqb capacity 0 then 8%nat else (capacity * 2)%nat in
        let '(ok, h) := realloc (Nat.ltb 0 capacity) h in
        if ok then (ports ++ [port], new_capacity, h) else (ports, capacity, h)
      else (ports ++ [port], capacity, h)
  end.

(** [cytadel_scheduler_wildcard_service] *)
Definition wildcard_service (key : bytes) : bytes := take (length key - 9 - 2) (drop 9 key).

Section Scheduler.
(** The findings of a host. *)
Variable findings : Type.
(** [cytadel_plugin_invoke_one] on a port, -1 for none. *)
Variable invoke_one : plugin_header -> Z -> kb -> findings -> heap -> result_status * kb * findings * heap.

(** The knowledge base, the findings, the heap, and the calls of the observer. *)
Record host_state := Host { host_kb : kb; host_findings : findings; host_heap : heap; host_reports : list report }.

Definition scheduler_report (hdr : plugin_header) (bound_port : Z) (status : result_status) (st : host_state) : host_state :=
  Host (host_kb st) (host_findings st) (host_heap st)
    (host_reports st ++ [Report (script_id hdr) (script_name hdr) bound_port status]).

(** An invocation and its report. *)
Definition run_plugin (hdr : plugin_header) (port : Z) (st : host_state) : host_state :=
  let '(status, k, f, h) := invoke_one hdr port (host_kb st) (host_findings st) (host_heap st) in
  scheduler_report hdr port status (Host k f h (host_reports st)).

Definition run_exact_key_plugin (hdr : plugin_header) (st : host_state) : host_state :=
  if negb (extra_gates_satisfied hdr (host_kb st) None) then scheduler_report hdr (-1) RESULT_SKIPPED st
  else run_plugin hdr (-1) st.

(** One port. *)
Definition run_port (hdr : plugin_header) (st : host_state) (port : Z) : host_state :=
  if negb (extra_gates_satisfied hdr (host_kb st) (wildcard_index hdr)) then scheduler_report hdr port RESULT_SKIPPED st
  else run_plugin hdr port st.

Definition set_heap (f : heap -> heap) (st : host_state) : host_state :=
  Host (host_kb st) (host_findings st) (f (host_heap st)) (host_reports st).

Definition run_wildcard_plugin (hdr : plugin_header) (w : nat) (st : host_state) : host_state :=
  let svc := wildcard_service (default [] (default [] (required_keys hdr) !! w)) in
  let '(ports, capacity, h) :=
    foldl (fun st e => collect_port svc (fst e) st) ([], 0%nat, host_heap st) (kb_foreach (Some (host_kb st))) in
  let st := set_heap (fun _ => h) st in
  let free_ports := set_heap (free_if (Nat.ltb 0 capacity)) in
  if Nat.eqb (length ports) 0 then free_ports (scheduler_report hdr (-1) RESULT_SKIPPED st) else
  free_ports (foldl (run_port hdr) st (merge_sort Z.le ports)).

(** [cytadel_plugin_run_all_for_host]; a NULL argument is [None]. *)
Definition run_header (st : host_state) (hdr : plugin_header) : host_state :=
  match wildcard_index hdr with
  | None => run_exact_key_plugin hdr st
  | Some w => run_wildcard_plugin hdr w st
  end.

Definition run_all_for_host (registry : option (list plugin_header)) (ip : option bytes) (k : option kb)
    (out_findings : option findings) (h : heap) : option host_state :=
  match registry, ip, k, out_findings with
  | Some headers, Some _, Some k, Some f => Some (foldl run_header (Host k f h []) headers)
  | _, _, _, _ => None
  end.
End Scheduler.

Arguments Host {findings}.
Arguments host_kb {findings}.
Arguments host_findings {findings}.
Arguments host_heap {findings}.
Arguments host_reports {findings}.

(** ** What a plugin requires *)

(** The value of a digit string. *)
Definition decimal (s : bytes) : Z := foldl (fun n c => n * 10 + (c - 48)) 0 s.

(** The knowledge base records [port] for the service. *)
Definition service_key (svc key : bytes) (port : Z) : Prop :=
  exists digits, key = bs "Services/" ++ svc ++ bs "/" ++ digits /\ digits <> [] /\
    Forall (fun c => 48 <= c <= 57) digits /\ decimal digits = port /\ 1 <= port <= 65535.

(** The service of a wildcard plugin. *)
Definition hdr_service (hdr : plugin_header) (w : nat) : bytes :=
  wildcard_service (default [] (default [] (required_keys hdr) !! w)).

(** What must be known before [hdr] runs on [port]. *)
Definition required_present (hdr : plugin_header) (port : Z) (m : gmap bytes kb_value) : Prop :=
  (forall (i : nat) key, hdr_keys hdr !! i = Some key -> wildcard_index hdr <> Some i -> is_Some (m !! key)) /\
  match wildcard_index hdr with
  | None => port = -1
  | Some w => exists key, is_Some (m !! key) /\ service_key (hdr_service hdr w) key port
  end.

(** ** Lemmas: ports *)

Lemma port_digits_spec s n p :
  0 <= n ->
  port_digits s n = Some p <->
  Forall (fun c => 48 <= c <= 57) s /\ foldl (fun n c => n * 10 + (c - 48)) n s = p /\ (s = [] \/ p <= 65535).
Proof.
  revert n; induction s as [|c s IH]; intros n Hn; cbn [port_digits foldl].
  { split; [intros [= <-]; auto|]. by intros (_ & <- & _). }
  assert (Hmono : forall s n, 0 <= n -> Forall (fun c => 48 <= c <= 57) s -> n <= foldl (fun n c => n * 10 + (c - 48)) n s).
  { clear. induction s as [|c s IH]; intros n Hn Hf; cbn [foldl]; [lia|]. apply Forall_cons in Hf as [Hc Hs].
    specialize (IH (n * 10 + (c - 48)) ltac:(lia) Hs). lia. }
  destruct (Z.ltb_spec c 48); cbn [orb]; [split; [done|]; intros ([Hc _]%Forall_cons & _); lia|].
  destruct (Z.ltb_spec 57 c); [split; [done|]; intros ([Hc _]%Forall_cons & _); lia|].
  destruct (Z.ltb_spec 65535 (n * 10 + (c - 48))) as [Hbig|Hsmall].
  - split; [done|]. intros (Hf & <- & [|Hp]); [done|]. apply Forall_cons in Hf as [Hc Hs].
    specialize (Hmono s (n * 10 + (c - 48)) ltac:(lia) Hs). lia.
  - rewrite IH by lia. rewrite Forall_cons. split.
    + intros (Hs & Hp & Hr). split_and!; [lia|lia|done|done|]. right. destruct Hr as [->|]; [cbn in Hp; lia|done].
    + intros ((_ & Hs) & Hp & [|Hr]); [done|]. auto.
Qed.

Lemma key_port_spec svc key p : key_port svc key = Some p <-> service_key svc key p.
Proof.
  unfold key_port, service_key. split.
  - destruct (Nat.leb_spec (length key) (9 + length svc + 1)) as [|Hl]; [done|].
    case_bool_decide as H1; [|done]. case_bool_decide as H2; [|done]. case_bool_decide as H3; [|done]. cbn [negb].
    set (digits := drop (9 + length svc + 1) key).
    destruct (Nat.eqb (length digits) 0) eqn:E0; [done|]. destruct (existsb _ digits); [done|]. cbn [orb].
    destruct (port_digits digits 0) as [n|] eqn:En; [|done]. destruct (Z.ltb_spec n 1) as [|Hn]; [done|]. intros [= <-].
    apply port_digits_spec in En as (Hf & Hv & Hb); [|lia].
    assert (Hd : digits <> []) by (intros E; by rewrite E in E0).
    exists digits. split_and!; [|done|done|done|done|destruct Hb; [done|lia]].
    rewrite <- (take_drop 9 key) at 1. rewrite H1. f_equal. rewrite <- (take_drop (length svc) (drop 9 key)) at 1. rewrite H2.
    f_equal. rewrite drop_drop. unfold digits. rewrite (drop_S key 47 (9 + length svc)) by done.
    cbn [app]. do 2 f_equal. lia.
  - intros (digits & -> & Hne & Hf & Hv & Hp).
    assert (Hlen : (0 < length digits)%nat) by (destruct digits; [done|cbn; lia]).
    rewrite !length_app. change (length (bs "Services/")) with 9%nat. change (length (bs "/")) with 1%nat.
    destruct (Nat.leb_spec (9 + (length svc + (1 + length digits))) (9 + length svc + 1)); [lia|].
    rewrite take_app_length' by done. rewrite bool_decide_eq_true_2 by done. cbn [negb].
    rewrite drop_app_length' by done. rewrite take_app_length. rewrite bool_decide_eq_true_2 by done. cbn [negb].
    rewrite lookup_app_r by (cbn; lia). change (length (bs "Services/")) with 9%nat.
    replace (9 + length svc - 9)%nat with (length svc) by lia. rewrite lookup_app_r, Nat.sub_diag by lia.
    change ((bs "/" ++ digits) !! 0%nat) with (Some 47). rewrite bool_decide_eq_true_2 by done. cbn [negb].
    assert (Hdrop : drop (9 + length svc + 1) (bs "Services/" ++ svc ++ bs "/" ++ digits) = digits).
    { rewrite !app_assoc. apply drop_app_length'. rewrite !length_app. done. }
    rewrite Hdrop. destruct (Nat.eqb_spec (length digits) 0); [lia|].
    assert (Hs : existsb (fun c => c =? 47) digits = false).
    { apply existsb_false. intros c Hc. rewrite Forall_forall in Hf. specialize (Hf c Hc). cbn in Hf. apply Z.eqb_neq. lia. }
    rewrite Hs. cbn [orb]. assert (En : port_digits digits 0 = Some p) by (apply port_digits_spec; [lia|split_and!; [done|done|lia]]).
    rewrite En. destruct (Z.ltb_spec p 1); [lia|done].
Qed.

(** The ports of a service, in the order of the table. *)
Definition service_ports (svc : bytes) (k : kb) : list Z := omap (fun e => key_port svc (fst e)) (kb_foreach (Some k)).

(** Some of the ports when an allocation fails, all of them when none does. *)
Lemma collect_ports_spec svc es ports capacity h :
  let '(ports', _, h') := foldl (fun st (e : bytes * kb_value) => collect_port svc (fst e) st) (ports, capacity, h) es in
  (exists new, ports' = ports ++ new /\ new ⊆+ omap (fun e => key_port svc (fst e)) es) /\
  (false ∉ oracle h -> ports' = ports ++ omap (fun e => key_port svc (fst e)) es /\ false ∉ oracle h').
Proof.
  revert ports capacity h; induction es as [|e es IH]; intros ports capacity h; cbn [foldl].
  { split; [exists []; by rewrite app_nil_r|]. intros Ho. cbn. by rewrite app_nil_r. }
  assert (Hskip : key_port svc (fst e) = None -> omap (fun e => key_port svc (fst e)) (e :: es) = omap (fun e => key_port svc (fst e)) es).
  { intros E. cbn. by rewrite E. }
  assert (Hadd : forall p, key_port svc (fst e) = Some p ->
    omap (fun e => key_port svc (fst e)) (e :: es) = p :: omap (fun e => key_port svc (fst e)) es).
  { intros p E. cbn. by rewrite E. }
  unfold collect_port at 2. destruct (key_port svc (fst e)) as [p|] eqn:Ep.
  2: { rewrite Hskip by done. apply IH. }
  rewrite (Hadd p) by done. clear Hskip Hadd.
  assert (Hpush : forall capacity h1, (false ∉ oracle h -> false ∉ oracle h1) ->
    let '(ports', _, h') := foldl (fun st (e : bytes * kb_value) => collect_port svc (fst e) st) (ports ++ [p], capacity, h1) es in
    (exists new, ports' = ports ++ new /\ new ⊆+ p :: omap (fun e => key_port svc (fst e)) es) /\
    (false ∉ oracle h -> ports' = ports ++ p :: omap (fun e => key_port svc (fst e)) es /\ false ∉ oracle h')).
  { intros cap h1 Hh. specialize (IH (ports ++ [p]) cap h1). destruct (foldl _ _ es) as [[ports' c'] h'].
    destruct IH as [(new & -> & Hnew) Hall]. split.
    - exists (p :: new). rewrite <- app_assoc. split; [done|]. by apply submseteq_skip.
    - intros Ho. destruct (Hall (Hh Ho)) as [E ?]. split; [|done]. rewrite E. by rewrite <- app_assoc. }
  destruct (Nat.eqb (length ports) capacity); [|by apply Hpush].
  destruct (realloc (Nat.ltb 0 capacity) h) as [ok h1] eqn:Er. apply realloc_spec in Er as (_ & Hf & Hsub).
  destruct ok; [apply Hpush; auto|].
  specialize (IH ports capacity h1). destruct (foldl _ _ es) as [[ports' c'] h']. destruct IH as [(new & -> & Hnew) _]. split.
  - exists new. split; [done|]. by apply submseteq_cons.
  - intros Ho. destruct Ho. by apply Hf.
Qed.

Lemma service_ports_spec svc k p : table_ok k -> p ∈ service_ports svc k <-> exists key, is_Some (kb_map k !! key) /\ service_key svc key p.
Proof.
  intros Hok. unfold service_ports. cbn [kb_foreach]. rewrite list_elem_of_omap. split.
  - intros ([key v] & Hin & Hp%key_port_spec). exists key. split; [|done]. exists v. apply kb_map_lookup; [done|].
    apply list_elem_of_fmap in Hin as (e & [= -> ->] & Hin). by exists e.
  - intros (key & [v Hv] & Hp%key_port_spec). apply kb_map_lookup in Hv as (e & Hin & <- & <-); [|done].
    exists (e_key e, e_value e). split; [|done]. apply list_elem_of_fmap. by exists e.
Qed.

(** ** Lemmas: gates *)

Lemma exact_key_present_spec k key : kb_ok k -> exact_key_present k key = true <-> is_Some (kb_map k !! key).
Proof.
  intros Hok. unfold exact_key_present, kb_get. rewrite (kb_map_find _ _ (ok_table _ Hok)).
  destruct (kb_validate_key (Some key)) eqn:Ev; cbn [negb].
  - destruct (kb_find k key); cbn; split; intros H; (done || by destruct H).
  - split; [done|]. destruct (kb_find k key) as [e|] eqn:E; cbn; [|by intros []]. intros _.
    apply kb_find_elem in E as [Hin Hk]; [|apply Hok]. pose proof (ok_values _ Hok) as Hv. rewrite Forall_forall in Hv.
    destruct (Hv e Hin) as [Hkey _]. rewrite Hk in Hkey. congruence.
Qed.

Lemma gates_from_spec keys i skip k :
  gates_from keys i skip k = true <-> forall (j : nat) key, keys !! j = Some key -> skip <> Some (i + j)%nat -> exact_key_present k key = true.
Proof.
  revert i; induction keys as [|key keys IH]; intros i; cbn [gates_from]; [split; [by intros _ j key Hk|done]|].
  assert (Hcons : (forall (j : nat) key0, (key :: keys) !! j = Some key0 -> skip <> Some (i + j)%nat -> exact_key_present k key0 = true) <->
    (skip <> Some i -> exact_key_present k key = true) /\
    (forall (j : nat) key0, keys !! j = Some key0 -> skip <> Some (S i + j)%nat -> exact_key_present k key0 = true)).
  { split.
    - intros H. split; [intros Hs; apply (H 0%nat); [done|by rewrite Nat.add_0_r]|].
      intros j key0 Hk Hs. apply (H (S j)); [done|]. by replace (i + S j)%nat with (S i + j)%nat by lia.
    - intros [H0 H] [|j] key0 Hk Hs; [injection Hk as <-; apply H0; by rewrite Nat.add_0_r in Hs|].
      apply (H j); [done|]. by replace (S i + j)%nat with (i + S j)%nat by lia. }
  rewrite Hcons. case_bool_decide as Hs; [rewrite IH; tauto|].
  destruct (exact_key_present k key); cbn [negb]; [rewrite IH; tauto|]. split; [done|]. intros [H _]. by apply H.
Qed.

Lemma extra_gates_spec hdr k :
  kb_ok k ->
  extra_gates_satisfied hdr k (wildcard_index hdr) = true <->
  forall (i : nat) key, hdr_keys hdr !! i = Some key -> wildcard_index hdr <> Some i -> is_Some (kb_map k !! key).
Proof.
  intros Hok. unfold extra_gates_satisfied. rewrite gates_from_spec.
  split; intros H j key Hk Hw; apply (exact_key_present_spec _ _ Hok); by apply (H j key).
Qed.

(** ** Running *)

Section Run.
Context {findings : Type}.
Variable invoke_one : plugin_header -> Z -> kb -> findings -> heap -> result_status * kb * findings * heap.

(** A plugin reaches the knowledge base through its setters only, which keep it
    well formed and remove nothing. *)
Definition invoke_keeps_kb : Prop := forall hdr port k f h,
  let '(_, k', _, h') := invoke_one hdr port k f h in
  kb_ok k -> kb_ok k' /\ (forall key, is_Some (kb_map k !! key) -> is_Some (kb_map k' !! key)) /\
    (false ∉ oracle h -> false ∉ oracle h').

(** [I] holds after every invocation whose requirements are in the knowledge base. *)
Definition invoke_keeps (hdrs : list plugin_header) (I : kb -> findings -> Prop) : Prop :=
  forall hdr port k f h, hdr ∈ hdrs -> kb_ok k -> required_present hdr port (kb_map k) -> I k f ->
  let '(_, k', f', _) := invoke_one hdr port k f h in I k' f'.

(** One report for each port the plugin is run on, or one for none. *)
Definition plugin_reports (hdr : plugin_header) (k : kb) (memory : Prop) (reports : list report) : Prop :=
  Forall (fun r => rp_script_id r = script_id hdr /\ rp_script_name r = script_name hdr) reports /\
  match wildcard_index hdr with
  | None => map rp_port reports = [-1]
  | Some w => exists ports,
      map rp_port reports = (if bool_decide (ports = []) then [-1] else ports) /\ StronglySorted Z.le ports /\
      ports ⊆+ service_ports (hdr_service hdr w) k /\
      (forall p, p ∈ ports -> exists key, is_Some (kb_map k !! key) /\ service_key (hdr_service hdr w) key p) /\
      (memory -> Permutation ports (service_ports (hdr_service hdr w) k))
  end.

Hypothesis keeps_kb : invoke_keeps_kb.
Variable hdrs : list plugin_header.
Variable I : kb -> findings -> Prop.
Hypothesis keeps : invoke_keeps hdrs I.

(** What every step does. *)
Definition step_ok (st st' : host_state findings) (reports : list report) : Prop :=
  kb_ok (host_kb st') /\
  (forall key, is_Some (kb_map (host_kb st) !! key) -> is_Some (kb_map (host_kb st') !! key)) /\
  (false ∉ oracle (host_heap st) -> false ∉ oracle (host_heap st')) /\
  (I (host_kb st) (host_findings st) -> I (host_kb st') (host_findings st')) /\
  host_reports st' = host_reports st ++ reports.

Lemma step_trans st st' st'' r r' : step_ok st st' r -> step_ok st' st'' r' -> step_ok st st'' (r ++ r').
Proof.
  intros (_ & K1 & O1 & I1 & R1) (H2 & K2 & O2 & I2 & R2). split_and!; auto. by rewrite R2, R1, app_assoc.
Qed.

Lemma step_refl st : kb_ok (host_kb st) -> step_ok st st [].
Proof. intros Hk. split_and!; try done. by rewrite app_nil_r. Qed.

Lemma step_heap st g : kb_ok (host_kb st) -> (forall h, oracle (g h) = oracle h) -> step_ok st (set_heap _ g st) [].
Proof. intros Hk Hg. split_and!; try done; [cbn; by rewrite Hg|by rewrite app_nil_r]. Qed.

Lemma step_report hdr port status st :
  kb_ok (host_kb st) -> step_ok st (scheduler_report _ hdr port status st) [Report (script_id hdr) (script_name hdr) port status].
Proof. intros Hk. by split_and!. Qed.

Lemma step_run_plugin hdr port st :
  hdr ∈ hdrs -> kb_ok (host_kb st) -> required_present hdr port (kb_map (host_kb st)) ->
  exists status, step_ok st (run_plugin _ invoke_one hdr port st) [Report (script_id hdr) (script_name hdr) port status].
Proof.
  intros Hin Hk Hr. unfold run_plugin. pose proof (keeps_kb hdr port (host_kb st) (host_findings st) (host_heap st)) as H1.
  pose proof (keeps hdr port (host_kb st) (host_findings st) (host_heap st) Hin Hk Hr) as H2.
  destruct (invoke_one _ _ _ _ _) as [[[status k'] f'] h']. destruct (H1 Hk) as (? & ? & ?). exists status. by split_and!.
Qed.

Lemma step_exact hdr st :
  hdr ∈ hdrs -> kb_ok (host_kb st) -> wildcard_index hdr = None ->
  exists status, step_ok st (run_exact_key_plugin _ invoke_one hdr st) [Report (script_id hdr) (script_name hdr) (-1) status].
Proof.
  intros Hin Hk Hw. unfold run_exact_key_plugin. destruct (extra_gates_satisfied hdr (host_kb st) None) eqn:E; cbn [negb].
  - apply step_run_plugin; [done|done|]. rewrite <- Hw in E. split; [by apply extra_gates_spec|]. by rewrite Hw.
  - eexists. by apply step_report.
Qed.

Lemma step_ports hdr w ports st :
  hdr ∈ hdrs -> kb_ok (host_kb st) -> wildcard_index hdr = Some w ->
  (forall p, p ∈ ports -> exists key, is_Some (kb_map (host_kb st) !! key) /\ service_key (hdr_service hdr w) key p) ->
  exists reports, step_ok st (foldl (run_port _ invoke_one hdr) st ports) reports /\
    Forall (fun r => rp_script_id r = script_id hdr /\ rp_script_name r = script_name hdr) reports /\ map rp_port reports = ports.
Proof.
  intros Hin. revert st; induction ports as [|p ports IH]; intros st Hk Hw Hp; cbn [foldl].
  { exists []. split; [by apply step_refl|done]. }
  assert (H1 : exists status, step_ok st (run_port _ invoke_one hdr st p) [Report (script_id hdr) (script_name hdr) p status]).
  { unfold run_port. destruct (extra_gates_satisfied _ _ _) eqn:E; cbn [negb].
    - apply step_run_plugin; [done|done|]. split; [by apply extra_gates_spec|]. rewrite Hw. apply Hp. by left.
    - eexists. by apply step_report. }
  destruct H1 as [status H1]. destruct (IH (run_port _ invoke_one hdr st p)) as (reports & H2 & Hf & Hports); [apply H1|done| |].
  - intros q Hq. destruct (Hp q) as (key & Hkey & Hs); [by right|]. exists key. split; [by apply H1|done].
  - eexists. split; [exact (step_trans _ _ _ _ _ H1 H2)|]. split; [by constructor|]. cbn. by rewrite Hports.
Qed.

Lemma step_header hdr st :
  hdr ∈ hdrs -> kb_ok (host_kb st) ->
  exists reports, step_ok st (run_header _ invoke_one st hdr) reports /\
    plugin_reports hdr (host_kb st) (false ∉ oracle (host_heap st)) reports.
Proof.
  intros Hin Hk. unfold run_header, plugin_reports. destruct (wildcard_index hdr) as [w|] eqn:Ew.
  2: { destruct (step_exact hdr st Hin Hk Ew) as [status H]. eexists. split; [exact H|]. split; [by repeat constructor|done]. }
  unfold run_wildcard_plugin. fold (hdr_service hdr w).
  pose proof (collect_ports_spec (hdr_service hdr w) (kb_foreach (Some (host_kb st))) [] 0 (host_heap st)) as HC.
  destruct (foldl _ _ (kb_foreach _)) as [[ports capacity] h1]. destruct HC as [(new & Enew & Hsome) Hall].
  cbn [app] in Enew, Hall. subst new. fold (service_ports (hdr_service hdr w) (host_kb st)) in Hsome, Hall.
  assert (H1 : step_ok st (set_heap _ (fun _ => h1) st) []).
  { split_and!; try done; [intros Ho; by apply Hall|by rewrite app_nil_r]. }
  assert (Hport : forall p, p ∈ ports -> exists key, is_Some (kb_map (host_kb st) !! key) /\ service_key (hdr_service hdr w) key p).
  { intros p Hp. apply (elem_of_submseteq _ _ _ Hp) in Hsome. by apply service_ports_spec in Hsome; [|apply Hk]. }
  assert (Hfree : forall st', kb_ok (host_kb st') -> step_ok st' (set_heap _ (free_if (Nat.ltb 0 capacity)) st') []).
  { intros st' Hk'. apply step_heap; [done|]. intros h. by destruct (Nat.ltb 0 capacity). }
  destruct (Nat.eqb_spec (length ports) 0) as [E0|E0].
  - apply nil_length_inv in E0 as ->.
    pose proof (step_report hdr (-1) RESULT_SKIPPED (set_heap _ (fun _ => h1) st) Hk) as H2.
    eexists. split; [exact (step_trans _ _ _ _ _ (step_trans _ _ _ _ _ H1 H2) (Hfree (scheduler_report _ hdr (-1) RESULT_SKIPPED (set_heap _ (fun _ => h1) st)) Hk))|].
    split; [by repeat constructor|]. exists []. split_and!; [done|constructor|done|done|]. intros Ho.
    destruct (Hall Ho) as [<- _]. done.
  - destruct (step_ports hdr w (merge_sort Z.le ports) (set_heap _ (fun _ => h1) st) Hin Hk Ew) as (reports & H2 & Hf & Hports).
    { intros p Hp. rewrite merge_sort_Permutation in Hp. by apply Hport. }
    eexists. split; [exact (step_trans _ _ _ _ _ (step_trans _ _ _ _ _ H1 H2) (Hfree _ (proj1 H2)))|].
    rewrite app_nil_r. cbn [app]. split; [done|]. exists (merge_sort Z.le ports). split_and!.
    + rewrite Hports. rewrite bool_decide_eq_false_2; [done|]. intros En. apply (f_equal length) in En.
      by rewrite (Permutation_length (merge_sort_Permutation _ _)) in En.
    + apply StronglySorted_merge_sort; apply _.
    + by rewrite merge_sort_Permutation.
    + intros p Hp. rewrite merge_sort_Permutation in Hp. by apply Hport.
    + intros Ho. rewrite merge_sort_Permutation. by destruct (Hall Ho) as [-> _].
Qed.

(** A knowledge base of the run, between its start and its end. *)
Definition kb_between (k0 k k1 : kb) : Prop :=
  (forall key, is_Some (kb_map k0 !! key) -> is_Some (kb_map k !! key)) /\ kb_ok k /\ (forall key, is_Some (kb_map k !! key) -> is_Some (kb_map k1 !! key)).

Lemma step_all todo st :
  (forall hdr, hdr ∈ todo -> hdr ∈ hdrs) -> kb_ok (host_kb st) ->
  exists groups, step_ok st (foldl (run_header _ invoke_one) st todo) (concat groups) /\
    Forall2 (fun hdr reports => exists k, kb_between (host_kb st) k (host_kb (foldl (run_header _ invoke_one) st todo)) /\
      plugin_reports hdr k (false ∉ oracle (host_heap st)) reports) todo groups.
Proof.
  revert st; induction todo as [|hdr todo IH]; intros st Hin Hk; cbn [foldl].
  { exists []. split; [by apply step_refl|constructor]. }
  destruct (step_header hdr st) as (reports & H1 & Hr); [apply Hin; by left|done|].
  destruct (IH (run_header _ invoke_one st hdr)) as (groups & H2 & Hg); [intros; apply Hin; by right|apply H1|].
  exists (reports :: groups). cbn [concat]. split; [exact (step_trans _ _ _ _ _ H1 H2)|]. constructor.
  - exists (host_kb st). split; [|done]. destruct H1 as (_ & Hm1 & _), H2 as (_ & Hm2 & _). split_and!; auto.
  - eapply Forall2_impl; [exact Hg|]. intros hdr' r (k & (Hm & Hkk & Hl) & Hf & Hp). exists k. destruct H1 as (_ & Hm1 & Ho & _). split; [split_and!; auto|]. split; [done|].
    destruct (wildcard_index hdr'); [|done]. destruct Hp as (ports & ? & ? & ? & ? & Hall). exists ports. split_and!; auto.
Qed.
End Run.

(** ** The blocks of a run *)

Section Blocks.
Context {findings : Type}.
Variable invoke_one : plugin_header -> Z -> kb -> findings -> heap -> result_status * kb * findings * heap.
(** What is kept, and the blocks the knowledge base and the findings own. *)
Variable ok : kb -> findings -> Prop.
Variable blocks : kb -> findings -> Z.

(** An invocation releases whatever else it allocates. *)
Definition invoke_balanced : Prop := forall hdr port k f h,
  let '(_, k', f', h') := invoke_one hdr port k f h in
  ok k f -> ok k' f' /\ live h' - blocks k' f' = live h - blocks k f.

Hypothesis balanced : invoke_balanced.

(** From [st] to [st'], [d] more blocks are in use elsewhere. *)
Definition balanced_by (d : Z) (st st' : host_state findings) : Prop :=
  ok (host_kb st) (host_findings st) ->
  ok (host_kb st') (host_findings st') /\
  live (host_heap st') - blocks (host_kb st') (host_findings st') = live (host_heap st) - blocks (host_kb st) (host_findings st) + d.

Lemma balanced_trans d e st st' st'' : balanced_by d st st' -> balanced_by e st' st'' -> balanced_by (d + e) st st''.
Proof. intros H1 H2 Hok. destruct (H1 Hok) as [K1 L1]. destruct (H2 K1) as [K2 L2]. split; [done|lia]. Qed.

Lemma balanced_refl st : balanced_by 0 st st.
Proof. intros Hok. split; [done|lia]. Qed.

Lemma balanced_report hdr port status st : balanced_by 0 st (scheduler_report findings hdr port status st).
Proof. intros Hok. split; [done|cbn; lia]. Qed.

Lemma balanced_plugin hdr port st : balanced_by 0 st (run_plugin findings invoke_one hdr port st).
Proof.
  intros Hok. unfold run_plugin. pose proof (balanced hdr port (host_kb st) (host_findings st) (host_heap st)) as H.
  destruct (invoke_one _ _ _ _ _) as [[[status k'] f'] h']. destruct (H Hok) as [K L]. split; [done|]. cbn. lia.
Qed.

Lemma balanced_foldl {A} (step : host_state findings -> A -> host_state findings) l st :
  (forall st a, balanced_by 0 st (step st a)) -> balanced_by 0 st (foldl step st l).
Proof.
  intros Hs. revert st; induction l as [|a l IH]; intros st; cbn [foldl]; [apply balanced_refl|].
  apply (balanced_trans 0 0 _ (step st a)); auto.
Qed.

Lemma balanced_port hdr st port : balanced_by 0 st (run_port findings invoke_one hdr st port).
Proof. unfold run_port. destruct (extra_gates_satisfied _ _ _); cbn [negb]; [apply balanced_plugin|apply balanced_report]. Qed.

Lemma collect_ports_live svc es ports capacity h :
  let '(_, capacity', h') := foldl (fun st (e : bytes * kb_value) => collect_port svc (fst e) st) (ports, capacity, h) es in
  live h' - (if Nat.ltb 0 capacity' then 1 else 0) = live h - (if Nat.ltb 0 capacity then 1 else 0).
Proof.
  revert ports capacity h; induction es as [|e es IH]; intros ports capacity h; cbn [foldl]; [done|].
  unfold collect_port at 2. destruct (key_port svc (fst e)) as [p|]; [|apply IH].
  destruct (Nat.eqb (length ports) capacity); [|apply IH].
  destruct (realloc (Nat.ltb 0 capacity) h) as [ok1 h1] eqn:Er. apply realloc_spec in Er as (Hl & _).
  assert (Hpos : Nat.ltb 0 (if Nat.eqb capacity 0 then 8 else capacity * 2) = true)
    by (apply Nat.ltb_lt; destruct (Nat.eqb_spec capacity 0); lia).
  specialize (IH (if ok1 then ports ++ [p] else ports) (if ok1 then if Nat.eqb capacity 0 then 8 else capacity * 2 else capacity)%nat h1).
  destruct ok1; cbn [andb] in Hl; destruct (foldl _ _ es) as [[ports' c'] h'].
  - rewrite IH, Hpos, Hl. destruct (Nat.ltb 0 capacity); cbn; lia.
  - rewrite IH, Hl. lia.
Qed.

Lemma balanced_header hdr st : balanced_by 0 st (run_header findings invoke_one st hdr).
Proof.
  unfold run_header. destruct (wildcard_index hdr) as [w|].
  2: { unfold run_exact_key_plugin. destruct (extra_gates_satisfied _ _ _); [apply balanced_plugin|apply balanced_report]. }
  unfold run_wildcard_plugin. cbv zeta.
  pose proof (collect_ports_live (wildcard_service (default [] (default [] (required_keys hdr) !! w)))
    (kb_foreach (Some (host_kb st))) [] 0 (host_heap st)) as Hl.
  destruct (foldl _ _ _) as [[ports capacity] h]. change (Nat.ltb 0 0) with false in Hl. cbv iota in Hl.
  set (array := if Nat.ltb 0 capacity then 1 else 0) in Hl.
  assert (Halloc : balanced_by array st (set_heap findings (fun _ => h) st)) by (intros Hok; split; [done|cbn; lia]).
  assert (Hfree : forall st, balanced_by (- array) st (set_heap findings (free_if (Nat.ltb 0 capacity)) st)).
  { intros st' Hok. split; [done|]. destruct st' as [k' f' h' r']. subst array.
    destruct (Nat.ltb 0 capacity); cbn; lia. }
  replace 0 with (array + (0 + - array)) by lia. eapply balanced_trans; [exact Halloc|].
  destruct (Nat.eqb (length ports) 0); (eapply balanced_trans; [|apply Hfree]); [apply balanced_report|].
  apply balanced_foldl. intros. apply balanced_port.
Qed.

Lemma run_all_balanced hdrs ip k f h st :
  ok k f -> run_all_for_host findings invoke_one (Some hdrs) ip (Some k) (Some f) h = Some st ->
  ok (host_kb st) (host_findings st) /\
  live (host_heap st) - blocks (host_kb st) (host_findings st) = live h - blocks k f.
Proof.
  intros Hok. destruct ip; [|done]. intros [= <-].
  destruct (balanced_foldl (run_header findings invoke_one) hdrs (Host k f h []) (fun st hdr => balanced_header hdr st) Hok) as [K L].
  split; [done|]. cbn in L |- *. lia.
Qed.
End Blocks.

(** C17: A plugin never runs without what it requires.  Take plugins that keep
    the knowledge base well formed and remove no key.  Every invocation the
    scheduler makes is of a plugin all of whose exact [required_keys] are in
    the knowledge base, on no port or on a port the knowledge base records
    for its service: anything such invocations keep is kept by the whole run.
    The observer hears of the plugins in registry order: of one without a
    wildcard once, and of one with a wildcard at most once for each
    entry of the knowledge base, as it was some time in the run, that records a
    port of its service, in ascending order of the ports, or once when it found
    no port; while memory lasts no entry is left out, and so none that was
    there at the start.  Two entries can record the same port, with and without
    a leading zero, and then the plugin has it twice. *)
Theorem run_all_gated {findings} (invoke_one : plugin_header -> Z -> kb -> findings -> heap -> result_status * kb * findings * heap)
    hdrs (I : kb -> findings -> Prop) ip k f h :
  invoke_keeps_kb invoke_one -> invoke_keeps invoke_one hdrs I -> kb_ok k -> I k f ->
  exists st groups, run_all_for_host findings invoke_one (Some hdrs) (Some ip) (Some k) (Some f) h = Some st /\
    I (host_kb st) (host_findings st) /\ host_reports st = concat groups /\
    Forall2 (fun hdr reports => exists k', kb_between k k' (host_kb st) /\
      plugin_reports hdr k' (false ∉ oracle h) reports) hdrs groups.
Proof.
  intros Hkb Hkeep Hk HI.
  destruct (step_all invoke_one Hkb hdrs I Hkeep hdrs (Host k f h [])) as (groups & (_ & _ & _ & H & Hr) & Hg); [done|done|].
  exists (foldl (run_header findings invoke_one) (Host k f h []) hdrs), groups. split_and!; [done|by apply H|done|done].
Qed.

(** One plugin of the http service, a knowledge base with two of its ports, and
    invocations that record the ports they ran on. *)
Definition http_scheduled : plugin_header :=
  Header 7 (Some (bs "web")) (Some (bs "1")) (Some (bs "f")) ACT_GATHER_INFO None 0
    (Some [bs "Host/os"; bs "Services/http/*"]) 2 (Some 1%nat) None 0 None 2 (Some (bs "d")) (Some (bs "s")) None true.

Definition set_all (keys : list string) (k : kb) : kb :=
  foldl (fun k key => default k (snd (fst (kb_set_bool (Some k) (Some (bs key)) true (Heap [] 0))))) k keys.

Definition http_kb : kb := set_all ["Services/http/8080"; "Host/os"; "Services/http/80"; "Services/https/443"]%string empty_kb.

Lemma set_all_ok keys k : kb_ok k -> kb_ok (set_all keys k).
Proof.
  revert k; induction keys as [|key keys IH]; intros k Hk; cbn [set_all foldl]; [done|]. apply IH.
  unfold kb_set_bool. destruct (set_scalar_contract k (Some (bs key)) (KB_BOOL true) (Heap [] 0) Hk) as (code & k' & h' & E & Hk' & _); [done|done|].
  rewrite E. exact Hk'.
Qed.

Definition record_port (hdr : plugin_header) (port : Z) (k : kb) (f : list Z) (h : heap) : result_status * kb * list Z * heap :=
  (RESULT_OK, k, f ++ [port], h).

(** Whatever ran had a port from 1 to 65535. *)
Lemma run_all_gated_witness :
  exists st groups, run_all_for_host (list Z) record_port (Some [http_scheduled]) (Some (bs "10.0.0.1")) (Some http_kb) (Some [])
      (Heap [] 0) = Some st /\
    Forall (fun p => 1 <= p <= 65535) (host_findings st) /\ host_findings st = [80; 8080] /\
    host_reports st = concat groups /\ map rp_port (host_reports st) = [80; 8080].
Proof.
  destruct (run_all_gated record_port [http_scheduled] (fun _ f => Forall (fun p => 1 <= p <= 65535) f) (bs "10.0.0.1") http_kb []
    (Heap [] 0)) as (st & groups & E & HI & Hr & _).
  - intros hdr port k f h. cbn. auto.
  - intros hdr port k f h Hin _ Hreq HI. apply list_elem_of_singleton in Hin as ->. cbn.
    destruct Hreq as [_ (key & _ & digits & _ & _ & _ & _ & Hp)]. apply Forall_app. split; [exact HI|]. by constructor.
  - apply set_all_ok, empty_kb_ok.
  - constructor.
  - exists st, groups. assert (Hv : option_map (fun st => (host_findings st, map rp_port (host_reports st)))
      (run_all_for_host (list Z) record_port (Some [http_scheduled]) (Some (bs "10.0.0.1")) (Some http_kb) (Some []) (Heap [] 0))
      = Some ([80; 8080], [80; 8080])) by (vm_compute; reflexivity).
    rewrite E in Hv. injection Hv as Hf Hp. split_and!; [exact E|exact HI|exact Hf|exact Hr|exact Hp].
Defined.

(** A key with a leading zero is a second entry for the same port: the plugin
    runs on it twice. *)
Example leading_zero_runs_twice :
  option_map (fun st => map rp_port (host_reports st))
    (run_all_for_host (list Z) record_port (Some [http_scheduled]) (Some []) (Some (set_all ["Services/http/080"]%string http_kb)) (Some []) (Heap [] 0))
  = Some [80; 80; 8080].
Proof. vm_compute. reflexivity. Qed.
