(* ===== verification/Sockets.v ===== *)
(** * A plugin's sockets ([src/src/plugin/fd_tracker.c], [api_socket.c],
    [invoke.c], [timeout_clamp.c])

    Who closes which descriptor.  The workers of a scan share the descriptor
    table of the process: once a number is closed another thread may get it.
    An invocation closes descriptors from three places, [close_sock] and the
    finalizers of Lua ([socket_close]) and the sweep at its end
    ([fd_tracker_force_close_all]).  The invocation and its environment are a
    step function over labelled actions.  Code of the plugin runs until
    [lua_close] has returned, since [lua_close] calls the [__gc] metamethods the
    plugin set.  Which number [socket] answers, when Lua runs a finalizer and
    what the other threads do is the choice of the label.  The clock of the
    deadlines is a parameter. *)

From S2P Require Import Prelude Streams.

(** ** The tracker ([fd_tracker.c]) *)

(** [cytadel_plugin_fd_tracker_t]; [fds] has the cells up to [count] and is
    empty once it is freed.  An index is [None] for [(size_t)-1]. *)
Record tracker := Tracker { fds : list Z; count : nat; capacity : nat; freed : bool }.

Definition new_tracker : tracker := Tracker [] 0 0 false.

(** [cytadel_plugin_fd_tracker_add] *)
Definition tracker_add (tr : tracker) (fd : Z) (h : heap) : option nat * tracker * heap :=
  let '(ok, capacity', h) :=
    if Nat.eqb (count tr) (capacity tr) then
      let new_capacity := if Nat.eqb (capacity tr) 0 then 8%nat else (capacity tr * 2)%nat in
      let '(ok, h) := realloc (Nat.ltb 0 (capacity tr)) h in
      (ok, new_capacity, h)
    else (true, capacity tr, h) in
  if negb ok then (None, tr, h)
  else (Some (count tr), Tracker (fds tr ++ [fd]) (S (count tr)) capacity' (freed tr), h).

(** A read or write of a cell that is not there is [None]. *)
Definition tracker_mark_closed (tr : tracker) (track_idx : option nat) : option tracker :=
  match track_idx with
  | None => Some tr
  | Some i =>
      if freed tr || Nat.leb (count tr) i then Some tr
      else if Nat.ltb i (length (fds tr)) then Some (Tracker (<[i := -1]> (fds tr)) (count tr) (capacity tr) (freed tr))
      else None
  end.

Definition tracker_is_closed (tr : tracker) (track_idx : option nat) : option bool :=
  match track_idx with
  | None => Some true
  | Some i =>
      if Nat.leb (count tr) i then Some true else
      if freed tr then Some true else
      match fds tr !! i with Some fd => Some (fd <? 0) | None => None end
  end.

Definition tracker_is_tracked (tr : tracker) (track_idx : option nat) : bool :=
  match track_idx with None => false | Some i => Nat.ltb i (count tr) end.

(** One round of the loop of [cytadel_plugin_fd_tracker_force_close_all]: the
    descriptor it closes. *)
Definition tracker_sweep (tr : tracker) (i : nat) : option (tracker * option Z) :=
  match fds tr !! i with
  | None => None
  | Some fd =>
      if 0 <=? fd then Some (Tracker (<[i := -1]> (fds tr)) (count tr) (capacity tr) (freed tr), Some fd)
      else Some (tr, None)
  end.

Fixpoint sweep_from (n i : nat) (tr : tracker) (closed : list Z) : option (tracker * list Z) :=
  match n with
  | O => Some (tr, closed)
  | S n =>
      match tracker_sweep tr i with
      | None => None
      | Some (tr, fd) => sweep_from n (S i) tr (closed ++ option_list fd)
      end
  end.

(** [cytadel_plugin_fd_tracker_force_close_all]: the descriptors closed, whose
    number it returns. *)
Definition tracker_force_close_all (tr : tracker) : option (tracker * list Z) :=
  if freed tr then Some (tr, []) else sweep_from (count tr) 0 tr [].

Definition tracker_free (tr : tracker) (h : heap) : tracker * heap :=
  (Tracker [] (count tr) 0 true, free_if (Nat.ltb 0 (capacity tr)) h).

(** ** Sockets ([api_socket.c]) *)

(** [cytadel_plugin_socket_t] *)
Record socket := Socket { sock_fd : Z; track_idx : option nat }.

(** [cytadel_plugin_socket_close]: the descriptor it closes. *)
Definition socket_close (tr : tracker) (sock : socket) : option (tracker * socket * option Z) :=
  if sock_fd sock <? 0 then Some (tr, sock, None) else
  let tracked := tracker_is_tracked tr (track_idx sock) in
  match (if tracked then tracker_is_closed tr (track_idx sock) else Some false) with
  | None => None
  | Some true => Some (tr, Socket (-1) (track_idx sock), None)
  | Some false =>
      match (if tracked then tracker_mark_closed tr (track_idx sock) else Some tr) with
      | None => None
      | Some tr => Some (tr, Socket (-1) (track_idx sock), Some (sock_fd sock))
      end
  end.

(** ** An invocation ([invoke.c]) *)

(** [cytadel_plugin_invoke_one]: the chunk and [run] under [lua_pcall]; then
    [lua_close]; then the sweep at a cell; then the tracker is freed. *)
Inductive phase := Running | Closing | Sweeping (i : nat) | Done.

(** The descriptor table: which numbers are open, and whether this invocation
    opened them. *)
Record invocation := Invocation {
  os : gmap Z bool;
  open_fds : tracker;
  socks : list socket;
  at_phase : phase;
  inv_heap : heap
}.

Inductive action :=
  | OpenSock (fd : Z) (userdata : bool)  (* [open_sock_tcp] connected; [lua_newuserdatauv] may raise *)
  | CloseSock (i : nat)                  (* [close_sock], [__close] or [__gc] of a socket *)
  | PcallReturns
  | LuaClosed
  | SweepCell
  | FreeTracker
  | OtherOpens (fd : Z)
  | OtherCloses (fd : Z).

(** The action is not possible here; it reads a cell that is not there; or it
    leads to a state, with the descriptor this invocation closed. *)
Inductive outcome := Disabled | BadAccess | Next (st : invocation) (closed : option Z).

Definition close_fd (fd : option Z) (os : gmap Z bool) : gmap Z bool :=
  match fd with Some fd => delete fd os | None => os end.

(** Code of the plugin runs: under [lua_pcall], and in the [__gc] metamethods,
    which a plugin sets with [setmetatable] ([sandbox.c]) and [lua_close] calls. *)
Definition lua_runs (p : phase) : bool :=
  match p with Running | Closing => true | Sweeping _ | Done => false end.

(** A finalizer of a socket may run in any phase: the guards of [socket_close] are meant to
    hold whatever the order of [lua_close] and the sweep. *)
Definition step (st : invocation) (a : action) : outcome :=
  match a with
  | OpenSock fd userdata =>
      match os st !! fd with
      | None =>
          if negb (lua_runs (at_phase st)) || (fd <? 0) then Disabled else
          let '(idx, tr, h) := tracker_add (open_fds st) fd (inv_heap st) in
          Next (Invocation (<[fd := true]> (os st)) tr
                  (if userdata then socks st ++ [Socket fd idx] else socks st) (at_phase st) h) None
      | Some _ => Disabled
      end
  | CloseSock i =>
      match socks st !! i with
      | None => Disabled
      | Some sock =>
          match socket_close (open_fds st) sock with
          | None => BadAccess
          | Some (tr, sock, closed) =>
              Next (Invocation (close_fd closed (os st)) tr (<[i := sock]> (socks st)) (at_phase st) (inv_heap st)) closed
          end
      end
  | PcallReturns =>
      match at_phase st with
      | Running => Next (Invocation (os st) (open_fds st) (socks st) Closing (inv_heap st)) None
      | _ => Disabled
      end
  | LuaClosed =>
      match at_phase st with
      | Closing => Next (Invocation (os st) (open_fds st) (socks st) (Sweeping 0) (inv_heap st)) None
      | _ => Disabled
      end
  | SweepCell =>
      match at_phase st with
      | Sweeping i =>
          if Nat.leb (count (open_fds st)) i then Disabled else
          match tracker_sweep (open_fds st) i with
          | None => BadAccess
          | Some (tr, closed) =>
              Next (Invocation (close_fd closed (os st)) tr (socks st) (Sweeping (S i)) (inv_heap st)) closed
          end
      | _ => Disabled
      end
  | FreeTracker =>
      match at_phase st with
      | Sweeping i =>
          if Nat.ltb i (count (open_fds st)) then Disabled else
          let '(tr, h) := tracker_free (open_fds st) (inv_heap st) in
          Next (Invocation (os st) tr (socks st) Done h) None
      | _ => Disabled
      end
  | OtherOpens fd =>
      match os st !! fd with
      | None => Next (Invocation (<[fd := false]> (os st)) (open_fds st) (socks st) (at_phase st) (inv_heap st)) None
      | _ => Disabled
      end
  | OtherCloses fd =>
      match os st !! fd with
      | Some false => Next (Invocation (delete fd (os st)) (open_fds st) (socks st) (at_phase st) (inv_heap st)) None
      | _ => Disabled
      end
  end.

(** ** Deadlines ([timeout_clamp.c], [invoke.c]) *)

Definition PLUGIN_MAX_RUNTIME_MS : Z := 15000.

(** [struct timespec] *)
Record timespec := Timespec { tv_sec : Z; tv_nsec : Z }.

(** The deadline of [run]. *)
Definition run_deadline (now : timespec) : timespec :=
  let sec := tv_sec now + PLUGIN_MAX_RUNTIME_MS / 1000 in
  let nsec := tv_nsec now + PLUGIN_MAX_RUNTIME_MS mod 1000 * 1000000 in
  if 1000000000 <=? nsec then Timespec (sec + 1) (nsec - 1000000000) else Timespec sec nsec.

(** [cytadel_plugin_runtime_hook] raises. *)
Definition deadline_passed (deadline : option timespec) (now : timespec) : bool :=
  match deadline with
  | None => false
  | Some d => (tv_sec d <? tv_sec now) || ((tv_sec now =? tv_sec d) && (tv_nsec d <? tv_nsec now))
  end.

(** [cytadel_plugin_clamp_timeout_ms] *)
Definition clamp_timeout_ms (deadline : option timespec) (now : timespec) (timeout_ms : Z) : Z :=
  let timeout_ms := if timeout_ms <? 1 then 1 else timeout_ms in
  let timeout_ms := if PLUGIN_MAX_RUNTIME_MS <? timeout_ms then PLUGIN_MAX_RUNTIME_MS else timeout_ms in
  match deadline with
  | None => timeout_ms
  | Some d =>
      let remaining_ms := (tv_sec d - tv_sec now) * 1000 + Z.quot (tv_nsec d - tv_nsec now) 1000000 in
      let remaining_ms := if remaining_ms <? 1 then 1 else remaining_ms in
      if remaining_ms <? timeout_ms then remaining_ms else timeout_ms
  end.

(** ** The invariant *)

(** A cell that is not closed. *)
Definition open_cell (tr : tracker) (j : nat) (fd : Z) : Prop := fds tr !! j = Some fd /\ 0 <= fd.

Record tracker_ok (tr : tracker) : Prop := {
  ok_cells : freed tr = false -> length (fds tr) = count tr;
  ok_freed : freed tr = true -> fds tr = []
}.

Record inv (h0 : heap) (st : invocation) : Prop := {
  inv_tracker : tracker_ok (open_fds st);
  (** the open cells are descriptors of this invocation, each in one cell *)
  inv_mine : forall j fd, open_cell (open_fds st) j fd -> os st !! fd = Some true;
  inv_inj : forall j j' fd, open_cell (open_fds st) j fd -> open_cell (open_fds st) j' fd -> j = j';
  (** a tracked socket is closed, or its cell holds its descriptor or is closed *)
  inv_tracked : forall i fd j, socks st !! i = Some (Socket fd (Some j)) -> 0 <= fd ->
    (j < count (open_fds st))%nat /\
    (freed (open_fds st) = false -> fds (open_fds st) !! j = Some fd \/ fds (open_fds st) !! j = Some (-1));
  (** an untracked one owns its descriptor alone *)
  inv_untracked : forall i fd, socks st !! i = Some (Socket fd None) -> 0 <= fd ->
    os st !! fd = Some true /\ (forall j, ~ open_cell (open_fds st) j fd) /\
    (forall i', socks st !! i' = Some (Socket fd None) -> i' = i);
  (** the sweep *)
  inv_swept : forall i j fd, at_phase st = Sweeping i -> (j < i)%nat -> ~ open_cell (open_fds st) j fd;
  inv_done : at_phase st = Done <-> freed (open_fds st) = true;
  (** while memory lasts every descriptor is in a cell *)
  inv_memory : false ∉ oracle h0 -> false ∉ oracle (inv_heap st) /\
    (forall fd, os st !! fd = Some true -> exists j, open_cell (open_fds st) j fd) /\
    (forall i fd, socks st !! i = Some (Socket fd None) -> fd < 0)
}.

Lemma tracker_add_spec tr fd h :
  freed tr = false -> tracker_ok tr ->
  let '(idx, tr', h') := tracker_add tr fd h in
  (false ∉ oracle h -> false ∉ oracle h' /\ idx <> None) /\
  match idx with
  | None => tr' = tr
  | Some i => i = count tr /\ fds tr' = fds tr ++ [fd] /\ count tr' = S (count tr) /\ freed tr' = false
  end.
Proof.
  intros Hf Hok. unfold tracker_add. destruct (Nat.eqb (count tr) (capacity tr)); cbn [negb].
  - destruct (realloc (Nat.ltb 0 (capacity tr)) h) as [ok h'] eqn:E. apply realloc_spec in E as (_ & Hfail & Hsub).
    destruct ok; cbn [negb].
    + split; [|done]. intros Ho. split; [|done]. intros Hb. by apply Ho, Hsub.
    + split; [|done]. intros Ho. destruct Ho. by apply Hfail.
  - split; [done|]. done.
Qed.

(** What [socket_close] does to an invocation that satisfies the invariant. *)
Lemma socket_close_spec h0 st i sock :
  inv h0 st -> socks st !! i = Some sock ->
  exists tr' fd' closed, socket_close (open_fds st) sock = Some (tr', Socket fd' (track_idx sock), closed) /\ fd' < 0 /\
    match closed with
    | None => tr' = open_fds st /\ (track_idx sock = None -> sock_fd sock < 0)
    | Some fd => os st !! fd = Some true /\ sock_fd sock = fd /\ 0 <= fd /\
        count tr' = count (open_fds st) /\ freed tr' = freed (open_fds st) /\
        match track_idx sock with
        | None => tr' = open_fds st
        | Some j => open_cell (open_fds st) j fd /\ freed (open_fds st) = false /\ fds tr' = <[j := -1]> (fds (open_fds st))
        end
    end.
Proof.
  intros HI Hs. destruct sock as [fd idx]. unfold socket_close. cbn [sock_fd track_idx].
  destruct (Z.ltb_spec fd 0) as [Hneg|Hpos]; [by exists (open_fds st), fd, None|].
  destruct idx as [j|]; cbn [tracker_is_tracked].
  2: { destruct (inv_untracked _ _ HI i fd Hs Hpos) as (Hm & _). exists (open_fds st), (-1), (Some fd). split_and!; done. }
  destruct (inv_tracked _ _ HI i fd j Hs Hpos) as [Hj Hcell]. apply Nat.ltb_lt in Hj as Hj'. rewrite Hj'.
  unfold tracker_is_closed, tracker_mark_closed. destruct (Nat.leb_spec (count (open_fds st)) j) as [|_]; [lia|].
  rewrite orb_false_r. destruct (freed (open_fds st)) eqn:Ef; [by exists (open_fds st), (-1), None|].
  destruct (Hcell eq_refl) as [Hc|Hc]; rewrite Hc.
  - destruct (Z.ltb_spec fd 0) as [|_]; [lia|].
    assert (Hl : (j < length (fds (open_fds st)))%nat) by (by eapply lookup_lt_Some). apply Nat.ltb_lt in Hl as Hl'. rewrite Hl'.
    eexists _, (-1), (Some fd). split_and!; try done. by apply (inv_mine _ _ HI j).
  - by exists (open_fds st), (-1), None.
Qed.

Lemma open_cell_insert tr tr' j0 :
  fds tr' = <[j0 := -1]> (fds tr) -> forall j fd, open_cell tr' j fd <-> open_cell tr j fd /\ j <> j0.
Proof.
  intros E j fd. unfold open_cell. rewrite E. destruct (decide (j = j0)) as [->|Hne].
  - split; [|by intros [_ ?]]. intros [H H0]. destruct (decide (j0 < length (fds tr))%nat).
    + rewrite list_lookup_insert_eq in H by done. injection H as <-. lia.
    + rewrite list_insert_ge, lookup_ge_None_2 in H by lia. done.
  - rewrite list_lookup_insert_ne by done. tauto.
Qed.

(** Closing the descriptor of one cell. *)
Lemma inv_close_cell h0 st tr' j0 fd0 socks' ph :
  inv h0 st -> open_cell (open_fds st) j0 fd0 -> freed (open_fds st) = false ->
  fds tr' = <[j0 := -1]> (fds (open_fds st)) -> count tr' = count (open_fds st) -> freed tr' = false ->
  (forall i s, socks' !! i = Some s -> socks st !! i = Some s \/ sock_fd s < 0) ->
  (ph = at_phase st \/ (at_phase st = Sweeping j0 /\ ph = Sweeping (S j0))) ->
  inv h0 (Invocation (delete fd0 (os st)) tr' socks' ph (inv_heap st)).
Proof.
  intros HI Hc Hf E Ecount Ef Hsocks Hph. pose proof (open_cell_insert _ _ _ E) as Hcells.
  split; cbn [os open_fds socks at_phase inv_heap].
  - split; [|by rewrite Ef]. intros _. rewrite E, length_insert, Ecount. by apply (ok_cells _ (inv_tracker _ _ HI)).
  - intros j fd [Hj Hne]%Hcells. rewrite lookup_delete_ne; [by apply (inv_mine _ _ HI j)|]. intros <-. apply Hne. by eapply (inv_inj _ _ HI).
  - intros j j' fd [Hj _]%Hcells [Hj' _]%Hcells. by eapply (inv_inj _ _ HI).
  - intros i fd j Hs Hfd. destruct (Hsocks i _ Hs) as [Hs'|Hn]; [|cbn in Hn; lia].
    destruct (inv_tracked _ _ HI i fd j Hs' Hfd) as [H1 H2]. rewrite Ecount, E. split; [done|]. intros _.
    destruct (decide (j = j0)) as [->|Hne]; [|rewrite list_lookup_insert_ne by done; auto].
    right. apply list_lookup_insert_eq. destruct Hc as [Hc _]. by eapply lookup_lt_Some.
  - intros i fd Hs Hfd. destruct (Hsocks i _ Hs) as [Hs'|Hn]; [|cbn in Hn; lia].
    destruct (inv_untracked _ _ HI i fd Hs' Hfd) as (H1 & H2 & H3). split_and!.
    + rewrite lookup_delete_ne; [done|]. intros <-. by apply (H2 j0).
    + intros j [Hj _]%Hcells. by apply (H2 j).
    + intros i' Hs''. destruct (Hsocks i' _ Hs'') as [?|Hn]; [by apply H3|cbn in Hn; lia].
  - intros i j fd Hp Hlt [Hj Hne]%Hcells. destruct Hph as [->|[Hp' ->]]; [by apply (inv_swept _ _ HI i j fd)|].
    injection Hp as <-. apply (inv_swept _ _ HI j0 j fd Hp'); [lia|done].
  - rewrite Ef. destruct (inv_done _ _ HI) as [H1 H2]. split; [|done]. intros Hp.
    destruct Hph as [->|[_ ->]]; [|done]. specialize (H1 Hp). congruence.
  - intros Ho. destruct (inv_memory _ _ HI Ho) as (H1 & H2 & H3). split_and!; [done| |].
    + intros fd [Hne Hm]%lookup_delete_Some. destruct (H2 fd Hm) as [j Hj]. exists j. apply Hcells. split; [done|].
      intros ->. apply Hne. destruct Hc as [Hc _], Hj as [Hj _]. congruence.
    + intros i fd Hs. destruct (Hsocks i _ Hs) as [Hs'|Hn]; [by apply (H3 i)|done].
Qed.

Lemma lookup_insert_sock (socks : list socket) (i : nat) s s0 i' s' :
  socks !! i = Some s0 -> <[i := s]> socks !! i' = Some s' -> (i' = i /\ s' = s) \/ (i' <> i /\ socks !! i' = Some s').
Proof.
  intros Hi H. destruct (decide (i' = i)) as [->|Hne]; [left|right].
  - rewrite list_lookup_insert_eq in H by (by eapply lookup_lt_Some). by injection H as <-.
  - by rewrite list_lookup_insert_ne in H.
Qed.

(** A socket that only forgets its descriptor. *)
Lemma inv_forget h0 st i sock fd' :
  inv h0 st -> socks st !! i = Some sock -> fd' < 0 -> (track_idx sock = None -> sock_fd sock < 0) ->
  inv h0 (Invocation (os st) (open_fds st) (<[i := Socket fd' (track_idx sock)]> (socks st)) (at_phase st) (inv_heap st)).
Proof.
  intros HI Hi Hn Hu. destruct HI as [H1 H2 H3 H4 H5 H6 H7 H8]. split; cbn [os open_fds socks at_phase inv_heap]; try done.
  - intros i' fd j Hs Hfd. destruct (lookup_insert_sock _ _ _ _ _ _ Hi Hs) as [[_ [= -> _]]|[_ Hs']]; [lia|by apply (H4 i')].
  - intros i' fd Hs Hfd. destruct (lookup_insert_sock _ _ _ _ _ _ Hi Hs) as [[_ [= -> _]]|[_ Hs']]; [lia|].
    destruct (H5 i' fd Hs' Hfd) as (? & ? & Huniq). split_and!; [done|done|]. intros i2 Hs2.
    destruct (lookup_insert_sock _ _ _ _ _ _ Hi Hs2) as [[_ [= -> _]]|[_ Hs2']]; [lia|by apply Huniq].
  - intros Ho. destruct (H8 Ho) as (? & ? & Hall). split_and!; [done|done|]. intros i' fd Hs.
    destruct (lookup_insert_sock _ _ _ _ _ _ Hi Hs) as [[_ [= -> _]]|[_ Hs']]; [done|by apply (Hall i')].
Qed.

(** Closing the descriptor of an untracked socket. *)
Lemma inv_close_untracked h0 st i fd fd' :
  inv h0 st -> socks st !! i = Some (Socket fd None) -> 0 <= fd -> fd' < 0 ->
  inv h0 (Invocation (delete fd (os st)) (open_fds st) (<[i := Socket fd' None]> (socks st)) (at_phase st) (inv_heap st)).
Proof.
  intros HI Hi Hpos Hn. destruct (inv_untracked _ _ HI i fd Hi Hpos) as (Hm & Hcell & Huniq).
  destruct HI as [H1 H2 H3 H4 H5 H6 H7 H8]. split; cbn [os open_fds socks at_phase inv_heap]; try done.
  - intros j f Hj. rewrite lookup_delete_ne; [by apply (H2 j)|]. intros <-. by apply (Hcell j).
  - intros i' f j Hs Hf. destruct (lookup_insert_sock _ _ _ _ _ _ Hi Hs) as [[_ [=]]|[_ Hs']]; by apply (H4 i').
  - intros i' f Hs Hf. destruct (lookup_insert_sock _ _ _ _ _ _ Hi Hs) as [[_ [= ->]]|[Hne Hs']]; [lia|].
    destruct (H5 i' f Hs' Hf) as (Hm' & Hc' & Hu'). split_and!; [|done|].
    + rewrite lookup_delete_ne; [done|]. intros <-. by apply Hne, Huniq.
    + intros i2 Hs2. destruct (lookup_insert_sock _ _ _ _ _ _ Hi Hs2) as [[_ [= ->]]|[_ Hs2']]; [lia|by apply Hu'].
  - intros Ho. destruct (H8 Ho) as (? & Hall & Hnone). split_and!; [done| |].
    + intros f [_ Hf]%lookup_delete_Some. by apply Hall.
    + intros i' f Hs. destruct (lookup_insert_sock _ _ _ _ _ _ Hi Hs) as [[_ [= ->]]|[_ Hs']]; [done|by apply (Hnone i')].
Qed.

(** What holds after an action. *)
Definition action_ok (h0 : heap) (st : invocation) (a : action) : Prop :=
  match step st a with
  | Disabled => True
  | BadAccess => False
  | Next st' closed => inv h0 st' /\ (forall fd, closed = Some fd -> os st !! fd = Some true)
  end.

Lemma inv_close_sock h0 st i : inv h0 st -> action_ok h0 st (CloseSock i).
Proof.
  intros HI. unfold action_ok. cbn [step]. destruct (socks st !! i) as [sock|] eqn:Hs; [|done].
  destruct (socket_close_spec h0 st i sock HI Hs) as (tr' & fd' & closed & -> & Hneg & Hc). destruct closed as [fd|].
  2: { destruct Hc as [-> Hidx]. split; [|done]. by apply inv_forget. }
  destruct Hc as (Hm & Hfd & Hpos & Ecount & Ef & Hidx). split; [|by intros ? [= <-]]. cbn [close_fd].
  destruct sock as [f idx]. cbn in Hfd. subst f. cbn [track_idx sock_fd] in *. destruct idx as [j|].
  - destruct Hidx as (Hc & Hfr & E). rewrite Hfr in Ef. eapply inv_close_cell; try done; [|by left].
    intros i' s' Hs'. destruct (lookup_insert_sock _ _ _ _ _ _ Hs Hs') as [[-> ->]|[_ ?]]; [by right|by left].
  - subst tr'. by eapply inv_close_untracked.
Qed.

Lemma inv_sweep h0 st : inv h0 st -> action_ok h0 st SweepCell.
Proof.
  intros HI. unfold action_ok. cbn [step]. destruct (at_phase st) as [| |i|] eqn:Hp; try done.
  destruct (Nat.leb_spec (count (open_fds st)) i) as [|Hlt]; [done|].
  assert (Hf : freed (open_fds st) = false).
  { destruct (freed (open_fds st)) eqn:Ef; [|done]. apply (inv_done _ _ HI) in Ef. congruence. }
  pose proof (ok_cells _ (inv_tracker _ _ HI) Hf) as Hl. unfold tracker_sweep.
  destruct (lookup_lt_is_Some_2 (fds (open_fds st)) i) as [fd Hfd]; [lia|]. rewrite Hfd.
  destruct (Z.leb_spec 0 fd) as [Hpos|Hneg].
  - assert (Hc : open_cell (open_fds st) i fd) by done.
    split; [|intros ? [= <-]; by apply (inv_mine _ _ HI i)]. cbn [close_fd].
    eapply inv_close_cell; try done; [by left|by right].
  - split; [|done]. cbn [close_fd]. destruct HI as [H1 H2 H3 H4 H5 H6 H7 H8]. split; cbn [os open_fds socks at_phase inv_heap]; try done.
    + intros i' j f [= <-] Hlt' [Hj Hf0]. destruct (decide (j = i)) as [->|Hne]; [rewrite Hfd in Hj; injection Hj as <-; lia|].
      apply (H6 i j f Hp); [lia|done].
    + rewrite <- H7, Hp. done.
Qed.

Lemma inv_free h0 st : inv h0 st -> action_ok h0 st FreeTracker.
Proof.
  intros HI. unfold action_ok. cbn [step]. destruct (at_phase st) as [| |i|] eqn:Hp; try done.
  destruct (Nat.ltb_spec i (count (open_fds st))) as [|Hge]; [done|]. cbn [tracker_free]. split; [|done].
  assert (Hf : freed (open_fds st) = false).
  { destruct (freed (open_fds st)) eqn:Ef; [|done]. apply (inv_done _ _ HI) in Ef. congruence. }
  pose proof (ok_cells _ (inv_tracker _ _ HI) Hf) as Hl.
  assert (Hno : forall j fd, ~ open_cell (open_fds st) j fd).
  { intros j fd Hc. apply (inv_swept _ _ HI i j fd Hp); [|done]. destruct Hc as [Hc _]. apply lookup_lt_Some in Hc. lia. }
  destruct HI as [H1 H2 H3 H4 H5 H6 H7 H8]. split; cbn [os open_fds socks at_phase inv_heap fds count freed tracker_free fst snd].
  - by split.
  - intros j fd [Hj _]. done.
  - intros j j' fd [Hj _]. done.
  - intros i' fd j Hs Hfd. split; [|done]. by apply (H4 i' fd j).
  - intros i' fd Hs Hfd. destruct (H5 i' fd Hs Hfd) as (? & _ & ?). split_and!; [done|by intros j [Hj _]|done].
  - done.
  - done.
  - intros Ho. destruct (H8 Ho) as (Ho' & Hall & Hnone). split_and!; [by destruct (Nat.ltb _ _)| |done].
    intros fd Hm. destruct (Hall fd Hm) as [j Hj]. by destruct (Hno j fd).
Qed.

(** A number that was free is in no cell and in no untracked socket. *)
Lemma fresh_fd h0 st fd :
  inv h0 st -> os st !! fd = None ->
  (forall j, ~ open_cell (open_fds st) j fd) /\ (forall i, socks st !! i = Some (Socket fd None) -> fd < 0).
Proof.
  intros HI Hn. split.
  - intros j Hc%(inv_mine _ _ HI). congruence.
  - intros i Hs. destruct (Z.ltb_spec fd 0) as [|Hpos]; [done|]. destruct (inv_untracked _ _ HI i fd Hs Hpos) as [Hm _]. congruence.
Qed.

Lemma inv_environment h0 st os' :
  inv h0 st -> (forall fd, os' !! fd = Some true <-> os st !! fd = Some true) ->
  inv h0 (Invocation os' (open_fds st) (socks st) (at_phase st) (inv_heap st)).
Proof.
  intros [H1 H2 H3 H4 H5 H6 H7 H8] Hos. split; cbn [os open_fds socks at_phase inv_heap]; try done.
  - intros j fd Hj. apply Hos. by apply (H2 j).
  - intros i fd Hs Hfd. destruct (H5 i fd Hs Hfd) as (? & ? & ?). split_and!; [by apply Hos|done|done].
  - intros Ho. destruct (H8 Ho) as (? & Hall & ?). split_and!; [done| |done]. intros fd Hm%Hos. by apply Hall.
Qed.

Lemma inv_phase h0 st ph :
  inv h0 st -> at_phase st <> Done -> (ph = Closing \/ ph = Sweeping 0) ->
  inv h0 (Invocation (os st) (open_fds st) (socks st) ph (inv_heap st)).
Proof.
  intros [H1 H2 H3 H4 H5 H6 H7 H8] Hd Hph. split; cbn [os open_fds socks at_phase inv_heap]; try done.
  - intros i j fd Hp Hlt. destruct Hph as [->| ->]; [done|]. injection Hp as <-. lia.
  - split; [by destruct Hph as [->| ->]|]. intros Hf%H7. done.
Qed.

Lemma inv_open h0 st fd userdata : inv h0 st -> action_ok h0 st (OpenSock fd userdata).
Proof.
  intros HI. unfold action_ok. cbn [step]. destruct (os st !! fd) eqn:Hn; [done|]. destruct (lua_runs (at_phase st)) eqn:Hp; cbn [negb orb]; [|done].
  destruct (Z.ltb_spec fd 0) as [|Hpos]; [done|].
  assert (Hf : freed (open_fds st) = false).
  { destruct (freed (open_fds st)) eqn:Ef; [|done]. apply (inv_done _ _ HI) in Ef. by rewrite Ef in Hp. }
  destruct (fresh_fd _ _ _ HI Hn) as [Hcell Hsock].
  pose proof (tracker_add_spec (open_fds st) fd (inv_heap st) Hf (inv_tracker _ _ HI)) as HA.
  pose proof (ok_cells _ (inv_tracker _ _ HI) Hf) as Hl.
  destruct (tracker_add _ fd _) as [[idx tr'] h']. destruct HA as [Ho HA]. split; [|done].
  assert (Hsocks : forall i s, (if userdata then socks st ++ [Socket fd idx] else socks st) !! i = Some s ->
    socks st !! i = Some s \/ (s = Socket fd idx /\ i = length (socks st))).
  { intros i s. destruct userdata; [|auto]. intros [H|[Hi H]]%lookup_app_Some; [by left|right].
    apply list_lookup_singleton_Some in H as [Hi' <-]. split; [done|lia]. }
  assert (Hold : forall j f, (j < count (open_fds st))%nat -> fds (open_fds st) !! j = Some f -> fds tr' !! j = Some f).
  { intros j f Hj Hlk. destruct idx as [i|]; [|by rewrite HA]. destruct HA as (-> & -> & _). by rewrite lookup_app_l by lia. }
  assert (Hnew : forall j f, open_cell tr' j f -> open_cell (open_fds st) j f \/ (f = fd /\ idx = Some j /\ j = count (open_fds st))).
  { intros j f [Hlk Hf0]. destruct idx as [i|]; [|left; by rewrite HA in Hlk]. destruct HA as (-> & E & _). rewrite E in Hlk.
    apply lookup_app_Some in Hlk as [Hlk|[Hge Hlk]]; [by left|right]. apply list_lookup_singleton_Some in Hlk as [Hi <-].
    split_and!; [done|f_equal; lia|lia]. }
  assert (Hcount : (count (open_fds st) <= count tr')%nat /\ freed tr' = false /\ length (fds tr') = count tr').
  { destruct idx as [i|]; [|by subst tr']. destruct HA as (_ & E & -> & ->). rewrite E, length_app. cbn. split_and!; [lia|done|lia]. }
  destruct Hcount as (Hcount & Hf' & Hl'). destruct HI as [H1 H2 H3 H4 H5 H6 H7 H8].
  split; cbn [os open_fds socks at_phase inv_heap].
  - split; [done|congruence].
  - intros j f [Hc|(-> & _)]%Hnew; [|apply lookup_insert_eq]. rewrite lookup_insert_ne; [by apply (H2 j)|]. intros <-. by apply (Hcell j).
  - intros j j' f [Hc|(-> & E1 & ->)]%Hnew [Hc'|(E & E2 & ->)]%Hnew; [by eapply H3| | |done].
    + subst f. by destruct (Hcell j).
    + by destruct (Hcell j').
  - intros i f j [Hs|[[= <- <-] _]]%Hsocks Hf0.
    + destruct (H4 i f j Hs Hf0) as [Hj Hor]. split; [lia|]. intros _.
      destruct (Hor Hf) as [Hlk|Hlk]; [left|right]; by apply Hold.
    + destruct HA as (-> & E & -> & _). split; [lia|]. intros _. left. rewrite E, list_lookup_middle; [done|lia].
  - intros i f [Hs|[[= <- <-] ->]]%Hsocks Hf0.
    + destruct (H5 i f Hs Hf0) as (Hm & Hc & Hu). assert (f <> fd) by congruence. split_and!.
      * by rewrite lookup_insert_ne.
      * intros j Hc'. apply Hnew in Hc' as [Hc'|(E & _)]; [by apply (Hc j)|done].
      * intros i' Hs'. apply Hsocks in Hs' as [Hs'|[[= E _] _]]; [by apply Hu|done].
    + split_and!.
      * apply lookup_insert_eq.
      * intros j Hc. rewrite HA in Hc. by apply (Hcell j).
      * intros i' [Hs'|[_ ->]]%Hsocks; [|done]. specialize (Hsock i' Hs'). lia.
  - intros i j f Hs. by rewrite Hs in Hp.
  - rewrite Hf'. split; [|done]. intros Hd. by rewrite Hd in Hp.
  - intros Hh. destruct (H8 Hh) as (Hh1 & Hall & Hnone). destruct (Ho Hh1) as [Hh' Hidx]. destruct idx as [i0|]; [|done].
    destruct HA as (-> & E & _). split_and!; [done| |].
    + intros f Hm. destruct (decide (f = fd)) as [->|Hne].
      * exists (count (open_fds st)). split; [|done]. rewrite E, list_lookup_middle; [done|lia].
      * rewrite lookup_insert_ne in Hm by done. destruct (Hall f Hm) as [j [Hj Hf0]]. exists j. split; [|done].
        apply Hold; [|done]. apply lookup_lt_Some in Hj. lia.
    + intros i f Hs. apply Hsocks in Hs as [Hs|[[=] _]]. by apply (Hnone i).
Qed.

Lemma inv_action h0 st a : inv h0 st -> action_ok h0 st a.
Proof.
  intros HI. destruct a as [fd userdata|i| | | | |fd|fd];
    [by apply inv_open|by apply inv_close_sock| | |by apply inv_sweep|by apply inv_free| |]; unfold action_ok; cbn [step].
  - destruct (at_phase st) eqn:Hp; try done. split; [|done]. apply inv_phase; [done|congruence|by left].
  - destruct (at_phase st) eqn:Hp; try done. split; [|done]. apply inv_phase; [done|congruence|by right].
  - destruct (os st !! fd) eqn:E; [done|]. split; [|done]. apply inv_environment; [done|]. intros f.
    rewrite lookup_insert_Some. split; [intros [[_ [=]]|[_ ?]]; done|]. intros Hm. right. split; [|done]. intros ->. congruence.
  - destruct (os st !! fd) as [[]|] eqn:E; try done. split; [|done]. apply inv_environment; [done|]. intros f.
    rewrite lookup_delete_Some. split; [by intros [_ ?]|]. intros Hm. split; [|done]. intros ->. congruence.
Qed.

(** ** Runs of an invocation *)

(** An invocation starts with an empty tracker; every open descriptor is another's. *)
Definition start (os : gset Z) (h : heap) : invocation := Invocation (gset_to_gmap false os) new_tracker [] Running h.

(** The actions that happen, skipping those that cannot; [None] on a bad
    access.  With the descriptors this invocation closes, each with the owner
    the table had for it. *)
Fixpoint run (st : invocation) (acts : list action) : option (invocation * list (Z * option bool)) :=
  match acts with
  | [] => Some (st, [])
  | a :: acts =>
      match step st a with
      | Disabled => run st acts
      | BadAccess => None
      | Next st' closed =>
          match run st' acts with
          | None => None
          | Some (st'', log) => Some (st'', map (fun fd => (fd, os st !! fd)) (option_list closed) ++ log)
          end
      end
  end.

Lemma host_inv os h : inv h (start os h).
Proof.
  assert (Hno : forall j fd, ~ open_cell new_tracker j fd) by (by intros j fd [Hj _]).
  split; cbn [start Sockets.os open_fds socks at_phase inv_heap].
  - by split.
  - intros j fd Hc. by destruct (Hno j fd).
  - intros j j' fd Hc. by destruct (Hno j fd).
  - done.
  - done.
  - done.
  - done.
  - intros Ho. split_and!; [done| |done]. intros fd Hm. by apply lookup_gset_to_gmap_Some in Hm as [_ [=]].
Qed.

Lemma script_inv h0 acts st :
  inv h0 st -> exists st' log, run st acts = Some (st', log) /\ inv h0 st' /\ Forall (fun e => snd e = Some true) log.
Proof.
  revert st; induction acts as [|a acts IH]; intros st HI; cbn [run]; [by exists st, []|].
  pose proof (inv_action h0 st a HI) as Ha. unfold action_ok in Ha. destruct (step st a) as [| |st1 closed]; [by apply IH|done|].
  destruct Ha as [HI1 Hc]. destruct (IH st1 HI1) as (st' & log & -> & HI' & Hlog).
  eexists _, _. split; [done|]. split; [done|]. apply Forall_app. split; [|done].
  destruct closed as [fd|]; cbn; [|constructor]. constructor; [by apply Hc|constructor].
Qed.

(** C25: Whatever a plugin does, while its functions run or in a finalizer that
    [lua_close] calls, whatever the garbage collector and the other threads do,
    and in whatever order finalizers and the sweep run: no cell of the tracker
    is read that is not there; every descriptor the invocation closes is one it
    has opened and not yet closed, so never one that another thread has been
    given; and when the tracker is freed none of its descriptors is open any
    more, unless an allocation failed. *)
Theorem invocation_closes_its_own os h acts :
  exists st log, run (start os h) acts = Some (st, log) /\
    Forall (fun e => snd e = Some true) log /\
    (at_phase st = Done -> false ∉ oracle h -> forall fd, Sockets.os st !! fd <> Some true).
Proof.
  destruct (script_inv h acts (start os h) (host_inv os h)) as (st & log & E & HI & Hlog).
  exists st, log. split_and!; [done|done|]. intros Hd Ho fd Hm.
  destruct (inv_memory _ _ HI Ho) as (_ & Hall & _). destruct (Hall fd Hm) as [j [Hj _]].
  apply (inv_done _ _ HI) in Hd. rewrite (ok_freed _ (inv_tracker _ _ HI) Hd) in Hj. done.
Qed.

(** The sweep of [force_close_all] is the [SweepCell] actions. *)
Example sweep_closes_the_rest :
  tracker_force_close_all (Tracker [5; -1; 7] 3 8 false) = Some (Tracker [-1; -1; -1] 3 8 false, [5; 7]).
Proof. reflexivity. Qed.

(** With the sweep before the finalizers, 5 goes to another thread in between:
    the late finalizer closes nothing. *)
Example late_finalizer :
  run (start ∅ (Heap [] 0))
    [OpenSock 5 true; PcallReturns; LuaClosed; SweepCell; OtherOpens 5; FreeTracker; CloseSock 0]
  = Some (Invocation {[5 := false]} (Tracker [] 1 0 true) [Socket (-1) (Some 0%nat)] Done (Heap [] 0), [(5, Some true)]).
Proof. vm_compute. reflexivity. Qed.

(** A finalizer that [lua_close] calls opens a socket: the sweep closes it. *)
Example opened_while_closing :
  run (start ∅ (Heap [] 0)) [OpenSock 5 true; PcallReturns; OpenSock 6 true; CloseSock 0; LuaClosed; OpenSock 7 true; SweepCell; SweepCell; FreeTracker]
  = Some (Invocation ∅ (Tracker [] 2 0 true) [Socket (-1) (Some 0%nat); Socket 6 (Some 1%nat)] Done (Heap [] 0), [(5, Some true); (6, Some true)]).
Proof. vm_compute. reflexivity. Qed.

(** A descriptor that neither the tracker (its array does not grow) nor a
    userdata (Lua is out of memory too) takes is never closed. *)
Example lost_descriptor :
  run (start ∅ (Heap [false] 0)) [OpenSock 5 false; PcallReturns; LuaClosed; FreeTracker]
  = Some (Invocation {[5 := true]} (Tracker [] 0 0 true) [] Done (Heap [] 0), []).
Proof. vm_compute. reflexivity. Qed.

Lemma invocation_closes_its_own_witness :
  exists st log, run (start {[3]} (Heap [] 0))
      [OpenSock 4 true; OpenSock 5 true; CloseSock 0; OtherOpens 4; OpenSock 6 false; PcallReturns; CloseSock 1; OpenSock 7 true; LuaClosed;
       SweepCell; SweepCell; SweepCell; SweepCell; FreeTracker] = Some (st, log) /\
    map fst log = [4; 5; 6; 7] /\ at_phase st = Done /\ (forall fd, Sockets.os st !! fd <> Some true).
Proof.
  destruct (invocation_closes_its_own {[3]} (Heap [] 0)
    [OpenSock 4 true; OpenSock 5 true; CloseSock 0; OtherOpens 4; OpenSock 6 false; PcallReturns; CloseSock 1; OpenSock 7 true; LuaClosed;
     SweepCell; SweepCell; SweepCell; SweepCell; FreeTracker]) as (st & log & E & _ & Hno).
  assert (Hv : option_map (fun r => (map fst (snd r), at_phase (fst r))) (run (start {[3]} (Heap [] 0))
    [OpenSock 4 true; OpenSock 5 true; CloseSock 0; OtherOpens 4; OpenSock 6 false; PcallReturns; CloseSock 1; OpenSock 7 true; LuaClosed;
     SweepCell; SweepCell; SweepCell; SweepCell; FreeTracker]) = Some ([4; 5; 6; 7], Done)) by (vm_compute; reflexivity).
  rewrite E in Hv. injection Hv as Hlog Hp. exists st, log. split_and!; [exact E|exact Hlog|exact Hp|].
  apply Hno; [exact Hp|apply not_elem_of_nil].
Defined.

(** ** Deadlines *)

(** A clock reading. *)
Definition timespec_ok (t : timespec) : Prop := 0 <= tv_nsec t < 1000000000.

Definition nanoseconds (t : timespec) : Z := tv_sec t * 1000000000 + tv_nsec t.

(** A blocking call of a plugin.  The deadline of [run] is 15 s away; the
    hook raises exactly when it has passed; a clamped timeout is between 1 ms
    and 15 s, never the zero [timeval] that means no timeout, and a call that
    starts before the deadline and waits for it ends less than 1 ms after. *)
Theorem clamped_timeout_ends start_time now timeout_ms :
  timespec_ok start_time -> timespec_ok now ->
  let deadline := run_deadline start_time in
  let t := clamp_timeout_ms (Some deadline) now timeout_ms in
  timespec_ok deadline /\ nanoseconds deadline = nanoseconds start_time + 15000000000 /\
  (deadline_passed (Some deadline) now = true <-> nanoseconds deadline < nanoseconds now) /\
  1 <= t <= 15000 /\ timeval_of t <> (0, 0) /\ fst (timeval_of t) * 1000000 + snd (timeval_of t) = t * 1000 /\
  (timeout_ms <= t \/ t = 15000 \/ nanoseconds deadline - nanoseconds now < (t + 1) * 1000000) /\
  (nanoseconds now < nanoseconds deadline -> nanoseconds now + t * 1000000 < nanoseconds deadline + 1000000).
Proof.
  intros Hs Hn. destruct start_time as [s ns], now as [n nn]. unfold timespec_ok, nanoseconds in *. cbn [tv_sec tv_nsec] in *.
  unfold run_deadline, PLUGIN_MAX_RUNTIME_MS. cbn [tv_sec tv_nsec]. change (15000 / 1000) with 15. change (15000 mod 1000 * 1000000) with 0.
  destruct (Z.leb_spec 1000000000 (ns + 0)); [lia|]. cbv zeta. cbn [tv_sec tv_nsec].
  set (t := clamp_timeout_ms (Some (Timespec (s + 15) (ns + 0))) (Timespec n nn) timeout_ms).
  assert (Ht : 1 <= t <= 15000 /\ (timeout_ms <= t \/ t = 15000 \/ t = Z.max 1 ((s + 15 - n) * 1000 + Z.quot (ns + 0 - nn) 1000000)) /\
     (t <= Z.max 1 ((s + 15 - n) * 1000 + Z.quot (ns + 0 - nn) 1000000))).
  { unfold t, clamp_timeout_ms, PLUGIN_MAX_RUNTIME_MS. cbn [tv_sec tv_nsec]. set (q := Z.quot _ _).
    destruct (Z.ltb_spec timeout_ms 1); [|destruct (Z.ltb_spec 15000 timeout_ms)]; cbn [Z.ltb Z.compare Pos.compare Pos.compare_cont];
      destruct (Z.ltb_spec ((s + 15 - n) * 1000 + q) 1);
      match goal with |- context [if ?a <? ?b then _ else _] => destruct (Z.ltb_spec a b) end; lia. }
  destruct Ht as (Ht & Hwhy & Hrem).
  pose proof (Z.quot_rem' (ns + 0 - nn) 1000000) as Hq.
  assert (Hr : -1000000 < Z.rem (ns + 0 - nn) 1000000 < 1000000) by (pose proof (Z.rem_bound_abs (ns + 0 - nn) 1000000); lia).
  split; [lia|]. split; [lia|]. split.
  { unfold deadline_passed. cbn [tv_sec tv_nsec]. rewrite orb_true_iff, andb_true_iff, !Z.ltb_lt, Z.eqb_eq. lia. }
  pose proof (Z.quot_rem' t 1000) as Hqt. unfold timeval_of. cbn [fst snd]. split_and!; try lia. intros [= E1 E2]. lia.
Qed.

Lemma clamped_timeout_ends_witness :
  clamp_timeout_ms (Some (run_deadline (Timespec 100 999999999))) (Timespec 115 0) 5000 = 999 /\
  115 * 1000000000 + 999 * 1000000 < 115 * 1000000000 + 999999999 + 1000000.
Proof.
  pose proof (clamped_timeout_ends (Timespec 100 999999999) (Timespec 115 0) 5000) as H.
  destruct H as (_ & _ & _ & _ & _ & _ & _ & H); [split; vm_compute; congruence|split; vm_compute; congruence|].
  split; [reflexivity|]. apply H. vm_compute. reflexivity.
Defined.
