(* ===== verification/PluginNet.v ===== *)
(** * The socket functions of a plugin ([src/src/plugin/api_socket.c])

    [open_sock_tcp], [send] and [recv] over the streams of [Streams]; who
    closes a descriptor is in [Sockets].  Lua's arguments are values; that it has
    memory for a result is an argument; what [lua_tolstring] makes of a number and the texts of [strerror] are
    parameters. *)

From S2P Require Import Prelude Cidr LuaFields Streams Sockets.

(** What a C function gives to Lua: an error, [nil] with a text, or a value. *)
Inductive lua_result (A : Type) := Raised | NilErr (err : bytes) | Value (a : A).
Arguments Raised {A}.
Arguments NilErr {A} err.
Arguments Value {A} a.

(** The [cytadel_plugin_ctx_t] and the deadline of the run. *)
Record plugin_ctx := PluginCtx { ctx_ip : bytes; ctx_deadline : option timespec; ctx_now : timespec }.

(** [snprintf(err_buf, err_buf_len, "%s", text)] *)
Definition fit (n : nat) (text : bytes) : bytes := take (n - 1) (c_string text).

Section Functions.
Variable string_to_integer : bytes -> option Z.
Variable number_to_string : lua_value -> bytes.
(** [cytadel_strerror_safe] *)
Variable strerror : errno -> bytes.

(** [luaL_optinteger]: [None] raises. *)
Definition opt_integer (v : lua_value) (d : Z) : option Z :=
  match v with LNil => Some d | _ => to_integer string_to_integer v end.

(** [luaL_checklstring]: a number is converted. *)
Definition check_string (v : lua_value) : option bytes :=
  match v with
  | LString s => Some s
  | LInteger _ | LFloat _ => Some (number_to_string v)
  | _ => None
  end.

(** [nil] and a text; [pushed] is whether [lua_pushstring] found the memory for
    it, which it raises without. *)
Definition push_nil_err {A} (pushed : bool) (err : bytes) : lua_result A := if pushed then NilErr err else Raised.

(** [cytadel_plugin_raw_tcp_connect]: the timeouts of the connected socket, or
    the text; and the address and port [connect] was called with, if it was. *)
Definition plugin_raw_tcp_connect (ip : bytes) (port timeout_ms : Z) (a : attempt) (err_buf_len : nat) (hd : handles) :
    (Z * Z + bytes) * option (Z * Z) * handles :=
  let fail text dialed hd := (inr (fit err_buf_len text), dialed, hd) in
  let timeout_ms := if timeout_ms <? 1 then 1 else timeout_ms in
  match a_socket a with
  | Some e => fail (strerror e) None hd
  | None =>
      let hd := fd_opened hd in
      if negb (a_nonblocking a) then fail (bs "socket setup failed") None (fd_closed hd) else
      match inet_pton ip with
      | None => fail (bs "invalid IPv4 address") None (fd_closed hd)
      | Some addr =>
          let dialed := Some (addr, port) in
          match a_connect a with
          | None => (inl (timeval_of timeout_ms), dialed, hd)
          | Some e =>
              if e =? EINPROGRESS then
                if a_poll a =? 0 then fail (bs "timeout") dialed (fd_closed hd) else
                if a_poll a <? 0 then fail (bs "poll failed") dialed (fd_closed hd) else
                match a_so_error a with
                | None => fail (bs "getsockopt failed") dialed (fd_closed hd)
                | Some None => (inl (timeval_of timeout_ms), dialed, hd)
                | Some (Some so_error) =>
                    if so_error =? ECONNREFUSED then fail (bs "refused") dialed (fd_closed hd) else
                    if (so_error =? EHOSTUNREACH) || (so_error =? ENETUNREACH) then fail (bs "unreachable") dialed (fd_closed hd)
                    else fail (strerror so_error) dialed (fd_closed hd)
                end
              else if e =? ECONNREFUSED then fail (bs "refused") dialed (fd_closed hd)
              else if (e =? EHOSTUNREACH) || (e =? ENETUNREACH) then fail (bs "unreachable") dialed (fd_closed hd)
              else fail (strerror e) dialed (fd_closed hd)
          end
      end
  end.

(** [cytadel_plugin_api_open_sock_tcp]: [fd] is the number [socket] answers;
    [userdata] is whether [lua_newuserdatauv] succeeds.  With what was dialed. *)
Definition api_open_sock_tcp (ctx : plugin_ctx) (port timeout : lua_value) (a : attempt) (fd : Z) (userdata pushed : bool)
    (tr : tracker) (hd : handles) (h : heap) : lua_result (socket * (Z * Z)) * option (Z * Z) * tracker * handles * heap :=
  match to_integer string_to_integer port, opt_integer timeout 5000 with
  | Some port, Some timeout_ms =>
      let timeout_ms := clamp_timeout_ms (ctx_deadline ctx) (ctx_now ctx) timeout_ms in
      if (port <? 1) || (65535 <? port) then (Raised, None, tr, hd, h) else
      match plugin_raw_tcp_connect (ctx_ip ctx) port timeout_ms a 64 hd with
      | (inr err, dialed, hd) => (push_nil_err pushed err, dialed, tr, hd, h)
      | (inl tv, dialed, hd) =>
          let '(idx, tr, h) := tracker_add tr fd h in
          if negb userdata then (Raised, dialed, tr, hd, h) else (Value (Socket fd idx, tv), dialed, tr, hd, h)
      end
  | _, _ => (Raised, None, tr, hd, h)
  end.

(** What [send] answers for the call its loop stopped at. *)
Definition send_error (r : reply) : bytes :=
  match r with
  | Moved _ => bs "closed"
  | Refused e =>
      if (e =? EPIPE) || (e =? ECONNRESET) then bs "reset" else if e =? EAGAIN then bs "timeout" else strerror e
  end.

(** [cytadel_plugin_api_send] on a socket; [s] is its stream. *)
Definition api_send (sock : socket) (data : lua_value) (pushed : bool) (s : stream) : lua_result Z * stream :=
  match check_string data with
  | None => (Raised, s)
  | Some data =>
      if sock_fd sock <? 0 then (push_nil_err pushed (bs "closed"), s) else
      match send_all data s with
      | (None, s) => (Value (Z.of_nat (length data)), s)
      | (Some r, s) => (push_nil_err pushed (send_error r), s)
      end
  end.

Definition PLUGIN_RECV_MAX_LEN : Z := 16 * 1024 * 1024.

(** [cytadel_plugin_api_recv]: the data and the timeout set on the socket;
    [pushed] is whether [lua_pushlstring] or [lua_pushstring] found memory.  The
    data is pushed before the buffer is freed: when that raises, it never is. *)
Definition api_recv (ctx : plugin_ctx) (sock : socket) (max_len timeout : lua_value) (pushed : bool) (s : stream) (h : heap) :
    lua_result bytes * option (Z * Z) * stream * heap :=
  match to_integer string_to_integer max_len, opt_integer timeout 5000 with
  | Some max_len, Some timeout_ms =>
      if max_len <=? 0 then (Raised, None, s, h) else
      let max_len := if PLUGIN_RECV_MAX_LEN <? max_len then PLUGIN_RECV_MAX_LEN else max_len in
      let timeout_ms := clamp_timeout_ms (ctx_deadline ctx) (ctx_now ctx) timeout_ms in
      if sock_fd sock <? 0 then (push_nil_err pushed (bs "closed"), None, s, h) else
      let tv := Some (timeval_of timeout_ms) in
      let '(ok, h) := malloc h in
      if negb ok then (Raised, tv, s, h) else
      match recv_once (Z.to_nat max_len) s with
      | (inl [], s) => (push_nil_err pushed (bs "closed"), tv, s, free_block h)
      | (inl data, s) => if negb pushed then (Raised, tv, s, h) else (Value data, tv, s, free_block h)
      | (inr e, s) => (push_nil_err pushed (if e =? EAGAIN then bs "timeout" else strerror e), tv, s, free_block h)
      end
  | _, _ => (Raised, None, s, h)
  end.

(** ** Lemmas *)

Lemma plugin_connect_spec ip port timeout_ms a n hd :
  let '(r, dialed, hd') := plugin_raw_tcp_connect ip port timeout_ms a n hd in
  (forall d, dialed = Some d -> exists addr, inet_pton ip = Some addr /\ d = (addr, port)) /\
  match r with
  | inl tv => hd' = fd_opened hd /\ is_Some dialed /\ tv = timeval_of (Z.max 1 timeout_ms)
  | inr err => hd' = hd /\ (length err <= n - 1)%nat
  end.
Proof.
  assert (Hfail : forall text, (length (fit n text) <= n - 1)%nat) by (intros; unfold fit; rewrite length_take; lia).
  assert (Ht : (if timeout_ms <? 1 then 1 else timeout_ms) = Z.max 1 timeout_ms) by (destruct (Z.ltb_spec timeout_ms 1); lia).
  unfold plugin_raw_tcp_connect. cbv zeta. rewrite Ht. destruct (a_socket a); [done|].
  destruct (a_nonblocking a); cbn [negb]; [|by rewrite close_open]. destruct (inet_pton ip) as [addr|]; [|by rewrite close_open].
  assert (Hd : forall d, Some (addr, port) = Some d -> exists addr', Some addr = Some addr' /\ d = (addr', port)) by (intros d [= <-]; by exists addr).
  destruct (a_connect a) as [e|]; [|by split_and!].
  repeat (match goal with |- context [if ?b then _ else _] => destruct b end; try (by rewrite close_open)).
  destruct (a_so_error a) as [[so_error|]|]; [|by split_and!|by rewrite close_open].
  repeat (match goal with |- context [if ?b then _ else _] => destruct b end; try (by rewrite close_open)).
Qed.

Lemma clamp_bounds deadline now timeout_ms : 1 <= clamp_timeout_ms deadline now timeout_ms <= PLUGIN_MAX_RUNTIME_MS.
Proof.
  unfold clamp_timeout_ms, PLUGIN_MAX_RUNTIME_MS. destruct (Z.ltb_spec timeout_ms 1); destruct (Z.ltb_spec 15000 (if timeout_ms <? 1 then 1 else timeout_ms)) as [|];
    repeat match goal with |- context [if ?a <? ?b then _ else _] => destruct (Z.ltb_spec a b) end; destruct deadline; try lia;
    repeat match goal with |- context [if ?a <? ?b then _ else _] => destruct (Z.ltb_spec a b) end; lia.
Qed.

(** The timeouts set on a socket: never none, and at most the budget of a run. *)
Definition timeval_bounded (tv : Z * Z) : Prop := tv <> (0, 0) /\ 0 <= fst tv <= 15 /\ 0 <= snd tv < 1000000.

Lemma timeval_clamped deadline now timeout_ms : timeval_bounded (timeval_of (clamp_timeout_ms deadline now timeout_ms)).
Proof.
  pose proof (clamp_bounds deadline now timeout_ms) as [H1 H2]. unfold PLUGIN_MAX_RUNTIME_MS in H2.
  set (t := clamp_timeout_ms deadline now timeout_ms) in *. pose proof (timeval_nonzero t) as (N1 & N2 & N3).
  rewrite Z.max_r in N1, N2, N3 by lia. split; [done|]. split; [|done]. split; [done|].
  cbn [timeval_of fst]. apply Z.quot_le_upper_bound; lia.
Qed.

Lemma open_sock_spec ctx port timeout a fd userdata pushed tr hd h :
  let '(r, dialed, tr', hd', h') := api_open_sock_tcp ctx port timeout a fd userdata pushed tr hd h in
  (forall d, dialed = Some d -> exists addr p, inet_pton (ctx_ip ctx) = Some addr /\ to_integer string_to_integer port = Some p /\ 1 <= p <= 65535 /\ d = (addr, p)) /\
  ((hd' = hd /\ tr' = tr /\ h' = h /\ match r with Value _ => False | NilErr err => (length err < 64)%nat | Raised => True end) \/
   (hd' = fd_opened hd /\ is_Some dialed /\
    exists idx tv, tracker_add tr fd h = (idx, tr', h') /\ timeval_bounded tv /\
      r = if userdata then Value (Socket fd idx, tv) else Raised)).
Proof.
  unfold api_open_sock_tcp. destruct (to_integer string_to_integer port) as [p|]; [|by split; [|left]].
  destruct (opt_integer timeout 5000) as [ms|]; [|by split; [|left]]. cbv zeta. destruct ((p <? 1) || (65535 <? p)) eqn:Hp; [by split; [|left]|].
  pose proof (plugin_connect_spec (ctx_ip ctx) p (clamp_timeout_ms (ctx_deadline ctx) (ctx_now ctx) ms) a 64 hd) as H.
  destruct (plugin_raw_tcp_connect _ _ _ a 64 hd) as [[[tv|err] dialed] hd1]; destruct H as [Hdial H].
  - assert (Hd : forall d, dialed = Some d -> exists addr p', inet_pton (ctx_ip ctx) = Some addr /\ Some p = Some p' /\ 1 <= p' <= 65535 /\ d = (addr, p')).
    { intros d E. destruct (Hdial d E) as (addr & Ea & ->). exists addr, p. split_and!; (done || zbool). }
    destruct H as (-> & Hip & ->). destruct (tracker_add tr fd h) as [[idx tr1] h1].
    pose proof (clamp_bounds (ctx_deadline ctx) (ctx_now ctx) ms). rewrite Z.max_r by lia. destruct userdata; cbn [negb];
      (split; [done|]); right; (split; [done|split; [done|]]; exists idx, (timeval_of (clamp_timeout_ms (ctx_deadline ctx) (ctx_now ctx) ms)); split; [done|]; split; [apply timeval_clamped|done]).
  - destruct H as [-> Hl]. split.
    + intros d E. destruct (Hdial d E) as (addr & Ea & ->). exists addr, p. split_and!; (done || zbool).
    + left. split_and!; try done. unfold push_nil_err. destruct pushed; [lia|done].
Qed.

Lemma send_spec sock data pushed s :
  let '(r, s') := api_send sock data pushed s in
  same_input s s' /\ exists k, sent s' = sent s ++ take k (default [] (check_string data)) /\
  forall n, r = Value n -> n = Z.of_nat (length (default [] (check_string data))) /\ sent s' = sent s ++ default [] (check_string data).
Proof.
  assert (Hid : exists k, sent s = sent s ++ take k (default [] (check_string data))) by (exists 0%nat; by rewrite app_nil_r).
  assert (Hno : forall text n, push_nil_err (A := Z) pushed text <> Value n) by (intros text n; unfold push_nil_err; by destruct pushed).
  unfold api_send. destruct (check_string data) as [d|]; [|split; [done|]; destruct Hid as [k Hk]; by exists k].
  destruct (sock_fd sock <? 0); [split; [done|]; destruct Hid as [k Hk]; exists k; split; [done|]; by intros n ?%Hno|].
  pose proof (send_all_spec d s) as H. destruct (send_all d s) as [[r|] s']; destruct H as (Hi & k & Hk & Hall & _); (split; [done|]; exists k; split; [done|]);
    [by intros n ?%Hno|]. intros n [= <-]. split; [done|]. rewrite Hk, (Hall eq_refl). cbn [default]. unfold id. by rewrite take_ge by lia.
Qed.

Lemma recv_spec ctx sock max_len timeout pushed s h :
  let '(r, tv, s', h') := api_recv ctx sock max_len timeout pushed s h in
  (live h' = live h \/ pushed = false /\ r = Raised /\ live h' = live h + 1) /\ (forall t, tv = Some t -> timeval_bounded t) /\ sent s' = sent s /\
  forall d, r = Value d -> exists m, to_integer string_to_integer max_len = Some m /\
    (1 <= length d)%nat /\ Z.of_nat (length d) <= Z.min m (16 * 1024 * 1024) /\ incoming s = d ++ incoming s'.
Proof.
  assert (Hno : forall text d, push_nil_err (A := bytes) pushed text <> Value d) by (intros text d; unfold push_nil_err; by destruct pushed).
  assert (Htv : forall ms t, Some (timeval_of (clamp_timeout_ms (ctx_deadline ctx) (ctx_now ctx) ms)) = Some t -> timeval_bounded t)
    by (intros ms t [= <-]; apply timeval_clamped).
  unfold api_recv. destruct (to_integer string_to_integer max_len) as [m|]; [|by split; [left|]]. destruct (opt_integer timeout 5000) as [ms|]; [|by split; [left|]].
  destruct (Z.leb_spec m 0); [by split; [left|]|]. destruct (sock_fd sock <? 0); [split_and!; [by left|done|done|by intros d ?%Hno]|].
  destruct (malloc h) as [[] h1] eqn:Em; cbn [negb].
  2: { split; [left; rewrite (malloc_live _ _ _ Em); lia|]. split; [apply Htv|done]. }
  set (room := Z.to_nat (if PLUGIN_RECV_MAX_LEN <? m then PLUGIN_RECV_MAX_LEN else m)).
  pose proof (recv_once_spec room s) as H0. pose proof (malloc_live _ _ _ Em) as Hl. cbn iota in Hl.
  destruct (recv_once room s) as [[[|c d]|e] s1]; destruct H0 as ([Ho _] & _ & H0 & _).
  - cbn [live free_block]. split_and!; [left; lia|apply Htv|done|by intros d ?%Hno].
  - destruct pushed; cbn [negb live free_block]; [|split_and!; [right; split_and!; [done|done|lia]|apply Htv|done|done]].
    split_and!; [left; lia|apply Htv|done|]. intros d' [= <-]. destruct H0 as (k & Hk & Hd & Hi). exists m. split; [done|]. split; [cbn; lia|]. split; [|by rewrite Hd, Hi, take_drop].
    assert (Hlen : (length (c :: d) <= room)%nat) by (rewrite Hd, length_take; lia). subst room. unfold PLUGIN_RECV_MAX_LEN in *.
    destruct (Z.ltb_spec (16 * 1024 * 1024) m); lia.
  - cbn [live free_block]. split_and!; [left; lia|apply Htv|done|by intros d ?%Hno].
Qed.

(** ** Theorems *)

(** C37: The socket functions keep a plugin within its bounds, in the functions
    of the plugin and in its finalizers.  [open_sock_tcp] dials the address of
    the scan and the port it was given, between 1 and 65535, and no other; when
    it connects, what it does to the tracker, the heap and the sockets is the
    step [OpenSock] of the invocation, and otherwise it leaves nothing open.
    [send] answers a number only when that many bytes, all the data, are sent,
    and else a prefix of the data is.  [recv] answers at least one byte and at
    most [max_len] and 16 MiB, the next bytes of the peer, and frees its buffer
    unless Lua is out of memory for the string of the answer: then it raises
    and the buffer is lost.  Every timeout they set is positive and within the
    budget of a run. *)
Theorem plugin_sockets_bounded ctx sock port timeout max_len data a fd userdata pushed st hd s h :
  lua_runs (at_phase st) = true -> os st !! fd = None -> 0 <= fd ->
  (let '(r, dialed, tr', hd', h') := api_open_sock_tcp ctx port timeout a fd userdata pushed (open_fds st) hd (inv_heap st) in
   (forall d, dialed = Some d -> exists addr p, inet_pton (ctx_ip ctx) = Some addr /\ to_integer string_to_integer port = Some p /\ 1 <= p <= 65535 /\ d = (addr, p)) /\
   ((hd' = hd /\ tr' = open_fds st /\ h' = inv_heap st /\ match r with Value _ => False | NilErr err => (length err < 64)%nat | Raised => True end) \/
    (hd' = fd_opened hd /\ is_Some dialed /\ (forall sk tv, r = Value (sk, tv) -> sock_fd sk = fd /\ timeval_bounded tv) /\
     exists st', step st (OpenSock fd userdata) = Next st' None /\ open_fds st' = tr' /\ inv_heap st' = h' /\
       socks st' = socks st ++ match r with Value (sk, _) => [sk] | _ => [] end))) /\
  (let '(r, s') := api_send sock data pushed s in
   same_input s s' /\ exists k, sent s' = sent s ++ take k (default [] (check_string data)) /\
   forall n, r = Value n -> n = Z.of_nat (length (default [] (check_string data))) /\ sent s' = sent s ++ default [] (check_string data)) /\
  (let '(r, tv, s', h') := api_recv ctx sock max_len timeout pushed s h in
   (live h' = live h \/ pushed = false /\ r = Raised /\ live h' = live h + 1) /\ (forall t, tv = Some t -> timeval_bounded t) /\ sent s' = sent s /\
   forall d, r = Value d -> exists m, to_integer string_to_integer max_len = Some m /\
     (1 <= length d)%nat /\ Z.of_nat (length d) <= Z.min m (16 * 1024 * 1024) /\ incoming s = d ++ incoming s').
Proof.
  intros Hph Hos Hfd. split_and!; [|by apply send_spec|by apply recv_spec].
  pose proof (open_sock_spec ctx port timeout a fd userdata pushed (open_fds st) hd (inv_heap st)) as H.
  destruct (api_open_sock_tcp _ _ _ _ _ _ _ _ _ _) as [[[[r dialed] tr'] hd'] h']. destruct H as [Hd [H|(-> & Hip & idx & tv & E & Htv & ->)]]; (split; [done|]); [by left|right].
  split; [done|]. split; [done|]. split; [intros sk tv'; destruct userdata; [intros [= <- <-]; done|done]|].
  unfold step. rewrite Hph, Hos, E. destruct (Z.ltb_spec fd 0); [lia|]. cbn [negb orb]. eexists. split; [done|]. cbn [open_fds inv_heap socks].
  split; [done|]. split; [done|]. destruct userdata; [done|by rewrite app_nil_r].
Qed.
End Functions.

(** Lua is out of memory for the string that [recv] answers: its buffer of
    [max_len] bytes stays allocated. *)
Example recv_loses_buffer :
  let '(r, _, _, h') := api_recv (fun _ => None) (fun _ => []) (PluginCtx (bs "10.0.0.1") None (Timespec 0 0)) (Socket 5 None) (LInteger 10) LNil false
    (Stream [] [] (bs "banner") [Moved 6] []) (Heap [] 0) in
  r = Raised /\ live h' = 1.
Proof. vm_compute. split; reflexivity. Qed.

Lemma plugin_sockets_bounded_witness :
  let ctx := PluginCtx (bs "10.0.0.1") None (Timespec 0 0) in
  let st := start ∅ (Heap [] 0) in
  exists sk tr' hd' h', api_open_sock_tcp (fun _ => None) (fun _ => []) ctx (LInteger 22) LNil (Attempt None true None 0 None) 5 true true (open_fds st) (Handles 0 0 0) (inv_heap st)
    = (Value (sk, (5, 0)), Some (167772161, 22), tr', hd', h') /\ sock_fd sk = 5 /\ hd' = Handles 1 0 0.
Proof.
  cbv zeta. pose proof (plugin_sockets_bounded (fun _ => None) (fun _ => []) (fun _ => []) (PluginCtx (bs "10.0.0.1") None (Timespec 0 0)) (Socket 5 None)
    (LInteger 22) LNil (LInteger 10) (LString []) (Attempt None true None 0 None) 5 true true (start ∅ (Heap [] 0)) (Handles 0 0 0)
    (Stream [] [] [] [] []) (Heap [] 0) eq_refl eq_refl ltac:(lia)) as [[_ H] _].
  destruct (api_open_sock_tcp _ _ _ _ _ _ _ _ _ _ _ _) as [[[[r dialed] tr'] hd'] h'] eqn:E. vm_compute in E. injection E as <- <- <- <- <-.
  destruct H as [(_ & _ & _ & [])|(Hhd & _ & Hr & _)]. destruct (Hr _ _ eq_refl) as [Hfd _].
  eexists _, _, _, _. split; [reflexivity|]. split; [exact Hfd|exact Hhd].
Defined.
