(* ===== verification/PluginApi.v ===== *)
(** * What a plugin calls ([src/src/plugin/api_report.c], [finding.c], [api_kb.c])

    [report_vuln] validates its table, extracts and appends a finding; the
    knowledge-base functions go through the setters and the getter of [Kb].
    A Lua error is [None]. *)

From S2P Require Import Prelude LuaFields CveId Plugin KbValidate Kb.
#[local] Open Scope lua_scope.

(** ** Findings ([finding.c]) *)

(** [cytadel_finding_t]; a pointer that may be NULL is an [option]. *)
Record finding := Finding {
  severity : Z;
  title : option bytes;
  f_description : option bytes;
  evidence : option bytes;
  port : Z;
  f_solution : option bytes;
  f_cve : option (list bytes);
  f_cve_count : nat;
  cpe : option bytes;
  f_cvss_vector : option bytes;
  f_script_id : Z;
  f_script_name : option bytes
}.

(** [cytadel_finding_list_t]; the array is NULL while the capacity is 0. *)
Record finding_list := FindingList { items : list finding; list_capacity : nat }.

(** [cytadel_finding_free_fields] *)
Definition finding_free_fields (f : finding) (h : heap) : heap :=
  let h := free_if (some_b (title f)) h in
  let h := free_if (some_b (f_description f)) h in
  let h := free_if (some_b (evidence f)) h in
  let h := free_if (some_b (f_solution f)) h in
  let h := free_string_array (f_cve f) (f_cve_count f) h in
  let h := free_if (some_b (cpe f)) h in
  let h := free_if (some_b (f_cvss_vector f)) h in
  free_if (some_b (f_script_name f)) h.

(** [cytadel_finding_list_free] *)
Definition finding_list_free (l : option finding_list) (h : heap) : option finding_list * heap :=
  match l with
  | None => (None, h)
  | Some l =>
      (Some (FindingList [] 0), free_if (Nat.ltb 0 (list_capacity l)) (foldl (fun h f => finding_free_fields f h) h (items l)))
  end.

(** [cytadel_finding_list_append] *)
Definition finding_list_append (l : finding_list) (f : finding) (h : heap) : Z * finding_list * heap :=
  let '(ok, capacity, h) :=
    if Nat.eqb (length (items l)) (list_capacity l) then
      let new_capacity := if Nat.eqb (list_capacity l) 0 then 4%nat else (list_capacity l * 2)%nat in
      let '(ok, h) := realloc (Nat.ltb 0 (list_capacity l)) h in (ok, new_capacity, h)
    else (true, list_capacity l, h) in
  if negb ok then (-1, l, finding_free_fields f h)
  else (0, FindingList (items l ++ [f]) capacity, h).

(** ** [report_vuln] ([api_report.c]) *)

Section Report.
Variable string_to_integer : bytes -> option Z.

Definition severity_ok (v : lua_value) : option Z :=
  match to_integer string_to_integer v with
  | Some s => if (s <? 0) || (4 <? s) then None else Some s
  | None => None
  end.

Definition nonempty_string (v : lua_value) : bool :=
  match v with LString s => negb (Nat.eqb (length s) 0) | _ => false end.

Definition string_or_nil (v : lua_value) : bool := match v with LNil | LString _ => true | _ => false end.

Definition strings_or_nil (v : lua_value) : bool :=
  match v with
  | LNil => true
  | LTable items => forallb (fun v => match v with LString _ => true | _ => false end) items
  | _ => false
  end.

(** [cytadel_report_vuln_validate_fields] does not raise. *)
Definition report_vuln_validate_fields (tbl : lua_fields) : bool :=
  some_b (severity_ok (tbl (bs "severity"))) &&
  forallb (fun field => nonempty_string (tbl (bs field))) ["title"; "evidence"]%string &&
  some_b (to_integer string_to_integer (tbl (bs "port"))) &&
  forallb (fun field => string_or_nil (tbl (bs field))) ["description"; "solution"; "cpe"; "cvss_vector"]%string &&
  strings_or_nil (tbl (bs "cve")).

(** The strings of the table and the two integers, in the order they are read;
    the state is [cve_count]. *)
Definition report_vuln_extract (tbl : lua_fields) :
    M nat (Z * bytes * bytes * Z * option bytes * option bytes * option (list bytes) * option bytes * option bytes) :=
  let severity := default 0 (to_integer string_to_integer (tbl (bs "severity"))) in
  if (severity <? 0) || (4 <? severity) then raise else
      title <- field_required_string tbl "title" ;;
      evidence <- field_required_string tbl "evidence" ;;
      match to_integer string_to_integer (tbl (bs "port")) with
      | None => with_heap (fun h => free_block (free_block h)) ;; raise
      | Some port =>
          description <- field_optional_string tbl "description" ;;
          solution <- field_optional_string tbl "solution" ;;
          cve <- field_optional_string_array tbl "cve" (fun n => modify (fun _ => n)) ;;
          cpe <- field_optional_string tbl "cpe" ;;
          cvss_vector <- field_optional_string tbl "cvss_vector" ;;
          ret (severity, title, evidence, port, description, solution, cve, cpe, cvss_vector)
      end.

(** A copy of a header string, NULL when the allocation fails. *)
Definition copy_or_null (s : option bytes) (h : heap) : option bytes * heap :=
  match s with
  | None => (None, h)
  | Some s => let '(ok, h) := malloc h in (if ok then Some s else None, h)
  end.

Definition fall_back (own header : option bytes) (h : heap) : option bytes * heap :=
  match own with Some _ => (own, h) | None => copy_or_null header h end.

(** [cytadel_plugin_api_report_vuln] of a table; the result is [None] when it raises. *)
Definition report_vuln (hdr : plugin_header) (tbl : lua_fields) (l : finding_list) (h : heap) :
    option unit * finding_list * heap :=
  if negb (report_vuln_validate_fields tbl) then (None, l, h) else
  match report_vuln_extract tbl 0%nat h with
  | (None, _, h) => (None, l, h)
  | (Some (severity, title, evidence, port, description, solution, cve, cpe, cvss_vector), cve_count, h) =>
      let '(solution, h) := fall_back solution (Plugin.solution hdr) h in
      let '(cvss_vector, h) := fall_back cvss_vector (Plugin.cvss_vector hdr) h in
      let '(script_name, h) := copy_or_null (Plugin.script_name hdr) h in
      let f := Finding severity (Some title) description (Some evidence) port solution cve cve_count cpe cvss_vector
                 (Plugin.script_id hdr) script_name in
      let '(_, l, h) := finding_list_append l f h in
      (Some tt, l, h)
  end.
End Report.

(** ** The knowledge base ([api_kb.c]) *)

(** What [lua_pushstring] and its like push for a value. *)
Definition push_value (v : kb_value) : lua_value :=
  match v with
  | KB_STRING (Some s) => LString s
  | KB_STRING None => LNil
  | KB_INT i => LInteger i
  | KB_BOOL b => LBoolean b
  end.

(** [cytadel_plugin_api_get_kb_item]; [key] is the [luaL_checkstring] argument,
    which a C function reads up to its first NUL. *)
Definition api_get_kb_item (k : kb) (key : bytes) : lua_value :=
  match kb_get (Some k) (Some (c_string key)) with
  | KB_GET_FOUND v => push_value v
  | _ => LNil
  end.

(** [cytadel_plugin_api_set_kb_item] *)
Definition api_set_kb_item (k : kb) (key : bytes) (value : lua_value) (h : heap) : option unit * kb * heap :=
  let key := Some (c_string key) in
  let result r :=
    let '(rc, k', h) := r in ((if rc =? 0 then Some tt else None), default k k', h) in
  match value with
  | LString s => result (kb_set_str_n (Some k) key (Span s) h)
  | LInteger v => result (kb_set_int (Some k) key v h)
  | LFloat d =>
      match double_integer d with
      | Some v => result (kb_set_int (Some k) key v h)
      | None => (None, k, h)
      end
  | LBoolean b => result (kb_set_bool (Some k) key b h)
  | _ => (None, k, h)
  end.

(** [cytadel_plugin_api_get_port_state], [cytadel_plugin_api_get_scan_port] *)
Definition api_get_port_state (k : kb) (port : Z) : bool :=
  match kb_get (Some k) (Some (bs "Ports/tcp/" ++ print_dec port)) with
  | KB_GET_FOUND (KB_INT v) => v =? 1
  | _ => false
  end.

Definition api_get_scan_port (bound_port : Z) : lua_value := if bound_port <? 0 then LNil else LInteger bound_port.

(** ** What a finding is *)

(** The value of an optional string field. *)
Definition string_field (v : lua_value) : option bytes := match v with LString s => Some (c_string s) | _ => None end.

Definition array_field (v : lua_value) : option (list bytes) :=
  match v with
  | LTable [] => None
  | LTable items => Some (omap string_field items)
  | _ => None
  end.

(** The finding of a table that is valid. *)
Definition reported (string_to_integer : bytes -> option Z) (hdr : plugin_header) (tbl : lua_fields) : finding :=
  let or_header own header := match own with Some _ => own | None => header end in
  let cve := array_field (tbl (bs "cve")) in
  Finding (default 0 (to_integer string_to_integer (tbl (bs "severity"))))
    (string_field (tbl (bs "title"))) (string_field (tbl (bs "description"))) (string_field (tbl (bs "evidence")))
    (default 0 (to_integer string_to_integer (tbl (bs "port"))))
    (or_header (string_field (tbl (bs "solution"))) (solution hdr)) cve (length (default [] cve))
    (string_field (tbl (bs "cpe"))) (or_header (string_field (tbl (bs "cvss_vector"))) (cvss_vector hdr))
    (script_id hdr) (script_name hdr).

Definition finding_blocks (f : finding) : Z :=
  one_block (title f) + one_block (f_description f) + one_block (evidence f) + one_block (f_solution f) +
  array_blocks (f_cve f) + one_block (cpe f) + one_block (f_cvss_vector f) + one_block (f_script_name f).

Definition list_blocks (l : finding_list) : Z :=
  (if Nat.ltb 0 (list_capacity l) then 1 else 0) + foldr (fun f n => finding_blocks f + n) 0 (items l).

Definition list_ok (l : finding_list) : Prop :=
  (length (items l) <= list_capacity l)%nat /\ Forall (fun f => f_cve_count f = length (default [] (f_cve f))) (items l).

(** Releasing a list returns the blocks it owns. *)
Lemma free_string_array_live arr n h :
  n = length (default [] arr) -> live (free_string_array arr n h) = live h - array_blocks arr.
Proof.
  intros ->. destruct arr as [arr|]; cbn [free_string_array array_blocks default free_block live]; [|lia].
  unfold id. pose proof (live_iter_free (length arr) h). lia.
Qed.

Lemma free_if_live {A} (o : option A) h : live (free_if (some_b o) h) = live h - one_block o.
Proof. destruct o; cbn; lia. Qed.

Lemma finding_free_live f h :
  f_cve_count f = length (default [] (f_cve f)) -> live (finding_free_fields f h) = live h - finding_blocks f.
Proof.
  intros Hf. unfold finding_free_fields, finding_blocks. cbv zeta.
  rewrite !free_if_live, free_string_array_live, !free_if_live by done. lia.
Qed.

Lemma list_free_live l h : list_ok l -> live (snd (finding_list_free (Some l) h)) = live h - list_blocks l.
Proof.
  destruct l as [fs c]. intros [_ Hcve]. cbn [finding_list_free snd items list_capacity] in *. unfold list_blocks. cbn [items list_capacity].
  assert (H : live (foldl (fun h f => finding_free_fields f h) h fs) = live h - foldr (fun f n => finding_blocks f + n) 0 fs).
  { induction Hcve as [|f fs Hf Hcve IH] in h |- *; cbn [foldl foldr]; [lia|]. rewrite IH, finding_free_live by done. lia. }
  destruct (Nat.ltb 0 c); cbn [free_if free_block live]; lia.
Qed.

(** ** Computations that succeed *)

(** While memory lasts, [m] ends with [a], having allocated [d] blocks. *)
Definition succeeds {St A} (m : M St A) (s : St) (a : A) (s' : St) (d : Z) : Prop :=
  forall h, false ∉ oracle h -> exists h', m s h = (Some a, s', h') /\ live h' = live h + d /\ false ∉ oracle h'.

Lemma succeeds_bind {St A B} (m : M St A) (k : A -> M St B) s a s' b s'' d e :
  succeeds m s a s' d -> succeeds (k a) s' b s'' e -> succeeds (bind m k) s b s'' (d + e).
Proof.
  intros Hm Hk h Ho. destruct (Hm h Ho) as (h1 & E1 & L1 & O1). destruct (Hk h1 O1) as (h2 & E2 & L2 & O2).
  exists h2. unfold bind. rewrite E1. split_and!; [done|lia|done].
Qed.

Lemma succeeds_ret {St A} (a : A) (s : St) : succeeds (ret a) s a s 0.
Proof. intros h Ho. exists h. split_and!; [done|lia|done]. Qed.

Lemma succeeds_eq {St A} (m : M St A) s a s' d e : succeeds m s a s' d -> d = e -> succeeds m s a s' e.
Proof. by intros H <-. Qed.

Lemma succeeds_modify {St} (f : St -> St) s : succeeds (modify f) s tt (f s) 0.
Proof. intros h Ho. exists h. split_and!; [done|lia|done]. Qed.

Lemma succeeds_alloc {St} (s : St) : succeeds alloc s tt s 1.
Proof. intros h Ho. destruct (malloc_ok h Ho) as (h' & E & ?). exists h'. unfold alloc. by rewrite E. Qed.

Lemma succeeds_strdup {St} str (s : St) : succeeds (strdup str) s (c_string str) s 1.
Proof. eapply succeeds_eq; [eapply succeeds_bind; [apply succeeds_alloc|apply succeeds_ret]|lia]. Qed.

Lemma succeeds_required_string {St} tbl field (s : St) :
  nonempty_string (tbl (bs field)) = true ->
  succeeds (field_required_string tbl field) s (default [] (string_field (tbl (bs field)))) s 1.
Proof.
  intros Hv. unfold field_required_string, required_string_impl. destruct (tbl (bs field)) as [| | |str| | |]; try discriminate.
  cbn in Hv. apply negb_true_iff in Hv. rewrite Hv. cbn. apply succeeds_strdup.
Qed.

Lemma succeeds_optional_string {St} tbl field (s : St) :
  string_or_nil (tbl (bs field)) = true ->
  succeeds (field_optional_string tbl field) s (string_field (tbl (bs field))) s (one_block (string_field (tbl (bs field)))).
Proof.
  intros Hv. unfold field_optional_string. destruct (tbl (bs field)) as [| | |str| | |]; try discriminate; cbn [string_field].
  - apply succeeds_ret.
  - eapply succeeds_eq; [eapply succeeds_bind; [apply succeeds_strdup|apply succeeds_ret]|done].
Qed.

Lemma succeeds_string_loop {St} items copied (s : St) :
  forallb (fun v => match v with LString _ => true | _ => false end) items = true ->
  succeeds (string_loop items copied) s (copied ++ omap string_field items) s (Z.of_nat (length items)).
Proof.
  revert copied; induction items as [|v items IH]; intros copied Hv; cbn [string_loop].
  - cbn. rewrite app_nil_r. apply succeeds_ret.
  - destruct v as [| | |str| | |]; try discriminate. eapply succeeds_eq.
    + eapply succeeds_bind; [apply succeeds_strdup|]. specialize (IH (copied ++ [c_string str]) Hv). rewrite <- app_assoc in IH. exact IH.
    + cbn [length]. lia.
Qed.

Lemma length_string_fields items :
  forallb (fun v => match v with LString _ => true | _ => false end) items = true -> length (omap string_field items) = length items.
Proof.
  induction items as [|v items IH]; intros Hv; [done|]. destruct v as [| | |str| | |]; try discriminate.
  cbn. f_equal. by apply IH.
Qed.

Lemma succeeds_string_array tbl field (n : nat) :
  strings_or_nil (tbl (bs field)) = true ->
  succeeds (field_optional_string_array tbl field (fun n => modify (fun _ => n))) n (array_field (tbl (bs field)))
    (length (default [] (array_field (tbl (bs field))))) (array_blocks (array_field (tbl (bs field)))).
Proof.
  intros Hv. unfold field_optional_string_array.
  apply (succeeds_eq _ _ _ _ (0 + array_blocks (array_field (tbl (bs field))))); [|lia].
  eapply succeeds_bind; [apply succeeds_modify|]. destruct (tbl (bs field)) as [| | | |items| |]; try discriminate; [apply succeeds_ret|].
  destruct items as [|v items]; [apply succeeds_ret|]. cbn [strings_or_nil] in Hv. cbn [array_field].
  set (l := v :: items) in *. rewrite <- (length_string_fields l Hv).
  eapply succeeds_eq.
  - eapply succeeds_bind; [apply succeeds_alloc|]. eapply succeeds_bind; [apply (succeeds_string_loop l []), Hv|].
    eapply succeeds_bind; [apply succeeds_modify|]. apply succeeds_ret.
  - cbn [array_blocks app]. rewrite (length_string_fields l Hv). lia.
Qed.

Section ReportCorrect.
Variable string_to_integer : bytes -> option Z.

Lemma succeeds_extract tbl :
  report_vuln_validate_fields string_to_integer tbl = true ->
  let f := reported string_to_integer zero_header tbl in
  succeeds (report_vuln_extract string_to_integer tbl) 0%nat
    (severity f, default [] (title f), default [] (evidence f), port f, string_field (tbl (bs "description")),
     string_field (tbl (bs "solution")), array_field (tbl (bs "cve")), string_field (tbl (bs "cpe")),
     string_field (tbl (bs "cvss_vector"))) (f_cve_count f)
    (2 + one_block (string_field (tbl (bs "description"))) + one_block (string_field (tbl (bs "solution"))) +
     array_blocks (array_field (tbl (bs "cve"))) + one_block (string_field (tbl (bs "cpe"))) +
     one_block (string_field (tbl (bs "cvss_vector")))).
Proof.
  unfold report_vuln_validate_fields. rewrite !andb_true_iff. cbn [forallb]. rewrite !andb_true_iff.
  intros ((((Hsev & Htitle & Hev & _) & Hport) & Hdesc & Hsol & Hcpe & Hcvss & _) & Hcve).
  unfold report_vuln_extract, reported. cbn [severity title evidence port f_cve_count].
  unfold severity_ok in Hsev. destruct (to_integer _ (tbl (bs "severity"))) as [sev|]; [|discriminate]. cbn [default] in *. unfold id.
  destruct ((sev <? 0) || (4 <? sev)); [discriminate|].
  destruct (to_integer _ (tbl (bs "port"))) as [p|]; [|discriminate]. cbn [default].
  eapply succeeds_eq.
  - eapply succeeds_bind; [by apply succeeds_required_string|]. eapply succeeds_bind; [by apply succeeds_required_string|].
    eapply succeeds_bind; [by apply succeeds_optional_string|]. eapply succeeds_bind; [by apply succeeds_optional_string|].
    eapply succeeds_bind; [by apply succeeds_string_array|]. eapply succeeds_bind; [by apply succeeds_optional_string|].
    eapply succeeds_bind; [by apply succeeds_optional_string|]. apply succeeds_ret.
  - lia.
Qed.

Lemma copy_or_null_ok s h :
  false ∉ oracle h ->
  exists h', copy_or_null s h = (s, h') /\ live h' = live h + one_block s /\ false ∉ oracle h'.
Proof.
  intros Ho. unfold copy_or_null, one_block. destruct s as [s|]; cbn [some_b]; [|exists h; split_and!; [done|lia|done]].
  destruct (malloc_ok h Ho) as (h' & -> & Hl & Ho'). by exists h'.
Qed.

Lemma fall_back_ok own header h :
  false ∉ oracle h ->
  let s := match own with Some _ => own | None => header end in
  exists h', fall_back own header h = (s, h') /\ live h' = live h + one_block s - one_block own /\ false ∉ oracle h'.
Proof.
  intros Ho. unfold fall_back. destruct own as [own|]; [exists h; split_and!; [done|lia|done]|].
  destruct (copy_or_null_ok header h Ho) as (h' & -> & Hl & Ho'). exists h'. split_and!; [done| |done]. rewrite Hl. cbn. lia.
Qed.

Lemma sum_snoc fs f :
  foldr (fun f n => finding_blocks f + n) 0 (fs ++ [f]) = foldr (fun f n => finding_blocks f + n) 0 fs + finding_blocks f.
Proof. induction fs as [|g fs IH]; cbn [app foldr]; [lia|]. rewrite IH. lia. Qed.

Lemma append_ok l f h :
  list_ok l -> f_cve_count f = length (default [] (f_cve f)) -> false ∉ oracle h ->
  exists l' h', finding_list_append l f h = (0, l', h') /\ items l' = items l ++ [f] /\ list_ok l' /\ false ∉ oracle h' /\
    live h' - list_blocks l' = live h - list_blocks l - finding_blocks f.
Proof.
  intros [Hl Hcve] Hf Ho. unfold finding_list_append, list_blocks, list_ok.
  pose proof (sum_snoc (items l) f) as Hsum.
  assert (Hall : Forall (fun f => f_cve_count f = length (default [] (f_cve f))) (items l ++ [f])) by (apply Forall_app; auto).
  destruct (Nat.eqb_spec (length (items l)) (list_capacity l)) as [E|E]; cbn [negb].
  - destruct (realloc_ok (Nat.ltb 0 (list_capacity l)) h Ho) as (h' & -> & Hlive & Ho'). cbn [negb].
    eexists _, h'. split; [done|]. cbn [items list_capacity]. rewrite Hsum, length_app. cbn [length].
    destruct (Nat.eqb_spec (list_capacity l) 0) as [E0|E0].
    + rewrite E0 in *. split_and!; [done|lia|done|done|]. cbn in Hlive |- *. lia.
    + split_and!; [done|lia|done|done|]. destruct (Nat.ltb_spec 0 (list_capacity l)); [|lia].
      destruct (Nat.ltb_spec 0 (list_capacity l * 2)); lia.
  - eexists _, h. split; [done|]. cbn [items list_capacity]. rewrite Hsum, length_app. cbn [length]. split_and!; [done|lia|done|done|lia].
Qed.

(** C31: [report_vuln] is all or nothing.  While memory lasts, a table that
    passes the validation pass is extracted without an error and appended as
    the finding its fields describe, [solution] and [cvss_vector] falling back
    to the header's; any other table raises before anything is allocated, and
    the list is as it was.  The blocks in use are those of the list, whatever a
    plugin reports, and freeing the list returns them. *)
Theorem report_vuln_all_or_nothing hdr tbl l h :
  list_ok l -> false ∉ oracle h ->
  exists res l' h', report_vuln string_to_integer hdr tbl l h = (res, l', h') /\
    (if report_vuln_validate_fields string_to_integer tbl
     then res = Some tt /\ items l' = items l ++ [reported string_to_integer hdr tbl]
     else res = None /\ l' = l) /\
    list_ok l' /\ live h' - list_blocks l' = live h - list_blocks l /\
    live (snd (finding_list_free (Some l') h')) = live h - list_blocks l.
Proof.
  intros Hl Ho.
  unfold report_vuln. destruct (report_vuln_validate_fields string_to_integer tbl) eqn:Ev; cbn [negb].
  2: { exists None, l, h. split_and!; try done. by rewrite list_free_live. }
  destruct (succeeds_extract tbl Ev h Ho) as (h1 & -> & L1 & O1).
  destruct (fall_back_ok (string_field (tbl (bs "solution"))) (solution hdr) h1 O1) as (h2 & -> & L2 & O2).
  destruct (fall_back_ok (string_field (tbl (bs "cvss_vector"))) (cvss_vector hdr) h2 O2) as (h3 & -> & L3 & O3).
  destruct (copy_or_null_ok (script_name hdr) h3 O3) as (h4 & -> & L4 & O4).
  assert (Hstr : forall field, nonempty_string (tbl (bs field)) = true -> string_field (tbl (bs field)) = Some (default [] (string_field (tbl (bs field))))).
  { intros field. by destruct (tbl (bs field)). }
  assert (Hf : Finding (severity (reported string_to_integer zero_header tbl)) (Some (default [] (title (reported string_to_integer zero_header tbl))))
      (string_field (tbl (bs "description"))) (Some (default [] (evidence (reported string_to_integer zero_header tbl))))
      (port (reported string_to_integer zero_header tbl))
      (match string_field (tbl (bs "solution")) with Some _ => string_field (tbl (bs "solution")) | None => solution hdr end)
      (array_field (tbl (bs "cve"))) (f_cve_count (reported string_to_integer zero_header tbl)) (string_field (tbl (bs "cpe")))
      (match string_field (tbl (bs "cvss_vector")) with Some _ => string_field (tbl (bs "cvss_vector")) | None => cvss_vector hdr end)
      (script_id hdr) (script_name hdr) = reported string_to_integer hdr tbl).
  { unfold report_vuln_validate_fields in Ev. rewrite !andb_true_iff in Ev. cbn [forallb] in Ev. rewrite !andb_true_iff in Ev.
    destruct Ev as ((((_ & Htitle & Hev & _) & _) & _) & _). unfold reported. cbn [severity title evidence port f_cve_count].
    by rewrite <- (Hstr "title"%string Htitle), <- (Hstr "evidence"%string Hev). }
  rewrite Hf. destruct (append_ok l (reported string_to_integer hdr tbl) h4 Hl eq_refl O4) as (l' & h' & -> & Hitems & Hl' & O' & L').
  exists (Some tt), l', h'. split_and!; try done.
  - rewrite L', L4, L3, L2, L1. rewrite <- Hf. unfold finding_blocks.
    cbn [title f_description evidence f_solution f_cve cpe f_cvss_vector f_script_name one_block some_b]. lia.
  - rewrite list_free_live by done. rewrite L', L4, L3, L2, L1. rewrite <- Hf. unfold finding_blocks.
    cbn [title f_description evidence f_solution f_cve cpe f_cvss_vector f_script_name one_block some_b]. lia.
Qed.
End ReportCorrect.

(** ** The knowledge base of a plugin *)

(** What is stored for a value, when it is a kind that can be. *)
Definition stored_as (v : lua_value) : option kb_value :=
  match v with
  | LString s => Some (KB_STRING (Some s))
  | LInteger i => Some (KB_INT i)
  | LFloat d => KB_INT <$> double_integer d
  | LBoolean b => Some (KB_BOOL b)
  | _ => None
  end.

(** What a plugin writes it reads.  On a well-formed knowledge base
    [set_kb_item] either stores the value and [get_kb_item] answers it (an
    integer for a float with an integer value), every other key keeping its
    value, or it raises and nothing has changed; it raises only for a value of
    another kind, a key or string the knowledge base rejects, or when an
    allocation failed. *)
Theorem kb_item_roundtrip k key v h :
  kb_ok k ->
  let '(res, k', h') := api_set_kb_item k key v h in
  kb_ok k' /\ live h' - kb_blocks k' = live h - kb_blocks k /\
  match res with
  | Some _ => exists stored, stored_as v = Some stored /\ api_get_kb_item k' key = push_value stored /\
      kb_map k' = <[c_string key := stored]> (kb_map k)
  | None => k' = k /\
      (stored_as v = None \/ kb_validate_key (Some (c_string key)) = false \/
       (exists stored, stored_as v = Some stored /\ ~ stored_value_ok stored) \/ false ∈ oracle h)
  end.
Proof.
  intros Hk.
  assert (Hset : forall stored r, stored_as v = Some stored -> set_contract (Some (c_string key)) stored k h r ->
    let '(rc, ko, h') := r in
    let k' := default k ko in
    kb_ok k' /\ live h' - kb_blocks k' = live h - kb_blocks k /\
    match (if rc =? 0 then Some tt else None) with
    | Some _ => exists stored, stored_as v = Some stored /\ api_get_kb_item k' key = push_value stored /\
        kb_map k' = <[c_string key := stored]> (kb_map k)
    | None => k' = k /\ (stored_as v = None \/ kb_validate_key (Some (c_string key)) = false \/
        (exists stored, stored_as v = Some stored /\ ~ stored_value_ok stored) \/ false ∈ oracle h)
    end).
  { intros stored r Hs (code & k' & h' & -> & Hk' & Hl & [(-> & -> & Hwhy)|(-> & ky & [= <-] & Hkey & Hmap)]); cbn [default];
      unfold id; (split; [done|split; [done|]]); cbn [Z.eqb].
    - split; [done|]. destruct Hwhy as [?|[?|?]]; eauto 6.
    - exists stored. split_and!; [done| |done]. unfold api_get_kb_item, kb_get. rewrite Hkey. cbn [negb].
      pose proof (kb_map_find k' (c_string key) (ok_table _ Hk')) as Hf. rewrite Hmap, lookup_insert_eq in Hf.
      destruct (kb_find k' (c_string key)) as [e|]; [|done]. by injection Hf as <-. }
  unfold api_set_kb_item.
  destruct v as [|i|d|s| | |b]; try (split; [done|split; [lia|]]; split; [done|by left]).
  - specialize (Hset (KB_INT i) _ eq_refl (set_scalar_contract k _ (KB_INT i) h Hk I eq_refl)). unfold kb_set_int.
    destruct (kb_set_scalar _ _ _ _) as [[rc ko] h']. exact Hset.
  - cbn [stored_as] in *. destruct (double_integer d) as [i|]; cbn [fmap option_fmap option_map] in *.
    + specialize (Hset (KB_INT i) _ eq_refl (set_scalar_contract k _ (KB_INT i) h Hk I eq_refl)). unfold kb_set_int.
      destruct (kb_set_scalar _ _ _ _) as [[rc ko] h']. exact Hset.
    + split; [done|split; [lia|]]. split; [done|by left].
  - specialize (Hset (KB_STRING (Some s)) _ eq_refl (set_str_contract k _ s h Hk)).
    destruct (kb_set_str_n _ _ _ _) as [[rc ko] h']. exact Hset.
  - specialize (Hset (KB_BOOL b) _ eq_refl (set_scalar_contract k _ (KB_BOOL b) h Hk I eq_refl)). unfold kb_set_bool.
    destruct (kb_set_scalar _ _ _ _) as [[rc ko] h']. exact Hset.
Qed.

Lemma kb_item_roundtrip_witness :
  let '(res, k', _) := api_set_kb_item empty_kb (bs "Web/tls") (LFloat (Dyadic 3 0)) (Heap [] 2) in
  kb_ok k' /\ res = Some tt /\ api_get_kb_item k' (bs "Web/tls") = LInteger 3.
Proof.
  pose proof (kb_item_roundtrip empty_kb (bs "Web/tls") (LFloat (Dyadic 3 0)) (Heap [] 2) empty_kb_ok) as H.
  assert (Hres : fst (fst (api_set_kb_item empty_kb (bs "Web/tls") (LFloat (Dyadic 3 0)) (Heap [] 2))) = Some tt)
    by (vm_compute; reflexivity).
  destruct (api_set_kb_item _ _ _ _) as [[res k'] h']. cbn [fst] in Hres. subst res.
  destruct H as (Hk & _ & stored & [= <-] & Hget & _). split_and!; [exact Hk|reflexivity|exact Hget].
Defined.

(** ** A report *)

Definition example_report : lua_fields := table
  [("severity", LInteger 3); ("title", LString (bs "t")); ("evidence", LString (bs "e")); ("port", LInteger 443);
   ("cve", LTable [LString (bs "CVE-2024-1"); LString (bs "CVE-2024-2")])]%string.

Lemma report_vuln_all_or_nothing_witness :
  exists l' h', report_vuln no_string zero_header example_report (FindingList [] 0) (Heap [] 0) = (Some tt, l', h') /\
    map title (items l') = [Some (bs "t")] /\ map f_cve_count (items l') = [2%nat] /\
    live (snd (finding_list_free (Some l') h')) = 0.
Proof.
  destruct (report_vuln_all_or_nothing no_string zero_header example_report (FindingList [] 0) (Heap [] 0))
    as (res & l' & h' & E & Hres & _ & _ & Hfree).
  - split; [cbn; lia|constructor].
  - apply not_elem_of_nil.
  - assert (Ev : report_vuln_validate_fields no_string example_report = true) by (vm_compute; reflexivity).
    rewrite Ev in Hres. destruct Hres as [-> Hitems]. exists l', h'. split; [exact E|]. rewrite Hitems.
    split; [vm_compute; reflexivity|]. split; [vm_compute; reflexivity|exact Hfree].
Defined.

(** A wrong field raises before anything is allocated. *)
Example bad_report_allocates_nothing :
  report_vuln no_string zero_header (fun f => if bool_decide (f = bs "cpe") then LInteger 1 else example_report f)
    (FindingList [] 0) (Heap [] 0) = (None, FindingList [] 0, Heap [] 0).
Proof. vm_compute. reflexivity. Qed.
