(* ===== verification/ServiceDetect.v ===== *)
(** * Service detection ([src/src/net/service_detect.c], [svc_token.c],
    [svc_ssh.c], [svc_ftp.c], [cpe_map.c], [http_probe.c])

    From what a port answers to facts in the knowledge base.  The sockets and
    OpenSSL are parameters: the banner, the raw response to the GET request,
    and whether the TLS handshake succeeds and what [tls_inspect.c] then
    writes.  The state is the knowledge base and the heap. *)

From S2P Require Import Prelude CveId VersionCompare KbValidate Kb.

(** ** Writing facts *)

Definition facts : Type := kb * heap.

Definition kept (k : kb) (r : Z * option kb * heap) : Z * facts := let '(rc, k', h) := r in (rc, (default k k', h)).

Definition write_int (key : bytes) (v : Z) (s : facts) : Z * facts := kept (fst s) (kb_set_int (Some (fst s)) (Some key) v (snd s)).
Definition write_bool (key : bytes) (b : bool) (s : facts) : Z * facts := kept (fst s) (kb_set_bool (Some (fst s)) (Some key) b (snd s)).
Definition write_str_n (key value : bytes) (s : facts) : Z * facts :=
  kept (fst s) (kb_set_str_n (Some (fst s)) (Some key) (Span value) (snd s)).
Definition write_str (key value : bytes) (s : facts) : Z * facts :=
  kept (fst s) (kb_set_str (Some (fst s)) (Some key) (Some value) (snd s)).

(** ** Service tokens ([svc_token.c]) *)

Definition token_key (token : bytes) (port : Z) : bytes := bs "Services/" ++ token ++ bs "/" ++ print_dec port.

(** [cytadel_svc_token_write] *)
Definition svc_token_write (token : bytes) (port : Z) (s : facts) : Z * facts :=
  let key := token_key token port in
  if 64 <=? Z.of_nat (length key) then (-1, s) else write_int key port s.

Definition well_known_ports : list (Z * string) :=
  [(21, "ftp"); (22, "ssh"); (23, "telnet"); (25, "smtp"); (53, "dns"); (80, "www"); (110, "pop3"); (143, "imap");
   (161, "snmp"); (443, "https"); (445, "smb"); (465, "smtp"); (587, "smtp"); (993, "imap"); (995, "pop3");
   (3306, "mysql"); (3389, "rdp"); (5432, "postgresql"); (6379, "redis"); (8000, "www"); (8080, "www");
   (8443, "https"); (8888, "www")]%string.

Definition svc_token_for_well_known_port (port : Z) : option bytes :=
  match List.find (fun e => fst e =? port) well_known_ports with Some e => Some (bs (snd e)) | None => None end.

Definition svc_is_tls_candidate_port (port : Z) : bool :=
  existsb (Z.eqb port) [443; 8443; 465; 636; 990; 992; 993; 995].

Definition svc_is_http_port (port : Z) : bool := existsb (Z.eqb port) [80; 81; 443; 8000; 8080; 8443; 8888].

(** ** Products ([cpe_map.c]) *)

Definition CPE_VERSION_MAX_LEN : nat := 63.

(** [cytadel_cpe_rule_t] *)
Record cpe_rule := CpeRule { marker : bytes; rule_vendor : bytes; rule_product : bytes }.

Definition cpe_rules : list cpe_rule :=
  [CpeRule (bs "OpenSSH_") (bs "openbsd") (bs "openssh");
   CpeRule (bs "Apache/") (bs "apache") (bs "http_server");
   CpeRule (bs "nginx/") (bs "nginx") (bs "nginx");
   CpeRule (bs "vsFTPd ") (bs "vsftpd_project") (bs "vsftpd");
   CpeRule (bs "ProFTPD ") (bs "proftpd") (bs "proftpd");
   CpeRule (bs "Microsoft-IIS/") (bs "microsoft") (bs "iis");
   CpeRule (bs "lighttpd/") (bs "lighttpd") (bs "lighttpd")].

(** [cytadel_cpe_find]: the first offset, from [i]. *)
Fixpoint cpe_find (haystack needle : bytes) (i : nat) : option nat :=
  if bool_decide (take (length needle) haystack = needle) && negb (Nat.eqb (length needle) 0) then Some i
  else match haystack with
  | [] => None
  | _ :: haystack => cpe_find haystack needle (S i)
  end.

Definition cpe_version_char_ok (c : byte) : bool :=
  ((65 <=? c) && (c <=? 90)) || ((97 <=? c) && (c <=? 122)) || ((48 <=? c) && (c <=? 57)) ||
  (c =? 46) || (c =? 95) || (c =? 45).

(** [cytadel_cpe_extract_version] *)
Definition cpe_extract_version (text : bytes) (start : nat) : bytes :=
  map to_lower_ascii (take_while cpe_version_char_ok (take CPE_VERSION_MAX_LEN (drop start text))).

Definition cpe_string (vendor product version : bytes) : bytes :=
  bs "cpe:2.3:a:" ++ vendor ++ bs ":" ++ product ++ bs ":" ++ version ++ bs ":*:*:*:*:*:*:*".

Definition cpe_key (port : Z) : bytes := bs "CPE/" ++ print_dec port.

(** [cytadel_cpe_map_and_write] of a text that is not NULL. *)
Fixpoint cpe_apply_rules (rules : list cpe_rule) (port : Z) (text : bytes) (s : facts) : bool * facts :=
  match rules with
  | [] => (false, s)
  | rule :: rules =>
      match cpe_find text (marker rule) 0 with
      | None => cpe_apply_rules rules port text s
      | Some marker_at =>
          let version := cpe_extract_version text (marker_at + length (marker rule)) in
          if Nat.eqb (length version) 0 then (false, s) else
          let cpe := cpe_string (rule_vendor rule) (rule_product rule) version in
          if 16 + 32 + 32 + 63 + 32 <=? Z.of_nat (length cpe) then (false, s) else
          let key := cpe_key port in
          if 32 <=? Z.of_nat (length key) then (false, s) else
          let '(rc, s) := write_str key cpe s in (rc =? 0, s)
      end
  end.

Definition cpe_map_and_write (port : Z) (text : bytes) (s : facts) : bool * facts :=
  if Nat.eqb (length text) 0 then (false, s) else cpe_apply_rules cpe_rules port text s.

(** ** SSH and FTP *)

Definition not_eol (c : byte) : bool := negb (c =? 13) && negb (c =? 10).

(** A key [<prefix><port><suffix>]. *)
Definition port_key (prefix : string) (port : Z) (suffix : string) : bytes := bs prefix ++ print_dec port ++ bs suffix.

(** The protocol version and the software version of an identification string. *)
Definition ssh_identification (banner : bytes) : option (bytes * bytes) :=
  if Nat.ltb (length banner) 4 then None else
  if negb (bool_decide (take 4 banner = bs "SSH-")) then None else
  let proto := take_while (fun c => negb (c =? 45) && not_eol c) (drop 4 banner) in
  match drop (length proto) (drop 4 banner) with
  | c :: rest =>
      if negb (c =? 45) then None else
      if Nat.eqb (length proto) 0 || Nat.ltb 15 (length proto) then None else
      let software := take_while not_eol rest in
      if Nat.eqb (length software) 0 then None else Some (proto, software)
  | [] => None
  end.

(** [cytadel_svc_ssh_detect] *)
Definition svc_ssh_detect (port : Z) (banner : bytes) (s : facts) : bool * facts :=
  match ssh_identification banner with
  | None => (false, s)
  | Some (protocol, software) =>
      let version := take (4 + length protocol + 1 + length software) banner in
      let s := snd (write_str_n (port_key "SSH/" port "/version") version s) in
      let s := snd (write_str_n (port_key "SSH/" port "/protocol") protocol s) in
      let s := snd (svc_token_write (bs "ssh") port s) in
      let s := snd (cpe_map_and_write port software s) in
      (true, s)
  end.

(** [cytadel_svc_ftp_detect] *)
Definition svc_ftp_detect (port : Z) (banner : bytes) (s : facts) : bool * facts :=
  let line := take_while not_eol banner in
  if Nat.eqb (length line) 0 then (false, s) else
  let s := snd (write_str_n (port_key "FTP/" port "/banner") line s) in
  let s := snd (svc_token_write (bs "ftp") port s) in
  let s := snd (cpe_map_and_write port line s) in
  (true, s).

(** ** HTTP ([http_probe.c])

    Reads of the response are checked: [None] is a read out of its bounds. *)

(** [cytadel_http_probe_result_t]; the buffers hold 255 bytes. *)
Record http_probe_result := HttpResult { status : Z; server : bytes; title : bytes }.

(** [while (i < stop && f(buf[i])) i++] *)
Fixpoint scan_while (f : byte -> bool) (buf : bytes) (fuel i stop : nat) : option nat :=
  match fuel with
  | O => Some i
  | S fuel =>
      if Nat.ltb i stop then
        match buf !! i with
        | None => None
        | Some c => if f c then scan_while f buf fuel (S i) stop else Some i
        end
      else Some i
  end.

(** The bytes from [start], [n] of them. *)
Definition sub (buf : bytes) (start n : nat) : option bytes :=
  if Nat.leb (start + n) (length buf) then Some (take n (drop start buf)) else None.

(** [strncasecmp(buf + i, lit, strlen(lit)) == 0] *)
Definition ci_equal (buf : bytes) (i : nat) (lit : bytes) : option bool :=
  option_map (fun s => bool_decide (map to_lower_ascii s = map to_lower_ascii lit)) (sub buf i (length lit)).

Definition is_digit (c : byte) : bool := (48 <=? c) && (c <=? 57).

Definition parse_status (buf : bytes) : option Z :=
  let len := length buf in
  if Nat.leb 5 len && bool_decide (take 5 buf = bs "HTTP/") then
    i ← scan_while (fun c => negb (c =? 32) && negb (c =? 10)) buf len 5 len;
    if Nat.ltb i len then
      c ← buf !! i;
      if negb (c =? 32) then Some (-1) else
      if Nat.leb (S i + 3) len then
        c1 ← buf !! (i + 1)%nat; c2 ← buf !! (i + 2)%nat; c3 ← buf !! (i + 3)%nat;
        Some (if is_digit c1 && is_digit c2 && is_digit c3
              then (c1 - 48) * 100 + (c2 - 48) * 10 + (c3 - 48) else -1)
      else Some (-1)
    else Some (-1)
  else Some (-1).

Definition clip_len (n : nat) : nat := if Nat.ltb n 255 then n else 255%nat.

(** The value of one header line from [line_start] to [content_end]. *)
Definition header_line (buf : bytes) (line_start content_end : nat) (old : bytes) : option bytes :=
  colon ← scan_while (fun c => negb (c =? 58)) buf (length buf) line_start content_end;
  if negb (Nat.ltb colon content_end) then Some old else
  value_start ← scan_while (fun c => (c =? 32) || (c =? 9)) buf (length buf) (S colon) content_end;
  if Nat.eqb (colon - line_start) 6 then
    same ← ci_equal buf line_start (bs "Server");
    if same : bool then sub buf value_start (clip_len (content_end - value_start)) else Some old
  else Some old.

(** The header loop: the end of the headers and the server. *)
Fixpoint header_loop (fuel : nat) (buf : bytes) (line_start : nat) (srv : bytes) : option (nat * bytes) :=
  match fuel with
  | O => None
  | S fuel =>
      let len := length buf in
      if negb (Nat.ltb line_start len) then Some (len, srv) else
      line_end ← scan_while (fun c => negb (c =? 10)) buf len line_start len;
      content_end ←
        (if Nat.ltb line_start line_end then
           c ← buf !! (line_end - 1)%nat; Some (if c =? 13 then (line_end - 1)%nat else line_end)
         else Some line_end);
      if Nat.eqb content_end line_start then Some (if Nat.ltb line_end len then S line_end else line_end, srv) else
      srv ← header_line buf line_start content_end srv;
      header_loop fuel buf (if Nat.ltb line_end len then S line_end else line_end) srv
  end.

(** The inner loop: the offset of the closing tag, from [j]. *)
Fixpoint find_ci (fuel : nat) (body lit : bytes) (j : nat) : option (option nat) :=
  match fuel with
  | O => Some None
  | S fuel =>
      if Nat.leb (j + length lit) (length body) then
        same ← ci_equal body j lit;
        if same : bool then Some (Some j) else find_ci fuel body lit (S j)
      else Some None
  end.

Definition parse_title (body : bytes) : option bytes :=
  open_at ← find_ci (S (length body)) body (bs "<title>") 0;
  match open_at with
  | None => Some []
  | Some i =>
      let title_start := (i + 7)%nat in
      close_at ← find_ci (S (length body)) body (bs "</title>") title_start;
      match close_at with
      | None => Some []
      | Some j => sub body title_start (clip_len (j - title_start))
      end
  end.

(** [cytadel_http_parse_response] *)
Definition http_parse_response (buf : bytes) : option http_probe_result :=
  let len := length buf in
  if Nat.eqb len 0 then Some (HttpResult (-1) [] []) else
  status ← parse_status buf;
  pos ← scan_while (fun c => negb (c =? 10)) buf len 0 len;
  let pos := if Nat.ltb pos len then S pos else pos in
  '(headers_end, srv) ← header_loop (S len) buf pos [];
  if Nat.leb len headers_end then Some (HttpResult status srv []) else
  title ← parse_title (drop headers_end buf);
  Some (HttpResult status srv title).

(** ** Dispatch ([service_detect.c]) *)

(** [cytadel_service_detect_contains_ci] *)
Fixpoint contains_ci (haystack needle : bytes) : bool :=
  (negb (Nat.eqb (length needle) 0) &&
   bool_decide (map to_lower_ascii (take (length needle) haystack) = map to_lower_ascii needle)) ||
  match haystack with [] => false | _ :: haystack => contains_ci haystack needle end.

Definition starts_nonzero (s : bytes) : bool := match s with [] => false | c :: _ => negb (c =? 0) end.

(** [cytadel_service_detect_write_http_facts] *)
Definition write_http_facts (port : Z) (http : http_probe_result) (s : facts) : facts :=
  let s := if 0 <=? status http then snd (write_int (port_key "HTTP/" port "/status") (status http) s) else s in
  let s :=
    if starts_nonzero (server http) then
      let s := snd (write_str_n (port_key "HTTP/" port "/server") (server http) s) in
      snd (cpe_map_and_write port (server http) s)
    else s in
  let s := if starts_nonzero (title http) then snd (write_str_n (port_key "HTTP/" port "/title") (title http) s) else s in
  snd (svc_token_write (bs "www") port s).

(** A response that was read, [None] when the probe failed before. *)
Definition http_probe (response : option bytes) : option http_probe_result :=
  match response with Some buf => http_parse_response buf | None => None end.

Definition write_token_opt (token : option bytes) (port : Z) (s : facts) : facts :=
  match token with Some token => snd (svc_token_write token port s) | None => s end.

(** What a port does: the facts [tls_inspect.c] writes after a handshake that
    succeeds, with the HTTP response over TLS; the plain HTTP response; the
    banner, [None] when there was no connection. *)
Record endpoint := Endpoint {
  tls : option ((facts -> facts) * option bytes);
  plain_http : option bytes;
  banner : option bytes
}.

(** [cytadel_service_detect_try_tls] *)
Definition service_detect_try_tls (port : Z) (e : endpoint) (s : facts) : bool * facts :=
  let enabled_key := port_key "TLS/" port "/enabled" in
  match tls e with
  | None => (false, snd (write_bool enabled_key false s))
  | Some (tls_populate_kb, response) =>
      let s := snd (write_bool enabled_key true s) in
      let s := tls_populate_kb s in
      let s := snd (svc_token_write (bs "https") port s) in
      let s :=
        if svc_is_http_port port then
          match http_probe response with Some http => write_http_facts port http s | None => s end
        else write_token_opt (svc_token_for_well_known_port port) port s in
      (true, s)
  end.

(** [cytadel_service_detect_plaintext] *)
Definition service_detect_plaintext (port : Z) (e : endpoint) (s : facts) : facts :=
  if svc_is_http_port port then
    match http_probe (plain_http e) with Some http => write_http_facts port http s | None => s end
  else
    match banner e with
    | None | Some [] => write_token_opt (svc_token_for_well_known_port port) port s
    | Some b =>
        let line := take_while not_eol b in
        let s := if Nat.ltb 0 (length line) then snd (write_str_n (port_key "Banner/" port "") line s) else s in
        let '(ssh, s) := svc_ssh_detect port b s in
        if ssh then s else
        let looks_like_ftp := (port =? 21) || contains_ci b (bs "ftp") in
        let '(ftp, s) := if looks_like_ftp then svc_ftp_detect port b s else (false, s) in
        if ftp then s else write_token_opt (svc_token_for_well_known_port port) port s
    end.

(** [cytadel_service_detect_port]; a NULL address is [None]. *)
Definition service_detect_port (ip : option bytes) (port : Z) (e : endpoint) (s : facts) : facts :=
  match ip with
  | None => s
  | Some _ =>
      if port =? 0 then s else
      let '(done, s) := if svc_is_tls_candidate_port port then service_detect_try_tls port e s else (false, s) in
      if done then s else service_detect_plaintext port e s
  end.

(** ** Lemmas: writes *)

(** The families of the keys service detection writes. *)
Definition fact_families : list bytes :=
  map bs ["Services"; "CPE"; "SSH"; "FTP"; "HTTP"; "Banner"; "TLS"]%string.

(** A key of these families with the port as one of its segments. *)
Definition about_port (port : Z) (key : bytes) : Prop :=
  match split_on 47 key with
  | family :: segments => family ∈ fact_families /\ print_dec port ∈ segments
  | [] => False
  end.

#[export] Instance about_port_dec port key : Decision (about_port port key).
Proof. unfold about_port. destruct (split_on 47 key); apply _. Defined.

(** From [s] to [s'] the knowledge base stays well formed, its blocks are
    accounted for, only facts of [P] change, and no allocation is undone. *)
Definition facts_step (P : bytes -> Prop) (s s' : facts) : Prop :=
  kb_ok (fst s) -> kb_ok (fst s') /\ live (snd s') - kb_blocks (fst s') = live (snd s) - kb_blocks (fst s) /\
  (forall key, ~ P key -> kb_map (fst s') !! key = kb_map (fst s) !! key) /\
  consumes (snd s) (snd s').

Notation port_step port := (facts_step (about_port port)).

#[export] Instance facts_step_preorder P : PreOrder (facts_step P).
Proof.
  split.
  - by intros s Hk.
  - intros s s' s'' Hf Hg Hk. destruct (Hf Hk) as (H1 & H2 & H3 & H4). destruct (Hg H1) as (H5 & H6 & H7 & H8).
    split_and!; [done|lia| |by etransitivity]. intros key Hne. by rewrite H7, H3.
Qed.

Lemma facts_step_weaken (P Q : bytes -> Prop) s s' : (forall key, P key -> Q key) -> facts_step P s s' -> facts_step Q s s'.
Proof. intros HPQ H Hk. destruct (H Hk) as (H1 & H2 & H3 & H4). split_and!; [done..| |done]. intros key Hne. apply H3. auto. Qed.

(** One write: the binding, or nothing and an error. *)
Definition wrote (key : bytes) (v : kb_value) (s : facts) (r : Z * facts) : Prop :=
  kb_ok (fst (snd r)) /\ live (snd (snd r)) - kb_blocks (fst (snd r)) = live (snd s) - kb_blocks (fst s) /\
  consumes (snd s) (snd (snd r)) /\
  ((fst r = 0 /\ kb_validate_key (Some key) = true /\ kb_map (fst (snd r)) = <[key := v]> (kb_map (fst s))) \/
   (fst r = -1 /\ fst (snd r) = fst s /\
    (kb_validate_key (Some key) = false \/ ~ stored_value_ok v \/ false ∈ oracle (snd s)))).

Lemma kept_wrote key v s r :
  set_contract (Some key) v (fst s) (snd s) r -> consumes (snd s) (snd r) ->
  wrote key v s (kept (fst s) r).
Proof.
  intros (code & k' & h' & -> & Hk & Hl & Hor) Ho. unfold wrote, kept. cbn [fst snd default]. unfold id. split_and!; [done|done|exact Ho|].
  destruct Hor as [(-> & -> & Hw)|(-> & ky & [= <-] & Hkey & Hmap)]; [right|left]; done.
Qed.

Lemma write_int_wrote key v s : kb_ok (fst s) -> wrote key (KB_INT v) s (write_int key v s).
Proof. intros Hk. apply kept_wrote; [by apply set_scalar_contract|apply set_scalar_oracle]. Qed.

Lemma write_bool_wrote key b s : kb_ok (fst s) -> wrote key (KB_BOOL b) s (write_bool key b s).
Proof. intros Hk. apply kept_wrote; [by apply set_scalar_contract|apply set_scalar_oracle]. Qed.

Lemma write_str_n_wrote key v s : kb_ok (fst s) -> wrote key (KB_STRING (Some v)) s (write_str_n key v s).
Proof. intros Hk. apply kept_wrote; [by apply set_str_contract|apply set_str_oracle]. Qed.

Lemma write_str_wrote key v s : kb_ok (fst s) -> wrote key (KB_STRING (Some v)) s (write_str key v s).
Proof. apply write_str_n_wrote. Qed.

(** A write keeps the other keys, whether it succeeds or not. *)
Lemma wrote_other key v s r key' : wrote key v s r -> key' <> key -> kb_map (fst (snd r)) !! key' = kb_map (fst s) !! key'.
Proof. intros (_ & _ & _ & [(_ & _ & ->)|(_ & -> & _)]) Hne; [by rewrite lookup_insert_ne|done]. Qed.

(** An acceptable write stores its value while allocations succeed. *)
Lemma wrote_stored key v s r :
  wrote key v s r -> kb_validate_key (Some key) = true -> stored_value_ok v -> false ∉ oracle (snd s) ->
  kb_map (fst (snd r)) !! key = Some v.
Proof.
  intros (_ & _ & _ & [(_ & _ & ->)|(_ & _ & [Hk|[Hv|Ho]])]) ???; [apply lookup_insert_eq|congruence|done|done].
Qed.

Lemma wrote_step (P : bytes -> Prop) key v s r : P key -> (kb_ok (fst s) -> wrote key v s r) -> facts_step P s (snd r).
Proof.
  intros Hp H Hk. pose proof (H Hk) as (H1 & H2 & H3 & _). split_and!; [done|done| |done]. intros key' Hne.
  eapply wrote_other; [by apply H|]. by intros ->.
Qed.

Section PortFacts.
Variable port : Z.
Hypothesis port_range : 0 <= port <= 65535.

Lemma port_digits_no_slash c : c ∈ print_dec port -> c <> 47.
Proof.
  intros Hc. destruct (print_dec_digits port ltac:(lia)) as [_ Hd]. rewrite Forall_forall in Hd. specialize (Hd c Hc). cbn in Hd. lia.
Qed.

Lemma families_no_slash family : family ∈ fact_families -> forall c, c ∈ family -> c <> 47.
Proof.
  intros Hf c Hc ->. revert Hc. assert (H : Forall (fun f => 47 ∉ f) fact_families) by (vm_compute; repeat constructor; set_solver).
  rewrite Forall_forall in H. by apply H.
Qed.

Lemma about_port_key family rest :
  family ∈ fact_families -> print_dec port ∈ split_on 47 rest -> about_port port (family ++ 47 :: rest).
Proof.
  intros Hf Hp. unfold about_port. rewrite split_on_app, (split_on_none 47 family) by by apply families_no_slash. cbn. done.
Qed.

(** The port begins a segment that ends there. *)
Lemma port_segment pre suf :
  (suf = [] \/ exists r, suf = 47 :: r) -> (pre = [] \/ exists q, pre = q ++ [47]) ->
  print_dec port ∈ split_on 47 (pre ++ print_dec port ++ suf).
Proof.
  intros Hsuf Hpre. assert (H : print_dec port ∈ split_on 47 (print_dec port ++ suf)).
  { destruct Hsuf as [->|[r ->]].
    - rewrite app_nil_r, split_on_none by apply port_digits_no_slash. by left.
    - rewrite split_on_app, (split_on_none 47 (print_dec port)) by apply port_digits_no_slash. by left. }
  destruct Hpre as [->|[q ->]]; [done|]. rewrite <- app_assoc. cbn [app]. rewrite split_on_app, elem_of_app. by right.
Qed.

Definition family_prefix (prefix : string) : bool :=
  existsb (fun family => bool_decide (bs prefix = family ++ [47])) fact_families.

Lemma about_port_prefix prefix suffix :
  family_prefix prefix = true -> default 47 (head (bs suffix)) = 47 -> about_port port (port_key prefix port suffix).
Proof.
  intros (family & Hin & Hp)%existsb_exists Hs. apply bool_decide_eq_true in Hp. unfold port_key. rewrite Hp, <- app_assoc.
  apply about_port_key; [by apply list_elem_of_In|]. apply (port_segment [] _); [|by left].
  destruct (bs suffix) as [|c r]; [by left|]. cbn in Hs. unfold id in Hs. subst c. right. by eexists.
Qed.

Lemma port_length : (length (print_dec port) <= 5)%nat.
Proof.
  unfold print_dec. destruct (Z.ltb_spec port 0); [lia|]. rewrite (dec_loop_length 20 port [] 5); cbn; lia.
Qed.

Lemma token_step token s : port_step port s (snd (svc_token_write token port s)).
Proof.
  unfold svc_token_write. destruct (64 <=? _); [reflexivity|]. eapply wrote_step; [|apply write_int_wrote].
  unfold token_key. change (bs "Services/") with (bs "Services" ++ [47]). rewrite <- app_assoc.
  apply about_port_key; [by left|]. pose proof (port_segment (token ++ [47]) [] (or_introl eq_refl)) as H.
  rewrite app_nil_r, <- app_assoc in H. apply H. right. by eexists.
Qed.

Lemma about_cpe_key : about_port port (cpe_key port).
Proof.
  unfold cpe_key. change (bs "CPE/") with (bs "CPE" ++ [47]). rewrite <- app_assoc. apply about_port_key; [right; by left|].
  pose proof (port_segment [] [] (or_introl eq_refl) (or_introl eq_refl)) as H. by rewrite app_nil_r in H.
Qed.

Lemma cpe_step text s : port_step port s (snd (cpe_map_and_write port text s)).
Proof.
  unfold cpe_map_and_write. destruct (Nat.eqb _ 0); [reflexivity|].
  induction cpe_rules as [|rule rules IH]; cbn [cpe_apply_rules]; [reflexivity|].
  destruct (cpe_find text (marker rule) 0) as [i|]; [|exact IH]. cbv zeta.
  destruct (Nat.eqb _ 0); [reflexivity|]. destruct (_ <=? _); [reflexivity|]. destruct (32 <=? _); [reflexivity|].
  match goal with |- context [write_str ?k ?v s] => pose proof (wrote_step (about_port port) _ _ s (write_str k v s) about_cpe_key (write_str_wrote _ _ s)) as H end.
  destruct (write_str _ _ s) as [rc s']. exact H.
Qed.

Lemma str_step prefix suffix v s :
  family_prefix prefix = true -> default 47 (head (bs suffix)) = 47 ->
  port_step port s (snd (write_str_n (port_key prefix port suffix) v s)).
Proof. intros Hp Hs. eapply wrote_step; [by apply about_port_prefix|apply write_str_n_wrote]. Qed.

Lemma int_step prefix suffix v s :
  family_prefix prefix = true -> default 47 (head (bs suffix)) = 47 ->
  port_step port s (snd (write_int (port_key prefix port suffix) v s)).
Proof. intros Hp Hs. eapply wrote_step; [by apply about_port_prefix|apply write_int_wrote]. Qed.

Lemma bool_step prefix suffix v s :
  family_prefix prefix = true -> default 47 (head (bs suffix)) = 47 ->
  port_step port s (snd (write_bool (port_key prefix port suffix) v s)).
Proof. intros Hp Hs. eapply wrote_step; [by apply about_port_prefix|apply write_bool_wrote]. Qed.

(** The last write of a sequence. *)
Ltac one_write :=
  first
  [ apply token_step | apply cpe_step
  | first [apply str_step | apply int_step | apply bool_step]; reflexivity ].
Ltac writes := repeat (etransitivity; [|one_write]); try reflexivity.

Lemma ssh_step b s : port_step port s (snd (svc_ssh_detect port b s)).
Proof.
  unfold svc_ssh_detect. destruct (ssh_identification b) as [[protocol software]|]; [|reflexivity]. cbn [snd]. writes.
Qed.

Lemma ftp_step b s : port_step port s (snd (svc_ftp_detect port b s)).
Proof. unfold svc_ftp_detect. cbv zeta. destruct (Nat.eqb _ 0); [reflexivity|]. cbn [snd]. writes. Qed.

Lemma token_opt_step token s : port_step port s (write_token_opt token port s).
Proof. destruct token; cbn [write_token_opt]; [apply token_step|reflexivity]. Qed.

Lemma http_facts_step http s : port_step port s (write_http_facts port http s).
Proof.
  unfold write_http_facts. cbv zeta. etransitivity; [|apply token_step].
  etransitivity; [|destruct (starts_nonzero (title http)); [apply str_step; reflexivity|reflexivity]].
  etransitivity; [|destruct (starts_nonzero (server http)); [cbn [snd]; writes|reflexivity]].
  destruct (0 <=? status http); [apply int_step; reflexivity|reflexivity].
Qed.

Lemma probe_step response s :
  port_step port s (match http_probe response with Some http => write_http_facts port http s | None => s end).
Proof. destruct (http_probe response); [apply http_facts_step|reflexivity]. Qed.

Lemma plaintext_step e s : port_step port s (service_detect_plaintext port e s).
Proof.
  unfold service_detect_plaintext. destruct (svc_is_http_port port); [apply probe_step|].
  destruct (banner e) as [[|c b]|]; [apply token_opt_step| |apply token_opt_step]. cbv zeta.
  set (s1 := if Nat.ltb 0 _ then _ else s).
  transitivity s1; [subst s1; destruct (Nat.ltb 0 _); [apply str_step; reflexivity|reflexivity]|]. clearbody s1.
  pose proof (ssh_step (c :: b) s1) as H. destruct (svc_ssh_detect port (c :: b) s1) as [[] s2]; [exact H|]. etransitivity; [exact H|].
  pose proof (ftp_step (c :: b) s2) as H2. destruct (_ || _); [|apply token_opt_step].
  destruct (svc_ftp_detect port (c :: b) s2) as [[] s3]; [exact H2|]. etransitivity; [exact H2|apply token_opt_step].
Qed.

Variable e : endpoint.

(** [tls_inspect.c] writes the facts of the port it was asked about. *)
Hypothesis tls_writes : forall populate response, tls e = Some (populate, response) -> forall s, port_step port s (populate s).

Lemma try_tls_step s : port_step port s (snd (service_detect_try_tls port e s)).
Proof.
  unfold service_detect_try_tls. destruct (tls e) as [[populate response]|] eqn:Ht; cbv zeta; cbn [snd].
  - etransitivity; [|destruct (svc_is_http_port port); [apply probe_step|apply token_opt_step]].
    etransitivity; [|apply token_step]. etransitivity; [|eapply tls_writes; reflexivity]. apply bool_step; reflexivity.
  - apply bool_step; reflexivity.
Qed.

Lemma detect_step ip s : port_step port s (service_detect_port ip port e s).
Proof.
  unfold service_detect_port. destruct ip; [|reflexivity]. destruct (port =? 0); [reflexivity|].
  pose proof (try_tls_step s) as H. destruct (svc_is_tls_candidate_port port); [|apply plaintext_step].
  destruct (service_detect_try_tls port e s) as [[] s1]; [exact H|]. etransitivity; [exact H|apply plaintext_step].
Qed.
End PortFacts.

(** ** Lemmas: the response parser *)

Lemma scan_while_spec f buf fuel i stop :
  (stop <= length buf)%nat -> (stop <= i + fuel)%nat ->
  exists j, scan_while f buf fuel i stop = Some j /\ (i <= j <= max i stop)%nat.
Proof.
  intros Hlen. induction fuel as [|fuel IH] in i |- *; intros Hf; cbn [scan_while]; [exists i; split; [done|lia]|].
  destruct (Nat.ltb_spec i stop) as [Hlt|]; [|exists i; split; [done|lia]].
  destruct (lookup_lt_is_Some_2 buf i ltac:(lia)) as [c ->]. destruct (f c); [|exists i; split; [done|lia]].
  destruct (IH (S i) ltac:(lia)) as (j & -> & Hj). exists j. split; [done|lia].
Qed.

(** A piece of the response that fits a result buffer. *)
Definition clipped (buf piece : bytes) : Prop := (length piece <= 255)%nat /\ exists i n, piece = take n (drop i buf).

Lemma clipped_nil buf : clipped buf [].
Proof. split; [cbn; lia|]. by exists 0%nat, 0%nat. Qed.

Lemma clipped_drop k buf piece : clipped (drop k buf) piece -> clipped buf piece.
Proof. intros (Hn & i & n & ->). split; [done|]. exists (k + i)%nat, n. by rewrite drop_drop. Qed.

Lemma clip_len_le n : (clip_len n <= n /\ clip_len n <= 255)%nat.
Proof. unfold clip_len. destruct (Nat.ltb_spec n 255); lia. Qed.

Lemma sub_clipped buf start n : (start + n <= length buf)%nat ->
  exists piece, sub buf start (clip_len n) = Some piece /\ clipped buf piece.
Proof.
  intros H. pose proof (clip_len_le n). unfold sub. destruct (Nat.leb_spec (start + clip_len n) (length buf)); [|lia].
  eexists. split; [done|]. split; [rewrite length_take; lia|by eexists _, _].
Qed.

Lemma ci_equal_some buf i lit : (i + length lit <= length buf)%nat -> exists b, ci_equal buf i lit = Some b.
Proof. intros H. unfold ci_equal, sub. destruct (Nat.leb_spec (i + length lit) (length buf)); [|lia]. by eexists. Qed.

(** The next read of the parser succeeds. *)
Ltac scanned :=
  match goal with
  | |- context [scan_while ?f ?buf ?fuel ?i ?stop] =>
      let j := fresh "j" in let Hj := fresh "Hj" in
      destruct (scan_while_spec f buf fuel i stop ltac:(lia) ltac:(lia)) as (j & -> & Hj); cbn [mbind option_bind]
  | |- context [?buf !! ?i] => destruct (lookup_lt_is_Some_2 buf i ltac:(lia)) as [? ->]; cbn [mbind option_bind]
  end.

Lemma parse_status_spec buf : exists v, parse_status buf = Some v /\ (v = -1 \/ 0 <= v <= 999).
Proof.
  unfold parse_status. destruct (Nat.leb_spec 5 (length buf)); cbn [andb]; [|eexists; split; [done|by left]].
  destruct (bool_decide _); [|eexists; split; [done|by left]]. scanned.
  destruct (Nat.ltb_spec j (length buf)); [|eexists; split; [done|by left]]. scanned.
  destruct (negb _); [eexists; split; [done|by left]|].
  destruct (Nat.leb_spec (S j + 3) (length buf)); [|eexists; split; [done|by left]]. do 3 scanned.
  eexists. split; [done|]. destruct (is_digit _ && _ && _) eqn:Hd; [|by left]. unfold is_digit in Hd. right. lia.
Qed.

Lemma header_line_spec buf line_start content_end old :
  (line_start <= content_end <= length buf)%nat -> clipped buf old ->
  exists srv, header_line buf line_start content_end old = Some srv /\ clipped buf srv.
Proof.
  intros Hl Hold. unfold header_line. scanned. destruct (Nat.ltb_spec j content_end); cbn [negb]; [|by exists old].
  scanned. destruct (Nat.eqb_spec (j - line_start) 6); [|by exists old].
  destruct (ci_equal_some buf line_start (bs "Server") ltac:(cbn; lia)) as [[] ->]; cbn [mbind option_bind]; [|by exists old].
  apply sub_clipped. lia.
Qed.

Lemma header_loop_spec fuel buf line_start srv :
  (length buf < line_start + fuel)%nat -> (line_start <= length buf)%nat -> clipped buf srv ->
  exists e srv', header_loop fuel buf line_start srv = Some (e, srv') /\ (e <= length buf)%nat /\ clipped buf srv'.
Proof.
  induction fuel as [|fuel IH] in line_start, srv |- *; intros Hf Hl Hs; [lia|]. cbn [header_loop].
  destruct (Nat.ltb_spec line_start (length buf)) as [Hlt|]; cbn [negb]; [|by exists (length buf), srv]. scanned.
  assert (Hce : exists ce, (if Nat.ltb line_start j then
      c ← buf !! (j - 1)%nat; Some (if c =? 13 then (j - 1)%nat else j) else Some j) = Some ce /\ (line_start <= ce <= j)%nat).
  { destruct (Nat.ltb_spec line_start j); [|exists j; split; [done|lia]]. scanned. eexists. split; [done|]. destruct (_ =? 13); lia. }
  destruct Hce as (ce & -> & Hce). cbn [mbind option_bind].
  assert (Hnext : (line_start < (if Nat.ltb j (length buf) then S j else j) <= length buf)%nat)
    by (destruct (Nat.ltb_spec j (length buf)); lia).
  destruct (Nat.eqb_spec ce line_start); [eexists _, srv; split; [done|]; split; [lia|done]|].
  destruct (header_line_spec buf line_start ce srv ltac:(lia) Hs) as (srv' & -> & Hs'). cbn [mbind option_bind].
  apply IH; [lia|lia|done].
Qed.

Lemma find_ci_spec fuel body lit j :
  (length body < j + fuel)%nat ->
  exists at_, find_ci fuel body lit j = Some at_ /\ forall i, at_ = Some i -> (j <= i /\ i + length lit <= length body)%nat.
Proof.
  induction fuel as [|fuel IH] in j |- *; intros Hf; cbn [find_ci]; [by exists None|].
  destruct (Nat.leb_spec (j + length lit) (length body)); [|by exists None].
  destruct (ci_equal_some body j lit ltac:(lia)) as [[] ->]; cbn [mbind option_bind].
  - eexists. split; [done|]. intros i [= <-]. lia.
  - destruct (IH (S j) ltac:(lia)) as (at_ & -> & H'). exists at_. split; [done|]. intros i Hi. specialize (H' i Hi). lia.
Qed.

Lemma parse_title_spec body : exists t, parse_title body = Some t /\ clipped body t.
Proof.
  unfold parse_title. destruct (find_ci_spec (S (length body)) body (bs "<title>") 0 ltac:(lia)) as ([i|] & -> & Hi); cbn [mbind option_bind];
    [|eexists; split; [done|apply clipped_nil]].
  destruct (Hi i eq_refl) as [_ Hi2]. cbn in Hi2.
  destruct (find_ci_spec (S (length body)) body (bs "</title>") (i + 7) ltac:(lia)) as ([k|] & -> & Hk); cbn [mbind option_bind];
    [|eexists; split; [done|apply clipped_nil]].
  destruct (Hk k eq_refl) as [Hk1 Hk2]. cbn in Hk2. apply sub_clipped. lia.
Qed.

(** ** Theorems *)

(** parsing an HTTP response never reads or writes out of bounds and always
    returns: whatever bytes a server sends, the parser gives a result; its
    status is -1 or a three-digit number, its server and its title fit the 256
    byte buffers and are pieces of what was received. *)
Theorem http_parse_in_bounds (buf : bytes) :
  exists r, http_parse_response buf = Some r /\ (status r = -1 \/ 0 <= status r <= 999) /\ clipped buf (server r) /\ clipped buf (title r).
Proof.
  unfold http_parse_response. cbv zeta.
  destruct (Nat.eqb_spec (length buf) 0); [eexists; split; [done|]; split_and!; [by left|apply clipped_nil..]|].
  destruct (parse_status_spec buf) as (v & -> & Hv). cbn [mbind option_bind]. scanned.
  destruct (header_loop_spec (S (length buf)) buf (if Nat.ltb j (length buf) then S j else j) []) as (he & srv & -> & Hhe & Hsrv);
    [destruct (Nat.ltb_spec j (length buf)); lia..|apply clipped_nil|].
  cbn [mbind option_bind]. destruct (Nat.leb_spec (length buf) he); [eexists; split; [done|]; split_and!; [done..|apply clipped_nil]|].
  destruct (parse_title_spec (drop he buf)) as (t & -> & Ht). cbn [mbind option_bind].
  eexists; split; [done|]; split_and!; [done..|by eapply clipped_drop].
Qed.

(** detecting the service of a port touches the facts of that port only:
    whatever the banner, the HTTP response and the certificate hold, the
    knowledge base stays well formed, its blocks stay accounted for, and every
    key keeps its value but those of the families [Services], [CPE], [SSH],
    [FTP], [HTTP], [Banner] and [TLS] with the port number as a segment,
    provided that [tls_inspect.c] does the same. *)
Theorem service_detect_frame (ip : option bytes) (port : Z) (e : endpoint) (k k' : kb) (h h' : heap) :
  0 <= port <= 65535 ->
  (forall populate response, tls e = Some (populate, response) -> forall s, port_step port s (populate s)) ->
  kb_ok k ->
  service_detect_port ip port e (k, h) = (k', h') ->
  kb_ok k' /\ live h' - kb_blocks k' = live h - kb_blocks k /\
  (forall key, ~ about_port port key -> kb_map k' !! key = kb_map k !! key).
Proof.
  intros Hp Htls Hk Hd. pose proof (detect_step port Hp e Htls ip (k, h) Hk) as H. rewrite Hd in H. split_and!; apply H.
Qed.

(** A knowledge base with one entry, and an SSH server on port 22. *)
Definition ssh_banner : bytes := bs "SSH-2.0-OpenSSH_9.6p1 Ubuntu" ++ [13; 10].
Definition one_host : facts := snd (write_bool (bs "Host/up") true (empty_kb, Heap [] 2)).

Lemma service_detect_frame_witness :
  exists k' h',
    service_detect_port (Some (bs "10.0.0.1")) 22 (Endpoint None None (Some ssh_banner)) one_host = (k', h') /\
    kb_get_str (Some k') (Some (bs "CPE/22")) = Some (bs "cpe:2.3:a:openbsd:openssh:9.6p1:*:*:*:*:*:*:*") /\
    kb_get (Some k') (Some (bs "Host/up")) = KB_GET_FOUND (KB_BOOL true) /\
    kb_map k' !! bs "Host/up" = kb_map (fst one_host) !! bs "Host/up".
Proof.
  destruct one_host as [k h] eqn:E0. pose proof (write_bool_wrote (bs "Host/up") true (empty_kb, Heap [] 2)) as Hw.
  destruct (service_detect_port (Some (bs "10.0.0.1")) 22 (Endpoint None None (Some ssh_banner)) (k, h)) as [k' h'] eqn:E.
  exists k', h'. split; [reflexivity|].
  assert (kb_ok k) by (destruct Hw as [H _]; [by apply empty_kb_ok|]; change (kb_ok (fst one_host)) in H; by rewrite E0 in H).
  assert (Hv : one_host = (k, h)) by exact E0. vm_compute in Hv. injection Hv as <- <-.
  split; [|split].
  - vm_compute in E. injection E as <- _. vm_compute. reflexivity.
  - vm_compute in E. injection E as <- _. vm_compute. reflexivity.
  - refine (proj2 (proj2 (service_detect_frame _ 22 _ _ _ _ _ _ _ H E)) _ _); [lia|done|].
    unfold about_port. vm_compute. intros [_ Hin]. by repeat (apply elem_of_cons in Hin as [Hin|Hin]; [discriminate Hin|]); inversion Hin.
Defined.
