(* ===== verification/TlsInspect.v ===== *)
(** * TLS facts ([src/src/net/tls_inspect.c])

    What a session and its certificate leave in the knowledge base.  A
    certificate is what OpenSSL answers about it; the objects of OpenSSL the
    code owns are counted. *)

From S2P Require Import Prelude CveId VersionCompare Cidr KbValidate Kb Calendar Log Streams ServiceDetect.

#[local] Arguments bs : simpl never.

(** ** Certificates *)

(** [struct tm] *)
Record tm := Tm { tm_year : Z; tm_mon : Z; tm_mday : Z; tm_hour : Z; tm_min : Z; tm_sec : Z }.

(** [X509_cmp_current_time] and [ASN1_TIME_to_tm]. *)
Record asn1_time := Asn1Time { cmp_current_time : Z; to_tm : option tm }.

(** An entry of the subject alternative names: NULL, of another type, or a DNS
    name and its bytes, [None] when they are NULL. *)
Inductive general_name := NullName | OtherName | DnsName (data : option bytes).

(** What OpenSSL answers.  The issuer: none, or one whose rendering in 512
    bytes may fail.  A text with a length is what [X509_NAME_get_text_by_NID] and
    [OBJ_obj2txt] leave in a buffer and the number they answer.  The serial
    number: none, one that is not a [BIGNUM], one without hexadecimals. *)
Record certificate := Certificate {
  cert_subject : bool;
  cert_issuer : option (option bytes);
  cert_name_cmp : Z;
  cert_common_name : Z * bytes;
  cert_alt_names : option (list general_name);
  cert_not_after : option asn1_time;
  cert_not_before : option asn1_time;
  cert_sig_alg : option (Z * bytes);
  cert_serial : option (option (option bytes));
  cert_pubkey : option Z
}.

(** [SSL_get_version], [SSL_get_cipher] and [SSL_get1_peer_certificate]. *)
Record session_info := SessionInfo { info_version : option bytes; info_cipher : option bytes; info_cert : option certificate }.

(** ** Writing the facts *)

Definition TLS_KEY_BUF_LEN : nat := 48.

(** [cytadel_tls_build_key] *)
Definition tls_build_key (port : Z) (sub : bytes) : bytes :=
  take (TLS_KEY_BUF_LEN - 1) (bs "TLS/" ++ print_dec port ++ bs "/" ++ sub).

Definition set_fact_bool (port : Z) (sub : bytes) (b : bool) (s : facts) : facts := snd (write_bool (tls_build_key port sub) b s).
Definition set_fact_int (port : Z) (sub : bytes) (i : Z) (s : facts) : facts := snd (write_int (tls_build_key port sub) i s).
Definition set_fact_str (port : Z) (sub text : bytes) (s : facts) : facts := snd (write_str_n (tls_build_key port sub) text s).

(** [%02d] of a number of any sign and size. *)
Definition format_pad2 (v : Z) : bytes :=
  if v <? 0 then print_dec v else if v <=? 99 then pad_digits 2 v else print_dec v.

(** [cytadel_tls_format_iso8601], into 32 bytes. *)
Definition tls_format_iso8601 (t : tm) : option bytes :=
  let text := year_digits (tm_year t + 1900) ++ bs "-" ++ format_pad2 (tm_mon t + 1) ++ bs "-" ++ format_pad2 (tm_mday t) ++ bs "T" ++
    format_pad2 (tm_hour t) ++ bs ":" ++ format_pad2 (tm_min t) ++ bs ":" ++ format_pad2 (tm_sec t) ++ bs "Z" in
  if Z.of_nat (length text) <? ISO8601_BUF_LEN then Some text else None.

(** The loop over the alternative names, in [san_buf]: [None] is a write out of
    its bounds. *)
Fixpoint san_loop (names : list general_name) (san_buf : bytes) : option bytes :=
  match names with
  | [] => Some san_buf
  | DnsName (Some (c :: data)) :: names =>
      let san_len := Z.of_nat (length san_buf) in
      let needed := Z.of_nat (length (c :: data)) + (if 0 <? san_len then 1 else 0) in
      if KB_VALUE_MAX_LEN <? san_len + needed then Some san_buf else
      san_buf ← (if 0 <? san_len then put (KB_VALUE_MAX_LEN + 1) [44] san_buf else Some san_buf);
      san_buf ← put (KB_VALUE_MAX_LEN + 1) (c :: data) san_buf;
      san_loop names san_buf
  | _ :: names => san_loop names san_buf
  end.

(** The two facts of one end of the validity. *)
Definition validity_facts (port : Z) (end_key flag_key : bytes) (flag : Z -> bool) (t : option asn1_time) (s : facts) : facts :=
  match t with
  | None => s
  | Some t =>
      let s := if cmp_current_time t =? 0 then s else set_fact_bool port flag_key (flag (cmp_current_time t)) s in
      match to_tm t ≫= tls_format_iso8601 with
      | Some iso => set_fact_str port end_key iso s
      | None => s
      end
  end.

(** A length that is clamped to its buffer. *)
Definition clamp_text (size : Z) (t : Z * bytes) : bytes :=
  take (Z.to_nat (if size <=? fst t then size - 1 else fst t)) (snd t).

(** The blocks of [cytadel_tls_populate_cert_facts] that own objects; [objs]
    counts the objects in use. *)
Definition alt_name_facts (names : option (list general_name)) (port : Z) (s : facts) (objs : Z) : option (facts * Z) :=
  match names with
  | None => Some (s, objs)
  | Some names =>
      let objs := objs + 1 in
      san ← san_loop names [];
      let s := if Nat.ltb 0 (length san) then set_fact_str port (bs "san") san s else s in
      Some (s, objs - 1)
  end.

Definition serial_facts (serial : option (option (option bytes))) (port : Z) (s : facts) (objs : Z) : facts * Z :=
  match serial with
  | Some (Some hex) =>
      let objs := objs + 1 in
      let '(s, objs) := match hex with
        | Some text => let objs := objs + 1 in (set_fact_str port (bs "serial") text s, objs - 1)
        | None => (s, objs)
        end in
      (s, objs - 1)
  | _ => (s, objs)
  end.

Definition pubkey_facts (pubkey : option Z) (port : Z) (s : facts) (objs : Z) : facts * Z :=
  match pubkey with
  | Some bits =>
      let objs := objs + 1 in
      let s := if 0 <? bits then set_fact_int port (bs "key_bits") bits s else s in
      (s, objs - 1)
  | None => (s, objs)
  end.

Definition sig_alg_facts (alg : option (Z * bytes)) (port : Z) (s : facts) : facts :=
  match alg with
  | Some alg => if 0 <? fst alg then set_fact_str port (bs "sig_alg") (clamp_text 128 alg) s else s
  | None => s
  end.

(** [cytadel_tls_populate_cert_facts] *)
Definition tls_populate_cert_facts (c : certificate) (port : Z) (s : facts) (objs : Z) : option (facts * Z) :=
  let s := if cert_subject c && bool_decide (is_Some (cert_issuer c)) then set_fact_bool port (bs "self_signed") (cert_name_cmp c =? 0) s else s in
  let s := match cert_issuer c with Some (Some text) => set_fact_str port (bs "issuer") text s | _ => s end in
  let s := if 0 <? fst (cert_common_name c) then set_fact_str port (bs "cn") (clamp_text 256 (cert_common_name c)) s else s in
  '(s, objs) ← alt_name_facts (cert_alt_names c) port s objs;
  let s := validity_facts port (bs "not_after") (bs "cert_expired") (fun cmp => cmp <? 0) (cert_not_after c) s in
  let s := validity_facts port (bs "not_before") (bs "cert_not_yet_valid") (fun cmp => 0 <? cmp) (cert_not_before c) s in
  let s := sig_alg_facts (cert_sig_alg c) port s in
  let '(s, objs) := serial_facts (cert_serial c) port s objs in
  Some (pubkey_facts (cert_pubkey c) port s objs).

(** [cytadel_net_tls_populate_kb] of a session that is not NULL. *)
Definition tls_populate_kb (i : session_info) (port : Z) (s : facts) (objs : Z) : option (facts * Z) :=
  let s := match info_version i with Some text => set_fact_str port (bs "version") text s | None => s end in
  let s := match info_cipher i with Some text => set_fact_str port (bs "cipher") text s | None => s end in
  match info_cert i with
  | None => Some (s, objs)
  | Some c => '(s, objs) ← tls_populate_cert_facts c port s (objs + 1); Some (s, objs - 1)
  end.

(** ** Detection over connections *)

Definition SERVICE_DETECT_DEFAULT_CONNECT_MS : Z := 3000.

(** What the network answers to service detection on a port: the TLS connection
    with its handshake, its session and its stream, and the plain one. *)
Record port_net := PortNet {
  tls_attempt : attempt;
  tls_handshake : handshake;
  tls_info : session_info;
  tls_stream : stream;
  plain_attempt : attempt;
  plain_stream : stream
}.

(** The facts of a session, as [service_detect.c] calls for them. *)
Definition session_populate (i : session_info) (port : Z) (s : facts) : facts := from_option fst s (tls_populate_kb i port s 0).

(** [cytadel_service_detect_try_tls], with its connection. *)
Definition try_tls_connected (ip : bytes) (port connect_timeout_ms : Z) (sni_hostname : option bytes) (n : port_net) (s : facts) (hd : handles) :
    bool * facts * handles :=
  let '(session, hd) := net_tls_connect_sni (Some ip) sni_hostname port connect_timeout_ms (tls_attempt n) (tls_handshake n) hd in
  match session with
  | None => (service_detect_try_tls port (Endpoint None None None) s, tls_session_close None hd)
  | Some session =>
      let response := if svc_is_http_port port then fst (http_probe_tls (Some ip) (tls_stream n)) else None in
      (service_detect_try_tls port (Endpoint (Some (session_populate (tls_info n) port, response)) None None) s,
       tls_session_close (Some session) hd)
  end.

(** [cytadel_service_detect_plaintext], with its connection. *)
Definition plaintext_connected (ip : bytes) (port : Z) (n : port_net) (s : facts) (hd : handles) : facts * handles :=
  if svc_is_http_port port then
    let '(response, _, hd) := http_probe_plain (Some ip) (plain_attempt n) (plain_stream n) hd in
    (service_detect_plaintext port (Endpoint None response None) s, hd)
  else
    let '(banner, _, hd) := banner_grab (Some ip) port (plain_attempt n) (plain_stream n) hd in
    (service_detect_plaintext port (Endpoint None None banner) s, hd).

(** [cytadel_service_detect_port]; [opts] is its connection timeout, if any. *)
Definition detect_port_connected (ip : option bytes) (port : Z) (opts : option Z) (sni_hostname : option bytes) (n : port_net) (s : facts)
    (hd : handles) : facts * handles :=
  match ip with
  | None => (s, hd)
  | Some ip =>
      if port =? 0 then (s, hd) else
      let connect_timeout_ms := match opts with Some ms => if 0 <? ms then ms else SERVICE_DETECT_DEFAULT_CONNECT_MS
                                               | None => SERVICE_DETECT_DEFAULT_CONNECT_MS end in
      let '(done, s, hd) :=
        if svc_is_tls_candidate_port port then try_tls_connected ip port connect_timeout_ms sni_hostname n s hd else (false, s, hd) in
      if done then (s, hd) else plaintext_connected ip port n s hd
  end.

(** ** The facts of a certificate *)

(** One fact: the last segment of its key and its value. *)
Abbreviation fact := (bytes * kb_value)%type.

Definition when {A} (b : bool) (x : A) : list A := if b then [x] else [].
Definition text_fact (sub : string) (text : option bytes) : list fact := from_option (fun t => [(bs sub, KB_STRING (Some t))]) [] text.

Definition end_facts (end_key flag_key : string) (flag : Z -> bool) (t : option asn1_time) : list fact :=
  match t with
  | None => []
  | Some t =>
      when (negb (cmp_current_time t =? 0)) (bs flag_key, KB_BOOL (flag (cmp_current_time t))) ++
      text_fact end_key (to_tm t ≫= tls_format_iso8601)
  end.

(** The DNS names that are not empty, and their list with commas. *)
Definition dns_names (names : list general_name) : list bytes :=
  omap (fun g => match g with DnsName (Some (c :: data)) => Some (c :: data) | _ => None end) names.

Fixpoint comma_list (names : list bytes) : bytes :=
  match names with
  | [] => []
  | [name] => name
  | name :: names => name ++ bs "," ++ comma_list names
  end.

Definition fits (text : bytes) : bool := Z.of_nat (length text) <=? KB_VALUE_MAX_LEN.

Fixpoint longest_fitting (best : bytes) (lists : list bytes) : bytes :=
  match lists with
  | [] => best
  | l :: lists => if fits l then longest_fitting l lists else best
  end.

(** The longest beginning of the names whose list fits a value. *)
Definition fitting_names (names : list general_name) : bytes :=
  longest_fitting [] (map (fun n => comma_list (take n (dns_names names))) (seq 0 (S (length (dns_names names))))).

Definition cert_facts (c : certificate) : list fact :=
  when (cert_subject c && bool_decide (is_Some (cert_issuer c))) (bs "self_signed", KB_BOOL (cert_name_cmp c =? 0)) ++
  text_fact "issuer" (mjoin (cert_issuer c)) ++
  when (0 <? fst (cert_common_name c)) (bs "cn", KB_STRING (Some (clamp_text 256 (cert_common_name c)))) ++
  text_fact "san" (names ← cert_alt_names c; if bool_decide (fitting_names names = []) then None else Some (fitting_names names)) ++
  end_facts "not_after" "cert_expired" (fun cmp => cmp <? 0) (cert_not_after c) ++
  end_facts "not_before" "cert_not_yet_valid" (fun cmp => 0 <? cmp) (cert_not_before c) ++
  text_fact "sig_alg" (alg ← cert_sig_alg c; if 0 <? fst alg then Some (clamp_text 128 alg) else None) ++
  text_fact "serial" (mjoin (mjoin (cert_serial c))) ++
  from_option (fun bits => when (0 <? bits) (bs "key_bits", KB_INT bits)) [] (cert_pubkey c).

Definition session_facts (i : session_info) : list fact :=
  text_fact "version" (info_version i) ++ text_fact "cipher" (info_cipher i) ++ from_option cert_facts [] (info_cert i).

(** ** Lemmas: the list of the facts *)

(** Writing one fact, and a list of them. *)
Definition set_fact (port : Z) (s : facts) (f : fact) : facts :=
  match snd f with
  | KB_INT i => set_fact_int port (fst f) i s
  | KB_BOOL b => set_fact_bool port (fst f) b s
  | KB_STRING (Some t) => set_fact_str port (fst f) t s
  | KB_STRING None => s
  end.

Abbreviation set_facts port := (foldl (set_fact port)).

Lemma set_when port b f s : set_facts port s (when b f) = if b then set_fact port s f else s.
Proof. by destruct b. Qed.

Lemma set_text port sub text s :
  set_facts port s (text_fact sub text) = match text with Some t => set_fact_str port (bs sub) t s | None => s end.
Proof. by destruct text. Qed.

Lemma set_end_facts port end_key flag_key flag t s :
  set_facts port s (end_facts end_key flag_key flag t) = validity_facts port (bs end_key) (bs flag_key) flag t s.
Proof.
  destruct t as [t|]; [|done]. unfold end_facts, validity_facts. rewrite foldl_app, set_when, set_text. cbn [mbind option_bind from_option].
  destruct (cmp_current_time t =? 0); cbn [negb]; done.
Qed.

Lemma comma_list_snoc names name : names <> [] -> comma_list (names ++ [name]) = comma_list names ++ bs "," ++ name.
Proof.
  induction names as [|n names IH]; [done|]. intros _. destruct names as [|n' names]; [done|].
  change (comma_list ((n :: n' :: names) ++ [name])) with (n ++ bs "," ++ comma_list ((n' :: names) ++ [name])).
  rewrite IH by done. change (comma_list (n :: n' :: names)) with (n ++ bs "," ++ comma_list (n' :: names)). by rewrite !app_assoc.
Qed.

Lemma comma_list_nil names : Forall (fun n => n <> []) names -> comma_list names = [] -> names = [].
Proof. intros H E. destruct names as [|n [|n' names]]; [done|by inversion H|]. inversion H. cbn in E. by apply app_nil in E as [-> _]. Qed.

Definition lists (pre names : list bytes) : list bytes := map (fun n => comma_list (pre ++ take n names)) (seq 0 (S (length names))).

Lemma lists_cons pre x names : lists pre (x :: names) = comma_list pre :: lists (pre ++ [x]) names.
Proof.
  unfold lists. cbn [length]. rewrite <- cons_seq. cbn [map]. rewrite take_0, app_nil_r. f_equal.
  rewrite <- (fmap_S_seq 0 (S (length names))). rewrite <- list_fmap_compose. apply map_ext. intros n. cbn. by rewrite <- app_assoc.
Qed.

Lemma lists_head pre names : exists rest, lists pre names = comma_list pre :: rest.
Proof. destruct names as [|x names]; [|rewrite lists_cons; by eexists]. unfold lists. cbn. rewrite app_nil_r. by eexists. Qed.

(** The loop keeps the longest beginning that fits. *)
Lemma san_loop_spec names pre best :
  Forall (fun n => n <> []) pre -> fits (comma_list pre) = true ->
  san_loop names (comma_list pre) = Some (longest_fitting best (lists pre (dns_names names))).
Proof.
  induction names as [|g names IH] in pre, best |- *; intros Hne Hfit.
  { unfold lists. cbn. by rewrite app_nil_r, Hfit. }
  destruct g as [| |[[|c data]|]]; cbn [san_loop]; [by apply IH..| |by apply IH].
  change (dns_names (DnsName (Some (c :: data)) :: names)) with ((c :: data) :: dns_names names).
  set (x := c :: data) in *. rewrite lists_cons. cbn [longest_fitting]. rewrite Hfit. cbv zeta.
  assert (Hnext : comma_list (pre ++ [x]) = (if 0 <? Z.of_nat (length (comma_list pre)) then comma_list pre ++ [44] else comma_list pre) ++ x).
  { destruct (Z.ltb_spec 0 (Z.of_nat (length (comma_list pre)))) as [Hl|Hl].
    - rewrite comma_list_snoc by by intros ->. by rewrite <- app_assoc.
    - assert (E : comma_list pre = []) by (destruct (comma_list pre); [done|cbn in Hl; lia]).
      rewrite E. by rewrite (comma_list_nil _ Hne E). }
  assert (Hlen : Z.of_nat (length (comma_list (pre ++ [x]))) =
    Z.of_nat (length (comma_list pre)) + (Z.of_nat (length x) + (if 0 <? Z.of_nat (length (comma_list pre)) then 1 else 0))).
  { rewrite Hnext, length_app. destruct (0 <? _); [rewrite length_app; cbn [length]|]; lia. }
  destruct (lists_head (pre ++ [x]) (dns_names names)) as [rest E]. rewrite <- Hlen.
  destruct (Z.ltb_spec KB_VALUE_MAX_LEN (Z.of_nat (length (comma_list (pre ++ [x]))))) as [Hover|Hok].
  - rewrite E. cbn [longest_fitting]. unfold fits. by rewrite (proj2 (Z.leb_gt _ _) Hover).
  - assert (Hf : fits (comma_list (pre ++ [x])) = true) by by apply Z.leb_le.
    assert (Hput : (san_buf ← (if 0 <? Z.of_nat (length (comma_list pre)) then put (KB_VALUE_MAX_LEN + 1) [44] (comma_list pre) else Some (comma_list pre));
      put (KB_VALUE_MAX_LEN + 1) x san_buf) = Some (comma_list (pre ++ [x]))).
    { rewrite Hlen in Hok. rewrite Hnext. destruct (0 <? _); [rewrite put_ok by (cbn [length]; lia)|];
      cbn [mbind option_bind]; apply put_ok; rewrite ?length_app; cbn [length] in *; lia. }
    match type of Hput with ?m ≫= _ = _ => destruct m as [san_buf|] end; cbn [mbind option_bind] in *; [|done].
    rewrite Hput. apply IH; [|done]. apply Forall_app. split; [done|by constructor].
Qed.

Lemma san_fits names : san_loop names [] = Some (fitting_names names).
Proof. by apply (san_loop_spec names [] []). Qed.

Lemma alt_name_spec names port s objs :
  alt_name_facts names port s objs =
  Some (set_facts port s (text_fact "san" (names ← names; if bool_decide (fitting_names names = []) then None else Some (fitting_names names))), objs).
Proof.
  rewrite set_text. destruct names as [names|]; [|done]. unfold alt_name_facts. cbn [mbind option_bind]. rewrite san_fits. cbn [mbind option_bind].
  replace (objs + 1 - 1) with objs by lia. by destruct (fitting_names names).
Qed.

Lemma serial_spec serial port s objs :
  serial_facts serial port s objs = (set_facts port s (text_fact "serial" (mjoin (mjoin serial))), objs).
Proof. rewrite set_text. destruct serial as [[[t|]|]|]; cbn; f_equal; lia. Qed.

Lemma pubkey_spec pubkey port s objs :
  pubkey_facts pubkey port s objs = (set_facts port s (from_option (fun bits => when (0 <? bits) (bs "key_bits", KB_INT bits)) [] pubkey), objs).
Proof. destruct pubkey as [bits|]; [|done]. cbn [from_option]. rewrite set_when. cbn. f_equal. lia. Qed.

Lemma sig_alg_spec alg port s :
  sig_alg_facts alg port s = set_facts port s (text_fact "sig_alg" (alg ← alg; if 0 <? fst alg then Some (clamp_text 128 alg) else None)).
Proof. rewrite set_text. destruct alg as [alg|]; [|done]. cbn. by destruct (0 <? fst alg). Qed.

Lemma issuer_spec (issuer : option (option bytes)) port s :
  match issuer with Some (Some text) => set_fact_str port (bs "issuer") text s | _ => s end = set_facts port s (text_fact "issuer" (mjoin issuer)).
Proof. rewrite set_text. by destruct issuer as [[]|]. Qed.

(** The code writes the facts of the certificate, in order, within its buffers,
    and frees every object. *)
Lemma populate_cert_spec c port s objs :
  tls_populate_cert_facts c port s objs = Some (set_facts port s (cert_facts c), objs).
Proof.
  unfold tls_populate_cert_facts. cbv zeta. rewrite issuer_spec, alt_name_spec. cbn [mbind option_bind].
  rewrite <- !set_end_facts, sig_alg_spec, serial_spec, pubkey_spec. unfold cert_facts. by rewrite !foldl_app, !set_when.
Qed.

Lemma populate_spec i port s objs : tls_populate_kb i port s objs = Some (set_facts port s (session_facts i), objs).
Proof.
  unfold tls_populate_kb, session_facts. rewrite !foldl_app, !set_text. destruct (info_cert i) as [c|]; [|done].
  cbn [from_option]. rewrite populate_cert_spec. cbn. do 2 f_equal. lia.
Qed.

(** ** Lemmas: what is stored *)

Definition tls_subs : list bytes :=
  map bs ["version"; "cipher"; "self_signed"; "issuer"; "cn"; "san"; "cert_expired"; "not_after"; "cert_not_yet_valid"; "not_before"; "sig_alg";
          "serial"; "key_bits"]%string.

Definition tls_key (port : Z) (sub : bytes) : bytes := bs "TLS/" ++ print_dec port ++ bs "/" ++ sub.

Lemma when_sublist b (sub : bytes) (v : kb_value) : map fst (when b (sub, v)) `sublist_of` [sub].
Proof. destruct b; [done|apply sublist_nil_l]. Qed.

Lemma text_sublist sub text : map fst (text_fact sub text) `sublist_of` [bs sub].
Proof. destruct text; [done|apply sublist_nil_l]. Qed.

Lemma end_sublist end_key flag_key flag t : map fst (end_facts end_key flag_key flag t) `sublist_of` [bs flag_key; bs end_key].
Proof.
  destruct t as [t|]; [|apply sublist_nil_l]. unfold end_facts. rewrite map_app.
  apply (sublist_app _ [bs flag_key] _ [bs end_key]); [apply when_sublist|apply text_sublist].
Qed.

(** No fact is written twice. *)
Lemma session_facts_sublist i : map fst (session_facts i) `sublist_of` tls_subs.
Proof.
  unfold session_facts, tls_subs. rewrite !map_app. cbn [map].
  apply (sublist_app _ [_] _); [apply text_sublist|]. apply (sublist_app _ [_] _); [apply text_sublist|].
  destruct (info_cert i) as [c|]; [|apply sublist_nil_l]. cbn [from_option]. unfold cert_facts. rewrite !map_app.
  apply (sublist_app _ [_] _); [apply when_sublist|]. apply (sublist_app _ [_] _); [apply text_sublist|].
  apply (sublist_app _ [_] _); [apply when_sublist|]. apply (sublist_app _ [_] _); [apply text_sublist|].
  apply (sublist_app _ [_; _] _); [apply end_sublist|]. apply (sublist_app _ [_; _] _); [apply end_sublist|].
  apply (sublist_app _ [_] _); [apply text_sublist|]. apply (sublist_app _ [_] _); [apply text_sublist|].
  destruct (cert_pubkey c); [apply when_sublist|apply sublist_nil_l].
Qed.

Lemma tls_subs_ok : NoDup tls_subs /\ Forall (fun sub => segment_ok sub /\ (length sub <= 18)%nat) tls_subs.
Proof.
  split; [by apply (bool_decide_unpack (NoDup tls_subs))|]. unfold tls_subs. cbn [map].
  repeat (apply Forall_cons; split; [split; [split; [done|by repeat constructor]|by apply (bool_decide_unpack (_ <= 18)%nat)]|]). apply Forall_nil_2.
Qed.

Section Port.
Variable port : Z.
Hypothesis port_range : 0 <= port <= 65535.

Lemma tls_build_key_fits sub : (length sub <= 18)%nat -> tls_build_key port sub = tls_key port sub.
Proof.
  intros Hl. unfold tls_build_key, tls_key. apply take_ge. rewrite !length_app. pose proof (port_length port port_range).
  change (length (bs "TLS/")) with 4%nat. change (length (bs "/")) with 1%nat. unfold TLS_KEY_BUF_LEN. lia.
Qed.

Lemma tls_key_valid sub : segment_ok sub -> (length sub <= 18)%nat -> kb_validate_key (Some (tls_key port sub)) = true.
Proof.
  intros Hs Hl. apply validate_key_grammar. destruct (print_dec_digits port ltac:(lia)) as [Hne Hd]. pose proof (port_length port port_range). split.
  - unfold tls_key. rewrite !length_app. change (length (bs "TLS/")) with 4%nat. change (length (bs "/")) with 1%nat. unfold KB_KEY_MAX_LEN. lia.
  - exists [bs "TLS"; print_dec port; sub]. split_and!; [done| |reflexivity].
    apply Forall_cons; split; [split; [done|by repeat constructor]|]. apply Forall_cons; split; [|by apply Forall_singleton].
    split; [done|]. eapply Forall_impl; [exact Hd|]. intros c Hc. cbn in Hc. unfold kb_key_char. lia.
Qed.

Lemma tls_key_about sub : about_port port (tls_key port sub).
Proof.
  unfold tls_key. change (bs "TLS/") with (bs "TLS" ++ [47]). rewrite <- app_assoc. apply (about_port_key port port_range); [by apply (bool_decide_unpack (_ ∈ fact_families))|].
  apply (port_segment port port_range []); [right; by eexists|by left].
Qed.

Lemma tls_key_inj sub sub' : tls_key port sub = tls_key port sub' -> sub = sub'.
Proof. unfold tls_key. intros E. by do 3 apply app_inv_head in E. Qed.

(** Writing the facts: the code's contract for one key, for each of them. *)
Lemma set_facts_spec l s :
  map fst l `sublist_of` tls_subs -> kb_ok (fst s) ->
  let s' := set_facts port s l in
  kb_ok (fst s') /\ live (snd s') - kb_blocks (fst s') = live (snd s) - kb_blocks (fst s) /\ consumes (snd s) (snd s') /\
  (forall key, (forall f, f ∈ l -> key <> tls_key port (fst f)) -> kb_map (fst s') !! key = kb_map (fst s) !! key) /\
  (forall key v, kb_map (fst s') !! key = Some v -> kb_map (fst s) !! key = Some v \/ exists sub, key = tls_key port sub /\ (sub, v) ∈ l) /\
  (false ∉ oracle (snd s) -> forall sub v, (sub, v) ∈ l -> stored_value_ok v -> kb_map (fst s') !! tls_key port sub = Some v).
Proof.
  intros Hsub Hk. destruct tls_subs_ok as [Hnd Hok]. pose proof (sublist_NoDup _ _ Hnd Hsub) as Hl.
  assert (Hall : Forall (fun sub => segment_ok sub /\ (length sub <= 18)%nat) (map fst l))
    by (rewrite Forall_forall in Hok |- *; intros sub Hin; apply Hok; eapply elem_of_submseteq; [exact Hin|by apply sublist_submseteq]).
  clear Hsub Hnd Hok.
  induction l as [|[sub v] l IH] in s, Hk, Hl, Hall |- *; cbv zeta.
  { cbn [foldl]. split_and!; [done|done|done|done|by left|]. intros _ sub v Hin. by apply elem_of_nil in Hin. }
  cbn [foldl map fst] in *. apply NoDup_cons in Hl as [Hni Hl]. apply Forall_cons in Hall as [[Hseg Hlen] Hall].
  set (s1 := set_fact port s (sub, v)).
  assert (Hw : exists rc, wrote (tls_key port sub) v s (rc, s1) \/ (s1 = s /\ ~ stored_value_ok v)).
  { subst s1. unfold set_fact, set_fact_int, set_fact_bool, set_fact_str. cbn [fst snd]. rewrite (tls_build_key_fits sub Hlen).
    destruct v as [[t|]|i|b].
    - pose proof (write_str_n_wrote (tls_key port sub) t s Hk) as H. destruct (write_str_n _ _ s) as [rc s1]. exists rc. by left.
    - exists 0. right. by split; [|intros []].
    - pose proof (write_int_wrote (tls_key port sub) i s Hk) as H. destruct (write_int _ _ s) as [rc s1]. exists rc. by left.
    - pose proof (write_bool_wrote (tls_key port sub) b s Hk) as H. destruct (write_bool _ _ s) as [rc s1]. exists rc. by left. }
  destruct Hw as [rc Hw].
  assert (H1 : kb_ok (fst s1) /\ live (snd s1) - kb_blocks (fst s1) = live (snd s) - kb_blocks (fst s) /\ consumes (snd s) (snd s1) /\
    (forall key, key <> tls_key port sub -> kb_map (fst s1) !! key = kb_map (fst s) !! key) /\
    (forall key w, kb_map (fst s1) !! key = Some w -> kb_map (fst s) !! key = Some w \/ (key = tls_key port sub /\ w = v)) /\
    (false ∉ oracle (snd s) -> stored_value_ok v -> kb_map (fst s1) !! tls_key port sub = Some v)).
  { destruct Hw as [Hw|[-> Hv]]; [|split_and!; [done|done|done|done|by left|done]].
    pose proof Hw as (H1 & H2 & H3 & H4). cbn [fst snd] in *. split_and!; [done|done|done| | |].
    - intros key Hne. exact (wrote_other _ _ _ _ _ Hw Hne).
    - intros key w Hkey. destruct H4 as [(_ & _ & Hm)|(_ & He & _)]; [|rewrite <- He; by left].
      rewrite Hm in Hkey. apply lookup_insert_Some in Hkey as [[<- <-]|[_ ?]]; [by right|by left].
    - intros Ho Hv. exact (wrote_stored _ _ _ _ Hw (tls_key_valid _ Hseg Hlen) Hv Ho). }
  clear Hw rc. clearbody s1. destruct H1 as (Hk1 & Hl1 & Hc1 & Ho1 & Hi1 & Hs1).
  destruct (IH s1 Hk1 Hl Hall) as (Hk2 & Hl2 & Hc2 & Ho2 & Hi2 & Hs2). split_and!; [done|lia|by etransitivity| | |].
  - intros key Hne. rewrite Ho2 by (intros f Hf; apply Hne; by right). apply Ho1. by apply (Hne (sub, v)); left.
  - intros key w Hkey. apply Hi2 in Hkey as [Hkey|(sub' & -> & Hin)]; [|right; exists sub'; split; [done|by right]].
    apply Hi1 in Hkey as [?|[-> ->]]; [by left|]. right. exists sub. split; [done|by left].
  - intros Ho sub' w Hin Hv. apply elem_of_cons in Hin as [[= -> ->]|Hin].
    + rewrite Ho2; [by apply Hs1|]. intros [sub' w'] Hf E. cbn [fst] in E. apply tls_key_inj in E as <-. apply Hni.
      apply list_elem_of_fmap. by exists (sub, w').
    + apply Hs2; [|done..]. intros Hf. by apply Ho, Hc1.
Qed.

(** The contract service detection expects of the facts of a session. *)
Lemma session_facts_step i s : port_step port s (set_facts port s (session_facts i)).
Proof.
  intros Hk. destruct (set_facts_spec (session_facts i) s (session_facts_sublist i) Hk) as (H1 & H2 & H3 & H4 & _). split_and!; [done|done| |done].
  intros key Hne. apply H4. intros f _ ->. by apply Hne, tls_key_about.
Qed.
End Port.

(** ** Lemmas: connections *)

(** What service detection sees of the network. *)
Definition endpoint_of (ip : bytes) (port : Z) (sni_hostname : option bytes) (n : port_net) : endpoint :=
  let fresh := Handles 0 0 0 in
  Endpoint
    (match fst (net_tls_connect_sni (Some ip) sni_hostname port 1 (tls_attempt n) (tls_handshake n) fresh) with
     | None => None
     | Some _ => Some (session_populate (tls_info n) port, fst (http_probe_tls (Some ip) (tls_stream n)))
     end)
    (fst (fst (http_probe_plain (Some ip) (plain_attempt n) (plain_stream n) fresh)))
    (fst (fst (banner_grab (Some ip) port (plain_attempt n) (plain_stream n) fresh))).

Lemma session_populate_facts i port s : session_populate i port s = set_facts port s (session_facts i).
Proof. unfold session_populate. by rewrite populate_spec. Qed.

Lemma endpoint_writes ip port sni n populate response s :
  0 <= port <= 65535 -> tls (endpoint_of ip port sni n) = Some (populate, response) -> port_step port s (populate s).
Proof.
  intros Hp. unfold endpoint_of. cbn [tls]. generalize (fst (http_probe_tls (Some ip) (tls_stream n))). intros r.
  destruct (fst _); [|done]. intros E. apply (inj Some) in E. apply (f_equal fst) in E. cbn [fst] in E. subst populate. rewrite session_populate_facts. by apply session_facts_step.
Qed.

(** What a connection answers depends on nothing else that is open. *)
Lemma connect_stream_fst ip a hd hd' : fst (connect_stream ip a hd) = fst (connect_stream ip a hd').
Proof.
  unfold connect_stream. destruct (bool_decide (is_Some (a_socket a))); [done|]. cbv zeta. destruct (negb (a_nonblocking a)); [done|].
  destruct (negb (bool_decide (is_Some (inet_pton ip)))); [done|]. destruct (a_connect a) as [e|]; [|done].
  destruct (negb (e =? EINPROGRESS)); [done|]. destruct (a_poll a <=? 0); [done|]. by destruct (a_so_error a) as [[]|].
Qed.

Lemma tls_connect_fst ip sni port ms ms' a t hd hd' :
  is_Some (fst (net_tls_connect_sni ip sni port ms a t hd)) <-> is_Some (fst (net_tls_connect_sni ip sni port ms' a t hd')).
Proof.
  unfold net_tls_connect_sni, tls_connect_impl, tls_raw_connect. destruct ip as [ip|]; [|done]. destruct (port =? 0); [done|].
  pose proof (connect_stream_fst ip a hd hd') as E. destruct (connect_stream ip a hd) as [ok1 hd1], (connect_stream ip a hd') as [ok2 hd2].
  cbn [fst] in E. subst ok2. cbv zeta. repeat (destruct (negb _); [done|]). cbn [fst]. split; intros _; by eexists.
Qed.

Lemma probe_plain_spec ip a s hd hd' :
  let '(response, _, hd1) := http_probe_plain ip a s hd in response = fst (fst (http_probe_plain ip a s hd')) /\ hd1 = hd.
Proof.
  unfold http_probe_plain, http_connect. destruct ip as [ip|]; [|done].
  pose proof (connect_stream_fst ip a hd hd') as E. pose proof (connect_stream_spec ip a hd) as H.
  destruct (connect_stream ip a hd) as [ok1 hd1], (connect_stream ip a hd') as [ok2 hd2]. cbn [fst] in E. subst ok2.
  destruct ok1; cbn [negb]; [|done]. destruct H as [-> _]. destruct (http_build_request ip 300); [|split; [done|apply close_open]].
  destruct (send_all _ s) as [stopped s1]. case_bool_decide; [split; [done|apply close_open]|].
  destruct (recv_all _ _ s1). split; [done|apply close_open].
Qed.

Lemma banner_grab_spec ip port a s hd hd' :
  let '(banner, _, hd1) := banner_grab ip port a s hd in banner = fst (fst (banner_grab ip port a s hd')) /\ hd1 = hd.
Proof.
  unfold banner_grab, banner_connect. destruct ip as [ip|]; [|done]. destruct (port =? 0); [done|].
  pose proof (connect_stream_fst ip a hd hd') as E. pose proof (connect_stream_spec ip a hd) as H.
  destruct (connect_stream ip a hd) as [ok1 hd1], (connect_stream ip a hd') as [ok2 hd2]. cbn [fst] in E. subst ok2.
  destruct ok1; cbn [negb]; [|done]. destruct H as [-> _]. destruct (recv_all _ _ s). split; [done|apply close_open].
Qed.

(** The model of [ServiceDetect] is what the connected code computes, and every
    handle is returned. *)
Lemma detect_port_refines ip port opts sni n s hd :
  detect_port_connected ip port opts sni n s hd =
  (service_detect_port ip port (endpoint_of (default [] ip) port sni n) s, hd).
Proof.
  unfold detect_port_connected, service_detect_port. destruct ip as [ip|]; [|done]. cbn [default]. unfold id.
  destruct (port =? 0); [done|]. set (ms := match opts with Some _ => _ | None => _ end). clearbody ms. cbv zeta.
  assert (Hplain : forall s hd, plaintext_connected ip port n s hd = (service_detect_plaintext port (endpoint_of ip port sni n) s, hd)).
  { intros s1 hd1. unfold plaintext_connected, service_detect_plaintext, endpoint_of. cbn [plain_http banner]. destruct (svc_is_http_port port).
    - pose proof (probe_plain_spec (Some ip) (plain_attempt n) (plain_stream n) hd1 (Handles 0 0 0)) as H.
      destruct (http_probe_plain (Some ip) _ _ hd1) as [[response ?] hd2]. by destruct H as [-> ->].
    - pose proof (banner_grab_spec (Some ip) port (plain_attempt n) (plain_stream n) hd1 (Handles 0 0 0)) as H.
      destruct (banner_grab (Some ip) port _ _ hd1) as [[b ?] hd2]. by destruct H as [-> ->]. }
  assert (Htls : try_tls_connected ip port ms sni n s hd = (service_detect_try_tls port (endpoint_of ip port sni n) s, hd)).
  { unfold try_tls_connected, endpoint_of, service_detect_try_tls. cbn [tls].
    pose proof (tls_connect_fst (Some ip) sni port ms 1 (tls_attempt n) (tls_handshake n) hd (Handles 0 0 0)) as Hs.
    pose proof (tls_connect_impl_spec (Some ip) sni port ms (tls_attempt n) (tls_handshake n) hd) as H. unfold net_tls_connect_sni in *.
    destruct (tls_connect_impl _ _ _ ms _ _ hd) as [[session|] hd1]; cbn [fst] in Hs.
    - destruct (fst (tls_connect_impl _ _ _ 1 _ _ _)); [|by apply proj1 in Hs; destruct Hs as [? ?]; [by eexists|]].
      destruct H as (_ & -> & _). by destruct (svc_is_http_port port).
    - destruct (fst (tls_connect_impl _ _ _ 1 _ _ _)); [by apply proj2 in Hs; destruct Hs as [? ?]; [by eexists|]|]. cbn [tls_session_close]. by subst hd1. }
  destruct (svc_is_tls_candidate_port port); [|apply Hplain]. rewrite Htls.
  destruct (service_detect_try_tls port (endpoint_of ip port sni n) s) as [[] s1]; [done|apply Hplain].
Qed.

(** ** Theorems *)

(** C26: The facts of a TLS session are recorded as the certificate has them.
    Whatever OpenSSL answers, [cytadel_net_tls_populate_kb] stays within its
    buffers and frees every object it owns, the knowledge base stays well formed
    and its blocks accounted for; nothing changes but keys [TLS/<port>/...] of the
    facts of the session, and a new value is one of those facts, whole and
    acceptable, so that a name with a NUL byte is never stored shortened.  While
    allocations succeed every acceptable fact is stored, the alternative names
    as the longest beginning of their list that fits a value. *)
Theorem tls_facts_recorded i port k h objs :
  0 <= port <= 65535 -> kb_ok k ->
  exists k' h', tls_populate_kb i port (k, h) objs = Some ((k', h'), objs) /\ kb_ok k' /\ live h' - kb_blocks k' = live h - kb_blocks k /\
  (forall key, (forall sub v, (sub, v) ∈ session_facts i -> key <> tls_key port sub) -> kb_map k' !! key = kb_map k !! key) /\
  (forall key v, kb_map k' !! key = Some v ->
     kb_map k !! key = Some v \/ (stored_value_ok v /\ exists sub, key = tls_key port sub /\ (sub, v) ∈ session_facts i)) /\
  (false ∉ oracle h -> forall sub v, (sub, v) ∈ session_facts i -> stored_value_ok v -> kb_map k' !! tls_key port sub = Some v).
Proof.
  intros Hp Hk. rewrite populate_spec.
  destruct (set_facts_spec port Hp (session_facts i) (k, h) (session_facts_sublist i) Hk) as (H1 & H2 & _ & H4 & H5 & H6).
  destruct (set_facts port (k, h) (session_facts i)) as [k' h']. cbn [fst snd] in *. exists k', h'. split_and!; [done|done|done| | |done].
  - intros key Hne. apply H4. intros [sub v] Hf. by apply (Hne sub v).
  - intros key v Hkey. destruct (H5 key v Hkey) as [?|Hf]; [by left|]. right. split; [|done].
    apply kb_map_lookup in Hkey as (e & He & _ & <-); [|apply H1]. pose proof (ok_values _ H1) as Hv. rewrite Forall_forall in Hv. by apply Hv.
Qed.

(** A certificate whose common name hides a NUL, with three alternative names. *)
Definition example_cert : certificate :=
  Certificate true (Some (Some (bs "/CN=CA"))) 1 (6, bs "a.b" ++ [0] ++ bs "cd") (Some [DnsName (Some (bs "a.b")); OtherName; DnsName (Some []); DnsName (Some (bs "c.d"))])
    (Some (Asn1Time (-1) (Some (Tm 124 0 31 23 59 59)))) None (Some (23, bs "sha256WithRSAEncryption")) (Some (Some (Some (bs "0A")))) (Some 2048).
Definition example_session : session_info := SessionInfo (Some (bs "TLSv1.3")) (Some (bs "TLS_AES_256_GCM_SHA384")) (Some example_cert).

Lemma tls_facts_recorded_witness :
  exists k' h', tls_populate_kb example_session 443 (empty_kb, Heap [] 2) 0 = Some ((k', h'), 0) /\
    kb_map k' !! tls_key 443 (bs "san") = Some (KB_STRING (Some (bs "a.b,c.d"))) /\
    kb_map k' !! tls_key 443 (bs "not_after") = Some (KB_STRING (Some (bs "2024-01-31T23:59:59Z"))).
Proof.
  destruct (tls_facts_recorded example_session 443 empty_kb (Heap [] 2) 0 ltac:(lia) empty_kb_ok) as (k' & h' & E & _ & _ & _ & _ & H).
  exists k', h'. split; [exact E|]. split; (apply H; [by intros Hf%elem_of_nil| |by vm_compute; split_and!]); vm_compute; repeat (first [by left|right]).
Defined.

(** C19: Detecting a service over its connections is the detection of
    [ServiceDetect] on what the network answers: the knowledge base that the
    code leaves, connection by connection, is the one of the model that is given
    the banner, the response and the facts of the session, every descriptor,
    [SSL_CTX] and [SSL] is returned on every path, and only facts about the port
    change, with no assumption on the peer or on its certificate. *)
Theorem detection_over_connections ip port opts sni n k h hd k' h' hd' :
  0 <= port <= 65535 -> kb_ok k ->
  detect_port_connected ip port opts sni n (k, h) hd = ((k', h'), hd') ->
  service_detect_port ip port (endpoint_of (default [] ip) port sni n) (k, h) = (k', h') /\ hd' = hd /\
  kb_ok k' /\ live h' - kb_blocks k' = live h - kb_blocks k /\
  (forall key, ~ about_port port key -> kb_map k' !! key = kb_map k !! key).
Proof.
  intros Hp Hk. rewrite detect_port_refines. intros E. apply pair_equal_spec in E as [E <-]. split; [done|]. split; [done|].
  pose proof (detect_step port Hp (endpoint_of (default [] ip) port sni n)
    (fun populate response He s => endpoint_writes _ _ _ _ populate response s Hp He) ip (k, h) Hk) as H.
  rewrite E in H. by destruct H as (H1 & H2 & H3 & _).
Qed.

Definition example_net : port_net :=
  PortNet (Attempt None true None 0 None) (Handshake true true 1 1) example_session (Stream [] [] (bs "HTTP/1.0 200 OK") [Moved 15] [])
    (Attempt None true None 0 None) (Stream [] [] [] [] []).

Lemma detection_over_connections_witness :
  exists k' h', detect_port_connected (Some (bs "10.0.0.1")) 443 None None example_net (empty_kb, Heap [] 2) (Handles 0 0 0) = ((k', h'), Handles 0 0 0) /\
    kb_ok k' /\ kb_get (Some k') (Some (bs "HTTP/443/status")) = KB_GET_FOUND (KB_INT 200).
Proof.
  destruct (detect_port_connected (Some (bs "10.0.0.1")) 443 None None example_net (empty_kb, Heap [] 2) (Handles 0 0 0)) as [[k' h'] hd'] eqn:E.
  destruct (detection_over_connections _ 443 _ _ _ _ _ _ _ _ _ ltac:(lia) empty_kb_ok E) as (_ & -> & Hk & _).
  exists k', h'. split; [reflexivity|]. split; [exact Hk|]. vm_compute in E. injection E as <- <-. vm_compute. reflexivity.
Defined.
