(* ===== verification/HttpGet.v ===== *)
(** * HTTP requests of a plugin ([src/src/plugin/api_http.c])

    [http_get]: the checks of its arguments, the request built byte by byte in
    a buffer that grows, the exchange over a plain or a TLS stream, the parser
    of the response and the table it becomes.  Reads of the response and writes
    to the request are checked: [None] is an access out of bounds.  The fields
    of a table are what Lua's raw accessors answer; Lua's own allocations do
    not fail. *)

From S2P Require Import Prelude CveId VersionCompare Cidr LuaFields Streams Sockets PluginNet ServiceDetect.

#[local] Arguments bs : simpl never.

Definition HTTP_BODY_CAP : Z := 1024 * 1024.
Definition HTTP_HEADER_CAP : Z := 65536.
Definition HTTP_TOTAL_CAP : Z := HTTP_HEADER_CAP + HTTP_BODY_CAP.

Definition wrap64 (z : Z) : Z := z mod 2 ^ 64.
Definition to_int (z : Z) : Z := (z + 2 ^ 31) mod 2 ^ 32 - 2 ^ 31.

(** ** The connection *)

(** [cytadel_http_conn_read]: something, or the end. *)
Definition http_conn_read (room : nat) (s : stream) : option bytes * stream :=
  match recv_once room s with
  | (inl (c :: chunk), s) => (Some (c :: chunk), s)
  | (_, s) => (None, s)
  end.

(** [SSL_write] takes an [int]; it fails on a count that is not positive. *)
Fixpoint ssl_write_loop (fuel : nat) (data : bytes) (s : stream) : bool * stream :=
  match fuel, data with
  | _, [] => (true, s)
  | O, _ => (false, s)
  | S fuel, _ =>
      let n := to_int (Z.of_nat (length data)) in
      if n <=? 0 then (false, s) else
      match send_once (take (Z.to_nat n) data) s with
      | (Moved (S n), s) => ssl_write_loop fuel (drop (S n) data) s
      | (_, s) => (false, s)
      end
  end.

(** [cytadel_http_conn_write_all] *)
Definition http_conn_write_all (ssl : bool) (data : bytes) (s : stream) : bool * stream :=
  if ssl then ssl_write_loop (length data) data s
  else let '(stopped, s) := send_all data s in (bool_decide (stopped = None), s).

(** The loop of [cytadel_http_read_all]; every round takes an arrival. *)
Fixpoint read_all_loop (fuel : nat) (capacity : Z) (buf : bytes) (s : stream) (h : heap) : option bytes * stream * heap :=
  match fuel with
  | O => (Some buf, s, h)
  | S fuel =>
      let len := Z.of_nat (length buf) in
      if HTTP_TOTAL_CAP <=? len then (Some buf, s, h) else
      let new_capacity := if HTTP_TOTAL_CAP + 1 <? capacity * 2 then HTTP_TOTAL_CAP + 1 else capacity * 2 in
      let '(ok, capacity, h) :=
        if len =? capacity then let '(ok, h) := realloc true h in (ok, new_capacity, h) else (true, capacity, h) in
      if negb ok then (None, s, free_block h) else
      match http_conn_read (Z.to_nat (capacity - len)) s with
      | (None, s) => (Some buf, s, h)
      | (Some chunk, s) => read_all_loop fuel capacity (buf ++ chunk) s h
      end
  end.

Definition http_read_all (s : stream) (h : heap) : option bytes * stream * heap :=
  let '(ok, h) := malloc h in
  if negb ok then (None, s, h) else read_all_loop (S (length (arrivals s))) 8192 [] s h.

(** ** The response *)

(** [cytadel_http_header_pair_t]: the pieces of the response it points to. *)
Definition http_header_pair : Type := bytes * bytes.

Definition MAX_PAIRS : nat := 128.

(** [line_end], less a carriage return. *)
Definition content_end (buf : bytes) (line_start line_end : nat) : option nat :=
  if Nat.ltb line_start line_end then
    c ← buf !! (line_end - 1)%nat; Some (if c =? 13 then (line_end - 1)%nat else line_end)
  else Some line_end.

(** The pair of one line, if it has a colon and there is room. *)
Definition header_pair (buf : bytes) (line_start content_end : nat) (pairs : list http_header_pair) : option (list http_header_pair) :=
  colon ← scan_while (fun c => negb (c =? 58)) buf (length buf) line_start content_end;
  if Nat.ltb colon content_end && Nat.ltb (length pairs) MAX_PAIRS then
    value_start ← scan_while (fun c => (c =? 32) || (c =? 9)) buf (length buf) (S colon) content_end;
    name ← sub buf line_start (colon - line_start);
    value ← sub buf value_start (content_end - value_start);
    Some (pairs ++ [(name, value)])
  else Some pairs.

(** The loop over the header lines: the pairs and the start of the body. *)
Fixpoint http_header_loop (fuel : nat) (buf : bytes) (line_start : nat) (pairs : list http_header_pair) : option (list http_header_pair * nat) :=
  match fuel with
  | O => None
  | S fuel =>
      let len := length buf in
      if negb (Nat.ltb line_start len) then Some (pairs, len) else
      line_end ← scan_while (fun c => negb (c =? 10)) buf len line_start len;
      content_end ← content_end buf line_start line_end;
      let next := if Nat.ltb line_end len then S line_end else line_end in
      if Nat.eqb content_end line_start then Some (pairs, next) else
      pairs ← header_pair buf line_start content_end pairs;
      http_header_loop fuel buf next pairs
  end.

(** [cytadel_http_parse]; the status is read as in [http_probe.c]. *)
Definition http_parse (buf : bytes) : option (Z * list http_header_pair * nat) :=
  let len := length buf in
  status ← parse_status buf;
  pos ← scan_while (fun c => negb (c =? 10)) buf len 0 len;
  let pos := if Nat.ltb pos len then S pos else pos in
  '(pairs, body_start) ← http_header_loop (S len) buf pos [];
  Some (status, pairs, body_start).

(** [cytadel_http_lowercase_into] [name_buf], of 256 bytes, as the key of a
    field. *)
Definition header_key (name : bytes) : bytes := c_string (map to_lower_ascii (take 255 name)).

(** [cytadel_http_push_headers_table] *)
Definition push_header (tbl : gmap bytes bytes) (pair : http_header_pair) : gmap bytes bytes :=
  let '(name, value) := pair in
  let key := header_key name in
  match tbl !! key with
  | Some old => <[key := old ++ bs ", " ++ value]> tbl
  | None => <[key := value]> tbl
  end.

Definition push_headers_table (pairs : list http_header_pair) : gmap bytes bytes := foldl push_header ∅ pairs.

(** ** The checks of the arguments *)

(** [cytadel_http_validate_path] does not raise. *)
Definition http_validate_path (path : bytes) : bool :=
  match path with
  | [] => false
  | c :: _ => (c =? 47) && forallb (fun c => negb ((c <=? 32) || (c =? 127))) path
  end.

Definition http_is_header_token_char (c : byte) : bool :=
  ((48 <=? c) && (c <=? 57)) || ((65 <=? c) && (c <=? 90)) || ((97 <=? c) && (c <=? 122)) ||
  bool_decide (c ∈ bs "!#$%&'*+-.^_`|~").

Definition http_header_name_equals_ci (name lower_literal : bytes) : bool :=
  Nat.eqb (length name) (length lower_literal) && bool_decide (map to_lower_ascii name = lower_literal).

Definition http_header_is_framing (name : bytes) : bool :=
  http_header_name_equals_ci name (bs "content-length") || http_header_name_equals_ci name (bs "transfer-encoding") ||
  http_header_name_equals_ci name (bs "host").

Definition has_byte (c : byte) (s : bytes) : bool := existsb (Z.eqb c) s.

Definition header_entry_ok (entry : lua_value * lua_value) : bool :=
  match entry with
  | (LString name, LString value) =>
      negb (Nat.eqb (length name) 0) && forallb http_is_header_token_char name &&
      negb (has_byte 13 value || has_byte 10 value) && negb (http_header_is_framing name)
  | _ => false
  end.

(** [cytadel_http_validate_headers_table], on the entries [lua_next] gives. *)
Definition http_validate_headers_table (entries : list (lua_value * lua_value)) : bool := forallb header_entry_ok entries.

(** ** The request *)

(** [cytadel_http_append_extra_headers]: the buffer and its capacity, or an
    error, the buffer freed. *)
Fixpoint http_append_extra_headers (entries : list (lua_value * lua_value)) (buf : bytes) (cap : Z) (h : heap) :
    option (option (bytes * Z) * heap) :=
  match entries with
  | [] => Some (Some (buf, cap), h)
  | (LString name, LString value) :: entries =>
      if has_byte 13 name || has_byte 10 name || has_byte 13 value || has_byte 10 value then Some (None, free_block h) else
      let len := Z.of_nat (length buf) in
      let needed := wrap64 (Z.of_nat (length name) + 2 + Z.of_nat (length value) + 2) in
      let '(ok, cap, h) :=
        if cap <? wrap64 (len + needed + 1) then
          let new_cap := wrap64 ((len + needed + 1) * 2) in
          let '(ok, h) := realloc true h in (ok, (if ok then new_cap else cap), h)
        else (true, cap, h) in
      if negb ok then Some (None, free_block h) else
      buf ← put cap name buf; buf ← put cap (bs ": ") buf; buf ← put cap value buf; buf ← put cap CRLF buf;
      http_append_extra_headers entries buf cap h
  | _ :: _ => Some (None, free_block h)
  end.

Definition INT_MAX : Z := 2 ^ 31 - 1.

(** The [snprintf] of the request line and the headers of its own. *)
Definition request_head (method path ip : bytes) : bytes :=
  method ++ bs " " ++ c_string path ++ bs " HTTP/1.0" ++ CRLF ++ bs "Host: " ++ ip ++ CRLF ++ bs "Connection: close" ++ CRLF.

(** The request, or an error with the buffer freed. *)
Definition build_request (method path ip : bytes) (headers : option (list (lua_value * lua_value))) (h : heap) : option (option bytes * heap) :=
  let '(ok, h) := malloc h in
  if negb ok then Some (None, h) else
  let head := request_head method path ip in
  let len := Z.of_nat (length head) in
  if INT_MAX <? len then Some (None, free_block h) else
  let '(ok, cap, h) := if 512 <=? len then let '(ok, h) := realloc true h in (ok, len + 1, h) else (true, 512, h) in
  if negb ok then Some (None, free_block h) else
  '(req, h) ← match headers with None => Some (Some (head, cap), h) | Some entries => http_append_extra_headers entries head cap h end;
  match req with
  | None => Some (None, h)
  | Some (req, cap) =>
      let len := Z.of_nat (length req) in
      let '(ok, cap, h) :=
        if cap <? wrap64 (len + 3) then let '(ok, h) := realloc true h in (ok, wrap64 (len + 3), h) else (true, cap, h) in
      if negb ok then Some (None, free_block h) else
      req ← put cap CRLF req; Some (Some req, h)
  end.

(** ** [http_get] *)

(** The value of [opts.headers] and the third argument. *)
Inductive headers_arg := HdrNil | HdrNotTable | HdrTable (entries : list (lua_value * lua_value)).
Inductive opts_arg := OptsNone | OptsNotTable | OptsTable (tbl : lua_fields) (headers : headers_arg).

Record http_response := HttpResponse { resp_status : Z; resp_headers : gmap bytes bytes; resp_body : bytes }.

Record http_options := HttpOptions { opt_method : bytes; opt_timeout_ms : Z; opt_use_tls : bool; opt_headers : option (list (lua_value * lua_value)) }.

Section HttpGet.
Variable string_to_integer : bytes -> option Z.
Variable number_to_string : lua_value -> bytes.
Variable strerror : errno -> bytes.

(** The fields of [opts]; [None] raises. *)
Definition read_options (arg : opts_arg) : option http_options :=
  match arg with
  | OptsNone => Some (HttpOptions (bs "GET") 5000 false None)
  | OptsNotTable => None
  | OptsTable tbl headers =>
      method ← (match tbl (bs "method") with
                | LNil => Some (bs "GET")
                | v => m ← check_string number_to_string v;
                       if bool_decide (c_string m = bs "GET") then Some (bs "GET")
                       else if bool_decide (c_string m = bs "HEAD") then Some (bs "HEAD") else None
                end);
      timeout_ms ← opt_integer string_to_integer (tbl (bs "timeout_ms")) 5000;
      let use_tls := match tbl (bs "tls") with LNil | LBoolean false => false | _ => true end in
      match headers with
      | HdrNil => Some (HttpOptions method timeout_ms use_tls None)
      | HdrNotTable => None
      | HdrTable entries => Some (HttpOptions method timeout_ms use_tls (Some entries))
      end
  end.

(** A connection: the session over TLS, nothing over TCP. *)
Definition http_connection : Type := option tls_session.

Definition http_open (ctx : plugin_ctx) (port timeout_ms : Z) (use_tls : bool) (a : attempt) (t : handshake) (hd : handles) :
    (http_connection + bytes) * handles :=
  if use_tls then
    match net_tls_connect (Some (ctx_ip ctx)) port timeout_ms a t hd with
    | (None, hd) => (inr (bs "tls_error"), hd)
    | (Some session, hd) => (inl (Some session), hd)
    end
  else
    match plugin_raw_tcp_connect strerror (ctx_ip ctx) port timeout_ms a 64 hd with
    | (inr err, _, hd) => (inr err, hd)
    | (inl _, _, hd) => (inl None, hd)
    end.

Definition http_close (conn : http_connection) (hd : handles) : handles :=
  match conn with Some session => tls_session_close (Some session) hd | None => fd_closed hd end.

(** What becomes of the bytes that were read. *)
Definition response_of (buf : bytes) : option http_response :=
  '(status, pairs, body_start) ← http_parse buf;
  let body_len := if Nat.ltb body_start (length buf) then (length buf - body_start)%nat else 0%nat in
  body ← sub buf body_start (Nat.min body_len (Z.to_nat HTTP_BODY_CAP));
  Some (HttpResponse status (push_headers_table pairs) body).

(** [cytadel_plugin_api_http_get] *)
Definition api_http_get (ctx : plugin_ctx) (port path : lua_value) (opts : opts_arg) (a : attempt) (t : handshake)
    (s : stream) (hd : handles) (h : heap) : option (lua_result http_response * stream * handles * heap) :=
  let raised := Some (Raised, s, hd, h) in
  match to_integer string_to_integer port, check_string number_to_string path with
  | Some port, Some path =>
      if negb (http_validate_path path) then raised else
      match read_options opts with
      | None => raised
      | Some o =>
          if (port <? 1) || (65535 <? port) then raised else
          let timeout_ms := clamp_timeout_ms (ctx_deadline ctx) (ctx_now ctx) (opt_timeout_ms o) in
          if negb (match opt_headers o with None => true | Some entries => http_validate_headers_table entries end) then raised else
          '(req, h) ← build_request (opt_method o) path (ctx_ip ctx) (opt_headers o) h;
          match req with
          | None => Some (Raised, s, hd, h)
          | Some req =>
              match http_open ctx port timeout_ms (opt_use_tls o) a t hd with
              | (inr err, hd) => Some (NilErr err, s, hd, free_block h)
              | (inl conn, hd) =>
                  let '(sent_ok, s) := http_conn_write_all (opt_use_tls o) req s in
                  let h := free_block h in
                  if negb sent_ok then Some (NilErr (if opt_use_tls o then bs "tls_error" else bs "closed"), s, http_close conn hd, h) else
                  let '(resp, s, h) := http_read_all s h in
                  let hd := http_close conn hd in
                  match resp with
                  | None => Some (Raised, s, hd, h)
                  | Some buf => response ← response_of buf; Some (Value response, s, hd, free_block h)
                  end
              end
          end
      end
  | _, _ => raised
  end.
End HttpGet.

(** ** Reading a request *)

(** A line up to its line feed, less a carriage return; and the rest. *)
Definition chop_cr (line : bytes) : bytes :=
  match rev line with c :: l => if c =? 13 then rev l else line | [] => [] end.

Definition read_line (b : bytes) : option (bytes * bytes) :=
  match drop_while (fun c => negb (c =? 10)) b with
  | [] => None
  | _ :: rest => Some (chop_cr (take_while (fun c => negb (c =? 10)) b), rest)
  end.

Definition blank_char (c : byte) : bool := (c =? 32) || (c =? 9).

(** The name of a header line and its value. *)
Definition split_header (line : bytes) : option (bytes * bytes) :=
  match drop_while (fun c => negb (c =? 58)) line with
  | [] => None
  | _ :: value => Some (take_while (fun c => negb (c =? 58)) line, drop_while blank_char value)
  end.

Fixpoint read_headers (fuel : nat) (b : bytes) : option (list (bytes * bytes) * bytes) :=
  match fuel with
  | O => None
  | S fuel =>
      '(line, rest) ← read_line b;
      if Nat.eqb (length line) 0 then Some ([], rest) else
      header ← split_header line;
      '(headers, rest) ← read_headers fuel rest;
      Some (header :: headers, rest)
  end.

(** A request: method, target, version and headers; and what follows it. *)
Definition read_request (b : bytes) : option (bytes * bytes * bytes * list (bytes * bytes) * bytes) :=
  '(line, rest) ← read_line b;
  match split_on 32 line with
  | [method; target; version] =>
      '(headers, rest) ← read_headers (S (length rest)) rest;
      Some (method, target, version, headers, rest)
  | _ => None
  end.

(** ** Lemmas: building the request *)

Definition header_text (header : bytes * bytes) : bytes := fst header ++ bs ": " ++ snd header ++ CRLF.

(** The strings of the entries. *)
Definition entry_strings (entry : lua_value * lua_value) : bytes * bytes :=
  match entry with (LString name, LString value) => (name, value) | _ => ([], []) end.

Definition entries_size (entries : list (lua_value * lua_value)) : Z :=
  foldr (fun e n => Z.of_nat (length (header_text (entry_strings e))) + n) 0 entries.

Lemma entries_size_nonneg entries : 0 <= entries_size entries.
Proof. induction entries as [|e entries IH]; cbn [entries_size foldr]; [lia|]. unfold entries_size in IH. lia. Qed.

Lemma has_byte_false c s : has_byte c s = false <-> Forall (fun x => x <> c) s.
Proof.
  unfold has_byte. rewrite existsb_false, Forall_forall. split; intros H x Hx; specialize (H x Hx); [by apply Z.eqb_neq in H|]. apply Z.eqb_neq. congruence.
Qed.

(** A header name of a plugin has no byte that could end its line or the name. *)
Lemma token_char c : http_is_header_token_char c = true -> 32 < c /\ c <> 58 /\ c <> 127.
Proof.
  unfold http_is_header_token_char. destruct (bool_decide (c ∈ _)) eqn:E.
  - intros _. apply bool_decide_eq_true in E. vm_compute in E.
    repeat (apply elem_of_cons in E as [->|E]; [lia|]). by apply not_elem_of_nil in E.
  - rewrite orb_false_r. intros H. zbool.
Qed.

Record header_ok (header : bytes * bytes) : Prop := {
  ok_name : fst header <> [];
  ok_token : Forall (fun c => http_is_header_token_char c = true) (fst header);
  ok_framing : http_header_is_framing (fst header) = false;
  ok_value : Forall (fun c => c <> 13 /\ c <> 10) (snd header)
}.

Lemma header_entry_spec e : header_entry_ok e = true -> exists name value, e = (LString name, LString value) /\ header_ok (name, value).
Proof.
  destruct e as [[] []]; try done. cbn [header_entry_ok]. rewrite !andb_true_iff, !negb_true_iff, orb_false_iff, !has_byte_false.
  intros [[[Hn Ht] [H13 H10]] Hf]. eexists _, _. split; [done|]. split; cbn [fst snd]; [by destruct s| |done|].
  - apply Forall_forall. intros c Hc. rewrite forallb_forall in Ht. by apply Ht, list_elem_of_In.
  - rewrite Forall_forall in H13, H10 |- *. auto.
Qed.

Lemma header_no_crlf header : header_ok header ->
  has_byte 13 (fst header) || has_byte 10 (fst header) || has_byte 13 (snd header) || has_byte 10 (snd header) = false.
Proof.
  intros [_ Ht _ Hv]. rewrite Forall_forall in Ht, Hv.
  rewrite !orb_false_iff, !has_byte_false, !Forall_forall. split_and!; intros c Hc; try (by apply Hv).
  all: specialize (Ht c Hc); apply token_char in Ht; lia.
Qed.

Lemma length_header_text header :
  Z.of_nat (length (header_text header)) = Z.of_nat (length (fst header)) + 2 + Z.of_nat (length (snd header)) + 2.
Proof. unfold header_text. rewrite !length_app. change (length (bs ": ")) with 2%nat. change (length CRLF) with 2%nat. lia. Qed.

Lemma wrap64_id z : 0 <= z < 2 ^ 64 -> wrap64 z = z.
Proof. apply Z.mod_small. Qed.

(** A buffer that may have been reallocated: the blocks are the same. *)
Lemma grow_live (need : bool) (cap cap' : Z) h :
  let '(ok, c, h') := if need then let '(ok, h) := realloc true h in (ok, (if ok then cap' else cap), h) else (true, cap, h) in
  live h' = live h /\ (ok = true -> c = if need then cap' else cap).
Proof.
  destruct need; [|done]. destruct (realloc true h) as [ok h'] eqn:E. apply realloc_spec in E as (Hl & _ & _).
  split; [|by intros ->]. rewrite andb_false_r in Hl. lia.
Qed.

Lemma append_headers_spec entries buf cap h :
  Forall (fun e => header_entry_ok e = true) entries ->
  Z.of_nat (length buf) <= cap -> Z.of_nat (length buf) + entries_size entries < 2 ^ 60 ->
  exists r h', http_append_extra_headers entries buf cap h = Some (r, h') /\
    match r with
    | Some (buf', cap') => buf' = buf ++ concat (map (fun e => header_text (entry_strings e)) entries) /\ Z.of_nat (length buf') <= cap' /\ live h' = live h
    | None => live h' = live h - 1
    end.
Proof.
  intros Hall. induction Hall as [|e entries He _ IH] in buf, cap, h |- *; intros Hcap Hsize.
  { eexists _, h. split; [done|]. cbn. by rewrite app_nil_r. }
  destruct (header_entry_spec e He) as (name & value & -> & Hok). cbn [http_append_extra_headers].
  cbn [entries_size foldr entry_strings] in Hsize. fold (entries_size entries) in Hsize. rewrite length_header_text in Hsize. cbn [fst snd] in Hsize.
  pose proof (header_no_crlf _ Hok) as Hc. cbn [fst snd] in Hc. rewrite Hc. pose proof (entries_size_nonneg entries) as Hpos.
  set (len := Z.of_nat (length buf)) in *. set (needed := Z.of_nat (length name) + 2 + Z.of_nat (length value) + 2) in *.
  rewrite (wrap64_id needed), (wrap64_id (len + needed + 1)), (wrap64_id ((len + needed + 1) * 2)) by lia.
  pose proof (grow_live (cap <? len + needed + 1) cap ((len + needed + 1) * 2) h) as Hg.
  destruct (if cap <? len + needed + 1 then _ else _) as [[ok cap'] h1]. destruct Hg as [Hl Hcap'].
  destruct ok; cbn [negb]; [|eexists None, _; split; [done|]; cbn [live free_block]; lia].
  specialize (Hcap' eq_refl). assert (Hroom : len + needed <= cap') by (subst cap'; destruct (Z.ltb_spec cap (len + needed + 1)); lia).
  rewrite put_ok by lia. cbn [mbind option_bind]. rewrite put_ok by (rewrite length_app; change (length (bs ": ")) with 2%nat; lia). cbn [mbind option_bind].
  rewrite put_ok by (rewrite !length_app; change (length (bs ": ")) with 2%nat; lia). cbn [mbind option_bind].
  rewrite put_ok by (rewrite !length_app; change (length (bs ": ")) with 2%nat; change (length CRLF) with 2%nat; lia). cbn [mbind option_bind].
  destruct (IH ((((buf ++ name) ++ bs ": ") ++ value) ++ CRLF) cap' h1) as (r & h' & -> & Hr).
  - rewrite !length_app. change (length (bs ": ")) with 2%nat. change (length CRLF) with 2%nat. lia.
  - rewrite !length_app. change (length (bs ": ")) with 2%nat. change (length CRLF) with 2%nat. lia.
  - eexists r, h'. split; [done|]. destruct r as [[buf' c']|]; [|lia]. destruct Hr as (-> & ? & ?). split; [|split; [done|lia]].
    cbn [map concat entry_strings]. unfold header_text. cbn [fst snd]. by rewrite <- !app_assoc.
Qed.

(** The whole request. *)
Definition request_text (method path ip : bytes) (headers : list (bytes * bytes)) : bytes :=
  request_head method path ip ++ concat (map header_text headers) ++ CRLF.

Definition headers_of (headers : option (list (lua_value * lua_value))) : list (bytes * bytes) := map entry_strings (default [] headers).

Lemma length_headers headers : Z.of_nat (length (concat (map header_text (headers_of headers)))) = entries_size (default [] headers).
Proof.
  unfold headers_of. induction (default [] headers) as [|e entries IH]; [done|]. cbn [map concat entries_size foldr].
  rewrite length_app, Nat2Z.inj_add, IH. done.
Qed.

Lemma build_request_spec method path ip headers h :
  match headers with None => true | Some entries => http_validate_headers_table entries end = true ->
  entries_size (default [] headers) < 2 ^ 59 ->
  exists r h', build_request method path ip headers h = Some (r, h') /\
    match r with
    | Some req => req = request_text method path ip (headers_of headers) /\ live h' = live h + 1
    | None => live h' = live h
    end.
Proof.
  intros Hall Hsize. unfold build_request. destruct (malloc h) as [ok h0] eqn:Em. pose proof (malloc_live _ _ _ Em) as Hl0.
  destruct ok; cbn [negb]; [|eexists None, _; split; [done|]; lia]. cbv zeta.
  set (head := request_head method path ip). set (len := Z.of_nat (length head)). unfold INT_MAX.
  destruct (Z.ltb_spec (2 ^ 31 - 1) len); [eexists None, _; split; [done|]; cbn [live free_block]; lia|].
  assert (Hg : exists ok cap h1, (if 512 <=? len then let '(ok, h) := realloc true h0 in (ok, len + 1, h) else (true, 512, h0)) = (ok, cap, h1) /\
      live h1 = live h0 /\ len < cap).
  { destruct (Z.leb_spec 512 len); [|eexists _, _, _; split; [done|lia]]. destruct (realloc true h0) as [ok h1] eqn:E.
    apply realloc_spec in E as (Hl & _). rewrite andb_false_r in Hl. eexists _, _, _. split; [done|lia]. }
  destruct Hg as (ok & cap & h1 & -> & Hl1 & Hcap). destruct ok; cbn [negb]; [|eexists None, _; split; [done|]; cbn [live free_block]; lia].
  assert (Ha : exists r h2, match headers with None => Some (Some (head, cap), h1) | Some entries => http_append_extra_headers entries head cap h1 end = Some (r, h2) /\
      match r with
      | Some (buf', cap') => buf' = head ++ concat (map header_text (headers_of headers)) /\ Z.of_nat (length buf') <= cap' /\ live h2 = live h1
      | None => live h2 = live h1 - 1
      end).
  { destruct headers as [entries|]; [|eexists _, _; split; [done|]; cbn; rewrite app_nil_r; split; [done|]; split; [subst len; lia|done]].
    cbn [default] in Hsize. unfold id in Hsize. unfold headers_of. cbn [default]. unfold id. rewrite map_map. apply append_headers_spec.
    - unfold http_validate_headers_table in Hall. apply Forall_forall. intros e He. rewrite forallb_forall in Hall. by apply Hall, list_elem_of_In.
    - subst len. lia.
    - subst len. lia. }
  destruct Ha as (r & h2 & -> & Hr). cbn [mbind option_bind]. destruct r as [[req cap2]|]; [|eexists None, _; split; [done|lia]].
  destruct Hr as (-> & Hcap2 & Hl2). set (req := head ++ concat (map header_text (headers_of headers))) in *.
  assert (Hlen : Z.of_nat (length req) = len + entries_size (default [] headers)) by (subst req; rewrite length_app, Nat2Z.inj_add, length_headers; done).
  rewrite (wrap64_id (Z.of_nat (length req) + 3)) by (pose proof (entries_size_nonneg (default [] headers)); lia).
  pose proof (grow_live (cap2 <? Z.of_nat (length req) + 3) cap2 (Z.of_nat (length req) + 3) h2) as Hg.
  assert (Hsame : (if cap2 <? Z.of_nat (length req) + 3 then let '(ok, h) := realloc true h2 in (ok, Z.of_nat (length req) + 3, h) else (true, cap2, h2)) =
    let '(ok, c, h) := (if cap2 <? Z.of_nat (length req) + 3 then let '(ok, h) := realloc true h2 in (ok, (if ok then Z.of_nat (length req) + 3 else cap2), h) else (true, cap2, h2)) in
    (ok, (if ok then c else Z.of_nat (length req) + 3), h)) by (destruct (cap2 <? _); [|done]; by destruct (realloc true h2) as [[] ?]).
  rewrite Hsame. destruct (if cap2 <? _ then let '(ok, h) := realloc true h2 in (ok, (if ok then _ else cap2), h) else _) as [[ok c] h3].
  destruct Hg as [Hl3 Hc]. destruct ok; cbn [negb]; [|eexists None, _; split; [done|]; cbn [live free_block]; lia].
  rewrite put_ok. 2: { rewrite (Hc eq_refl). change (length CRLF) with 2%nat. destruct (Z.ltb_spec cap2 (Z.of_nat (length req) + 3)); lia. }
  cbn [mbind option_bind]. eexists (Some _), h3. split; [done|]. split; [|lia]. subst req. unfold request_text. by rewrite <- app_assoc.
Qed.

(** ** Lemmas: reading it back *)

Lemma chop_cr_snoc l : chop_cr (l ++ [13]) = l.
Proof. unfold chop_cr. rewrite rev_app_distr. cbn. apply rev_involutive. Qed.

Lemma scan_to_sep (sep : byte) l rest :
  Forall (fun c => c <> sep) l ->
  take_while (fun c => negb (c =? sep)) (l ++ sep :: rest) = l /\ drop_while (fun c => negb (c =? sep)) (l ++ sep :: rest) = sep :: rest.
Proof.
  intros Hl. assert (Forall (fun c => negb (c =? sep) = true) l) by (eapply Forall_impl; [exact Hl|]; intros c Hc; apply negb_true_iff, Z.eqb_neq, Hc).
  rewrite take_while_app, drop_while_app by done. cbn. rewrite Z.eqb_refl. cbn. by rewrite app_nil_r.
Qed.

Lemma read_line_crlf l rest : Forall (fun c => c <> 10) l -> read_line (l ++ CRLF ++ rest) = Some (l, rest).
Proof.
  intros Hl. unfold read_line. change (l ++ CRLF ++ rest) with (l ++ [13] ++ 10 :: rest). rewrite app_assoc.
  destruct (scan_to_sep 10 (l ++ [13]) rest) as [-> ->]; [apply Forall_app; split; [done|by repeat constructor]|]. by rewrite chop_cr_snoc.
Qed.

Lemma split_header_text name value :
  Forall (fun c => c <> 58) name -> split_header (name ++ bs ": " ++ value) = Some (name, drop_while blank_char value).
Proof.
  intros Hn. unfold split_header. change (name ++ bs ": " ++ value) with (name ++ 58 :: 32 :: value).
  destruct (scan_to_sep 58 name (32 :: value) Hn) as [-> ->]. done.
Qed.

(** What a reader makes of a header. *)
Definition seen (header : bytes * bytes) : bytes * bytes := (fst header, drop_while blank_char (snd header)).

(** A header whose text is one line. *)
Definition one_line (header : bytes * bytes) : Prop :=
  fst header <> [] /\ Forall (fun c => c <> 10 /\ c <> 58) (fst header) /\ Forall (fun c => c <> 10) (snd header).

Lemma header_ok_line header : header_ok header -> one_line header.
Proof.
  intros [Hn Ht _ Hv]. split; [done|]. split; eapply Forall_impl; [exact Ht| |exact Hv|].
  - intros c Hc%token_char. lia.
  - by intros c [_ ?].
Qed.

Lemma read_headers_text headers fuel rest :
  Forall one_line headers -> (length headers < fuel)%nat ->
  read_headers fuel (concat (map header_text headers) ++ CRLF ++ rest) = Some (map seen headers, rest).
Proof.
  intros Hall. induction Hall as [|[name value] headers (Hn & Hname & Hv) _ IH] in fuel |- *; intros Hf; (destruct fuel as [|fuel]; [cbn in Hf; lia|]); cbn [read_headers].
  - cbn [map concat app]. change (CRLF ++ rest) with ([] ++ CRLF ++ rest). rewrite read_line_crlf by constructor. done.
  - cbn [map concat fst snd] in *. unfold header_text at 1. cbn [fst snd].
    rewrite (assoc_L (++) name (bs ": ") (value ++ CRLF)), (assoc_L (++) (name ++ bs ": ") value CRLF), <- !app_assoc.
    rewrite (assoc_L (++) name (bs ": ") (value ++ _)), (assoc_L (++) (name ++ bs ": ") value).
    rewrite read_line_crlf.
    2: { rewrite !Forall_app. split_and!; [eapply Forall_impl; [exact Hname|]; naive_solver|by repeat constructor|done]. }
    cbn [mbind option_bind]. rewrite <- app_assoc. destruct (Nat.eqb_spec (length (name ++ bs ": " ++ value)) 0) as [E|_].
    { rewrite length_app in E. destruct name; [done|]. cbn in E. lia. }
    rewrite split_header_text by (eapply Forall_impl; [exact Hname|]; naive_solver). cbn [mbind option_bind].
    rewrite IH by (cbn in Hf; lia). done.
Qed.

Lemma length_read_headers headers rest : (length headers <= length (concat (map header_text headers) ++ rest))%nat.
Proof.
  rewrite length_app. induction headers as [|hd headers IH]; cbn [map concat length]; [lia|]. rewrite length_app. unfold header_text at 1.
  rewrite !length_app. change (length CRLF) with 2%nat. lia.
Qed.

(** The request reads back as one request, with nothing after it. *)
Lemma read_request_text method path ip headers :
  http_validate_path path = true -> method = bs "GET" \/ method = bs "HEAD" ->
  Forall (fun c => c = 46 \/ is_digit c = true) ip -> Forall header_ok headers ->
  read_request (request_text method path ip headers) =
    Some (method, path, bs "HTTP/1.0", (bs "Host", ip) :: (bs "Connection", bs "close") :: map seen headers, []).
Proof.
  intros Hp Hm Hip Hh.
  assert (Hpath : Forall (fun c => 32 < c) path).
  { unfold http_validate_path in Hp. destruct path as [|c path]; [done|]. apply andb_prop in Hp as [_ Hp]. rewrite forallb_forall in Hp.
    apply Forall_forall. intros x Hx%list_elem_of_In. specialize (Hp x Hx). zbool. }
  assert (Hmethod : Forall (fun c => 32 < c) method) by (destruct Hm as [-> | ->]; repeat constructor).
  assert (Hipd : Forall (fun c => 32 < c) ip).
  { eapply Forall_impl; [exact Hip|]. intros c [->|Hd]; [lia|]. unfold is_digit in Hd. zbool. }
  unfold request_text, request_head. rewrite c_string_id by (eapply Forall_impl; [exact Hpath|]; intros c ?; cbn in *; lia).
  set (line := method ++ bs " " ++ path ++ bs " HTTP/1.0").
  set (all := (bs "Host", ip) :: (bs "Connection", bs "close") :: headers).
  assert (E : (method ++ bs " " ++ path ++ bs " HTTP/1.0" ++ CRLF ++ bs "Host: " ++ ip ++ CRLF ++ bs "Connection: close" ++ CRLF) ++ concat (map header_text headers) ++ CRLF
    = line ++ CRLF ++ concat (map header_text all) ++ CRLF ++ []).
  { unfold line, all. cbn [map concat]. unfold header_text at 2 3. cbn [fst snd]. rewrite app_nil_r, <- !app_assoc. done. }
  rewrite E. unfold read_request. rewrite read_line_crlf.
  2: { unfold line. rewrite !Forall_app. split_and!; try (by repeat constructor); (eapply Forall_impl; [eassumption|]; cbn; lia). }
  cbn [mbind option_bind].
  assert (Hsplit : split_on 32 line = [method; path; bs "HTTP/1.0"]).
  { unfold line. change (method ++ bs " " ++ path ++ bs " HTTP/1.0") with (method ++ 32 :: path ++ 32 :: bs "HTTP/1.0").
    rewrite !split_on_app. rewrite (split_on_none 32 method), (split_on_none 32 path); [done| |]; intros c Hc; rewrite Forall_forall in Hpath, Hmethod;
      [specialize (Hpath c Hc)|specialize (Hmethod c Hc)]; lia. }
  rewrite Hsplit, read_headers_text.
  - cbn [mbind option_bind]. unfold all. cbn [map]. unfold seen at 1. cbn [fst snd].
    assert (Hd : drop_while blank_char ip = ip) by (destruct Hipd as [|c ip' Hc _]; [done|]; cbn [drop_while]; unfold blank_char; by rewrite !(proj2 (Z.eqb_neq _ _)) by lia).
    by rewrite Hd.
  - unfold all. repeat apply Forall_cons_2; [split_and!; [done|by repeat constructor|eapply Forall_impl; [exact Hipd|]; cbn; lia]|
      split_and!; [done|by repeat constructor|by repeat constructor]|]. eapply Forall_impl; [exact Hh|]. apply header_ok_line.
  - pose proof (length_read_headers all (CRLF ++ [])). lia.
Qed.

(** ** Lemmas: the exchange *)

Lemma ssl_write_loop_spec fuel data s :
  let '(ok, s') := ssl_write_loop fuel data s in
  same_input s s' /\ exists k, sent s' = sent s ++ take k data /\ (ok = true -> k = length data).
Proof.
  assert (Hstop : forall s' : stream, same_input s s' -> sent s' = sent s -> same_input s s' /\ exists k, sent s' = sent s ++ take k data /\ (false = true -> k = length data))
    by (intros s' ? ->; split; [done|]; exists 0%nat; by rewrite app_nil_r).
  induction fuel as [|fuel IH] in data, s, Hstop |- *; (destruct data as [|c data]; [cbn; split; [done|]; exists 0%nat; by rewrite app_nil_r|]); [by apply Hstop|].
  cbn [ssl_write_loop]. destruct (to_int _ <=? 0); [by apply Hstop|]. set (chunk := take _ (c :: data)).
  pose proof (send_once_spec chunk s) as H. destruct (send_once chunk s) as [[[|n]|e] s1]; destruct H as [Hin H]; [by apply Hstop; [|destruct H as [-> _]; cbn; rewrite app_nil_r]| |by apply Hstop].
  destruct H as [Hs Hn]. assert (Hchunk : take (S n) chunk = take (S n) (c :: data)).
  { subst chunk. rewrite take_take. f_equal. rewrite length_take in Hn. lia. }
  assert (Hlen : (S n <= length (c :: data))%nat) by (subst chunk; rewrite length_take in Hn; lia).
  specialize (IH (drop (S n) (c :: data)) s1). destruct (ssl_write_loop fuel (drop (S n) (c :: data)) s1) as [ok s2].
  destruct IH as [Hin2 (k & Hk & Hok)]; [intros s' ? ->; split; [done|]; exists 0%nat; by rewrite app_nil_r|].
  split; [unfold same_input in *; destruct Hin as (? & ? & ?), Hin2 as (? & ? & ?); split_and!; congruence|]. exists (S n + k)%nat. split.
  - rewrite Hk, Hs, Hchunk, <- app_assoc. f_equal. by rewrite take_take_drop.
  - intros E. rewrite (Hok E), length_drop. lia.
Qed.

Lemma http_conn_write_all_spec ssl data s :
  let '(ok, s') := http_conn_write_all ssl data s in
  same_input s s' /\ exists k, sent s' = sent s ++ take k data /\ (ok = true -> k = length data).
Proof.
  unfold http_conn_write_all. destruct ssl; [apply ssl_write_loop_spec|]. pose proof (send_all_spec data s) as H.
  destruct (send_all data s) as [stopped s']. destruct H as (Hi & k & Hk & Hall & _). split; [done|]. exists k. split; [done|].
  intros Hst%bool_decide_eq_true. by apply Hall.
Qed.

Lemma http_conn_read_spec room s :
  let '(r, s') := http_conn_read room s in
  same_output s s' /\ match r with Some chunk => exists k, (k <= room)%nat /\ chunk = take k (incoming s) /\ incoming s' = drop k (incoming s) | None => True end.
Proof.
  unfold http_conn_read. pose proof (recv_once_spec room s) as H. destruct (recv_once room s) as [[[|c chunk]|e] s']; (split; [apply H|]); try done. apply H.
Qed.

Lemma http_total_cap : HTTP_TOTAL_CAP = 1114112.
Proof. done. Qed.

Lemma read_all_loop_spec fuel capacity buf s h :
  8192 <= capacity <= HTTP_TOTAL_CAP + 1 -> Z.of_nat (length buf) <= capacity ->
  let '(r, s', h') := read_all_loop fuel capacity buf s h in
  same_output s s' /\
  match r with
  | Some buf' => live h' = live h /\ Z.of_nat (length buf') <= HTTP_TOTAL_CAP + 1 /\ exists k, buf' = buf ++ take k (incoming s)
  | None => live h' = live h - 1
  end.
Proof.
  rewrite http_total_cap.
  induction fuel as [|fuel IH] in capacity, buf, s, h |- *; intros Hc Hb; cbn [read_all_loop];
    [split; [done|]; split; [done|]; split; [lia|]; exists 0%nat; by rewrite app_nil_r|].
  assert (Hstop : exists k, buf = buf ++ take k (incoming s)) by (exists 0%nat; by rewrite app_nil_r).
  cbv zeta. rewrite http_total_cap. destruct (Z.leb_spec 1114112 (Z.of_nat (length buf))); [split; [done|]; split; [done|]; split; [lia|done]|].
  assert (Hg : exists ok cap h1, (if Z.of_nat (length buf) =? capacity
      then let '(ok, h) := realloc true h in (ok, (if 1114112 + 1 <? capacity * 2 then 1114112 + 1 else capacity * 2), h) else (true, capacity, h)) = (ok, cap, h1) /\
      live h1 = live h /\ 8192 <= cap <= 1114112 + 1 /\ Z.of_nat (length buf) < cap).
  { destruct (Z.eqb_spec (Z.of_nat (length buf)) capacity); [|eexists _, _, _; split; [done|]; split; [done|lia]].
    destruct (realloc true h) as [ok h1] eqn:E. apply realloc_spec in E as (Hl & _). rewrite andb_false_r in Hl. eexists _, _, _. split; [done|].
    destruct (Z.ltb_spec (1114112 + 1) (capacity * 2)); lia. }
  destruct Hg as (ok & cap & h1 & -> & Hl & Hcap & Hlt). destruct ok; cbn [negb]; [|split; [done|]; cbn [live free_block]; lia].
  pose proof (http_conn_read_spec (Z.to_nat (cap - Z.of_nat (length buf))) s) as H1.
  destruct (http_conn_read _ s) as [[chunk|] s1]; destruct H1 as [Ho H1].
  - destruct H1 as (k & Hk & -> & Hi). specialize (IH cap (buf ++ take k (incoming s)) s1 h1 Hcap ltac:(rewrite length_app, length_take; lia)).
    destruct (read_all_loop fuel cap _ s1 h1) as [[r s2] h2]. destruct IH as [[Ho1 Ho2] IH]. split; [unfold same_output in *; destruct Ho; split; congruence|].
    destruct r as [buf'|]; [|lia]. destruct IH as (? & ? & k' & ->). split; [lia|]. split; [done|]. exists (k + k')%nat.
    rewrite Hi, <- app_assoc, take_take_drop. done.
  - split; [done|]. split; [lia|]. split; [lia|done].
Qed.

Lemma http_read_all_spec s h :
  let '(r, s', h') := http_read_all s h in
  same_output s s' /\
  match r with
  | Some buf => live h' = live h + 1 /\ Z.of_nat (length buf) <= HTTP_TOTAL_CAP + 1 /\ exists k, buf = take k (incoming s)
  | None => live h' = live h
  end.
Proof.
  unfold http_read_all. destruct (malloc h) as [ok h0] eqn:Em. pose proof (malloc_live _ _ _ Em) as Hl. destruct ok; cbn [negb]; [|split; [done|lia]].
  pose proof (read_all_loop_spec (S (length (arrivals s))) 8192 [] s h0 ltac:(rewrite http_total_cap; lia) ltac:(cbn; lia)) as H.
  destruct (read_all_loop _ 8192 [] s h0) as [[r s'] h']. destruct H as [Ho H]. split; [done|]. destruct r as [buf|]; [|lia].
  destruct H as (? & ? & k & ->). split; [lia|]. split; [done|]. by exists k.
Qed.

(** ** Lemmas: the response *)

(** The headers and the body of what follows the status line, as a reader of
    lines finds them. *)
Fixpoint response_lines (fuel : nat) (b : bytes) : list http_header_pair * bytes :=
  match fuel, b with
  | O, _ | _, [] => ([], [])
  | S fuel, _ =>
      let line := chop_cr (take_while (fun c => negb (c =? 10)) b) in
      let rest := tail (drop_while (fun c => negb (c =? 10)) b) in
      if Nat.eqb (length line) 0 then ([], rest) else
      let '(pairs, body) := response_lines fuel rest in
      (option_list (split_header line) ++ pairs, body)
  end.

Definition status_rest (buf : bytes) : bytes := tail (drop_while (fun c => negb (c =? 10)) buf).

Lemma scan_while_take f buf fuel i stop :
  (stop <= length buf)%nat -> (stop <= i + fuel)%nat ->
  scan_while f buf fuel i stop = Some (i + length (take_while f (take (stop - i) (drop i buf))))%nat.
Proof.
  intros Hlen. induction fuel as [|fuel IH] in i |- *; intros Hf; cbn [scan_while].
  { replace (stop - i)%nat with 0%nat by lia. rewrite take_0. cbn. f_equal. lia. }
  destruct (Nat.ltb_spec i stop) as [Hlt|]; [|replace (stop - i)%nat with 0%nat by lia; rewrite take_0; cbn; f_equal; lia].
  destruct (lookup_lt_is_Some_2 buf i ltac:(lia)) as [c Hc]. rewrite Hc. rewrite (drop_S _ _ _ Hc).
  replace (stop - i)%nat with (S (stop - S i)) by lia. rewrite firstn_cons. cbn [take_while]. destruct (f c); [|cbn; f_equal; lia].
  rewrite IH by lia. cbn [length]. f_equal. unfold take. rewrite Nat.add_succ_r. done.
Qed.

Lemma scan_while_end f buf i : (i <= length buf)%nat ->
  scan_while f buf (length buf) i (length buf) = Some (i + length (take_while f (drop i buf)))%nat.
Proof. intros Hi. rewrite scan_while_take by lia. by rewrite take_ge by (rewrite length_drop; lia). Qed.

Lemma drop_take_while f l : drop (length (take_while f l)) l = drop_while f l.
Proof. induction l as [|c l IH]; [done|]. cbn [take_while drop_while]. by destruct (f c). Qed.

Lemma take_take_while f l : take (length (take_while f l)) l = take_while f l.
Proof. induction l as [|c l IH]; [done|]. cbn [take_while]. destruct (f c); [|done]. cbn [length take]. by f_equal. Qed.

Lemma sub_ok buf start n : (start + n <= length buf)%nat -> sub buf start n = Some (take n (drop start buf)).
Proof. intros H. unfold sub. by rewrite (proj2 (Nat.leb_le _ _) H). Qed.

Lemma chop_cr_cases l : chop_cr l = l \/ l = chop_cr l ++ [13].
Proof.
  destruct l as [|c l] using rev_ind; [by left|]. unfold chop_cr. rewrite rev_app_distr. cbn. destruct (Z.eqb_spec c 13) as [->|]; [|by left].
  right. by rewrite rev_involutive.
Qed.

Lemma length_chop_cr l : (length (chop_cr l) <= length l)%nat.
Proof. destruct (chop_cr_cases l) as [->|E]; [lia|]. rewrite E at 2. rewrite length_app. lia. Qed.

Lemma chop_cr_take l : take (length (chop_cr l)) l = chop_cr l.
Proof.
  destruct (chop_cr_cases l) as [E|E]; [rewrite E; by apply take_ge|]. rewrite E at 2. by rewrite take_app_length.
Qed.

Lemma content_end_spec buf i line :
  (i + length line <= length buf)%nat -> take (length line) (drop i buf) = line ->
  content_end buf i (i + length line) = Some (i + length (chop_cr line))%nat.
Proof.
  intros Hl Ht. unfold content_end. destruct line as [|c line _] using rev_ind.
  { cbn [length]. destruct (Nat.ltb_spec i (i + 0)); [lia|done]. }
  rewrite length_app in *. cbn [length] in *. destruct (Nat.ltb_spec i (i + (length line + 1))); [|lia].
  assert (Hc : buf !! (i + (length line + 1) - 1)%nat = Some c).
  { replace (i + (length line + 1) - 1)%nat with (i + length line)%nat by lia. rewrite <- lookup_drop.
    assert (E : take (length line + 1) (drop i buf) !! length line = Some c) by (rewrite Ht; apply list_lookup_middle; done).
    by rewrite lookup_take_lt in E by lia. }
  rewrite Hc. cbn [mbind option_bind]. unfold chop_cr. rewrite rev_app_distr. cbn. destruct (c =? 13); f_equal.
  - rewrite length_rev, length_rev. lia.
  - rewrite length_app. cbn. lia.
Qed.

(** The pair of a line is that of its text. *)
Lemma header_pair_spec buf i line pairs :
  (i + length line <= length buf)%nat -> take (length line) (drop i buf) = line -> (length pairs <= MAX_PAIRS)%nat ->
  exists pairs', header_pair buf i (i + length line) pairs = Some pairs' /\ pairs' = take MAX_PAIRS (pairs ++ option_list (split_header line)).
Proof.
  intros Hl Ht Hp. unfold header_pair. rewrite scan_while_take by lia. replace (i + length line - i)%nat with (length line) by lia. rewrite Ht.
  cbn [mbind option_bind]. set (f := fun c => negb (c =? 58)). pose proof (length_take_drop_while f line) as Hlen. unfold split_header. fold f.
  pose proof (drop_take_while f line) as Hdrop. destruct (drop_while f line) as [|colon value] eqn:Ed.
  { cbn [length] in Hlen. destruct (Nat.ltb_spec (i + length (take_while f line)) (i + length line)); [lia|]. cbn [andb].
    eexists. split; [done|]. cbn [option_list]. rewrite app_nil_r, take_ge by done. done. }
  cbn [length] in Hlen. destruct (Nat.ltb_spec (i + length (take_while f line)) (i + length line)); [|lia]. cbn [andb option_list].
  destruct (Nat.ltb_spec (length pairs) MAX_PAIRS).
  2: { eexists. split; [done|]. rewrite take_app_le by lia. by rewrite take_ge by lia. }
  set (n := length (take_while f line)) in *.
  assert (Hv : take (i + length line - S (i + n)) (drop (S (i + n)) buf) = value).
  { assert (E : drop (S n) line = value) by (change (S n) with (1 + n)%nat; rewrite Nat.add_comm, <- drop_drop, Hdrop; done).
    rewrite <- E. rewrite <- Ht at 2. rewrite skipn_firstn_comm, drop_drop. f_equal; [lia|f_equal; lia]. }
  rewrite scan_while_take by lia. rewrite Hv. cbn [mbind option_bind]. fold blank_char.
  change (fun c => (c =? 32) || (c =? 9)) with blank_char. set (m := length (take_while blank_char value)).
  pose proof (length_take_drop_while blank_char value) as Hlen2. fold m in Hlen2.
  rewrite sub_ok by lia. cbn [mbind option_bind]. rewrite sub_ok by lia. cbn [mbind option_bind].
  eexists. split; [done|]. change (option_list (Some ?x)) with [x]. rewrite (take_ge (pairs ++ [_])) by (rewrite length_app; cbn; lia). do 3 f_equal.
  - replace (i + n - i)%nat with n by lia. rewrite <- (take_take_while f line). fold n. rewrite <- Ht. rewrite take_take. f_equal. lia.
  - rewrite <- (drop_take_while blank_char value). fold m. rewrite <- Hv. rewrite skipn_firstn_comm, drop_drop. f_equal; lia.
Qed.

(** The loop finds the headers and the body that the lines have. *)
Lemma http_header_loop_spec fuel buf i pairs :
  (length buf < i + fuel)%nat -> (i <= length buf)%nat -> (length pairs <= MAX_PAIRS)%nat ->
  let '(hs, body) := response_lines fuel (drop i buf) in
  exists k, http_header_loop fuel buf i pairs = Some (take MAX_PAIRS (pairs ++ hs), k) /\ (i <= k <= length buf)%nat /\ drop k buf = body.
Proof.
  induction fuel as [|fuel IH] in i, pairs |- *; intros Hf Hi Hp; [lia|]. cbn [http_header_loop response_lines]. cbv zeta.
  destruct (Nat.ltb_spec i (length buf)) as [Hlt|Hge]; cbn [negb].
  2: { rewrite drop_ge by lia. exists (length buf). rewrite app_nil_r, take_ge by done. split; [done|]. split; [lia|by apply drop_all]. }
  rewrite scan_while_end by lia. cbn [mbind option_bind]. set (g := fun c => negb (c =? 10)).
  destruct (drop i buf) as [|c0 l0] eqn:Eb; [apply (f_equal length) in Eb; rewrite length_drop in Eb; cbn in Eb; lia|]. rewrite <- Eb. clear c0 l0 Eb.
  set (b := drop i buf). set (line := take_while g b).
  assert (Hb : length b = (length buf - i)%nat) by (subst b; apply length_drop).
  pose proof (length_take_drop_while g b) as Hsum. fold line in Hsum.
  assert (Hline : take (length line) (drop i buf) = line) by apply take_take_while.
  rewrite (content_end_spec buf i line) by (done || lia). cbn [mbind option_bind].
  pose proof (length_chop_cr line) as Hchop.
  set (next := if Nat.ltb (i + length line) (length buf) then S (i + length line) else (i + length line)%nat).
  assert (Hnext : (i < next <= length buf)%nat) by (subst next; destruct (Nat.ltb_spec (i + length line) (length buf)); lia).
  assert (Hrest : drop next buf = tail (drop_while g b)).
  { rewrite <- (drop_take_while g b). fold line. subst b. rewrite drop_drop. subst next.
    destruct (Nat.ltb_spec (i + length line) (length buf)) as [Hl|Hl].
    - destruct (lookup_lt_is_Some_2 buf (i + length line) Hl) as [c Hc]. rewrite (drop_S _ _ _ Hc). done.
    - rewrite !drop_ge by lia. done. }
  destruct (Nat.eqb_spec (i + length (chop_cr line)) i) as [E|E].
  { destruct (Nat.eqb_spec (length (chop_cr line)) 0); [|lia]. exists next. rewrite app_nil_r, take_ge by done. split; [done|]. split; [lia|done]. }
  destruct (Nat.eqb_spec (length (chop_cr line)) 0); [lia|].
  assert (Hc : take (length (chop_cr line)) (drop i buf) = chop_cr line).
  { etransitivity; [|apply chop_cr_take]. symmetry. rewrite <- Hline at 2. rewrite take_take. f_equal. lia. }
  destruct (header_pair_spec buf i (chop_cr line) pairs ltac:(lia) Hc Hp) as (pairs' & -> & ->). cbn [mbind option_bind].
  specialize (IH next (take MAX_PAIRS (pairs ++ option_list (split_header (chop_cr line)))) ltac:(lia) ltac:(lia) ltac:(rewrite length_take; lia)).
  rewrite Hrest in IH. fold g. destruct (response_lines fuel (tail (drop_while g b))) as [hs body]. destruct IH as (k & -> & Hk & Hbody).
  exists k. split; [|split; [lia|done]]. do 2 f_equal. rewrite (assoc_L (++)). set (l := pairs ++ option_list (split_header (chop_cr line))).
  destruct (decide (length l <= MAX_PAIRS)%nat); [by rewrite (take_ge l) by lia|].
  rewrite (take_app_le (take MAX_PAIRS l)), (take_app_le l) by (rewrite ?length_take; lia). by rewrite take_take.
Qed.

(** The table of the headers and the body that a reader of lines finds. *)
Definition response_value (buf : bytes) (status : Z) : http_response :=
  let '(pairs, body) := response_lines (S (length buf)) (status_rest buf) in
  HttpResponse status (push_headers_table (take MAX_PAIRS pairs)) (take (Z.to_nat HTTP_BODY_CAP) body).

Lemma response_of_spec buf :
  exists status, parse_status buf = Some status /\ (status = -1 \/ 0 <= status <= 999) /\ response_of buf = Some (response_value buf status).
Proof.
  destruct (parse_status_spec buf) as (status & Est & Hst). exists status. split; [done|]. split; [done|].
  unfold response_of, http_parse. cbv zeta. rewrite Est. cbn [mbind option_bind]. rewrite scan_while_end by lia. cbn [mbind option_bind].
  rewrite drop_0. set (g := fun c => negb (c =? 10)). rewrite Nat.add_0_l. pose proof (length_take_drop_while g buf) as Hsum.
  set (n := length (take_while g buf)) in *. set (pos := if Nat.ltb n (length buf) then S n else n).
  assert (Hpos : (pos <= length buf)%nat) by (subst pos; destruct (Nat.ltb_spec n (length buf)); lia).
  assert (Hrest : drop pos buf = status_rest buf).
  { unfold status_rest. fold g. rewrite <- (drop_take_while g buf). fold n. subst pos. destruct (Nat.ltb_spec n (length buf)) as [Hl|Hl].
    - destruct (lookup_lt_is_Some_2 buf n Hl) as [c Hc]. rewrite (drop_S _ _ _ Hc). done.
    - rewrite !drop_ge by lia. done. }
  pose proof (http_header_loop_spec (S (length buf)) buf pos [] ltac:(lia) Hpos ltac:(cbn; lia)) as H. rewrite Hrest in H. unfold response_value.
  destruct (response_lines (S (length buf)) (status_rest buf)) as [hs body]. destruct H as (k & -> & Hk & Hbody). cbn [mbind option_bind app].
  assert (Hlen : (if Nat.ltb k (length buf) then (length buf - k)%nat else 0%nat) = length body)
    by (rewrite <- Hbody, length_drop; destruct (Nat.ltb_spec k (length buf)); lia).
  rewrite Hlen, sub_ok by (rewrite <- Hbody, length_drop; lia). cbn [mbind option_bind]. rewrite Hbody. do 2 f_equal.
  destruct (Nat.min_spec (length body) (Z.to_nat HTTP_BODY_CAP)) as [[? ->]|[? ->]]; [|done]. by rewrite !take_ge by lia.
Qed.

(** ** Theorems *)

(** The entries of [opts.headers]. *)
Definition opts_entries (opts : opts_arg) : list (lua_value * lua_value) :=
  match opts with OptsTable _ (HdrTable entries) => entries | _ => [] end.

(** The request a call of [http_get] may make. *)
Definition permitted (ctx : plugin_ctx) (opts : opts_arg) (req target : bytes) : Prop :=
  exists method, (method = bs "GET" \/ method = bs "HEAD") /\ http_validate_path target = true /\
    is_Some (inet_pton (ctx_ip ctx)) /\ Forall header_ok (map entry_strings (opts_entries opts)) /\
    req = request_text method target (ctx_ip ctx) (map entry_strings (opts_entries opts)).

Section Correct.
Variable string_to_integer : bytes -> option Z.
Variable number_to_string : lua_value -> bytes.
Variable strerror : errno -> bytes.

Lemma http_open_spec ctx port timeout_ms use_tls a t hd :
  let '(r, hd') := http_open strerror ctx port timeout_ms use_tls a t hd in
  match r with inl conn => http_close conn hd' = hd /\ is_Some (inet_pton (ctx_ip ctx)) | inr _ => hd' = hd end.
Proof.
  unfold http_open. destruct use_tls.
  - unfold net_tls_connect. pose proof (tls_connect_impl_spec (Some (ctx_ip ctx)) (Some (ctx_ip ctx)) port timeout_ms a t hd) as H.
    destruct (tls_connect_impl _ _ _ _ _ _ _) as [[session|] hd']; [|done]. destruct H as (_ & Hc & _ & _ & _ & text & [= <-] & Hip). done.
  - pose proof (plugin_connect_spec string_to_integer strerror (ctx_ip ctx) port timeout_ms a 64 hd) as H.
    destruct (plugin_raw_tcp_connect _ _ _ _ _ _ _) as [[[tv|err] dialed] hd']; [|by destruct H as (_ & -> & _)].
    destruct H as (Hd & -> & [d Hsome] & _). split; [apply close_open|]. destruct (Hd d Hsome) as (addr & -> & _). by eexists.
Qed.

Lemma read_options_spec opts o :
  read_options string_to_integer number_to_string opts = Some o ->
  (opt_method o = bs "GET" \/ opt_method o = bs "HEAD") /\ default [] (opt_headers o) = opts_entries opts.
Proof.
  destruct opts as [| |tbl headers]; cbn [read_options]; [by intros [= <-]; split; [left|]|done|].
  destruct (match tbl (bs "method") with LNil => _ | _ => _ end) as [method|] eqn:Em; cbn [mbind option_bind]; [|done].
  assert (Hm : method = bs "GET" \/ method = bs "HEAD").
  { destruct (tbl (bs "method")); [injection Em as <-; by left| | | | | |];
      (destruct (check_string number_to_string _) as [m|]; cbn [mbind option_bind] in Em; [|done]);
      (case_bool_decide; [injection Em as <-; by left|]); (case_bool_decide; [injection Em as <-; by right|done]). }
  destruct (opt_integer _ _ _) as [ms|]; cbn [mbind option_bind]; [|done]. cbv zeta. by destruct headers; intros [= <-].
Qed.

(** What a call does, whatever happens. *)
Lemma http_get_spec ctx port path opts a t s hd h :
  entries_size (opts_entries opts) < 2 ^ 59 ->
  exists r s' hd' h', api_http_get string_to_integer number_to_string strerror ctx port path opts a t s hd h = Some (r, s', hd', h') /\
    hd' = hd /\ live h' = live h /\
    ((sent s' = sent s /\ match r with Value _ => False | _ => True end) \/
     exists target req k, check_string number_to_string path = Some target /\ permitted ctx opts req target /\ sent s' = sent s ++ take k req /\
       forall resp, r = Value resp -> (length req <= k)%nat /\
         exists j status, parse_status (take j (incoming s)) = Some status /\ (status = -1 \/ 0 <= status <= 999) /\
           Z.of_nat (length (take j (incoming s))) <= HTTP_TOTAL_CAP + 1 /\ resp = response_value (take j (incoming s)) status).
Proof.
  intros Hsize. unfold api_http_get.
  assert (Hraised : forall (r : lua_result http_response) h', live h' = live h -> match r with Value _ => False | _ => True end ->
    exists r0 s' hd' h0, Some (r, s, hd, h') = Some (r0, s', hd', h0) /\ hd' = hd /\ live h0 = live h /\
    ((sent s' = sent s /\ match r0 with Value _ => False | _ => True end) \/
     exists target req k, check_string number_to_string path = Some target /\ permitted ctx opts req target /\ sent s' = sent s ++ take k req /\
       forall resp, r0 = Value resp -> (length req <= k)%nat /\
         exists j status, parse_status (take j (incoming s)) = Some status /\ (status = -1 \/ 0 <= status <= 999) /\
           Z.of_nat (length (take j (incoming s))) <= HTTP_TOTAL_CAP + 1 /\ resp = response_value (take j (incoming s)) status)).
  { intros r h' Hl Hr. exists r, s, hd, h'. split_and!; [done..|]. by left. }
  destruct (to_integer string_to_integer port) as [p|]; [|by apply Hraised].
  destruct (check_string number_to_string path) as [target|] eqn:Epath; [|by apply Hraised]. rewrite <- Epath in Hraised |- *.
  destruct (http_validate_path target) eqn:Hpath; cbn [negb]; [|by apply Hraised].
  destruct (read_options _ _ opts) as [o|] eqn:Eo; [|by apply Hraised]. destruct (read_options_spec opts o Eo) as [Hmethod Hentries].
  destruct (_ || _); [by apply Hraised|]. cbv zeta.
  destruct (match opt_headers o with None => true | Some entries => http_validate_headers_table entries end) eqn:Hvalid; cbn [negb]; [|by apply Hraised].
  destruct (build_request_spec (opt_method o) target (ctx_ip ctx) (opt_headers o) h Hvalid ltac:(by rewrite Hentries)) as (req & h1 & -> & Hreq).
  cbn [mbind option_bind]. destruct req as [req|]; [|by apply Hraised]. destruct Hreq as [Ereq Hl1].
  match goal with |- context [http_open strerror ctx p ?ms (opt_use_tls o) a t hd] =>
    pose proof (http_open_spec ctx p ms (opt_use_tls o) a t hd) as Hopen; destruct (http_open strerror ctx p ms (opt_use_tls o) a t hd) as [[conn|err] hd1] end.
  2: { rewrite Hopen. apply Hraised; [cbn [live free_block]; lia|done]. }
  destruct Hopen as [Hclose Hip].
  assert (Hperm : permitted ctx opts req target).
  { exists (opt_method o). split_and!; try done.
    - rewrite <- Hentries. destruct (opt_headers o) as [entries|]; [|constructor]. cbn [default]. unfold id. apply Forall_map, Forall_forall. intros e He.
      unfold http_validate_headers_table in Hvalid. rewrite forallb_forall in Hvalid. apply list_elem_of_In, Hvalid, header_entry_spec in He.
      by destruct He as (name & value & -> & Hok).
    - by rewrite Ereq; unfold headers_of; rewrite Hentries. }
  pose proof (http_conn_write_all_spec (opt_use_tls o) req s) as Hw. destruct (http_conn_write_all (opt_use_tls o) req s) as [ok s1].
  destruct Hw as [(Hin & _) (k & Hk & Hok)]. destruct ok; cbn [negb].
  2: { eexists _, s1, _, _. split; [done|]. split; [done|]. split; [cbn [live free_block]; lia|]. right. exists target, req, k. split; [done|]. split; [done|].
    split; [done|]. by destruct (opt_use_tls o). }
  pose proof (http_read_all_spec s1 (free_block h1)) as Hr. destruct (http_read_all s1 (free_block h1)) as [[resp s2] h2]. destruct Hr as [[Ho _] Hr].
  cbn [live free_block] in Hr. destruct resp as [buf|].
  - destruct Hr as (Hl2 & Hcap & j & ->). destruct (response_of_spec (take j (incoming s1))) as (status & Est & Hst & ->). cbn [mbind option_bind].
    eexists _, s2, _, _. split; [done|]. split; [done|]. split; [cbn [live free_block]; lia|]. right. exists target, req, k. split; [done|]. split; [done|].
    split; [by rewrite Ho|]. intros ? [= <-]. split; [by rewrite (Hok eq_refl)|]. exists j, status. rewrite <- Hin. done.
  - eexists _, s2, _, _. split; [done|]. split; [done|]. split; [lia|]. right. exists target, req, k. split; [done|]. split; [done|]. by rewrite Ho.
Qed.

(** C5: [http_get] puts at most one request on the wire, and only one that
    cannot change the target.  Whatever arguments a plugin passes and whatever
    the network does, no access is out of bounds, the descriptors, the OpenSSL
    objects and the blocks are as before, and what was sent is nothing or a
    prefix of one text; a server that reads it line by line finds a GET or a
    HEAD of the given path, the scanned host, [Connection: close] and the
    plugin's own headers, none of which is [Host], [Content-Length] or
    [Transfer-Encoding], and nothing after them. *)
Theorem http_get_one_request ctx port path opts a t s hd h :
  entries_size (opts_entries opts) < 2 ^ 59 ->
  exists r s' hd' h', api_http_get string_to_integer number_to_string strerror ctx port path opts a t s hd h = Some (r, s', hd', h') /\
    hd' = hd /\ live h' = live h /\
    (sent s' = sent s \/
     exists req k method target, sent s' = sent s ++ take k req /\ (method = bs "GET" \/ method = bs "HEAD") /\
       check_string number_to_string path = Some target /\ is_Some (inet_pton (ctx_ip ctx)) /\
       Forall (fun header => http_header_is_framing (fst header) = false) (map entry_strings (opts_entries opts)) /\
       read_request req = Some (method, target, bs "HTTP/1.0",
         (bs "Host", ctx_ip ctx) :: (bs "Connection", bs "close") :: map seen (map entry_strings (opts_entries opts)), [])).
Proof.
  intros Hsize. destruct (http_get_spec ctx port path opts a t s hd h Hsize) as (r & s' & hd' & h' & E & Hhd & Hl & H).
  exists r, s', hd', h'. split; [done|]. split; [done|]. split; [done|].
  destruct H as [[Hs _]|(target & req & k & Hpath & (method & Hm & Hvalid & Hip & Hh & ->) & Hs & _)]; [by left|right].
  eexists _, k, method, target. split; [exact Hs|]. split; [done|]. split; [done|]. split; [done|]. split.
  - eapply Forall_impl; [exact Hh|]. intros header. apply ok_framing.
  - destruct Hip as [addr Hip]. apply read_request_text; [done|done|by eapply inet_pton_chars|done].
Qed.

(** C21: [http_get] answers what a reader of lines makes of the response.  A
    table comes only after the whole request was sent; it is made of at most
    1,114,113 bytes, the first that the peer sent: the status is -1 or the three
    digits of the status line, the fields are the first 128 header lines up to
    an empty line, names in lower case and cut at 255 bytes, equal names joined
    by a comma, and the body is what follows, cut at 1 MiB. *)
Theorem http_get_response ctx port path opts a t s hd h resp s' hd' h' :
  entries_size (opts_entries opts) < 2 ^ 59 ->
  api_http_get string_to_integer number_to_string strerror ctx port path opts a t s hd h = Some (Value resp, s', hd', h') ->
  exists target req buf rest status, permitted ctx opts req target /\ sent s' = sent s ++ req /\ incoming s = buf ++ rest /\
    Z.of_nat (length buf) <= 1114113 /\ parse_status buf = Some status /\ (status = -1 \/ 0 <= status <= 999) /\
    resp = response_value buf status /\ Z.of_nat (length (resp_body resp)) <= 1048576.
Proof.
  intros Hsize E. destruct (http_get_spec ctx port path opts a t s hd h Hsize) as (r & s1 & hd1 & h1 & E1 & _ & _ & H).
  rewrite E in E1. injection E1 as <- <- <- <-.
  destruct H as [[_ []]|(target & req & k & _ & Hperm & Hs & Hr)]. destruct (Hr resp eq_refl) as (Hk & j & status & Est & Hst & Hcap & ->).
  exists target, req, (take j (incoming s)), (drop j (incoming s)), status. split; [done|]. split; [by rewrite Hs, take_ge|].
  split; [by rewrite take_drop|]. rewrite http_total_cap in Hcap. split_and!; try done. unfold response_value.
  destruct (response_lines _ _) as [pairs body]. cbn [resp_body]. rewrite length_take. unfold HTTP_BODY_CAP. lia.
Qed.
End Correct.

(** ** A request and its response *)

Definition example_ctx : plugin_ctx := PluginCtx (bs "10.0.0.1") None (Timespec 0 0).
Definition example_opts : opts_arg := OptsTable (fun _ => LNil) (HdrTable [(LString (bs "X-A"), LString (bs "v"))]).
Definition example_stream : stream :=
  Stream [] [Moved 20] (bs "HTTP/1.1 404 no" ++ CRLF ++ bs "A: 1" ++ CRLF ++ bs "a: 2" ++ CRLF ++ CRLF ++ bs "body") [Moved 30; Moved 30] [].
Definition example_get : option (lua_result http_response * stream * handles * heap) :=
  api_http_get (fun _ => None) (fun _ => []) (fun _ => []) example_ctx (LInteger 80) (LString (bs "/x")) example_opts
    (Attempt None true None 0 None) (Handshake true true 1 1) example_stream (Handles 0 0 0) (Heap [] 0).

Lemma http_get_one_request_witness :
  exists r s' req, example_get = Some (r, s', Handles 0 0 0, Heap [] 0) /\ sent s' = req /\
    read_request req = Some (bs "GET", bs "/x", bs "HTTP/1.0", [(bs "Host", bs "10.0.0.1"); (bs "Connection", bs "close"); (bs "X-A", bs "v")], []).
Proof.
  destruct (http_get_one_request (fun _ => None) (fun _ => []) (fun _ => []) example_ctx (LInteger 80) (LString (bs "/x")) example_opts
    (Attempt None true None 0 None) (Handshake true true 1 1) example_stream (Handles 0 0 0) (Heap [] 0) ltac:(vm_compute; reflexivity))
    as (r & s' & hd' & h' & E & Hhd & Hl & _).
  assert (Hs : match example_get with Some (_, s1, _, h1) => bool_decide (read_request (sent s1) =
      Some (bs "GET", bs "/x", bs "HTTP/1.0", [(bs "Host", bs "10.0.0.1"); (bs "Connection", bs "close"); (bs "X-A", bs "v")], [])) &&
      bool_decide (oracle h1 = []) | None => false end = true) by (vm_compute; reflexivity).
  unfold example_get in Hs |- *. rewrite E in Hs |- *. apply andb_prop in Hs as [Hr%bool_decide_eq_true Ho%bool_decide_eq_true].
  exists r, s', (sent s'). subst hd'. destruct h' as [o l]. cbn in Hl, Ho. subst o l. split; [reflexivity|]. split; [reflexivity|exact Hr].
Defined.

Lemma http_get_response_witness :
  exists resp s' hd' h', example_get = Some (Value resp, s', hd', h') /\ resp_status resp = 404 /\
    resp_headers resp !! bs "a" = Some (bs "1, 2") /\ Z.of_nat (length (resp_body resp)) <= 1048576.
Proof.
  assert (Hs : match example_get with Some (Value resp, _, _, _) => bool_decide (resp_status resp = 404) && bool_decide (resp_headers resp !! bs "a" = Some (bs "1, 2"))
    | _ => false end = true) by (vm_compute; reflexivity).
  destruct example_get as [[[[[| |resp] s'] hd'] h']|] eqn:E; try discriminate Hs.
  apply andb_prop in Hs as [H1%bool_decide_eq_true H2%bool_decide_eq_true]. exists resp, s', hd', h'. split; [reflexivity|]. split; [exact H1|]. split; [exact H2|].
  destruct (http_get_response (fun _ => None) (fun _ => []) (fun _ => []) example_ctx (LInteger 80) (LString (bs "/x")) example_opts
    (Attempt None true None 0 None) (Handshake true true 1 1) example_stream (Handles 0 0 0) (Heap [] 0) resp s' hd' h' ltac:(vm_compute; reflexivity) E)
    as (? & ? & ? & ? & ? & _ & _ & _ & _ & _ & _ & _ & Hb). exact Hb.
Defined.
