(* ===== verification/HostScan.v ===== *)
(** * Scanning one host ([src/src/net/tcp_connect.c], [tcp_ping.c],
    [icmp_probe.c], [discovery.c], [port_scanner.c], [host_scan.c],
    [scan_types.c])

    Where the parts meet: discovery, the port scan, service detection and the
    plugin schedule fill the knowledge base of one host.  What the system calls
    answer is a parameter: the connection attempts, the packets received, and
    the endpoints behind open ports.  The state is the knowledge base and the
    heap. *)

From S2P Require Import Prelude CveId VersionCompare Cidr TargetList LuaFields Plugin KbValidate Kb Scheduler PluginApi Streams ServiceDetect.

(** ** One TCP connection attempt ([tcp_connect.c]) *)

(** [cytadel_port_state_t] and its number. *)
Inductive port_state := PORT_CLOSED | PORT_OPEN | PORT_FILTERED.

#[export] Instance port_state_eq_dec : EqDecision port_state.
Proof. solve_decision. Defined.

Definition port_state_value (s : port_state) : Z :=
  match s with PORT_CLOSED => 0 | PORT_OPEN => 1 | PORT_FILTERED => 2 end.

(** [cytadel_net_tcp_connect_probe] with the number of open descriptors. *)
Definition tcp_connect_probe (ip : option bytes) (port : Z) (a : attempt) (fds : Z) : port_state * Z :=
  match ip with
  | None => (PORT_FILTERED, fds)
  | Some ip =>
      if port =? 0 then (PORT_FILTERED, fds) else
      if bool_decide (is_Some (a_socket a)) then (PORT_FILTERED, fds) else
      let fds := fds + 1 in
      let close := fds - 1 in
      if negb (a_nonblocking a) then (PORT_FILTERED, close) else
      if negb (bool_decide (is_Some (inet_pton ip))) then (PORT_FILTERED, close) else
      let state :=
        match a_connect a with
        | None => PORT_OPEN
        | Some e =>
            if e =? EINPROGRESS then
              if a_poll a =? 0 then PORT_FILTERED
              else if a_poll a <? 0 then PORT_FILTERED
              else match a_so_error a with
                   | None => PORT_FILTERED
                   | Some None => PORT_OPEN
                   | Some (Some e) => if e =? ECONNREFUSED then PORT_CLOSED else PORT_FILTERED
                   end
            else if e =? ECONNREFUSED then PORT_CLOSED
            else PORT_FILTERED
        end in
      (state, close)
  end.

(** ** TCP ping ([tcp_ping.c]) *)

Definition TCP_PING_PORTS : list Z := [80; 443; 22].

(** The loop of [cytadel_tcp_ping_probe]; [attempts] by port. *)
Fixpoint tcp_ping_loop (ip : bytes) (ports : list Z) (attempts : Z -> attempt) (fds : Z) : bool * Z :=
  match ports with
  | [] => (false, fds)
  | port :: ports =>
      let '(state, fds) := tcp_connect_probe (Some ip) port (attempts port) fds in
      if bool_decide (state = PORT_OPEN) || bool_decide (state = PORT_CLOSED) then (true, fds)
      else tcp_ping_loop ip ports attempts fds
  end.

Definition tcp_ping_probe (ip : option bytes) (attempts : Z -> attempt) (fds : Z) : bool * Z :=
  match ip with None => (false, fds) | Some ip => tcp_ping_loop ip TCP_PING_PORTS attempts fds end.

(** ** ICMP echo ([icmp_probe.c]) *)

(** The sum of the 16-bit words, in a [uint32_t]. *)
Fixpoint checksum_words (data : bytes) (sum : Z) : Z :=
  match data with
  | a :: b :: data => checksum_words data ((sum + Z.lor (Z.shiftl a 8) b mod 2 ^ 16) mod 2 ^ 32)
  | [a] => (sum + Z.shiftl a 8 mod 2 ^ 16) mod 2 ^ 32
  | [] => sum
  end.

(** [while (sum >> 16)]; three rounds are enough ([fold_carries_done]). *)
Fixpoint fold_carries (fuel : nat) (sum : Z) : Z :=
  match fuel with
  | O => sum
  | S fuel => if Z.shiftr sum 16 =? 0 then sum else fold_carries fuel (Z.land sum 65535 + Z.shiftr sum 16)
  end.

(** [cytadel_icmp_checksum] *)
Definition icmp_checksum (data : bytes) : Z := 2 ^ 16 - 1 - fold_carries 3 (checksum_words data 0) mod 2 ^ 16.

(** A 16-bit number in network order. *)
Definition be16 (n : Z) : bytes := [Z.shiftr n 8; Z.land n 255].

(** The echo request: type 8, code 0, checksum, identifier, sequence 1. *)
Definition echo_header (checksum ident : Z) : bytes := [8; 0] ++ be16 checksum ++ be16 ident ++ be16 1.
Definition echo_request (ident : Z) : bytes := echo_header (icmp_checksum (echo_header 0 ident)) ident.

(** [cytadel_icmp_result_t] *)
Inductive icmp_result := ICMP_REPLY_UP | ICMP_NO_REPLY | ICMP_UNAVAILABLE.

(** Big-endian 16-bit read. *)
Definition read_be16 (buf : bytes) (i : nat) : option Z := a ← buf !! i; b ← buf !! S i; Some (a * 256 + b).

(** Whether a received packet is the reply; [None] is a read past what was
    received. *)
Definition echo_reply_matches (ident from dest : Z) (buf : bytes) : option bool :=
  let n := length buf in
  if Nat.ltb n 20 then Some false else
  b0 ← buf !! 0%nat;
  let ip_hdr_len := (Z.to_nat (Z.land b0 15) * 4)%nat in
  if Nat.ltb ip_hdr_len 20 || Nat.ltb n (ip_hdr_len + 8) then Some false else
  ty ← buf !! ip_hdr_len;
  id ← read_be16 buf (ip_hdr_len + 4);
  sq ← read_be16 buf (ip_hdr_len + 6);
  Some ((ty =? 0) && (id =? ident) && (sq =? 1) && (from =? dest)).

(** One round of the wait loop: the clock (seconds and nanoseconds), [poll],
    and [recvfrom] of at most 128 bytes. *)
Inductive received := RecvEINTR | RecvFails | RecvPacket (from : Z) (packet : bytes).
Inductive polled := PollTimesOut | PollEINTR | PollFails | PollReady (r : received).
Record round := Round { r_clock : option (Z * Z); r_polled : polled }.

(** [cytadel_icmp_elapsed_ms] *)
Definition icmp_elapsed_ms (start now : Z * Z) : Z := (fst now - fst start) * 1000 + Z.quot (snd now - snd start) 1000000.

(** The [for (;;)] loop over the rounds to come; past the last one the
    deadline has passed. *)
Fixpoint icmp_wait (ident dest : Z) (timeout_ms : Z) (start : Z * Z) (rounds : list round) : option icmp_result :=
  match rounds with
  | [] => Some ICMP_NO_REPLY
  | Round clock p :: rounds =>
      match clock with
      | None => Some ICMP_NO_REPLY
      | Some now =>
          let remaining_ms := timeout_ms - icmp_elapsed_ms start now in
          if remaining_ms <=? 0 then Some ICMP_NO_REPLY else
          match p with
          | PollTimesOut | PollFails | PollReady RecvFails => Some ICMP_NO_REPLY
          | PollEINTR | PollReady RecvEINTR => icmp_wait ident dest timeout_ms start rounds
          | PollReady (RecvPacket from packet) =>
              same ← echo_reply_matches ident from dest (take 128 packet);
              if same : bool then Some ICMP_REPLY_UP else icmp_wait ident dest timeout_ms start rounds
          end
      end
  end.

(** [cytadel_icmp_echo_probe]: the raw socket, the process id, [sendto] and
    the starting clock. *)
Record icmp_env := IcmpEnv {
  i_socket : bool; i_pid : Z; i_sendto : bool; i_start : option (Z * Z); i_rounds : list round
}.

Definition icmp_echo_probe (ip : option bytes) (timeout_ms : Z) (e : icmp_env) : option icmp_result :=
  match ip with
  | None => Some ICMP_UNAVAILABLE
  | Some ip =>
      let timeout_ms := Z.max timeout_ms 0 in
      if negb (i_socket e) then Some ICMP_UNAVAILABLE else
      match inet_pton ip with
      | None => Some ICMP_UNAVAILABLE
      | Some dest =>
          if negb (i_sendto e) then Some ICMP_NO_REPLY else
          match i_start e with
          | None => Some ICMP_NO_REPLY
          | Some start => icmp_wait (Z.land (i_pid e) 65535) dest timeout_ms start (i_rounds e)
          end
      end
  end.

(** ** Discovery ([discovery.c]) *)

Inductive discovery_method := METHOD_ICMP | METHOD_TCP_PING | METHOD_SKIPPED.

Definition discovery_choose_method (raw_sockets_available : bool) : discovery_method :=
  if raw_sockets_available then METHOD_ICMP else METHOD_TCP_PING.

(** What the network answers while one host is scanned: the capability probe,
    the echo, the ping attempts by port, the attempts and the endpoints of the
    port scan in order. *)
Record network := Network {
  can_use_raw_sockets : bool;
  echo : icmp_env;
  ping : Z -> attempt;
  attempts : nat -> attempt;
  endpoints : nat -> endpoint
}.

(** [cytadel_discovery_probe]: whether the host is up, and how it was found. *)
Definition discovery_probe (ip : bytes) (probe_timeout_ms : Z) (skip_discovery : bool) (net : network) :
    option (bool * discovery_method) :=
  if skip_discovery then Some (true, METHOD_SKIPPED) else
  let tcp := Some (fst (tcp_ping_probe (Some ip) (ping net) 0), METHOD_TCP_PING) in
  match discovery_choose_method (can_use_raw_sockets net) with
  | METHOD_ICMP =>
      r ← icmp_echo_probe (Some ip) probe_timeout_ms (echo net);
      match r with
      | ICMP_REPLY_UP => Some (true, METHOD_ICMP)
      | ICMP_NO_REPLY => Some (false, METHOD_ICMP)
      | ICMP_UNAVAILABLE => tcp
      end
  | _ => tcp
  end.

(** ** The port scan ([port_scanner.c]) *)

(** The loop, from index [i]. *)
Fixpoint scan_ports (ip : bytes) (ports : list Z) (i : nat) (net : network) : list (Z * port_state) :=
  match ports with
  | [] => []
  | port :: ports =>
      (port, fst (tcp_connect_probe (Some ip) port (attempts net i) 0)) :: scan_ports ip ports (S i) net
  end.

(** [cytadel_port_scan] with the connect backend (the only one): the results
    are NULL when there is no port. *)
Definition port_scan (ip : bytes) (ports : list Z) (net : network) (h : heap) :
    Z * option (list (Z * port_state)) * heap :=
  match ports with
  | [] => (0, None, h)
  | _ =>
      let '(ok, h) := malloc h in
      if negb ok then (-1, None, h) else (0, Some (scan_ports ip ports 0 net), h)
  end.

(** ** One host ([host_scan.c]) *)

(** [cytadel_host_result_t] *)
Record host_result := HostResult {
  res_host : bytes;
  res_ip : bytes;
  res_up : bool;
  res_ports : option (list (Z * port_state));
  res_kb : option kb;
  res_findings : finding_list
}.

(** [cytadel_host_result_free] of a result that is not NULL. *)
Definition host_result_free (r : host_result) (h : heap) : heap :=
  let h := free_if (bool_decide (is_Some (res_ports r))) h in
  let h := kb_free (res_kb r) h in
  snd (finding_list_free (Some (res_findings r)) h).

(** [cytadel_host_scan_opts_t] *)
Record scan_opts := ScanOpts {
  discovery_timeout_ms : Z;
  skip_discovery : bool;
  plugin_registry : option (list plugin_header)
}.

Definition port_fact_key (port : Z) : bytes := bs "Ports/tcp/" ++ print_dec port.

(** The loop that records the states. *)
Definition record_port (s : facts) (r : Z * port_state) : facts :=
  snd (write_int (port_fact_key (fst r)) (port_state_value (snd r)) s).

(** The loop of service detection, from index [i]. *)
Fixpoint detect_services (ip : bytes) (rs : list (Z * port_state)) (i : nat) (net : network) (s : facts) : facts :=
  match rs with
  | [] => s
  | (port, state) :: rs =>
      let s := if bool_decide (state = PORT_OPEN) then service_detect_port (Some ip) port (endpoints net i) s else s in
      detect_services ip rs (S i) net s
  end.

(** The facts recorded before discovery. *)
Definition first_facts (t : target) (now : option bytes) (s : facts) : facts :=
  let s := snd (write_str (bs "Host/ip") (ip t) s) in
  let s := if negb (target_is_ipv4_literal (Some (host t))) then snd (write_str (bs "Host/hostname") (host t) s) else s in
  match now with Some ts => snd (write_str (bs "Scan/start_time") ts s) | None => s end.

Section HostScan.
(** [cytadel_plugin_invoke_one]. *)
Variable invoke_one : plugin_header -> Z -> kb -> finding_list -> heap -> result_status * kb * finding_list * heap.
Variable net : network.

(** The plugin schedule, when the caller gave a registry. *)
Definition run_plugins (opts : option scan_opts) (t : target) (f : finding_list) (s : facts) : facts * finding_list :=
  match opts with
  | Some o =>
      match run_all_for_host _ invoke_one (plugin_registry o) (Some (ip t)) (Some (fst s)) (Some f) (snd s) with
      | Some st => ((host_kb st, host_heap st), host_findings st)
      | None => (s, f)
      end
  | None => (s, f)
  end.

(** [cytadel_host_scan]; [now] is the formatted time, [None] when formatting
    failed.  The outer [None] is undefined behaviour. *)
Definition host_scan (t : option target) (ports : option (list Z)) (opts : option scan_opts) (now : option bytes) (h : heap) :
    option (Z * option host_result * heap) :=
  match t, ports with
  | Some t, Some ports =>
      let no_findings := FindingList [] 0 in
      let result := HostResult (take 255 (host t)) (take 45 (ip t)) in
      let timeout := match opts with Some o => discovery_timeout_ms o | None => 1000 end in
      let skip := match opts with Some o => skip_discovery o | None => false end in
      let '(k, h) := kb_create h in
      match k with
      | None => Some (-1, Some (result false None None no_findings), h)
      | Some k =>
          let s := first_facts t now (k, h) in
          '(up, _) ← discovery_probe (ip t) timeout skip net;
          let s := snd (write_str (bs "Host/state") (if up : bool then bs "up" else bs "down") s) in
          if negb up then Some (0, Some (result false None (Some (fst s)) no_findings), snd s) else
          let '(rc, results, h) := port_scan (ip t) ports net (snd s) in
          if negb (rc =? 0) then Some (-1, Some (result true None (Some (fst s)) no_findings), h) else
          let rs := default [] results in
          let s := foldl record_port (fst s, h) rs in
          let s := detect_services (ip t) rs 0 net s in
          let '(s, f) := run_plugins opts t no_findings s in
          Some (0, Some (result true results (Some (fst s)) f), snd s)
      end
  | _, _ => Some (-1, None, h)
  end.
End HostScan.

(** ** Lemmas: probes *)

(** Every path closes what it opened; a port is open only when the handshake
    ended without an error. *)
Lemma tcp_connect_probe_closes ip port a fds : snd (tcp_connect_probe ip port a fds) = fds.
Proof.
  unfold tcp_connect_probe. destruct ip as [ip|]; [|done]. destruct (port =? 0); [done|]. case_bool_decide; [done|]. cbv zeta.
  destruct (a_nonblocking a); cbn [negb snd]; [|lia]. case_bool_decide; cbn [negb snd]; lia.
Qed.

Lemma tcp_ping_probe_closes ip attempts fds : snd (tcp_ping_probe ip attempts fds) = fds.
Proof.
  destruct ip as [ip|]; [|done]. cbn [tcp_ping_probe]. induction TCP_PING_PORTS as [|port ports IH] in fds |- *; [done|]. cbn [tcp_ping_loop].
  pose proof (tcp_connect_probe_closes (Some ip) port (attempts port) fds) as H.
  destruct (tcp_connect_probe _ _ _ _) as [state fds']. cbn in H. subst fds'. destruct (_ || _); [done|apply IH].
Qed.

(** A reply is never read past what was received. *)
Lemma echo_reply_some ident from dest buf : exists b, echo_reply_matches ident from dest buf = Some b.
Proof.
  unfold echo_reply_matches. destruct (Nat.ltb_spec (length buf) 20); [by eexists|].
  destruct (lookup_lt_is_Some_2 buf 0 ltac:(lia)) as [b0 ->]. cbn [mbind option_bind].
  destruct (_ || _) eqn:Hn; [by eexists|]. apply orb_false_iff in Hn as [_ Hn]. apply Nat.ltb_ge in Hn.
  set (l := (Z.to_nat (Z.land b0 15) * 4)%nat) in *. unfold read_be16.
  destruct (lookup_lt_is_Some_2 buf l ltac:(lia)) as [? ->].
  destruct (lookup_lt_is_Some_2 buf (l + 4) ltac:(lia)) as [? ->]. destruct (lookup_lt_is_Some_2 buf (S (l + 4)) ltac:(lia)) as [? ->].
  destruct (lookup_lt_is_Some_2 buf (l + 6) ltac:(lia)) as [? ->]. destruct (lookup_lt_is_Some_2 buf (S (l + 6)) ltac:(lia)) as [? ->].
  by eexists.
Qed.

Lemma icmp_echo_probe_some ip timeout_ms e : exists r, icmp_echo_probe ip timeout_ms e = Some r.
Proof.
  unfold icmp_echo_probe. destruct ip as [ip|]; [|by eexists]. destruct (i_socket e); [|by eexists]. cbn [negb].
  destruct (inet_pton ip) as [dest|]; [|by eexists]. destruct (i_sendto e); [|by eexists]. destruct (i_start e) as [start|]; [|by eexists].
  cbn [negb]. induction (i_rounds e) as [|[clock p] rounds IH]; [by eexists|]. cbn [icmp_wait].
  destruct clock; [|by eexists]. cbv zeta. destruct (_ <=? 0); [by eexists|].
  destruct p as [| | |[| |from packet]]; try (by eexists); try exact IH.
  match goal with |- context [echo_reply_matches ?i ?f ?d ?b] => destruct (echo_reply_some i f d b) as [[] ->] end; [by eexists|exact IH].
Qed.

Lemma discovery_probe_some ip timeout_ms skip net : exists up method, discovery_probe ip timeout_ms skip net = Some (up, method).
Proof.
  unfold discovery_probe. destruct skip; [by eexists _, _|]. cbv zeta. destruct (discovery_choose_method _); try (by eexists _, _).
  destruct (icmp_echo_probe_some (Some ip) timeout_ms (echo net)) as [[] ->]; by eexists _, _.
Qed.

Lemma scan_ports_fst ip ports i net : map fst (scan_ports ip ports i net) = ports.
Proof. induction ports as [|port ports IH] in i |- *; [done|]. cbn [scan_ports map fst]. by rewrite IH. Qed.

(** ** Lemmas: the checksum *)

Lemma fold_once sum : 0 <= sum -> Z.land sum 65535 + Z.shiftr sum 16 = sum mod 2 ^ 16 + sum / 2 ^ 16.
Proof. intros H. change 65535 with (Z.ones 16). by rewrite Z.land_ones, Z.shiftr_div_pow2 by lia. Qed.

Lemma fold_once_spec sum : 0 <= sum -> exists q, 0 <= q /\ sum = 65536 * q + sum mod 65536 /\ sum / 65536 = q.
Proof. intros H. exists (sum / 65536). pose proof (Z.div_mod sum 65536). pose proof (Z.div_pos sum 65536). lia. Qed.

(** The result fits 16 bits and is congruent to the sum modulo 65535; it is
    zero for a zero sum only. *)
Lemma fold_carries_done sum :
  0 <= sum < 2 ^ 32 ->
  let r := fold_carries 3 sum in
  0 <= r < 65536 /\ (exists q, sum = 65535 * q + r) /\ (r = 0 -> sum = 0).
Proof.
  assert (Hstep : forall n s, 0 <= s -> fold_carries (S n) s = if s / 65536 =? 0 then s else fold_carries n (s mod 65536 + s / 65536)).
  { intros n s Hs. cbn [fold_carries]. rewrite fold_once, Z.shiftr_div_pow2 by lia. done. }
  assert (Hb : forall s, 0 <= s -> 0 <= s mod 65536 < 65536 /\ s = 65536 * (s / 65536) + s mod 65536 /\ 0 <= s / 65536)
    by (intros s Hs; pose proof (Z.div_mod s 65536); pose proof (Z.mod_pos_bound s 65536); pose proof (Z.div_pos s 65536); lia).
  intros Hs. change (2 ^ 32) with (65536 * 65536) in Hs.
  destruct (Hb sum ltac:(lia)) as (M1 & D1 & Q1). rewrite Hstep by lia.
  destruct (Z.eqb_spec (sum / 65536) 0) as [E1|E1]; [cbv zeta; split; [lia|split; [exists 0; lia|lia]]|].
  set (s1 := sum mod 65536 + sum / 65536) in *. assert (0 < s1 <= 131070) by lia.
  destruct (Hb s1 ltac:(lia)) as (M2 & D2 & Q2). rewrite Hstep by lia.
  destruct (Z.eqb_spec (s1 / 65536) 0) as [E2|E2]; [cbv zeta; split; [lia|split; [exists (sum / 65536); lia|lia]]|].
  set (s2 := s1 mod 65536 + s1 / 65536) in *. assert (s1 / 65536 = 1) by lia. assert (0 < s2 < 65536) by lia.
  destruct (Hb s2 ltac:(lia)) as (M3 & D3 & Q3). rewrite Hstep by lia.
  destruct (Z.eqb_spec (s2 / 65536) 0) as [E3|E3]; [|lia].
  cbv zeta. split; [lia|split; [exists (sum / 65536 + 1); lia|lia]].
Qed.

Lemma be16_word n : 0 <= n < 65536 -> forall rest sum, 0 <= sum -> sum + n < 2 ^ 32 -> checksum_words (be16 n ++ rest) sum = checksum_words rest (sum + n).
Proof.
  intros Hn rest sum Hs Hb. cbn [be16 app checksum_words]. f_equal. change 255 with (Z.ones 8).
  rewrite Z.land_ones, Z.shiftr_div_pow2, Z.shiftl_mul_pow2 by lia.
  replace (Z.lor (n / 2 ^ 8 * 2 ^ 8) (n mod 2 ^ 8)) with n; [rewrite (Z.mod_small n), Z.mod_small by lia; lia|].
  rewrite <- Z.shiftl_mul_pow2, <- Z.shiftr_div_pow2, <- Z.land_ones by lia. symmetry. apply Z.bits_inj'. intros i Hi.
  rewrite Z.lor_spec, Z.land_spec, Z.testbit_ones_nonneg by lia.
  destruct (Z.ltb_spec i 8).
  - rewrite Z.shiftl_spec_low by lia. by rewrite andb_true_r.
  - rewrite Z.shiftl_spec_high, Z.shiftr_spec, andb_false_r, orb_false_r by lia. f_equal. lia.
Qed.

(** A request carries the checksum a receiver expects. *)
Lemma echo_request_checksum ident : 0 <= ident < 65536 -> icmp_checksum (echo_request ident) = 0.
Proof.
  intros Hi. unfold echo_request. set (c := icmp_checksum (echo_header 0 ident)).
  assert (Hsum : forall c, 0 <= c < 65536 -> checksum_words (echo_header c ident) 0 = 2048 + c + ident + 1).
  { intros c0 Hc0. unfold echo_header. change ([8; 0]) with (be16 2048). rewrite !be16_word by lia.
    rewrite <- (app_nil_r (be16 1)), be16_word by lia. cbn [checksum_words]. lia. }
  pose proof (fold_carries_done (checksum_words (echo_header 0 ident) 0)) as H0. rewrite Hsum in H0 by lia.
  destruct (H0 ltac:(lia)) as (Hr & [q Hq] & Hz).
  assert (Hc : c = 65535 - fold_carries 3 (2048 + 0 + ident + 1)).
  { unfold c, icmp_checksum. rewrite Hsum by lia. rewrite Z.mod_small by lia. lia. }
  pose proof (fold_carries_done (2048 + c + ident + 1) ltac:(lia)) as (Hr2 & [q2 Hq2] & Hz2).
  unfold icmp_checksum. rewrite Hsum by lia. rewrite Z.mod_small by lia.
  assert (fold_carries 3 (2048 + c + ident + 1) <> 0) by (intros E; apply Hz2 in E; lia). lia.
Qed.

(** ** Lemmas: the facts of a host *)

(** The keys the engine writes itself. *)
Definition host_keys : list bytes := map bs ["Host/ip"; "Host/hostname"; "Host/state"; "Scan/start_time"]%string.

(** A key a scan with these results may have recorded: one of the host's, the
    state of a scanned port, a fact about an open port. *)
Definition recorded_by (rs : list (Z * port_state)) (key : bytes) : Prop :=
  key ∈ host_keys \/ key ∈ map (fun r => port_fact_key (fst r)) rs \/
  Exists (fun r => snd r = PORT_OPEN /\ about_port (fst r) key) rs.

#[export] Instance recorded_by_dec rs key : Decision (recorded_by rs key).
Proof. unfold recorded_by. apply _. Defined.

Lemma host_write_step P key v s : P key -> facts_step P s (snd (write_str key v s)).
Proof. intros HP. eapply wrote_step; [exact HP|apply write_str_wrote]. Qed.

Lemma first_facts_step t now s : facts_step (fun key => key ∈ host_keys) s (first_facts t now s).
Proof.
  unfold first_facts. cbv zeta. assert (H : forall name, bs name ∈ host_keys -> forall v s, facts_step (fun key => key ∈ host_keys) s (snd (write_str (bs name) v s)))
    by (intros; by apply (host_write_step (fun key => key ∈ host_keys))).
  etransitivity; [|destruct now; [apply H; vm_compute; set_solver|reflexivity]].
  etransitivity; [|destruct (negb _); [apply H; vm_compute; set_solver|reflexivity]].
  apply H. vm_compute. set_solver.
Qed.

Lemma record_port_step (P : bytes -> Prop) s r : P (port_fact_key (fst r)) -> facts_step P s (record_port s r).
Proof. intros HP. eapply wrote_step; [exact HP|apply write_int_wrote]. Qed.

Lemma record_ports_step (P : bytes -> Prop) rs s :
  (forall r, r ∈ rs -> P (port_fact_key (fst r))) -> facts_step P s (foldl record_port s rs).
Proof.
  induction rs as [|r rs IH] in s |- *; intros HP; cbn [foldl]; [reflexivity|].
  etransitivity; [apply record_port_step, HP; by left|]. apply IH. intros r' Hr. apply HP. by right.
Qed.

Lemma port_fact_key_valid port : 0 <= port <= 65535 -> kb_validate_key (Some (port_fact_key port)) = true.
Proof.
  intros Hp. apply validate_key_grammar. destruct (print_dec_digits port ltac:(lia)) as [Hne Hd].
  pose proof (port_length port Hp) as Hl. split.
  - unfold port_fact_key. rewrite length_app. change (length (bs "Ports/tcp/")) with 10%nat. unfold KB_KEY_MAX_LEN. lia.
  - exists [bs "Ports"; bs "tcp"; print_dec port]. split_and!; [done| |].
    + apply Forall_cons; split; [split; [done|by repeat constructor]|]. apply Forall_cons; split; [split; [done|by repeat constructor]|].
      apply Forall_singleton. split; [done|]. eapply Forall_impl; [exact Hd|]. intros c Hc. cbn in Hc. unfold kb_key_char. lia.
    + unfold port_fact_key. reflexivity.
Qed.

Lemma port_fact_key_inj p q : 0 <= p <= 65535 -> 0 <= q <= 65535 -> port_fact_key p = port_fact_key q -> p = q.
Proof. intros Hp Hq E. apply app_inv_head in E. rewrite <- (print_dec_value p), <- (print_dec_value q) by lia. by rewrite E. Qed.

(** The states of the ports are facts about no port. *)
Lemma port_fact_key_about p q : 0 <= p <= 65535 -> ~ about_port q (port_fact_key p).
Proof.
  intros Hp. unfold about_port. change (port_fact_key p) with (bs "Ports" ++ 47 :: (bs "tcp/" ++ print_dec p)).
  assert (Hnone : split_on 47 (bs "Ports") = [bs "Ports"]) by reflexivity.
  rewrite split_on_app, Hnone. cbn [app]. intros [Hf _]. revert Hf. vm_compute. set_solver.
Qed.

Lemma recorded_states rs s :
  NoDup (map fst rs) -> Forall (fun r => 0 <= fst r <= 65535) rs -> kb_ok (fst s) -> false ∉ oracle (snd s) ->
  forall port state, (port, state) ∈ rs ->
  kb_map (fst (foldl record_port s rs)) !! port_fact_key port = Some (KB_INT (port_state_value state)).
Proof.
  induction rs as [|[p st] rs IH] in s |- *; intros Hnd Hr Hk Ho port state Hin; cbn [foldl]; [by apply elem_of_nil in Hin|].
  cbn [map fst] in Hnd. apply NoDup_cons in Hnd as [Hp Hnd]. apply Forall_cons in Hr as [Hp0 Hr]. cbn [fst] in Hp0.
  pose proof (record_port_step (fun _ => True) s (p, st) I Hk) as (Hk' & _ & _ & Hc).
  pose proof (write_int_wrote (port_fact_key p) (port_state_value st) s Hk) as Hw.
  change (write_int (port_fact_key p) (port_state_value st) s) with (write_int (port_fact_key (fst (p, st))) (port_state_value (snd (p, st))) s) in Hw.
  apply elem_of_cons in Hin as [[= -> ->]|Hin].
  - rewrite (proj1 (proj2 (proj2 (record_ports_step (fun key => key <> port_fact_key p) rs (record_port s (p, st))
      ltac:(intros [q sq] Hq E; cbn [fst] in E; apply port_fact_key_inj in E;
        [subst q; apply Hp; apply list_elem_of_fmap; by exists (p, sq)|rewrite Forall_forall in Hr; by apply (Hr _ Hq)|done]) Hk')))) by tauto.
    by apply (wrote_stored _ _ _ _ Hw); [apply port_fact_key_valid| |].
  - apply IH; try done. intros Hf. by apply Ho, Hc.
Qed.

(** What [tls_inspect.c] writes for the endpoint of a port is about the port. *)
Definition tls_about (net : network) (ports : list Z) : Prop :=
  forall i port, ports !! i = Some port -> forall populate response, tls (endpoints net i) = Some (populate, response) ->
  forall s, port_step port s (populate s).

Lemma detect_services_step ip rs i net s (P : bytes -> Prop) :
  Forall (fun r => 0 <= fst r <= 65535) rs ->
  (forall j port, map fst rs !! j = Some port -> forall populate response, tls (endpoints net (i + j)) = Some (populate, response) ->
    forall s, port_step port s (populate s)) ->
  (forall port key, (port, PORT_OPEN) ∈ rs -> about_port port key -> P key) ->
  facts_step P s (detect_services ip rs i net s).
Proof.
  induction rs as [|[p st] rs IH] in i, s |- *; intros Hr Ht HP; cbn [detect_services]; [reflexivity|]. cbv zeta.
  apply Forall_cons in Hr as [Hp Hr]. cbn [fst] in Hp. etransitivity; [|apply IH; [done| |]].
  - case_bool_decide as Hst; [|reflexivity]. subst st. eapply facts_step_weaken; [|apply detect_step; [done|]].
    + intros key. apply HP. by left.
    + intros populate response He. eapply (Ht 0%nat p); [done|]. rewrite Nat.add_0_r. exact He.
  - intros j port Hj populate response He. eapply (Ht (S j) port); [done|]. rewrite Nat.add_succ_r. exact He.
  - intros port key Hin. apply HP. by right.
Qed.

Lemma port_scan_cases ip ports net h :
  (exists results h', port_scan ip ports net h = (0, results, h') /\ default [] results = scan_ports ip ports 0 net /\
     live h' = live h + (if bool_decide (is_Some results) then 1 else 0) /\ consumes h h') \/
  (exists h', port_scan ip ports net h = (-1, None, h') /\ live h' = live h /\ false ∈ oracle h).
Proof.
  unfold port_scan. destruct ports as [|p ports].
  { left. exists None, h. split_and!; [done|done|cbn; lia|reflexivity]. }
  malloc_case h ok h1 Hl Hf Ho. destruct ok; cbn [negb].
  - left. eexists _, h1. split_and!; [done|done|done|exact Ho].
  - right. exists h1. split_and!; [done|lia|auto].
Qed.

(** What the scan records for an up host, after its first facts. *)
Lemma scanned_range ip ports net :
  Forall (fun p => 1 <= p <= 65535) ports -> Forall (fun r => 0 <= fst r <= 65535) (scan_ports ip ports 0 net).
Proof.
  rewrite !Forall_forall. intros Hr r Hin. assert (H : fst r ∈ ports) by (rewrite <- (scan_ports_fst ip ports 0 net); apply list_elem_of_fmap; by exists r).
  specialize (Hr _ H). cbn in Hr. lia.
Qed.

Lemma detected_step ip ports net s (P : bytes -> Prop) :
  Forall (fun p => 1 <= p <= 65535) ports -> tls_about net ports ->
  let rs := scan_ports ip ports 0 net in
  (forall port key, (port, PORT_OPEN) ∈ rs -> about_port port key -> P key) -> facts_step P s (detect_services ip rs 0 net s).
Proof.
  intros Hr Ht rs HP. apply detect_services_step; [by apply scanned_range| |done]. unfold rs. rewrite scan_ports_fst. apply Ht.
Qed.

Lemma host_facts_steps ip ports net s :
  Forall (fun p => 1 <= p <= 65535) ports -> tls_about net ports ->
  let rs := scan_ports ip ports 0 net in
  facts_step (recorded_by rs) s (detect_services ip rs 0 net (foldl record_port s rs)).
Proof.
  intros Hr Ht rs. etransitivity.
  - apply record_ports_step. intros r Hin. right; left. apply list_elem_of_fmap. by exists r.
  - apply detected_step; [done|done|]. intros port key Hin Hab. right; right. apply Exists_exists. by exists (port, PORT_OPEN).
Qed.

Lemma host_facts_recorded ip ports net s :
  Forall (fun p => 1 <= p <= 65535) ports -> NoDup ports -> tls_about net ports ->
  kb_ok (fst s) -> (forall key, key ∉ host_keys -> kb_map (fst s) !! key = None) ->
  let rs := scan_ports ip ports 0 net in
  let s' := detect_services ip rs 0 net (foldl record_port s rs) in
  (forall key, is_Some (kb_map (fst s') !! key) -> recorded_by rs key) /\
  (false ∉ oracle (snd s) -> forall port state, (port, state) ∈ rs ->
     kb_map (fst s') !! port_fact_key port = Some (KB_INT (port_state_value state))).
Proof.
  intros Hr Hnd Ht Hk Hempty rs s'. pose proof (scanned_range ip ports net Hr) as Hrs. split.
  - intros key [v Hv]. destruct (host_facts_steps ip ports net s Hr Ht Hk) as (_ & _ & Hsame & _).
    destruct (decide (key ∈ host_keys)) as [|Hno]; [by left|].
    destruct (decide (recorded_by rs key)) as [|Hn]; [done|]. unfold s', rs in Hv. by rewrite Hsame, Hempty in Hv.
  - intros Ho port state Hin.
    destruct (record_ports_step (fun _ => True) rs s ltac:(done) Hk) as (Hk2 & _).
    destruct (detected_step ip ports net (foldl record_port s rs) (fun key => exists q, about_port q key) Hr Ht (fun q key _ H => ex_intro _ q H) Hk2) as (_ & _ & Hsame & _).
    unfold s', rs. rewrite Hsame.
    + apply recorded_states; [by unfold rs; rewrite scan_ports_fst|done..].
    + intros [q Hq]. revert Hq. apply port_fact_key_about. rewrite Forall_forall in Hrs. by apply (Hrs _ Hin).
Qed.

(** ** Theorems *)

(** The blocks a result owns. *)
Lemma host_result_free_live host ip up ports k f h :
  list_ok f ->
  live (host_result_free (HostResult host ip up ports (Some k) f) h) =
  live h - (if bool_decide (is_Some ports) then 1 else 0) - kb_blocks k - list_blocks f.
Proof.
  intros Hf. unfold host_result_free. cbn [res_ports res_kb res_findings]. rewrite list_free_live, free_live by done.
  case_bool_decide; cbn; lia.
Qed.

Lemma no_findings_blocks : list_blocks (FindingList [] 0) = 0.
Proof. reflexivity. Qed.

(** What a plugin may do to the host: the knowledge base and the list of
    findings stay well formed and own all the blocks that stay in use. *)
Definition plugin_contract (invoke_one : plugin_header -> Z -> kb -> finding_list -> heap -> result_status * kb * finding_list * heap) : Prop :=
  invoke_balanced invoke_one (fun k f => kb_ok k /\ list_ok f) (fun k f => kb_blocks k + list_blocks f).

Lemma run_plugins_live invoke_one opts t f s :
  plugin_contract invoke_one -> kb_ok (fst s) -> list_ok f ->
  let '(s', f') := run_plugins invoke_one opts t f s in
  kb_ok (fst s') /\ list_ok f' /\
  live (snd s') - kb_blocks (fst s') - list_blocks f' = live (snd s) - kb_blocks (fst s) - list_blocks f.
Proof.
  intros Hplug Hk Hf. unfold run_plugins. destruct opts as [o|]; [|done]. destruct (plugin_registry o) as [hdrs|]; [|done].
  cbn [run_all_for_host].
  destruct (run_all_balanced invoke_one _ _ Hplug hdrs (Some (ip t)) (fst s) f (snd s) _ (conj Hk Hf) eq_refl) as [[Hk' Hf'] Hl].
  split_and!; [done|done|]. cbn [fst snd]. lia.
Qed.

Definition no_plugins (opts : option scan_opts) : Prop := match opts with Some o => plugin_registry o = None | None => True end.

Lemma run_plugins_none invoke_one opts t f s : no_plugins opts -> run_plugins invoke_one opts t f s = (s, f).
Proof. intros Hp. destruct opts as [o|]; [|done]. cbn [run_plugins]. by rewrite Hp. Qed.

(** C10: A scan records what it probed and nothing else.  Without plugins,
    [cytadel_host_scan] always returns; it fails only when an allocation did.
    Otherwise the knowledge base is well formed; each of its keys is one of the
    host's four, the state of a port that was scanned, or a service fact about
    a port found open, so closed and filtered ports are never probed further;
    while memory lasts the recorded states are exactly those of the result,
    which lists the requested ports in order when the host is up and none when
    it is down. *)
Theorem host_scan_records invoke_one net t ports opts now h :
  no_plugins opts -> Forall (fun p => 1 <= p <= 65535) ports -> NoDup ports -> tls_about net ports ->
  exists rc r h', host_scan invoke_one net (Some t) (Some ports) opts now h = Some (rc, Some r, h') /\
    (rc = -1 /\ false ∈ oracle h \/
     rc = 0 /\ let rs := default [] (res_ports r) in
       map fst rs = (if res_up r then ports else []) /\
       exists k, res_kb r = Some k /\ kb_ok k /\
         (forall key, is_Some (kb_map k !! key) -> recorded_by rs key) /\
         (false ∉ oracle h -> forall port state, (port, state) ∈ rs ->
            kb_map k !! port_fact_key port = Some (KB_INT (port_state_value state)))).
Proof.
  intros Hp Hr Hnd Ht. unfold host_scan. cbv zeta.
  destruct (kb_create h) as [k h1] eqn:Ec. pose proof (kb_create_oracle h k h1 Ec) as [Hf Hc]. destruct k as [k|].
  2: { eexists _, _, _. split; [done|]. left. split; [done|]. by apply Hf. }
  destruct (create_ok h k h1 Ec) as (Hk & Hempty & _).
  destruct (discovery_probe_some (ip t) (match opts with Some o => discovery_timeout_ms o | None => 1000 end)
    (match opts with Some o => skip_discovery o | None => false end) net) as (up & method & ->). cbn [mbind option_bind].
  set (s := snd (write_str (bs "Host/state") _ _)).
  assert (Hs : facts_step (fun key => key ∈ host_keys) (k, h1) s).
  { etransitivity; [apply first_facts_step|]. apply host_write_step. vm_compute. set_solver. }
  destruct (Hs Hk) as (Hk' & _ & Hsame & Hcs).
  assert (Hfirst : forall key, key ∉ host_keys -> kb_map (fst s) !! key = None)
    by (intros key Hn; rewrite Hsame by done; cbn [fst]; by rewrite Hempty).
  destruct up; cbn [negb].
  2: { eexists _, _, _. split; [done|]. right. split; [done|]. split; [done|]. exists (fst s). split_and!; [done|done| |].
    - intros key [v Hv]. left. destruct (decide (key ∈ host_keys)) as [|Hn]; [done|]. by rewrite Hfirst in Hv.
    - intros _ port state Hin. by apply elem_of_nil in Hin. }
  destruct (port_scan_cases (ip t) ports net (snd s)) as [(results & h2 & -> & Hres & _ & Hc2)|(h2 & -> & _ & Hfail)].
  2: { eexists _, _, _. split; [done|]. left. split; [done|]. apply Hc, Hcs, Hfail. }
  cbn [Z.eqb negb]. rewrite Hres, run_plugins_none by done.
  eexists _, _, _. split; [done|]. right. split; [done|]. cbn [res_ports res_up res_kb]. rewrite Hres.
  split; [apply scan_ports_fst|]. eexists. split; [done|].
  destruct (host_facts_recorded (ip t) ports net (fst s, h2) Hr Hnd Ht Hk' Hfirst) as (Hkeys & Hstates).
  split_and!; [apply (host_facts_steps (ip t) ports net (fst s, h2) Hr Ht Hk')|done|]. intros Ho. apply Hstates. intros Hin. apply Ho, Hc, Hcs, Hc2, Hin.
Qed.

(** A host with an SSH server on 22 and nothing on 80. *)
Definition refused : attempt := Attempt None true (Some ECONNREFUSED) 0 None.
Definition accepted : attempt := Attempt None true (Some EINPROGRESS) 1 (Some None).

Definition ssh_network : network :=
  Network false (IcmpEnv false 0 false None []) (fun _ => refused)
    (fun i => if Nat.eqb i 0 then accepted else refused) (fun _ => Endpoint None None (Some ssh_banner)).

Definition no_invoke (hdr : plugin_header) (port : Z) (k : kb) (f : finding_list) (h : heap) :
    result_status * kb * finding_list * heap := (RESULT_OK, k, f, h).

Definition ssh_target : target := Target (bs "10.0.0.1") (bs "10.0.0.1").

Lemma no_banner_80 : ~ recorded_by [(22, PORT_OPEN); (80, PORT_CLOSED)] (bs "Banner/80").
Proof.
  apply (bool_decide_eq_false_1 (recorded_by [(22, PORT_OPEN); (80, PORT_CLOSED)] (bs "Banner/80"))). vm_compute. reflexivity.
Qed.

Lemma host_scan_records_witness :
  exists r h', host_scan no_invoke ssh_network (Some ssh_target) (Some [22; 80]) None (Some (bs "2024-01-01T00:00:00.000Z")) (Heap [] 0) = Some (0, Some r, h') /\
    default [] (res_ports r) = [(22, PORT_OPEN); (80, PORT_CLOSED)] /\
    kb_get_str (res_kb r) (Some (bs "CPE/22")) = Some (bs "cpe:2.3:a:openbsd:openssh:9.6p1:*:*:*:*:*:*:*") /\
    exists k, res_kb r = Some k /\ kb_map k !! port_fact_key 80 = Some (KB_INT 0) /\ kb_map k !! bs "Banner/80" = None.
Proof.
  destruct (host_scan_records no_invoke ssh_network ssh_target [22; 80] None (Some (bs "2024-01-01T00:00:00.000Z")) (Heap [] 0))
    as (rc & r & h' & E & Hor); [exact I|repeat constructor; lia|apply (bool_decide_unpack _); vm_compute; exact I|by intros i port _ populate response [=]|].
  destruct Hor as [[_ Hf]|(-> & _ & k & Hk & _ & Hkeys & Hstates)]; [exfalso; revert Hf; apply not_elem_of_nil|].
  exists r, h'. assert (Er := E). vm_compute in Er. injection Er as Er _.
  assert (Hports : default [] (res_ports r) = [(22, PORT_OPEN); (80, PORT_CLOSED)]) by (rewrite <- Er; reflexivity).
  rewrite Hports in Hkeys, Hstates. split; [exact E|]. split; [exact Hports|]. split; [rewrite <- Er; vm_compute; reflexivity|].
  exists k. split; [exact Hk|]. split.
  - apply (Hstates ltac:(apply not_elem_of_nil) 80 PORT_CLOSED). right. by left.
  - apply eq_None_not_Some. intros Hb. exact (no_banner_80 (Hkeys _ Hb)).
Defined.

(** C36: A scan leaks nothing.  With plugins that release what they do not
    report, whatever the network answers and whichever allocations fail,
    releasing the result of [cytadel_host_scan] with
    [cytadel_host_result_free] returns every block the scan allocated, on its
    error paths too. *)
Theorem host_scan_no_leak invoke_one net t ports opts now h rc r h' :
  plugin_contract invoke_one -> Forall (fun p => 1 <= p <= 65535) ports -> tls_about net ports ->
  host_scan invoke_one net (Some t) (Some ports) opts now h = Some (rc, Some r, h') ->
  live (host_result_free r h') = live h.
Proof.
  intros Hplug Hr Ht. unfold host_scan. cbv zeta.
  destruct (kb_create h) as [k h1] eqn:Ec. destruct k as [k|].
  2: { intros [= <- <- <-]. exact (proj1 (proj2 (kb_create_free empty_kb h h1 h1)) Ec). }
  destruct (create_ok h k h1 Ec) as (Hk & Hempty & Hl).
  destruct (discovery_probe_some (ip t) (match opts with Some o => discovery_timeout_ms o | None => 1000 end)
    (match opts with Some o => skip_discovery o | None => false end) net) as (up & method & ->). cbn [mbind option_bind].
  set (s := snd (write_str (bs "Host/state") _ _)).
  assert (Hs : facts_step (fun key => key ∈ host_keys) (k, h1) s).
  { etransitivity; [apply first_facts_step|]. apply host_write_step. vm_compute. set_solver. }
  destruct (Hs Hk) as (Hk' & Hls & _). cbn [fst snd] in Hls.
  assert (Hnone : bool_decide (is_Some (@None (list (Z * port_state)))) = false) by (apply bool_decide_eq_false_2; by intros []).
  assert (Hempty_list : list_ok (FindingList [] 0)) by (split; [cbn; lia|constructor]).
  destruct up; cbn [negb].
  2: { intros [= _ <- <-]. rewrite host_result_free_live, Hnone, no_findings_blocks by done. lia. }
  destruct (port_scan_cases (ip t) ports net (snd s)) as [(results & h2 & -> & Hres & Hl2 & _)|(h2 & -> & Hl2 & _)].
  2: { intros [= _ <- <-]. rewrite host_result_free_live, Hnone, no_findings_blocks by done. lia. }
  cbn [Z.eqb negb]. rewrite Hres. set (s' := detect_services _ _ _ _ _).
  destruct (host_facts_steps (ip t) ports net (fst s, h2) Hr Ht Hk') as (Hk2 & Hl3 & _). cbn [fst snd] in Hl3.
  change (detect_services _ _ _ _ _) with s' in Hk2, Hl3.
  pose proof (run_plugins_live invoke_one opts t (FindingList [] 0) s' Hplug Hk2 Hempty_list) as Hp.
  destruct (run_plugins invoke_one opts t (FindingList [] 0) s') as [s'' f]. destruct Hp as (Hk3 & Hf & Hl4).
  rewrite no_findings_blocks in Hl4. clearbody s s'. intros [= _ <- <-]. rewrite host_result_free_live by done. lia.
Qed.

Lemma no_invoke_contract : plugin_contract no_invoke.
Proof. intros hdr port k f h Hok. by split. Qed.

(** The fourth allocation fails. *)
Lemma host_scan_no_leak_witness :
  exists r h', host_scan no_invoke ssh_network (Some ssh_target) (Some [22; 80]) None None (Heap [true; true; true; false] 0) = Some (0, Some r, h') /\
    0 < live h' /\ live (host_result_free r h') = 0.
Proof.
  destruct (host_scan no_invoke ssh_network (Some ssh_target) (Some [22; 80]) None None (Heap [true; true; true; false] 0))
    as [[[rc [r|]] h']|] eqn:E; [|vm_compute in E; discriminate E..].
  pose proof (host_scan_no_leak no_invoke ssh_network ssh_target [22; 80] None None (Heap [true; true; true; false] 0) rc r h' no_invoke_contract
    ltac:(repeat constructor; lia) ltac:(intros i port _ populate response H; discriminate H) E) as Hl.
  exists r, h'. change (live (Heap [true; true; true; false] 0)) with 0 in Hl. revert Hl. generalize (host_result_free r h') as hf. intros hf Hl.
  vm_compute in E. injection E as <- <- <-. split; [reflexivity|]. split; [reflexivity|exact Hl].
Defined.
