(* ===== verification/Cli.v ===== *)
(** * The command line and the authorisation prompt
    ([src/src/cli/cli_args.c], [src/src/cli/auth_gate.c])

    The options of a scan, of [report] and of [sync]; the decision of the
    authorisation gate as a function of the flag, the terminal and what is
    typed.  Strings that alias [argv] are the elements of the list after the
    program's name; usage texts and error messages are not modelled. *)

From S2P Require Import Prelude CveId Strtod Strtol Log WorkerPool.

(** [cytadel_cli_parse_positive_int] *)
Definition parse_positive_int (val : bytes) (max_value : Z) : option Z :=
  let '(parsed, rest, erange) := strtol val in
  if no_conversion val rest || negb (Nat.eqb (length rest) 0) || erange || (parsed <=? 0) || (max_value <? parsed) then None else Some parsed.

Definition parse_timeout_ms (val : bytes) : option Z := parse_positive_int val INT_MAX.

(** ** The options of a scan *)

Definition CLI_DEFAULT_CONNECT_TIMEOUT_MS : Z := 3000.
Definition CLI_DEFAULT_DISCOVERY_TIMEOUT_MS : Z := 1000.
Definition CLI_DEFAULT_MAX_WORKERS : Z := 64.

(** [cytadel_cli_args_t]; a pointer is [None] when NULL. *)
Record cli_args := CliArgs {
  target_spec : option bytes;
  targets_file : option bytes;
  has_i_am_authorized : bool;
  authorized_by : option bytes;
  args_log_level : log_level;
  has_log_level : bool;
  args_log_file : option bytes;
  args_port_spec : option bytes;
  args_skip_discovery : bool;
  connect_timeout_ms : Z;
  has_connect_timeout_ms : bool;
  args_discovery_timeout_ms : Z;
  has_discovery_timeout_ms : bool;
  max_workers : Z;
  has_max_workers : bool;
  args_plugins_dir : option bytes;
  no_banner : bool;
  want_help : bool;
  want_version : bool
}.

(** [cytadel_cli_parse_status_t] *)
Inductive parse_status := PARSE_OK | PARSE_HELP | PARSE_VERSION | PARSE_ERROR.

Definition default_args : cli_args :=
  CliArgs None None false None LOG_INFO false None None false CLI_DEFAULT_CONNECT_TIMEOUT_MS false CLI_DEFAULT_DISCOVERY_TIMEOUT_MS false
    CLI_DEFAULT_MAX_WORKERS false None false false false.

(** The assignments to a field of [*out_args]. *)
Definition set_target_spec (v : bytes) (a : cli_args) : cli_args :=
  let 'CliArgs _ tf au ab ll hl lf ps sk ct hc dt hd mw hm pd nb wh wv := a in CliArgs (Some v) tf au ab ll hl lf ps sk ct hc dt hd mw hm pd nb wh wv.
Definition set_targets_file (v : bytes) (a : cli_args) : cli_args :=
  let 'CliArgs ts _ au ab ll hl lf ps sk ct hc dt hd mw hm pd nb wh wv := a in CliArgs ts (Some v) au ab ll hl lf ps sk ct hc dt hd mw hm pd nb wh wv.
Definition set_i_am_authorized (a : cli_args) : cli_args :=
  let 'CliArgs ts tf _ ab ll hl lf ps sk ct hc dt hd mw hm pd nb wh wv := a in CliArgs ts tf true ab ll hl lf ps sk ct hc dt hd mw hm pd nb wh wv.
Definition set_authorized_by (v : bytes) (a : cli_args) : cli_args :=
  let 'CliArgs ts tf au _ ll hl lf ps sk ct hc dt hd mw hm pd nb wh wv := a in CliArgs ts tf au (Some v) ll hl lf ps sk ct hc dt hd mw hm pd nb wh wv.
Definition set_log_level (v : log_level) (a : cli_args) : cli_args :=
  let 'CliArgs ts tf au ab _ _ lf ps sk ct hc dt hd mw hm pd nb wh wv := a in CliArgs ts tf au ab v true lf ps sk ct hc dt hd mw hm pd nb wh wv.
Definition set_log_file (v : bytes) (a : cli_args) : cli_args :=
  let 'CliArgs ts tf au ab ll hl _ ps sk ct hc dt hd mw hm pd nb wh wv := a in CliArgs ts tf au ab ll hl (Some v) ps sk ct hc dt hd mw hm pd nb wh wv.
Definition set_port_spec (v : bytes) (a : cli_args) : cli_args :=
  let 'CliArgs ts tf au ab ll hl lf _ sk ct hc dt hd mw hm pd nb wh wv := a in CliArgs ts tf au ab ll hl lf (Some v) sk ct hc dt hd mw hm pd nb wh wv.
Definition set_skip_discovery (a : cli_args) : cli_args :=
  let 'CliArgs ts tf au ab ll hl lf ps _ ct hc dt hd mw hm pd nb wh wv := a in CliArgs ts tf au ab ll hl lf ps true ct hc dt hd mw hm pd nb wh wv.
Definition set_connect_timeout (v : Z) (a : cli_args) : cli_args :=
  let 'CliArgs ts tf au ab ll hl lf ps sk _ _ dt hd mw hm pd nb wh wv := a in CliArgs ts tf au ab ll hl lf ps sk v true dt hd mw hm pd nb wh wv.
Definition set_discovery_timeout (v : Z) (a : cli_args) : cli_args :=
  let 'CliArgs ts tf au ab ll hl lf ps sk ct hc _ _ mw hm pd nb wh wv := a in CliArgs ts tf au ab ll hl lf ps sk ct hc v true mw hm pd nb wh wv.
Definition set_max_workers (v : Z) (a : cli_args) : cli_args :=
  let 'CliArgs ts tf au ab ll hl lf ps sk ct hc dt hd _ _ pd nb wh wv := a in CliArgs ts tf au ab ll hl lf ps sk ct hc dt hd v true pd nb wh wv.
Definition set_plugins_dir (v : bytes) (a : cli_args) : cli_args :=
  let 'CliArgs ts tf au ab ll hl lf ps sk ct hc dt hd mw hm _ nb wh wv := a in CliArgs ts tf au ab ll hl lf ps sk ct hc dt hd mw hm (Some v) nb wh wv.
Definition set_no_banner (a : cli_args) : cli_args :=
  let 'CliArgs ts tf au ab ll hl lf ps sk ct hc dt hd mw hm pd _ wh wv := a in CliArgs ts tf au ab ll hl lf ps sk ct hc dt hd mw hm pd true wh wv.
Definition set_want_help (a : cli_args) : cli_args :=
  let 'CliArgs ts tf au ab ll hl lf ps sk ct hc dt hd mw hm pd nb _ wv := a in CliArgs ts tf au ab ll hl lf ps sk ct hc dt hd mw hm pd nb true wv.
Definition set_want_version (a : cli_args) : cli_args :=
  let 'CliArgs ts tf au ab ll hl lf ps sk ct hc dt hd mw hm pd nb wh _ := a in CliArgs ts tf au ab ll hl lf ps sk ct hc dt hd mw hm pd nb wh true.

(** What one argument does: end with a status, take no value, or take one. *)
Inductive option_kind :=
  | OptEnd (s : parse_status) (f : cli_args -> cli_args)
  | OptFlag (f : cli_args -> cli_args)
  | OptValue (f : bytes -> cli_args -> option cli_args).

(** The [strcmp] chain. *)
Definition option_of (arg : bytes) : option option_kind :=
  if bool_decide (arg = bs "--help") then Some (OptEnd PARSE_HELP set_want_help) else
  if bool_decide (arg = bs "--version") then Some (OptEnd PARSE_VERSION set_want_version) else
  if bool_decide (arg = bs "--i-am-authorized") then Some (OptFlag set_i_am_authorized) else
  if bool_decide (arg = bs "--authorized-by") then Some (OptValue (fun v a => Some (set_authorized_by v a))) else
  if bool_decide (arg = bs "--log-level") then Some (OptValue (fun v a => l ← log_level_from_string (Some v); Some (set_log_level l a))) else
  if bool_decide (arg = bs "--log-file") then Some (OptValue (fun v a => Some (set_log_file v a))) else
  if bool_decide (arg = bs "--targets-file") then Some (OptValue (fun v a => Some (set_targets_file v a))) else
  if bool_decide (arg = bs "--ports") then Some (OptValue (fun v a => Some (set_port_spec v a))) else
  if bool_decide (arg = bs "--skip-discovery") then Some (OptFlag set_skip_discovery) else
  if bool_decide (arg = bs "--connect-timeout-ms") then Some (OptValue (fun v a => ms ← parse_timeout_ms v; Some (set_connect_timeout ms a))) else
  if bool_decide (arg = bs "--discovery-timeout-ms") then Some (OptValue (fun v a => ms ← parse_timeout_ms v; Some (set_discovery_timeout ms a))) else
  if bool_decide (arg = bs "--no-banner") then Some (OptFlag set_no_banner) else
  if bool_decide (arg = bs "--plugins-dir") then Some (OptValue (fun v a => Some (set_plugins_dir v a))) else
  if bool_decide (arg = bs "--max-workers") then
    Some (OptValue (fun v a => n ← parse_positive_int v WORKER_POOL_HARD_CAP_WORKERS; Some (set_max_workers n a)))
  else None.

(** The loop over [argv]; a flag that takes a value ([cytadel_cli_arg_value])
    consumes the next argument. *)
Fixpoint parse_loop (argv : list bytes) (have_positional : bool) (a : cli_args) : parse_status * cli_args :=
  match argv with
  | [] => if negb have_positional && bool_decide (targets_file a = None) then (PARSE_ERROR, a) else (PARSE_OK, a)
  | arg :: argv =>
      match option_of arg with
      | Some (OptEnd s f) => (s, f a)
      | Some (OptFlag f) => parse_loop argv have_positional (f a)
      | Some (OptValue f) =>
          match argv with
          | [] => (PARSE_ERROR, a)
          | val :: argv => match f val a with Some a => parse_loop argv have_positional a | None => (PARSE_ERROR, a) end
          end
      | None =>
          if bool_decide (head arg = Some 45) then (PARSE_ERROR, a) else
          if have_positional then (PARSE_ERROR, a) else parse_loop argv true (set_target_spec arg a)
      end
  end.

(** [cytadel_cli_parse_args] *)
Definition parse_args (argv : list bytes) : parse_status * cli_args := parse_loop argv false default_args.

(** ** The authorisation gate *)

(** [cytadel_auth_method_t] *)
Inductive auth_method := METHOD_FLAG | METHOD_INTERACTIVE.

(** [cytadel_auth_decision_t]: authorised by a method, or refused with the
    reason. *)
Inductive auth_decision := Authorized (method : auth_method) | Refused (reason : bytes).

(** [cytadel_auth_gate_decide]; the prompt is a function of the standard input
    and leaves what is not read. *)
Definition auth_gate_decide (is_flag_present is_stdin_tty : bool) (prompt_fn : option (bytes -> bool * bytes)) (stdin : bytes) :
    auth_decision * bytes :=
  if is_flag_present then (Authorized METHOD_FLAG, stdin) else
  if is_stdin_tty then
    match prompt_fn with
    | None => (Refused (bs "internal error: no interactive prompt function was provided"), stdin)
    | Some prompt =>
        let '(yes, stdin) := prompt stdin in
        if yes then (Authorized METHOD_INTERACTIVE, stdin)
        else (Refused (bs "operator declined interactive authorization confirmation"), stdin)
    end
  else (Refused (bs "stdin is not a TTY and --i-am-authorized was not provided; refusing to assume authorization"), stdin).

(** [fgets] with room for [n] characters: up to and with a newline; [None] at
    the end of the input. *)
Fixpoint fgets_loop (n : nat) (s : bytes) : bytes * bytes :=
  match n, s with
  | O, _ | _, [] => ([], s)
  | S n, c :: s => if c =? 10 then ([c], s) else let '(l, s) := fgets_loop n s in (c :: l, s)
  end.

Definition fgets (n : nat) (s : bytes) : option (bytes * bytes) :=
  match s with [] => None | _ => Some (fgets_loop n s) end.

(** Reading on to the end of the line. *)
Fixpoint drain_line (s : bytes) : bytes :=
  match s with [] => [] | c :: s => if c =? 10 then s else drain_line s end.

(** [cytadel_auth_gate_default_prompt] *)
Definition auth_gate_default_prompt (stdin : bytes) : bool * bytes :=
  match fgets 63 stdin with
  | None => (false, stdin)
  | Some (line, stdin) =>
      let line := c_string line in
      match rev line with
      | c :: r => if c =? 10 then (bool_decide (rev r = bs "yes"), stdin) else (bool_decide (line = bs "yes"), drain_line stdin)
      | [] => (bool_decide (line = bs "yes"), drain_line stdin)
      end
  end.

(** [strncpy] into a buffer of [n] bytes whose last is NUL. *)
Definition strncpy_cut (n : Z) (s : bytes) : bytes := take (Z.to_nat (n - 1)) s.

(** [cytadel_auth_default_operator] with the name of the account and the two
    environment variables. *)
Definition auth_default_operator (pw_name env_user env_logname : option bytes) (buf_len : Z) : bytes :=
  if buf_len =? 0 then [] else
  let non_empty (s : option bytes) := match s with Some [] => None | _ => s end in
  match non_empty pw_name with
  | Some name => strncpy_cut buf_len name
  | None =>
      match non_empty env_user with
      | Some name => strncpy_cut buf_len name
      | None => match non_empty env_logname with Some name => strncpy_cut buf_len name | None => strncpy_cut buf_len (bs "unknown") end
      end
  end.

(** [cytadel_banner_should_print] *)
Definition banner_should_print (no_banner_flag stderr_is_tty : bool) : bool := if no_banner_flag then false else stderr_is_tty.

(** ** [report] and [sync] *)

Inductive report_format := FORMAT_HTML | FORMAT_JSON.

(** [cytadel_report_cmd_args_t] *)
Record report_cmd_args := ReportCmdArgs {
  has_latest : bool;
  report_scan_id : option Z;
  format : report_format;
  output_path : option bytes
}.

Definition default_report_args : report_cmd_args := ReportCmdArgs false None FORMAT_HTML None.

(** [strtoll] of [--scan-id] *)
Definition parse_scan_id (val : bytes) : option Z :=
  let '(parsed, rest, erange) := strtol val in
  if no_conversion val rest || negb (Nat.eqb (length rest) 0) || erange || (parsed <=? 0) then None else Some parsed.

Fixpoint report_parse_loop (argv : list bytes) (a : report_cmd_args) : parse_status * report_cmd_args :=
  match argv with
  | [] => if Bool.eqb (has_latest a) (bool_decide (is_Some (report_scan_id a))) then (PARSE_ERROR, a) else (PARSE_OK, a)
  | arg :: argv =>
      if bool_decide (arg = bs "--help") then (PARSE_HELP, a) else
      if bool_decide (arg = bs "--latest") then report_parse_loop argv (ReportCmdArgs true (report_scan_id a) (format a) (output_path a)) else
      if bool_decide (arg = bs "--scan-id") then
        match argv with
        | [] => (PARSE_ERROR, a)
        | val :: argv =>
            match parse_scan_id val with
            | None => (PARSE_ERROR, a)
            | Some id => report_parse_loop argv (ReportCmdArgs (has_latest a) (Some id) (format a) (output_path a))
            end
        end else
      if bool_decide (arg = bs "--format") then
        match argv with
        | [] => (PARSE_ERROR, a)
        | val :: argv =>
            if bool_decide (val = bs "html") then report_parse_loop argv (ReportCmdArgs (has_latest a) (report_scan_id a) FORMAT_HTML (output_path a)) else
            if bool_decide (val = bs "json") then report_parse_loop argv (ReportCmdArgs (has_latest a) (report_scan_id a) FORMAT_JSON (output_path a)) else
            (PARSE_ERROR, a)
        end else
      if bool_decide (arg = bs "-o") then
        match argv with
        | [] => (PARSE_ERROR, a)
        | val :: argv => report_parse_loop argv (ReportCmdArgs (has_latest a) (report_scan_id a) (format a) (Some val))
        end else
      (PARSE_ERROR, a)
  end.

(** [cytadel_report_cmd_parse_args], without [argv[0]]. *)
Definition report_parse_args (argv : list bytes) : parse_status * report_cmd_args := report_parse_loop argv default_report_args.

(** [cytadel_sync_cmd_args_t] *)
Record sync_cmd_args := SyncCmdArgs { sync_db_path : option bytes; now_override : option bytes }.

Fixpoint sync_parse_loop (argv : list bytes) (a : sync_cmd_args) : parse_status * sync_cmd_args :=
  match argv with
  | [] => (PARSE_OK, a)
  | arg :: argv =>
      if bool_decide (arg = bs "--help") || bool_decide (arg = bs "-h") then (PARSE_HELP, a) else
      if bool_decide (arg = bs "--db") then
        match argv with [] => (PARSE_ERROR, a) | val :: argv => sync_parse_loop argv (SyncCmdArgs (Some val) (now_override a)) end else
      if bool_decide (arg = bs "--now") then
        match argv with [] => (PARSE_ERROR, a) | val :: argv => sync_parse_loop argv (SyncCmdArgs (sync_db_path a) (Some val)) end else
      (PARSE_ERROR, a)
  end.

(** [cytadel_sync_cmd_parse_args], without [argv[0]]. *)
Definition sync_parse_args (argv : list bytes) : parse_status * sync_cmd_args := sync_parse_loop argv (SyncCmdArgs None None).

(** ** A canonical command line

    The arguments that give a record of options. *)

Definition flag_arg (name : string) (b : bool) : list bytes := if b then [bs name] else [].
Definition value_arg (name : string) (v : option bytes) : list bytes := match v with Some v => [bs name; v] | None => [] end.
Definition number_arg (name : string) (has : bool) (v : Z) : list bytes := if has then [bs name; print_dec v] else [].

Definition print_groups (a : cli_args) : list (list bytes) :=
  [ flag_arg "--i-am-authorized" (has_i_am_authorized a);
    value_arg "--authorized-by" (authorized_by a);
    value_arg "--log-level" (if has_log_level a then Some (log_level_to_string (args_log_level a)) else None);
    value_arg "--log-file" (args_log_file a);
    value_arg "--targets-file" (targets_file a);
    value_arg "--ports" (args_port_spec a);
    flag_arg "--skip-discovery" (args_skip_discovery a);
    number_arg "--connect-timeout-ms" (has_connect_timeout_ms a) (connect_timeout_ms a);
    number_arg "--discovery-timeout-ms" (has_discovery_timeout_ms a) (args_discovery_timeout_ms a);
    number_arg "--max-workers" (has_max_workers a) (max_workers a);
    value_arg "--plugins-dir" (args_plugins_dir a);
    flag_arg "--no-banner" (no_banner a);
    match target_spec a with Some t => [t] | None => [] end ].

Definition print_args (a : cli_args) : list bytes := concat (print_groups a).

(** What the fields of a record that was parsed satisfy. *)
Record args_ok (a : cli_args) : Prop := {
  ok_target : (forall t, target_spec a = Some t -> head t <> Some 45) /\ (target_spec a = None -> is_Some (targets_file a));
  ok_level : args_log_level a <> LOG_AUDIT /\ (has_log_level a = false -> args_log_level a = LOG_INFO);
  ok_connect : 0 < connect_timeout_ms a <= INT_MAX /\ (has_connect_timeout_ms a = false -> connect_timeout_ms a = CLI_DEFAULT_CONNECT_TIMEOUT_MS);
  ok_discovery : 0 < args_discovery_timeout_ms a <= INT_MAX /\
    (has_discovery_timeout_ms a = false -> args_discovery_timeout_ms a = CLI_DEFAULT_DISCOVERY_TIMEOUT_MS);
  ok_workers : 0 < max_workers a <= WORKER_POOL_HARD_CAP_WORKERS /\ (has_max_workers a = false -> max_workers a = CLI_DEFAULT_MAX_WORKERS);
  ok_wants : want_help a = false /\ want_version a = false
}.

(** ** Lemmas *)

Lemma parse_positive_int_range val m n : parse_positive_int val m = Some n -> 0 < n <= m.
Proof.
  unfold parse_positive_int. destruct (strtol val) as [[v rest] erange].
  match goal with |- context [if ?b then None else _] => destruct b eqn:E end; [done|]. intros [= <-].
  apply orb_false_iff in E as [E E2]. apply orb_false_iff in E as [_ E1]. lia.
Qed.

Lemma parse_positive_int_print n m : 0 < n <= m -> m <= INT_MAX -> parse_positive_int (print_dec n) m = Some n.
Proof.
  intros Hn Hm. unfold parse_positive_int. unfold INT_MAX in Hm. rewrite strtol_print_dec by (unfold LONG_MAX; lia).
  unfold no_conversion. destruct (print_dec_digits n ltac:(lia)) as [Hne _]. destruct (print_dec n); [done|]. cbn [length Nat.eqb negb orb].
  destruct (Z.leb_spec n 0); [lia|]. destruct (Z.ltb_spec m n); [lia|]. done.
Qed.

Lemma log_level_not_audit v l : log_level_from_string v = Some l -> l <> LOG_AUDIT.
Proof. unfold log_level_from_string. repeat case_match; congruence. Qed.

(** What holds in the loop. *)
Record args_inv (have_positional : bool) (a : cli_args) : Prop := {
  inv_target : (have_positional = true <-> is_Some (target_spec a)) /\ (forall t, target_spec a = Some t -> head t <> Some 45);
  inv_level : args_log_level a <> LOG_AUDIT /\ (has_log_level a = false -> args_log_level a = LOG_INFO);
  inv_connect : 0 < connect_timeout_ms a <= INT_MAX /\ (has_connect_timeout_ms a = false -> connect_timeout_ms a = CLI_DEFAULT_CONNECT_TIMEOUT_MS);
  inv_discovery : 0 < args_discovery_timeout_ms a <= INT_MAX /\
    (has_discovery_timeout_ms a = false -> args_discovery_timeout_ms a = CLI_DEFAULT_DISCOVERY_TIMEOUT_MS);
  inv_workers : 0 < max_workers a <= WORKER_POOL_HARD_CAP_WORKERS /\ (has_max_workers a = false -> max_workers a = CLI_DEFAULT_MAX_WORKERS);
  inv_wants : want_help a = false /\ want_version a = false
}.

Lemma option_preserves arg k hp a :
  option_of arg = Some k -> args_inv hp a ->
  match k with
  | OptEnd s _ => s <> PARSE_OK
  | OptFlag f => args_inv hp (f a)
  | OptValue f => forall v a', f v a = Some a' -> args_inv hp a'
  end.
Proof.
  intros E I. destruct a. destruct I; cbn in *. unfold option_of in E.
  repeat (case_bool_decide; [simplify_eq; (done || (constructor; done) || idtac)|]); [..|done];
    intros v a' Hv; unfold parse_timeout_ms in Hv;
    try (apply bind_Some in Hv as (x & Hx & Hv));
    cbn in Hv; simplify_eq; constructor; cbn; try done;
    try match goal with H : log_level_from_string _ = Some _ |- _ => apply log_level_not_audit in H end;
    try match goal with H : parse_positive_int _ _ = Some _ |- _ => apply parse_positive_int_range in H end; done.
Qed.

Lemma parse_loop_inv n argv hp a st a' :
  (length argv <= n)%nat -> args_inv hp a -> parse_loop argv hp a = (st, a') -> st = PARSE_OK ->
  exists hp', args_inv hp' a' /\ (hp' = true \/ is_Some (targets_file a')).
Proof.
  induction n as [|n IH] in argv, hp, a |- *; intros Hl Hi E ->.
  - destruct argv; [|cbn in Hl; lia]. cbn [parse_loop] in E. destruct hp; cbn [negb andb] in E; [injection E as <-; exists true; auto|].
    case_bool_decide; [done|]. injection E as <-. exists false. split; [done|]. right. by apply not_eq_None_Some.
  - destruct argv as [|arg argv]; cbn [parse_loop] in E.
    + destruct hp; cbn [negb andb] in E; [injection E as <-; exists true; auto|].
      case_bool_decide; [done|]. injection E as <-. exists false. split; [done|]. right. by apply not_eq_None_Some.
    + cbn [length] in Hl. destruct (option_of arg) as [k|] eqn:Ek.
      * pose proof (option_preserves arg k hp a Ek Hi) as Hk. destruct k as [s f|f|f].
        -- injection E as -> _. done.
        -- eapply IH; [|exact Hk|exact E|done]. lia.
        -- destruct argv as [|val argv]; [done|]. cbn [length] in Hl. destruct (f val a) as [a1|] eqn:Ef; [|done].
           eapply IH; [|exact (Hk _ _ Ef)|exact E|done]. lia.
      * case_bool_decide as Hd; [done|]. destruct hp; [done|]. eapply IH; [|clear E|exact E|done]; [lia|].
        destruct a, Hi. constructor; cbn in *; try done. split; [split; [by eexists|done]|]. by intros t [= <-].
Qed.

(** The record after the first [k] groups of its canonical command line. *)
Definition stage (k : nat) (a : cli_args) : cli_args :=
  let upto {A} (i : nat) (x d : A) := if Nat.ltb i k then x else d in
  CliArgs None (upto 4%nat (targets_file a) None) (upto 0%nat (has_i_am_authorized a) false) (upto 1%nat (authorized_by a) None)
    (upto 2%nat (args_log_level a) LOG_INFO) (upto 2%nat (has_log_level a) false) (upto 3%nat (args_log_file a) None)
    (upto 5%nat (args_port_spec a) None) (upto 6%nat (args_skip_discovery a) false)
    (upto 7%nat (connect_timeout_ms a) CLI_DEFAULT_CONNECT_TIMEOUT_MS) (upto 7%nat (has_connect_timeout_ms a) false)
    (upto 8%nat (args_discovery_timeout_ms a) CLI_DEFAULT_DISCOVERY_TIMEOUT_MS) (upto 8%nat (has_discovery_timeout_ms a) false)
    (upto 9%nat (max_workers a) CLI_DEFAULT_MAX_WORKERS) (upto 9%nat (has_max_workers a) false)
    (upto 10%nat (args_plugins_dir a) None) (upto 11%nat (no_banner a) false) false false.

(** A value that is read back. *)
Lemma parse_loop_value name v rest hp a a' f :
  option_of (bs name) = Some (OptValue f) -> f v a = Some a' -> parse_loop (bs name :: v :: rest) hp a = parse_loop rest hp a'.
Proof. intros E Ef. cbn [parse_loop]. by rewrite E, Ef. Qed.

Lemma log_level_reads_back l : l <> LOG_AUDIT -> log_level_from_string (Some (log_level_to_string l)) = Some l.
Proof. by destruct l. Qed.

Lemma stage_step (k : nat) a rest :
  args_ok a -> (k < 12)%nat ->
  parse_loop (nth k (print_groups a) [] ++ rest) false (stage k a) = parse_loop rest false (stage (S k) a).
Proof.
  intros [_ [Hl1 Hl2] [Hc1 Hc2] [Hd1 Hd2] [Hw1 Hw2] _] Hk. destruct a as [ts tf au ab ll hl lf ps sk ct hc dt hd mw hm pd nb wh wv].
  cbn in Hl1, Hl2, Hc1, Hc2, Hd1, Hd2, Hw1, Hw2.
  destruct k as [|[|[|[|[|[|[|[|[|[|[|[|k]]]]]]]]]]]]; [..|exfalso; clear -Hk; lia]; cbn [nth print_groups]; clear Hk.
  - by destruct au.
  - by destruct ab.
  - cbn [has_log_level args_log_level]. destruct hl; [|by rewrite Hl2]. eapply parse_loop_value; [reflexivity|]. cbv beta. by rewrite log_level_reads_back.
  - by destruct lf.
  - by destruct tf.
  - by destruct ps.
  - by destruct sk.
  - cbn [has_connect_timeout_ms connect_timeout_ms]. destruct hc; [|by rewrite Hc2]. eapply parse_loop_value; [reflexivity|]. cbv beta.
    unfold parse_timeout_ms. by rewrite parse_positive_int_print.
  - cbn [has_discovery_timeout_ms args_discovery_timeout_ms]. destruct hd; [|by rewrite Hd2]. eapply parse_loop_value; [reflexivity|]. cbv beta.
    unfold parse_timeout_ms. by rewrite parse_positive_int_print.
  - cbn [has_max_workers max_workers]. destruct hm; [|by rewrite Hw2]. eapply parse_loop_value; [reflexivity|]. cbv beta. by rewrite parse_positive_int_print.
  - by destruct pd.
  - by destruct nb.
Qed.

(** ** Lemmas: the prompt *)

Definition not_newline (c : byte) : bool := negb (c =? 10).

(** The first line of the input, and what follows its newline. *)
Definition first_line (s : bytes) : bytes := take_while not_newline s.
Definition after_line (s : bytes) : bytes := drop 1 (drop_while not_newline s).

Lemma drain_line_spec s : drain_line s = after_line s.
Proof.
  unfold after_line. induction s as [|c s IH]; [done|]. cbn [drain_line drop_while]. unfold not_newline. destruct (c =? 10); cbn [negb]; [done|exact IH].
Qed.

Lemma fgets_loop_spec n s :
  fgets_loop n s =
    if Nat.ltb (length (first_line s)) n then (first_line s ++ take 1 (drop_while not_newline s), after_line s)
    else (take n s, drop n s).
Proof.
  unfold first_line, after_line. induction n as [|n IH] in s |- *; [by destruct s|]. destruct s as [|c s]; [done|].
  cbn [fgets_loop take_while drop_while]. assert (Hn : not_newline c = negb (c =? 10)) by done.
  rewrite !Hn. clear Hn. destruct (c =? 10) eqn:E; cbn [negb].
  - apply Z.eqb_eq in E as ->. done.
  - rewrite IH. cbn [length take drop]. change (Nat.ltb (S ?x) (S n)) with (Nat.ltb x n).
    destruct (Nat.ltb_spec (length (take_while not_newline s)) n); destruct (Nat.ltb_spec (S (length (take_while not_newline s))) (S n)); (lia || done).
Qed.

(** A line without a newline is compared as it is. *)
Lemma rev_not_newline (l : bytes) : Forall (fun c => not_newline c = true) l -> forall r, rev l <> 10 :: r.
Proof.
  intros Hl r E. assert (H : In 10 l) by (apply in_rev; rewrite E; by left). apply list_elem_of_In in H.
  rewrite Forall_forall in Hl. by specialize (Hl _ H).
Qed.

Lemma prompt_no_newline (l rest : bytes) :
  Forall (fun c => not_newline c = true) l ->
  (match rev l with
   | c :: r => if c =? 10 then (bool_decide (rev r = bs "yes"), rest) else (bool_decide (l = bs "yes"), drain_line rest)
   | [] => (bool_decide (l = bs "yes"), drain_line rest)
   end) = (bool_decide (l = bs "yes"), after_line rest).
Proof.
  intros Hl. pose proof (rev_not_newline l Hl) as Hr. rewrite drain_line_spec. destruct (rev l) as [|c r]; [done|].
  destruct (Z.eqb_spec c 10) as [->|Hc]; [by destruct (Hr r)|done].
Qed.

Lemma first_line_ends s : Forall (fun c => not_newline c = true) (first_line s).
Proof. apply take_while_all. Qed.

(** The first line reads yes as the C string it is taken for: up to its end, or
    up to its first NUL byte. *)
Definition typed_yes (s : bytes) : Prop := c_string (first_line s) = bs "yes".

#[export] Instance typed_yes_dec s : Decision (typed_yes s).
Proof. unfold typed_yes. apply _. Defined.

(** A line whose newline was read into the buffer but lies behind a NUL byte:
    the buffer does not seem to end with it, and one more line is drained. *)
Definition overdrained (s : bytes) : bool := Nat.ltb (length (first_line s)) 63 && bool_decide (0 ∈ first_line s).

Definition prompt_rest (s : bytes) : bytes := if overdrained s then after_line (after_line s) else after_line s.

Lemma c_string_not_newline l : Forall (fun c => not_newline c = true) l -> Forall (fun c => not_newline c = true) (c_string l).
Proof. intros Hl. destruct (c_string_split l) as [E|[r E]]; rewrite E in Hl; [done|by apply Forall_app in Hl as [? _]]. Qed.

(** The line and its newline in the buffer. *)
Lemma prompt_line (l rest : bytes) (nl : bool) :
  Forall (fun c => not_newline c = true) l ->
  (match rev (c_string (l ++ (if nl then [10] else []))) with
   | c :: r => if c =? 10 then (bool_decide (rev r = bs "yes"), rest)
               else (bool_decide (c_string (l ++ (if nl then [10] else [])) = bs "yes"), drain_line rest)
   | [] => (bool_decide (c_string (l ++ (if nl then [10] else [])) = bs "yes"), drain_line rest)
   end) = (bool_decide (c_string l = bs "yes"), if nl && negb (bool_decide (0 ∈ l)) then rest else after_line rest).
Proof.
  intros Hl. destruct nl; cbn [andb].
  2: { rewrite app_nil_r. apply prompt_no_newline. by apply c_string_not_newline. }
  destruct (bool_decide_reflect (0 ∈ l)) as [H0|H0]; cbn [negb].
  - rewrite c_string_app_nul by done. apply prompt_no_newline. by apply c_string_not_newline.
  - rewrite c_string_id, (c_string_id l).
    + rewrite rev_app_distr. cbn [rev app]. by rewrite rev_involutive.
    + apply Forall_forall. by intros x Hx ->.
    + apply Forall_app. split; [apply Forall_forall; by intros x Hx ->|by repeat constructor].
Qed.

(** What is asked and what is consumed. *)
Lemma default_prompt_spec stdin :
  auth_gate_default_prompt stdin = (bool_decide (typed_yes stdin), prompt_rest stdin).
Proof.
  unfold auth_gate_default_prompt, fgets, typed_yes. destruct stdin as [|c0 s0] eqn:Es; [done|]. rewrite <- Es in *. clear Es c0 s0.
  rewrite fgets_loop_spec. pose proof (first_line_ends stdin) as Hf. pose proof (take_drop_while not_newline stdin) as Hsplit. fold (first_line stdin) in Hsplit.
  unfold prompt_rest, overdrained. destruct (Nat.ltb_spec (length (first_line stdin)) 63) as [Hlt|Hge]; cbn [andb]; cbv zeta.
  - destruct (drop_while not_newline stdin) as [|c r] eqn:Ed; cbn [take].
    + rewrite (prompt_line (first_line stdin) (after_line stdin) false Hf). cbn [andb]. f_equal. unfold after_line. rewrite Ed. cbn. by destruct (bool_decide _).
    + assert (c = 10) as -> by (apply drop_while_head in Ed; unfold not_newline in Ed; apply negb_false_iff in Ed; lia).
      rewrite take_0, (prompt_line (first_line stdin) (after_line stdin) true Hf). cbn [andb]. by destruct (bool_decide (0 ∈ _)).
  - assert (Ht : take 63 stdin = take 63 (first_line stdin)) by (rewrite <- Hsplit at 1; rewrite take_app_le by done; done).
    pose proof (prompt_line (take 63 (first_line stdin)) (drop 63 stdin) false ltac:(by apply Forall_take)) as HP.
    rewrite app_nil_r in HP. rewrite Ht, HP. cbn [andb]. f_equal.
    + apply bool_decide_ext. apply c_string_take_short. change (length (bs "yes")) with 3%nat. lia.
    + rewrite <- Hsplit at 1. rewrite drop_app_le by done. unfold after_line.
      rewrite drop_while_app by by apply Forall_drop. f_equal.
      destruct (drop_while not_newline stdin) as [|c r] eqn:Ed; [done|]. cbn [drop_while]. by rewrite (drop_while_head _ _ _ _ Ed).
Qed.

(** ** Theorems *)

(** C29: The command line and its record of options are the same thing.  An
    accepted command line gives a record in which every number is within its
    documented bounds, a field that was not given holds its default, the
    target does not look like an option and at least one source of targets is
    there; and every such record is what its canonical command line is parsed
    to, whatever bytes the values are, even the names of options. *)
Theorem cli_args_roundtrip :
  (forall argv a, parse_args argv = (PARSE_OK, a) -> args_ok a) /\
  (forall a, args_ok a -> parse_args (print_args a) = (PARSE_OK, a)).
Proof.
  split.
  - intros argv a E. destruct (parse_loop_inv _ _ _ _ _ _ (Nat.le_refl _)
      (ltac:(by constructor; cbn; [split; [split; [done|by intros [? ?]]|]|..]) : args_inv false default_args) E eq_refl) as (hp & [[Hp Ht] Hl Hc Hd Hw Hwants] & Hor).
    constructor; try done. split; [done|]. intros Hn. destruct Hor as [->|]; [|done]. rewrite Hn in Hp. destruct (proj1 Hp eq_refl). done.
  - intros a Hok. unfold parse_args, print_args. change default_args with (stage 0 a).
    pose proof (fun k rest => stage_step k a rest Hok) as Hstep.
    change (concat (print_groups a)) with
      (nth 0 (print_groups a) [] ++ nth 1 (print_groups a) [] ++ nth 2 (print_groups a) [] ++ nth 3 (print_groups a) [] ++ nth 4 (print_groups a) [] ++
       nth 5 (print_groups a) [] ++ nth 6 (print_groups a) [] ++ nth 7 (print_groups a) [] ++ nth 8 (print_groups a) [] ++ nth 9 (print_groups a) [] ++
       nth 10 (print_groups a) [] ++ nth 11 (print_groups a) [] ++ (match target_spec a with Some t => [t] | None => [] end) ++ []).
    do 12 rewrite Hstep by lia. destruct Hok as [[Ht1 Ht2] _ _ _ _ [Hh Hv]]. destruct a as [ts tf au ab ll hl lf ps sk ct hc dt hd mw hm pd nb wh wv].
    cbn in Ht1, Ht2, Hh, Hv. subst wh wv. cbn [target_spec]. destruct ts as [t|].
    + change ([t] ++ []) with [t]. cbn [parse_loop]. assert (Ho : option_of t = None).
      { specialize (Ht1 t eq_refl). unfold option_of. repeat (rewrite bool_decide_eq_false_2; [|intros ->; by apply Ht1]). done. }
      rewrite Ho. rewrite bool_decide_eq_false_2 by by apply Ht1. done.
    + change ([] ++ []) with (@nil bytes). cbn [parse_loop negb andb]. destruct (Ht2 eq_refl) as [f ->]. done.
Qed.

Lemma cli_args_roundtrip_witness :
  let argv := map bs ["--i-am-authorized"; "--max-workers"; "8"; "--log-file"; "--help"; "10.0.0.0/24"]%string in
  exists a, parse_args argv = (PARSE_OK, a) /\ max_workers a = 8 /\ parse_args (print_args a) = (PARSE_OK, a) /\ args_ok a.
Proof.
  cbv zeta. destruct (parse_args (map bs ["--i-am-authorized"; "--max-workers"; "8"; "--log-file"; "--help"; "10.0.0.0/24"]%string)) as [st a] eqn:E.
  assert (st = PARSE_OK /\ max_workers a = 8) as [-> Hw] by (vm_compute in E; injection E as <- <-; split; reflexivity).
  exists a. split; [reflexivity|]. split; [exact Hw|]. pose proof (proj1 cli_args_roundtrip _ _ E) as Hok.
  split; [exact (proj2 cli_args_roundtrip a Hok)|exact Hok].
Defined.

(** C30: Authorisation is explicit.  The gate authorises exactly when the flag
    was given, or the standard input is a terminal and the first line typed
    reads yes: the word yes and nothing else up to the end of the line, or up
    to a NUL byte in it, where the program takes the line to end.  It says
    which of the two it was, and reads nothing unless it has to ask: then that
    line, and one line more when a NUL byte hid the newline of a line that fits
    its buffer.  Otherwise it refuses and says why. *)
Theorem authorization_is_explicit flag tty stdin :
  let '(decision, rest) := auth_gate_decide flag tty (Some auth_gate_default_prompt) stdin in
  (decision = Authorized METHOD_FLAG <-> flag = true) /\
  (decision = Authorized METHOD_INTERACTIVE <->
     flag = false /\ tty = true /\
     (first_line stdin = bs "yes" \/ exists more, first_line stdin = bs "yes" ++ 0 :: more)) /\
  (decision = Authorized METHOD_FLAG \/ decision = Authorized METHOD_INTERACTIVE \/ exists reason, decision = Refused reason /\ reason <> []) /\
  rest = (if negb flag && tty then prompt_rest stdin else stdin).
Proof.
  unfold auth_gate_decide. destruct flag; [split_and!; naive_solver|]. destruct tty; [|split_and!; naive_solver].
  rewrite default_prompt_spec. assert (HY : typed_yes stdin <-> first_line stdin = bs "yes" \/ exists more, first_line stdin = bs "yes" ++ 0 :: more).
  { unfold typed_yes. apply c_string_is. by apply (bool_decide_unpack _). }
  case_bool_decide as E; (split; [split; done|]); (split; [split; [naive_solver|naive_solver]|]);
    (split; [|done]); [by right; left|]. right. right. by eexists.
Qed.

Lemma authorization_is_explicit_witness :
  fst (auth_gate_decide false true (Some auth_gate_default_prompt) (bs "yes" ++ [10])) = Authorized METHOD_INTERACTIVE /\
  fst (auth_gate_decide false true (Some auth_gate_default_prompt) (bs "yes please" ++ [10])) <> Authorized METHOD_INTERACTIVE.
Proof.
  split.
  - pose proof (authorization_is_explicit false true (bs "yes" ++ [10])) as H.
    destruct (auth_gate_decide _ _ _ _) as [d r]. destruct H as (_ & H & _). apply H. split; [reflexivity|]. split; [reflexivity|]. left. reflexivity.
  - pose proof (authorization_is_explicit false true (bs "yes please" ++ [10])) as H.
    destruct (auth_gate_decide _ _ _ _) as [d r]. destruct H as (_ & H & _). intros E. apply H in E as (_ & _ & [E|[more E]]); discriminate E.
Defined.
