(* ===== verification/ScanWiring.v ===== *)
(** * The persist phase of a scan ([src/src/cli/scan_wiring.c])

    The gate that opens and migrates the database and writes the [scans] row
    before anything is probed; the resolver that reads vendor, product and
    version back from the CPE fact of a port; and the phase that writes the
    results of one host. *)

From S2P Require Import Prelude CveId VersionCompare CpeMatch Sqlite Migrations ScanPersist.
From S2P Require Import LuaFields Plugin KbValidate Kb TargetList ServiceDetect PluginApi HostScan.

(** ** The gate *)

(** [cytadel_scan_gate_status_t] *)
Inductive gate_status := GATE_OK | GATE_ERR_INVALID_ARG | GATE_ERR_OPEN | GATE_ERR_MIGRATE | GATE_ERR_SCAN_CREATE.

#[export] Instance gate_status_eq_dec : EqDecision gate_status.
Proof. solve_decision. Defined.

Definition gate_status_to_string (s : gate_status) : bytes :=
  match s with
  | GATE_OK => bs "OK"
  | GATE_ERR_INVALID_ARG => bs "INVALID_ARG"
  | GATE_ERR_OPEN => bs "OPEN"
  | GATE_ERR_MIGRATE => bs "MIGRATE"
  | GATE_ERR_SCAN_CREATE => bs "SCAN_CREATE"
  end.

(** [s == NULL || s[0] == '\0'] *)
Definition null_or_empty (s : option bytes) : bool := negb (ScanPersist.nonempty_string s).

Section Gate.
Context {C : Type} `{Sqlite C}.
(** [sqlite3_open_v2], a PRAGMA, and the formatted time of a migration. *)
Variable sqlite3_open : bytes -> bool * C.
Variable pragma : string -> C -> bool * C.
Variable now : Z -> option bytes.

(** What the gate leaves: the status, [*out_db] with [*out_scan_id], the number
    of open handles, the heap, and what is on disk (unchanged when [None]). *)
Record gate_result := GateResult {
  g_status : gate_status;
  g_db : option (C * Z);
  g_handles : Z;
  g_heap : heap;
  g_disk : option database
}.

(** [cytadel_scan_wiring_open_gate]; [out] tells whether [out_db] and
    [out_scan_id] are given. *)
Definition open_gate (db_path target_spec authorized_by authorization_method : option bytes) (out : bool) (h : heap) : gate_result :=
  if null_or_empty db_path || null_or_empty target_spec || null_or_empty authorized_by ||
     null_or_empty authorization_method || negb out
  then GateResult GATE_ERR_INVALID_ARG None 0 h None else
  let '(db_status, db, handles, h) := db_open sqlite3_open pragma db_path h in
  match db_status, db with
  | DB_OK, Some c =>
      let '(db_status, c) := migrations_run now c in
      match db_status with
      | DB_OK =>
          match scan_create target_spec authorized_by authorization_method c with
          | (PERSIST_OK, Some scan_id, c) => GateResult GATE_OK (Some (c, scan_id)) handles h (Some (durable c))
          | (_, _, c) =>
              let '(handles, h) := db_close db handles h in
              GateResult GATE_ERR_SCAN_CREATE None handles h (Some (durable c))
          end
      | _ =>
          let '(handles, h) := db_close db handles h in
          GateResult GATE_ERR_MIGRATE None handles h (Some (durable c))
      end
  | _, _ => GateResult GATE_ERR_OPEN None handles h None
  end.
End Gate.

Arguments g_status {C}.
Arguments g_db {C}.
Arguments g_handles {C}.
Arguments g_heap {C}.
Arguments g_disk {C}.

(** ** The resolver *)

Definition CPE_FIELD_COUNT : nat := 13.

(** The loop of [cytadel_scan_wiring_split_cpe]: the fields so far and the one
    being read; [None] is [(size_t)-1]. *)
Fixpoint split_cpe_loop (text field : bytes) (fields : list bytes) (max_fields : nat) : option (list bytes) :=
  match text with
  | [] => if Nat.leb max_fields (length fields) then None else Some (fields ++ [field])
  | c :: text =>
      if c =? 58 then
        if Nat.leb max_fields (length fields) then None
        else split_cpe_loop text [] (fields ++ [field]) max_fields
      else split_cpe_loop text (field ++ [c]) fields max_fields
  end.

Definition split_cpe (text : bytes) (max_fields : nat) : option (list bytes) := split_cpe_loop text [] [] max_fields.

(** [cytadel_scan_resolved_service_t] *)
Record resolved_service := Resolved { res_vendor : bytes; res_product : bytes; res_version : bytes }.

(** The length of a field that is copied. *)
Definition name_length_ok (field : bytes) : bool :=
  negb ((Z.of_nat (length field) =? 0) || (SCAN_VENDOR_PRODUCT_MAX_LEN <? Z.of_nat (length field))).

(** [cytadel_scan_wiring_resolve_port] *)
Definition resolve_port (k : option kb) (port : Z) : option resolved_service :=
  match k with
  | None => None
  | Some _ =>
      let key := cpe_key port in
      if 32 <=? Z.of_nat (length key) then None else
      match kb_get k (Some key) with
      | KB_GET_FOUND (KB_STRING (Some str)) =>
          match split_cpe (take (Z.to_nat KB_VALUE_MAX_LEN) (c_string str)) CPE_FIELD_COUNT with
          | None => None
          | Some fields =>
              if Nat.ltb (length fields) 6 then None else
              let field i := default [] (fields !! i) in
              if negb (bool_decide (field 0%nat = bs "cpe")) || negb (bool_decide (field 1%nat = bs "2.3")) then None else
              if negb (name_length_ok (field 3%nat)) || negb (name_length_ok (field 4%nat)) || Nat.eqb (length (field 5%nat)) 0
              then None
              else Some (Resolved (field 3%nat) (field 4%nat) (field 5%nat))
          end
      | _ => None
      end
  end.

(** ** Lookups *)

Definition SVC_TOKENS : list string :=
  ["www"; "https"; "ssh"; "ftp"; "smb"; "rdp"; "telnet"; "smtp"; "pop3"; "imap"; "dns"; "snmp"; "mysql"; "postgresql"; "redis"]%string.

(** The loop of [cytadel_scan_wiring_lookup_service]. *)
Fixpoint lookup_token (k : kb) (port : Z) (tokens : list string) : option bytes :=
  match tokens with
  | [] => None
  | token :: tokens =>
      let key := token_key (bs token) port in
      if 64 <=? Z.of_nat (length key) then lookup_token k port tokens else
      match kb_get (Some k) (Some key) with
      | KB_GET_FOUND _ => Some (bs token)
      | _ => lookup_token k port tokens
      end
  end.

Definition lookup_service (k : option kb) (port : Z) : option bytes :=
  match k with
  | None => None
  | Some k => if port =? 0 then None else lookup_token k port SVC_TOKENS
  end.

(** [cytadel_scan_wiring_lookup_evidence] *)
Definition lookup_evidence (k : option kb) (port : Z) (fallback : bytes) : bytes :=
  match k with
  | None => fallback
  | Some _ =>
      match kb_get_str k (Some (port_key "Banner/" port "")) with
      | Some banner => banner
      | None =>
          match kb_get_str k (Some (port_key "HTTP/" port "/server")) with
          | Some http_server => http_server
          | None =>
              match kb_get_str k (Some (port_key "FTP/" port "/banner")) with
              | Some ftp_banner => ftp_banner
              | None => fallback
              end
          end
      end
  end.

(** ** The persist phase *)

(** [cytadel_scan_wiring_host_counts_t] *)
Record host_counts := HostCounts {
  findings_persisted : Z;
  findings_skipped : Z;
  detections_attempted : Z;
  unresolvable_services : Z;
  host_rows_inserted : Z;
  host_malformed_events : Z
}.

Definition no_counts : host_counts := HostCounts 0 0 0 0 0 0.

Definition count_persisted (n : host_counts) : host_counts :=
  HostCounts (findings_persisted n + 1) (findings_skipped n) (detections_attempted n) (unresolvable_services n) (host_rows_inserted n) (host_malformed_events n).
Definition count_skipped (n : host_counts) : host_counts :=
  HostCounts (findings_persisted n) (findings_skipped n + 1) (detections_attempted n) (unresolvable_services n) (host_rows_inserted n) (host_malformed_events n).
Definition count_unresolvable (n : host_counts) : host_counts :=
  HostCounts (findings_persisted n) (findings_skipped n) (detections_attempted n) (unresolvable_services n + 1) (host_rows_inserted n) (host_malformed_events n).
Definition count_detection (c : counts) (n : host_counts) : host_counts :=
  HostCounts (findings_persisted n) (findings_skipped n) (detections_attempted n + 1) (unresolvable_services n)
    (host_rows_inserted n + rows_inserted c) (host_malformed_events n + malformed_events c).

(** The row of a plugin finding, [None] for one that is skipped. *)
Definition persist_row (k : option kb) (host : bytes) (f : PluginApi.finding) : option ScanPersist.finding :=
  if (port f <? 0) || (65535 <? port f) then None else
  if (severity f <? 0) || (4 <? severity f) then None else
  match evidence f with
  | None => None
  | Some ev =>
      let plugin_id := print_dec (f_script_id f) in
      if 32 <=? Z.of_nat (length plugin_id) then None else
      Some (ScanPersist.Finding (Some host) (port f) (lookup_service k (port f)) (Some plugin_id)
              (if Nat.ltb 0 (f_cve_count f) then match f_cve f with Some cve => cve !! 0%nat | None => None end else None)
              (severity f) (Some ev) (f_solution f))
  end.

(** The detection of an open port, [None] when it cannot be resolved. *)
Definition port_detection (k : option kb) (host : bytes) (port : Z) : option (resolved_service * detection) :=
  match resolve_port k port with
  | None => None
  | Some resolved =>
      let fallback :=
        match kb_get_str k (Some (cpe_key port)) with Some cpe_str => cpe_str | None => bs "(no additional evidence captured)" end in
      Some (resolved, Detection (Some host) port (lookup_service k port) (Some (bs "cpe_version_match"))
        (Some (lookup_evidence k port fallback)) None (Span (res_version resolved)))
  end.

Section Persist.
Context {C : Type} `{Sqlite C}.
(** The formatted time when the [i]-th finding is written. *)
Variable now : nat -> option bytes.
Variable scan_id : Z.
Variable k : option kb.
Variable host : bytes.

Fixpoint persist_findings (fs : list PluginApi.finding) (i : nat) (n : host_counts) (c : C) : persist_status * host_counts * C :=
  match fs with
  | [] => (PERSIST_OK, n, c)
  | f :: fs =>
      match persist_row k host f with
      | None => persist_findings fs (S i) n c
      | Some row =>
          let '(st, c) := persist_finding scan_id (Some row) (now i) c in
          match st with
          | PERSIST_ERR_DB => (st, n, c)
          | PERSIST_OK => persist_findings fs (S i) (count_persisted n) c
          | PERSIST_ERR_ROW_SKIPPED => persist_findings fs (S i) (count_skipped n) c
          | PERSIST_ERR_INVALID_ARG => persist_findings fs (S i) n c
          end
      end
  end.

Fixpoint persist_ports (ports : list (Z * port_state)) (n : host_counts) (c : C) : persist_status * host_counts * C :=
  match ports with
  | [] => (PERSIST_OK, n, c)
  | (port, state) :: ports =>
      if negb (bool_decide (state = PORT_OPEN)) then persist_ports ports n c else
      match port_detection k host port with
      | None => persist_ports ports (count_unresolvable n) c
      | Some (resolved, det) =>
          let '(st, cs, c) := detect_and_persist scan_id (Some (res_vendor resolved)) (Some (res_product resolved)) (Some det) c in
          match st with
          | PERSIST_ERR_DB => (st, n, c)
          | PERSIST_OK => persist_ports ports (count_detection cs n) c
          | _ => persist_ports ports n c
          end
      end
  end.
End Persist.

(** [cytadel_scan_wiring_persist_host]; [db] and [out_counts] are given. *)
Definition persist_host {C : Type} `{Sqlite C} (now : nat -> option bytes) (scan_id : Z) (result : option host_result) (c : C) :
    persist_status * host_counts * C :=
  match result with
  | None => (PERSIST_ERR_INVALID_ARG, no_counts, c)
  | Some r =>
      if scan_id <=? 0 then (PERSIST_ERR_INVALID_ARG, no_counts, c) else
      if negb (res_up r) || Nat.eqb (length (HostScan.res_host r)) 0 then (PERSIST_ERR_INVALID_ARG, no_counts, c) else
      let host := HostScan.res_host r in
      let '(st, n, c) := persist_findings now scan_id (res_kb r) host (items (res_findings r)) 0 no_counts c in
      match st with
      | PERSIST_ERR_DB => (st, n, c)
      | _ => persist_ports scan_id (res_kb r) host (default [] (res_ports r)) n c
      end
  end.

(** ** Lemmas: the resolver *)

(** The loop is a split with a cap. *)
Lemma split_cpe_loop_spec text field fields max_fields :
  exists f fs, split_on 58 text = f :: fs /\
    split_cpe_loop text field fields max_fields =
    let all := fields ++ (field ++ f) :: fs in if Nat.leb (length all) max_fields then Some all else None.
Proof.
  induction text as [|c text IH] in field, fields |- *; cbn [split_on split_cpe_loop].
  - exists [], []. split; [done|]. cbv zeta. rewrite app_nil_r, length_app. cbn [length].
    destruct (Nat.leb_spec max_fields (length fields)), (Nat.leb_spec (length fields + 1) max_fields); (done || lia).
  - destruct (c =? 58).
    + destruct (IH [] (fields ++ [field])) as (f & fs & -> & E). exists [], (f :: fs). split; [done|].
      cbv zeta in E |- *. cbn [app] in E. rewrite app_nil_r, E, <- app_assoc. cbn [app].
      destruct (Nat.leb_spec max_fields (length fields)); [|done].
      destruct (Nat.leb_spec (length (fields ++ field :: f :: fs)) max_fields) as [Hl|]; [|done].
      rewrite length_app in Hl. cbn [length] in Hl. lia.
    + destruct (IH (field ++ [c]) fields) as (f & fs & E1 & E2). rewrite E1. exists (c :: f), fs. split; [done|].
      rewrite E2. cbv zeta. by rewrite <- app_assoc.
Qed.

Lemma split_cpe_spec text max_fields :
  split_cpe text max_fields = if Nat.leb (length (split_on 58 text)) max_fields then Some (split_on 58 text) else None.
Proof. unfold split_cpe. destruct (split_cpe_loop_spec text [] [] max_fields) as (f & fs & -> & ->). done. Qed.

Lemma cpe_find_spec haystack needle i j :
  cpe_find haystack needle i = Some j -> (i <= j)%nat /\ take (length needle) (drop (j - i) haystack) = needle.
Proof.
  induction haystack as [|c haystack IH] in i |- *; cbn [cpe_find].
  - case_bool_decide as H; cbn [andb]; [|done]. destruct (negb _); [|done]. intros [= <-]. rewrite Nat.sub_diag. done.
  - destruct (bool_decide _ && _) eqn:E.
    + intros [= <-]. rewrite Nat.sub_diag. apply andb_true_iff in E as [E _]. by apply bool_decide_eq_true in E.
    + intros Hf. apply IH in Hf as [Hle Ht]. split; [lia|]. replace (j - i)%nat with (S (j - S i)) by lia. done.
Qed.

(** What the characters of a CPE component are. *)
Definition component_ok (s : bytes) : Prop := Forall (fun c => 0 < c /\ c <> 58) s.

Lemma version_component text start :
  component_ok (cpe_extract_version text start) /\ (length (cpe_extract_version text start) <= 63)%nat.
Proof.
  unfold cpe_extract_version, component_ok. split.
  - apply Forall_map. eapply Forall_impl; [apply take_while_all|]. intros c Hc. unfold cpe_version_char_ok in Hc.
    unfold to_lower_ascii. cbn in *. destruct ((65 <=? c) && (c <=? 90)) eqn:E; lia.
  - rewrite length_map. pose proof (take_drop_while cpe_version_char_ok (take CPE_VERSION_MAX_LEN (drop start text))) as H.
    apply (f_equal length) in H. rewrite length_app, length_take in H. unfold CPE_VERSION_MAX_LEN in *. lia.
Qed.

Lemma rules_components rule :
  rule ∈ cpe_rules ->
  component_ok (rule_vendor rule) /\ component_ok (rule_product rule) /\
  name_length_ok (rule_vendor rule) = true /\ name_length_ok (rule_product rule) = true /\
  (length (rule_vendor rule) + length (rule_product rule) <= 40)%nat.
Proof.
  intros Hin. assert (H : Forall (fun rule => component_ok (rule_vendor rule) /\ component_ok (rule_product rule) /\
    name_length_ok (rule_vendor rule) = true /\ name_length_ok (rule_product rule) = true /\
    (length (rule_vendor rule) + length (rule_product rule) <= 40)%nat) cpe_rules).
  { unfold cpe_rules. repeat (apply Forall_cons; split);
      [(split_and!; [vm_compute; repeat constructor; (done || congruence)|vm_compute; repeat constructor; (done || congruence)|reflexivity|reflexivity|cbn; lia])..|constructor]. }
  rewrite Forall_forall in H. by apply H.
Qed.

Lemma component_split s r : component_ok s -> split_on 58 (s ++ 58 :: r) = s :: split_on 58 r.
Proof.
  intros Hs. rewrite split_on_app, split_on_none; [done|]. intros c Hc. unfold component_ok in Hs. rewrite Forall_forall in Hs. by apply Hs.
Qed.

(** The rule that wrote a CPE. *)
Lemma cpe_rules_wrote rules port text s s' :
  kb_ok (fst s) -> cpe_apply_rules rules port text s = (true, s') ->
  exists rule i, rule ∈ rules /\ cpe_find text (marker rule) 0 = Some i /\
    let version := cpe_extract_version text (i + length (marker rule)) in
    version <> [] /\ kb_ok (fst s') /\ kb_validate_key (Some (cpe_key port)) = true /\ Z.of_nat (length (cpe_key port)) < 32 /\
    kb_map (fst s') !! cpe_key port = Some (KB_STRING (Some (cpe_string (rule_vendor rule) (rule_product rule) version))).
Proof.
  intros Hk. induction rules as [|rule rules IH]; cbn [cpe_apply_rules]; [done|].
  destruct (cpe_find text (marker rule) 0) as [i|] eqn:Ef.
  2: { intros E. destruct (IH E) as (rule' & i & Hin & Hrest). exists rule', i. split; [by right|done]. }
  cbv zeta. set (version := cpe_extract_version _ _). destruct (Nat.eqb_spec (length version) 0) as [|Hv]; [done|].
  destruct (_ <=? Z.of_nat (length (cpe_string _ _ _))); [done|]. destruct (Z.leb_spec 32 (Z.of_nat (length (cpe_key port)))); [done|].
  match goal with |- context [write_str ?key ?v s] => pose proof (write_str_wrote key v s Hk) as Hw; destruct (write_str key v s) as [rc s1] end.
  intros [= Hrc <-]. apply Z.eqb_eq in Hrc as ->.
  destruct Hw as (Hk1 & _ & _ & [(_ & Hkey & Hmap)|(E & _)]); [|done]. exists rule, i. split; [by left|]. split; [done|].
  cbn [fst snd] in *. split_and!; [intros E; apply Hv; exact (f_equal length E)|done|done|lia|rewrite Hmap; apply lookup_insert_eq].
Qed.

Lemma cpe_string_fields vendor product version :
  component_ok vendor -> component_ok product -> component_ok version ->
  split_on 58 (cpe_string vendor product version) =
    map bs ["cpe"; "2.3"; "a"]%string ++ [vendor; product; version] ++ map bs ["*"; "*"; "*"; "*"; "*"; "*"; "*"]%string.
Proof.
  intros Hv Hp Hr. unfold cpe_string.
  assert (Hhead : forall r, split_on 58 (bs "cpe:2.3:a:" ++ r) = [bs "cpe"; bs "2.3"; bs "a"] ++ split_on 58 r) by (intros r; reflexivity).
  assert (Hsep : forall s r, component_ok s -> split_on 58 (s ++ bs ":" ++ r) = s :: split_on 58 r) by (intros s r; apply component_split).
  rewrite Hhead, Hsep, Hsep by done. change (bs ":*:*:*:*:*:*:*") with (58 :: bs "*:*:*:*:*:*:*").
  rewrite component_split by done. reflexivity.
Qed.

Lemma cpe_string_plain vendor product version :
  component_ok vendor -> component_ok product -> component_ok version -> Forall (fun c => c <> 0) (cpe_string vendor product version).
Proof.
  intros Hv Hp Hr. unfold cpe_string, component_ok in *. rewrite !Forall_app.
  split_and!; try (vm_compute; repeat constructor; done); (eapply Forall_impl; [eassumption|]); intros c Hc; cbn in Hc; lia.
Qed.

(** Resolving reads the CPE back. *)
Lemma resolve_cpe_string k port vendor product version :
  kb_ok k -> kb_validate_key (Some (cpe_key port)) = true -> Z.of_nat (length (cpe_key port)) < 32 ->
  kb_map k !! cpe_key port = Some (KB_STRING (Some (cpe_string vendor product version))) ->
  component_ok vendor -> component_ok product -> component_ok version ->
  name_length_ok vendor = true -> name_length_ok product = true ->
  version <> [] -> (length vendor + length product <= 40)%nat -> (length version <= 63)%nat ->
  resolve_port (Some k) port = Some (Resolved vendor product version).
Proof.
  intros Hk Hkey Hlen Hmap Hv Hp Hr Lv Lp Hne Hvp Hrl. unfold resolve_port. cbv zeta.
  destruct (Z.leb_spec 32 (Z.of_nat (length (cpe_key port)))); [lia|].
  rewrite (proj1 (kb_get_reads_map k (cpe_key port) Hk)), Hkey, Hmap.
  rewrite c_string_id by by apply cpe_string_plain. rewrite take_ge.
  2: { unfold cpe_string. rewrite !length_app. cbn. unfold KB_VALUE_MAX_LEN. lia. }
  rewrite split_cpe_spec, cpe_string_fields by done. cbn [map app length Nat.leb Nat.ltb CPE_FIELD_COUNT].
  cbn [lookup list_lookup default]. unfold id. rewrite !bool_decide_eq_true_2 by reflexivity. cbn [negb orb]. rewrite Lv, Lp. cbn [negb orb].
  destruct version as [|c version]; [done|]. done.
Qed.

(** ** Lemmas: the persist phase *)

Section PersistFacts.
Context {C : Type} `{SqliteLaws C}.

(** The statuses of a detection that was given valid arguments. *)
Lemma flush_group_status sid det g n (c : C) :
  let '(st, _, _) := flush_group sid det g n c in st = PERSIST_OK \/ st = PERSIST_ERR_DB.
Proof. unfold flush_group. cbv zeta. repeat case_match; simplify_eq; auto. Qed.

Lemma candidate_loop_status rows sid det cur n (c : C) :
  let '(st, _, _, _) := candidate_loop rows sid det cur n c in st = PERSIST_OK \/ st = PERSIST_ERR_DB.
Proof.
  induction rows as [|r rows IH] in cur, n, c |- *; cbn [candidate_loop]; destruct (sql_read c) as [[] c1]; cbn [negb]; auto.
  destruct (row_cve_id r); [|apply IH]. destruct cur as [g|]; [|apply IH]. case_bool_decide; [apply IH|].
  pose proof (flush_group_status sid det g n c1) as Hf. destruct (flush_group sid det g n c1) as [[st n'] c2].
  case_bool_decide; [apply IH|exact Hf].
Qed.

Lemma detect_body_status sid vendor product det (c : C) :
  let '(st, _, _) := detect_body sid vendor product det c in st = PERSIST_OK \/ st = PERSIST_ERR_DB.
Proof.
  unfold detect_body. cbv zeta. destruct (prepare_group_statements c) as [[] c1]; cbn [negb]; auto.
  destruct (sql_prepare c1) as [[] c2]; cbn [negb]; auto.
  pose proof (candidate_loop_status (candidates (current c2) vendor product) sid det None (Counts 0 0) c2) as Hl.
  destruct (candidate_loop _ _ _ _ _ _) as [[[st cur] n] c3].
  assert (Hf : let '(st', _, _) := flush_last sid det st cur n c3 in st' = PERSIST_OK \/ st' = PERSIST_ERR_DB).
  { unfold flush_last. destruct cur as [g|]; [|done]. case_bool_decide; [apply flush_group_status|done]. }
  destruct (flush_last _ _ _ _ _ _) as [[st' n'] c4]. case_bool_decide; [|done].
  unfold update_malformed_data_count. repeat case_match; simplify_eq; auto.
Qed.

Lemma lowercase_name v : name_length_ok v = true -> lowercase_copy SCAN_VENDOR_PRODUCT_BUF_LEN v = Some (map to_lower_ascii v).
Proof.
  unfold name_length_ok, lowercase_copy, SCAN_VENDOR_PRODUCT_BUF_LEN, SCAN_VENDOR_PRODUCT_MAX_LEN. intros Hl. cbv zeta.
  match goal with |- context [if ?b then None else _] => destruct b eqn:E end; [lia|done].
Qed.

Lemma detect_status sid v p det (c : C) :
  0 < sid -> name_length_ok v = true -> name_length_ok p = true -> detection_valid det = true ->
  let '(st, _, _) := detect_and_persist sid (Some v) (Some p) (Some det) c in st = PERSIST_OK \/ st = PERSIST_ERR_DB.
Proof.
  intros Hs Hv Hp Hd. unfold detect_and_persist. cbv zeta. rewrite (proj2 (Z.leb_gt sid 0)), Hd, !lowercase_name by (done || lia). cbn [negb].
  destruct (sql_begin c) as [[] c1]; cbn [negb]; auto.
  pose proof (detect_body_status sid (map to_lower_ascii v) (map to_lower_ascii p) det c1) as Hb.
  destruct (detect_body _ _ _ _ _) as [[st n] c2]. case_bool_decide; cbn [negb].
  - repeat case_match; simplify_eq; auto.
  - by destruct (sql_rollback c2).
Qed.
End PersistFacts.

(** What a port that resolves is. *)
Lemma resolve_lengths k port r : resolve_port k port = Some r -> name_length_ok (res_vendor r) = true /\ name_length_ok (res_product r) = true.
Proof.
  unfold resolve_port. cbv zeta. destruct k as [k|]; [|done]. destruct (32 <=? _); [done|].
  destruct (kb_get _ _) as [[[str|]|i|b]| |]; try done. destruct (split_cpe _ _) as [fields|]; [|done].
  destruct (Nat.ltb _ 6); [done|]. destruct (_ || _); [done|]. destruct (_ || Nat.eqb _ 0) eqn:E; [done|]. intros [= <-]. cbn [res_vendor res_product].
  apply orb_false_iff in E as [E _]. apply orb_false_iff in E as [E1 E2]. split; by apply negb_false_iff.
Qed.

Lemma port_detection_valid k host port r det :
  host <> [] -> 0 <= port <= 65535 -> port_detection k host port = Some (r, det) ->
  name_length_ok (res_vendor r) = true /\ name_length_ok (res_product r) = true /\ detection_valid det = true.
Proof.
  intros Hh Hp. unfold port_detection. destruct (resolve_port k port) as [r'|] eqn:E; [|done]. cbv zeta. intros [= <- <-].
  destruct (resolve_lengths _ _ _ E). split_and!; [done|done|]. unfold detection_valid. cbn [det_host det_plugin_id det_evidence det_port det_version].
  destruct host; [done|]. rewrite bool_decide_eq_true_2 by by eexists. cbn [ScanPersist.nonempty_string andb]. 
  change (ScanPersist.nonempty_string (Some (bs "cpe_version_match"))) with true. cbn [andb]. lia.
Qed.

(** ** What a persisted host is *)

(** The findings written in order, with the numbers of those stored and of
    those the database rejected. *)
Inductive findings_written (sid : Z) (k : option kb) (host : bytes) : list PluginApi.finding -> database -> Z -> Z -> database -> Prop :=
  | written_none d : findings_written sid k host [] d 0 0 d
  | written_stored f fs row ts d p s d' :
      persist_row k host f = Some row -> finding_valid row = true ->
      findings_written sid k host fs (finding_spec sid row ts d) p s d' ->
      findings_written sid k host (f :: fs) d (p + 1) s d'
  | written_rejected f fs row d p s d' :
      persist_row k host f = Some row -> finding_valid row = true ->
      findings_written sid k host fs d p s d' -> findings_written sid k host (f :: fs) d p (s + 1) d'
  | written_ineligible f fs d p s d' :
      (forall row, persist_row k host f = Some row -> finding_valid row = false) ->
      findings_written sid k host fs d p s d' -> findings_written sid k host (f :: fs) d p s d'.

(** The detection of one port. *)
Definition port_written (sid : Z) (k : option kb) (host : bytes) (d : database) (r : Z * port_state) : database :=
  if bool_decide (snd r = PORT_OPEN) then
    match port_detection k host (fst r) with
    | Some (resolved, det) => detect_spec sid (map to_lower_ascii (res_vendor resolved)) (map to_lower_ascii (res_product resolved)) det d
    | None => d
    end
  else d.

Definition resolved_ports (k : option kb) (rs : list (Z * port_state)) : list (Z * port_state) :=
  filter (fun r => snd r = PORT_OPEN /\ is_Some (resolve_port k (fst r))) rs.

Definition unresolved_ports (k : option kb) (rs : list (Z * port_state)) : list (Z * port_state) :=
  filter (fun r => snd r = PORT_OPEN /\ ~ is_Some (resolve_port k (fst r))) rs.

Section PersistPrefix.
Context {C : Type} `{SqliteLaws C}.

(** A finding is refused as invalid only when it is. *)
Lemma persist_finding_invalid sid f ts (c c' : C) :
  0 < sid -> persist_finding sid (Some f) ts c = (PERSIST_ERR_INVALID_ARG, c') -> finding_valid f = false /\ c' = c.
Proof.
  intros Hs. unfold persist_finding. destruct (Z.leb_spec sid 0); [lia|]. destruct (finding_valid f); cbn [negb]; [|by intros [= <-]].
  unfold finding_body, upsert_placeholder, lookup_kev_flag, lookup_epss_score, write_status.
  repeat case_match; simplify_eq; try done; intros; simplify_eq.
Qed.

Lemma persist_finding_rejected sid f ts (c c' : C) :
  persist_finding sid (Some f) ts c = (PERSIST_ERR_ROW_SKIPPED, c') -> finding_valid f = true.
Proof. unfold persist_finding. destruct (sid <=? 0); [done|]. by destruct (finding_valid f). Qed.

Lemma persist_findings_prefix now sid k host fs : forall i n (c : C),
  0 < sid ->
  let '(st, n', c') := persist_findings now sid k host fs i n c in
  exists fs1 fs2 p s, fs = fs1 ++ fs2 /\ findings_written sid k host fs1 (durable c) p s (durable c') /\
    n' = HostCounts (findings_persisted n + p) (findings_skipped n + s) (detections_attempted n) (unresolvable_services n)
           (host_rows_inserted n) (host_malformed_events n) /\
    (st = PERSIST_OK /\ fs2 = [] \/ st = PERSIST_ERR_DB /\ fs2 <> []).
Proof.
  induction fs as [|f fs IH]; intros i n c Hs; cbn [persist_findings].
  - exists [], [], 0, 0. split_and!; [done|constructor| |by left]. destruct n; cbn. f_equal; lia.
  - assert (Hstep : forall n1 c1 dp ds,
      (forall fs1 p s d', findings_written sid k host fs1 (durable c1) p s d' -> findings_written sid k host (f :: fs1) (durable c) (p + dp) (s + ds) d') ->
      n1 = HostCounts (findings_persisted n + dp) (findings_skipped n + ds) (detections_attempted n) (unresolvable_services n)
             (host_rows_inserted n) (host_malformed_events n) ->
      let '(st, n', c') := persist_findings now sid k host fs (S i) n1 c1 in
      exists fs1 fs2 p s, f :: fs = fs1 ++ fs2 /\ findings_written sid k host fs1 (durable c) p s (durable c') /\
        n' = HostCounts (findings_persisted n + p) (findings_skipped n + s) (detections_attempted n) (unresolvable_services n)
               (host_rows_inserted n) (host_malformed_events n) /\
        (st = PERSIST_OK /\ fs2 = [] \/ st = PERSIST_ERR_DB /\ fs2 <> [])).
    { intros n1 c1 dp ds Hw ->. specialize (IH (S i) (HostCounts (findings_persisted n + dp) (findings_skipped n + ds) (detections_attempted n)
        (unresolvable_services n) (host_rows_inserted n) (host_malformed_events n)) c1 Hs).
      destruct (persist_findings _ _ _ _ _ _ _ _) as [[st n'] c']. destruct IH as (fs1 & fs2 & p & s & -> & Hfw & -> & Hst).
      exists (f :: fs1), fs2, (p + dp), (s + ds). split_and!; [done|by apply Hw| |done]. cbn. f_equal; lia. }
    destruct (persist_row k host f) as [row|] eqn:Er.
    2: { apply (Hstep _ _ 0 0); [|destruct n; cbn; f_equal; lia]. intros. rewrite !Z.add_0_r. apply written_ineligible; [congruence|done]. }
    destruct (persist_finding sid (Some row) (now i) c) as [st c1] eqn:E. destruct (finding_effect _ _ _ _ _ _ E) as [HE HO]. destruct st.
    + destruct (HO eq_refl) as (_ & _ & fd & t & [= <-] & Hv & _ & _ & Hd).
      apply (Hstep _ _ 1 0); [|destruct n; unfold count_persisted; cbn; f_equal; lia]. intros fs1 p s d' Hfw. rewrite Z.add_0_r.
      rewrite Hd in Hfw. by eapply written_stored.
    + destruct (persist_finding_invalid _ _ _ _ _ Hs E) as [Hv ->].
      apply (Hstep _ _ 0 0); [|destruct n; cbn; f_equal; lia]. intros. rewrite !Z.add_0_r. apply written_ineligible; [congruence|done].
    + rewrite <- (HE ltac:(done)). exists [], (f :: fs), 0, 0. split_and!; [done|constructor| |by right]. destruct n; cbn. f_equal; lia.
    + apply (Hstep _ _ 0 1); [|destruct n; unfold count_skipped; cbn; f_equal; lia]. intros fs1 p s d' Hfw. rewrite Z.add_0_r.
      rewrite HE in Hfw by done. eapply written_rejected; [exact Er|by eapply persist_finding_rejected|done].
Qed.
End PersistPrefix.

(** The three cases of a port. *)
Lemma resolved_ports_cons k p st ps :
  resolved_ports k ((p, st) :: ps) = if bool_decide (st = PORT_OPEN /\ is_Some (resolve_port k p)) then (p, st) :: resolved_ports k ps else resolved_ports k ps.
Proof. unfold resolved_ports. rewrite filter_cons. cbn [fst snd]. case_decide; [by rewrite bool_decide_eq_true_2|by rewrite bool_decide_eq_false_2]. Qed.

Lemma unresolved_ports_cons k p st ps :
  unresolved_ports k ((p, st) :: ps) = if bool_decide (st = PORT_OPEN /\ ~ is_Some (resolve_port k p)) then (p, st) :: unresolved_ports k ps else unresolved_ports k ps.
Proof. unfold unresolved_ports. rewrite filter_cons. cbn [fst snd]. case_decide; [by rewrite bool_decide_eq_true_2|by rewrite bool_decide_eq_false_2]. Qed.

Lemma port_detection_none k host p : port_detection k host p = None <-> resolve_port k p = None.
Proof. unfold port_detection. destruct (resolve_port k p); done. Qed.

Lemma port_detection_some k host p r det : port_detection k host p = Some (r, det) -> resolve_port k p = Some r.
Proof. unfold port_detection. destruct (resolve_port k p); [|done]. cbv zeta. by intros [= <- <-]. Qed.

Section PortsPrefix.
Context {C : Type} `{SqliteLaws C}.

Definition ports_prefix (sid : Z) (k : option kb) (host : bytes) (ps : list (Z * port_state)) (n : host_counts) (c : C)
    (out : persist_status * host_counts * C) : Prop :=
  let '(st, n', c') := out in
  exists ps1 ps2, ps = ps1 ++ ps2 /\ durable c' = foldl (port_written sid k host) (durable c) ps1 /\
    findings_persisted n' = findings_persisted n /\ findings_skipped n' = findings_skipped n /\
    detections_attempted n' = detections_attempted n + Z.of_nat (length (resolved_ports k ps1)) /\
    unresolvable_services n' = unresolvable_services n + Z.of_nat (length (unresolved_ports k ps1)) /\
    (st = PERSIST_OK /\ ps2 = [] \/ st = PERSIST_ERR_DB /\ ps2 <> []).

Lemma ports_prefix_nil sid k host ps n (c c' : C) st :
  durable c' = durable c -> (st = PERSIST_OK /\ ps = [] \/ st = PERSIST_ERR_DB /\ ps <> []) -> ports_prefix sid k host ps n c (st, n, c').
Proof. intros Hd Hst. exists [], ps. cbn. split_and!; (done || lia). Qed.

(** One more port in front. *)
Lemma ports_prefix_cons sid k host p ps n n1 (c c1 : C) out :
  durable c1 = port_written sid k host (durable c) p ->
  findings_persisted n1 = findings_persisted n -> findings_skipped n1 = findings_skipped n ->
  detections_attempted n1 = detections_attempted n + Z.of_nat (length (resolved_ports k [p])) ->
  unresolvable_services n1 = unresolvable_services n + Z.of_nat (length (unresolved_ports k [p])) ->
  ports_prefix sid k host ps n1 c1 out -> ports_prefix sid k host (p :: ps) n c out.
Proof.
  destruct out as [[st n'] c']. intros Hd E1 E2 E3 E4 (ps1 & ps2 & -> & Hd' & F1 & F2 & F3 & F4 & Hst). exists (p :: ps1), ps2.
  assert (Hr : length (resolved_ports k (p :: ps1)) = (length (resolved_ports k [p]) + length (resolved_ports k ps1))%nat)
    by (unfold resolved_ports; by rewrite <- length_app, <- list.filter_app).
  assert (Hu : length (unresolved_ports k (p :: ps1)) = (length (unresolved_ports k [p]) + length (unresolved_ports k ps1))%nat)
    by (unfold unresolved_ports; by rewrite <- length_app, <- list.filter_app).
  split_and!; [done|by rewrite Hd', Hd|congruence|congruence|lia|lia|done].
Qed.

Lemma persist_ports_prefix sid k host ps : forall n (c : C),
  0 < sid -> host <> [] -> Forall (fun p => 0 <= fst p <= 65535) ps ->
  ports_prefix sid k host ps n c (persist_ports sid k host ps n c).
Proof.
  induction ps as [|[p st] ps IH]; intros n c Hs Hh Hp; cbn [persist_ports]; [by apply ports_prefix_nil; [|left]|].
  apply Forall_cons in Hp as [Hp Hps]. cbn [fst] in Hp. destruct (decide (st = PORT_OPEN)) as [->|Hst]; cbn [negb].
  2: { rewrite bool_decide_eq_false_2 by done. cbn [negb].
       eapply ports_prefix_cons; [| | | | |by apply IH]; [|done|done| |].
       - unfold port_written. cbn [fst snd]. by rewrite bool_decide_eq_false_2.
       - rewrite resolved_ports_cons, bool_decide_eq_false_2 by naive_solver. cbn. lia.
       - rewrite unresolved_ports_cons, bool_decide_eq_false_2 by naive_solver. cbn. lia. }
  rewrite bool_decide_eq_true_2 by done. cbn [negb]. destruct (port_detection k host p) as [[r det]|] eqn:Ed.
  - destruct (port_detection_valid _ _ _ _ _ Hh Hp Ed) as (Lv & Lp & Hv). pose proof (port_detection_some _ _ _ _ _ Ed) as Er.
    destruct (detect_and_persist _ _ _ _ c) as [[st cs] c1] eqn:E. destruct (detect_effect _ _ _ _ _ _ _ _ E) as [HE HO].
    pose proof (detect_status sid _ _ det c Hs Lv Lp Hv) as Hst. rewrite E in Hst. destruct Hst as [->| ->].
    + destruct (HO eq_refl) as (_ & v & q & d & E1 & E2 & [= <-] & _ & _ & Hd). cbn [default] in E1, E2. unfold id in E1, E2.
      rewrite lowercase_name in E1, E2 by done. injection E1 as <-. injection E2 as <-.
      eapply ports_prefix_cons; [| | | | |by apply IH]; [|done|done| |].
      * unfold port_written. cbn [fst snd]. by rewrite bool_decide_eq_true_2, Ed.
      * rewrite resolved_ports_cons, Er, bool_decide_eq_true_2 by (split; [done|by eexists]). cbn. lia.
      * rewrite unresolved_ports_cons, Er, bool_decide_eq_false_2 by (intros [_ Hn]; by destruct Hn). cbn. lia.
    + apply ports_prefix_nil; [by apply HE|by right].
  - pose proof (proj1 (port_detection_none k host p) Ed) as Er. eapply ports_prefix_cons; [| | | | |by apply IH]; [|done|done| |].
    + unfold port_written. cbn [fst snd]. by rewrite bool_decide_eq_true_2, Ed.
    + rewrite resolved_ports_cons, Er, bool_decide_eq_false_2 by (intros [_ [? ?]]; done). cbn. lia.
    + rewrite unresolved_ports_cons, Er, bool_decide_eq_true_2 by (split; [done|by intros [? ?]]). cbn. lia.
Qed.
End PortsPrefix.

(** ** Theorems *)

(** What detection writes the persist phase reads back.  When a banner is
    mapped to a CPE, the resolver answers exactly the vendor and the product of
    the rule whose marker occurs in the text, and the version that follows the
    marker, lower-cased and cut at the first character no version has: no part
    is shifted by a separator, cut, or made up. *)
Theorem resolve_reads_back k k' h h' port text :
  kb_ok k -> cpe_map_and_write port text (k, h) = (true, (k', h')) ->
  exists rule i, rule ∈ cpe_rules /\ take (length (marker rule)) (drop i text) = marker rule /\
    let version := cpe_extract_version text (i + length (marker rule)) in
    version <> [] /\ resolve_port (Some k') port = Some (Resolved (rule_vendor rule) (rule_product rule) version).
Proof.
  intros Hk. unfold cpe_map_and_write. destruct (Nat.eqb _ 0); [done|]. intros E.
  destruct (cpe_rules_wrote _ _ _ (k, h) _ Hk E) as (rule & i & Hin & Hf & Hne & Hk' & Hkey & Hlen & Hmap). exists rule, i.
  split; [done|]. apply cpe_find_spec in Hf as [_ Hf]. rewrite Nat.sub_0_r in Hf. split; [done|]. split; [done|].
  destruct (rules_components rule Hin) as (Hv & Hp & Lv & Lp & Hl). destruct (version_component text (i + length (marker rule))) as [Hr Hrl].
  by apply resolve_cpe_string.
Qed.

Lemma resolve_reads_back_witness :
  let '(done, (k, _)) := cpe_map_and_write 80 (bs "Apache/2.4.49 (Unix)") (empty_kb, Heap [] 2) in
  done = true /\ exists rule i, rule ∈ cpe_rules /\
    resolve_port (Some k) 80 = Some (Resolved (rule_vendor rule) (rule_product rule)
      (cpe_extract_version (bs "Apache/2.4.49 (Unix)") (i + length (marker rule)))) /\
    resolve_port (Some k) 80 = Some (Resolved (bs "apache") (bs "http_server") (bs "2.4.49")).
Proof.
  destruct (cpe_map_and_write 80 (bs "Apache/2.4.49 (Unix)") (empty_kb, Heap [] 2)) as [d [k h]] eqn:E.
  assert (Hd : d = true) by (vm_compute in E; injection E as <- _ _; reflexivity). subst d. split; [reflexivity|].
  destruct (resolve_reads_back empty_kb k (Heap [] 2) h 80 (bs "Apache/2.4.49 (Unix)") empty_kb_ok E) as (rule & i & Hin & _ & _ & Hres).
  exists rule, i. split; [exact Hin|]. split; [exact Hres|]. clear Hres Hin.
  vm_compute in E. injection E as <- _. vm_compute. reflexivity.
Defined.

(** What the persist phase of a host does. *)
Lemma persist_host_effect {C : Type} `{SqliteLaws C} now sid (r : host_result) (c : C) :
  0 < sid -> res_up r = true -> HostScan.res_host r <> [] -> Forall (fun p => 0 <= fst p <= 65535) (default [] (res_ports r)) ->
  let k := res_kb r in
  let host := HostScan.res_host r in
  let '(st, n, c') := persist_host now sid (Some r) c in
  exists fs1 fs2 ps1 ps2 d,
    items (res_findings r) = fs1 ++ fs2 /\ default [] (res_ports r) = ps1 ++ ps2 /\
    findings_written sid k host fs1 (durable c) (findings_persisted n) (findings_skipped n) d /\
    durable c' = foldl (port_written sid k host) d ps1 /\
    detections_attempted n = Z.of_nat (length (resolved_ports k ps1)) /\
    unresolvable_services n = Z.of_nat (length (unresolved_ports k ps1)) /\
    (fs2 <> [] -> ps1 = []) /\
    (st = PERSIST_OK /\ fs2 = [] /\ ps2 = [] \/ st = PERSIST_ERR_DB /\ (fs2 <> [] \/ ps2 <> [])).
Proof.
  intros Hs Hu Hh Hp. cbv zeta. unfold persist_host. rewrite (proj2 (Z.leb_gt sid 0)), Hu by lia. cbn [negb orb].
  destruct (Nat.eqb_spec (length (HostScan.res_host r)) 0) as [Hl|_]; [by apply length_zero_iff_nil in Hl|].
  pose proof (persist_findings_prefix now sid (res_kb r) (HostScan.res_host r) (items (res_findings r)) 0 no_counts c Hs) as Hf.
  destruct (persist_findings _ _ _ _ _ _ _ _) as [[st n] c1]. destruct Hf as (fs1 & fs2 & p & s & E & Hw & -> & [[-> ->]|[-> Hne]]).
  - pose proof (persist_ports_prefix sid (res_kb r) (HostScan.res_host r) (default [] (res_ports r))
      (HostCounts (findings_persisted no_counts + p) (findings_skipped no_counts + s) (detections_attempted no_counts) (unresolvable_services no_counts)
           (host_rows_inserted no_counts) (host_malformed_events no_counts)) c1 Hs Hh Hp) as Hq.
    destruct (persist_ports _ _ _ _ _ _) as [[st n'] c']. destruct Hq as (ps1 & ps2 & Ep & Hd & F1 & F2 & F3 & F4 & Hst).
    exists fs1, [], ps1, ps2, (durable c1). cbn in F1, F2, F3, F4. rewrite F1, F2. split_and!; try done. destruct Hst as [[-> ->]|[-> Hne]]; [by left|right; split; [done|by right]].
  - exists fs1, fs2, [], (default [] (res_ports r)), (durable c1). cbn. split_and!; try done. right. split; [done|by left].
Qed.

(** C18: What is stored of a host is a prefix of what was found, and the counters
    are true of it.  At whatever call the database fails, what is on disk is the
    findings of an initial part of the list, written in order, one [scan_results]
    row each, and then the version detections of the open ports of an initial
    part of the ports: the second only once every finding was handled.  The
    phase reports success exactly when both parts are everything, and the
    database error exactly when something is left over, and nothing else; the
    counters are the numbers of findings
    stored and rejected, of ports that were checked, and of open ports that
    could not be resolved to a version, which store nothing. *)
Theorem persist_host_prefix {C : Type} `{SqliteLaws C} now sid (r : host_result) (c : C) :
  0 < sid -> res_up r = true -> HostScan.res_host r <> [] -> Forall (fun p => 0 <= fst p <= 65535) (default [] (res_ports r)) ->
  let k := res_kb r in
  let host := HostScan.res_host r in
  let '(st, n, c') := persist_host now sid (Some r) c in
  exists fs1 fs2 ps1 ps2 d,
    items (res_findings r) = fs1 ++ fs2 /\ default [] (res_ports r) = ps1 ++ ps2 /\
    findings_written sid k host fs1 (durable c) (findings_persisted n) (findings_skipped n) d /\
    durable c' = foldl (port_written sid k host) d ps1 /\
    detections_attempted n = Z.of_nat (length (resolved_ports k ps1)) /\
    unresolvable_services n = Z.of_nat (length (unresolved_ports k ps1)) /\
    (fs2 <> [] -> ps1 = []) /\
    (st = PERSIST_OK /\ fs2 = [] /\ ps2 = [] \/ st = PERSIST_ERR_DB /\ (fs2 <> [] \/ ps2 <> [])).
Proof. exact (persist_host_effect now sid r c). Qed.

(** One finding, one port with a version and one without. *)
Definition example_kb : kb :=
  let '(_, k, _) := kb_set_str (Some empty_kb) (Some (bs "CPE/80")) (Some (bs "cpe:2.3:a:apache:http_server:2.4.49:*:*:*:*:*:*:*")) (Heap [] 0) in
  default empty_kb k.

Definition example_vuln : PluginApi.finding :=
  PluginApi.Finding 3 (Some (bs "Heartbleed")) None (Some (bs "heartbeat")) 443 None (Some [bs "CVE-2014-0160"]) 1 None None 1001 None.

Definition example_host : host_result :=
  HostResult (bs "10.0.0.1") (bs "10.0.0.1") true (Some [(22, PORT_OPEN); (80, PORT_OPEN); (81, PORT_CLOSED)]) (Some example_kb)
    (FindingList [example_vuln] 8).

Lemma persist_host_prefix_witness :
  let '(st, n, c') := persist_host (fun _ => Some (bs "2024-01-01T00:00:00.000Z")) 1 (Some example_host) (example_conn []) in
  findings_persisted n = 1 /\ unresolvable_services n = 1 /\ detections_attempted n = 1 /\
  exists fs1 fs2 ps1 ps2 d, [example_vuln] = fs1 ++ fs2 /\ [(22, PORT_OPEN); (80, PORT_OPEN); (81, PORT_CLOSED)] = ps1 ++ ps2 /\
    findings_written 1 (Some example_kb) (bs "10.0.0.1") fs1 example_db 1 (findings_skipped n) d /\
    durable c' = foldl (port_written 1 (Some example_kb) (bs "10.0.0.1")) d ps1.
Proof.
  pose proof (persist_host_prefix (C := toy_conn) (fun _ => Some (bs "2024-01-01T00:00:00.000Z")) 1 example_host (example_conn [])
    ltac:(lia) eq_refl ltac:(discriminate) ltac:(repeat constructor; cbn; lia)) as R. cbv zeta in R.
  destruct (persist_host _ _ _ _) as [[st n] c'] eqn:E.
  assert (En : (findings_persisted n, unresolvable_services n, detections_attempted n) = (1, 1, 1))
    by (vm_compute in E; injection E as _ <- _; reflexivity).
  injection En as E1 E2 E3. destruct R as (fs1 & fs2 & ps1 & ps2 & d & Hf & Hp & Hw & Hd & _). rewrite E1 in Hw.
  split; [exact E1|]. split; [exact E2|]. split; [exact E3|]. exists fs1, fs2, ps1, ps2, d. split; [exact Hf|]. split; [exact Hp|].
  split; [exact Hw|exact Hd].
Defined.

(** A gate that did not open. *)
Lemma gate_failed {C : Type} `{Sqlite C} (r : gate_result (C := C)) h (bad : bool) (Q : C -> Z -> Prop) :
  g_status r <> GATE_OK -> g_db r = None -> g_handles r = 0 -> live (g_heap r) = live h -> bad = false ->
  (g_status r = GATE_OK <-> is_Some (g_db r)) /\ (g_status r <> GATE_OK -> g_handles r = 0 /\ live (g_heap r) = live h) /\
  (bad = true -> g_status r = GATE_ERR_INVALID_ARG /\ g_disk r = None /\ g_heap r = h) /\
  (forall c id, g_db r = Some (c, id) -> Q c id).
Proof. intros H1 H2 H3 H4 ->. rewrite H2. split; [split; [done|by intros [? ?]]|]. by split_and!. Qed.

(** What the gate leaves, whatever the file is: a connection that was just
    opened is outside a transaction. *)
Lemma open_gate_idle {C : Type} `{SqliteLaws C} sqlite3_open pragma now path target who method out h :
  (forall p s0 s, sqlite3_open p = (true, s0) -> apply_connection_setup pragma s0 = (true, s) -> in_tx s = false) ->
  let r := open_gate (C := C) sqlite3_open pragma now path target who method out h in
  (g_status r = GATE_OK <-> is_Some (g_db r)) /\
  (g_status r <> GATE_OK -> g_handles r = 0 /\ live (g_heap r) = live h) /\
  (null_or_empty path || null_or_empty target || null_or_empty who || null_or_empty method = true ->
     g_status r = GATE_ERR_INVALID_ARG /\ g_disk r = None /\ g_heap r = h) /\
  (forall c id, g_db r = Some (c, id) ->
     g_handles r = 1 /\ live (g_heap r) = live h + 1 /\ g_disk r = Some (durable c) /\
     exists p s0 s c1 t w m, path = Some p /\ sqlite3_open p = (true, s0) /\ apply_connection_setup pragma s0 = (true, s) /\
       migrations_run now s = (DB_OK, c1) /\
       target = Some t /\ who = Some w /\ method = Some m /\ t <> [] /\ w <> [] /\ m <> [] /\
       in_tx c = false /\ 0 < id /\ (forall s, s ∈ db_scans (durable c1) -> scan_id s < id) /\
       db_scans (durable c) = db_scans (durable c1) ++ [ScanRow id t w m (bs "running") false 0]).
Proof.
  intros Hopen. cbv zeta. unfold open_gate.
  destruct (null_or_empty path || null_or_empty target || null_or_empty who || null_or_empty method) eqn:Ea; cbn [orb].
  { cbn. split_and!; done. }
  destruct out; cbn [negb]; [|cbn; split_and!; done].
  pose proof (db_open_all_or_nothing sqlite3_open pragma path h) as Ho. destruct (db_open _ _ _ _) as [[[st db] handles] h1].
  destruct Ho as (Hst & Hno & Hyes). destruct db as [c|].
  2: { assert (st <> DB_OK) as Hne by (intros E; by destruct (proj1 Hst E)). destruct (Hno Hne) as (_ & -> & Hl).
       destruct st; by apply gate_failed. }
  rewrite (proj2 Hst (ex_intro _ c eq_refl)). destruct (Hyes c eq_refl) as (-> & Hl & p & s0 & _ & Ep & _ & E0 & _ & Es & Hclose).
  pose proof (Hopen _ _ _ E0 Es) as Ht.
  destruct (migrations_run now c) as [st1 c1] eqn:Em.
  assert (Hclose' : forall c2 : C, db_close (Some c2) 1 h1 = (0, Heap (oracle h1) (live h))) by (intros c2; exact Hclose).
  destruct (decide (st1 = DB_OK)) as [->|Hne]; [|destruct st1; try done; rewrite Hclose'; by apply gate_failed].
  destruct (migrations_run_kept now c c1 Ht Em) as [Ht1 _]. pose proof (scan_lifecycle target who method 1 FINALIZE_FAILED c1 Ht1) as [Hs _].
  destruct (scan_create target who method c1) as [[st2 id] c2]. destruct Hs as [_ Hs]. destruct (decide (st2 = PERSIST_OK)) as [->|Hne].
  2: { destruct st2; try done; rewrite Hclose'; by apply gate_failed. }
  destruct (Hs eq_refl) as (n & t & w & m & -> & -> & -> & -> & Hfresh & Hpos & Htx & _ & Hrow). cbn [g_status g_db g_handles g_heap g_disk].
  split; [done|]. split; [done|]. split; [done|]. intros c' id [= <- <-]. split_and!; try done. exists p, s0, c, c1, t, w, m.
  apply orb_false_iff in Ea as [Ea E3]. apply orb_false_iff in Ea as [Ea E2]. apply orb_false_iff in Ea as [_ E1].
  split_and!; try done; by intros ->.
Qed.

(** On a file of a known version the schema is then the current one. *)
Lemma open_gate_effect {C : Type} `{SqliteLaws C} sqlite3_open pragma now path target who method out h :
  (forall p s0 s, sqlite3_open p = (true, s0) -> apply_connection_setup pragma s0 = (true, s) ->
     in_tx s = false /\ exists v, (v <= 3)%nat /\ versioned v (durable s)) ->
  let r := open_gate (C := C) sqlite3_open pragma now path target who method out h in
  (g_status r = GATE_OK <-> is_Some (g_db r)) /\
  (g_status r <> GATE_OK -> g_handles r = 0 /\ live (g_heap r) = live h) /\
  (null_or_empty path || null_or_empty target || null_or_empty who || null_or_empty method = true ->
     g_status r = GATE_ERR_INVALID_ARG /\ g_disk r = None /\ g_heap r = h) /\
  (forall c id, g_db r = Some (c, id) ->
     g_handles r = 1 /\ live (g_heap r) = live h + 1 /\ g_disk r = Some (durable c) /\
     exists d t w m, target = Some t /\ who = Some w /\ method = Some m /\ t <> [] /\ w <> [] /\ m <> [] /\ at_version 3 d /\
       in_tx c = false /\ 0 < id /\ (forall s, s ∈ db_scans d -> scan_id s < id) /\
       db_scans (durable c) = db_scans d ++ [ScanRow id t w m (bs "running") false 0]).
Proof.
  intros Hopen. cbv zeta.
  destruct (open_gate_idle sqlite3_open pragma now path target who method out h (fun p s0 s H0 H1 => proj1 (Hopen p s0 s H0 H1))) as (H1 & H2 & H3 & H4).
  split; [exact H1|]. split; [exact H2|]. split; [exact H3|]. intros c id Hc.
  destruct (H4 c id Hc) as (E1 & E2 & E3 & p & s0 & s & c1 & t & w & m & -> & E0 & Es & Em & Ht & Hw & Hm & N1 & N2 & N3 & Htx & Hpos & Hfresh & Hrow).
  split_and!; try done. destruct (Hopen _ _ _ E0 Es) as (Ht0 & v & Hv & Hver). pose proof (migrations_effect now v s Ht0 Hv Hver) as HM. rewrite Em in HM.
  destruct HM as (_ & _ & HM & _). destruct (HM eq_refl) as (Hat & _). by exists (durable c1), t, w, m.
Qed.

(** Nothing is probed without a record.  The gate hands out a connection
    exactly when it reports OK; then the database is at the current schema and
    the row of this scan is on disk, outside any transaction, under a new id,
    with the target, the person and the method of the confirmation, and the
    status running.  In every other case no handle stays open, no block stays
    allocated, and an argument that is missing or empty touches no file. *)
Theorem open_gate_records {C : Type} `{SqliteLaws C} sqlite3_open pragma now path target who method out h :
  (forall p s0 s, sqlite3_open p = (true, s0) -> apply_connection_setup pragma s0 = (true, s) ->
     in_tx s = false /\ exists v, (v <= 3)%nat /\ versioned v (durable s)) ->
  let r := open_gate (C := C) sqlite3_open pragma now path target who method out h in
  (g_status r = GATE_OK <-> is_Some (g_db r)) /\
  (g_status r <> GATE_OK -> g_handles r = 0 /\ live (g_heap r) = live h) /\
  (null_or_empty path || null_or_empty target || null_or_empty who || null_or_empty method = true ->
     g_status r = GATE_ERR_INVALID_ARG /\ g_disk r = None /\ g_heap r = h) /\
  (forall c id, g_db r = Some (c, id) ->
     g_handles r = 1 /\ live (g_heap r) = live h + 1 /\ g_disk r = Some (durable c) /\
     exists d t w m, target = Some t /\ who = Some w /\ method = Some m /\ t <> [] /\ w <> [] /\ m <> [] /\ at_version 3 d /\
       in_tx c = false /\ 0 < id /\ (forall s, s ∈ db_scans d -> scan_id s < id) /\
       db_scans (durable c) = db_scans d ++ [ScanRow id t w m (bs "running") false 0]).
Proof. exact (open_gate_effect sqlite3_open pragma now path target who method out h). Qed.

Lemma open_gate_records_witness :
  let r := open_gate (C := toy_conn) (fun _ => (true, fresh_conn [])) (fun _ s => (true, s)) (fun _ => Some (bs "now"))
    (Some (bs "scan.db")) (Some (bs "10.0.0.0/24")) (Some (bs "ops")) (Some (bs "interactive")) true (Heap [] 0) in
  g_status r = GATE_OK /\ exists c, g_db r = Some (c, 1) /\ g_handles r = 1 /\
    db_scans (durable c) = [ScanRow 1 (bs "10.0.0.0/24") (bs "ops") (bs "interactive") (bs "running") false 0].
Proof.
  pose proof (open_gate_records (C := toy_conn) (fun _ => (true, fresh_conn [])) (fun _ s => (true, s)) (fun _ => Some (bs "now"))
    (Some (bs "scan.db")) (Some (bs "10.0.0.0/24")) (Some (bs "ops")) (Some (bs "interactive")) true (Heap [] 0)) as R. cbv zeta in R |- *.
  destruct (open_gate _ _ _ _ _ _ _ _ _) as [st db handles h disk] eqn:E. cbn [g_status g_db g_handles g_heap g_disk] in *.
  assert (Hpre : forall (p : bytes) (s0 s : toy_conn), (true, fresh_conn []) = (true, s0) -> apply_connection_setup (fun _ s => (true, s)) s0 = (true, s) ->
    in_tx s = false /\ exists v, (v <= 3)%nat /\ versioned v (durable s)).
  { intros p s0 s [= <-] [= <-]. split; [reflexivity|]. exists 0%nat. split; [lia|]. right. split; reflexivity. }
  specialize (R Hpre). destruct db as [[c id]|].
  2: { exfalso. vm_compute in E. discriminate E. }
  destruct R as (Hst & _ & _ & Hdb). specialize (Hdb c id eq_refl). split; [apply Hst; by eexists|]. exists c.
  destruct Hdb as (Hh & _). vm_compute in E. injection E as _ <- <- _ _ _. split; [reflexivity|]. split; [exact Hh|reflexivity].
Defined.
