(* ===== verification/ScanMain.v ===== *)
(** * A scan from the command line to the exit code ([src/src/cli/main.c])

    The order of the stages: the authorisation prompt, the gate that opens the
    database and writes the [scans] row, the expansion of the targets, the
    ports, the plugins, the worker pool, the persist phase of each host and
    the final status.  What is printed for the operator is not modelled. *)

From S2P Require Import Prelude CveId Sqlite Migrations ScanPersist.
From S2P Require Import Plugin Registry PortRange TargetsFile TargetList Kb PluginApi HostScan WorkerPool Log Cli ScanWiring.

(** What the process reads of its surroundings: the environment variables, the
    account, the terminal, and which directories are there with what files. *)
Record environment := Env {
  env_db_path : option bytes;
  env_user : option bytes;
  env_logname : option bytes;
  pw_name : option bytes;
  stdin_is_tty : bool;
  stdin : bytes;
  is_directory : bytes -> bool;
  directory_entries : bytes -> option (list bytes)
}.

(** [snprintf] into a buffer of [n] bytes. *)
Definition snprintf_cut (n : Z) (s : bytes) : bytes := take (Z.to_nat (n - 1)) s.

(** [cytadel_describe_targets] *)
Definition describe_targets (a : cli_args) (buf_len : Z) : bytes :=
  snprintf_cut buf_len
    match Cli.target_spec a, Cli.targets_file a with
    | Some spec, Some file => spec ++ bs " + --targets-file " ++ file
    | Some spec, None => spec
    | None, Some file => bs "--targets-file " ++ file
    | None, None => bs "(none)"
    end.

Definition method_string (m : auth_method) : bytes := match m with METHOD_FLAG => bs "flag" | METHOD_INTERACTIVE => bs "interactive" end.

Definition confirmed_message (operator method target : bytes) : bytes :=
  bs "authorization confirmed: operator='" ++ operator ++ bs "' method=" ++ method ++ bs " target='" ++ target ++ bs "'".

Definition refused_message (target reason : bytes) : bytes :=
  bs "authorization refused for target(s) '" ++ target ++ bs "': " ++ reason.

Definition DEFAULT_PORT_SPEC : bytes := bs "1-1024".

(** What the process does that can be seen from outside, with what is on disk
    when it does it: an audit entry is logged; the targets are expanded, which
    may ask a name server; the hosts are scanned; the final status is written;
    the database is closed. *)
Inductive event :=
  | EvAudit (message : bytes)
  | EvExpand (disk : database)
  | EvScan (disk : database) (targets : list target) (ports : list Z)
  | EvFinalize (status : finalize_status) (rc : persist_status)
  | EvClose.

(** The totals of the summary. *)
Record summary := Summary {
  hosts_up : Z;
  hosts_down : Z;
  hosts_errored : Z;
  total_open_ports : Z;
  total_findings : Z;
  scan_db_totals : host_counts
}.

Definition no_summary : summary := Summary 0 0 0 0 0 no_counts.

Definition add_counts (t n : host_counts) : host_counts :=
  HostCounts (findings_persisted t + findings_persisted n) (findings_skipped t + findings_skipped n)
    (detections_attempted t + detections_attempted n) (unresolvable_services t + unresolvable_services n)
    (host_rows_inserted t + host_rows_inserted n) (host_malformed_events t + host_malformed_events n).

Definition count_open (ports : list (Z * port_state)) : Z := Z.of_nat (length (filter (fun p => snd p = PORT_OPEN) ports)).

(** A result that [calloc] zeroed. *)
Definition zero_result : host_result := HostResult [] [] false None None (FindingList [] 0).
Definition zero_slot : slot (result := host_result) := Slot zero_result 0.

Section Scan.
Context {C W : Type} `{Sqlite C}.
(** SQLite's calls, the resolver, files, and the Lua machine. *)
Variable sqlite3_open : bytes -> bool * C.
Variable pragma : string -> C -> bool * C.
Variable migration_time : Z -> option bytes.
Variable getaddrinfo : bytes -> W -> option (list addrinfo) * W.
Variable open_file : bytes -> option file_data.
Variable string_to_integer : bytes -> option Z.
Variable lua_file : bytes -> option lua_chunk.
(** The formatted time when the [j]-th finding of the [i]-th host is written. *)
Variable now : nat -> nat -> option bytes.
(** What the worker pool returns for its arguments; [WorkerPool.run] says which
    outcomes its threads can reach. *)
Variable pool_run : list target -> list Z -> scan_opts -> Z -> heap -> Z * list (slot (result := host_result)) * heap.

(** What is left of the process. *)
Record outcome := Outcome {
  exit_success : bool;
  trace : list event;
  connection : option C;
  open_handles : Z;
  out_summary : summary;
  out_heap : heap
}.

(** [cytadel_scan_abort_and_close] with the end of every early return after
    the gate. *)
Definition abort_and_close (tr : list event) (c : C) (scan_id handles : Z) (h : heap) : outcome :=
  let '(fin_rc, c) := scan_finalize scan_id FINALIZE_FAILED c in
  let '(handles, h) := db_close (Some c) handles h in
  Outcome false (tr ++ [EvFinalize FINALIZE_FAILED fin_rc; EvClose]) (Some c) handles no_summary h.

(** One result of the loop over the hosts. *)
Definition host_step (scan_id : Z) (i : nat) (r : slot) (db_ok : bool) (s : summary) (c : C) (h : heap) : bool * summary * C * heap :=
  let res := slot_result r in
  let '(db_ok, s, c) :=
    if negb (scan_rc r =? 0) || Nat.eqb (length (res_host res)) 0 then
      (db_ok, Summary (hosts_up s) (hosts_down s) (hosts_errored s + 1) (total_open_ports s) (total_findings s) (scan_db_totals s), c)
    else if res_up res then
      let s := Summary (hosts_up s + 1) (hosts_down s) (hosts_errored s) (total_open_ports s + count_open (default [] (res_ports res)))
                 (total_findings s + Z.of_nat (length (items (res_findings res)))) (scan_db_totals s) in
      if db_ok then
        let '(persist_rc, n, c) := persist_host (now i) scan_id (Some res) c in
        match persist_rc with
        | PERSIST_ERR_DB => (false, s, c)
        | _ => (true, Summary (hosts_up s) (hosts_down s) (hosts_errored s) (total_open_ports s) (total_findings s) (add_counts (scan_db_totals s) n), c)
        end
      else (db_ok, s, c)
    else (db_ok, Summary (hosts_up s) (hosts_down s + 1) (hosts_errored s) (total_open_ports s) (total_findings s) (scan_db_totals s), c) in
  (db_ok, s, c, host_result_free res h).

Fixpoint host_loop (scan_id : Z) (i : nat) (results : list slot) (db_ok : bool) (s : summary) (c : C) (h : heap) : bool * summary * C * heap :=
  match results with
  | [] => (db_ok, s, c, h)
  | r :: results =>
      let '(db_ok, s, c, h) := host_step scan_id i r db_ok s c h in host_loop scan_id (S i) results db_ok s c h
  end.

(** The plugins: [None] when the directory was asked for and cannot be
    loaded. *)
Definition load_plugins (e : environment) (a : cli_args) (h : heap) : option (option (list plugin_header)) * heap :=
  let explicit := bool_decide (is_Some (args_plugins_dir a)) in
  let plugins_dir := default (bs "plugins") (args_plugins_dir a) in
  if explicit || is_directory e plugins_dir then
    let '(registry, h) := registry_load string_to_integer lua_file (Some plugins_dir) (directory_entries e plugins_dir) h in
    match registry with
    | None => (if explicit then None else Some None, h)
    | Some headers => (Some (Some headers), h)
    end
  else (Some None, h).

(** [main] once the gate is open. *)
Definition scan_targets (e : environment) (a : cli_args) (tr : list event) (c : C) (scan_id handles : Z) (w : W) (h : heap) : outcome :=
  let '(list_status, targets, w, h) :=
    target_list_parse getaddrinfo open_file (Cli.target_spec a) (Cli.targets_file a) (Some []) w h in
  let tr := tr ++ [EvExpand (durable c)] in
  match list_status, targets with
  | LIST_OK, Some targets =>
      let port_spec := default DEFAULT_PORT_SPEC (args_port_spec a) in
      let '(port_status, ports, h) := port_range_parse (Some port_spec) (Some []) h in
      match port_status, ports with
      | PORT_RANGE_OK, Some ports =>
          let '(plugins, h) := load_plugins e a h in
          match plugins with
          | None => abort_and_close tr c scan_id handles (snd (target_list_free (Some (Some targets)) (snd (port_list_free (Some (Some ports)) h))))
          | Some registry =>
              let scan_opts := ScanOpts (args_discovery_timeout_ms a) (args_skip_discovery a) registry in
              let '(ok, h) := malloc h in
              if negb ok then
                abort_and_close tr c scan_id handles
                  (snd (target_list_free (Some (Some targets)) (snd (port_list_free (Some (Some ports)) (registry_free registry h)))))
              else
              let '(pool_rc, results, h) := pool_run targets ports scan_opts (max_workers a) h in
              let tr := tr ++ [EvScan (durable c) targets ports] in
              let '(db_ok, s, c, h) := host_loop scan_id 0 results true no_summary c h in
              let h := free_block h in
              let success := (pool_rc =? 0) && db_ok in
              let status := if success then FINALIZE_COMPLETED else FINALIZE_FAILED in
              let '(finalize_rc, c) := scan_finalize scan_id status c in
              let '(handles, h) := db_close (Some c) handles h in
              let h := snd (target_list_free (Some (Some targets)) (snd (port_list_free (Some (Some ports)) (registry_free registry h)))) in
              Outcome success (tr ++ [EvFinalize status finalize_rc; EvClose]) (Some c) handles s h
          end
      | _, _ => abort_and_close tr c scan_id handles (snd (target_list_free (Some (Some targets)) h))
      end
  | _, _ => abort_and_close tr c scan_id handles h
  end.

(** [main] after the arguments of a scan are parsed and the log is open. *)
Definition scan_main (e : environment) (a : cli_args) (w : W) (h : heap) : outcome :=
  let target_desc := describe_targets a 512 in
  let '(decision, _) := auth_gate_decide (has_i_am_authorized a) (stdin_is_tty e) (Some auth_gate_default_prompt) (stdin e) in
  match decision with
  | Refused reason => Outcome false [EvAudit (refused_message target_desc reason)] None 0 no_summary h
  | Authorized method =>
      let operator_name :=
        match authorized_by a with Some name => name | None => auth_default_operator (pw_name e) (env_user e) (env_logname e) 256 end in
      let tr := [EvAudit (confirmed_message operator_name (method_string method) target_desc)] in
      if null_or_empty (env_db_path e) then Outcome false tr None 0 no_summary h else
      let gate := open_gate sqlite3_open pragma migration_time (env_db_path e) (Some target_desc) (Some operator_name)
                    (Some (method_string method)) true h in
      match g_status gate, g_db gate with
      | GATE_OK, Some (c, scan_id) => scan_targets e a tr c scan_id (g_handles gate) w (g_heap gate)
      | _, _ => Outcome false tr None (g_handles gate) no_summary (g_heap gate)
      end
  end.
End Scan.

Arguments exit_success {C}.
Arguments trace {C}.
Arguments connection {C}.
Arguments open_handles {C}.
Arguments out_summary {C}.
Arguments out_heap {C}.

(** ** What a run is *)

Section Facts.
Context {C W : Type} `{SqliteLaws C}.
Variable sqlite3_open : bytes -> bool * C.
Variable pragma : string -> C -> bool * C.
Variable migration_time : Z -> option bytes.
Variable getaddrinfo : bytes -> W -> option (list addrinfo) * W.
Variable open_file : bytes -> option file_data.
Variable string_to_integer : bytes -> option Z.
Variable lua_file : bytes -> option lua_chunk.
Variable now : nat -> nat -> option bytes.
Variable pool_run : list target -> list Z -> scan_opts -> Z -> heap -> Z * list (slot (result := host_result)) * heap.

(** A result that is written: the scan returned, the host is named and up. *)
Definition to_persist (r : slot (result := host_result)) : Prop :=
  scan_rc r = 0 /\ res_host (slot_result r) <> [] /\ res_up (slot_result r) = true.

(** The hosts written one after the other. *)
Inductive hosts_written (sid : Z) : list (slot (result := host_result)) -> database -> database -> Prop :=
  | hosts_none d : hosts_written sid [] d d
  | hosts_passed r rs d d' : ~ to_persist r -> hosts_written sid rs d d' -> hosts_written sid (r :: rs) d d'
  | hosts_stored r rs d p s d1 d' :
      to_persist r ->
      findings_written sid (res_kb (slot_result r)) (res_host (slot_result r)) (items (res_findings (slot_result r))) d p s d1 ->
      hosts_written sid rs (foldl (port_written sid (res_kb (slot_result r)) (res_host (slot_result r))) d1 (default [] (res_ports (slot_result r)))) d' ->
      hosts_written sid (r :: rs) d d'.

(** The port numbers of a result are 16-bit. *)
Definition ports_in_range (r : slot (result := host_result)) : Prop :=
  Forall (fun p => 0 <= fst p <= 65535) (default [] (res_ports (slot_result r))).

Lemma host_step_failed sid i r s (c : C) h : fst (fst (fst (host_step now sid i r false s c h))) = false.
Proof. unfold host_step. destruct (_ || _); [done|]. by destruct (res_up _). Qed.

Lemma host_loop_failed sid results : forall i s (c : C) h, fst (fst (fst (host_loop now sid i results false s c h))) = false.
Proof.
  induction results as [|r rs IH]; intros i s c h; cbn [host_loop]; [done|].
  pose proof (host_step_failed sid i r s c h) as Hf. destruct (host_step _ _ _ _ _ _ _ _) as [[[ok s1] c1] h1]. cbn in Hf. subst ok. apply IH.
Qed.

Lemma host_loop_written sid results : forall i s (c : C) h s' c' h',
  0 < sid -> Forall ports_in_range results -> host_loop now sid i results true s c h = (true, s', c', h') ->
  hosts_written sid results (durable c) (durable c').
Proof.
  induction results as [|r rs IH]; intros i s c h s' c' h' Hs Hr E; cbn [host_loop] in E; [injection E as _ <- _; constructor|].
  apply Forall_cons in Hr as [Hr Hrs]. destruct (host_step now sid i r true s c h) as [[[ok s1] c1] h1] eqn:Es.
  destruct ok; [|pose proof (host_loop_failed sid rs (S i) s1 c1 h1) as Hf; rewrite E in Hf; discriminate Hf].
  specialize (IH _ _ _ _ _ _ _ Hs Hrs E). unfold host_step in Es. destruct (negb (scan_rc r =? 0)) eqn:E0; cbn [orb] in Es.
  { injection Es as _ <- _. constructor; [|done]. intros [Hrc _]. rewrite Hrc in E0. discriminate E0. }
  apply negb_false_iff, Z.eqb_eq in E0. destruct (Nat.eqb_spec (length (res_host (slot_result r))) 0) as [Hl|Hl].
  { injection Es as _ <- _. constructor; [|done]. intros (_ & Hne & _). by apply length_zero_iff_nil in Hl. }
  assert (Hne : res_host (slot_result r) <> []) by (intros Hn; by rewrite Hn in Hl).
  destruct (res_up (slot_result r)) eqn:Eu.
  2: { injection Es as _ <- _. constructor; [|done]. intros (_ & _ & Hup). congruence. }
  pose proof (persist_host_effect (now i) sid (slot_result r) c Hs Eu Hne Hr) as Hp. cbv zeta in Hp.
  destruct (persist_host _ _ _ _) as [[st n] c2]. destruct Hp as (fs1 & fs2 & ps1 & ps2 & d & Hf & Hps & Hw & Hd & _ & _ & _ & Hst).
  destruct Hst as [(-> & -> & ->)|[-> _]]; [|discriminate Es]. injection Es as _ <- _. rewrite app_nil_r in Hf, Hps.
  rewrite Hd in IH. eapply hosts_stored; [done| |]; [rewrite Hf; exact Hw|rewrite Hps; exact IH].
Qed.

(** How a scan that was let through ends. *)
Definition ends (a : cli_args) (tr : list event) (c : C) (sid handles : Z) (o : outcome (C := C)) : Prop :=
  exists mid st rc c1 c2,
    trace o = tr ++ [EvExpand (durable c)] ++ mid ++ [EvFinalize st rc; EvClose] /\
    scan_finalize sid st c1 = (rc, c2) /\ connection o = Some c2 /\ open_handles o = handles - 1 /\
    (exit_success o = true <-> st = FINALIZE_COMPLETED) /\ st <> FINALIZE_ABORTED /\
    (mid = [] /\ c1 = c /\ st = FINALIZE_FAILED \/
     exists ts ports reg pool_rc results h1 h2 db_ok s h3,
       mid = [EvScan (durable c) ts ports] /\
       pool_run ts ports (ScanOpts (args_discovery_timeout_ms a) (args_skip_discovery a) reg) (max_workers a) h1 = (pool_rc, results, h2) /\
       host_loop now sid 0 results true no_summary c h2 = (db_ok, s, c1, h3) /\
       (st = FINALIZE_COMPLETED <-> pool_rc = 0 /\ db_ok = true)).

Lemma abort_ends a tr (c : C) sid handles h : ends a tr c sid handles (abort_and_close (tr ++ [EvExpand (durable c)]) c sid handles h).
Proof.
  unfold abort_and_close. destruct (scan_finalize sid FINALIZE_FAILED c) as [rc c2] eqn:E. cbn [db_close].
  exists [], FINALIZE_FAILED, rc, c, c2. cbn [trace connection open_handles exit_success]. split_and!; try done; [by rewrite <- app_assoc|by left].
Qed.

Lemma scan_targets_ends e a tr (c : C) sid handles w h :
  ends a tr c sid handles (scan_targets getaddrinfo open_file string_to_integer lua_file now pool_run e a tr c sid handles w h).
Proof.
  unfold scan_targets. destruct (target_list_parse _ _ _ _ _ _ _) as [[[lst targets] w1] h1]. cbv zeta.
  destruct lst; try apply abort_ends. destruct targets as [targets|]; [|apply abort_ends].
  destruct (port_range_parse _ _ _) as [[pst ports] h2]. destruct pst; try apply abort_ends. destruct ports as [ports|]; [|apply abort_ends].
  destruct (load_plugins _ _ e a h2) as [[registry|] h3]; [|apply abort_ends]. destruct (malloc h3) as [ok h4]. destruct ok; cbn [negb]; [|apply abort_ends].
  destruct (pool_run _ _ _ _ _) as [[pool_rc results] h5] eqn:Ep. destruct (host_loop _ _ _ _ _ _ _ _) as [[[db_ok s] c1] h6] eqn:El.
  destruct (scan_finalize _ _ c1) as [rc c2] eqn:Ef. cbn [db_close].
  exists [EvScan (durable c) targets ports], (if (pool_rc =? 0) && db_ok then FINALIZE_COMPLETED else FINALIZE_FAILED), rc, c1, c2.
  cbn [trace connection open_handles exit_success]. split_and!; try done.
  - by rewrite <- !app_assoc.
  - by destruct ((pool_rc =? 0) && db_ok).
  - by destruct ((pool_rc =? 0) && db_ok).
  - right. exists targets, ports, registry, pool_rc, results, h4, h5, db_ok, s, h6. split_and!; try done.
    destruct (Z.eqb_spec pool_rc 0), db_ok; cbn; split; try done; intros [? ?]; congruence.
Qed.

(** The confirmation a run acts on. *)
Definition confirmed (e : environment) (a : cli_args) (method : auth_method) : Prop :=
  match method with
  | METHOD_FLAG => has_i_am_authorized a = true
  | METHOD_INTERACTIVE => has_i_am_authorized a = false /\ stdin_is_tty e = true /\ typed_yes (stdin e)
  end.

(** A connection that was just opened is outside a transaction, as SQLite
    documents; whatever is in the file. *)
Definition opens_idle : Prop :=
  forall p s0 s, sqlite3_open p = (true, s0) -> apply_connection_setup pragma s0 = (true, s) -> in_tx s = false.

(** The row a confirmed scan is recorded in. *)
Definition scan_recorded (a : cli_args) (operator : bytes) (method : auth_method) (id : Z) (d : database) : Prop :=
  ScanRow id (describe_targets a 512) operator (method_string method) (bs "running") false 0 ∈ db_scans d.

Lemma scan_main_cases e a w h :
  opens_idle ->
  let o := scan_main sqlite3_open pragma migration_time getaddrinfo open_file string_to_integer lua_file now pool_run e a w h in
  (exists m, trace o = [EvAudit m] /\ connection o = None /\ open_handles o = 0 /\ exit_success o = false) \/
  exists method operator c id,
    confirmed e a method /\ in_tx c = false /\ 0 < id /\ scan_recorded a operator method id (durable c) /\
    ends a [EvAudit (confirmed_message operator (method_string method) (describe_targets a 512))] c id 1 o.
Proof.
  intros Hopen. cbv zeta. unfold scan_main.
  assert (Hd : forall method rest, auth_gate_decide (has_i_am_authorized a) (stdin_is_tty e) (Some auth_gate_default_prompt) (stdin e) = (Authorized method, rest) ->
    confirmed e a method).
  { intros method rest. unfold auth_gate_decide. destruct (has_i_am_authorized a) eqn:Ea; [by intros [= <- _]|].
    destruct (stdin_is_tty e) eqn:Et; [|done]. rewrite default_prompt_spec. case_bool_decide; [|done]. by intros [= <- _]. }
  destruct (auth_gate_decide _ _ _ _) as [[method|reason] rest]; [|left; by eexists]. specialize (Hd _ _ eq_refl).
  set (operator := match authorized_by a with Some _ => _ | None => _ end). cbv zeta.
  destruct (null_or_empty (env_db_path e)); [left; by eexists|].
  destruct (open_gate_idle sqlite3_open pragma migration_time (env_db_path e) (Some (describe_targets a 512)) (Some operator)
    (Some (method_string method)) true h Hopen) as (Hst & Hno & _ & Hyes).
  set (gate := open_gate _ _ _ _ _ _ _ _ _) in *. clearbody gate.
  destruct (g_db gate) as [[c id]|] eqn:Eg.
  - rewrite (proj2 Hst (ex_intro _ _ eq_refl)). right.
    destruct (Hyes c id eq_refl) as (Hh & _ & _ & p & s0 & s1 & c1 & t & w' & m & _ & _ & _ & _ & [= <-] & [= <-] & [= <-] & _ & _ & _ & Ht & Hid & _ & Hrow).
    exists method, operator, c, id. split_and!; try done.
    + unfold scan_recorded. rewrite Hrow. apply elem_of_app. right. by left.
    + rewrite Hh. apply scan_targets_ends.
  - assert (Hne : g_status gate <> GATE_OK) by (intros E; by destruct (proj1 Hst E)). destruct (Hno Hne) as [Hh _].
    left. destruct (g_status gate); try done; by eexists.
Qed.

(** ** Theorems *)

(** C1: No packet without an authorisation on record.  Whatever the options,
    the standard input, the files and the database do, a run expands the
    targets or scans a host only after the authorisation was confirmed, by the
    flag or by a line at a terminal that reads yes up to its end or to its
    first NUL byte; after the audit entry that names the
    operator, the method and the targets; and while the row of this scan, with
    the same three, is on disk as running. *)
Theorem scan_main_gated e a w h pre ev post disk :
  opens_idle ->
  trace (scan_main sqlite3_open pragma migration_time getaddrinfo open_file string_to_integer lua_file now pool_run e a w h) = pre ++ ev :: post ->
  ev = EvExpand disk \/ (exists ts ports, ev = EvScan disk ts ports) ->
  exists method operator id,
    confirmed e a method /\
    EvAudit (confirmed_message operator (method_string method) (describe_targets a 512)) ∈ pre /\
    scan_recorded a operator method id disk.
Proof.
  intros Hopen Ht Hev. destruct (scan_main_cases e a w h Hopen) as [(m & E & _)|(method & operator & c & id & Hc & _ & _ & Hrec & Hends)].
  { rewrite E in Ht. exfalso. destruct pre as [|x pre]; [injection Ht as <- _; naive_solver|]. injection Ht as _ Ht. by destruct pre. }
  exists method, operator, id. split; [done|]. destruct Hends as (mid & st & rc & c1 & c2 & E & _ & _ & _ & _ & _ & Hmid). rewrite E in Ht.
  destruct pre as [|x pre]; [injection Ht as <- _; naive_solver|]. injection Ht as <- Ht. split; [by left|].
  enough (disk = durable c) as -> by done.
  assert (Hin : ev ∈ EvExpand (durable c) :: mid ++ [EvFinalize st rc; EvClose]) by (rewrite Ht; apply elem_of_app; right; left).
  rewrite elem_of_cons, elem_of_app, elem_of_cons, list_elem_of_singleton in Hin.
  destruct Hmid as [(-> & _)|(ts & ports & reg & prc & rs & h2 & h3 & ok & s & h4 & -> & _)]; set_solver.
Qed.

(** C2: A scan ends on the record.  However a run goes, the database it opened
    is closed again, and the last thing done to it is to write the final
    status: completed exactly when the exit code says success, failed
    otherwise.  When it says success, the pool reported no failure and what is
    on disk is what the gate left with the findings and the detections of
    every host that is up written one after the other, in the order of the
    targets; once the final status is acknowledged, outside a transaction that
    a failed rollback would have left, the row of the scan says completed. *)
Theorem scan_main_recorded e a w h :
  opens_idle ->
  (forall ts ports opts n h, Forall ports_in_range (snd (fst (pool_run ts ports opts n h)))) ->
  let o := scan_main sqlite3_open pragma migration_time getaddrinfo open_file string_to_integer lua_file now pool_run e a w h in
  open_handles o = 0 /\
  (exit_success o = false -> (forall rc, EvFinalize FINALIZE_COMPLETED rc ∉ trace o) /\
     (is_Some (connection o) -> exists pre rc, trace o = pre ++ [EvFinalize FINALIZE_FAILED rc; EvClose])) /\
  (exit_success o = true ->
   exists method operator id c1 c2 d0 audit ts ports reg h1 results h2 rc,
     confirmed e a method /\ scan_recorded a operator method id d0 /\
     trace o = [EvAudit audit; EvExpand d0; EvScan d0 ts ports; EvFinalize FINALIZE_COMPLETED rc; EvClose] /\
     pool_run ts ports (ScanOpts (args_discovery_timeout_ms a) (args_skip_discovery a) reg) (max_workers a) h1 = (0, results, h2) /\
     hosts_written id results d0 (durable c1) /\
     connection o = Some c2 /\
     (rc <> PERSIST_OK -> in_tx c1 = false -> durable c2 = durable c1) /\
     (rc = PERSIST_OK -> in_tx c1 = false -> durable c2 = finish_scan id (bs "completed") (durable c1))).
Proof.
  intros Hopen Hports. cbv zeta. set (o := scan_main _ _ _ _ _ _ _ _ _ _ _ _ _).
  destruct (scan_main_cases e a w h Hopen) as [(m & Et & Ec & Eh & Ee)|(method & operator & c & id & Hc & _ & Hid & Hrec & Hends)].
  { fold o in Et, Ec, Eh, Ee. rewrite Et, Ec, Ee. split; [done|]. split; [|done]. intros _. split; [|by intros [? ?]].
    intros rc Hin. apply list_elem_of_singleton in Hin. discriminate Hin. }
  fold o in Hends. clearbody o. destruct Hends as (mid & st & rc & c1 & c2 & Et & Ef & Ec & Eh & Es & Hab & Hmid). split; [lia|]. split.
  - intros Hf. assert (Hst : st = FINALIZE_FAILED).
    { destruct st; [|by destruct Hab|done]. by rewrite (proj2 Es eq_refl) in Hf. }
    subst st. split.
    + intros rc' Hin. rewrite Et in Hin. rewrite !elem_of_app, elem_of_cons, !list_elem_of_singleton in Hin.
      destruct Hmid as [(-> & _)|(ts & ports & reg & prc & rs & h2 & h3 & ok & s & h4 & -> & _)]; set_solver.
    + intros _. rewrite Et. generalize (EvAudit (confirmed_message operator (method_string method) (describe_targets a 512))) (EvExpand (durable c)).
      intros x y. exists (x :: y :: mid), rc. reflexivity.
  - intros Ht. apply Es in Ht as ->. destruct Hmid as [(_ & _ & ?)|(ts & ports & reg & prc & rs & h2 & h3 & ok & s & h4 & -> & Ep & El & Hok)]; [done|].
    destruct (proj1 Hok eq_refl) as [-> ->]. pose proof (Hports ts ports (ScanOpts (args_discovery_timeout_ms a) (args_skip_discovery a) reg) (max_workers a) h2) as Hr.
    rewrite Ep in Hr. cbn [fst snd] in Hr. pose proof (host_loop_written _ _ _ _ _ _ _ _ _ Hid Hr El) as Hw.
    exists method, operator, id, c1, c2, (durable c), (confirmed_message operator (method_string method) (describe_targets a 512)), ts, ports, reg, h2, rs, h3, rc.
    split_and!; try done; intros Hrc Htx; pose proof (scan_lifecycle None None None id FINALIZE_COMPLETED c1 Htx) as [_ Hl]; rewrite Ef in Hl; by apply Hl.
Qed.
End Facts.

(** ** A run *)

Definition example_env : environment :=
  Env (Some (bs "scan.db")) None None (Some (bs "ops")) true (bs "yes" ++ [10]) (fun _ => false) (fun _ => None).

Definition example_args : cli_args := snd (parse_args [bs "--ports"; bs "22"; bs "10.0.0.1"]).

(** One host, up, with an open port that nothing is known about. *)
Definition example_pool (ts : list target) (ports : list Z) (o : scan_opts) (n : Z) (h : heap) : Z * list (slot (result := host_result)) * heap :=
  (0, [Slot (HostResult (bs "10.0.0.1") (bs "10.0.0.1") true (Some [(22, PORT_OPEN)]) None (FindingList [] 0)) 0], h).

Definition example_run : outcome (C := toy_conn) :=
  scan_main (fun _ => (true, fresh_conn [])) (fun _ s => (true, s)) (fun _ => Some (bs "now")) (fun _ w => (None, w)) (fun _ => None)
    (fun _ => None) (fun _ => None) (fun _ _ => None) example_pool example_env example_args tt (Heap [] 0).

Lemma example_opens_idle : opens_idle (C := toy_conn) (fun _ => (true, fresh_conn [])) (fun _ s => (true, s)).
Proof. by intros p s0 s [= <-] [= <-]. Qed.

Lemma example_ports ts ports opts n h : Forall ports_in_range (snd (fst (example_pool ts ports opts n h))).
Proof. repeat constructor; cbn; lia. Qed.

(** The run gets to the end: the port list is never computed. *)
Lemma example_port n : exists ports m, port_range_parse (Some (bs "22")) (Some []) (Heap [] n) = (PORT_RANGE_OK, Some ports, Heap [] m).
Proof.
  unfold port_range_parse. change (bs "22") with [50; 50]. cbv iota.
  change (PORT_SPEC_MAX_LEN <=? Z.min (Z.of_nat (length [50; 50])) PORT_SPEC_MAX_LEN) with false. cbv iota.
  assert (E : exists bm, port_tokens (Z.to_nat PORT_SPEC_MAX_TOKENS) [50; 50] (replicate (Z.to_nat PORT_BITMAP_BYTES) 0) = inr bm)
    by (eexists; vm_compute; reflexivity).
  destruct E as [bm E]. rewrite E. destruct (port_tokens_ports _ _ _ E) as (_ & _ & Hne & _).
  destruct (filter (fun v => port_bitmap_get bm v) all_ports) as [|x l]; [done|]. cbn [length Nat.eqb malloc oracle live]. by eexists _, _.
Qed.

Lemma example_targets c id handles n tr : 0 < id ->
  exit_success (scan_targets (C := toy_conn) (fun _ w => (None, w)) (fun _ => None) (fun _ => None) (fun _ => None) (fun _ _ => None) example_pool
    example_env example_args tr c id handles tt (Heap [] n)) = true.
Proof.
  intros Hid. unfold scan_targets.
  destruct (target_list_parse _ _ _ _ _ _ _) as [[[lst ts] w] h] eqn:E. vm_compute in E. injection E as <- <- <- <-. cbv zeta.
  change (default DEFAULT_PORT_SPEC (args_port_spec example_args)) with (bs "22").
  match goal with |- context [port_range_parse _ _ (Heap [] ?m)] => destruct (example_port m) as (ports & k & ->) end.
  cbn [load_plugins]. unfold load_plugins. change (bool_decide (is_Some (args_plugins_dir example_args)) || is_directory example_env _) with false.
  cbv iota. cbn [malloc oracle live negb]. unfold example_pool. cbn [host_loop]. unfold host_step. cbn [slot_result scan_rc Z.eqb negb orb].
  unfold persist_host. cbn [res_host]. rewrite (proj2 (Z.leb_gt id 0)) by lia. cbn. rewrite bool_decide_eq_true_2 by done. cbn.
  match goal with |- context [scan_finalize ?a ?b ?c] => by destruct (scan_finalize a b c) end.
Qed.

Lemma example_success : exit_success example_run = true.
Proof.
  unfold example_run, scan_main. change (auth_gate_decide _ _ _ _) with (Authorized METHOD_INTERACTIVE, @nil Z). cbv iota zeta.
  change (null_or_empty (env_db_path example_env)) with false. cbv iota.
  destruct (open_gate _ _ _ _ _ _ _ _ _) as [st db handles h disk] eqn:E. cbn [g_status g_db g_handles g_heap].
  vm_compute in E. injection E as <- <- <- <- _. apply example_targets. lia.
Qed.

Lemma example_probes : exists pre disk ts ports post, trace example_run = pre ++ EvScan disk ts ports :: post.
Proof.
  pose proof example_success as Hs. unfold example_run in *.
  destruct (scan_main_cases (C := toy_conn) (fun _ => (true, fresh_conn [])) (fun _ s => (true, s)) (fun _ => Some (bs "now")) (fun _ w => (None, w)) (fun _ => None)
    (fun _ => None) (fun _ => None) (fun _ _ => None) example_pool example_env example_args tt (Heap [] 0) example_opens_idle)
    as [(m & _ & _ & _ & Hf)|(method & operator & c & id & _ & _ & _ & _ & mid & st & rc & c1 & c2 & E & _ & _ & _ & Hok & _ & Hmid)].
  - rewrite Hf in Hs. discriminate Hs.
  - apply Hok in Hs as ->. destruct Hmid as [(_ & _ & Hf)|(ts & ports & reg & prc & rs & h2 & h3 & ok & s & h4 & -> & _)]; [discriminate Hf|].
    eexists [_; _], _, ts, ports, _. exact E.
Qed.

Lemma scan_main_gated_witness :
  exists disk method operator id, confirmed example_env example_args method /\ scan_recorded example_args operator method id disk /\
    exists ts ports, EvScan disk ts ports ∈ trace example_run.
Proof.
  destruct example_probes as (pre & disk & ts & ports & post & E).
  destruct (scan_main_gated (C := toy_conn) (fun _ => (true, fresh_conn [])) (fun _ s => (true, s)) (fun _ => Some (bs "now")) (fun _ w => (None, w)) (fun _ => None)
    (fun _ => None) (fun _ => None) (fun _ _ => None) example_pool example_env example_args tt (Heap [] 0)
    pre (EvScan disk ts ports) post disk example_opens_idle E (or_intror (ex_intro _ ts (ex_intro _ ports eq_refl))))
    as (method & operator & id & Hc & _ & Hr).
  exists disk, method, operator, id. split; [exact Hc|]. split; [exact Hr|]. exists ts, ports. rewrite E. apply elem_of_app. right. left.
Defined.

Lemma scan_main_recorded_witness :
  exit_success example_run = true /\ open_handles example_run = 0 /\
  exists id d0 c1, hosts_written id (snd (fst (example_pool [] [] (ScanOpts 0 false None) 0 (Heap [] 0)))) d0 (durable (C := toy_conn) c1).
Proof.
  pose proof (scan_main_recorded (C := toy_conn) (fun _ => (true, fresh_conn [])) (fun _ s => (true, s)) (fun _ => Some (bs "now")) (fun _ w => (None, w)) (fun _ => None)
    (fun _ => None) (fun _ => None) (fun _ _ => None) example_pool example_env example_args tt (Heap [] 0)
    example_opens_idle example_ports) as R.
  cbv zeta in R. fold example_run in R. destruct R as (Hh & _ & Hs).
  pose proof example_success as He. split; [exact He|]. split; [exact Hh|].
  destruct (Hs He) as (method & operator & id & c1 & c2 & d0 & audit & ts & ports & reg & h1 & results & h2 & rc & _ & _ & _ & Ep & Hw & _).
  exists id, d0, c1. injection Ep as <- _. exact Hw.
Defined.
