(* ===== verification/Report.v ===== *)
(** * What both report renderers share

    The status of a render, the columns that the two SELECTs deliver, the
    counts of the summary, numbers as text, and writers: functions that append
    to the output buffer and are chained by [ok = ok && f(out)]
    ([src/src/report/report_html.c], [report_json.c]). *)

From S2P Require Import Prelude Escape Calendar Sqlite.

#[local] Arguments bs : simpl never.

(** [cytadel_report_status_t] *)
Inductive report_status := REPORT_OK | REPORT_ERR_INVALID_ARG | REPORT_ERR_NOT_FOUND | REPORT_ERR_DB | REPORT_ERR_OOM.

#[export] Instance report_status_eq_dec : EqDecision report_status.
Proof. solve_decision. Defined.

Definition report_status_to_string (status : report_status) : bytes :=
  match status with
  | REPORT_OK => bs "OK"
  | REPORT_ERR_INVALID_ARG => bs "INVALID_ARG"
  | REPORT_ERR_NOT_FOUND => bs "NOT_FOUND"
  | REPORT_ERR_DB => bs "DB"
  | REPORT_ERR_OOM => bs "OOM"
  end.

(** ** The rows *)

(** The columns that hold clock times, which [database] leaves out: those of a
    row of [scans], and [detected_at] with a row of [scan_results]. *)
Record scan_times := ScanTimes { started_at : bytes; finished_at : option bytes; authorization_confirmed_at : bytes }.

Definition scan_entry : Type := scan_row * scan_times.
Definition stored_finding : Type := result_row * bytes.

Record report_view := ReportView { view_scans : list scan_entry; view_results : list stored_finding }.

(** [sqlite3_column_int]: the low 32 bits. *)
Definition column_int (z : Z) : Z := (z + 2 ^ 31) mod 2 ^ 32 - 2 ^ 31.

(** The CHECK constraints of [scan_results]. *)
Definition result_checks (r : result_row) : Prop :=
  0 <= res_port r <= 65535 /\ 0 <= res_severity r <= 4 /\ (res_kev_flag r = 0 \/ res_kev_flag r = 1) /\
  match res_epss_score r with Some d => double_ge d 0 = true /\ double_le d 1 = true | None => True end.

Definition is_status (status : string) (f : stored_finding) : bool := bool_decide (res_match_status f.1 = bs status).

Definition count (P : stored_finding -> bool) (fs : list stored_finding) : Z := Z.of_nat (length (List.filter P fs)).

(** ** Writers *)

Definition writer : Type := sink -> bool * sink.

(** [ok = ok && a(out); ok = ok && b(out);] *)
Definition and_then (a b : writer) : writer := fun st => let '(ok, st) := a st in if ok then b st else (false, st).

Definition nothing : writer := fun st => (true, st).
Definition lit (text : bytes) : writer := report_buf_append_lit text.
Definition write_if (b : bool) (w : writer) : writer := if b then w else nothing.

Declare Scope report_scope.
Delimit Scope report_scope with report.
Infix "&&>" := and_then (at level 62, right associativity) : report_scope.

(** A template: a back-quote stands for a double quote and a bar for a newline;
    no template of the program has either. *)
Definition tpl (s : string) : bytes := map (fun c => if c =? 96 then 34 else if c =? 124 then 10 else c) (bs s).

(** [%.4f]: rounded to the nearest multiple of 1/10000, ties to even. *)
Definition fixed4 (num den : Z) : Z :=
  let q := num / den in
  let r := num mod den in
  if 2 * r <? den then q else if den <? 2 * r then q + 1 else if Z.even q then q else q + 1.

Definition format_fixed4 (d : double) : bytes :=
  match d with
  | Dyadic m e =>
      let q := fixed4 (Z.abs m * 10000 * 2 ^ Z.max 0 e) (2 ^ Z.max 0 (- e)) in
      (if m <? 0 then [45] else []) ++ dec_loop 310 (q / 10000) [] ++ [46] ++ pad_digits 4 (q mod 10000)
  | Infinite negative => if negative then bs "-inf" else bs "inf"
  | NaN => bs "nan"
  end.

Definition append_int_lit (v : Z) : writer := lit (print_dec v).

Definition append_double_lit (v : double) : writer := fun st =>
  let buf := format_fixed4 v in
  if 32 <=? Z.of_nat (length buf) then (false, st) else lit buf st.

(** ** The counts of the summary *)

(** [report_counts_t] *)
Record report_counts := ReportCounts { severity_counts : list Z; kev_count : Z; undetermined_count : Z; not_affected_count : Z }.

(** [GROUP BY severity]: every severity once, with its number of rows. *)
Definition severity_groups (fs : list stored_finding) : list (Z * Z) :=
  map (fun s => (s, count (fun f => res_severity f.1 =? s) fs)) (remove_dups (map (fun f => res_severity f.1) fs)).

Section Queries.
Context {C : Type} `{Sqlite C}.
Variable view : database -> report_view.

(** [WHERE scan_id = ?] *)
Definition scan_findings (d : database) (id : Z) : list stored_finding :=
  List.filter (fun f => res_scan_id f.1 =? id) (view_results (view d)).

Definition find_scan (d : database) (id : Z) : option scan_entry :=
  List.find (fun s => scan_id s.1 =? id) (view_scans (view d)).

Definition count_where (P : stored_finding -> bool) (id : Z) (c : C) : option Z * C :=
  let '(ok, c) := sql_prepare c in
  if negb ok then (None, c) else
  let '(ok, c) := sql_read c in
  if negb ok then (None, c) else (Some (count P (scan_findings (current c) id)), c).

Fixpoint severity_loop (groups : list (Z * Z)) (counts : list Z) (c : C) : option (list Z) * C :=
  let '(ok, c) := sql_read c in
  if negb ok then (None, c) else
  match groups with
  | [] => (Some counts, c)
  | (severity, n) :: groups =>
      let severity := column_int severity in
      severity_loop groups (if (0 <=? severity) && (severity <=? 4) then <[Z.to_nat severity := n]> counts else counts) c
  end.

(** [load_report_counts] *)
Definition load_report_counts (id : Z) (c : C) : option report_counts * C :=
  let '(ok, c) := sql_prepare c in
  if negb ok then (None, c) else
  match severity_loop (severity_groups (List.filter (is_status "confirmed") (scan_findings (current c) id))) [0; 0; 0; 0; 0] c with
  | (None, c) => (None, c)
  | (Some severities, c) =>
      match count_where (fun f => is_status "confirmed" f && (res_kev_flag f.1 =? 1)) id c with
      | (None, c) => (None, c)
      | (Some kev, c) =>
          match count_where (is_status "undetermined") id c with
          | (None, c) => (None, c)
          | (Some undetermined, c) =>
              match count_where (is_status "not_affected") id c with
              | (None, c) => (None, c)
              | (Some not_affected, c) => (Some (ReportCounts severities kev undetermined not_affected), c)
              end
          end
      end
  end.

(** [load_scan_meta] without its copies, and the SELECT of
    [render_scan_object]: the row of the scan. *)
Definition select_scan (id : Z) (c : C) : report_status * option scan_entry * C :=
  let '(ok, c) := sql_prepare c in
  if negb ok then (REPORT_ERR_DB, None, c) else
  let '(ok, c) := sql_read c in
  if negb ok then (REPORT_ERR_DB, None, c) else
  match find_scan (current c) id with
  | None => (REPORT_ERR_NOT_FOUND, None, c)
  | Some s => (REPORT_OK, Some s, c)
  end.
End Queries.

(** ** Lemmas: writers *)

(** A writer of a text: it appends all of it, or a prefix when an allocation
    fails or the size would pass the limit; it leaks nothing. *)
Definition writes (text : bytes) (w : writer) : Prop := forall st, buf_ok (fst st) ->
  let '(ok, st') := w st in
  buf_ok (fst st') /\
  (exists p, p `prefix_of` text /\ buf_data (fst st') = buf_data (fst st) ++ p /\ (ok = true -> p = text)) /\
  live (snd st') - owned (fst st') = live (snd st) - owned (fst st) /\
  (forall b, b ∈ oracle (snd st') -> b ∈ oracle (snd st)) /\
  (ok = false -> false ∈ oracle (snd st) \/ SIZE_MAX < Z.of_nat (length (buf_data (fst st)) + length text) + 1).

Create HintDb report.

Lemma writes_nothing : writes [] nothing.
Proof. intros st Hok. cbn. split_and!; try done. exists []. by rewrite app_nil_r. Qed.

Lemma writes_lit text : writes text (lit text).
Proof.
  intros st Hok. pose proof (buf_append_spec text st Hok) as Ha. unfold lit, report_buf_append_lit. destruct (buf_append text st) as [ok st'].
  destruct Ha as (Hok' & Hd & Hl & Ho & Hf). split_and!; try done.
  - destruct ok; [by exists text|]. exists []. split; [apply prefix_nil|done].
  - intros E. destruct (Hf E) as [?|?]; [by left|right; lia].
Qed.

Lemma writes_and_then t1 t2 a b : writes t1 a -> writes t2 b -> writes (t1 ++ t2) (and_then a b).
Proof.
  intros Ha Hb st Hok. specialize (Ha st Hok). unfold and_then. destruct (a st) as [ok1 st1]. destruct Ha as (Hok1 & (p & Hp & Hd & Hall) & Hl & Ho & Hf).
  destruct ok1.
  - rewrite (Hall eq_refl) in *. specialize (Hb st1 Hok1). destruct (b st1) as [ok2 st2]. destruct Hb as (Hok2 & (q & Hq & Hd2 & Hall2) & Hl2 & Ho2 & Hf2).
    split_and!; [done| |lia|auto|].
    + exists (t1 ++ q). split; [by apply prefix_app|]. split; [by rewrite Hd2, Hd, app_assoc|]. intros E. by rewrite (Hall2 E).
    + intros E. destruct (Hf2 E) as [?|Hs]; [left; auto|right]. rewrite Hd, length_app in Hs. rewrite length_app. lia.
  - split_and!; [done| |lia|auto|].
    + exists p. split; [by apply prefix_app_r|]. by split.
    + intros _. destruct (Hf eq_refl) as [?|Hs]; [by left|right]. rewrite length_app. lia.
Qed.

Lemma writes_chunks cs w : (forall st, w st = append_chunks cs st) -> writes (concat cs) w.
Proof.
  intros Hw st Hok. rewrite Hw. pose proof (append_chunks_spec cs st Hok) as Ha. destruct (append_chunks cs st) as [ok st'].
  destruct Ha as (k & Hk & Hiff & Hok' & Hd & Hl & Ho & Hf). split_and!; try done.
  exists (concat (take k cs)). split_and!; [|done|].
  - exists (concat (drop k cs)). by rewrite <- concat_app, take_drop.
  - intros E. apply Hiff in E as ->. by rewrite firstn_all.
Qed.

Lemma writes_escape ctx l : ctx <> Url -> writes (rendering ctx l) (escape ctx l).
Proof. intros Hc. apply writes_chunks. intros st. by apply escape_append_chunks. Qed.

Lemma writes_body l : writes (rendering HtmlBody l) (escape_html_body l).
Proof. by apply (writes_escape HtmlBody). Qed.

Lemma writes_attr l : writes (rendering HtmlAttr l) (escape_html_attr l).
Proof. by apply (writes_escape HtmlAttr). Qed.

Lemma writes_json l : writes (rendering Json l) (escape_json l).
Proof. by apply (writes_escape Json). Qed.

Lemma writes_write_if (b : bool) t w : writes t w -> writes (if b then t else []) (write_if b w).
Proof. destruct b; [done|]. intros _. apply writes_nothing. Qed.

Lemma writes_eq t t' w : writes t w -> t = t' -> writes t' w.
Proof. by intros H <-. Qed.

Lemma writes_int v : writes (print_dec v) (append_int_lit v).
Proof. apply writes_lit. Qed.

Lemma writes_double v : (length (format_fixed4 v) < 32)%nat -> writes (format_fixed4 v) (append_double_lit v).
Proof.
  intros Hn st. unfold append_double_lit. destruct (Z.leb_spec 32 (Z.of_nat (length (format_fixed4 v)))); [lia|]. apply writes_lit.
Qed.

#[export] Hint Resolve writes_nothing writes_lit writes_and_then writes_body writes_attr writes_json writes_write_if writes_int writes_double : report.

(** What [writes] gives for the result of a writer on a buffer. *)
Lemma writes_outcome t w st ok st' :
  writes t w -> buf_ok (fst st) -> w st = (ok, st') ->
  buf_ok (fst st') /\ live (snd st') - owned (fst st') = live (snd st) - owned (fst st) /\
  (ok = true -> buf_data (fst st') = buf_data (fst st) ++ t).
Proof.
  intros Hw Hok E. specialize (Hw st Hok). rewrite E in Hw. destruct Hw as (Hok' & (p & _ & Hd & Hp) & Hl & _).
  split_and!; [done|done|]. intros ->. by rewrite <- (Hp eq_refl).
Qed.

(** A chain of one writer per element. *)
Definition write_each {A} (f : A -> writer) (l : list A) : writer := foldr (fun x w => and_then (f x) w) nothing l.

Lemma writes_each {A} (f : A -> writer) (t : A -> bytes) (l : list A) :
  (forall x, x ∈ l -> writes (t x) (f x)) -> writes (concat (map t l)) (write_each f l).
Proof.
  induction l as [|x l IH]; intros Hf; cbn; [apply writes_nothing|].
  apply writes_and_then; [apply Hf; by left|]. apply IH. intros y Hy. apply Hf. by right.
Qed.

(** ** Lemmas: numbers *)

Lemma fixed4_nearest num den : 0 <= num -> 0 < den -> 0 <= fixed4 num den /\ 2 * Z.abs (fixed4 num den * den - num) <= den.
Proof.
  intros Hn Hd. unfold fixed4. pose proof (Z.div_mod num den ltac:(lia)) as Hdm. pose proof (Z.mod_pos_bound num den Hd) as Hm.
  pose proof (Z.div_pos num den Hn Hd) as Hq. set (q := num / den) in *. set (r := num mod den) in *.
  assert (2 * Z.abs (q * den - num) <= den \/ den < 2 * r) as Hlow by nia.
  destruct (Z.ltb_spec (2 * r) den); [nia|]. destruct (Z.ltb_spec den (2 * r)); [nia|]. destruct (Z.even q); nia.
Qed.

Lemma fixed4_at_most num den k : 0 <= num -> 0 < den -> num <= k * den -> fixed4 num den <= k.
Proof. intros Hn Hd Hk. pose proof (fixed4_nearest num den Hn Hd) as [_ Hf]. nia. Qed.

Lemma dec_loop_digit fuel n acc : 0 <= n < 10 -> dec_loop (S fuel) n acc = (48 + n) :: acc.
Proof. intros Hn. cbn [dec_loop]. rewrite Z.mod_small by lia. by destruct (Z.ltb_spec n 10); [|lia]. Qed.

(** A score between 0 and 1. *)
Definition is_score (d : double) : Prop := double_ge d 0 = true /\ double_le d 1 = true.

Lemma score_text d :
  is_score d -> exists q, 0 <= q <= 10000 /\ format_fixed4 d = [48 + q / 10000] ++ [46] ++ pad_digits 4 (q mod 10000).
Proof.
  unfold is_score. destruct d as [m e|n|]; [|by destruct n; intros [? ?]|by intros [? ?]]. cbn [double_ge double_le].
  pose proof (Z.pow_pos_nonneg 2 (Z.max 0 (- e)) ltac:(lia) ltac:(lia)) as Hd. pose proof (Z.pow_pos_nonneg 2 (Z.max 0 e) ltac:(lia) ltac:(lia)) as Hn.
  rewrite !Z.leb_le. intros [H0 H1]. cbn [format_fixed4]. destruct (Z.ltb_spec m 0); [nia|]. cbn [app].
  set (num := Z.abs m * 10000 * 2 ^ Z.max 0 e). set (den := 2 ^ Z.max 0 (- e)) in *. assert (Hnum : 0 <= num <= 10000 * den) by (unfold num; nia).
  exists (fixed4 num den). pose proof (fixed4_nearest num den ltac:(lia) Hd) as [Hq _]. pose proof (fixed4_at_most num den 10000 ltac:(lia) Hd ltac:(lia)) as Hq2.
  split; [done|]. set (q := fixed4 num den) in *. assert (0 <= q / 10000 <= 1) by (split; [apply Z.div_pos; lia|apply Z.div_le_upper_bound; lia]).
  rewrite (dec_loop_digit 309) by lia. done.
Qed.

Lemma score_fits d : is_score d -> (length (format_fixed4 d) < 32)%nat.
Proof. intros Hd. destruct (score_text d Hd) as (q & _ & ->). cbn [app length]. rewrite length_pad_digits. lia. Qed.

Lemma column_int_id z : - 2 ^ 31 <= z < 2 ^ 31 -> column_int z = z.
Proof. intros Hz. unfold column_int. rewrite Z.mod_small; lia. Qed.

(** ** Lemmas: queries *)

(** What the summary should say of the findings of a scan. *)
Definition counts_of (fs : list stored_finding) : report_counts :=
  ReportCounts (map (fun s => count (fun f => is_status "confirmed" f && (res_severity f.1 =? s)) fs) [0; 1; 2; 3; 4])
    (count (fun f => is_status "confirmed" f && (res_kev_flag f.1 =? 1)) fs) (count (is_status "undetermined") fs) (count (is_status "not_affected") fs).

Lemma count_filter (P Q : stored_finding -> bool) fs : count P (List.filter Q fs) = count (fun f => Q f && P f) fs.
Proof.
  unfold count. f_equal. induction fs as [|f fs IH]; [done|]. cbn. destruct (Q f); cbn; [|done]. destruct (P f); cbn; lia.
Qed.

Definition severity_step (counts : list Z) (g : Z * Z) : list Z :=
  let severity := column_int g.1 in if (0 <=? severity) && (severity <=? 4) then <[Z.to_nat severity := g.2]> counts else counts.

Lemma severity_fold (f : Z -> Z) ss : forall counts,
  (forall s, s ∈ ss -> 0 <= s <= 4) -> length counts = 5%nat ->
  length (foldl severity_step counts (map (fun s => (s, f s)) ss)) = 5%nat /\
  forall i, (i < 5)%nat -> foldl severity_step counts (map (fun s => (s, f s)) ss) !! i = if bool_decide (Z.of_nat i ∈ ss) then Some (f (Z.of_nat i)) else counts !! i.
Proof.
  induction ss as [|s ss IH]; intros counts Hss Hl; cbn [map foldl]; [done|].
  assert (Hs : 0 <= s <= 4) by (apply Hss; by left).
  assert (Hstep : severity_step counts (s, f s) = <[Z.to_nat s := f s]> counts).
  { unfold severity_step. cbn [fst snd]. rewrite column_int_id by lia. rewrite (proj2 (Z.leb_le 0 s)), (proj2 (Z.leb_le s 4)) by lia. done. }
  rewrite Hstep. destruct (IH (<[Z.to_nat s := f s]> counts)) as [Hl' Hi]; [intros; apply Hss; by right|by rewrite length_insert|].
  split; [done|]. intros i Hlt. rewrite Hi by done. case_bool_decide as Hin; [by rewrite bool_decide_true by by right|].
  destruct (decide (Z.of_nat i = s)) as [<-|Hne].
  - rewrite bool_decide_true by by left. rewrite Nat2Z.id, list_lookup_insert_eq by lia. done.
  - rewrite bool_decide_false by (intros [?|?]%elem_of_cons; auto). apply list_lookup_insert_ne. lia.
Qed.

Lemma count_zero (P : stored_finding -> bool) fs : (forall f, f ∈ fs -> P f = false) -> count P fs = 0.
Proof.
  intros H. unfold count. induction fs as [|f fs IH]; [done|]. cbn. rewrite (H f) by by left. apply IH. intros g Hg. apply H. by right.
Qed.

Lemma severity_counts_fold fs :
  (forall f, f ∈ fs -> 0 <= res_severity f.1 <= 4) ->
  foldl severity_step [0; 0; 0; 0; 0] (severity_groups fs) = map (fun s => count (fun f => res_severity f.1 =? s) fs) [0; 1; 2; 3; 4].
Proof.
  intros Hfs. unfold severity_groups.
  destruct (severity_fold (fun s => count (fun f => res_severity f.1 =? s) fs) (remove_dups (map (fun f => res_severity f.1) fs)) [0; 0; 0; 0; 0]) as [Hl Hi].
  { intros s Hs. apply elem_of_remove_dups, list_elem_of_fmap in Hs as (f & -> & Hf). by apply Hfs. }
  { done. }
  apply list_eq. intros i. destruct (decide (i < 5)%nat) as [Hlt|Hge].
  2: { rewrite !lookup_ge_None_2; [done|cbn; lia|lia]. }
  rewrite Hi by done. assert (Hv : forall s, (if bool_decide (s ∈ remove_dups (map (fun f : stored_finding => res_severity f.1) fs)) then Some (count (fun f => res_severity f.1 =? s) fs) else Some 0) =
    Some (count (fun f => res_severity f.1 =? s) fs)).
  { intros s. case_bool_decide as Hin; [done|]. rewrite count_zero; [done|]. intros f Hf. apply Z.eqb_neq. intros <-. apply Hin, elem_of_remove_dups.
    by apply (list_elem_of_fmap_2 (fun f : stored_finding => res_severity f.1)). }
  destruct i as [|[|[|[|[|i]]]]]; [exact (Hv 0)|exact (Hv 1)|exact (Hv 2)|exact (Hv 3)|exact (Hv 4)|lia].
Qed.

Lemma count_permutation P fs fs' : Permutation fs fs' -> count P fs = count P fs'.
Proof. intros Hp. unfold count. f_equal. induction Hp; cbn; repeat (destruct (P _)); cbn; congruence. Qed.

Lemma counts_of_permutation fs fs' : Permutation fs fs' -> counts_of fs = counts_of fs'.
Proof. intros Hp. unfold counts_of. f_equal; [apply map_ext; intros s| |  | ]; by apply count_permutation. Qed.

Section Laws.
Context {C : Type} `{SqliteLaws C}.
Variable view : database -> report_view.

Lemma same_conn_trans (a b c : C) : same_conn a b -> same_conn b c -> same_conn a c.
Proof. unfold same_conn. intros (? & ? & ?) (? & ? & ?). by split_and!; etrans. Qed.

(** Outside a transaction there is nothing to roll back. *)
Lemma aborted_idle (c c' : C) : in_tx c = false -> aborted c c' -> same_conn c c'.
Proof. intros Ht [?|(Hd & Hc & Ht')]; [done|]. pose proof (autocommit_current c Ht). unfold same_conn. split_and!; congruence. Qed.

Lemma idle_read (c c' : C) b : in_tx c = false -> sql_read c = (b, c') -> same_conn c c'.
Proof. intros Ht E. destruct b; [by apply read_ok|]. by apply aborted_idle, read_fail. Qed.

Lemma idle_prepare (c c' : C) b : in_tx c = false -> sql_prepare c = (b, c') -> same_conn c c'.
Proof. intros Ht E. destruct b; [by apply prepare_ok|]. by apply aborted_idle, prepare_fail. Qed.

Lemma same_conn_idle (c c' : C) : same_conn c c' -> in_tx c = false -> in_tx c' = false.
Proof. intros (_ & _ & ->). done. Qed.

Lemma count_where_spec P id (c : C) r c' :
  in_tx c = false -> count_where view P id c = (r, c') ->
  same_conn c c' /\ (forall n, r = Some n -> n = count P (scan_findings view (current c) id)).
Proof.
  intros Ht. unfold count_where. destruct (sql_prepare c) as [[] c1] eqn:E1; pose proof (idle_prepare _ _ _ Ht E1) as H1; cbn [negb]; [|intros [= <- <-]; done].
  destruct (sql_read c1) as [[] c2] eqn:E2; pose proof (idle_read _ _ _ (same_conn_idle _ _ H1 Ht) E2) as H2; cbn [negb]; intros [= <- <-];
    (split; [by eapply same_conn_trans|]); [|done]. intros n [= <-]. destruct H1 as (_ & <- & _), H2 as (_ & <- & _). done.
Qed.

Lemma severity_loop_spec groups : forall counts (c : C) r c',
  in_tx c = false -> severity_loop groups counts c = (r, c') ->
  same_conn c c' /\ (forall n, r = Some n -> n = foldl severity_step counts groups).
Proof.
  induction groups as [|[s n] groups IH]; intros counts c r c' Ht; cbn [severity_loop foldl]; destruct (sql_read c) as [[] c1] eqn:E1;
    pose proof (idle_read _ _ _ Ht E1) as H1; cbn [negb]; try (intros [= <- <-]; split; [done|congruence]).
  intros [H2 Hn]%IH; [|by eapply same_conn_idle]. split; [by eapply same_conn_trans|done].
Qed.

Lemma load_report_counts_spec id (c : C) r c' :
  in_tx c = false -> (forall f, f ∈ scan_findings view (current c) id -> 0 <= res_severity f.1 <= 4) ->
  load_report_counts view id c = (r, c') ->
  same_conn c c' /\ (forall n, r = Some n -> n = counts_of (scan_findings view (current c) id)).
Proof.
  intros Ht Hfs. unfold load_report_counts. destruct (sql_prepare c) as [[] c1] eqn:E1; pose proof (idle_prepare _ _ _ Ht E1) as H1; cbn [negb]; [|intros [= <- <-]; done].
  assert (Ht1 : in_tx c1 = false) by by eapply same_conn_idle. assert (Hc1 : current c1 = current c) by apply H1. rewrite Hc1.
  set (fs := scan_findings view (current c) id) in *. destruct (severity_loop _ _ c1) as [r2 c2] eqn:E2. apply severity_loop_spec in E2 as [H2 Hn2]; [|done].
  pose proof (same_conn_trans _ _ _ H1 H2) as H02. destruct r2 as [sev|]; [|by intros [= <- <-]].
  destruct (count_where view _ id c2) as [r3 c3] eqn:E3. apply count_where_spec in E3 as [H3 Hn3]; [|by eapply same_conn_idle].
  pose proof (same_conn_trans _ _ _ H02 H3) as H03. destruct r3 as [kev|]; [|by intros [= <- <-]].
  destruct (count_where view _ id c3) as [r4 c4] eqn:E4. apply count_where_spec in E4 as [H4 Hn4]; [|by eapply same_conn_idle].
  pose proof (same_conn_trans _ _ _ H03 H4) as H04. destruct r4 as [und|]; [|by intros [= <- <-]].
  destruct (count_where view _ id c4) as [r5 c5] eqn:E5. apply count_where_spec in E5 as [H5 Hn5]; [|by eapply same_conn_idle].
  pose proof (same_conn_trans _ _ _ H04 H5) as H05. destruct r5 as [nota|]; intros [= <- <-]; (split; [done|]); [|done].
  intros n [= <-]. assert (Hcur : current c2 = current c /\ current c3 = current c /\ current c4 = current c) by (split_and!; [apply H02|apply H03|apply H04]).
  destruct Hcur as (Ec2 & Ec3 & Ec4). rewrite (Hn2 _ eq_refl), (Hn3 _ eq_refl), (Hn4 _ eq_refl), (Hn5 _ eq_refl), Ec2, Ec3, Ec4. fold fs. unfold counts_of. f_equal.
  rewrite severity_counts_fold.
  - apply map_ext. intros s. apply count_filter.
  - intros f Hf. apply Hfs. apply list_elem_of_In, filter_In in Hf as [Hf _]. by apply list_elem_of_In.
Qed.

Lemma select_scan_spec id (c : C) st s c' :
  in_tx c = false -> select_scan view id c = (st, s, c') ->
  same_conn c c' /\
  match st with
  | REPORT_OK => find_scan view (current c) id = s /\ is_Some s
  | REPORT_ERR_NOT_FOUND => find_scan view (current c) id = None /\ s = None
  | REPORT_ERR_DB => s = None
  | _ => False
  end.
Proof.
  intros Ht. unfold select_scan. destruct (sql_prepare c) as [[] c1] eqn:E1; pose proof (idle_prepare _ _ _ Ht E1) as H1; cbn [negb]; [|by intros [= <- <- <-]].
  destruct (sql_read c1) as [[] c2] eqn:E2; pose proof (idle_read _ _ _ (same_conn_idle _ _ H1 Ht) E2) as H2; pose proof (same_conn_trans _ _ _ H1 H2) as H02; cbn [negb].
  2: { by intros [= <- <- <-]. }
  assert (current c2 = current c) as -> by apply H02. destruct (find_scan view (current c) id) eqn:E; intros [= <- <- <-]; (split; [done|]); [|done]. by split.
Qed.
End Laws.

(** ** Writing a document step by step *)

(** [st0] is the buffer at the start, [full] the text meant, [done] what is
    written of it. *)
Definition progress (st0 : sink) (full written : bytes) (st : sink) : Prop :=
  buf_ok (fst st) /\ buf_data (fst st) = buf_data (fst st0) ++ written /\ written `prefix_of` full /\
  live (snd st) - owned (fst st) = live (snd st0) - owned (fst st0) /\ (forall b, b ∈ oracle (snd st) -> b ∈ oracle (snd st0)).

(** Memory does not suffice for the text. *)
Definition starved (st0 : sink) (full : bytes) : Prop :=
  false ∈ oracle (snd st0) \/ SIZE_MAX < Z.of_nat (length (buf_data (fst st0)) + length full) + 1.

(** A buffer to discard: it can be freed, and nothing else was kept. *)
Definition balanced (st0 st : sink) : Prop := buf_ok (fst st) /\ live (snd st) - owned (fst st) = live (snd st0) - owned (fst st0).

Lemma progress_start st0 full : buf_ok (fst st0) -> progress st0 full [] st0.
Proof. intros Hok. unfold progress. rewrite app_nil_r. split_and!; try done. apply prefix_nil. Qed.

Lemma progress_balanced st0 full written st : progress st0 full written st -> balanced st0 st.
Proof. intros (? & _ & _ & ? & _). by split. Qed.

Lemma progress_step st0 full written st t w ok st' :
  progress st0 full written st -> writes t w -> written ++ t `prefix_of` full -> w st = (ok, st') ->
  if ok then progress st0 full (written ++ t) st' else balanced st0 st' /\ starved st0 full.
Proof.
  intros (Hok & Hd & Hp & Hl & Ho) Hw Hfull E. specialize (Hw st Hok). rewrite E in Hw. destruct Hw as (Hok' & (p & _ & Hd' & Hall) & Hl' & Ho' & Hf).
  destruct ok.
  - unfold progress. rewrite (Hall eq_refl) in Hd'. split_and!; [done|by rewrite Hd', Hd, app_assoc|done|lia|auto].
  - split; [split; [done|lia]|]. destruct (Hf eq_refl) as [?|Hs]; [left; auto|right]. rewrite Hd, length_app in Hs. apply prefix_length in Hfull. rewrite length_app in Hfull. lia.
Qed.

Lemma progress_whole st0 full st : progress st0 full full st -> buf_data (fst st) = buf_data (fst st0) ++ full.
Proof. by intros (_ & ? & _). Qed.

(** A render that stops: the database failed, or memory did. *)
Definition stopped (st0 : sink) (full : bytes) (r : report_status) (st : sink) : Prop :=
  balanced st0 st /\ (r = REPORT_ERR_DB \/ r = REPORT_ERR_OOM /\ starved st0 full).

(** [st0] with [k] more blocks, which the caller holds. *)
Definition shift (k : Z) (st0 : sink) : sink := (fst st0, Heap (oracle (snd st0)) (live (snd st0) + k)).

Lemma progress_heap st0 full written k buf h d h' :
  progress (shift k st0) full written (buf, h) -> live h' = live h + d -> (forall b, b ∈ oracle h' -> b ∈ oracle h) ->
  progress (shift (k + d) st0) full written (buf, h').
Proof.
  unfold progress, shift. cbn [fst snd oracle live]. intros (Hok & Hd & Hp & Hl & Ho) Hlive Hor. split_and!; try done; [lia|auto].
Qed.

Lemma balanced_heap st0 k buf h d h' :
  balanced (shift k st0) (buf, h) -> live h' = live h + d -> balanced (shift (k + d) st0) (buf, h').
Proof. unfold balanced, shift. cbn [fst snd oracle live]. intros (Hok & Hl) Hlive. split; [done|lia]. Qed.

Lemma progress_starved st0 full written k buf h : progress (shift k st0) full written (buf, h) -> false ∈ oracle h -> starved st0 full.
Proof. intros (_ & _ & _ & _ & Ho) Hin. left. by apply Ho. Qed.

Lemma shift_zero st0 : shift 0 st0 = st0.
Proof. destruct st0 as [buf [o n]]. unfold shift. cbn. by rewrite Z.add_0_r. Qed.
