(* ===== verification/ReportJson.v ===== *)
(** * The JSON report ([src/src/report/report_json.c])

    The writer of the document, the tree the document should hold, and a
    reader of JSON texts: what is written reads back as the tree, and is UTF-8
    exactly when the strings of the tree are. *)

From S2P Require Import Prelude Utf8 KbValidate Escape Calendar Sqlite Report.

#[local] Arguments bs : simpl never.
#[local] Open Scope report_scope.

(** ** The writer *)

Definition comma_if (comma : bool) : writer := write_if comma (lit (bs ",")).

Definition append_json_key (key : string) : writer := lit (tpl "`") &&> lit (bs key) &&> lit (tpl "`:").

Definition append_json_int_field (key : string) (value : Z) (comma : bool) : writer :=
  append_json_key key &&> append_int_lit value &&> comma_if comma.

Definition append_json_bool_field (key : string) (value comma : bool) : writer :=
  append_json_key key &&> lit (if value then bs "true" else bs "false") &&> comma_if comma.

(** The column is [None] when it is NULL. *)
Definition append_json_string_col (key : string) (col : option bytes) (comma : bool) : writer :=
  append_json_key key &&>
  match col with
  | None => lit (bs "null")
  | Some text => lit (tpl "`") &&> escape_json text &&> lit (tpl "`")
  end &&> comma_if comma.

Definition append_json_double_or_null_col (key : string) (col : option double) (comma : bool) : writer :=
  append_json_key key &&>
  match col with None => lit (bs "null") | Some v => append_double_lit v end &&> comma_if comma.

Definition scan_object (id : Z) (s : scan_entry) : writer :=
  lit (tpl "`scan`:{") &&>
  append_json_int_field "scan_id" id true &&>
  append_json_string_col "started_at" (Some (started_at s.2)) true &&>
  append_json_string_col "finished_at" (finished_at s.2) true &&>
  append_json_string_col "target_spec" (Some (scan_target_spec s.1)) true &&>
  append_json_string_col "authorized_by" (Some (scan_authorized_by s.1)) true &&>
  append_json_string_col "authorization_confirmed_at" (Some (authorization_confirmed_at s.2)) true &&>
  append_json_string_col "authorization_method" (Some (scan_authorization_method s.1)) true &&>
  append_json_string_col "status" (Some (scan_status s.1)) true &&>
  append_json_int_field "malformed_data_count" (scan_malformed_data_count s.1) false &&>
  lit (bs "}").

(** [json_report_counts_t]: the counts and their sum. *)
Record json_report_counts := JsonCounts { json_counts : report_counts; confirmed_count : Z }.

Definition render_summary_object (counts : json_report_counts) : writer :=
  let n := json_counts counts in
  lit (tpl "`summary`:{`severity_counts`:{") &&>
  write_each (fun '(key, s) => append_json_int_field key (nth s (severity_counts n) 0) (s <? 4)%nat)
    [("0"%string, 0%nat); ("1"%string, 1%nat); ("2"%string, 2%nat); ("3"%string, 3%nat); ("4"%string, 4%nat)] &&>
  lit (bs "},") &&>
  append_json_int_field "kev_count" (kev_count n) true &&>
  append_json_int_field "undetermined_count" (undetermined_count n) true &&>
  append_json_int_field "not_affected_count" (not_affected_count n) true &&>
  append_json_int_field "confirmed_count" (confirmed_count counts) false &&>
  lit (bs "}").

(** One turn of the loop over the findings: what one row appends. *)
Definition finding_object (first : bool) (f : stored_finding) : writer :=
  let '(r, detected_at) := f in
  write_if (negb first) (lit (bs ",")) &&>
  lit (bs "{") &&>
  append_json_string_col "host" (Some (res_host r)) true &&>
  append_json_int_field "port" (column_int (res_port r)) true &&>
  append_json_string_col "service" (res_service r) true &&>
  append_json_string_col "plugin_id" (Some (res_plugin_id r)) true &&>
  append_json_string_col "cve_id" (res_cve_id r) true &&>
  append_json_int_field "severity" (column_int (res_severity r)) true &&>
  append_json_string_col "evidence" (Some (res_evidence r)) true &&>
  append_json_string_col "remediation" (res_remediation r) true &&>
  append_json_bool_field "kev_flag" (negb (column_int (res_kev_flag r) =? 0)) true &&>
  append_json_double_or_null_col "epss_score" (res_epss_score r) true &&>
  append_json_string_col "detected_at" (Some detected_at) true &&>
  append_json_string_col "match_status" (Some (res_match_status r)) false &&>
  lit (bs "}").

Section Render.
Context {C : Type} `{Sqlite C}.
Variable view : database -> report_view.
(** [ORDER BY host, port, severity DESC] *)
Variable order_findings : list stored_finding -> list stored_finding.

Definition render_scan_object (id : Z) (c : C) (out : sink) : report_status * C * sink :=
  let '(st, s, c) := select_scan view id c in
  match s with
  | None => (st, c, out)
  | Some s => let '(ok, out) := scan_object id s out in ((if ok then REPORT_OK else REPORT_ERR_OOM), c, out)
  end.

Definition load_counts (id : Z) (c : C) : option json_report_counts * C :=
  let '(n, c) := load_report_counts view id c in
  (match n with None => None | Some n => Some (JsonCounts n (foldl Z.add 0 (severity_counts n))) end, c).

(** The loop of [render_findings_array]; [ok] as in the code. *)
Fixpoint findings_loop (rows : list stored_finding) (first ok : bool) (c : C) (out : sink) : report_status * bool * C * sink :=
  let '(stepped, c) := sql_read c in
  if negb stepped then (REPORT_ERR_DB, ok, c, out) else
  match rows with
  | [] => (REPORT_OK, ok, c, out)
  | f :: rows =>
      let '(ok, out) := if ok then finding_object first f out else (false, out) in
      if negb ok then (REPORT_ERR_OOM, ok, c, out) else findings_loop rows false ok c out
  end.

Definition render_findings_array (id : Z) (c : C) (out : sink) : report_status * C * sink :=
  let '(ok, c) := sql_prepare c in
  if negb ok then (REPORT_ERR_DB, c, out) else
  let '(ok, out) := lit (tpl "`findings`:[") out in
  let '(st, ok, c, out) := findings_loop (order_findings (scan_findings view (current c) id)) true ok c out in
  if negb (bool_decide (st = REPORT_OK)) then (st, c, out) else
  if negb ok then (REPORT_ERR_OOM, c, out) else
  let '(ok, out) := lit (bs "]") out in
  ((if ok then REPORT_OK else REPORT_ERR_OOM), c, out).

(** [cytadel_report_json] *)
Definition report_json (id : Z) (c : C) (out : sink) : report_status * C * sink :=
  if id <=? 0 then (REPORT_ERR_INVALID_ARG, c, out) else
  let '(ok, out) := lit (bs "{") out in
  if negb ok then (REPORT_ERR_OOM, c, out) else
  let '(st, c, out) := render_scan_object id c out in
  if negb (bool_decide (st = REPORT_OK)) then (st, c, out) else
  let '(ok, out) := lit (bs ",") out in
  if negb ok then (REPORT_ERR_OOM, c, out) else
  match load_counts id c with
  | (None, c) => (REPORT_ERR_DB, c, out)
  | (Some counts, c) =>
      let '(ok, out) := render_summary_object counts out in
      if negb ok then (REPORT_ERR_OOM, c, out) else
      let '(ok, out) := lit (bs ",") out in
      if negb ok then (REPORT_ERR_OOM, c, out) else
      let '(st, c, out) := render_findings_array id c out in
      if negb (bool_decide (st = REPORT_OK)) then (st, c, out) else
      let '(ok, out) := lit (bs "}") out in
      ((if ok then REPORT_OK else REPORT_ERR_OOM), c, out)
  end.
End Render.

(** ** JSON texts

    A value with its numbers as text, its text without white space, and a
    reader of such texts by the grammar of RFC 8259, byte by byte.  A document
    of RFC 8259 is such a text that is also UTF-8. *)
Inductive jvalue :=
  | JvNull
  | JvBool (b : bool)
  | JvNumber (text : bytes)
  | JvString (s : bytes)
  | JvArray (items : list jvalue)
  | JvObject (members : list (bytes * jvalue)).

Fixpoint comma_separated (l : list bytes) : bytes :=
  match l with [] => [] | [t] => t | t :: l => t ++ [44] ++ comma_separated l end.

Definition string_text (s : bytes) : bytes := [34] ++ rendering Json s ++ [34].

Fixpoint json_text (v : jvalue) : bytes :=
  match v with
  | JvNull => bs "null"
  | JvBool b => if b then bs "true" else bs "false"
  | JvNumber text => text
  | JvString s => string_text s
  | JvArray items => [91] ++ comma_separated (map json_text items) ++ [93]
  | JvObject members => [123] ++ comma_separated (map (fun '(key, v) => string_text key ++ [58] ++ json_text v) members) ++ [125]
  end.

Definition is_dec_digit (c : byte) : bool := (48 <=? c) && (c <=? 57).
Definition number_char (c : byte) : bool := is_dec_digit c || existsb (Z.eqb c) (bs "+-.eE").

(** A number without an exponent: a sign, digits without a leading zero, a
    fraction. *)
Definition number_ok (text : bytes) : bool :=
  let text := match text with c :: t => if c =? 45 then t else text | [] => [] end in
  let whole := take_while is_dec_digit text in
  negb (bool_decide (whole = [])) && (bool_decide (length whole = 1%nat) || negb (bool_decide (take 1 whole = [48]))) &&
  match drop_while is_dec_digit text with
  | [] => true
  | c :: fraction => (c =? 46) && negb (bool_decide (fraction = [])) && forallb is_dec_digit fraction
  end.

(** The text after a given prefix. *)
Definition expect (p s : bytes) : option bytes := strip_prefix p s.

(** A value and what follows it; [fuel] bounds the values and elements. *)
Fixpoint read_value (fuel : nat) (s : bytes) : option (jvalue * bytes) :=
  match fuel, s with
  | S fuel, c :: s' =>
      if c =? 34 then prod_map JvString id <$> json_string s'
      else if c =? 91 then
        match expect [93] s' with Some rest => Some (JvArray [], rest) | None => prod_map JvArray id <$> read_items fuel s' end
      else if c =? 123 then
        match expect [125] s' with Some rest => Some (JvObject [], rest) | None => prod_map JvObject id <$> read_members fuel s' end
      else
        match expect (bs "null") s, expect (bs "true") s, expect (bs "false") s with
        | Some rest, _, _ => Some (JvNull, rest)
        | _, Some rest, _ => Some (JvBool true, rest)
        | _, _, Some rest => Some (JvBool false, rest)
        | None, None, None =>
            let text := take_while number_char s in
            if number_ok text then Some (JvNumber text, drop_while number_char s) else None
        end
  | _, _ => None
  end
with read_items (fuel : nat) (s : bytes) : option (list jvalue * bytes) :=
  match fuel with
  | O => None
  | S fuel =>
      match read_value fuel s with
      | None => None
      | Some (v, s) =>
          match expect [44] s with
          | Some s => prod_map (cons v) id <$> read_items fuel s
          | None => pair [v] <$> expect [93] s
          end
      end
  end
with read_members (fuel : nat) (s : bytes) : option (list (bytes * jvalue) * bytes) :=
  match fuel with
  | O => None
  | S fuel =>
      match expect [34] s ≫= json_string with
      | None => None
      | Some (key, s) =>
          match expect [58] s ≫= read_value fuel with
          | None => None
          | Some (v, s) =>
              match expect [44] s with
              | Some s => prod_map (cons (key, v)) id <$> read_members fuel s
              | None => pair [(key, v)] <$> expect [125] s
              end
          end
      end
  end.

(** A document: a value with nothing after it. *)
Definition json_read (s : bytes) : option jvalue :=
  match read_value (S (length s)) s with Some (v, []) => Some v | _ => None end.

(** The strings of a value, the keys included. *)
Fixpoint jv_strings (v : jvalue) : list bytes :=
  match v with
  | JvNull | JvBool _ | JvNumber _ => []
  | JvString s => [s]
  | JvArray items => concat (map jv_strings items)
  | JvObject members => concat (map (fun '(key, v) => key :: jv_strings v) members)
  end.

(** A document of RFC 8259 that holds the value. *)
Definition json_document (s : bytes) (v : jvalue) : Prop := utf8_text s /\ json_read s = Some v.

(** ** The tree of a report *)

Definition jv_string_or_null (s : option bytes) : jvalue := match s with Some s => JvString s | None => JvNull end.
Definition jv_int (v : Z) : jvalue := JvNumber (print_dec v).

Definition scan_value (s : scan_entry) : jvalue := JvObject
  [(bs "scan_id", jv_int (scan_id s.1)); (bs "started_at", JvString (started_at s.2)); (bs "finished_at", jv_string_or_null (finished_at s.2));
   (bs "target_spec", JvString (scan_target_spec s.1)); (bs "authorized_by", JvString (scan_authorized_by s.1));
   (bs "authorization_confirmed_at", JvString (authorization_confirmed_at s.2)); (bs "authorization_method", JvString (scan_authorization_method s.1));
   (bs "status", JvString (scan_status s.1)); (bs "malformed_data_count", jv_int (scan_malformed_data_count s.1))].

Definition confirmed_with (fs : list stored_finding) (s : Z) : jvalue := jv_int (count (fun f => is_status "confirmed" f && (res_severity f.1 =? s)) fs).

Definition summary_value (fs : list stored_finding) : jvalue := JvObject
  [(bs "severity_counts", JvObject [(bs "0", confirmed_with fs 0); (bs "1", confirmed_with fs 1); (bs "2", confirmed_with fs 2);
                                    (bs "3", confirmed_with fs 3); (bs "4", confirmed_with fs 4)]);
   (bs "kev_count", jv_int (count (fun f => is_status "confirmed" f && (res_kev_flag f.1 =? 1)) fs));
   (bs "undetermined_count", jv_int (count (is_status "undetermined") fs));
   (bs "not_affected_count", jv_int (count (is_status "not_affected") fs));
   (bs "confirmed_count", jv_int (count (is_status "confirmed") fs))].

Definition finding_value (f : stored_finding) : jvalue :=
  let '(r, detected_at) := f in
  JvObject
  [(bs "host", JvString (res_host r)); (bs "port", jv_int (res_port r)); (bs "service", jv_string_or_null (res_service r));
   (bs "plugin_id", JvString (res_plugin_id r)); (bs "cve_id", jv_string_or_null (res_cve_id r)); (bs "severity", jv_int (res_severity r));
   (bs "evidence", JvString (res_evidence r)); (bs "remediation", jv_string_or_null (res_remediation r)); (bs "kev_flag", JvBool (res_kev_flag r =? 1));
   (bs "epss_score", match res_epss_score r with Some v => JvNumber (format_fixed4 v) | None => JvNull end);
   (bs "detected_at", JvString detected_at); (bs "match_status", JvString (res_match_status r))].

Definition report_value (s : scan_entry) (fs : list stored_finding) : jvalue := JvObject
  [(bs "scan", scan_value s); (bs "summary", summary_value fs); (bs "findings", JvArray (map finding_value fs))].

(** ** Lemmas: numbers *)

Lemma number_ok_chars text :
  number_ok text = true -> Forall (fun c => number_char c = true) text /\ exists c t, text = c :: t /\ (c = 45 \/ 48 <= c <= 57).
Proof.
  assert (Hdig : forall l, forallb is_dec_digit l = true -> Forall (fun c => number_char c = true) l).
  { intros l Hl. rewrite forallb_forall in Hl. apply Forall_forall. intros c Hc. unfold number_char. by rewrite (Hl c) by by apply list_elem_of_In. }
  assert (Hbody : forall t, negb (bool_decide (take_while is_dec_digit t = [])) = true ->
    match drop_while is_dec_digit t with [] => true | c :: fraction => (c =? 46) && negb (bool_decide (fraction = [])) && forallb is_dec_digit fraction end = true ->
    Forall (fun c => number_char c = true) t /\ exists c t', t = c :: t' /\ 48 <= c <= 57).
  { intros t Hne Hrest. rewrite <- (take_drop_while is_dec_digit t). split.
    - apply Forall_app. split.
      + eapply Forall_impl; [apply take_while_all|]. intros c Hc. cbn in Hc. unfold number_char. by rewrite Hc.
      + destruct (drop_while is_dec_digit t) as [|c f]; [constructor|]. apply andb_prop in Hrest as [Hc Hf]. apply andb_prop in Hc as [Hc _].
        apply Z.eqb_eq in Hc as ->. constructor; [done|auto].
    - pose proof (take_while_all is_dec_digit t) as Hall. destruct (take_while is_dec_digit t) as [|c w]; [done|]. exists c, (w ++ drop_while is_dec_digit t).
      split; [done|]. apply Forall_cons in Hall as [Hc _]. unfold is_dec_digit in Hc. zbool. }
  unfold number_ok. destruct text as [|c t]; [done|]. destruct (Z.eqb_spec c 45) as [->|_]; intros Hok; apply andb_prop in Hok as [Hok Hrest]; apply andb_prop in Hok as [Hne _].
  - destruct (Hbody t Hne Hrest) as [Hall _]. split; [by constructor|]. eexists _, _. split; [done|by left].
  - destruct (Hbody (c :: t) Hne Hrest) as [Hall (d & t' & [= <- <-] & Hd)]. split; [done|]. eexists _, _. split; [done|by right].
Qed.

Lemma dec_loop_text fuel : forall n acc, 0 <= n < 10 ^ Z.of_nat fuel -> fuel <> O ->
  exists ds, dec_loop fuel n acc = ds ++ acc /\ Forall (fun c => is_dec_digit c = true) ds /\ ds <> [] /\ (length ds = 1%nat \/ take 1 ds <> [48]) /\ (1 <= n -> take 1 ds <> [48]).
Proof.
  induction fuel as [|fuel IH]; intros n acc Hn Hf; [done|]. cbn [dec_loop]. pose proof (Z.mod_pos_bound n 10 ltac:(lia)) as Hm.
  assert (Hd : is_dec_digit (48 + n mod 10) = true) by (unfold is_dec_digit; rewrite (proj2 (Z.leb_le 48 _)), (proj2 (Z.leb_le _ 57)) by lia; done).
  destruct (Z.ltb_spec n 10) as [Hlt|Hge].
  - exists [48 + n mod 10]. split_and!; [done|by repeat constructor|done|by left|]. intros H1 [= E]. rewrite Z.mod_small in E by lia. lia.
  - rewrite Nat2Z.inj_succ, Z.pow_succ_r in Hn by lia.
    assert (Hq : 1 <= n / 10 < 10 ^ Z.of_nat fuel) by (split; [apply Z.div_le_lower_bound; lia|apply Z.div_lt_upper_bound; lia]).
    destruct (IH (n / 10) ((48 + n mod 10) :: acc)) as (ds & -> & Hall & Hne & _ & Hz); [lia|intros ->; cbn in Hq; lia|].
    exists (ds ++ [48 + n mod 10]). specialize (Hz ltac:(lia)). assert (take 1 (ds ++ [48 + n mod 10]) <> [48]) by by destruct ds.
    split_and!; [by rewrite <- app_assoc|apply Forall_app; split; [done|by repeat constructor]|by destruct ds|by right|done].
Qed.

Lemma number_ok_intro (neg : bool) ds fraction :
  Forall (fun c => is_dec_digit c = true) ds -> ds <> [] -> (length ds = 1%nat \/ take 1 ds <> [48]) ->
  (fraction = [] \/ exists f, fraction = 46 :: f /\ f <> [] /\ Forall (fun c => is_dec_digit c = true) f) ->
  number_ok ((if neg then [45] else []) ++ ds ++ fraction) = true.
Proof.
  intros Hds Hne Hz Hf.
  assert (Hstart : take_while is_dec_digit (ds ++ fraction) = ds /\ drop_while is_dec_digit (ds ++ fraction) = fraction).
  { rewrite take_while_app, drop_while_app by done. destruct Hf as [->|(f & -> & _)]; cbn; by rewrite app_nil_r. }
  assert (Hall : number_ok ((if neg then [45] else []) ++ ds ++ fraction) =
    negb (bool_decide (ds = [])) && (bool_decide (length ds = 1%nat) || negb (bool_decide (take 1 ds = [48]))) &&
    match fraction with [] => true | c :: f => (c =? 46) && negb (bool_decide (f = [])) && forallb is_dec_digit f end).
  { unfold number_ok. destruct neg; cbn [app].
    - rewrite Z.eqb_refl. by destruct Hstart as [-> ->].
    - destruct ds as [|d ds]; [done|]. cbn [app]. apply Forall_cons in Hds as [Hd _]. destruct (Z.eqb_spec d 45) as [->|_]; [done|].
      destruct Hstart as [E1 E2]. cbn [app] in E1, E2. by rewrite E1, E2. }
  rewrite Hall, (bool_decide_false (ds = [])) by done. cbn [negb andb].
  replace (bool_decide (length ds = 1%nat) || negb (bool_decide (take 1 ds = [48]))) with true.
  2: { symmetry. destruct Hz as [Hz|Hz]; [by rewrite bool_decide_true|]. rewrite (bool_decide_false (take 1 ds = _)) by done. apply orb_true_r. }
  destruct Hf as [->|(f & -> & Hne' & Hf)]; [done|]. rewrite Z.eqb_refl, bool_decide_false by done. cbn [negb andb]. apply forallb_forall. intros c Hc.
  rewrite Forall_forall in Hf. by apply Hf, list_elem_of_In.
Qed.

Lemma int_number_ok n : Z.abs n < 10 ^ 20 -> number_ok (print_dec n) = true.
Proof.
  intros Hn. unfold print_dec. destruct (Z.ltb_spec n 0).
  - destruct (dec_loop_text 20 (- n) []) as (ds & -> & Hall & Hne & Hz & _); [change (10 ^ Z.of_nat 20) with (10 ^ 20); lia|done|].
    apply (number_ok_intro true ds []); auto.
  - destruct (dec_loop_text 20 n []) as (ds & -> & Hall & Hne & Hz & _); [change (10 ^ Z.of_nat 20) with (10 ^ 20); lia|done|].
    apply (number_ok_intro false ds []); auto.
Qed.

Lemma pad_digits_digits n v : 0 <= v -> Forall (fun c => is_dec_digit c = true) (pad_digits n v).
Proof.
  revert v; induction n as [|n IH]; intros v Hv; cbn [pad_digits]; [constructor|]. apply Forall_app. split; [apply IH, Z.quot_pos; lia|].
  apply Forall_singleton. unfold is_dec_digit. pose proof (Z.rem_bound_pos v 10 Hv ltac:(lia)). by rewrite (proj2 (Z.leb_le 48 _)), (proj2 (Z.leb_le _ 57)) by lia.
Qed.

Lemma score_number_ok d : is_score d -> number_ok (format_fixed4 d) = true.
Proof.
  intros Hd. destruct (score_text d Hd) as (q & Hq & ->). apply (number_ok_intro false [48 + q / 10000] ([46] ++ pad_digits 4 (q mod 10000))).
  - apply Forall_singleton. unfold is_dec_digit. assert (0 <= q / 10000 <= 1) by (split; [apply Z.div_pos; lia|apply Z.div_le_upper_bound; lia]).
    by rewrite (proj2 (Z.leb_le 48 _)), (proj2 (Z.leb_le _ 57)) by lia.
  - done.
  - by left.
  - right. eexists. split; [reflexivity|]. pose proof (Z.mod_pos_bound q 10000 ltac:(lia)). split; [|by apply pad_digits_digits; lia].
    intros E. pose proof (length_pad_digits 4 (q mod 10000)) as Hl. by rewrite E in Hl.
Qed.

(** ** Lemmas: what is written reads back *)

Fixpoint jsize (v : jvalue) : nat :=
  match v with
  | JvArray items => S (list_sum (map (fun v => S (jsize v)) items))
  | JvObject members => S (list_sum (map (fun '(_, v) => S (jsize v)) members))
  | _ => 1
  end.

(** Strings of bytes and numbers of the grammar. *)
Fixpoint jv_ok (v : jvalue) : Prop :=
  match v with
  | JvNull | JvBool _ => True
  | JvNumber text => number_ok text = true
  | JvString s => Forall byte_ok s
  | JvArray items => foldr and True (map jv_ok items)
  | JvObject members => foldr and True (map (fun '(key, v) => Forall byte_ok key /\ jv_ok v) members)
  end.

Definition delimited (rest : bytes) : Prop := match rest with [] => True | c :: _ => number_char c = false end.

Lemma json_text_head v : jv_ok v -> exists c t, json_text v = c :: t /\ c <> 93 /\ c <> 125 /\ c <> 44.
Proof.
  destruct v as [|[]|text|s|items|members]; intros Hok; try (eexists _, _; by split_and!).
  apply number_ok_chars in Hok as (_ & c & t & -> & Hc). exists c, t. split_and!; [done|lia..].
Qed.

Lemma expect_other a p c t : a <> c -> expect (a :: p) (c :: t) = None.
Proof. intros Hne. unfold expect. cbn [strip_prefix]. by rewrite (proj2 (Z.eqb_neq a c)). Qed.

Lemma expect_head a s : expect [a] (a :: s) = Some s.
Proof. unfold expect. cbn [strip_prefix]. by rewrite Z.eqb_refl. Qed.

Lemma read_number n text rest :
  number_ok text = true -> delimited rest -> read_value (S n) (text ++ rest) = Some (JvNumber text, rest).
Proof.
  intros Hok Hrest. pose proof (number_ok_chars text Hok) as (Hall & c & t & E & Hc). rewrite E. cbn [app read_value].
  rewrite !(proj2 (Z.eqb_neq c _)) by lia.
  rewrite (expect_other 110 (bs "ull")), (expect_other 116 (bs "rue")), (expect_other 102 (bs "alse")) by lia.
  change (c :: t ++ rest) with ((c :: t) ++ rest). rewrite <- E.
  rewrite take_while_app, drop_while_app by done.
  assert (take_while number_char rest = [] /\ drop_while number_char rest = rest) as [-> ->].
  { destruct rest as [|d rest]; [done|]. cbn in Hrest |- *. by rewrite Hrest. }
  by rewrite app_nil_r, Hok.
Qed.

Lemma comma_separated_cons t l : l <> [] -> comma_separated (t :: l) = t ++ 44 :: comma_separated l.
Proof. by destruct l. Qed.

(** The text of a string after its opening quote. *)
Lemma read_string s rest : Forall byte_ok s -> json_string (rendering Json s ++ 34 :: rest) = Some (s, rest).
Proof.
  unfold rendering. cbn [chunks]. induction 1 as [|c l Hc _ IH]; [done|]. cbn [map concat]. by rewrite <- app_assoc, json_string_chunk, IH.
Qed.

Definition member_text (m : bytes * jvalue) : bytes := let '(key, v) := m in string_text key ++ [58] ++ json_text v.

Lemma member_text_app key v rest :
  member_text (key, v) ++ rest = 34 :: rendering Json key ++ 34 :: 58 :: json_text v ++ rest.
Proof. unfold member_text, string_text. cbn [app]. rewrite <- !app_assoc. done. Qed.

(** One element and the rest of the list, for items and for members. *)
Lemma read_back n :
  (forall v rest, (jsize v <= n)%nat -> jv_ok v -> delimited rest -> read_value n (json_text v ++ rest) = Some (v, rest)) /\
  (forall l rest, l <> [] -> (list_sum (map (fun v => S (jsize v)) l) <= n)%nat -> foldr and True (map jv_ok l) ->
     read_items n (comma_separated (map json_text l) ++ 93 :: rest) = Some (l, rest)) /\
  (forall l rest, l <> [] -> (list_sum (map (fun '(_, v) => S (jsize v)) l) <= n)%nat -> foldr and True (map (fun '(key, v) => Forall byte_ok key /\ jv_ok v) l) ->
     read_members n (comma_separated (map member_text l) ++ 125 :: rest) = Some (l, rest)).
Proof.
  induction n as [|n (IHv & IHi & IHm)].
  { split_and!; [intros v rest Hn; destruct v; cbn in Hn; lia| |].
    - intros [|v l] rest; [done|]. cbn. lia.
    - intros [|[key v] l] rest; [done|]. cbn. lia. }
  split_and!.
  - intros v rest Hn Hok Hrest. destruct v as [|[]|text|s|items|members]; try reflexivity.
    + by apply read_number.
    + cbn [json_text]. unfold string_text. rewrite <- !app_assoc. cbn [app read_value Z.eqb Pos.eqb]. by rewrite read_string.
    + cbn [json_text]. rewrite <- !app_assoc. cbn [app read_value Z.eqb Pos.eqb]. destruct items as [|v items]; [done|].
      assert (expect [93] (comma_separated (map json_text (v :: items)) ++ 93 :: rest) = None) as ->.
      { destruct Hok as [Hv _]. destruct (json_text_head v Hv) as (c & t & E & H93 & _). destruct items as [|v' items]; cbn [map comma_separated]; rewrite E; by apply expect_other. }
      cbn [jsize] in Hn. rewrite IHi; [done|done|lia|done].
    + cbn [json_text]. rewrite <- !app_assoc. cbn [app read_value Z.eqb Pos.eqb]. destruct members as [|[key v] members]; [done|].
      change (map _ ((key, v) :: members)) with (map member_text ((key, v) :: members)).
      assert (expect [125] (comma_separated (map member_text ((key, v) :: members)) ++ 125 :: rest) = None) as ->.
      { destruct members as [|m members]; cbn [map comma_separated]; rewrite <- ?app_assoc, member_text_app; by apply expect_other. }
      cbn [jsize] in Hn. rewrite IHm; [done|done|lia|done].
  - intros [|v l] rest Hne Hn Hok; [done|]. destruct Hok as [Hv Hl]. cbn [map list_sum foldr] in Hn. cbn [read_items]. destruct l as [|v' l].
    + cbn [map comma_separated]. rewrite IHv; [done|cbn in Hn; lia|done|done].
    + cbn [map]. rewrite comma_separated_cons by done. rewrite <- app_assoc. cbn [app]. rewrite IHv; [|cbn in Hn; lia|done|done].
      rewrite expect_head. change (json_text v' :: map json_text l) with (map json_text (v' :: l)). rewrite IHi; [done|done|cbn in Hn |- *; lia|done].
  - intros [|[key v] l] rest Hne Hn Hok; [done|]. destruct Hok as [[Hk Hv] Hl]. cbn [map list_sum foldr] in Hn. cbn [read_members].
    assert (Hkey : forall s, expect [34] (member_text (key, v) ++ s) ≫= json_string = Some (key, 58 :: json_text v ++ s)).
    { intros s. rewrite member_text_app, expect_head. cbn [mbind option_bind]. by rewrite read_string. }
    destruct l as [|m l].
    + cbn [map comma_separated]. rewrite Hkey, expect_head. cbn [mbind option_bind]. rewrite IHv; [done|cbn in Hn; lia|done|done].
    + cbn [map]. rewrite comma_separated_cons by done. rewrite <- app_assoc, Hkey, expect_head. cbn [mbind option_bind app].
      rewrite IHv; [|destruct m; cbn in Hn; lia|done|done]. rewrite expect_head.
      change (member_text m :: map member_text l) with (map member_text (m :: l)). rewrite IHm; [done|done|destruct m; cbn in Hn |- *; lia|done].
Qed.

Lemma comma_separated_length {A} (f : A -> bytes) (g : A -> nat) l :
  (forall x, x ∈ l -> (g x <= length (f x))%nat) -> (list_sum (map (fun x => S (g x)) l) <= S (length (comma_separated (map f l))))%nat.
Proof.
  induction l as [|x l IH]; intros Hl; [cbn; lia|]. assert (g x <= length (f x))%nat by (apply Hl; by left).
  specialize (IH ltac:(intros y Hy; apply Hl; by right)). destruct l as [|y l]; cbn [map comma_separated list_sum foldr] in *; [lia|].
  rewrite !length_app. cbn [length] in *. lia.
Qed.

(** Induction on values through the nested lists. *)
Lemma jvalue_nested_ind (P : jvalue -> Prop) :
  P JvNull -> (forall b, P (JvBool b)) -> (forall text, P (JvNumber text)) -> (forall s, P (JvString s)) ->
  (forall items, Forall P items -> P (JvArray items)) -> (forall members, Forall (fun m => P m.2) members -> P (JvObject members)) ->
  forall v, P v.
Proof.
  intros Hn Hb Ht Hs Ha Ho. fix IH 1. intros [|b|text|s|items|members]; [exact Hn|apply Hb|apply Ht|apply Hs| |].
  - apply Ha. induction items as [|v items IHl]; constructor; [apply IH|exact IHl].
  - apply Ho. induction members as [|[key v] members IHl]; constructor; [apply IH|exact IHl].
Qed.

Lemma json_text_length v : jv_ok v -> (jsize v <= length (json_text v))%nat.
Proof.
  induction v as [|b|text|s|items IH|members IH] using jvalue_nested_ind; intros Hok.
  - vm_compute. lia.
  - destruct b; vm_compute; lia.
  - apply number_ok_chars in Hok as (_ & c & t & E & _). cbn [jsize json_text]. rewrite E. cbn. lia.
  - cbn. lia.
  - cbn [jsize json_text]. rewrite length_app. cbn [length]. rewrite length_app. cbn [length].
    pose proof (comma_separated_length json_text jsize items) as Hc. enough (forall v, v ∈ items -> (jsize v <= length (json_text v))%nat) as Hv by (specialize (Hc Hv); lia).
    clear Hc. induction IH as [|v items Hv _ IHl]; [by intros v ?%elem_of_nil|]. cbn [map foldr jv_ok] in Hok. destruct Hok as [H1 H2].
    intros w [->|Hw]%elem_of_cons; [by apply Hv|]. by apply (IHl H2).
  - cbn [jsize json_text]. change (map _ members) with (map member_text members) at 2. rewrite length_app. cbn [length]. rewrite length_app. cbn [length].
    pose proof (comma_separated_length member_text (fun m => jsize m.2) members) as Hc.
    assert (Hm : forall m, m ∈ members -> (jsize m.2 <= length (member_text m))%nat).
    { clear Hc. induction IH as [|[key v] members Hv _ IHl]; [by intros v ?%elem_of_nil|]. cbn [map foldr jv_ok] in Hok. destruct Hok as [[_ H1] H2].
      intros w [->|Hw]%elem_of_cons; [|by apply (IHl H2)]. unfold member_text. rewrite !length_app. cbn [snd] in *. specialize (Hv H1). cbn [length]. lia. }
    specialize (Hc Hm). rewrite (map_ext (fun '(_, v) => S (jsize v)) (fun m => S (jsize m.2))) by by intros []. lia.
Qed.

Lemma json_read_text v : jv_ok v -> json_read (json_text v) = Some v.
Proof.
  intros Hok. unfold json_read. destruct (read_back (S (length (json_text v)))) as [Hr _]. specialize (Hr v []). rewrite app_nil_r in Hr.
  rewrite Hr; [done| |done|done]. pose proof (json_text_length v Hok). lia.
Qed.

(** *** Where a text is UTF-8 *)

Lemma separates_string s : Forall byte_ok s -> separates (string_text s) (utf8_text s).
Proof. intros Hs. eapply separates_iff; [apply separates_between; unfold ascii; lia|by apply escape_json_utf8]. Qed.

Lemma separates_commas {A} (f : A -> bytes) (P : A -> Prop) l :
  l <> [] -> Forall (fun x => separates (f x) (P x)) l -> separates (comma_separated (map f l)) (Forall P l).
Proof.
  intros Hne Hl. induction Hl as [|x l Hx Hl IH]; [done|]. destruct l as [|y l].
  - eapply separates_iff; [exact Hx|]. by rewrite Forall_singleton.
  - specialize (IH ltac:(done)). rewrite Forall_cons. cbn [map comma_separated]. apply separates_app; [done|].
    eapply separates_iff; [apply (separates_app [44] _ True); [by apply separates_char|exact IH]|tauto].
Qed.

(** A bracketed list of texts. *)
Lemma separates_bracketed {A} c d (f : A -> bytes) (P : A -> Prop) l :
  ascii c -> ascii d -> Forall (fun x => separates (f x) (P x)) l -> separates ([c] ++ comma_separated (map f l) ++ [d]) (Forall P l).
Proof.
  intros Hc Hd Hl. destruct l as [|x l].
  - cbn [map comma_separated app]. eapply separates_iff; [apply (separates_app [c] [d] True True); by apply separates_char|]. rewrite Forall_nil. tauto.
  - eapply separates_iff; [apply (separates_app [c] _ True); [by apply separates_char|apply separates_app; [by apply separates_commas|by apply separates_char]]|tauto].
Qed.

Lemma number_char_ascii c : number_char c = true -> ascii c.
Proof.
  unfold number_char, is_dec_digit, ascii. intros H. apply orb_prop in H as [H|H]; [zbool|].
  apply existsb_exists in H as (x & Hx & ->%Z.eqb_eq). vm_compute in Hx. lia.
Qed.

Lemma plain_word_separates (w : string) : forallb (fun c => (0 <=? c) && (c <? 128)) (bs w) = true -> bs w <> [] -> separates (bs w) True.
Proof.
  intros Hw Hne. apply separates_ascii; [done|]. rewrite forallb_forall in Hw. apply Forall_forall. intros c Hc. specialize (Hw c ltac:(by apply list_elem_of_In)).
  unfold ascii. zbool.
Qed.

Lemma json_text_separates v : jv_ok v -> separates (json_text v) (Forall utf8_text (jv_strings v)).
Proof.
  assert (Hplain : forall t, separates t True -> separates t (Forall utf8_text [])) by (intros t Ht; eapply separates_iff; [exact Ht|by rewrite Forall_nil]).
  induction v as [|b|text|s|items IH|members IH] using jvalue_nested_ind; intros Hok; cbn [json_text jv_strings].
  - apply Hplain. by apply plain_word_separates.
  - apply Hplain. destruct b; by apply plain_word_separates.
  - apply Hplain. apply number_ok_chars in Hok as (Hall & c & t & -> & _). apply separates_ascii; [done|]. eapply Forall_impl; [exact Hall|]. apply number_char_ascii.
  - eapply separates_iff; [by apply separates_string|]. by rewrite Forall_singleton.
  - eapply separates_iff; [apply (separates_bracketed 91 93 json_text (fun v => Forall utf8_text (jv_strings v))); [by unfold ascii..|]|].
    + induction IH as [|v items Hv _ IHl]; [constructor|]. cbn [jv_ok map foldr] in Hok. destruct Hok as [? ?]. constructor; [by apply Hv|by apply IHl].
    + clear. induction items as [|v items IH]; [by rewrite !Forall_nil|]. cbn [map concat]. by rewrite Forall_cons, Forall_app, IH.
  - eapply separates_iff; [apply (separates_bracketed 123 125 (fun '(key, v) => string_text key ++ [58] ++ json_text v) (fun m => Forall utf8_text (m.1 :: jv_strings m.2))); [by unfold ascii..|]|].
    + induction IH as [|[key v] members Hv _ IHl]; [constructor|]. cbn [jv_ok map foldr] in Hok. destruct Hok as [[? ?] ?]. constructor; [|by apply IHl].
      cbn [fst snd] in *. eapply separates_iff; [apply separates_app; [by apply separates_string|apply (separates_app [58] _ True); [by apply separates_char|by apply Hv]]|].
      rewrite Forall_cons. tauto.
    + clear. induction members as [|[key v] members IH]; [by rewrite !Forall_nil|]. cbn [map concat fst snd]. by rewrite Forall_cons, Forall_app, IH.
Qed.


(** ** Lemmas: the writers write the texts of the values *)

Definition plain (key : string) : Prop := rendering Json (bs key) = bs key.

Definition comma_text (comma : bool) : bytes := if comma then [44] else [].

Lemma writes_comma comma : writes (comma_text comma) (comma_if comma).
Proof. apply writes_write_if, writes_lit. Qed.

Lemma writes_key key : plain key -> writes (string_text (bs key) ++ [58]) (append_json_key key).
Proof.
  intros Hk. unfold string_text. rewrite Hk. unfold append_json_key. eapply writes_eq; [eauto with report|]. rewrite <- !app_assoc. reflexivity.
Qed.

Lemma writes_field key v comma w :
  plain key -> writes (json_text v) w -> writes (member_text (bs key, v) ++ comma_text comma) (append_json_key key &&> w &&> comma_if comma).
Proof.
  intros Hk Hw. eapply writes_eq; [eauto using writes_key, writes_comma, writes_and_then|]. unfold member_text. by rewrite <- !app_assoc.
Qed.

Lemma writes_int_field key v comma : plain key -> writes (member_text (bs key, jv_int v) ++ comma_text comma) (append_json_int_field key v comma).
Proof. intros Hk. apply writes_field; [done|apply writes_int]. Qed.

Lemma writes_bool_field key v comma : plain key -> writes (member_text (bs key, JvBool v) ++ comma_text comma) (append_json_bool_field key v comma).
Proof. intros Hk. apply writes_field; [done|apply writes_lit]. Qed.

Lemma writes_string_or_null key s comma : plain key -> writes (member_text (bs key, jv_string_or_null s) ++ comma_text comma) (append_json_string_col key s comma).
Proof. intros Hk. apply writes_field; [done|]. destruct s as [s|]; [|apply writes_lit]. cbn [jv_string_or_null json_text]. unfold string_text. eauto with report. Qed.

Lemma writes_string_col key s comma : plain key -> writes (member_text (bs key, JvString s) ++ comma_text comma) (append_json_string_col key (Some s) comma).
Proof. intros Hk. by apply (writes_string_or_null key (Some s)). Qed.

Lemma writes_score_col key d comma :
  plain key -> (forall v, d = Some v -> is_score v) ->
  writes (member_text (bs key, match d with Some v => JvNumber (format_fixed4 v) | None => JvNull end) ++ comma_text comma) (append_json_double_or_null_col key d comma).
Proof. intros Hk Hd. apply writes_field; [done|]. destruct d as [v|]; [|apply writes_lit]. apply writes_double, score_fits. by apply Hd. Qed.

#[local] Hint Resolve writes_comma writes_int_field writes_bool_field writes_string_or_null writes_string_col : report.
#[local] Hint Extern 1 (plain _) => reflexivity : report.
#[local] Hint Constants Opaque : report.

Lemma object_text members : json_text (JvObject members) = [123] ++ comma_separated (map member_text members) ++ [125].
Proof. reflexivity. Qed.

(** Both sides as one list of pieces. *)
Ltac flatten := unfold comma_text; repeat (rewrite <- ?app_assoc; cbn [app map comma_separated]).

Lemma writes_scan_object id s : id = scan_id s.1 -> writes (member_text (bs "scan", scan_value s)) (scan_object id s).
Proof.
  intros ->. unfold scan_object. eapply writes_eq; [eauto 40 with report|].
  change (tpl "`scan`:{") with (string_text (bs "scan") ++ [58; 123]). unfold member_text at 10, scan_value. rewrite object_text. flatten. reflexivity.
Qed.

Lemma writes_summary_object fs n :
  json_counts n = counts_of fs -> confirmed_count n = count (is_status "confirmed") fs ->
  writes (member_text (bs "summary", summary_value fs)) (render_summary_object n).
Proof.
  intros Hn Hc. unfold render_summary_object. cbn [write_each foldr]. rewrite Hn, Hc. cbn [counts_of severity_counts kev_count undetermined_count not_affected_count map nth Nat.ltb Nat.leb].
  eapply writes_eq; [eauto 40 with report|].
  change (tpl "`summary`:{`severity_counts`:{") with (string_text (bs "summary") ++ [58; 123] ++ string_text (bs "severity_counts") ++ [58; 123]).
  change (bs "},") with [125; 44]. unfold summary_value. unfold member_text at 10. rewrite object_text. cbn [map comma_separated]. unfold member_text at 10. rewrite object_text. flatten. reflexivity.
Qed.

Lemma writes_finding_object (first : bool) f :
  result_checks f.1 -> writes ((if first then [] else [44]) ++ json_text (finding_value f)) (finding_object first f).
Proof.
  destruct f as [r detected_at]. cbn [fst]. intros (Hp & Hs & Hk & He). unfold finding_object.
  rewrite (column_int_id (res_port r)), (column_int_id (res_severity r)), (column_int_id (res_kev_flag r)) by lia.
  replace (negb (res_kev_flag r =? 0)) with (res_kev_flag r =? 1) by (destruct Hk as [-> | ->]; done).
  assert (Hscore : forall v, res_epss_score r = Some v -> is_score v) by (intros v E; by rewrite E in He).
  pose proof (writes_score_col "epss_score" (res_epss_score r) true ltac:(reflexivity) Hscore) as Hepss.
  eapply writes_eq; [eauto 50 with report|]. unfold finding_value. rewrite object_text. flatten. by destruct first.
Qed.

(** ** Lemmas: the whole document *)

(** The elements of the array, with a comma before each but the first. *)
Fixpoint items_text (first : bool) (fs : list stored_finding) : bytes :=
  match fs with
  | [] => []
  | f :: fs => ((if first then [] else [44]) ++ json_text (finding_value f)) ++ items_text false fs
  end.

Lemma items_text_later t fs : t ++ items_text false fs = comma_separated (t :: map (fun f => json_text (finding_value f)) fs).
Proof.
  revert t; induction fs as [|f fs IH]; intros t; [apply app_nil_r|]. cbn [items_text map]. rewrite comma_separated_cons by done. rewrite <- IH.
  by rewrite <- !app_assoc.
Qed.

Lemma items_text_array fs : items_text true fs = comma_separated (map json_text (map finding_value fs)).
Proof. rewrite map_map. destruct fs as [|f fs]; [done|]. cbn [items_text app map]. by rewrite items_text_later. Qed.

Lemma confirmed_sum fs :
  (forall f, f ∈ fs -> 0 <= res_severity f.1 <= 4) -> foldl Z.add 0 (severity_counts (counts_of fs)) = count (is_status "confirmed") fs.
Proof.
  intros Hfs. unfold counts_of, count. cbn [severity_counts map foldl]. induction fs as [|f fs IH]; [done|].
  specialize (IH ltac:(intros g Hg; apply Hfs; by right)). cbn [List.filter]. destruct (is_status "confirmed" f); cbn [andb]; [|done].
  assert (Hs : 0 <= res_severity f.1 <= 4) by (apply Hfs; by left). set (s := res_severity f.1) in *.
  destruct (decide (s = 0)) as [->|]; [cbn [Z.eqb Pos.eqb length]; lia|]. destruct (decide (s = 1)) as [->|]; [cbn [Z.eqb Pos.eqb length]; lia|].
  destruct (decide (s = 2)) as [->|]; [cbn [Z.eqb Pos.eqb length]; lia|]. destruct (decide (s = 3)) as [->|]; [cbn [Z.eqb Pos.eqb length]; lia|].
  assert (s = 4) as -> by lia. cbn [Z.eqb Pos.eqb length]. lia.
Qed.

Lemma report_text s fs :
  json_text (report_value s fs) =
  [123] ++ member_text (bs "scan", scan_value s) ++ [44] ++ member_text (bs "summary", summary_value fs) ++ [44] ++ tpl "`findings`:[" ++ items_text true fs ++ [93] ++ [125].
Proof.
  unfold report_value. rewrite object_text. cbn [map comma_separated]. unfold member_text at 3. cbn [json_text].
  change (tpl "`findings`:[") with (string_text (bs "findings") ++ [58; 91]). rewrite items_text_array. flatten. reflexivity.
Qed.

(** *** What the columns of a well-formed row hold *)

Definition int64 (z : Z) : Prop := - 2 ^ 63 <= z < 2 ^ 63.

Definition scan_columns_ok (s : scan_entry) : Prop :=
  int64 (scan_id s.1) /\ int64 (scan_malformed_data_count s.1) /\
  Forall (Forall byte_ok) [started_at s.2; default [] (finished_at s.2); scan_target_spec s.1; scan_authorized_by s.1; authorization_confirmed_at s.2;
                           scan_authorization_method s.1; scan_status s.1].

Definition finding_columns_ok (f : stored_finding) : Prop :=
  result_checks f.1 /\
  Forall (Forall byte_ok) [res_host f.1; default [] (res_service f.1); res_plugin_id f.1; default [] (res_cve_id f.1); res_evidence f.1;
                           default [] (res_remediation f.1); f.2; res_match_status f.1].

Lemma jv_int_ok z : int64 z -> jv_ok (jv_int z).
Proof. unfold int64. intros Hz. apply int_number_ok. lia. Qed.

Lemma jv_string_or_null_ok s : Forall byte_ok (default [] s) -> jv_ok (jv_string_or_null s).
Proof. by destruct s. Qed.

Lemma plain_key_ok key : forallb (fun c => (0 <=? c) && (c <=? 255)) (bs key) = true -> Forall byte_ok (bs key).
Proof. intros Hk. rewrite forallb_forall in Hk. apply Forall_forall. intros c Hc. specialize (Hk c ltac:(by apply list_elem_of_In)). unfold byte_ok. zbool. Qed.

#[local] Hint Resolve jv_int_ok jv_string_or_null_ok : jv.
#[local] Hint Extern 1 (Forall byte_ok (bs _)) => apply plain_key_ok; reflexivity : jv.

Lemma scan_value_ok s : scan_columns_ok s -> jv_ok (scan_value s).
Proof.
  intros (Hi & Hm & Hb). repeat (apply Forall_cons in Hb as [? Hb]). unfold scan_value. cbn [jv_ok map foldr].
  split_and!; auto with jv.
Qed.

Lemma count_int64 P (fs : list stored_finding) : Z.of_nat (length fs) < 2 ^ 63 -> int64 (count P fs).
Proof. intros Hn. unfold int64, count. pose proof (List.filter_length_le P fs). lia. Qed.

Lemma finding_value_ok f : finding_columns_ok f -> jv_ok (finding_value f).
Proof.
  destruct f as [r detected_at]. intros [(Hp & Hs & Hk & He) Hb]. cbn [fst snd] in *. repeat (apply Forall_cons in Hb as [? Hb]).
  assert (Hscore : jv_ok (match res_epss_score r with Some v => JvNumber (format_fixed4 v) | None => JvNull end)) by (destruct (res_epss_score r); [by apply score_number_ok|done]).
  unfold finding_value. assert (int64 (res_port r) /\ int64 (res_severity r)) as [? ?] by (unfold int64; lia). cbn [jv_ok map foldr] in *. split_and!; auto with jv.
Qed.

Lemma summary_value_ok fs : Z.of_nat (length fs) < 2 ^ 63 -> jv_ok (summary_value fs).
Proof.
  intros Hn. assert (Hc : forall P, jv_ok (jv_int (count P fs))) by (intros P; by apply jv_int_ok, count_int64).
  unfold summary_value, confirmed_with. cbn [jv_ok map foldr]. split_and!; auto with jv.
Qed.

Lemma report_value_ok s fs : scan_columns_ok s -> Z.of_nat (length fs) < 2 ^ 63 -> Forall finding_columns_ok fs -> jv_ok (report_value s fs).
Proof.
  intros Hs Hn Hf. unfold report_value. cbn [jv_ok map foldr]. split_and!; auto with jv; [by apply scan_value_ok|by apply summary_value_ok|].
  induction Hf as [|f fs Hf _ IH]; [done|]. cbn [map foldr]. split; [by apply finding_value_ok|]. apply IH. cbn in Hn. lia.
Qed.

Section Document.
Context {C : Type} `{SqliteLaws C}.
Variable view : database -> report_view.
Variable order_findings : list stored_finding -> list stored_finding.

Lemma findings_loop_spec st0 full rows : forall first (c : C) st written,
  in_tx c = false -> Forall (fun f => result_checks f.1) rows -> progress st0 full written st -> written ++ items_text first rows `prefix_of` full ->
  let '(r, ok, c', st') := findings_loop rows first true c st in
  same_conn c c' /\ (r = REPORT_OK /\ ok = true /\ progress st0 full (written ++ items_text first rows) st' \/ stopped st0 full r st').
Proof.
  induction rows as [|f rows IH]; intros first c st written Ht Hr Hp Hfull; cbn [findings_loop items_text]; destruct (sql_read c) as [[] c1] eqn:E1;
    pose proof (idle_read _ _ _ Ht E1) as Hc1; cbn [negb]; try (split; [done|]; right; split; [by eapply progress_balanced|by left]).
  { split; [done|]. left. by rewrite app_nil_r. }
  apply Forall_cons in Hr as [Hf Hr]. cbn [items_text] in Hfull. pose proof (writes_finding_object first f Hf) as Hw. set (t := (if first then [] else [44]) ++ json_text (finding_value f)) in *.
  rewrite app_assoc in Hfull |- *. destruct (finding_object first f st) as [ok st1] eqn:E2.
  pose proof (progress_step st0 full written st t _ ok st1 Hp Hw ltac:(by eapply prefix_app_l) E2) as Hstep. destruct ok; cbn [negb].
  - specialize (IH false c1 st1 (written ++ t) ltac:(by eapply same_conn_idle) Hr Hstep Hfull). destruct (findings_loop rows false true c1 st1) as [[[r ok'] c'] st'].
    destruct IH as [Hc' IH]. split; [by eapply same_conn_trans|done].
  - split; [done|]. right. destruct Hstep as [? ?]. split; [done|by right].
Qed.

(** A loop that starts after a failure ends the render. *)
Lemma findings_loop_failed rows first (c : C) st :
  in_tx c = false -> let '(r, ok, c', st') := findings_loop rows first false c st in
  same_conn c c' /\ st' = st /\ ok = false /\ (r = REPORT_OK \/ r = REPORT_ERR_DB \/ r = REPORT_ERR_OOM).
Proof.
  intros Ht. destruct rows as [|f rows]; cbn [findings_loop]; destruct (sql_read c) as [[] c1] eqn:E1; pose proof (idle_read _ _ _ Ht E1); cbn [negb]; split_and!; auto.
Qed.

Lemma findings_array_spec id st0 full (c : C) st written :
  let fs := order_findings (scan_findings view (current c) id) in
  let t := tpl "`findings`:[" ++ items_text true fs ++ [93] in
  in_tx c = false -> Forall (fun f => result_checks f.1) fs -> progress st0 full written st -> written ++ t `prefix_of` full ->
  let '(r, c', st') := render_findings_array view order_findings id c st in
  same_conn c c' /\ (r = REPORT_OK /\ progress st0 full (written ++ t) st' \/ stopped st0 full r st').
Proof.
  intros fs t Ht Hr Hp Hfull. unfold render_findings_array. destruct (sql_prepare c) as [[] c1] eqn:E1; pose proof (idle_prepare _ _ _ Ht E1) as Hc1; cbn [negb].
  2: { split; [done|]. right. split; [by eapply progress_balanced|by left]. }
  assert (current c1 = current c) as -> by apply Hc1. fold fs. assert (Ht1 : in_tx c1 = false) by by eapply same_conn_idle.
  unfold t in Hfull |- *. rewrite !app_assoc in Hfull |- *.
  destruct (lit (tpl "`findings`:[") st) as [ok st1] eqn:E2.
  pose proof (progress_step st0 full written st _ _ ok st1 Hp (writes_lit _) ltac:(do 2 eapply prefix_app_l; done) E2) as Hp1. destruct ok.
  2: { pose proof (findings_loop_failed fs true c1 st1 Ht1) as Hl. destruct (findings_loop fs true false c1 st1) as [[[r ok] c2] st2]. destruct Hl as (Hc2 & -> & -> & Hr2).
    destruct Hp1 as [Hb Hs]. destruct (bool_decide (r = REPORT_OK)) eqn:Er; cbn [negb]; (split; [by eapply same_conn_trans|]); right; (split; [done|]).
    - by right.
    - apply bool_decide_eq_false in Er. destruct Hr2 as [?|[->| ->]]; [done|by left|by right]. }
  pose proof (findings_loop_spec st0 full fs true c1 st1 _ Ht1 Hr Hp1 ltac:(eapply prefix_app_l; done)) as Hl.
  destruct (findings_loop fs true true c1 st1) as [[[r ok] c2] st2]. destruct Hl as [Hc2 Hl]. pose proof (same_conn_trans _ _ _ Hc1 Hc2) as Hc02.
  destruct Hl as [(-> & -> & Hp2)|Hstop].
  - rewrite bool_decide_true by done. cbn [negb]. destruct (lit (bs "]") st2) as [ok st3] eqn:E3.
    pose proof (progress_step st0 full _ st2 [93] _ ok st3 Hp2 (writes_lit _) Hfull E3) as Hp3. split; [done|]. destruct ok; [by left|]. right. destruct Hp3. split; [done|by right].
  - destruct (bool_decide (r = REPORT_OK)) eqn:Er; [|by split; [done|right]]. apply bool_decide_eq_true in Er as ->. by destruct Hstop as [_ [?|[? _]]].
Qed.

(** The three ways a render of the scan [s] ends. *)
Definition render_ends (st0 : sink) (full : bytes) (r : report_status) (st : sink) : Prop :=
  r = REPORT_OK /\ progress st0 full full st \/ stopped st0 full r st.

Lemma stop_oom st0 full st : balanced st0 st /\ starved st0 full -> render_ends st0 full REPORT_ERR_OOM st.
Proof. intros [? ?]. right. split; [done|by right]. Qed.

Lemma report_json_renders id (c : C) st0 s :
  let fs := order_findings (scan_findings view (current c) id) in
  0 < id -> in_tx c = false -> buf_ok (fst st0) -> find_scan view (current c) id = Some s ->
  Permutation fs (scan_findings view (current c) id) -> Forall (fun f => result_checks f.1) fs ->
  let '(r, c', st') := report_json view order_findings id c st0 in
  same_conn c c' /\ render_ends st0 (json_text (report_value s fs)) r st'.
Proof.
  intros fs Hid Ht Hok Hs Hperm Hr. set (full := json_text (report_value s fs)). unfold report_json. destruct (Z.leb_spec id 0); [lia|].
  assert (Hfull : full = _) by apply report_text. rewrite !app_assoc in Hfull.
  assert (Hpre : forall a b, full = a ++ b -> a `prefix_of` full) by (intros a b ->; by exists b).
  pose proof (progress_start st0 full Hok) as Hp. destruct (lit (bs "{") st0) as [ok st1] eqn:E1.
  apply (progress_step _ _ _ _ [123] _ _ _ Hp (writes_lit _)) in E1; [|rewrite Hfull; do 8 eapply prefix_app_r; done]. destruct ok; cbn [negb]; [|by split; [|apply stop_oom]]. clear Hp.
  unfold render_scan_object. destruct (select_scan view id c) as [[r s'] c1] eqn:Esel. apply select_scan_spec in Esel as [Hc1 Hsel]; [|done].
  rewrite Hs in Hsel. destruct r; try done.
  2: { by destruct Hsel. }
  2: { subst s'. cbn [bool_decide negb]. rewrite bool_decide_false by done. cbn [negb]. split; [done|]. right. split; [by eapply progress_balanced|by left]. }
  destruct Hsel as [<- _]. assert (Hid' : id = scan_id s.1) by (unfold find_scan in Hs; apply find_some in Hs as [_ Hs]; by apply Z.eqb_eq in Hs).
  destruct (scan_object id s st1) as [ok st2] eqn:E2. apply (progress_step _ _ _ _ _ _ _ _ E1 (writes_scan_object id s Hid')) in E2; [|rewrite Hfull; do 7 eapply prefix_app_r; done].
  destruct ok.
  2: { rewrite bool_decide_false by done. cbn [negb]. split; [done|by apply stop_oom]. }
  rewrite bool_decide_true by done. cbn [negb]. clear E1. destruct (lit (bs ",") st2) as [ok st3] eqn:E3.
  apply (progress_step _ _ _ _ [44] _ _ _ E2 (writes_lit _)) in E3; [|rewrite Hfull; do 6 eapply prefix_app_r; done]. destruct ok; cbn [negb]; [|by split; [|apply stop_oom]].
  unfold load_counts. destruct (load_report_counts view id c1) as [n c2] eqn:En. assert (Ht1 : in_tx c1 = false) by by eapply same_conn_idle.
  assert (Ec1 : current c1 = current c) by apply Hc1.
  assert (Hsev : forall f, f ∈ scan_findings view (current c) id -> 0 <= res_severity f.1 <= 4).
  { intros f Hf. rewrite Forall_forall in Hr. apply (Hr f). by rewrite Hperm. }
  apply load_report_counts_spec in En as [Hc2 Hn]; [|done|by rewrite Ec1]. pose proof (same_conn_trans _ _ _ Hc1 Hc2) as Hc02. rewrite Ec1 in Hn.
  destruct n as [n|]; [|split; [done|]; right; split; [by eapply progress_balanced|by left]].
  assert (Hcounts : n = counts_of fs).
  { rewrite (Hn n eq_refl). symmetry. by apply counts_of_permutation. }
  destruct (render_summary_object _ st3) as [ok st4] eqn:E4.
  apply (progress_step _ _ _ _ (member_text (bs "summary", summary_value fs)) _ _ _ E3) in E4;
    [|apply writes_summary_object; [done|cbn [confirmed_count]; rewrite Hcounts; apply confirmed_sum; intros f Hf; apply Hsev; by rewrite <- Hperm]|rewrite Hfull; do 5 eapply prefix_app_r; done].
  destruct ok; cbn [negb]; [|by split; [|apply stop_oom]]. destruct (lit (bs ",") st4) as [ok st5] eqn:E5.
  apply (progress_step _ _ _ _ [44] _ _ _ E4 (writes_lit _)) in E5; [|rewrite Hfull; do 4 eapply prefix_app_r; done]. destruct ok; cbn [negb]; [|by split; [|apply stop_oom]].
  assert (Ec2 : current c2 = current c) by apply Hc02. pose proof (fun w => findings_array_spec id st0 full c2 st5 w (same_conn_idle _ _ Hc02 Ht)) as Ha. rewrite Ec2 in Ha. fold fs in Ha.
  specialize (Ha _ Hr E5 ltac:(rewrite Hfull, !app_assoc; do 1 eapply prefix_app_r; done)).
  destruct (render_findings_array view order_findings id c2 st5) as [[r c3] st6]. destruct Ha as [Hc3 Ha]. pose proof (same_conn_trans _ _ _ Hc02 Hc3) as Hc03.
  destruct Ha as [(-> & Hp6)|Hstop].
  - rewrite bool_decide_true by done. cbn [negb]. destruct (lit (bs "}") st6) as [ok st7] eqn:E7. rewrite !app_assoc in Hp6.
    apply (progress_step _ _ _ _ [125] _ _ _ Hp6 (writes_lit _)) in E7; [|by rewrite Hfull]. split; [done|]. destruct ok; [|by apply stop_oom]. left. by rewrite Hfull in E7 |- *.
  - destruct (bool_decide (r = REPORT_OK)) eqn:Er; cbn [negb]; [|by split; [|right]]. apply bool_decide_eq_true in Er as ->. by destruct Hstop as [_ [?|[? _]]].
Qed.

(** Every other end of a render. *)
Lemma report_json_refuses id (c : C) st0 :
  in_tx c = false -> buf_ok (fst st0) -> id <= 0 \/ find_scan view (current c) id = None ->
  let '(r, c', st') := report_json view order_findings id c st0 in
  same_conn c c' /\ balanced st0 st' /\
  (r = REPORT_ERR_INVALID_ARG /\ id <= 0 \/ 0 < id /\ (r = REPORT_ERR_NOT_FOUND \/ r = REPORT_ERR_DB \/ r = REPORT_ERR_OOM /\ starved st0 (bs "{"))).
Proof.
  intros Ht Hok Hno. unfold report_json. destruct (Z.leb_spec id 0).
  { split_and!; [done..|by split|by left]. }
  destruct Hno as [|Hno]; [lia|]. pose proof (progress_start st0 (bs "{") Hok) as Hp. destruct (lit (bs "{") st0) as [ok st1] eqn:E1.
  apply (progress_step _ _ _ _ (bs "{") _ _ _ Hp (writes_lit _)) in E1; [|done]. destruct ok; cbn [negb].
  2: { destruct E1. split_and!; [done..|]. right. auto. }
  apply progress_balanced in E1. unfold render_scan_object. destruct (select_scan view id c) as [[r s] c1] eqn:Esel. apply select_scan_spec in Esel as [Hc1 Hsel]; [|done].
  destruct r; try done.
  - destruct Hsel as [Hf [x ->]]. congruence.
  - destruct Hsel as [_ ->]. rewrite bool_decide_false by done. cbn [negb]. split_and!; [done..|]. right. auto.
  - subst s. rewrite bool_decide_false by done. cbn [negb]. split_and!; [done..|]. right. auto.
Qed.

(** ** Theorem *)

End Document.

(** A scan with one finding whose evidence holds a quote, a newline and a
    control byte. *)
Definition example_result : result_row :=
  ResultRow 7 (bs "192.0.2.1") 443 None (bs "41") (Some (bs "CVE-2024-1234")) (bs "confirmed") 3 [34; 10; 1; 60] None 1 (Some (Dyadic 1 (-1))).

Definition example_scan : scan_row := ScanRow 7 (bs "192.0.2.0/24") (bs "ops") (bs "flag") (bs "completed") true 0.

Definition example_view (d : database) : report_view :=
  ReportView (map (fun s => (s, ScanTimes (bs "2026-01-01T00:00:00.000Z") None (bs "2026-01-01T00:00:00.000Z"))) (db_scans d))
    (map (fun r => (r, bs "2026-01-01T00:00:01.000Z")) (db_results d)).

Definition example_conn : toy_conn := ToyConn (Database ∅ [] ∅ ∅ [example_scan] [example_result] ∅ (Schema ∅ ∅ [])) None [].

Lemma example_columns_ok : Forall scan_columns_ok (view_scans (example_view (current example_conn))) /\ Forall finding_columns_ok (view_results (example_view (current example_conn))).
Proof.
  assert (Hb : forall l : list bytes, forallb (forallb (fun c => (0 <=? c) && (c <=? 255))) l = true -> Forall (Forall byte_ok) l).
  { intros l Hl. rewrite forallb_forall in Hl. apply Forall_forall. intros s Hs. apply list_elem_of_In in Hs. specialize (Hl s Hs). rewrite forallb_forall in Hl.
    apply Forall_forall. intros c Hc. apply list_elem_of_In in Hc. specialize (Hl c Hc). unfold byte_ok. zbool. }
  split; apply Forall_singleton.
  - split_and!; [unfold int64; cbn; lia..|]. apply Hb. vm_compute. reflexivity.
  - split; [unfold result_checks; cbn; repeat split; try lia; by right|]. apply Hb. vm_compute. reflexivity.
Qed.

Lemma ascii_texts l : forallb (forallb (fun c => (0 <=? c) && (c <? 128))) l = true -> Forall utf8_text l.
Proof.
  intros Hl. rewrite forallb_forall in Hl. apply Forall_forall. intros s Hs. specialize (Hl s ltac:(by apply list_elem_of_In)). rewrite forallb_forall in Hl.
  apply utf8_ascii, Forall_forall. intros c Hc. specialize (Hl c ltac:(by apply list_elem_of_In)). unfold ascii. zbool.
Qed.


(** A column that is not UTF-8 makes the document invalid: the escaper lets its
    bytes through. *)
Lemma report_json_not_utf8 : rendering Json [195; 40] = [195; 40] /\ ~ utf8_text (string_text [195; 40]).
Proof.
  split; [reflexivity|]. intros H. assert (Hb : Forall byte_ok (string_text [195; 40])) by (repeat (apply Forall_cons_2; [unfold byte_ok; lia|]); apply Forall_nil_2).
  apply (proj2 (validate_utf8_spec _ Hb)) in H. discriminate.
Qed.
