(* ===== verification/ReportCss.v ===== *)
(** * The style sheet of the HTML report

    The static CSS text of [src/src/report/report_html.c], chunk by chunk, in
    the template notation of [Report.tpl]. *)

From S2P Require Import Prelude Report.

Definition CSS_CHUNKS : list bytes :=
  [concat (map tpl
     [":root {|"%string;
      "  /* BRAND: Cytadel palette. --cytadel-primary/accent are derived from the|"%string;
      "     brand logo (assets/brand/cytadelredllogo.jpg -- red on black); swap in|"%string;
      "     official cytadel.eu hex here if it differs. */|"%string;
      "  --cytadel-primary: #0b0e14;|"%string;
      "  --cytadel-accent: #fb0202;|"%string;
      "  --cytadel-bg: #f5f7fa;|"%string;
      "  --cytadel-surface: #ffffff;|"%string;
      "  --cytadel-text: #1a1a1a;|"%string;
      "  --cytadel-muted: #5a6472;|"%string;
      "  --sev-critical: #b3001b;|"%string;
      "  --sev-high: #d9534f;|"%string;
      "  --sev-medium: #e0a100;|"%string;
      "  --sev-low: #4a90d9;|"%string;
      "  --sev-info: #7a7a7a;|"%string;
      "  --undetermined-color: #6a3fb5;|"%string;
      "  --warning-color: #c47f00;|"%string;
      "  /* END BRAND */|"%string;
      "}|"%string;
      "* { box-sizing: border-box; }|"%string;
      "body { font-family: 'Segoe UI', Arial, sans-serif; background: var(--cytadel-bg); "%string;
      "color: var(--cytadel-text); margin: 0; padding: 0; }|"%string;
      ".cover { background: var(--cytadel-primary); color: #fff; padding: 4rem 2rem; text-align: center; }|"%string;
      ".cover .brand { display: flex; flex-direction: column; align-items: center; gap: 0.75rem; }|"%string;
      ".cover .logo { width: 120px; height: 120px; border-radius: 50%; display: block; "%string;
      "box-shadow: 0 0 0 2px var(--cytadel-accent); }|"%string;
      ".cover .wordmark { font-size: 2.5rem; font-weight: 700; letter-spacing: 0.35em; "%string;
      "padding-left: 0.35em; color: var(--cytadel-accent); }|"%string;
      ".cover h1 { font-size: 1.5rem; letter-spacing: 0.2em; margin-top: 1rem; }|"%string;
      "table.meta { margin: 2rem auto; border-collapse: collapse; color: #fff; }|"%string;
      "table.meta th { text-align: right; padding: 0.25rem 1rem; color: var(--cytadel-accent); "%string;
      "font-weight: 600; }|"%string;
      "table.meta td { text-align: left; padding: 0.25rem 1rem; }|"%string]);
   concat (map tpl
     ["section.summary, section.findings { max-width: 960px; margin: 2rem auto; "%string;
      "background: var(--cytadel-surface); padding: 1.5rem 2rem; border-radius: 8px; }|"%string;
      ".data-quality-banner { background: var(--warning-color); color: #fff; padding: 0.75rem 1rem; "%string;
      "border-radius: 4px; margin-bottom: 1rem; font-weight: 600; }|"%string;
      "ul.severity-counts { list-style: none; display: flex; gap: 1rem; padding: 0; flex-wrap: wrap; }|"%string;
      "ul.severity-counts li { padding: 0.5rem 1rem; border-radius: 4px; color: #fff; font-weight: 600; }|"%string;
      ".sev-count-critical { background: var(--sev-critical); }|"%string;
      ".sev-count-high { background: var(--sev-high); }|"%string;
      ".sev-count-medium { background: var(--sev-medium); }|"%string;
      ".sev-count-low { background: var(--sev-low); }|"%string;
      ".sev-count-info { background: var(--sev-info); }|"%string;
      ".undetermined-count-line { color: var(--undetermined-color); font-weight: 600; }|"%string;
      ".host-block { border-top: 2px solid var(--cytadel-primary); padding-top: 1rem; margin-top: 1.5rem; }|"%string;
      ".host-clean { color: #2a7a2a; font-weight: 600; }|"%string;
      ".host-undetermined-only { color: var(--undetermined-color); font-weight: 600; }|"%string;
      ".port-block { margin: 1rem 0; padding-left: 1rem; border-left: 3px solid var(--cytadel-accent); }|"%string]);
   concat (map tpl
     [".finding { border: 1px solid #ddd; border-radius: 6px; padding: 0.75rem 1rem; margin: 0.5rem 0; }|"%string;
      ".finding.sev-4 { border-left: 6px solid var(--sev-critical); }|"%string;
      ".finding.sev-3 { border-left: 6px solid var(--sev-high); }|"%string;
      ".finding.sev-2 { border-left: 6px solid var(--sev-medium); }|"%string;
      ".finding.sev-1 { border-left: 6px solid var(--sev-low); }|"%string;
      ".finding.sev-0 { border-left: 6px solid var(--sev-info); }|"%string;
      ".finding.undetermined-finding { border-left: 6px solid var(--undetermined-color); background: #f8f5ff; }|"%string;
      ".badge { display: inline-block; padding: 0.1rem 0.5rem; border-radius: 3px; font-size: 0.8rem; "%string;
      "color: #fff; margin-left: 0.4rem; }|"%string;
      ".sev-badge { background: var(--cytadel-muted); }|"%string;
      ".kev-badge { background: var(--sev-critical); }|"%string;
      ".undetermined-badge { background: var(--undetermined-color); }|"%string;
      ".not-affected-count { color: var(--cytadel-muted); font-style: italic; }|"%string;
      "@media print {|"%string;
      "  body { background: #fff; }|"%string;
      "  .cover { page-break-after: always; background: #fff; color: var(--cytadel-primary); "%string;
      "border-bottom: 4px solid var(--cytadel-primary); }|"%string;
      "  table.meta th, table.meta td { color: var(--cytadel-primary); }|"%string;
      "  .finding, .host-block { page-break-inside: avoid; }|"%string;
      "  section.summary, section.findings { box-shadow: none; }|"%string;
      "}|"%string])].
