(* ===== verification/ReportHtml.v ===== *)
(** * The HTML report ([src/src/report/report_html.c])

    The writer of the page, the page as a list of pieces (template text and
    escaped values), and a reader of tags: what the page lists of every host,
    and that no value adds a tag. *)

From S2P Require Import Prelude Escape Calendar Sqlite Report ReportCss.

#[local] Arguments bs : simpl never.
#[local] Arguments tpl : simpl never.
#[local] Open Scope report_scope.

Definition append_epss_lit (v : double) : writer := append_double_lit v.

Definition severity_label (severity : Z) : bytes :=
  if severity =? 0 then bs "Info" else if severity =? 1 then bs "Low" else if severity =? 2 then bs "Medium"
  else if severity =? 3 then bs "High" else if severity =? 4 then bs "Critical" else bs "Unknown".

(** ** Findings *)

(** [finding_status_t] *)
Inductive finding_status := FINDING_CONFIRMED | FINDING_UNDETERMINED | FINDING_NOT_AFFECTED.

#[export] Instance finding_status_eq_dec : EqDecision finding_status.
Proof. solve_decision. Defined.

Definition classify_match_status (text : bytes) : finding_status :=
  if bool_decide (text = bs "confirmed") then FINDING_CONFIRMED
  else if bool_decide (text = bs "not_affected") then FINDING_NOT_AFFECTED
  else FINDING_UNDETERMINED.

(** [finding_row_t]; a text that is NULL is [None]. *)
Record html_row := HtmlRow {
  row_port : Z;
  row_severity : Z;
  row_kev_flag : Z;
  row_epss : option double;
  row_status : finding_status;
  row_service : option bytes;
  row_plugin_id : bytes;
  row_cve_id : option bytes;
  row_evidence : bytes;
  row_remediation : option bytes;
  row_detected_at : bytes
}.

Definition row_of_columns (f : stored_finding) : html_row :=
  let '(r, detected_at) := f in
  HtmlRow (column_int (res_port r)) (column_int (res_severity r)) (column_int (res_kev_flag r)) (res_epss_score r)
    (classify_match_status (res_match_status r)) (res_service r) (res_plugin_id r) (res_cve_id r) (res_evidence r) (res_remediation r) detected_at.

(** [has_x && x_len > 0] *)
Definition present (s : option bytes) : option bytes := match s with Some [] => None | _ => s end.

(** [append_nvd_href_attr]: the URL is built in a buffer of its own. *)
Definition append_nvd_href_attr (cve_id : bytes) : writer := fun out =>
  let '(buf, h) := out in
  let '(ok, (url_buf, h)) := (lit (bs "https://nvd.nist.gov/vuln/detail/") &&> escape_url cve_id) (report_buf_init, h) in
  let '(ok, (buf, h)) := if ok then escape_html_attr (buf_data url_buf) (buf, h) else (false, (buf, h)) in
  (ok, (buf, snd (report_buf_free (url_buf, h)))).

Definition render_confirmed_card (row : html_row) : writer :=
  lit (tpl "<div class=`finding sev-") &&> append_int_lit (row_severity row) &&>
  lit (tpl "` title=`") &&> escape_html_attr (row_evidence row) &&>
  lit (tpl "` data-plugin-id=`") &&> escape_html_attr (row_plugin_id row) &&>
  lit (tpl "`>|<h5>") &&>
  match present (row_cve_id row) with
  | Some cve_id =>
      lit (tpl "<a href=`") &&> append_nvd_href_attr cve_id &&> lit (tpl "` title=`") &&> escape_html_attr cve_id &&>
      lit (tpl "`>") &&> escape_html_body cve_id &&> lit (tpl "</a>")
  | None => lit (tpl "Configuration finding (no CVE)")
  end &&>
  lit (tpl " <span class=`badge sev-badge`>") &&> lit (severity_label (row_severity row)) &&> lit (tpl "</span>") &&>
  write_if (negb (row_kev_flag row =? 0)) (lit (tpl " <span class=`badge kev-badge`>KEV</span>")) &&>
  lit (tpl "</h5>|<p class=`evidence`>Evidence: ") &&> escape_html_body (row_evidence row) &&> lit (tpl "</p>|") &&>
  match present (row_remediation row) with
  | Some text => lit (tpl "<p class=`remediation`>Remediation: ") &&> escape_html_body text &&> lit (tpl "</p>|")
  | None => nothing
  end &&>
  match row_epss row with
  | Some score => lit (tpl "<p class=`epss`>EPSS: ") &&> append_epss_lit score &&> lit (tpl "</p>|")
  | None => nothing
  end &&>
  lit (tpl "<p class=`detected-at`>Detected: ") &&> escape_html_body (row_detected_at row) &&>
  lit (tpl "</p>|<p class=`plugin`>Detected by: ") &&> escape_html_body (row_plugin_id row) &&> lit (tpl "</p>|</div>|").

Definition render_undetermined_card (row : html_row) : writer :=
  lit (tpl "<div class=`finding undetermined-finding` title=`") &&> escape_html_attr (row_evidence row) &&> lit (tpl "`>|<h5>") &&>
  match present (row_cve_id row) with Some cve_id => escape_html_body cve_id | None => lit (tpl "Unknown CVE") end &&>
  lit (tpl " <span class=`badge undetermined-badge`>Could not determine -- manual review needed</span></h5>|<p class=`port-line`>Port: ") &&>
  append_int_lit (row_port row) &&>
  match present (row_service row) with
  | Some service => lit (tpl " (") &&> escape_html_body service &&> lit (tpl ")")
  | None => nothing
  end &&>
  lit (tpl "</p>|<p class=`evidence`>Evidence: ") &&> escape_html_body (row_evidence row) &&>
  lit (tpl "</p>|<p class=`detected-at`>Detected: ") &&> escape_html_body (row_detected_at row) &&> lit (tpl "</p>|</div>|").

(** ** One host *)

Definition count_status (status : finding_status) (rows : list html_row) : Z :=
  Z.of_nat (length (List.filter (fun row => bool_decide (row_status row = status)) rows)).

Definition port_header (row : html_row) : writer :=
  lit (tpl "<div class=`port-block`>|<h4>") &&>
  (if row_port row =? 0 then lit (tpl "Host-level finding") else lit (tpl "Port ") &&> append_int_lit (row_port row)) &&>
  match present (row_service row) with
  | Some service => lit (tpl " (") &&> escape_html_body service &&> lit (tpl ")")
  | None => nothing
  end &&>
  lit (tpl "</h4>|").

(** The loop over the confirmed rows; [cur_port] is the port whose block is
    open. *)
Fixpoint confirmed_loop (rows : list html_row) (cur_port : option Z) : writer :=
  match rows with
  | [] => write_if (bool_decide (is_Some cur_port)) (lit (tpl "</div>|"))
  | row :: rows =>
      if negb (bool_decide (row_status row = FINDING_CONFIRMED)) then confirmed_loop rows cur_port else
      (if bool_decide (cur_port = Some (row_port row)) then nothing
       else write_if (bool_decide (is_Some cur_port)) (lit (tpl "</div>|")) &&> port_header row) &&>
      render_confirmed_card row &&> confirmed_loop rows (Some (row_port row))
  end.

Fixpoint undetermined_loop (rows : list html_row) : writer :=
  match rows with
  | [] => nothing
  | row :: rows =>
      if negb (bool_decide (row_status row = FINDING_UNDETERMINED)) then undetermined_loop rows
      else render_undetermined_card row &&> undetermined_loop rows
  end.

(** What a section says of its host, given the counts. *)
Definition host_verdict (confirmed undetermined : Z) (rows : list html_row) : writer :=
  if (confirmed =? 0) && (undetermined =? 0) then lit (tpl "<p class=`host-clean`>No vulnerabilities found.</p>|")
  else
    write_if ((confirmed =? 0) && (0 <? undetermined))
      (lit (tpl "<p class=`host-undetermined-only`>No confirmed vulnerabilities; ") &&> append_int_lit undetermined &&>
       lit (tpl " check(s) undetermined -- manual review needed.</p>|")) &&>
    write_if (0 <? confirmed) (confirmed_loop rows None) &&>
    write_if (0 <? undetermined)
      (lit (tpl "<div class=`undetermined-block`>|<h4>Undetermined -- Manual Review Needed</h4>|") &&> undetermined_loop rows &&> lit (tpl "</div>|")).

Definition render_host_section (host : bytes) (rows : list html_row) : writer :=
  let confirmed := count_status FINDING_CONFIRMED rows in
  let undetermined := count_status FINDING_UNDETERMINED rows in
  let not_affected := count_status FINDING_NOT_AFFECTED rows in
  lit (tpl "<section class=`host-block` data-host=`") &&> escape_html_attr host &&>
  lit (tpl "`>|<h3>Host: ") &&> escape_html_body host &&> lit (tpl "</h3>|") &&>
  host_verdict confirmed undetermined rows &&>
  write_if (0 <? not_affected)
    (lit (tpl "<p class=`not-affected-count`>") &&> append_int_lit not_affected &&> lit (tpl " check(s) ruled not affected (audit trail).</p>|")) &&>
  lit (tpl "</section>|").

(** ** The blocks of the copies *)

(** [dup_column], [n] of them in a row with [&&]: how many copies there are. *)
Fixpoint dup_columns (n : nat) (h : heap) : nat * heap :=
  match n with
  | O => (O, h)
  | S n => let '(ok, h) := malloc h in if ok then let '(k, h) := dup_columns n h in (S k, h) else (O, h)
  end.

Definition free_blocks (n : nat) (h : heap) : heap := Heap (oracle h) (live h - Z.of_nat n).

(** The copies a row holds. *)
Definition ROW_COLUMNS : nat := 6.

Definition sizeof_finding_row : Z := 152.

(** [rows_grow] *)
Definition rows_grow (cap need : Z) (h : heap) : bool * Z * heap :=
  if need <=? cap then (true, cap, h) else
  let new_cap := grow_cap 64 (if cap =? 0 then 8 else cap) need in
  if SIZE_MAX / sizeof_finding_row <? new_cap then (false, cap, h) else
  let '(ok, h) := realloc (negb (cap =? 0)) h in
  if ok then (true, new_cap, h) else (false, cap, h).

(** The rows of the host being read. *)
Record host_group := HostGroup { cur_host : option bytes; group_rows : list html_row; row_cap : Z; any_host_rendered : bool }.

Definition free_rows_contents (rows : list html_row) (h : heap) : heap := free_blocks (length rows * ROW_COLUMNS) h.

(** The host of a row, once copied: a group that ends is rendered, and the copy
    is kept or freed. *)
Definition change_host (row_host : bytes) (g : host_group) (out : sink) : bool * host_group * sink :=
  let same_host := bool_decide (cur_host g = Some row_host) in
  let '(rendered, g, (buf, h)) :=
    match cur_host g with
    | Some host =>
        if same_host then (true, g, out) else
        let '(ok, (buf, h)) := render_host_section host (group_rows g) out in
        if ok then (true, HostGroup (cur_host g) [] (row_cap g) true, (buf, free_rows_contents (group_rows g) h))
        else (false, g, (buf, free_block h))
    | None => (true, g, out)
    end in
  if negb rendered then (false, g, (buf, h)) else
  if same_host then (true, g, (buf, free_block h))
  else (true, HostGroup (Some row_host) (group_rows g) (row_cap g) (any_host_rendered g), (buf, free_if (bool_decide (is_Some (cur_host g))) h)).

(** The copies of a row, and its place in the array. *)
Definition store_row (f : stored_finding) (g : host_group) (h : heap) : bool * host_group * heap :=
  let '(k, h) := dup_columns ROW_COLUMNS h in
  if negb (bool_decide (k = ROW_COLUMNS)) then (false, g, free_blocks k h) else
  let '(grown, cap, h) := rows_grow (row_cap g) (Z.of_nat (length (group_rows g)) + 1) h in
  if negb grown then (false, g, free_blocks k h) else
  (true, HostGroup (cur_host g) (group_rows g ++ [row_of_columns f]) cap (any_host_rendered g), h).

Section Render.
Context {C : Type} `{Sqlite C}.
Variable view : database -> report_view.
Variable order_findings : list stored_finding -> list stored_finding.
(** The data URI of the logo, generated by a script. *)
Variable LOGO_DATA_URI_CHUNKS : list bytes.

(** The loop of [render_findings]. *)
Fixpoint rows_loop (fs : list stored_finding) (g : host_group) (c : C) (out : sink) : report_status * host_group * C * sink :=
  let '(stepped, c) := sql_read c in
  if negb stepped then (REPORT_ERR_DB, g, c, out) else
  match fs with
  | [] => (REPORT_OK, g, c, out)
  | f :: fs =>
      let '(got, h) := malloc (snd out) in
      if negb got then (REPORT_ERR_OOM, g, c, (fst out, h)) else
      let '(ok, g, (buf, h)) := change_host (res_host f.1) g (fst out, h) in
      if negb ok then (REPORT_ERR_OOM, g, c, (buf, h)) else
      let '(ok, g, h) := store_row f g h in
      if negb ok then (REPORT_ERR_OOM, g, c, (buf, h)) else rows_loop fs g c (buf, h)
  end.

Definition render_findings (id : Z) (c : C) (out : sink) : report_status * C * sink :=
  let '(ok, c) := sql_prepare c in
  if negb ok then (REPORT_ERR_DB, c, out) else
  let '(status, g, c, out) := rows_loop (order_findings (scan_findings view (current c) id)) (HostGroup None [] 0 false) c out in
  let '(status, any, (buf, h)) :=
    match cur_host g with
    | Some host =>
        if bool_decide (status = REPORT_OK) then
          let '(ok, out) := render_host_section host (group_rows g) out in
          if ok then (status, true, out) else (REPORT_ERR_OOM, any_host_rendered g, out)
        else (status, any_host_rendered g, out)
    | None => (status, any_host_rendered g, out)
    end in
  let h := free_if (bool_decide (is_Some (cur_host g))) (free_if (negb (row_cap g =? 0)) (free_rows_contents (group_rows g) h)) in
  if negb (bool_decide (status = REPORT_OK)) then (status, c, (buf, h)) else
  if negb any then
    let '(ok, out) := lit (tpl "<p class=`no-findings`>No scan_results recorded for this scan.</p>|") (buf, h) in
    ((if ok then REPORT_OK else REPORT_ERR_OOM), c, out)
  else (REPORT_OK, c, (buf, h)).

(** ** Cover and summary *)

Definition append_meta_row (label : string) (value : bytes) : writer :=
  lit (tpl "<tr><th>") &&> lit (tpl label) &&> lit (tpl "</th><td>") &&> escape_html_body value &&> lit (tpl "</td></tr>|").

Definition render_cover (id : Z) (s : scan_entry) : writer :=
  lit (tpl "<section class=`cover`>|<div class=`brand`>|<img class=`logo` width=`120` height=`120` alt=`Cytadel` src=`") &&>
  write_each lit LOGO_DATA_URI_CHUNKS &&>
  lit (tpl "`>|<div class=`wordmark`>CYTADEL</div>|</div>|<h1>SCAN REPORT #") &&> append_int_lit id &&>
  lit (tpl "</h1>|<table class=`meta`>|") &&>
  append_meta_row "Target" (scan_target_spec s.1) &&>
  append_meta_row "Status" (scan_status s.1) &&>
  append_meta_row "Started" (started_at s.2) &&>
  match present (finished_at s.2) with
  | Some finished => append_meta_row "Finished" finished
  | None => append_meta_row "Finished" (bs "In progress")
  end &&>
  append_meta_row "Authorized By" (scan_authorized_by s.1) &&>
  append_meta_row "Authorization Confirmed At" (authorization_confirmed_at s.2) &&>
  append_meta_row "Authorization Method" (scan_authorization_method s.1) &&>
  lit (tpl "</table>|</section>|").

Definition sev_classes : list string := ["sev-count-info"; "sev-count-low"; "sev-count-medium"; "sev-count-high"; "sev-count-critical"]%string.

Definition severity_item (counts : report_counts) (s : nat) : writer :=
  lit (tpl "<li class=`") &&> lit (tpl (nth s sev_classes ""%string)) &&> lit (tpl "`>") &&> lit (severity_label (Z.of_nat s)) &&> lit (tpl ": ") &&>
  append_int_lit (nth s (severity_counts counts) 0) &&> lit (tpl "</li>|").

Definition render_summary (s : scan_entry) (counts : report_counts) : writer :=
  lit (tpl "<section class=`summary`>|<h2>Summary</h2>|") &&>
  write_if (0 <? scan_malformed_data_count s.1)
    (lit (tpl "<div class=`data-quality-banner`>") &&> append_int_lit (scan_malformed_data_count s.1) &&>
     lit (tpl " record(s) had malformed data -- results may be incomplete.</div>|")) &&>
  lit (tpl "<ul class=`severity-counts`>|") &&> write_each (severity_item counts) [4; 3; 2; 1; 0]%nat &&> lit (tpl "</ul>|") &&>
  lit (tpl "<p class=`kev-count`>Known Exploited Vulnerabilities (KEV): ") &&> append_int_lit (kev_count counts) &&> lit (tpl "</p>|") &&>
  lit (tpl "<p class=`undetermined-count-line`>Undetermined (manual review needed): ") &&> append_int_lit (undetermined_count counts) &&> lit (tpl "</p>|") &&>
  lit (tpl "<p class=`not-affected-count`>Not affected (ruled out, audit trail): ") &&> append_int_lit (not_affected_count counts) &&>
  lit (tpl "</p>|</section>|").

Definition render_document_head (id : Z) : writer :=
  lit (tpl "<!DOCTYPE html>|<html lang=`en`>|<head>|<meta charset=`utf-8`>|<meta name=`viewport` content=`width=device-width, initial-scale=1`>|<title>Cytadel Scan Report #") &&>
  append_int_lit id &&> lit (tpl "</title>|<style>|") &&> write_each lit CSS_CHUNKS &&> lit (tpl "</style>|</head>|<body>|").

(** ** The page *)

(** The columns [load_scan_meta] copies. *)
Definition META_COLUMNS : nat := 7.

Definition load_scan_meta (id : Z) (c : C) (h : heap) : report_status * option scan_entry * C * heap :=
  let '(st, s, c) := select_scan view id c in
  match s with
  | None => (st, None, c, h)
  | Some s =>
      let '(k, h) := dup_columns META_COLUMNS h in
      if bool_decide (k = META_COLUMNS) then (REPORT_OK, Some s, c, h) else (REPORT_ERR_OOM, None, c, free_blocks k h)
  end.

(** [cytadel_report_html]; the copies of a scan that could not be loaded are
    freed in [load_scan_meta]. *)
Definition report_html (id : Z) (c : C) (out : sink) : report_status * C * sink :=
  if id <=? 0 then (REPORT_ERR_INVALID_ARG, c, out) else
  let '(buf, h) := out in
  let '(st, s, c, h) := load_scan_meta id c h in
  match s with
  | None => (st, c, (buf, h))
  | Some s =>
      match load_report_counts view id c with
      | (None, c) => (REPORT_ERR_DB, c, (buf, free_blocks META_COLUMNS h))
      | (Some counts, c) =>
          let '(ok, (buf, h)) := (render_document_head id &&> render_cover id s &&> render_summary s counts) (buf, h) in
          let out := (buf, free_blocks META_COLUMNS h) in
          if negb ok then (REPORT_ERR_OOM, c, out) else
          let '(ok, out) := lit (tpl "<section class=`findings`>|<h2>Findings</h2>|") out in
          if negb ok then (REPORT_ERR_OOM, c, out) else
          let '(st, c, out) := render_findings id c out in
          if negb (bool_decide (st = REPORT_OK)) then (st, c, out) else
          let '(ok, out) := lit (tpl "</section>|</body>|</html>|") out in
          ((if ok then REPORT_OK else REPORT_ERR_OOM), c, out)
      end
  end.
End Render.

(** ** The page as pieces *)

(** Template text; text of our own without quotes or angle brackets (numbers,
    the logo); a value escaped for text, or for an attribute. *)
Inductive piece := Tpl (text : bytes) | Raw (text : bytes) | Body (value : bytes) | Attr (value : bytes).

Definition piece_text (p : piece) : bytes :=
  match p with Tpl t | Raw t => t | Body v => rendering HtmlBody v | Attr v => rendering HtmlAttr v end.

Definition text_of (ps : list piece) : bytes := concat (map piece_text ps).

Definition nvd_url (cve_id : bytes) : bytes := bs "https://nvd.nist.gov/vuln/detail/" ++ rendering Url cve_id.

Definition optional (s : option bytes) (f : bytes -> list piece) : list piece := match present s with Some v => f v | None => [] end.

Definition service_pieces (row : html_row) : list piece := optional (row_service row) (fun service => [Tpl (tpl " ("); Body service; Tpl (tpl ")")]).

Definition confirmed_pieces (row : html_row) : list piece :=
  [Tpl (tpl "<div class=`finding sev-"); Raw (print_dec (row_severity row)); Tpl (tpl "` title=`"); Attr (row_evidence row);
   Tpl (tpl "` data-plugin-id=`"); Attr (row_plugin_id row); Tpl (tpl "`>|<h5>")] ++
  match present (row_cve_id row) with
  | Some cve_id => [Tpl (tpl "<a href=`"); Attr (nvd_url cve_id); Tpl (tpl "` title=`"); Attr cve_id; Tpl (tpl "`>"); Body cve_id; Tpl (tpl "</a>")]
  | None => [Tpl (tpl "Configuration finding (no CVE)")]
  end ++
  [Tpl (tpl " <span class=`badge sev-badge`>"); Raw (severity_label (row_severity row)); Tpl (tpl "</span>")] ++
  (if negb (row_kev_flag row =? 0) then [Tpl (tpl " <span class=`badge kev-badge`>KEV</span>")] else []) ++
  [Tpl (tpl "</h5>|<p class=`evidence`>Evidence: "); Body (row_evidence row); Tpl (tpl "</p>|")] ++
  optional (row_remediation row) (fun text => [Tpl (tpl "<p class=`remediation`>Remediation: "); Body text; Tpl (tpl "</p>|")]) ++
  match row_epss row with
  | Some score => [Tpl (tpl "<p class=`epss`>EPSS: "); Raw (format_fixed4 score); Tpl (tpl "</p>|")]
  | None => []
  end ++
  [Tpl (tpl "<p class=`detected-at`>Detected: "); Body (row_detected_at row); Tpl (tpl "</p>|<p class=`plugin`>Detected by: ");
   Body (row_plugin_id row); Tpl (tpl "</p>|</div>|")].

Definition undetermined_pieces (row : html_row) : list piece :=
  [Tpl (tpl "<div class=`finding undetermined-finding` title=`"); Attr (row_evidence row); Tpl (tpl "`>|<h5>")] ++
  match present (row_cve_id row) with Some cve_id => [Body cve_id] | None => [Tpl (tpl "Unknown CVE")] end ++
  [Tpl (tpl " <span class=`badge undetermined-badge`>Could not determine -- manual review needed</span></h5>|<p class=`port-line`>Port: ");
   Raw (print_dec (row_port row))] ++ service_pieces row ++
  [Tpl (tpl "</p>|<p class=`evidence`>Evidence: "); Body (row_evidence row); Tpl (tpl "</p>|<p class=`detected-at`>Detected: ");
   Body (row_detected_at row); Tpl (tpl "</p>|</div>|")].

Definition port_pieces (row : html_row) : list piece :=
  [Tpl (tpl "<div class=`port-block`>|<h4>")] ++
  (if row_port row =? 0 then [Tpl (tpl "Host-level finding")] else [Tpl (tpl "Port "); Raw (print_dec (row_port row))]) ++ service_pieces row ++
  [Tpl (tpl "</h4>|")].

(** The confirmed rows, in blocks of consecutive rows of one port. *)
Fixpoint port_blocks (rows : list html_row) (cur_port : option Z) : list piece :=
  match rows with
  | [] => match cur_port with Some _ => [Tpl (tpl "</div>|")] | None => [] end
  | row :: rows =>
      (if bool_decide (cur_port = Some (row_port row)) then []
       else match cur_port with Some _ => [Tpl (tpl "</div>|")] | None => [] end ++ port_pieces row) ++
      confirmed_pieces row ++ port_blocks rows (Some (row_port row))
  end.

Definition with_status (status : finding_status) (rows : list html_row) : list html_row :=
  List.filter (fun row => bool_decide (row_status row = status)) rows.

Definition verdict_pieces (confirmed undetermined : list html_row) : list piece :=
  match confirmed, undetermined with
  | [], [] => [Tpl (tpl "<p class=`host-clean`>No vulnerabilities found.</p>|")]
  | [], _ => [Tpl (tpl "<p class=`host-undetermined-only`>No confirmed vulnerabilities; "); Raw (print_dec (Z.of_nat (length undetermined)));
              Tpl (tpl " check(s) undetermined -- manual review needed.</p>|")]
  | _, _ => port_blocks confirmed None
  end ++
  match undetermined with
  | [] => []
  | _ => [Tpl (tpl "<div class=`undetermined-block`>|<h4>Undetermined -- Manual Review Needed</h4>|")] ++ concat (map undetermined_pieces undetermined) ++ [Tpl (tpl "</div>|")]
  end.

Definition not_affected_pieces (not_affected : list html_row) : list piece :=
  match not_affected with
  | [] => []
  | _ => [Tpl (tpl "<p class=`not-affected-count`>"); Raw (print_dec (Z.of_nat (length not_affected))); Tpl (tpl " check(s) ruled not affected (audit trail).</p>|")]
  end.

Definition section_pieces (host : bytes) (rows : list html_row) : list piece :=
  [Tpl (tpl "<section class=`host-block` data-host=`"); Attr host; Tpl (tpl "`>|<h3>Host: "); Body host; Tpl (tpl "</h3>|")] ++
  verdict_pieces (with_status FINDING_CONFIRMED rows) (with_status FINDING_UNDETERMINED rows) ++
  not_affected_pieces (with_status FINDING_NOT_AFFECTED rows) ++ [Tpl (tpl "</section>|")].

(** The findings host by host: the group of [host] so far, then what follows. *)
Fixpoint groups_from (host : bytes) (group : list stored_finding) (fs : list stored_finding) : list (bytes * list stored_finding) :=
  match fs with
  | [] => [(host, group)]
  | f :: fs => if bool_decide (res_host f.1 = host) then groups_from host (group ++ [f]) fs else (host, group) :: groups_from (res_host f.1) [f] fs
  end.

Definition host_groups (fs : list stored_finding) : list (bytes * list stored_finding) :=
  match fs with [] => [] | f :: fs => groups_from (res_host f.1) [f] fs end.

Definition group_pieces (g : bytes * list stored_finding) : list piece := section_pieces g.1 (map row_of_columns g.2).

Definition sections_text (gs : list (bytes * list stored_finding)) : bytes := concat (map (fun g => text_of (group_pieces g)) gs).

Definition findings_pieces (fs : list stored_finding) : list piece :=
  match host_groups fs with
  | [] => [Tpl (tpl "<p class=`no-findings`>No scan_results recorded for this scan.</p>|")]
  | gs => concat (map group_pieces gs)
  end.

Definition meta_pieces (label : string) (value : bytes) : list piece := [Tpl (tpl "<tr><th>"); Tpl (tpl label); Tpl (tpl "</th><td>"); Body value; Tpl (tpl "</td></tr>|")].

Definition cover_pieces (logo : list bytes) (id : Z) (s : scan_entry) : list piece :=
  [Tpl (tpl "<section class=`cover`>|<div class=`brand`>|<img class=`logo` width=`120` height=`120` alt=`Cytadel` src=`")] ++
  map Raw logo ++
  [Tpl (tpl "`>|<div class=`wordmark`>CYTADEL</div>|</div>|<h1>SCAN REPORT #"); Raw (print_dec id); Tpl (tpl "</h1>|<table class=`meta`>|")] ++
  meta_pieces "Target" (scan_target_spec s.1) ++ meta_pieces "Status" (scan_status s.1) ++ meta_pieces "Started" (started_at s.2) ++
  meta_pieces "Finished" (default (bs "In progress") (present (finished_at s.2))) ++
  meta_pieces "Authorized By" (scan_authorized_by s.1) ++ meta_pieces "Authorization Confirmed At" (authorization_confirmed_at s.2) ++
  meta_pieces "Authorization Method" (scan_authorization_method s.1) ++ [Tpl (tpl "</table>|</section>|")].

Definition severity_item_pieces (counts : report_counts) (s : nat) : list piece :=
  [Tpl (tpl "<li class=`"); Tpl (tpl (nth s sev_classes ""%string)); Tpl (tpl "`>"); Raw (severity_label (Z.of_nat s)); Tpl (tpl ": ");
   Raw (print_dec (nth s (severity_counts counts) 0)); Tpl (tpl "</li>|")].

Definition summary_pieces (s : scan_entry) (counts : report_counts) : list piece :=
  [Tpl (tpl "<section class=`summary`>|<h2>Summary</h2>|")] ++
  (if 0 <? scan_malformed_data_count s.1
   then [Tpl (tpl "<div class=`data-quality-banner`>"); Raw (print_dec (scan_malformed_data_count s.1)); Tpl (tpl " record(s) had malformed data -- results may be incomplete.</div>|")]
   else []) ++
  [Tpl (tpl "<ul class=`severity-counts`>|")] ++ concat (map (severity_item_pieces counts) [4; 3; 2; 1; 0]%nat) ++ [Tpl (tpl "</ul>|")] ++
  [Tpl (tpl "<p class=`kev-count`>Known Exploited Vulnerabilities (KEV): "); Raw (print_dec (kev_count counts)); Tpl (tpl "</p>|");
   Tpl (tpl "<p class=`undetermined-count-line`>Undetermined (manual review needed): "); Raw (print_dec (undetermined_count counts)); Tpl (tpl "</p>|");
   Tpl (tpl "<p class=`not-affected-count`>Not affected (ruled out, audit trail): "); Raw (print_dec (not_affected_count counts)); Tpl (tpl "</p>|</section>|")].

Definition head_pieces (id : Z) : list piece :=
  [Tpl (tpl "<!DOCTYPE html>|<html lang=`en`>|<head>|<meta charset=`utf-8`>|<meta name=`viewport` content=`width=device-width, initial-scale=1`>|<title>Cytadel Scan Report #");
   Raw (print_dec id); Tpl (tpl "</title>|<style>|")] ++ map Tpl CSS_CHUNKS ++ [Tpl (tpl "</style>|</head>|<body>|")].

Definition page_pieces (logo : list bytes) (s : scan_entry) (fs : list stored_finding) : list piece :=
  head_pieces (scan_id s.1) ++ cover_pieces logo (scan_id s.1) s ++ summary_pieces s (counts_of fs) ++
  [Tpl (tpl "<section class=`findings`>|<h2>Findings</h2>|")] ++ findings_pieces fs ++ [Tpl (tpl "</section>|</body>|</html>|")].

(** ** Lemmas: the writers write the pieces *)

Lemma text_of_app ps qs : text_of (ps ++ qs) = text_of ps ++ text_of qs.
Proof. unfold text_of. by rewrite map_app, concat_app. Qed.

Lemma text_of_concat pss : text_of (concat pss) = concat (map text_of pss).
Proof. induction pss as [|ps pss IH]; [done|]. cbn [concat map]. by rewrite text_of_app, IH. Qed.

Lemma html_chunk_length q l : (length l <= length (concat (map (html_chunk q) l)))%nat.
Proof.
  induction l as [|c l IH]; [done|]. cbn [map concat]. rewrite length_app. cbn [length].
  assert (1 <= length (html_chunk q c))%nat; [|lia]. unfold html_chunk. repeat case_match_eqn; vm_compute; lia.
Qed.

Lemma writes_url l : writes (rendering Url l) (escape_url l).
Proof.
  intros st Hok. pose proof (escape_all_or_nothing Url l st Hok) as He. cbn [escape] in He. destruct (escape_url l st) as [ok st'].
  destruct He as ((k & Hd) & Hall & Hf & Hok' & Hl & Ho). split_and!; try done.
  - exists (concat (take k (chunks Url l))). split_and!; [|done|].
    + exists (concat (drop k (chunks Url l))). by rewrite <- concat_app, take_drop.
    + intros E. specialize (Hall E). rewrite Hd in Hall. by apply app_inv_head in Hall.
Qed.

Lemma writes_nvd_href cve_id : writes (rendering HtmlAttr (nvd_url cve_id)) (append_nvd_href_attr cve_id).
Proof.
  intros [buf h] Hok. unfold append_nvd_href_attr.
  pose proof (writes_and_then _ _ _ _ (writes_lit (bs "https://nvd.nist.gov/vuln/detail/")) (writes_url cve_id)) as Hu. fold (nvd_url cve_id) in Hu.
  specialize (Hu (report_buf_init, h) ltac:(by left)). destruct ((lit _ &&> escape_url cve_id) (report_buf_init, h)) as [ok [url_buf h1]].
  destruct Hu as (Hok1 & (p & _ & Hd & Hp) & Hl1 & Ho1 & Hf1). cbn [fst snd] in *. change (owned report_buf_init) with 0 in Hl1. change (buf_data report_buf_init) with (@nil byte) in *.
  assert (Hfree : forall h', live (snd (report_buf_free (url_buf, h'))) = live h' - owned url_buf /\ oracle (snd (report_buf_free (url_buf, h'))) = oracle h').
  { intros h'. unfold report_buf_free, owned. cbn [fst snd]. destruct (buf_cap url_buf =? 0); cbn; split; (done || lia). }
  destruct ok.
  - cbn [app] in Hd. rewrite Hd, (Hp eq_refl). pose proof (writes_attr (nvd_url cve_id) (buf, h1) Hok) as Ha. destruct (escape_html_attr (nvd_url cve_id) (buf, h1)) as [ok2 [buf2 h2]].
    destruct Ha as (Hok2 & Hd2 & Hl2 & Ho2 & Hf2). cbn [fst snd] in *. destruct (Hfree h2) as [-> ->]. split_and!; [done|done|lia|auto|].
    intros E. destruct (Hf2 E) as [?|?]; [left; auto|by right].
  - cbn [fst snd]. destruct (Hfree h1) as [-> ->]. split_and!; [done| |lia|done|].
    + exists []. rewrite app_nil_r. split_and!; [apply prefix_nil|done|done].
    + intros _. destruct (Hf1 eq_refl) as [?|Hs]; [by left|right]. cbn [length] in Hs. pose proof (html_chunk_length true (nvd_url cve_id)) as Hc. unfold rendering, chunks. lia.
Qed.

#[local] Hint Resolve writes_nvd_href : report.
#[local] Hint Constants Opaque : report.

(** The text of a list of pieces, as the writers produce it. *)
Ltac pieces_text := unfold text_of; repeat (rewrite ?map_app, ?concat_app); cbn [map concat piece_text]; repeat (rewrite <- ?app_assoc; cbn [app]); rewrite ?app_nil_r.

Definition row_ok (row : html_row) : Prop := forall v, row_epss row = Some v -> is_score v.

Lemma writes_optional s (f : bytes -> list piece) (w : bytes -> writer) :
  (forall v, writes (text_of (f v)) (w v)) -> writes (text_of (optional s f)) (match present s with Some v => w v | None => nothing end).
Proof. intros Hw. unfold optional. destruct (present s); [apply Hw|apply writes_nothing]. Qed.

Lemma writes_service row :
  writes (text_of (service_pieces row))
    (match present (row_service row) with Some service => lit (tpl " (") &&> escape_html_body service &&> lit (tpl ")") | None => nothing end).
Proof. apply writes_optional. intros v. eapply writes_eq; [eauto with report|]. by pieces_text. Qed.

Lemma writes_cve_link row :
  writes (text_of match present (row_cve_id row) with
          | Some cve_id => [Tpl (tpl "<a href=`"); Attr (nvd_url cve_id); Tpl (tpl "` title=`"); Attr cve_id; Tpl (tpl "`>"); Body cve_id; Tpl (tpl "</a>")]
          | None => [Tpl (tpl "Configuration finding (no CVE)")]
          end)
    (match present (row_cve_id row) with
     | Some cve_id =>
         lit (tpl "<a href=`") &&> append_nvd_href_attr cve_id &&> lit (tpl "` title=`") &&> escape_html_attr cve_id &&>
         lit (tpl "`>") &&> escape_html_body cve_id &&> lit (tpl "</a>")
     | None => lit (tpl "Configuration finding (no CVE)")
     end).
Proof. destruct (present (row_cve_id row)); (eapply writes_eq; [eauto 10 with report|]; by pieces_text). Qed.

Lemma writes_epss row : row_ok row ->
  writes (text_of match row_epss row with Some score => [Tpl (tpl "<p class=`epss`>EPSS: "); Raw (format_fixed4 score); Tpl (tpl "</p>|")] | None => [] end)
    (match row_epss row with Some score => lit (tpl "<p class=`epss`>EPSS: ") &&> append_epss_lit score &&> lit (tpl "</p>|") | None => nothing end).
Proof.
  intros Hrow. destruct (row_epss row) as [v|] eqn:E; [|apply writes_nothing]. pose proof (writes_double v (score_fits v (Hrow v E))) as Hv.
  eapply writes_eq; [unfold append_epss_lit; eauto with report|]. by pieces_text.
Qed.

Lemma writes_confirmed_card row : row_ok row -> writes (text_of (confirmed_pieces row)) (render_confirmed_card row).
Proof.
  intros Hrow. pose proof (writes_cve_link row) as Hcve. pose proof (writes_epss row Hrow) as Hepss. unfold render_confirmed_card.
  assert (Hrem : writes (text_of (optional (row_remediation row) (fun text => [Tpl (tpl "<p class=`remediation`>Remediation: "); Body text; Tpl (tpl "</p>|")])))
    (match present (row_remediation row) with Some text => lit (tpl "<p class=`remediation`>Remediation: ") &&> escape_html_body text &&> lit (tpl "</p>|") | None => nothing end)).
  { apply writes_optional. intros v. eapply writes_eq; [eauto with report|]. by pieces_text. }
  eapply writes_eq; [eauto 40 with report|]. unfold confirmed_pieces. destruct (negb (row_kev_flag row =? 0)); by pieces_text.
Qed.

Lemma writes_undetermined_card row : writes (text_of (undetermined_pieces row)) (render_undetermined_card row).
Proof.
  pose proof (writes_service row) as Hs. unfold render_undetermined_card.
  assert (Hcve : writes (text_of match present (row_cve_id row) with Some cve_id => [Body cve_id] | None => [Tpl (tpl "Unknown CVE")] end)
    (match present (row_cve_id row) with Some cve_id => escape_html_body cve_id | None => lit (tpl "Unknown CVE") end)).
  { destruct (present (row_cve_id row)); (eapply writes_eq; [eauto with report|]; by pieces_text). }
  eapply writes_eq; [eauto 40 with report|]. unfold undetermined_pieces. by pieces_text.
Qed.

Lemma writes_port_header row : writes (text_of (port_pieces row)) (port_header row).
Proof.
  pose proof (writes_service row) as Hs. unfold port_header.
  assert (Hport : writes (text_of (if row_port row =? 0 then [Tpl (tpl "Host-level finding")] else [Tpl (tpl "Port "); Raw (print_dec (row_port row))]))
    (if row_port row =? 0 then lit (tpl "Host-level finding") else lit (tpl "Port ") &&> append_int_lit (row_port row))).
  { destruct (row_port row =? 0); (eapply writes_eq; [eauto with report|]; by pieces_text). }
  eapply writes_eq; [eauto 20 with report|]. unfold port_pieces. by pieces_text.
Qed.

Lemma writes_confirmed_loop rows : forall cur, Forall row_ok rows ->
  writes (text_of (port_blocks (with_status FINDING_CONFIRMED rows) cur)) (confirmed_loop rows cur).
Proof.
  induction rows as [|row rows IH]; intros cur Hrows; cbn [confirmed_loop with_status List.filter].
  - destruct cur; cbn [port_blocks bool_decide]; [rewrite bool_decide_true by done|rewrite bool_decide_false by by intros [? ?]]; [|apply writes_nothing].
    eapply writes_eq; [apply writes_lit|]. by pieces_text.
  - apply Forall_cons in Hrows as [Hrow Hrows]. case_bool_decide; cbn [negb]; [|by apply IH]. cbn [port_blocks]. rewrite !text_of_app.
    apply writes_and_then; [|apply writes_and_then; [by apply writes_confirmed_card|by apply IH]].
    case_bool_decide; [apply writes_nothing|]. rewrite text_of_app. apply writes_and_then; [|apply writes_port_header].
    destruct cur; [rewrite bool_decide_true by done|rewrite bool_decide_false by by intros [? ?]]; [|apply writes_nothing]. eapply writes_eq; [apply writes_lit|]. by pieces_text.
Qed.

Lemma writes_undetermined_loop rows : writes (text_of (concat (map undetermined_pieces (with_status FINDING_UNDETERMINED rows)))) (undetermined_loop rows).
Proof.
  induction rows as [|row rows IH]; cbn [undetermined_loop with_status List.filter]; [apply writes_nothing|]. case_bool_decide; cbn [negb]; [|exact IH].
  cbn [map concat]. rewrite text_of_app. apply writes_and_then; [apply writes_undetermined_card|exact IH].
Qed.

Lemma count_status_length status rows : count_status status rows = Z.of_nat (length (with_status status rows)).
Proof. reflexivity. Qed.

Lemma nat_eqb0 {A} (x : A) l : (Z.of_nat (length (x :: l)) =? 0) = false.
Proof. apply Z.eqb_neq. cbn [length]. lia. Qed.

Lemma nat_ltb0 {A} (x : A) l : (0 <? Z.of_nat (length (x :: l))) = true.
Proof. apply Z.ltb_lt. cbn [length]. lia. Qed.

Lemma writes_verdict rows : Forall row_ok rows ->
  let confirmed := with_status FINDING_CONFIRMED rows in
  let undetermined := with_status FINDING_UNDETERMINED rows in
  writes (text_of (verdict_pieces confirmed undetermined)) (host_verdict (Z.of_nat (length confirmed)) (Z.of_nat (length undetermined)) rows).
Proof.
  intros Hrows confirmed undetermined. pose proof (writes_confirmed_loop rows None Hrows) as Hc. pose proof (writes_undetermined_loop rows) as Hu.
  fold confirmed in Hc. fold undetermined in Hu. clearbody confirmed undetermined. unfold host_verdict, verdict_pieces. rewrite text_of_app.
  assert (Hblock : writes (text_of ([Tpl (tpl "<div class=`undetermined-block`>|<h4>Undetermined -- Manual Review Needed</h4>|")] ++ concat (map undetermined_pieces undetermined) ++ [Tpl (tpl "</div>|")]))
    (lit (tpl "<div class=`undetermined-block`>|<h4>Undetermined -- Manual Review Needed</h4>|") &&> undetermined_loop rows &&> lit (tpl "</div>|"))).
  { eapply writes_eq; [eauto 20 with report|]. rewrite !text_of_app. by pieces_text. }
  destruct confirmed as [|r1 confirmed], undetermined as [|r2 undetermined]; rewrite ?nat_eqb0, ?nat_ltb0;
    change (Z.of_nat (length (@nil html_row)) =? 0) with true; change (0 <? Z.of_nat (length (@nil html_row))) with false; cbn [andb write_if].
  - eapply writes_eq; [apply writes_lit|]. by pieces_text.
  - eapply writes_eq; [eauto 20 with report|]. rewrite !text_of_app. by pieces_text.
  - eapply writes_eq; [eauto 20 with report|]. cbn [app]. by rewrite !app_nil_r.
  - eapply writes_eq; [eauto 20 with report|]. done.
Qed.

Lemma writes_host_section host rows : Forall row_ok rows -> writes (text_of (section_pieces host rows)) (render_host_section host rows).
Proof.
  intros Hrows. pose proof (writes_verdict rows Hrows) as Hv. cbv zeta in Hv. unfold render_host_section, section_pieces. rewrite !count_status_length.
  set (not_affected := with_status FINDING_NOT_AFFECTED rows) in *.
  assert (Hna : writes (text_of (not_affected_pieces not_affected))
    (write_if (0 <? Z.of_nat (length not_affected)) (lit (tpl "<p class=`not-affected-count`>") &&> append_int_lit (Z.of_nat (length not_affected)) &&> lit (tpl " check(s) ruled not affected (audit trail).</p>|")))).
  { destruct not_affected as [|r not_affected]; [apply writes_nothing|]. rewrite nat_ltb0. cbn [write_if not_affected_pieces].
    eapply writes_eq; [eauto with report|]. by pieces_text. }
  eapply writes_eq; [eauto 30 with report|]. rewrite !text_of_app. by pieces_text.
Qed.

Lemma writes_raw_list (g : bytes -> piece) l : (forall x, piece_text (g x) = x) -> writes (text_of (map g l)) (write_each lit l).
Proof.
  intros Hg. eapply writes_eq; [apply (writes_each lit id); intros x _; apply writes_lit|]. unfold text_of. rewrite map_map. f_equal. apply map_ext. intros x. by rewrite Hg.
Qed.

Lemma writes_meta_row label value : writes (text_of (meta_pieces label value)) (append_meta_row label value).
Proof. eapply writes_eq; [unfold append_meta_row; eauto with report|]. by pieces_text. Qed.

#[local] Hint Resolve writes_meta_row : report.

Lemma writes_document_head id : writes (text_of (head_pieces id)) (render_document_head id).
Proof.
  pose proof (writes_raw_list Tpl CSS_CHUNKS ltac:(done)) as Hcss. unfold head_pieces, render_document_head. set (css := CSS_CHUNKS) in *. clearbody css.
  eapply writes_eq; [eauto 10 with report|]. rewrite !text_of_app. by pieces_text.
Qed.

Lemma writes_cover logo id s : writes (text_of (cover_pieces logo id s)) (render_cover logo id s).
Proof.
  pose proof (writes_raw_list Raw logo ltac:(done)) as Hlogo. unfold cover_pieces, render_cover.
  assert (Hfin : writes (text_of (meta_pieces "Finished" (default (bs "In progress") (present (finished_at s.2)))))
    (match present (finished_at s.2) with Some finished => append_meta_row "Finished" finished | None => append_meta_row "Finished" (bs "In progress") end)).
  { destruct (present (finished_at s.2)); apply writes_meta_row. }
  eapply writes_eq; [eauto 40 with report|]. rewrite !text_of_app. by pieces_text.
Qed.

Lemma writes_severity_item counts s : writes (text_of (severity_item_pieces counts s)) (severity_item counts s).
Proof. eapply writes_eq; [unfold severity_item; eauto 20 with report|]. unfold severity_item_pieces. by pieces_text. Qed.

Lemma writes_summary s counts : writes (text_of (summary_pieces s counts)) (render_summary s counts).
Proof.
  assert (Hitems : writes (text_of (concat (map (severity_item_pieces counts) [4; 3; 2; 1; 0]%nat))) (write_each (severity_item counts) [4; 3; 2; 1; 0]%nat)).
  { eapply writes_eq; [apply (writes_each _ (fun s => text_of (severity_item_pieces counts s))); intros x _; apply writes_severity_item|]. by rewrite text_of_concat, map_map. }
  unfold summary_pieces, render_summary. set (items := concat _) in *. set (witems := write_each _ _) in *. clearbody items witems.
  assert (Hbanner : writes (text_of (if 0 <? scan_malformed_data_count s.1
      then [Tpl (tpl "<div class=`data-quality-banner`>"); Raw (print_dec (scan_malformed_data_count s.1)); Tpl (tpl " record(s) had malformed data -- results may be incomplete.</div>|")] else []))
    (write_if (0 <? scan_malformed_data_count s.1) (lit (tpl "<div class=`data-quality-banner`>") &&> append_int_lit (scan_malformed_data_count s.1) &&>
       lit (tpl " record(s) had malformed data -- results may be incomplete.</div>|")))).
  { destruct (0 <? _); [|apply writes_nothing]. eapply writes_eq; [cbn [write_if]; eauto with report|]. by pieces_text. }
  eapply writes_eq; [eauto 40 with report|]. rewrite !text_of_app. by pieces_text.
Qed.

(** ** Lemmas: groups *)

Lemma groups_from_head host l fs : exists l' gs, groups_from host l fs = (host, l') :: gs.
Proof. revert l; induction fs as [|f fs IH]; intros l; cbn [groups_from]; [by eexists _, _|]. case_bool_decide; [apply IH|by eexists _, _]. Qed.

Lemma groups_from_concat host l fs : concat (map snd (groups_from host l fs)) = l ++ fs.
Proof.
  revert host l; induction fs as [|f fs IH]; intros host l; cbn [groups_from]; [done|]. case_bool_decide.
  - rewrite IH, <- app_assoc. done.
  - cbn [map concat snd]. by rewrite IH.
Qed.

Lemma groups_from_hosts host l fs :
  (forall f, f ∈ l -> res_host f.1 = host) -> Forall (fun g => g.2 <> [] \/ g.2 = l) (groups_from host l fs) /\ Forall (fun g => forall f, f ∈ g.2 -> res_host f.1 = g.1) (groups_from host l fs).
Proof.
  revert host l; induction fs as [|f fs IH]; intros host l Hl; cbn [groups_from].
  - split; apply Forall_singleton; [by right|done].
  - case_bool_decide as Hf.
    + destruct (IH host (l ++ [f])) as [H1 H2]; [intros g [Hg|Hg]%elem_of_app; [by apply Hl|by apply list_elem_of_singleton in Hg as ->]|]. split; [|done].
      eapply Forall_impl; [exact H1|]. intros g [?|Hg]; left; [done|]. rewrite Hg. by destruct l.
    + destruct (IH (res_host f.1) [f]) as [H1 H2]; [by intros g ->%list_elem_of_singleton|]. split; constructor; [by right| |done|done].
      eapply Forall_impl; [exact H1|]. intros g [?|Hg]; left; [done|]. by rewrite Hg.
Qed.

(** The order of the query, as far as the hosts go. *)
Definition by_host (a b : stored_finding) : Prop := bytes_leb (res_host a.1) (res_host b.1) = true.

Lemma groups_from_nodup host l fs :
  (forall f, f ∈ fs -> bytes_leb host (res_host f.1) = true) -> StronglySorted by_host fs ->
  NoDup (map fst (groups_from host l fs)) /\ forall h, h ∈ map fst (groups_from host l fs) -> h = host \/ h ∈ map (fun f => res_host f.1) fs.
Proof.
  revert host l; induction fs as [|f fs IH]; intros host l Hle Hs; cbn [groups_from].
  { split; [apply NoDup_singleton|]. intros h ->%list_elem_of_singleton. by left. }
  inversion Hs as [|? ? Hs' Hf]; subst. rewrite Forall_forall in Hf. case_bool_decide as E.
  - destruct (IH host (l ++ [f])) as [H1 H2]; [intros g Hg; apply Hle; by right|done|]. split; [done|]. intros h Hh. destruct (H2 h Hh) as [?|?]; [by left|right]. by right.
  - destruct (IH (res_host f.1) [f]) as [H1 H2]; [intros g Hg; by apply Hf|done|]. cbn [map fst]. split.
    + apply NoDup_cons. split; [|done]. intros Hin. apply E. apply bytes_leb_antisym; [|apply Hle; by left].
      destruct (H2 host Hin) as [->|Hg]; [apply Hle; by left|]. apply list_elem_of_fmap in Hg as (g & -> & Hg). by apply Hf.
    + intros h [->|Hh]%elem_of_cons; [by left|right]. destruct (H2 h Hh) as [->|?]; [by left|by right].
Qed.

Lemma host_groups_spec fs : StronglySorted by_host fs ->
  concat (map snd (host_groups fs)) = fs /\ NoDup (map fst (host_groups fs)) /\
  Forall (fun g => g.2 <> [] /\ forall f, f ∈ g.2 -> res_host f.1 = g.1) (host_groups fs).
Proof.
  intros Hs. destruct fs as [|f fs]; [split_and!; [done|apply NoDup_nil_2|constructor]|]. unfold host_groups. rewrite groups_from_concat. split; [done|].
  inversion Hs as [|? ? Hs' Hf]; subst. rewrite Forall_forall in Hf. split; [apply groups_from_nodup; [intros g Hg; by apply Hf|done]|].
  destruct (groups_from_hosts (res_host f.1) [f] fs) as [H1 H2]; [by intros g ->%list_elem_of_singleton|]. apply Forall_forall. intros g Hg.
  rewrite Forall_forall in H1, H2. split; [|by apply H2]. destruct (H1 g Hg) as [?|E]; [done|]. by rewrite E.
Qed.

(** ** Lemmas: the loop over the rows *)

Lemma dup_columns_spec n h k h' :
  dup_columns n h = (k, h') ->
  live h' = live h + Z.of_nat k /\ (k <= n)%nat /\ ((k < n)%nat -> false ∈ oracle h) /\ (forall b, b ∈ oracle h' -> b ∈ oracle h).
Proof.
  revert h k; induction n as [|n IH]; intros h k; cbn [dup_columns]; [intros [= <- <-]; split_and!; (done || lia)|].
  malloc_case h ok h1 Hl Hf Ho. destruct ok.
  - destruct (dup_columns n h1) as [k1 h2] eqn:E2. intros [= <- <-]. apply IH in E2 as (Hl2 & Hk & Hf2 & Ho2). split_and!; [lia|lia|intros; apply Ho, Hf2; lia|auto].
  - intros [= <- <-]. split_and!; (done || lia || auto).
Qed.

Lemma grow_cap_upper fuel cap need : 0 <= cap < need -> grow_cap fuel cap need <= 2 * need.
Proof.
  revert cap; induction fuel as [|fuel IH]; intros cap Hc; cbn [grow_cap]; [lia|]. destruct (Z.ltb_spec cap need); [|lia].
  destruct (_ <? cap); [lia|]. destruct (Z.ltb_spec (cap * 2) need); [apply IH; lia|]. destruct fuel; cbn [grow_cap]; [lia|]. destruct (Z.ltb_spec (cap * 2) need); lia.
Qed.

Lemma rows_grow_spec cap need h ok cap' h' :
  0 <= cap -> 1 <= need < 2 ^ 50 -> rows_grow cap need h = (ok, cap', h') ->
  0 <= cap' /\ live h' = live h + (if cap' =? 0 then 0 else 1) - (if cap =? 0 then 0 else 1) /\ (forall b, b ∈ oracle h' -> b ∈ oracle h) /\
  if ok then need <= cap' else false ∈ oracle h /\ cap' = cap.
Proof.
  intros Hcap Hneed. unfold rows_grow. destruct (Z.leb_spec need cap); [intros [= <- <- <-]; split_and!; (done || lia)|].
  set (c0 := if cap =? 0 then 8 else cap). assert (Hc0 : 1 <= c0 <= SIZE_MAX) by (unfold c0, SIZE_MAX; destruct (Z.eqb_spec cap 0); lia).
  pose proof (grow_cap_spec 64 c0 need Hc0 ltac:(unfold SIZE_MAX; lia)) as Hg. set (g := grow_cap 64 c0 need) in *.
  assert (Hup : g <= Z.max 8 (2 * need)).
  { unfold g. destruct (Z.ltb_spec c0 need); [pose proof (grow_cap_upper 64 c0 need ltac:(lia)); lia|]. cbn [grow_cap]. destruct (Z.ltb_spec c0 need); [lia|].
    unfold c0 in *. destruct (Z.eqb_spec cap 0); lia. }
  change (SIZE_MAX / sizeof_finding_row) with 121360158379668102. destruct (Z.ltb_spec 121360158379668102 g); [lia|].
  destruct (realloc (negb (cap =? 0)) h) as [got h1] eqn:E. apply realloc_spec in E as (Hl & Hf & Ho). rewrite negb_involutive in Hl.
  destruct got; intros [= <- <- <-].
  - split_and!; [lia| |done|lia]. rewrite (proj2 (Z.eqb_neq g 0)) by lia. destruct (cap =? 0); cbn in Hl; lia.
  - split_and!; [done|cbn in Hl; lia|done|auto|done].
Qed.

(** The blocks the loop holds: the copies of the rows, the host, the array. *)
Definition held (g : host_group) : Z :=
  Z.of_nat (length (group_rows g) * ROW_COLUMNS) + (if bool_decide (is_Some (cur_host g)) then 1 else 0) + (if row_cap g =? 0 then 0 else 1).

Definition group_ok (g : host_group) (l : list stored_finding) : Prop :=
  group_rows g = map row_of_columns l /\ 0 <= row_cap g /\ Forall (fun f => result_checks f.1) l /\ (cur_host g = None -> l = [] /\ any_host_rendered g = false).

(** The groups still to come. *)
Definition rest_groups (g : host_group) (l fs : list stored_finding) : list (bytes * list stored_finding) :=
  match cur_host g with None => host_groups fs | Some host => groups_from host l fs end.

Lemma row_checks_ok l : Forall (fun f => result_checks f.1) l -> Forall row_ok (map row_of_columns l).
Proof.
  intros Hl. apply Forall_forall. intros row Hrow. apply list_elem_of_fmap in Hrow as ([r d] & -> & Hf). rewrite Forall_forall in Hl. destruct (Hl _ Hf) as (_ & _ & _ & He).
  intros v E. cbn in E, He. by rewrite E in He.
Qed.

Lemma held_rows host rows cap any : held (HostGroup (Some host) rows cap any) = Z.of_nat (length rows) * 6 + 1 + (if cap =? 0 then 0 else 1).
Proof. unfold held, ROW_COLUMNS. cbn [group_rows cur_host row_cap]. rewrite bool_decide_true by done. lia. Qed.

Lemma held_none rows cap any : held (HostGroup None rows cap any) = Z.of_nat (length rows) * 6 + (if cap =? 0 then 0 else 1).
Proof. unfold held, ROW_COLUMNS. cbn [group_rows cur_host row_cap]. rewrite bool_decide_false by by intros [? ?]. lia. Qed.

Lemma store_row_spec st0 full written f host rows cap any l buf h :
  group_ok (HostGroup (Some host) rows cap any) l -> result_checks f.1 -> Z.of_nat (length rows) + 1 < 2 ^ 50 ->
  progress (shift (held (HostGroup (Some host) rows cap any)) st0) full written (buf, h) ->
  let '(ok, g', h') := store_row f (HostGroup (Some host) rows cap any) h in
  if ok then group_ok g' (l ++ [f]) /\ cur_host g' = Some host /\ any_host_rendered g' = any /\ progress (shift (held g') st0) full written (buf, h')
  else g' = HostGroup (Some host) rows cap any /\ balanced (shift (held g') st0) (buf, h') /\ starved st0 full.
Proof.
  intros (Hrows & Hcap & Hl & Hnone) Hf Hlen Hp. cbn [group_rows row_cap] in *. unfold store_row. destruct (dup_columns ROW_COLUMNS h) as [k h1] eqn:E1.
  apply dup_columns_spec in E1 as (Hl1 & Hk & Hf1 & Ho1).
  assert (Hback : forall h2, live h2 = live h -> balanced (shift (held (HostGroup (Some host) rows cap any)) st0) (buf, h2)).
  { intros h2 E. pose proof (balanced_heap st0 _ buf h 0 h2 (progress_balanced _ _ _ _ Hp) ltac:(lia)) as Hb. by rewrite Z.add_0_r in Hb. }
  case_bool_decide as Hall; cbn [negb].
  2: { split; [done|]. split; [apply Hback; unfold free_blocks; cbn; lia|]. eapply progress_starved; [exact Hp|]. apply Hf1. lia. }
  cbn [group_rows row_cap cur_host any_host_rendered]. destruct (rows_grow cap _ h1) as [[grown cap2] h2] eqn:E2. apply rows_grow_spec in E2 as (Hcap2 & Hl2 & Ho2 & Hg); [|done|lia].
  destruct grown; cbn [negb].
  - split; [|split; [done|split; [done|]]].
    + split_and!; cbn [group_rows row_cap cur_host]; [by rewrite Hrows, map_app|done|apply Forall_app; split; [done|by apply Forall_singleton]|done].
    + rewrite held_rows in Hp |- *. rewrite length_app. cbn [length]. change ROW_COLUMNS with 6%nat in *.
      replace (Z.of_nat (length rows + 1) * 6 + 1 + (if cap2 =? 0 then 0 else 1)) with
        (Z.of_nat (length rows) * 6 + 1 + (if cap =? 0 then 0 else 1) + (6 + (if cap2 =? 0 then 0 else 1) - (if cap =? 0 then 0 else 1))) by lia.
      eapply progress_heap; [exact Hp|lia|auto].
  - destruct Hg as [Hg ->]. split; [done|]. split; [apply Hback; unfold free_blocks; cbn; lia|]. eapply progress_starved; [exact Hp|auto].
Qed.

Lemma sections_text_cons host l gs : sections_text ((host, l) :: gs) = text_of (section_pieces host (map row_of_columns l)) ++ sections_text gs.
Proof. reflexivity. Qed.

Lemma change_host_spec st0 full written f fs g l buf h :
  group_ok g l -> progress (shift (held g + 1) st0) full written (buf, h) -> written ++ sections_text (rest_groups g l (f :: fs)) `prefix_of` full ->
  let '(ok, g', st') := change_host (res_host f.1) g (buf, h) in
  if ok then exists l' written', cur_host g' = Some (res_host f.1) /\ group_ok g' l' /\ (length l' <= length l)%nat /\
    progress (shift (held g') st0) full written' st' /\
    written' ++ sections_text (groups_from (res_host f.1) (l' ++ [f]) fs) = written ++ sections_text (rest_groups g l (f :: fs))
  else g' = g /\ balanced (shift (held g) st0) st' /\ starved st0 full.
Proof.
  destruct g as [[host|] rows cap any]; intros (Hrows & Hcap & Hl & Hnone) Hp Hfull; unfold change_host, rest_groups in *; cbn [cur_host group_rows row_cap any_host_rendered] in *.
  - case_bool_decide as Hsame; cbn [negb].
    + injection Hsame as ->. exists l, written. split; [done|]. split; [done|]. split; [done|]. split.
      * apply (progress_heap _ _ _ _ _ _ (-1) (free_block h)) in Hp; [|unfold free_block; cbn; lia|done]. by rewrite <- Z.add_assoc, Z.add_0_r in Hp.
      * cbn [groups_from]. by rewrite bool_decide_true.
    + cbn [groups_from] in *. rewrite (bool_decide_false (res_host f.1 = host)) in * by (intros E; apply Hsame; by rewrite E).
      rewrite sections_text_cons in *. rewrite <- Hrows in *. rewrite app_assoc in Hfull |- *.
      pose proof (writes_host_section host rows ltac:(rewrite Hrows; by apply row_checks_ok)) as Hw. destruct (render_host_section host rows (buf, h)) as [ok [buf1 h1]] eqn:E1.
      apply (progress_step _ _ _ _ _ _ _ _ Hp Hw) in E1; [|by eapply prefix_app_l]. rewrite held_rows in *. destruct ok; cbn [negb cur_host group_rows row_cap any_host_rendered].
      * exists [], (written ++ text_of (section_pieces host rows)). split; [done|]. split; [split_and!; cbn; try done|]. split; [cbn; lia|]. split; [|done].
        rewrite held_rows, bool_decide_true by done. cbn [free_if].
        replace (Z.of_nat (length (@nil html_row)) * 6 + 1 + (if cap =? 0 then 0 else 1)) with (Z.of_nat (length rows) * 6 + 1 + (if cap =? 0 then 0 else 1) + 1 + (- Z.of_nat (length rows) * 6 - 1)) by (cbn; lia).
        eapply progress_heap; [exact E1|unfold free_rows_contents, free_blocks, ROW_COLUMNS; cbn; lia|done].
      * split; [done|]. destruct E1 as [E1 ?]. split; [|done]. apply (balanced_heap _ _ _ _ (-1) (free_block h1)) in E1; [|unfold free_block; cbn; lia].
        by rewrite <- Z.add_assoc, Z.add_0_r in E1.
  - destruct (Hnone eq_refl) as [-> Hany]. rewrite bool_decide_false by done. cbn [negb]. rewrite bool_decide_false by by intros [? ?]. cbn [free_if].
    exists [], written. split; [done|]. split; [split_and!; cbn; done|]. split; [done|]. rewrite held_rows. rewrite held_none in Hp. split; [|done].
    replace (Z.of_nat (length rows) * 6 + 1 + (if cap =? 0 then 0 else 1)) with (Z.of_nat (length rows) * 6 + (if cap =? 0 then 0 else 1) + 1) by lia. done.
Qed.

Section Document.
Context {C : Type} `{SqliteLaws C}.
Variable view : database -> report_view.
Variable order_findings : list stored_finding -> list stored_finding.
Variable logo : list bytes.

Lemma rows_loop_spec st0 full fs : forall g l (c : C) buf h written,
  in_tx c = false -> Forall (fun f => result_checks f.1) fs -> Z.of_nat (length l + length fs) < 2 ^ 50 -> group_ok g l ->
  progress (shift (held g) st0) full written (buf, h) -> written ++ sections_text (rest_groups g l fs) `prefix_of` full ->
  let '(r, g', c', st') := rows_loop fs g c (buf, h) in
  same_conn c c' /\
  (r = REPORT_OK /\ (exists l' written', group_ok g' l' /\ progress (shift (held g') st0) full written' st' /\
     written' ++ sections_text (rest_groups g' l' []) = written ++ sections_text (rest_groups g l fs) /\ (cur_host g' = None <-> fs = [] /\ cur_host g = None)) \/
   balanced (shift (held g') st0) st' /\ (r = REPORT_ERR_DB \/ r = REPORT_ERR_OOM /\ starved st0 full)).
Proof.
  induction fs as [|f fs IH]; intros g l c buf h written Ht Hfs Hn Hg Hp Hfull; cbn [rows_loop]; destruct (sql_read c) as [[] c1] eqn:E1;
    pose proof (idle_read _ _ _ Ht E1) as Hc1; cbn [negb]; try (split; [done|]; right; split; [by eapply progress_balanced|by left]).
  { split; [done|]. left. split; [done|]. exists l, written. by split_and!; try tauto. }
  apply Forall_cons in Hfs as [Hf Hfs]. cbn [fst snd length] in *. malloc_case h got h1 Hl Hfail Ho. destruct got; cbn [negb].
  2: { split; [done|]. right. split; [|right; split; [done|]; eapply progress_starved; [exact Hp|auto]].
       pose proof (balanced_heap st0 _ buf h 0 h1 (progress_balanced _ _ _ _ Hp) ltac:(lia)) as Hb. by rewrite Z.add_0_r in Hb. }
  apply (progress_heap _ _ _ _ _ _ 1 h1) in Hp; [|lia|done]. pose proof (change_host_spec st0 full written f fs g l buf h1 Hg Hp Hfull) as Hch.
  destruct (change_host (res_host f.1) g (buf, h1)) as [[ok g1] [buf1 h2]]. destruct ok; cbn [negb].
  2: { destruct Hch as (-> & Hb & Hs). split; [done|]. right. split; [done|by right]. }
  destruct Hch as (l1 & written1 & Hhost & Hg1 & Hlen & Hp1 & Htext). destruct g1 as [ch rows cap any]. cbn [cur_host] in Hhost. subst ch.
  assert (Hrows : length rows = length l1) by (destruct Hg1 as (Hr & _); cbn in Hr; by rewrite Hr, length_map).
  pose proof (store_row_spec st0 full written1 f (res_host f.1) rows cap any l1 buf1 h2 Hg1 Hf ltac:(lia) Hp1) as Hst.
  destruct (store_row f _ h2) as [[ok g2] h3]. destruct ok; cbn [negb].
  2: { destruct Hst as (-> & Hb & Hs). split; [done|]. right. split; [done|by right]. }
  destruct Hst as (Hg2 & Hhost2 & _ & Hp2).
  assert (Hrest : rest_groups g2 (l1 ++ [f]) fs = groups_from (res_host f.1) (l1 ++ [f]) fs) by (unfold rest_groups; by rewrite Hhost2).
  specialize (IH g2 (l1 ++ [f]) c1 buf1 h3 written1 (same_conn_idle _ _ Hc1 Ht) Hfs ltac:(rewrite length_app; cbn; lia) Hg2 Hp2 ltac:(rewrite Hrest; exact (eq_ind_r (fun t => t `prefix_of` full) Hfull Htext))).
  destruct (rows_loop fs g2 c1 (buf1, h3)) as [[[r g'] c'] st']. destruct IH as [Hc' IH]. split; [by eapply same_conn_trans|].
  destruct IH as [(-> & l' & written' & Hg' & Hp' & Ht' & Hnone)|?]; [left|by right]. split; [done|]. exists l', written'. split; [done|]. split; [done|]. split.
  - rewrite Ht', Hrest. exact Htext.
  - rewrite Hnone, Hhost2. by split; intros [? ?].
Qed.

(** Everything the loop held is freed. *)
Lemma free_held g buf h :
  let h' := free_if (bool_decide (is_Some (cur_host g))) (free_if (negb (row_cap g =? 0)) (free_rows_contents (group_rows g) h)) in
  live h' = live h + - held g /\ oracle h' = oracle h /\ forall st0, balanced (shift (held g) st0) (buf, h) -> balanced st0 (buf, h').
Proof.
  cbv zeta. set (h' := free_if _ _). assert (Hl : live h' = live h + - held g).
  { unfold h', held, free_rows_contents, free_blocks. case_bool_decide; destruct (row_cap g =? 0); cbn [negb free_if free_block live]; lia. }
  split; [done|]. split; [unfold h'; case_bool_decide; by destruct (row_cap g =? 0)|]. intros st0 Hb. apply (balanced_heap _ _ _ _ _ h' Hb) in Hl as Hb'.
  by rewrite Z.add_opp_diag_r, shift_zero in Hb'.
Qed.

Definition findings_text (fs : list stored_finding) : bytes := text_of (findings_pieces fs).

Lemma findings_text_groups fs : host_groups fs <> [] -> findings_text fs = sections_text (host_groups fs).
Proof.
  unfold findings_text, findings_pieces, sections_text. destruct (host_groups fs) as [|g gs]; [done|]. intros _. rewrite text_of_concat, map_map. done.
Qed.

Lemma render_findings_spec id st0 full (c : C) buf h written :
  let fs := order_findings (scan_findings view (current c) id) in
  in_tx c = false -> Forall (fun f => result_checks f.1) fs -> Z.of_nat (length fs) < 2 ^ 50 ->
  progress st0 full written (buf, h) -> written ++ findings_text fs `prefix_of` full ->
  let '(r, c', st') := render_findings view order_findings id c (buf, h) in
  same_conn c c' /\ (r = REPORT_OK /\ progress st0 full (written ++ findings_text fs) st' \/ stopped st0 full r st').
Proof.
  intros fs Ht Hfs Hn Hp Hfull. unfold render_findings. destruct (sql_prepare c) as [[] c1] eqn:E1; pose proof (idle_prepare _ _ _ Ht E1) as Hc1; cbn [negb].
  2: { split; [done|]. right. split; [by eapply progress_balanced|by left]. }
  assert (current c1 = current c) as -> by apply Hc1. fold fs.
  assert (Hgrp : fs = [] \/ findings_text fs = sections_text (host_groups fs)).
  { destruct fs as [|f fs']; [by left|right]. apply findings_text_groups. cbn [host_groups]. by destruct (groups_from_head (res_host f.1) [f] fs') as (? & ? & ->). }
  assert (Hg0 : group_ok (HostGroup None [] 0 false) []) by (split_and!; cbn; try done).
  assert (Hp0 : progress (shift (held (HostGroup None [] 0 false)) st0) full written (buf, h)) by (change (held _) with 0; by rewrite shift_zero).
  assert (Hfull0 : written ++ sections_text (rest_groups (HostGroup None [] 0 false) [] fs) `prefix_of` full).
  { unfold rest_groups. cbn [cur_host]. destruct Hgrp as [E|<-]; [|done]. rewrite E in *. cbn [host_groups]. change (sections_text []) with (@nil byte). rewrite app_nil_r. by eapply prefix_app_l. }
  pose proof (rows_loop_spec st0 full fs _ [] c1 buf h written (same_conn_idle _ _ Hc1 Ht) Hfs Hn Hg0 Hp0 Hfull0) as Hl.
  destruct (rows_loop fs _ c1 (buf, h)) as [[[r g] c2] [buf2 h2]]. destruct Hl as [Hc2 Hl]. pose proof (same_conn_trans _ _ _ Hc1 Hc2) as Hc02.
  destruct Hl as [(-> & l & written2 & Hg & Hp2 & Htext & Hnone)|[Hb Hstop]].
  - rewrite (bool_decide_true (REPORT_OK = REPORT_OK)) by done. destruct g as [[host|] rows cap any]; cbn [cur_host any_host_rendered group_rows row_cap] in *.
    + assert (Hne : fs <> []) by (intros E; by assert (Some host = None) by (apply Hnone; by split)).
      assert (Hend : findings_text fs = sections_text (host_groups fs)) by by destruct Hgrp. rewrite Hend in Hfull |- *.
      cbn [rest_groups cur_host groups_from] in Htext. rewrite sections_text_cons in Htext. change (sections_text []) with (@nil byte) in Htext. rewrite app_nil_r in Htext.
      destruct Hg as (Hr & _ & Hchecks & _). cbn [group_rows] in Hr. rewrite <- Hr in Htext.
      pose proof (writes_host_section host rows ltac:(rewrite Hr; by apply row_checks_ok)) as Hw. destruct (render_host_section host rows (buf2, h2)) as [ok [buf3 h3]] eqn:E3.
      apply (progress_step _ _ _ _ _ _ _ _ Hp2 Hw) in E3; [|by rewrite Htext]. destruct (free_held (HostGroup (Some host) rows cap any) buf3 h3) as (Hlive & Hor & Hbal).
      cbn [cur_host group_rows row_cap] in *. destruct ok.
      * rewrite (bool_decide_true (REPORT_OK = REPORT_OK)) by done. cbn [negb]. split; [done|]. left. split; [done|]. rewrite Htext in E3.
        apply (progress_heap _ _ _ _ _ _ _ _ E3) in Hlive; [|by rewrite Hor]. by rewrite Z.add_opp_diag_r, shift_zero in Hlive.
      * rewrite bool_decide_false by done. cbn [negb]. split; [done|]. right. destruct E3 as [E3 Hs]. split; [by apply Hbal|by right].
    + destruct (proj1 Hnone eq_refl) as [E _]. rewrite E in Htext. destruct Hg as (_ & _ & _ & Hg). destruct (Hg eq_refl) as [-> Hany]. cbn [any_host_rendered] in Hany. rewrite Hany.
      rewrite (bool_decide_true (REPORT_OK = REPORT_OK)) by done. cbn [negb]. change (rest_groups _ [] []) with (@nil (bytes * list stored_finding)) in Htext at 1.
      change (sections_text []) with (@nil byte) in Htext. rewrite !app_nil_r in Htext. subst written2.
      destruct (free_held (HostGroup None rows cap any) buf2 h2) as (Hlive & Hor & _). cbn [cur_host group_rows row_cap] in *.
      apply (progress_heap _ _ _ _ _ _ _ _ Hp2) in Hlive; [|by rewrite Hor]. rewrite Z.add_opp_diag_r, shift_zero in Hlive.
      destruct (lit _ (buf2, _)) as [ok st3] eqn:E3. assert (Hne : findings_text fs = tpl "<p class=`no-findings`>No scan_results recorded for this scan.</p>|") by (rewrite E; apply app_nil_r).
      rewrite Hne in Hfull |- *. apply (progress_step _ _ _ _ _ _ _ _ Hlive (writes_lit _)) in E3; [|done]. split; [done|]. destruct ok; [by left|]. right. destruct E3. split; [done|by right].
  - destruct (free_held g buf2 h2) as (_ & _ & Hbal). specialize (Hbal st0 Hb). assert (Hr : r <> REPORT_OK) by (destruct Hstop as [->|[-> _]]; done).
    rewrite (bool_decide_false (r = REPORT_OK)) by done. destruct (cur_host g) as [host|] eqn:Eg; cbn [negb]; rewrite (bool_decide_false (r = REPORT_OK)) by done; cbn [negb]; (split; [done|]); right; by split.
Qed.

Lemma load_scan_meta_spec id (c : C) h :
  in_tx c = false ->
  let '(r, s, c', h') := load_scan_meta view id c h in
  same_conn c c' /\ (forall b, b ∈ oracle h' -> b ∈ oracle h) /\
  match s with
  | Some s => r = REPORT_OK /\ find_scan view (current c) id = Some s /\ live h' = live h + 7
  | None => live h' = live h /\
      (r = REPORT_ERR_NOT_FOUND /\ find_scan view (current c) id = None \/ r = REPORT_ERR_DB \/
       r = REPORT_ERR_OOM /\ false ∈ oracle h /\ is_Some (find_scan view (current c) id))
  end.
Proof.
  intros Ht. unfold load_scan_meta. destruct (select_scan view id c) as [[r s] c1] eqn:E. apply select_scan_spec in E as [Hc Hs]; [|done].
  destruct s as [s|].
  - assert (r = REPORT_OK /\ find_scan view (current c) id = Some s) as [-> Hf] by (destruct r; try done; by destruct Hs).
    destruct (dup_columns META_COLUMNS h) as [k h1] eqn:E1. apply dup_columns_spec in E1 as (Hl & Hk & Hfail & Ho). case_bool_decide as Hall.
    + split_and!; try done. rewrite Hl, Hall. done.
    + split_and!; try done; [unfold free_blocks; cbn; lia|]. right. right. split_and!; [done|apply Hfail; lia|by eexists].
  - split_and!; try done. destruct r; try done; [by destruct Hs as [_ [? ?]]|by left; destruct Hs|by right; left].
Qed.

Definition page_text (s : scan_entry) (fs : list stored_finding) : bytes := text_of (page_pieces logo s fs).

Lemma page_text_parts s fs :
  page_text s fs = (text_of (head_pieces (scan_id s.1)) ++ text_of (cover_pieces logo (scan_id s.1) s) ++ text_of (summary_pieces s (counts_of fs))) ++
    tpl "<section class=`findings`>|<h2>Findings</h2>|" ++ findings_text fs ++ tpl "</section>|</body>|</html>|".
Proof.
  unfold page_text, page_pieces, findings_text. rewrite !text_of_app. change (text_of [Tpl ?t]) with (t ++ []). by rewrite !app_nil_r, <- !app_assoc.
Qed.

Lemma report_html_renders id (c : C) buf0 h0 :
  let st0 := (buf0, h0) in
  let fs := order_findings (scan_findings view (current c) id) in
  in_tx c = false -> buf_ok buf0 -> Permutation fs (scan_findings view (current c) id) -> Forall (fun f => result_checks f.1) fs -> Z.of_nat (length fs) < 2 ^ 50 ->
  let '(r, c', st') := report_html view order_findings logo id c st0 in
  same_conn c c' /\ balanced st0 st' /\
  match r with
  | REPORT_OK => exists s, find_scan view (current c) id = Some s /\ buf_data (fst st') = buf_data buf0 ++ page_text s fs
  | REPORT_ERR_INVALID_ARG => id <= 0
  | REPORT_ERR_NOT_FOUND => 0 < id /\ find_scan view (current c) id = None
  | REPORT_ERR_DB => 0 < id
  | REPORT_ERR_OOM => exists s, find_scan view (current c) id = Some s /\ starved st0 (page_text s fs)
  end.
Proof.
  intros st0 fs Ht Hok Hperm Hfs Hn. unfold report_html. destruct (Z.leb_spec id 0); [by split_and!|]. unfold st0 at 1.
  pose proof (load_scan_meta_spec id c h0 Ht) as Hm. destruct (load_scan_meta view id c h0) as [[[r s] c1] h1]. destruct Hm as (Hc1 & Ho1 & Hm).
  destruct s as [s|].
  2: { destruct Hm as [Hl Hr]. split; [done|]. split; [split; [done|cbn; lia]|]. destruct Hr as [[-> ?]|[->|(-> & ? & [s Hs])]]; [done|done|]. exists s. split; [done|by left]. }
  destruct Hm as (-> & Hs & Hl). assert (Ht1 : in_tx c1 = false) by by eapply same_conn_idle. assert (Ec1 : current c1 = current c) by apply Hc1.
  destruct (load_report_counts view id c1) as [n c2] eqn:En.
  assert (Hsev : forall f, f ∈ scan_findings view (current c) id -> 0 <= res_severity f.1 <= 4).
  { intros f Hf. rewrite Forall_forall in Hfs. apply (Hfs f). by rewrite Hperm. }
  apply load_report_counts_spec in En as [Hc2 Hcounts]; [|done|by rewrite Ec1]. rewrite Ec1 in Hcounts. pose proof (same_conn_trans _ _ _ Hc1 Hc2) as Hc02.
  destruct n as [n|]; [|split; [done|]; split; [split; [done|unfold free_blocks, META_COLUMNS; cbn; lia]|done]].
  assert (n = counts_of fs) as -> by (rewrite (Hcounts n eq_refl); symmetry; by apply counts_of_permutation).
  assert (Hid : id = scan_id s.1) by (unfold find_scan in Hs; apply find_some in Hs as [_ Hs']; by apply Z.eqb_eq in Hs').
  set (full := page_text s fs). pose proof (page_text_parts s fs) as Hfull. fold full in Hfull. rewrite !(app_assoc (_ ++ _)) in Hfull.
  assert (Hp0 : progress (shift 7 st0) full [] (buf0, h1)).
  { pose proof (progress_start st0 full Hok) as Hp. rewrite <- (shift_zero st0) in Hp at 1. by apply (progress_heap st0 full [] 0 buf0 h0 7 h1 Hp Hl Ho1). }
  assert (Hw : writes (text_of (head_pieces (scan_id s.1)) ++ text_of (cover_pieces logo (scan_id s.1) s) ++ text_of (summary_pieces s (counts_of fs)))
    (render_document_head id &&> render_cover logo id s &&> render_summary s (counts_of fs))).
  { rewrite Hid. apply writes_and_then; [apply writes_document_head|]. apply writes_and_then; [apply writes_cover|apply writes_summary]. }
  set (front := _ ++ _ ++ _) in Hw, Hfull. destruct ((render_document_head id &&> _) (buf0, h1)) as [ok [buf1 h2]] eqn:E1.
  apply (progress_step _ _ _ _ _ _ _ _ Hp0 Hw) in E1; [|rewrite Hfull; do 3 eapply prefix_app_r; done]. destruct ok; cbn [negb].
  2: { destruct E1 as [Hb Hst]. split; [done|]. split; [|exists s; by split].
       apply (balanced_heap _ _ _ _ (-7) (free_blocks META_COLUMNS h2)) in Hb; [by rewrite Z.add_opp_diag_r, shift_zero in Hb|unfold free_blocks, META_COLUMNS; cbn; lia]. }
  apply (progress_heap _ _ _ _ _ _ (-7) (free_blocks META_COLUMNS h2)) in E1; [|unfold free_blocks, META_COLUMNS; cbn; lia|done]. rewrite Z.add_opp_diag_r, shift_zero in E1. cbn [app] in E1.
  destruct (lit _ (buf1, free_blocks META_COLUMNS h2)) as [ok [buf2 h3]] eqn:E2. apply (progress_step _ _ _ _ _ _ _ _ E1 (writes_lit _)) in E2; [|rewrite Hfull; do 2 eapply prefix_app_r; done].
  destruct ok; cbn [negb]; [|destruct E2; split; [done|]; split; [done|exists s; by split]].
  assert (Ec2 : current c2 = current c) by apply Hc02. pose proof (fun w => render_findings_spec id st0 full c2 buf2 h3 w (same_conn_idle _ _ Hc02 Ht)) as Hr. rewrite Ec2 in Hr. fold fs in Hr.
  specialize (Hr _ Hfs Hn E2 ltac:(rewrite Hfull; eapply prefix_app_r; done)). destruct (render_findings view order_findings id c2 (buf2, h3)) as [[r c3] st3].
  destruct Hr as [Hc3 Hr]. pose proof (same_conn_trans _ _ _ Hc02 Hc3) as Hc03. destruct Hr as [[-> Hp3]|[Hb Hstop]].
  - rewrite bool_decide_true by done. cbn [negb]. destruct (lit _ st3) as [ok st4] eqn:E4. apply (progress_step _ _ _ _ _ _ _ _ Hp3 (writes_lit _)) in E4; [|by rewrite Hfull]. split; [done|].
    destruct ok; [split; [by eapply progress_balanced|]; exists s; split; [done|]; rewrite <- Hfull in E4; exact (progress_whole _ _ _ E4)|]. destruct E4. split; [done|]. exists s. by split.
  - assert (Hr : r <> REPORT_OK) by (destruct Hstop as [->|[-> _]]; done). rewrite bool_decide_false by done. cbn [negb]. split; [done|]. split; [done|].
    destruct Hstop as [->|[-> ?]]; [done|]. exists s. by split.
Qed.
End Document.
