(* ===== verification/ReportPage.v ===== *)
(** * The HTML report as it is read

    A reader of the tags of a page, the tags of the pieces of [ReportHtml],
    and what a page that was rendered shows: one section per host with a card
    for each finding that is not ruled out, and no tag that a value made. *)

From S2P Require Import Prelude Escape Calendar Sqlite Report ReportCss ReportHtml.

#[local] Arguments bs : simpl never.
#[local] Arguments tpl : simpl never.

(** ** Tags *)

(** Where a reader is: in text, in a tag with what is read of it, in an
    attribute value between double quotes. *)
Inductive reading := InText | InTag (acc : bytes) | InQuotes (acc : bytes).

(** The tags, as the bytes between their angle brackets, and where the reader
    ends; [keep] is whether the attribute values are kept. *)
Fixpoint scan (keep : bool) (s : reading) (l : bytes) : list bytes * reading :=
  match l with
  | [] => ([], s)
  | c :: l =>
      match s with
      | InText => if c =? 60 then scan keep (InTag []) l else scan keep InText l
      | InTag acc =>
          if c =? 62 then let '(ts, s) := scan keep InText l in (acc :: ts, s)
          else if c =? 34 then scan keep (InQuotes (acc ++ [c])) l else scan keep (InTag (acc ++ [c])) l
      | InQuotes acc => if c =? 34 then scan keep (InTag (acc ++ [c])) l else scan keep (InQuotes (if keep then acc ++ [c] else acc)) l
      end
  end.

(** The tags of a page with their attribute values, and without. *)
Definition tags (page : bytes) : list bytes := fst (scan true InText page).
Definition markup (page : bytes) : list bytes * reading := scan false InText page.

(** *** What a scan adds to a tag that is open *)

Definition add_front (p : bytes) (s : reading) : reading :=
  match s with InText => InText | InTag acc => InTag (p ++ acc) | InQuotes acc => InQuotes (p ++ acc) end.

Definition add_first (p : bytes) (r : list bytes * reading) : list bytes * reading :=
  match r with (t :: ts, s) => ((p ++ t) :: ts, s) | ([], s) => ([], add_front p s) end.

Definition scan_from (keep : bool) (s : reading) (l : bytes) : list bytes * reading :=
  match s with
  | InText => scan keep InText l
  | InTag acc => add_first acc (scan keep (InTag []) l)
  | InQuotes acc => add_first acc (scan keep (InQuotes []) l)
  end.

Lemma scan_add_front keep p l : forall s, s <> InText -> scan keep (add_front p s) l = add_first p (scan keep s l).
Proof.
  induction l as [|c l IH]; intros [|acc|acc] Hs; try done; cbn [add_front scan].
  - destruct (c =? 62); [by destruct (scan keep InText l)|]. destruct (c =? 34); rewrite <- app_assoc; [exact (IH (InQuotes (acc ++ [c])) ltac:(done))|exact (IH (InTag (acc ++ [c])) ltac:(done))].
  - destruct (c =? 34); [rewrite <- app_assoc; exact (IH (InTag (acc ++ [c])) ltac:(done))|]. destruct keep; [rewrite <- app_assoc; exact (IH (InQuotes (acc ++ [c])) ltac:(done))|exact (IH (InQuotes acc) ltac:(done))].
Qed.

Lemma scan_from_scan keep s l : scan_from keep s l = scan keep s l.
Proof.
  destruct s as [|acc|acc]; [done| |]; cbn [scan_from]; rewrite <- scan_add_front by done; cbn [add_front]; by rewrite app_nil_r.
Qed.

Lemma scan_app keep a : forall s b, scan keep s (a ++ b) = let '(ts, s) := scan keep s a in let '(us, s) := scan keep s b in (ts ++ us, s).
Proof.
  induction a as [|c a IH]; intros s b; cbn [app scan]; [by destruct (scan keep s b)|].
  destruct s as [|acc|acc]; repeat (match goal with |- context [if ?x then _ else _] => destruct x end); rewrite ?IH; try done.
  destruct (scan keep InText a) as [ts s1]. by destruct (scan keep s1 b).
Qed.

(** ** The tags of pieces *)

Definition quoted (keep : bool) (s : reading) (v : bytes) : reading :=
  match s with InQuotes acc => InQuotes (if keep then acc ++ v else acc) | _ => s end.

Definition piece_step (keep : bool) (s : reading) (p : piece) : list bytes * reading :=
  match p with
  | Tpl t => scan_from keep s t
  | Raw v => ([], quoted keep s v)
  | Body _ => ([], s)
  | Attr v => ([], quoted keep s (rendering HtmlAttr v))
  end.

Fixpoint piece_tags (keep : bool) (s : reading) (ps : list piece) : list bytes * reading :=
  match ps with
  | [] => ([], s)
  | p :: ps => let '(ts, s) := piece_step keep s p in let '(us, s) := piece_tags keep s ps in (ts ++ us, s)
  end.

(** Whether every piece stands where its escaping belongs. *)
Inductive place := PText | PTag | PQuotes.

#[export] Instance place_eq_dec : EqDecision place.
Proof. solve_decision. Defined.

Definition place_of (s : reading) : place := match s with InText => PText | InTag _ => PTag | InQuotes _ => PQuotes end.
Definition start_of (p : place) : reading := match p with PText => InText | PTag => InTag [] | PQuotes => InQuotes [] end.

Definition place_step (p : place) (x : piece) : option place :=
  match x, p with
  | Tpl t, _ => Some (place_of (snd (scan false (start_of p) t)))
  | Raw _, PTag | Body _, (PTag | PQuotes) | Attr _, (PText | PTag) => None
  | _, _ => Some p
  end.

Fixpoint placed (p : place) (ps : list piece) : option place :=
  match ps with [] => Some p | x :: ps => match place_step p x with Some p => placed p ps | None => None end end.

(** Text of our own without the bytes that mean something to a reader. *)
Definition inert (v : bytes) : Prop := Forall (fun c => c <> 34 /\ c <> 60 /\ c <> 62) v.
Definition piece_ok (p : piece) : Prop := match p with Raw v => inert v | _ => True end.

Lemma scan_quotes keep v : forall acc, 34 ∉ v -> scan keep (InQuotes acc) v = ([], InQuotes (if keep then acc ++ v else acc)).
Proof.
  induction v as [|c v IH]; intros acc Hv; cbn [scan]; [by rewrite app_nil_r; destruct keep|]. apply not_elem_of_cons in Hv as [Hc Hv].
  rewrite (proj2 (Z.eqb_neq c 34)) by congruence. rewrite IH by done. destruct keep; [by rewrite <- app_assoc|done].
Qed.

Lemma scan_text keep v : 60 ∉ v -> scan keep InText v = ([], InText).
Proof.
  induction v as [|c v IH]; intros Hv; cbn [scan]; [done|]. apply not_elem_of_cons in Hv as [Hc Hv]. rewrite (proj2 (Z.eqb_neq c 60)) by congruence. by apply IH.
Qed.

Lemma place_of_scan keep keep' l : forall s s', place_of s = place_of s' -> place_of (snd (scan keep s l)) = place_of (snd (scan keep' s' l)).
Proof.
  induction l as [|c l IH]; intros [|a|a] [|b|b] E; try done; cbn [scan]; repeat (match goal with |- context [if c =? ?x then _ else _] => destruct (c =? x) end);
    try (by apply IH). specialize (IH InText InText eq_refl). by destruct (scan keep InText l), (scan keep' InText l).
Qed.

Lemma html_chunk_no_quote c : 34 ∉ html_chunk true c.
Proof.
  unfold html_chunk. cbn [andb]. repeat case_match_eqn; breflect; vm_compute bs; rewrite ?not_elem_of_cons; split_and?; try done; try apply not_elem_of_nil; congruence.
Qed.

Lemma attr_no_quote v : 34 ∉ rendering HtmlAttr v.
Proof.
  unfold rendering. cbn [chunks]. induction v as [|c v IH]; [apply not_elem_of_nil|]. cbn [map concat]. intros [H|H]%elem_of_app; [|done]. by apply (html_chunk_no_quote c).
Qed.

Lemma body_no_tag v : 60 ∉ rendering HtmlBody v.
Proof.
  unfold rendering. cbn [chunks]. induction v as [|c v IH]; [apply not_elem_of_nil|]. cbn [map concat]. intros [H|H]%elem_of_app; [|done]. by destruct (html_chunk_markup false c).
Qed.

Lemma inert_no v c : inert v -> c = 34 \/ c = 60 -> c ∉ v.
Proof. intros Hv Hc Hin. unfold inert in Hv. rewrite Forall_forall in Hv. specialize (Hv c Hin). lia. Qed.

(** Reading the text of a piece, where it belongs. *)
Lemma piece_step_scan keep s p q : piece_ok p -> place_step (place_of s) p = Some q -> scan keep s (piece_text p) = piece_step keep s p /\ place_of (snd (piece_step keep s p)) = q.
Proof.
  intros Hok Hp. destruct p as [t|v|v|v]; cbn [piece_text piece_step].
  - rewrite scan_from_scan. split; [done|]. injection Hp as <-. apply place_of_scan. by destruct s.
  - destruct s as [|acc|acc]; cbn in Hp; try done; injection Hp as <-; cbn [quoted].
    + split; [|done]. apply scan_text. apply inert_no; auto.
    + split; [|done]. apply scan_quotes. apply inert_no; auto.
  - destruct s as [|acc|acc]; cbn in Hp; try done. injection Hp as <-. split; [|done]. apply scan_text, body_no_tag.
  - destruct s as [|acc|acc]; cbn in Hp; try done. injection Hp as <-. split; [|done]. apply scan_quotes, attr_no_quote.
Qed.

Lemma scan_pieces keep ps : forall s q, Forall piece_ok ps -> placed (place_of s) ps = Some q ->
  scan keep s (text_of ps) = piece_tags keep s ps /\ place_of (snd (piece_tags keep s ps)) = q.
Proof.
  induction ps as [|p ps IH]; intros s q Hok Hp; cbn [placed piece_tags] in *; [by injection Hp as <-|]. apply Forall_cons in Hok as [Hp1 Hok].
  destruct (place_step (place_of s) p) as [r|] eqn:E; [|done]. destruct (piece_step_scan keep s p r Hp1 E) as [E1 E2].
  change (text_of (p :: ps)) with (piece_text p ++ text_of ps). rewrite scan_app, E1. destruct (piece_step keep s p) as [ts s1]. cbn [snd] in E2. subst r.
  destruct (IH s1 q Hok Hp) as [-> Hq]. by destruct (piece_tags keep s1 ps).
Qed.

Lemma placed_app p a b : placed p (a ++ b) = placed p a ≫= fun q => placed q b.
Proof. revert p; induction a as [|x a IH]; intros p; cbn [app placed]; [done|]. destruct (place_step p x); [apply IH|done]. Qed.

(** Pieces that begin and end in text. *)
Definition closed (ps : list piece) : Prop := placed PText ps = Some PText.

Lemma closed_app a b : closed a -> closed b -> closed (a ++ b).
Proof. unfold closed. intros Ha Hb. by rewrite placed_app, Ha. Qed.

Lemma closed_concat pss : Forall closed pss -> closed (concat pss).
Proof. induction 1 as [|ps pss Hp _ IH]; [done|]. by apply closed_app. Qed.

Lemma piece_tags_app keep a : forall s b, piece_tags keep s (a ++ b) = let '(ts, s) := piece_tags keep s a in let '(us, s) := piece_tags keep s b in (ts ++ us, s).
Proof.
  induction a as [|p a IH]; intros s b; cbn [app piece_tags]; [by destruct (piece_tags keep s b)|]. destruct (piece_step keep s p) as [ts s1]. rewrite IH.
  destruct (piece_tags keep s1 a) as [us s2]. destruct (piece_tags keep s2 b). by rewrite app_assoc.
Qed.

(** ** The pieces of a page stand where they belong *)

Lemma confirmed_closed row : closed (confirmed_pieces row).
Proof.
  unfold confirmed_pieces, optional. destruct (present (row_cve_id row)), (negb (row_kev_flag row =? 0)), (present (row_remediation row)), (row_epss row); vm_compute; reflexivity.
Qed.

Lemma undetermined_closed row : closed (undetermined_pieces row).
Proof. unfold undetermined_pieces, service_pieces, optional. destruct (present (row_cve_id row)), (present (row_service row)); vm_compute; reflexivity. Qed.

Lemma port_closed row : closed (port_pieces row).
Proof. unfold port_pieces, service_pieces, optional. destruct (row_port row =? 0), (present (row_service row)); vm_compute; reflexivity. Qed.

Lemma div_closed (cur : option Z) : closed (match cur with Some _ => [Tpl (tpl "</div>|")] | None => [] end).
Proof. destruct cur; vm_compute; reflexivity. Qed.

Lemma port_blocks_closed rows cur : closed (port_blocks rows cur).
Proof.
  revert cur; induction rows as [|row rows IH]; intros cur; cbn [port_blocks]; [apply div_closed|]. apply closed_app; [|apply closed_app; [apply confirmed_closed|apply IH]].
  case_bool_decide; [done|]. apply closed_app; [apply div_closed|apply port_closed].
Qed.

Lemma verdict_closed confirmed undetermined : closed (verdict_pieces confirmed undetermined).
Proof.
  unfold verdict_pieces. apply closed_app.
  - destruct confirmed as [|r1 confirmed], undetermined as [|r2 undetermined]; [vm_compute; reflexivity..|apply port_blocks_closed|apply port_blocks_closed].
  - destruct undetermined as [|r2 undetermined]; [done|]. apply closed_app; [vm_compute; reflexivity|]. apply closed_app; [|vm_compute; reflexivity]. apply closed_concat.
    apply Forall_forall. intros ps Hps. apply list_elem_of_fmap in Hps as (row & -> & _). apply undetermined_closed.
Qed.

Lemma not_affected_closed rows : closed (not_affected_pieces rows).
Proof. destruct rows; vm_compute; reflexivity. Qed.

Lemma section_closed host rows : closed (section_pieces host rows).
Proof.
  unfold section_pieces. apply closed_app; [vm_compute; reflexivity|]. apply closed_app; [apply verdict_closed|]. apply closed_app; [apply not_affected_closed|vm_compute; reflexivity].
Qed.

Lemma findings_closed fs : closed (findings_pieces fs).
Proof.
  unfold findings_pieces. destruct (host_groups fs) as [|g gs]; [vm_compute; reflexivity|]. apply closed_concat. apply Forall_forall. intros ps Hps.
  apply list_elem_of_fmap in Hps as (g' & -> & _). apply section_closed.
Qed.

Lemma meta_closed label value : closed [Tpl (tpl label)] -> closed (meta_pieces label value).
Proof.
  intros Hl. unfold meta_pieces. apply (closed_app [Tpl (tpl "<tr><th>")]); [vm_compute; reflexivity|]. apply (closed_app [Tpl (tpl label)]); [done|]. vm_compute. reflexivity.
Qed.

Lemma raw_placed logo : placed PQuotes (map Raw logo) = Some PQuotes.
Proof. by induction logo. Qed.

Lemma cover_closed logo id s : closed (cover_pieces logo id s).
Proof.
  unfold cover_pieces, closed. rewrite placed_app. change (placed PText [Tpl _]) with (Some PQuotes). cbn [mbind option_bind]. rewrite placed_app, raw_placed. cbn [mbind option_bind].
  rewrite placed_app. change (placed PQuotes [Tpl _; Raw _; Tpl _]) with (Some PText). cbn [mbind option_bind].
  repeat (apply closed_app; [apply meta_closed; vm_compute; reflexivity|]). vm_compute. reflexivity.
Qed.

Lemma summary_closed s counts : closed (summary_pieces s counts).
Proof. unfold summary_pieces. destruct (0 <? _); vm_compute; reflexivity. Qed.

Lemma head_closed id : closed (head_pieces id).
Proof. vm_compute. reflexivity. Qed.

Lemma page_closed logo s fs : closed (page_pieces logo s fs).
Proof.
  unfold page_pieces. apply closed_app; [apply head_closed|]. apply closed_app; [apply cover_closed|]. apply closed_app; [apply summary_closed|].
  apply closed_app; [vm_compute; reflexivity|]. apply closed_app; [apply findings_closed|vm_compute; reflexivity].
Qed.

(** *** Our own text is inert *)

Lemma inert_app a b : inert a -> inert b -> inert (a ++ b).
Proof. apply Forall_app_2. Qed.

Lemma inert_digits l : Forall (fun c => 48 <= c <= 57) l -> inert l.
Proof. intros Hl. eapply Forall_impl; [exact Hl|]. intros c Hc. cbn in Hc. lia. Qed.

Lemma inert_print_dec n : inert (print_dec n).
Proof.
  unfold print_dec. destruct (Z.ltb_spec n 0).
  - constructor; [lia|]. apply inert_digits, dec_loop_digits; [lia|constructor].
  - apply inert_digits, dec_loop_digits; [lia|constructor].
Qed.

Lemma inert_pad_digits n v : 0 <= v -> inert (pad_digits n v).
Proof.
  revert v; induction n as [|n IH]; intros v Hv; cbn [pad_digits]; [constructor|]. apply inert_app; [apply IH, Z.quot_pos; lia|].
  apply Forall_singleton. pose proof (Z.rem_bound_pos v 10 Hv ltac:(lia)). lia.
Qed.

Lemma inert_score v : is_score v -> inert (format_fixed4 v).
Proof.
  intros Hv. destruct (score_text v Hv) as (q & Hq & ->). apply inert_app; [|apply inert_app].
  - apply Forall_singleton. assert (0 <= q / 10000 <= 1) by (split; [apply Z.div_pos; lia|apply Z.div_le_upper_bound; lia]). lia.
  - apply Forall_singleton. lia.
  - apply inert_pad_digits. apply Z.mod_pos_bound. lia.
Qed.

Lemma inert_label s : inert (severity_label s).
Proof. unfold severity_label. repeat case_match_eqn; vm_compute bs; repeat (constructor; [lia|]); constructor. Qed.

Create HintDb page.
#[local] Hint Resolve inert_print_dec inert_label inert_score : page.

(** Walks down a list of pieces. *)
Ltac pieces_ok := repeat first [apply Forall_app_2 | apply Forall_cons_2 | apply Forall_nil_2]; cbn [piece_ok]; auto with page.

Lemma confirmed_ok row : row_ok row -> Forall piece_ok (confirmed_pieces row).
Proof.
  intros Hrow. unfold confirmed_pieces, optional. destruct (present (row_cve_id row)), (negb (row_kev_flag row =? 0)), (present (row_remediation row)), (row_epss row) eqn:E; pieces_ok.
Qed.

Lemma undetermined_ok row : Forall piece_ok (undetermined_pieces row).
Proof. unfold undetermined_pieces, service_pieces, optional. destruct (present (row_cve_id row)), (present (row_service row)); pieces_ok. Qed.

Lemma port_blocks_ok rows cur : Forall row_ok rows -> Forall piece_ok (port_blocks rows cur).
Proof.
  intros Hrows; revert cur; induction Hrows as [|row rows Hrow _ IH]; intros cur; cbn [port_blocks]; [destruct cur; pieces_ok|].
  apply Forall_app_2; [|apply Forall_app_2; [by apply confirmed_ok|apply IH]]. case_bool_decide; [constructor|]. apply Forall_app_2; [destruct cur; pieces_ok|].
  unfold port_pieces, service_pieces, optional. destruct (row_port row =? 0), (present (row_service row)); pieces_ok.
Qed.

Lemma with_status_ok status rows : Forall row_ok rows -> Forall row_ok (with_status status rows).
Proof.
  intros Hrows. rewrite Forall_forall in Hrows |- *. intros row Hrow. apply Hrows. apply list_elem_of_In, filter_In in Hrow as [Hrow _]. by apply list_elem_of_In.
Qed.

Lemma concat_ok {A} (f : A -> list piece) l : (forall x, Forall piece_ok (f x)) -> Forall piece_ok (concat (map f l)).
Proof. intros Hf. induction l as [|x l IH]; [constructor|]. by apply Forall_app_2. Qed.

Lemma verdict_ok confirmed undetermined : Forall row_ok confirmed -> Forall piece_ok (verdict_pieces confirmed undetermined).
Proof.
  intros Hc. pose proof (port_blocks_ok _ None Hc) as Hblocks. unfold verdict_pieces. apply Forall_app_2.
  - destruct confirmed as [|r1 confirmed], undetermined as [|r2 undetermined]; [pieces_ok|pieces_ok|done|done].
  - destruct undetermined as [|r2 undetermined]; [constructor|]. apply Forall_app_2; [pieces_ok|]. apply Forall_app_2; [|pieces_ok]. apply concat_ok. exact undetermined_ok.
Qed.

Lemma section_ok host rows : Forall row_ok rows -> Forall piece_ok (section_pieces host rows).
Proof.
  intros Hrows. unfold section_pieces. apply Forall_app_2; [pieces_ok|]. apply Forall_app_2; [by apply verdict_ok, with_status_ok|]. apply Forall_app_2; [|pieces_ok].
  unfold not_affected_pieces. destruct (with_status FINDING_NOT_AFFECTED rows); pieces_ok.
Qed.

Lemma groups_from_checks host l fs :
  Forall (fun f => result_checks f.1) l -> Forall (fun f => result_checks f.1) fs -> Forall (fun g => Forall (fun f => result_checks f.1) g.2) (groups_from host l fs).
Proof.
  intros Hl Hfs; revert host l Hl; induction Hfs as [|f fs Hf _ IH]; intros host l Hl; cbn [groups_from]; [by apply Forall_singleton|].
  case_bool_decide; [apply IH, Forall_app_2; [done|by apply Forall_singleton]|]. constructor; [done|]. by apply IH, Forall_singleton.
Qed.

Lemma host_groups_checks fs : Forall (fun f => result_checks f.1) fs -> Forall (fun g => Forall (fun f => result_checks f.1) g.2) (host_groups fs).
Proof. destruct 1; [constructor|]. apply groups_from_checks; [by apply Forall_singleton|done]. Qed.

Lemma findings_ok fs : Forall (fun f => result_checks f.1) fs -> Forall piece_ok (findings_pieces fs).
Proof.
  intros Hfs. pose proof (host_groups_checks fs Hfs) as Hg. unfold findings_pieces. destruct (host_groups fs) as [|g gs]; [pieces_ok|].
  clear Hfs. induction Hg as [|g' gs' Hg' _ IH]; [constructor|]. apply Forall_app_2; [|exact IH]. by apply section_ok, row_checks_ok.
Qed.

Lemma page_ok logo s fs : Forall inert logo -> Forall (fun f => result_checks f.1) fs -> Forall piece_ok (page_pieces logo s fs).
Proof.
  intros Hlogo Hfs. unfold page_pieces. apply Forall_app_2; [|apply Forall_app_2; [|apply Forall_app_2; [|apply Forall_app_2; [pieces_ok|apply Forall_app_2; [by apply findings_ok|pieces_ok]]]]].
  - unfold head_pieces. apply Forall_app_2; [pieces_ok|]. apply Forall_app_2; [|pieces_ok]. apply Forall_forall. intros p Hp. by apply list_elem_of_fmap in Hp as (t & -> & _).
  - unfold cover_pieces. apply Forall_app_2; [pieces_ok|]. apply Forall_app_2; [|pieces_ok]. apply Forall_forall. intros p Hp. apply list_elem_of_fmap in Hp as (t & -> & Ht).
    rewrite Forall_forall in Hlogo. by apply Hlogo.
  - unfold summary_pieces. apply Forall_app_2; [pieces_ok|]. apply Forall_app_2; [destruct (0 <? _); pieces_ok|]. apply Forall_app_2; [pieces_ok|].
    apply Forall_app_2; [|pieces_ok]. apply concat_ok. intros k. unfold severity_item_pieces. pieces_ok.
Qed.

(** ** No value adds markup *)

Definition blank (p : piece) : piece := match p with Body _ => Body [] | Attr _ => Attr [] | _ => p end.

Lemma blank_placed ps : forall p, placed p (map blank ps) = placed p ps.
Proof.
  induction ps as [|x ps IH]; intros p; cbn [map placed]; [done|]. assert (place_step p (blank x) = place_step p x) as -> by (by destruct x, p). by destruct (place_step p x).
Qed.

Lemma blank_ok ps : Forall piece_ok ps -> Forall piece_ok (map blank ps).
Proof. induction 1 as [|p ps Hp _ IH]; cbn [map]; constructor; [by destruct p|done]. Qed.

Lemma blank_tags ps : forall s, piece_tags false s (map blank ps) = piece_tags false s ps.
Proof.
  induction ps as [|p ps IH]; intros s; cbn [map piece_tags]; [done|]. assert (piece_step false s (blank p) = piece_step false s p) as -> by (by destruct p, s).
  destruct (piece_step false s p). by rewrite IH.
Qed.

Lemma markup_blank ps : closed ps -> Forall piece_ok ps -> markup (text_of ps) = markup (text_of (map blank ps)) /\ snd (markup (text_of ps)) = InText.
Proof.
  intros Hc Hok. unfold markup. destruct (scan_pieces false ps InText PText Hok Hc) as [-> Hp].
  destruct (scan_pieces false (map blank ps) InText PText (blank_ok ps Hok)) as [-> _]; [by rewrite blank_placed|]. rewrite blank_tags. split; [done|].
  by destruct (snd (piece_tags false InText ps)).
Qed.

(** ** The cards of a section *)

Definition starts_with (p t : bytes) : bool := match strip_prefix p t with Some _ => true | None => false end.

(** The tag of a finding card, and that of the line of a host without any. *)
Definition is_card (t : bytes) : bool := starts_with (tpl "div class=`finding ") t.
Definition is_clean (t : bytes) : bool := match strip_prefix (tpl "p class=`host-clean`") t with Some [] => true | _ => false end.

Definition confirmed_tag (row : html_row) : bytes :=
  (((((tpl "div class=`finding sev-" ++ print_dec (row_severity row)) ++ tpl "` title=`") ++ rendering HtmlAttr (row_evidence row)) ++
    tpl "` data-plugin-id=`") ++ rendering HtmlAttr (row_plugin_id row)) ++ tpl "`".

Definition undetermined_tag (row : html_row) : bytes :=
  (tpl "div class=`finding undetermined-finding` title=`" ++ rendering HtmlAttr (row_evidence row)) ++ tpl "`".

(** The pieces show these cards, and that line or not. *)
Definition shows (ps : list piece) (cards : list bytes) (clean : bool) : Prop :=
  exists ts, piece_tags true InText ps = (ts, InText) /\ List.filter is_card ts = cards /\ existsb is_clean ts = clean.

Lemma shows_nil : shows [] [] false.
Proof. by exists []. Qed.

Lemma shows_app a b c1 c2 k1 k2 : shows a c1 k1 -> shows b c2 k2 -> shows (a ++ b) (c1 ++ c2) (k1 || k2).
Proof.
  intros (ts & Ha & Hc1 & Hk1) (us & Hb & Hc2 & Hk2). exists (ts ++ us). rewrite piece_tags_app, Ha, Hb. by rewrite List.filter_app, existsb_app, Hc1, Hc2, Hk1, Hk2.
Qed.

(** Pieces without a card on either side. *)
Lemma shows_before a b c k : shows a [] false -> shows b c k -> shows (a ++ b) c k.
Proof. exact (shows_app a b [] c false k). Qed.

Lemma shows_after a b c k : shows a c k -> shows b [] false -> shows (a ++ b) c k.
Proof. intros Ha Hb. pose proof (shows_app a b c [] k false Ha Hb) as H. by rewrite app_nil_r, orb_false_r in H. Qed.

Ltac show_tags :=
  eexists; split; [lazy -[rendering print_dec severity_label format_fixed4 nvd_url]; reflexivity|];
  split; lazy -[rendering print_dec severity_label format_fixed4 nvd_url]; reflexivity.

Lemma confirmed_shows row : shows (confirmed_pieces row) [confirmed_tag row] false.
Proof.
  unfold confirmed_pieces, optional. destruct (present (row_cve_id row)), (negb (row_kev_flag row =? 0)), (present (row_remediation row)), (row_epss row); show_tags.
Qed.

Lemma undetermined_shows row : shows (undetermined_pieces row) [undetermined_tag row] false.
Proof. unfold undetermined_pieces, service_pieces, optional. destruct (present (row_cve_id row)), (present (row_service row)); show_tags. Qed.

Lemma port_shows row : shows (port_pieces row) [] false.
Proof. unfold port_pieces, service_pieces, optional. destruct (row_port row =? 0), (present (row_service row)); show_tags. Qed.

Lemma div_shows (cur : option Z) : shows (match cur with Some _ => [Tpl (tpl "</div>|")] | None => [] end) [] false.
Proof. destruct cur; [show_tags|apply shows_nil]. Qed.

Lemma port_blocks_show rows : forall cur, shows (port_blocks rows cur) (map confirmed_tag rows) false.
Proof.
  induction rows as [|row rows IH]; intros cur; cbn [port_blocks map]; [apply div_shows|].
  apply shows_before; [case_bool_decide; [apply shows_nil|apply shows_before; [apply div_shows|apply port_shows]]|].
  exact (shows_app _ _ [_] _ false false (confirmed_shows row) (IH _)).
Qed.

Lemma undetermined_list_shows rows : shows (concat (map undetermined_pieces rows)) (map undetermined_tag rows) false.
Proof.
  induction rows as [|row rows IH]; [apply shows_nil|]. exact (shows_app _ _ [_] _ false false (undetermined_shows row) IH).
Qed.

Lemma verdict_shows confirmed undetermined :
  shows (verdict_pieces confirmed undetermined) (map confirmed_tag confirmed ++ map undetermined_tag undetermined) (bool_decide (confirmed = [] /\ undetermined = [])).
Proof.
  assert (Hblock : forall l, shows ([Tpl (tpl "<div class=`undetermined-block`>|<h4>Undetermined -- Manual Review Needed</h4>|")] ++ concat (map undetermined_pieces l) ++ [Tpl (tpl "</div>|")])
    (map undetermined_tag l) false).
  { intros l. apply shows_before; [show_tags|]. apply shows_after; [apply undetermined_list_shows|show_tags]. }
  unfold verdict_pieces. destruct confirmed as [|r1 confirmed], undetermined as [|r2 undetermined].
  - rewrite bool_decide_true by done. show_tags.
  - rewrite bool_decide_false by by intros [_ ?]. apply shows_before; [show_tags|apply Hblock].
  - rewrite bool_decide_false by by intros [? _]. exact (shows_app _ _ _ [] false false (port_blocks_show _ None) shows_nil).
  - rewrite bool_decide_false by by intros [? _]. exact (shows_app _ _ _ _ false false (port_blocks_show _ None) (Hblock _)).
Qed.

Lemma section_shows host rows :
  let confirmed := with_status FINDING_CONFIRMED rows in
  let undetermined := with_status FINDING_UNDETERMINED rows in
  shows (section_pieces host rows) (map confirmed_tag confirmed ++ map undetermined_tag undetermined) (bool_decide (confirmed = [] /\ undetermined = [])).
Proof.
  intros confirmed undetermined. unfold section_pieces. apply shows_before; [show_tags|]. apply shows_after; [apply verdict_shows|].
  apply shows_before; [|show_tags]. unfold not_affected_pieces. destruct (with_status FINDING_NOT_AFFECTED rows); [apply shows_nil|show_tags].
Qed.

(** The same of the text of the section. *)
Lemma section_tags host rows : Forall row_ok rows ->
  let confirmed := with_status FINDING_CONFIRMED rows in
  let undetermined := with_status FINDING_UNDETERMINED rows in
  let ts := tags (text_of (section_pieces host rows)) in
  List.filter is_card ts = map confirmed_tag confirmed ++ map undetermined_tag undetermined /\ existsb is_clean ts = bool_decide (confirmed = [] /\ undetermined = []).
Proof.
  intros Hrows. cbv zeta. destruct (section_shows host rows) as (ts & E & Hcards & Hclean). unfold tags.
  destruct (scan_pieces true _ InText PText (section_ok host rows Hrows) (section_closed host rows)) as [-> _]. by rewrite E.
Qed.

Lemma classify_spec text :
  classify_match_status text = FINDING_NOT_AFFECTED <-> text = bs "not_affected".
Proof.
  unfold classify_match_status. case_bool_decide as H1; [subst; by split|]. case_bool_decide as H2; [by split|by split].
Qed.

(** A section without cards is one whose findings are all ruled out. *)
Lemma clean_rows (l : list stored_finding) :
  let rows := map row_of_columns l in
  with_status FINDING_CONFIRMED rows = [] /\ with_status FINDING_UNDETERMINED rows = [] <-> Forall (fun f => res_match_status f.1 = bs "not_affected") l.
Proof.
  cbv zeta. induction l as [|[r d] l IH]; [by split|]. rewrite Forall_cons, <- IH, <- classify_spec. unfold with_status. cbn [map row_of_columns List.filter row_status fst].
  destruct (classify_match_status (res_match_status r)); cbn; split; try (intros [? ?]; done); try (intros [? [? ?]]; done); try (by intros [? ?]); by intros [_ ?].
Qed.

(** ** Theorems *)

Section Page.
Context {C : Type} `{SqliteLaws C}.
Variable view : database -> report_view.
Variable order_findings : list stored_finding -> list stored_finding.
Variable logo : list bytes.

(** [ORDER BY host, ...] *)
Hypothesis order_permutation : forall l, Permutation (order_findings l) l.
Hypothesis order_sorted : forall l, StronglySorted by_host (order_findings l).
(** A data URI in base64. *)
Hypothesis logo_inert : Forall inert logo.

Definition stored_ok (c : C) : Prop :=
  Forall (fun f => result_checks f.1) (view_results (view (current c))) /\ Z.of_nat (length (view_results (view (current c)))) < 2 ^ 50.

Lemma selected_ok id (c : C) : stored_ok c ->
  let fs := order_findings (scan_findings view (current c) id) in Forall (fun f => result_checks f.1) fs /\ Z.of_nat (length fs) < 2 ^ 50.
Proof.
  intros [Hall Hn]. cbv zeta. split.
  - apply Forall_forall. intros f Hf. rewrite order_permutation in Hf. rewrite Forall_forall in Hall. apply Hall. apply list_elem_of_In, filter_In in Hf as [Hf _]. by apply list_elem_of_In.
  - rewrite (Permutation_length (order_permutation _)). eapply Z.le_lt_trans; [|exact Hn]. apply inj_le, List.filter_length_le.
Qed.

(** What stands before the sections of the hosts, and after. *)
Definition page_front (s : scan_entry) (fs : list stored_finding) : bytes :=
  text_of (head_pieces (scan_id s.1) ++ cover_pieces logo (scan_id s.1) s ++ summary_pieces s (counts_of fs) ++ [Tpl (tpl "<section class=`findings`>|<h2>Findings</h2>|")]).

Definition page_back : bytes := tpl "</section>|</body>|</html>|".

(** The sections, or the line in their place. *)
Definition page_sections (sections : list (bytes * list stored_finding)) : bytes :=
  match sections with
  | [] => tpl "<p class=`no-findings`>No scan_results recorded for this scan.</p>|"
  | _ => concat (map (fun g => text_of (group_pieces g)) sections)
  end.

(** A section that shows its host as it is. *)
Definition honest_section (g : bytes * list stored_finding) : Prop :=
  let rows := map row_of_columns g.2 in
  let ts := tags (text_of (group_pieces g)) in
  g.2 <> [] /\ (forall f, f ∈ g.2 -> res_host f.1 = g.1) /\
  List.filter is_card ts = map confirmed_tag (with_status FINDING_CONFIRMED rows) ++ map undetermined_tag (with_status FINDING_UNDETERMINED rows) /\
  (existsb is_clean ts = true <-> Forall (fun f => res_match_status f.1 = bs "not_affected") g.2).

(** C3: The HTML report shows every finding of the scan and calls a host clean
    only when it is.  On a connection outside a transaction whose findings
    satisfy the CHECK constraints of their table and are fewer than 2^50, a
    page that was rendered is the summary with the counts of the findings, then one section per host, no host twice, whose
    findings are together all those of the scan in the order of the query; a
    scan without findings has the line that says so in place of sections.
    Read as a browser reads tags, a section has exactly one card per confirmed
    finding, with the severity, the evidence and the plugin of that finding,
    and one manual-review card per finding of any status but confirmed and
    not_affected, with the evidence of that finding, and has the line without
    vulnerabilities if and only if all its findings are ruled out.  Not found
    is answered only of a scan that is not there, an invalid argument only of
    an id that is not positive, and out of memory only when an allocation
    failed or the page does not fit the address space.  In every case the
    connection is as it was and no block but the buffer is left. *)
Theorem report_html_lists_findings id (c : C) h :
  let fs := order_findings (scan_findings view (current c) id) in
  in_tx c = false -> stored_ok c ->
  let '(r, c', (out, h')) := report_html view order_findings logo id c (report_buf_init, h) in
  same_conn c c' /\ live h' = live h + owned out /\
  match r with
  | REPORT_OK => exists s sections, find_scan view (current c) id = Some s /\
      concat (map snd sections) = fs /\ NoDup (map fst sections) /\ Forall honest_section sections /\
      buf_data out = page_front s fs ++ page_sections sections ++ page_back
  | REPORT_ERR_INVALID_ARG => id <= 0
  | REPORT_ERR_NOT_FOUND => 0 < id /\ find_scan view (current c) id = None
  | REPORT_ERR_DB => 0 < id
  | REPORT_ERR_OOM => false ∈ oracle h \/ exists s, find_scan view (current c) id = Some s /\ SIZE_MAX < Z.of_nat (length (page_text logo s fs)) + 1
  end.
Proof.
  intros fs Ht Hst. destruct (selected_ok id c Hst) as [Hfs Hn]. fold fs in Hfs, Hn.
  pose proof (report_html_renders view order_findings logo id c report_buf_init h Ht ltac:(by left) (order_permutation _) Hfs Hn) as Hr.
  destruct (report_html view order_findings logo id c _) as [[r c'] [out h']]. destruct Hr as (Hc & [Hb Hl] & Hr). fold fs in Hr. cbn [fst snd] in *.
  change (owned report_buf_init) with 0 in Hl. split; [done|]. split; [lia|]. destruct r; try done.
  2: { destruct Hr as (s & Hs & [?|Hbig]); [by left|right]. exists s. split; [done|exact Hbig]. }
  destruct Hr as (s & Hs & Hd). destruct (host_groups_spec fs (order_sorted _)) as (Hcat & Hnd & Hgrp). exists s, (host_groups fs). split_and!; try done.
  - pose proof (host_groups_checks fs Hfs) as Hchk. rewrite Forall_forall in Hgrp, Hchk |- *. intros [host l] Hg. destruct (Hgrp _ Hg) as [Hne Hhost]. specialize (Hchk _ Hg). cbn [fst snd] in *.
    destruct (section_tags host (map row_of_columns l) (row_checks_ok l Hchk)) as [Hcards Hclean]. unfold honest_section. cbn [fst snd]. split_and!; try done.
    change (group_pieces (host, l)) with (section_pieces host (map row_of_columns l)). rewrite Hclean, bool_decide_eq_true. apply clean_rows.
  - assert (Ht' : findings_text fs = page_sections (host_groups fs)).
    { destruct (host_groups fs) as [|g gs] eqn:Eg; [|rewrite findings_text_groups by congruence; by rewrite Eg].
      unfold findings_text, findings_pieces. rewrite Eg. apply app_nil_r. }
    rewrite Hd, page_text_parts, Ht'. change (buf_data report_buf_init) with (@nil byte). unfold page_front, page_back.
    rewrite !text_of_app. change (text_of [Tpl ?t]) with (t ++ []). rewrite !app_nil_r, <- !app_assoc. done.
Qed.

(** C6: No value of the database adds markup to the HTML report.  Whatever
    bytes the scan and its findings hold, the tags of the page, with what
    stands outside quotes in them, are those of the same page with every
    escaped value left empty, and the page ends outside every tag: a banner
    or an evidence text can neither open nor close an element nor leave its
    attribute. *)
Theorem report_html_no_injection id (c : C) h c' out h' :
  let fs := order_findings (scan_findings view (current c) id) in
  in_tx c = false -> stored_ok c ->
  report_html view order_findings logo id c (report_buf_init, h) = (REPORT_OK, c', (out, h')) ->
  exists s, find_scan view (current c) id = Some s /\
    markup (buf_data out) = markup (text_of (map blank (page_pieces logo s fs))) /\ snd (markup (buf_data out)) = InText.
Proof.
  intros fs Ht Hst E. destruct (selected_ok id c Hst) as [Hfs Hn]. fold fs in Hfs, Hn.
  pose proof (report_html_renders view order_findings logo id c report_buf_init h Ht ltac:(by left) (order_permutation _) Hfs Hn) as Hr.
  rewrite E in Hr. destruct Hr as (_ & _ & s & Hs & Hd). exists s. split; [done|]. cbn [fst] in Hd. rewrite Hd. change (buf_data report_buf_init) with (@nil byte).
  fold fs. unfold page_text. cbn [app]. apply markup_blank; [apply page_closed|by apply page_ok].
Qed.
End Page.

(** ** A page with hostile values *)

#[local] Instance by_host_decision a b : Decision (by_host a b) := decide (bytes_leb (res_host a.1) (res_host b.1) = true).
#[local] Instance by_host_total : Total by_host := fun a b => bytes_leb_total _ _.
#[local] Instance by_host_trans : Transitive by_host := fun a b c => bytes_leb_trans _ _ _.

(** A sort that does for the query. *)
Definition example_order : list stored_finding -> list stored_finding := merge_sort by_host.

Lemma example_order_permutation l : Permutation (example_order l) l.
Proof. apply merge_sort_Permutation. Qed.

Lemma example_order_sorted l : StronglySorted by_host (example_order l).
Proof. apply StronglySorted_merge_sort; apply _. Qed.

Definition example_result (host : string) (status : string) : result_row :=
  ResultRow 7 (bs host) 443 (Some (bs "<b>")) (bs "41") (Some (bs "CVE-2024-1234")) (bs status) 3 (tpl "`><script>alert(1)</script>") None 1 (Some (Dyadic 1 (-1))).

Definition example_view (d : database) : report_view :=
  ReportView (map (fun s => (s, ScanTimes (bs "2026-01-01T00:00:00.000Z") None (bs "2026-01-01T00:00:00.000Z"))) (db_scans d))
    (map (fun r => (r, bs "2026-01-01T00:00:01.000Z")) (db_results d)).

Definition example_conn : toy_conn :=
  ToyConn (Database ∅ [] ∅ ∅ [ScanRow 7 (bs "192.0.2.0/24") (bs "<ops>") (bs "flag") (bs "completed") true 0]
    [example_result "192.0.2.9" "confirmed"; example_result "192.0.2.1" "not_affected"; example_result "192.0.2.9" "undetermined"] ∅ (Schema ∅ ∅ [])) None [].

Definition example_logo : list bytes := [bs "data:image/png;base64,AAAA"].

Lemma example_logo_inert : Forall inert example_logo.
Proof. repeat constructor; vm_compute; discriminate. Qed.

Lemma example_stored_ok : stored_ok example_view example_conn.
Proof. split; [|vm_compute; reflexivity]. repeat (apply Forall_cons_2; [unfold result_checks; cbn; split_and!; try done; by right|]). apply Forall_nil_2. Qed.

Lemma example_idle : in_tx example_conn = false.
Proof. reflexivity. Qed.

Lemma example_renders :
  exists c' out h', report_html example_view example_order example_logo 7 example_conn (report_buf_init, Heap [] 0) = (REPORT_OK, c', (out, h')) /\ owned out = 1.
Proof.
  assert (Hb : (let '(r, _, (out, _)) := report_html example_view example_order example_logo 7 example_conn (report_buf_init, Heap [] 0) in
                bool_decide (r = REPORT_OK) && (owned out =? 1)) = true) by (vm_compute; reflexivity).
  destruct (report_html example_view example_order example_logo 7 example_conn (report_buf_init, Heap [] 0)) as [[r c'] [out h']].
  apply andb_prop in Hb as [->%bool_decide_eq_true Ho%Z.eqb_eq]. by exists c', out, h'.
Qed.

Lemma report_html_lists_findings_witness :
  exists c' out h', report_html example_view example_order example_logo 7 example_conn (report_buf_init, Heap [] 0) = (REPORT_OK, c', (out, h')) /\
  (exists sections, NoDup (map fst sections) /\ length (concat (map snd sections)) = 3%nat /\ Forall honest_section sections) /\ live h' = 1.
Proof.
  destruct example_renders as (c' & out & h' & E & Ho). exists c', out, h'. split; [exact E|].
  pose proof (report_html_lists_findings example_view example_order example_logo example_order_permutation example_order_sorted 7 example_conn (Heap [] 0) example_idle example_stored_ok) as R.
  rewrite E in R. destruct R as (_ & Hl & s & sections & _ & Hcat & Hnd & Hall & _). split; [|rewrite Hl, Ho; reflexivity].
  exists sections. split; [exact Hnd|]. split; [rewrite Hcat; vm_compute; reflexivity|exact Hall].
Defined.

Lemma report_html_no_injection_witness :
  exists c' out h', report_html example_view example_order example_logo 7 example_conn (report_buf_init, Heap [] 0) = (REPORT_OK, c', (out, h')) /\ snd (markup (buf_data out)) = InText.
Proof.
  destruct example_renders as (c' & out & h' & E & _). exists c', out, h'. split; [exact E|].
  destruct (report_html_no_injection example_view example_order example_logo example_order_permutation example_logo_inert 7 example_conn (Heap [] 0) c' out h' example_idle example_stored_ok E) as (s & _ & _ & Hend).
  exact Hend.
Defined.
