(* ===== verification/SyncCmd.v ===== *)
(** * The sync command ([src/src/cli/sync_cmd.c])

    One run opens and migrates the database, builds the configuration of the
    fetches from the environment, and drives the three feeds: the windows of
    the NVD, the KEV catalogue, the pages of EPSS.  The transport is the one of
    [NvdFetch]: the world [V] of libcurl with the requests made so far and the
    heap.  What is printed is not modelled. *)

From S2P Require Import Prelude CveId Json Sqlite Migrations NvdIngest Calendar Strtol Log NvdFetch NvdSync Feed KevIngest EpssIngest FeedSync NvdCatchup Cli.

#[local] Arguments bs : simpl never.

(** ** The environment *)

Record sync_env := SyncEnv {
  se_db_path : option bytes;
  se_nvd_api_url : option bytes;
  se_nvd_max_retries : option bytes;
  se_kev_url : option bytes;
  se_epss_url : option bytes;
  se_epss_page_size : option bytes
}.

Definition SYNC_CMD_MAX_RETRIES_CAP : Z := 20.

(** [cytadel_sync_cmd_resolve_db_path] *)
Definition resolve_db_path (args : sync_cmd_args) (e : sync_env) : option bytes :=
  match nonempty (sync_db_path args) with
  | Some path => Some path
  | None => nonempty (se_db_path e)
  end.

(** [cytadel_sync_cmd_resolve_now], with a buffer of [ISO8601_BUF_LEN] bytes. *)
Definition resolve_now (args : sync_cmd_args) (clock : option (Z * Z)) : option bytes :=
  match nonempty (now_override args) with
  | Some now => Some now
  | None => format_timestamp_utc clock ISO8601_BUF_LEN
  end.

(** A number of the environment: [strtol] takes the whole text, without
    overflow; [None] is the warning. *)
Definition env_long (text : bytes) : option Z :=
  let '(v, rest, erange) := strtol text in
  if negb erange && negb (no_conversion text rest) && Nat.eqb (length rest) 0 then Some v else None.

(** [cytadel_sync_cmd_build_fetch_config] *)
Definition build_fetch_config (e : sync_env) : fetch_config :=
  let d := config_init_default in
  let url := match nonempty (se_nvd_api_url e) with Some url => Some url | None => base_url d end in
  let retries :=
    match nonempty (se_nvd_max_retries e) with
    | Some text =>
        match env_long text with
        | Some v => if 0 <=? v then (if SYNC_CMD_MAX_RETRIES_CAP <? v then SYNC_CMD_MAX_RETRIES_CAP else v) else max_retries d
        | None => max_retries d
        end
    | None => max_retries d
    end in
  FetchConfig url (results_per_page d) (connect_timeout_sec d) (total_timeout_sec d) (low_speed_limit_bytes d) (low_speed_time_sec d)
    (max_response_bytes d) retries (backoff_initial_ms d) (backoff_max_ms d) (retry_after_max_sec d) (ca_info_path d).

(** The page size of EPSS, 0 for the default of the driver. *)
Definition epss_page_size (e : sync_env) : Z :=
  match nonempty (se_epss_page_size e) with
  | Some text => match env_long text with Some v => if 0 <? v then v else 0 | None => 0 end
  | None => 0
  end.

(** ** The run *)

Section Run.
Context {C V : Type} `{Sqlite C}.
Variable sqlite3_open : bytes -> bool * C.
Variable pragma : string -> C -> bool * C.
Variable migration_time : Z -> option bytes.
Variable json_parse : bytes -> option json.
(** The clock of the KEV ingest, and of the ingest of an EPSS page. *)
Variable kev_now epss_now : Z -> nat -> option bytes.
Variable kev_today epss_today : Z -> bytes.
Variable curl_easy_init : V -> bool * V.
Variable curl_easy_escape : bytes -> option bytes.
Variable curl_setopt_ok : critical_option -> bool.
Variable curl_perform : NvdFetch.request -> V -> transfer * V.
Variable api_key : option bytes.
Variable seed : Z -> V -> Z.
Variable sleep_ms : Z -> V -> V.

(** The world of the drivers: of libcurl, with what was asked of it, and the
    heap. *)
Record sync_world := SyncWorld { sw_curl : V; sw_events : list fetch_event; sw_heap : heap }.

(** What a driver gets of a fetch: the body of an OK, a block of its own, or
    NULL. *)
Definition delivered (out : option (fetch_status * option bytes * (V * list fetch_event) * heap)) (w : sync_world) : answer * sync_world :=
  match out with
  | Some (st, body, (v, evs), h) =>
      (if bool_decide (st = FETCH_OK) then Some body else None, SyncWorld v (sw_events w ++ evs) h)
  | None => (None, w)
  end.

(** [free] of a body. *)
Definition free_body (body : option bytes) (w : sync_world) : sync_world :=
  SyncWorld (sw_curl w) (sw_events w) (free_if (bool_decide (is_Some body)) (sw_heap w)).

Definition fetch_nvd_page (cfg : fetch_config) (start_index : Z) (start_date end_date : option bytes) (w : sync_world) : answer * sync_world :=
  delivered (page_logged curl_easy_init curl_easy_escape curl_setopt_ok curl_perform api_key seed sleep_ms
    (Some cfg) start_index start_date end_date (sw_curl w) (sw_heap w)) w.

Definition fetch_feed (cfg : fetch_config) (url : bytes) (w : sync_world) : answer * sync_world :=
  delivered (get_logged curl_easy_init curl_setopt_ok curl_perform api_key seed sleep_ms
    (Some cfg) (Some url) (sw_curl w) (sw_heap w)) w.

(** What is left of a run: the exit code, the statuses of the feeds when they
    were tried, the connection they left, the handles that are open, and the
    world. *)
Record sync_outcome := SyncOutcome {
  so_success : bool;
  so_feeds : option (catchup_status * NvdSync.sync_status * NvdSync.sync_status);
  so_conn : option C;
  so_handles : Z;
  so_world : sync_world
}.

(** [cytadel_sync_cmd_run] of arguments that are not NULL.  [None] would be a
    catch-up that does not end. *)
Definition sync_run (args : sync_cmd_args) (e : sync_env) (clock : option (Z * Z)) (v : V) (h : heap) : option sync_outcome :=
  let failed handles h := Some (SyncOutcome false None None handles (SyncWorld v [] h)) in
  match resolve_db_path args e with
  | None => failed 0 h
  | Some db_path =>
      let '(db_status, db, handles, h) := db_open sqlite3_open pragma (Some db_path) h in
      match db with
      | None => failed handles h
      | Some c =>
          let '(db_status, c) := migrations_run migration_time c in
          let closed := db_close (Some c) handles h in
          if negb (bool_decide (db_status = DB_OK)) then failed (fst closed) (snd closed) else
          let cfg := build_fetch_config e in
          match resolve_now args clock with
          | None => failed (fst closed) (snd closed)
          | Some now =>
              '(nvd_status, nvd_counts, w, c) ←
                catchup json_parse (fetch_nvd_page cfg) free_body (results_per_page cfg) (Some now) (SyncWorld v [] h) c;
              let '(kev_status, kev_counts, w, c) := kev_sync json_parse (fetch_feed cfg) free_body kev_now kev_today (se_kev_url e) w c in
              let '(epss_status, epss_counts, w, c) :=
                epss_sync json_parse (fetch_feed cfg) free_body epss_now epss_today (se_epss_url e) (epss_page_size e) w c in
              let '(handles, h) := db_close (Some c) handles (sw_heap w) in
              let success := bool_decide (nvd_status = CATCHUP_OK) && bool_decide (kev_status = SYNC_OK) && bool_decide (epss_status = SYNC_OK) in
              Some (SyncOutcome success (Some (nvd_status, kev_status, epss_status)) (Some c) handles (SyncWorld (sw_curl w) (sw_events w) h))
          end
      end
  end.
End Run.

(** ** Lemmas: the world of the drivers *)

(** A driver changes the world only by what it fetches and frees: whatever
    holds between the world before a fetch and the one after it, or, when a
    body came, the one after that body is freed, holds for the whole run.  A
    path that keeps a body, or frees it twice, has no such chain. *)
Section Worlds.
Context {C W : Type} `{Sqlite C}.
Variable json_parse : bytes -> option json.
Variable free_body : option bytes -> W -> W.
Variable R : W -> W -> Prop.
Context `{!PreOrder R}.

Definition settled (w : W) (out : answer * W) : Prop :=
  let '(a, w') := out in match a with Some body => R w (free_body body w') | None => R w w' end.

Lemma window_loop_world fetch_page pages per_page sd ed si out w (c : C) :
  (forall a b d w, settled w (fetch_page a b d w)) ->
  let '(_, _, w', _) := window_loop json_parse fetch_page free_body pages per_page sd ed si out w c in R w w'.
Proof.
  intros Hf. induction pages as [|pages IH] in si, out, w, c |- *; cbn [window_loop]; [done|]. destruct (_ <? si); [done|]. cbv zeta.
  pose proof (Hf si sd (match sd with Some _ => Some ed | None => None end) w) as Hw. unfold settled in Hw.
  destruct (fetch_page _ _ _ w) as [[body|] w1]; [|exact Hw]. destruct (_ <? 0); [exact Hw|].
  destruct (ingest_page _ _ _ _ c) as [[st n] c1]. destruct (negb _); [exact Hw|]. destruct (_ || _); [exact Hw|].
  specialize (IH (si + per_page) (add_page n out) (free_body body w1) c1). destruct (window_loop _ _ _ _ _ _ _ _ _ _ c1) as [[[? ?] w2] ?]. by etransitivity.
Qed.

Lemma catchup_loop_world fetch_page fuel rpp wd now cursor out w (c : C) st out' w' c' :
  (forall a b d w, settled w (fetch_page a b d w)) ->
  catchup_loop json_parse fetch_page free_body fuel rpp wd now cursor out w c = Some (st, out', w', c') -> R w w'.
Proof.
  intros Hf. induction fuel as [|fuel IH] in cursor, out, w, c |- *; cbn [catchup_loop]; (destruct (negb _); [by intros [= _ _ <- _]|]); [done|].
  destruct (_ <=? _); [by intros [= _ _ <- _]|]. destruct (format_instant cursor) as [sb|]; [|by intros [= _ _ <- _]].
  destruct (format_instant _) as [eb|]; [|by intros [= _ _ <- _]]. unfold sync_window.
  destruct (nonempty (Some eb)) as [e|].
  - pose proof (window_loop_world fetch_page (Z.to_nat (if 0 <? 0 then 0 else NVD_SYNC_MAX_PAGES)) (clamp_per_page rpp) (Some sb) e 0 sync_counts0 w c Hf) as Hw.
    destruct (window_loop _ _ _ _ _ _ _ _ _ _ c) as [[[st1 n] w1] c1]. destruct (negb _); [by intros [= _ _ <- _]|]. intros E. apply IH in E. by etransitivity.
  - destruct (negb _); [by intros [= _ _ <- _]|]. apply IH.
Qed.

Lemma catchup_world fetch_page rpp now w (c : C) st out w' c' :
  (forall a b d w, settled w (fetch_page a b d w)) -> catchup json_parse fetch_page free_body rpp now w c = Some (st, out, w', c') -> R w w'.
Proof.
  intros Hf. unfold catchup. destruct (nonempty now); [|by intros [= _ _ <- _]]. destruct (parse_instant _); [|by intros [= _ _ <- _]].
  destruct (read_watermark c) as [[wm|] c1]; [|by intros [= _ _ <- _]]. destruct (starting_point wm) as [[cur wd]|]; [|by intros [= _ _ <- _]].
  by apply catchup_loop_world.
Qed.

Lemma kev_world fetch now today url w (c : C) :
  (forall u w, settled w (fetch u w)) -> let '(_, _, w', _) := kev_sync json_parse fetch free_body now today url w c in R w w'.
Proof.
  intros Hf. unfold kev_sync. cbv zeta. pose proof (Hf (default KEV_DEFAULT_URL (nonempty url)) w) as Hw. unfold settled in Hw.
  destruct (fetch _ w) as [[body|] w1]; [|exact Hw]. destruct (kev_ingest _ _ _ _ _ c) as [[st n] c1]. by destruct (negb _).
Qed.

Lemma epss_loop_world fetch now today pages page url limit offset out w (c : C) :
  (forall u w, settled w (fetch u w)) -> let '(_, _, w', _) := epss_loop json_parse fetch free_body now today pages page url limit offset out w c in R w w'.
Proof.
  intros Hf. induction pages as [|pages IH] in page, offset, out, w, c |- *; cbn [epss_loop]; [done|].
  destruct (build_page_url url limit offset) as [u|]; [|done]. pose proof (Hf u w) as Hw. unfold settled in Hw. destruct (fetch u w) as [[body|] w1]; [|exact Hw].
  destruct (parse_envelope json_parse body) as [[total n]|]; [|exact Hw]. cbv zeta. destruct (_ && _); [exact Hw|].
  destruct (epss_ingest _ _ _ _ _ c) as [[st k] c1]. destruct (negb _); [exact Hw|]. destruct (total <=? _); [exact Hw|].
  specialize (IH (page + 1) (offset + n) (add_feed_page k out) (free_body body w1) c1). destruct (epss_loop _ _ _ _ _ _ _ _ _ _ _ _ c1) as [[[? ?] w2] ?]. by etransitivity.
Qed.

Lemma epss_world fetch now today url size w (c : C) :
  (forall u w, settled w (fetch u w)) -> let '(_, _, w', _) := epss_sync json_parse fetch free_body now today url size w c in R w w'.
Proof. intros Hf. unfold epss_sync. by apply epss_loop_world. Qed.
End Worlds.

(** ** Lemmas: the database *)

Section Idle.
Context {C W : Type} `{SqliteLaws C}.
Variable json_parse : bytes -> option json.
Variable free_body : option bytes -> W -> W.

(** A catch-up that succeeds leaves no transaction open. *)
Lemma catchup_loop_idle fetch_page fuel rpp wd now cursor out (w : W) (c : C) out' w' c' :
  in_tx c = false -> catchup_loop json_parse fetch_page free_body fuel rpp wd now cursor out w c = Some (CATCHUP_OK, out', w', c') -> in_tx c' = false.
Proof.
  induction fuel as [|fuel IH] in cursor, out, w, c |- *; intros Ht; cbn [catchup_loop]; (destruct (negb _); [by intros [= _ _ <-]|]); [done|].
  destruct (_ <=? _); [done|]. destruct (format_instant cursor) as [sb|]; [|done]. destruct (format_instant _) as [eb|]; [|done].
  pose proof (sync_window_effect json_parse fetch_page free_body rpp (Some sb) (Some eb) 0 sync_counts0 w c Ht) as Hw.
  destruct (sync_window _ _ _ _ _ _ _ _ _ c) as [[[st n] w1] c1]. destruct Hw as (_ & _ & _ & _ & Hok). case_bool_decide as Hst; cbn [negb]; [|done].
  apply IH. by apply Hok.
Qed.

Lemma catchup_idle fetch_page rpp now (w : W) (c : C) out w' c' :
  in_tx c = false -> catchup json_parse fetch_page free_body rpp now w c = Some (CATCHUP_OK, out, w', c') -> in_tx c' = false.
Proof.
  intros Ht. unfold catchup. destruct (nonempty now); [|done]. destruct (parse_instant _); [|done].
  destruct (read_watermark c) as [[wm|] c1] eqn:Er; [|done]. apply (read_watermark_effect c c1 _ Ht) in Er as [_ Hr]. destruct (Hr wm eq_refl) as (Ht1 & _).
  destruct (starting_point wm) as [[cur wd]|]; [|done]. by apply catchup_loop_idle.
Qed.

(** So does a pull of the KEV catalogue, whose watermark is then its day. *)
Lemma kev_idle fetch now today url (w : W) (c : C) out w' c' :
  in_tx c = false -> kev_sync json_parse fetch free_body now today url w c = (SYNC_OK, out, w', c') ->
  in_tx c' = false /\ forall wm, feed_watermark (bs "kev") (durable c') = Some wm -> wm = Some (today 0).
Proof.
  intros Ht. unfold kev_sync. cbv zeta. destruct (fetch _ w) as [[body|] w1]; [|done].
  pose proof (ingest_pull (R := kev_row) json_parse (now 0) (today 0) body true c Ht) as HI. unfold kev_ingest.
  destruct (feed_ingest _ _ _ _ _ c) as [[st n] c1]. destruct HI as (_ & _ & Hok). case_bool_decide as Hst; cbn [negb]; [|done].
  intros [= _ _ <-]. destruct (Hok Hst) as (Ht1 & Hw & _). split; [done|]. intros wm. change (feed_name) with (bs "kev") in Hw. rewrite Hw.
  destruct (db_sync (durable c) !! bs "kev"); [|done]. by intros [= <-].
Qed.
End Idle.

(** ** Lemmas: the configuration *)

Lemma build_fetch_config_ok e : config_ok (build_fetch_config e) /\ 0 <= max_retries (build_fetch_config e) <= SYNC_CMD_MAX_RETRIES_CAP.
Proof.
  split; [split; cbn; unfold NVD_FETCH_DEFAULT_MAX_BODY_BYTES; lia|]. unfold build_fetch_config, SYNC_CMD_MAX_RETRIES_CAP. cbn [max_retries config_init_default].
  destruct (nonempty (se_nvd_max_retries e)) as [text|]; [|lia]. destruct (env_long text) as [v|]; [|lia].
  destruct (Z.leb_spec 0 v); [|lia]. destruct (Z.ltb_spec 20 v); lia.
Qed.

(** ** The run *)

Section Confined.
Context {C V : Type} `{SqliteLaws C}.
Variable sqlite3_open : bytes -> bool * C.
Variable pragma : string -> C -> bool * C.
Variable migration_time : Z -> option bytes.
Variable json_parse : bytes -> option json.
Variable kev_now epss_now : Z -> nat -> option bytes.
Variable kev_today epss_today : Z -> bytes.
Variable curl_easy_init : V -> bool * V.
Variable curl_easy_escape : bytes -> option bytes.
Variable curl_setopt_ok : critical_option -> bool.
Variable curl_perform : NvdFetch.request -> V -> transfer * V.
Variable api_key : option bytes.
Variable seed : Z -> V -> Z.
Variable sleep_ms : Z -> V -> V.

(** A piece curl delivers is one object, and a connection that was just opened
    is outside a transaction. *)
Hypothesis chunks_fit : forall r v, Forall (fun chunk : bytes => Z.of_nat (length chunk) < 2 ^ 63) (t_chunks (fst (curl_perform r v))).
Hypothesis opens_idle : forall p s0 s, sqlite3_open p = (true, s0) -> apply_connection_setup pragma s0 = (true, s) ->
  in_tx s = false.

(** A wait within the limits; a request of the NVD, which may carry the key, or
    one of a feed, whose only header of ours is the User-Agent. *)
Definition event_confined (cfg : fetch_config) (ev : fetch_event) : Prop :=
  match ev with
  | Slept ms => 0 < ms <= wait_limit cfg
  | Requested r _ =>
      (request_safe curl_setopt_ok api_key (r_url r) true r /\ exists rest, r_url r = default [] (base_url cfg) ++ rest) \/
      (request_safe curl_setopt_ok api_key (r_url r) false r /\ sent_headers r = [bs "User-Agent: cytadel-scan-nvd-sync/1.0"])
  end.

(** What a fetch, with the release of its body, does to the world. *)
Definition fetch_step (cfg : fetch_config) (w w' : sync_world (V := V)) : Prop :=
  live (sw_heap w') = live (sw_heap w) /\ exists evs, sw_events w' = sw_events w ++ evs /\ Forall (event_confined cfg) evs.

#[local] Instance fetch_step_preorder cfg : PreOrder (fetch_step cfg).
Proof.
  split.
  - intros w. split; [done|]. exists []. by rewrite app_nil_r.
  - intros w1 w2 w3 [H1 (e1 & E1 & F1)] [H2 (e2 & E2 & F2)]. split; [congruence|]. exists (e1 ++ e2). rewrite E2, E1, app_assoc. split; [done|by apply Forall_app].
Qed.

Lemma delivered_step cfg out w :
  fetch_ends cfg (sw_heap w) out ->
  (forall st body v' evs h' r t, out = Some (st, body, (v', evs), h') -> Requested r t ∈ evs -> event_confined cfg (Requested r t)) ->
  settled free_body (fetch_step cfg) w (delivered out w).
Proof.
  intros (st & body & v' & evs & h' & -> & _ & Hs & Hl & Hno & _) Hr. cbn [delivered].
  assert (Hevs : Forall (event_confined cfg) evs) by (apply Forall_forall; intros [r t|ms] Hin; [by eapply Hr|by apply Hs]).
  unfold settled. case_bool_decide as Hst; (split; [|by exists evs]); cbn [free_body sw_heap].
  - destruct body; cbn in *; lia.
  - rewrite (Hno Hst) in Hl. cbn in Hl. lia.
Qed.

Lemma fetch_feed_step cfg url w : config_ok cfg ->
  settled free_body (fetch_step cfg) w (fetch_feed curl_easy_init curl_setopt_ok curl_perform api_key seed sleep_ms cfg url w).
Proof.
  intros Hc. unfold fetch_feed. apply delivered_step; unfold get_logged, nvd_fetch_get; destruct url as [|c url].
  - by apply refused_ends.
  - by apply (retry_ends _ curl_easy_escape _ _ _ _ _ chunks_fit cfg (c :: url) false).
  - intros st body v' evs h' r t [= <- <- <- <- <-] Hin. by apply elem_of_nil in Hin.
  - intros st body v' evs h' r t E Hin. right.
    pose proof (proj2 (retry_ends _ curl_easy_escape _ _ _ _ _ chunks_fit cfg (c :: url) false (sw_curl w) (sw_heap w) Hc) _ _ _ _ _ E r t Hin) as Hs.
    assert (Hu : r_url r = c :: url) by apply Hs. rewrite Hu. split; [exact Hs|]. by eapply feed_headers.
Qed.

Lemma fetch_page_step cfg si sd ed w : config_ok cfg ->
  settled free_body (fetch_step cfg) w (fetch_nvd_page curl_easy_init curl_easy_escape curl_setopt_ok curl_perform api_key seed sleep_ms cfg si sd ed w).
Proof.
  intros Hc. unfold fetch_nvd_page.
  destruct (page_cases curl_easy_init curl_easy_escape curl_setopt_ok curl_perform api_key seed sleep_ms cfg si sd ed (sw_curl w) (sw_heap w))
    as [(st & v' & h1 & Hst & Hl & ->)|(url & v' & h1 & [rest Hu] & Hl & ->)]; apply delivered_step.
  - by apply refused_ends.
  - intros st2 body v2 evs h' r t [= <- <- <- <- <-] Hin. by apply elem_of_nil in Hin.
  - eapply fetch_ends_live; [exact Hl|]. by apply (retry_ends _ curl_easy_escape _ _ _ _ _ chunks_fit cfg url true).
  - intros st body v2 evs h' r t E Hin. left.
    pose proof (proj2 (retry_ends _ curl_easy_escape _ _ _ _ _ chunks_fit cfg url true v' h1 Hc) _ _ _ _ _ E r t Hin) as Hs.
    assert (Hr : r_url r = url) by apply Hs. rewrite Hr. split; [exact Hs|by exists rest].
Qed.

Abbreviation run := (sync_run sqlite3_open pragma migration_time json_parse kev_now epss_now kev_today epss_today curl_easy_init curl_easy_escape
  curl_setopt_ok curl_perform api_key seed sleep_ms).

(** What has to be there before anything is fetched: the database of this run,
    open and migrated, and the time. *)
Definition sync_ready (args : sync_cmd_args) (e : sync_env) (clock : option (Z * Z)) : Prop :=
  exists path s0 s c1 now, resolve_db_path args e = Some path /\ sqlite3_open path = (true, s0) /\
    apply_connection_setup pragma s0 = (true, s) /\ migrations_run migration_time s = (DB_OK, c1) /\ resolve_now args clock = Some now.

(** C22: The sync command always ends, confined, and reports what happened.
    Whatever the options, the environment, the peers and the database file
    are, the run returns; the handle of the database is closed and no block
    stays allocated on any path, every body that a fetch delivers being freed
    by the driver it went to.  Unless the database it was asked for is open
    and migrated and there is a time, nothing is fetched and the command
    fails.  The retries of a fetch are configured to 20 at most, whatever the
    environment asks for; every wait is positive and at most a minute, and
    every request verifies its peer and follows no redirect: those of the NVD
    go to the configured endpoint and carry the key only over https, those of
    the other feeds have no header of ours but the fixed User-Agent.  The exit
    code is success exactly when all three feeds were pulled, and then the
    watermarks of KEV and EPSS are days of this run. *)
Theorem sync_run_confined args e clock (v : V) h :
  exists o, run args e clock v h = Some o /\ so_handles o = 0 /\ live (sw_heap (so_world o)) = live h /\
    (so_feeds o = None -> so_success o = false /\ sw_events (so_world o) = []) /\ (so_feeds o <> None -> sync_ready args e clock) /\
    0 <= max_retries (build_fetch_config e) <= 20 /\ wait_limit (build_fetch_config e) = 60000 /\
    Forall (event_confined (build_fetch_config e)) (sw_events (so_world o)) /\
    (so_success o = true <-> so_feeds o = Some (CATCHUP_OK, SYNC_OK, SYNC_OK)) /\
    (so_success o = true -> exists c, so_conn o = Some c /\
       (forall wm, feed_watermark (bs "kev") (durable c) = Some wm -> wm = Some (kev_today 0)) /\
       (forall wm, feed_watermark (bs "epss") (durable c) = Some wm -> exists k, wm = Some (epss_today k))).
Proof.
  destruct (build_fetch_config_ok e) as [Hcfg Hret].
  assert (Hfail : forall handles h', handles = 0 -> live h' = live h ->
    exists o, Some (SyncOutcome false None (@None C) handles (SyncWorld v [] h')) = Some o /\ so_handles o = 0 /\ live (sw_heap (so_world o)) = live h /\
      (so_feeds o = None -> so_success o = false /\ sw_events (so_world o) = []) /\ (so_feeds o <> None -> sync_ready args e clock) /\
      0 <= max_retries (build_fetch_config e) <= 20 /\ wait_limit (build_fetch_config e) = 60000 /\
      Forall (event_confined (build_fetch_config e)) (sw_events (so_world o)) /\
      (so_success o = true <-> so_feeds o = Some (CATCHUP_OK, SYNC_OK, SYNC_OK)) /\
      (so_success o = true -> exists c, so_conn o = Some c /\
         (forall wm, feed_watermark (bs "kev") (durable c) = Some wm -> wm = Some (kev_today 0)) /\
         (forall wm, feed_watermark (bs "epss") (durable c) = Some wm -> exists k, wm = Some (epss_today k)))).
  { intros handles h' -> Hl. eexists. split; [reflexivity|]. cbn [so_handles so_world so_feeds so_success sw_heap sw_events]. split_and!; try (done || exact Hl || apply Hret || by apply Forall_nil). }
  unfold sync_run. destruct (resolve_db_path args e) as [path|] eqn:Epath; [|by apply Hfail]. cbv zeta.
  pose proof (db_open_all_or_nothing sqlite3_open pragma (Some path) h) as Ho. destruct (db_open _ _ _ _) as [[[st db] handles] h1].
  destruct Ho as (Hst & Hno & Hyes). destruct db as [c|].
  2: { assert (st <> DB_OK) as Hne by (intros E; by destruct (proj1 Hst E)). destruct (Hno Hne) as (_ & -> & Hl). by apply Hfail. }
  destruct (Hyes c eq_refl) as (-> & Hl & p & s0 & _ & Ep & _ & E0 & _ & Es & _). injection Ep as <-. pose proof (opens_idle _ _ _ E0 Es) as Ht.
  pose proof (fun c1 Ht E => proj1 (migrations_run_kept migration_time c c1 Ht E)) as Hm. destruct (migrations_run migration_time c) as [st1 c1] eqn:Emig.
  case_bool_decide as Hst1; cbn [negb]; [|apply Hfail; cbn; lia]. subst st1. pose proof (Hm c1 Ht eq_refl) as Ht1.
  destruct (resolve_now args clock) as [now|] eqn:Enow; [|apply Hfail; cbn; lia].
  assert (Hready : sync_ready args e clock) by (by exists path, s0, c, c1, now).
  set (cfg := build_fetch_config e) in *. set (fp := fetch_nvd_page _ _ _ _ _ _ _ cfg). set (ff := fetch_feed _ _ _ _ _ _ cfg).
  assert (Hfp : forall a b d w, settled free_body (fetch_step cfg) w (fp a b d w)) by (intros; by apply fetch_page_step).
  assert (Hff : forall u w, settled free_body (fetch_step cfg) w (ff u w)) by (intros; by apply fetch_feed_step).
  destruct (catchup_terminates json_parse fp free_body (results_per_page cfg) (Some now) (SyncWorld v [] h1) c1) as (nst & nout & w1 & c2 & En).
  rewrite En. cbn [mbind option_bind]. pose proof (catchup_world json_parse free_body (fetch_step cfg) fp _ _ _ _ _ _ _ _ Hfp En) as Hw1.
  pose proof (kev_world json_parse free_body (fetch_step cfg) ff kev_now kev_today (se_kev_url e) w1 c2 Hff) as Hw2.
  destruct (kev_sync json_parse ff free_body kev_now kev_today (se_kev_url e) w1 c2) as [[[kst kout] w2] c3] eqn:Ek.
  pose proof (epss_world json_parse free_body (fetch_step cfg) ff epss_now epss_today (se_epss_url e) (epss_page_size e) w2 c3 Hff) as Hw3.
  destruct (epss_sync json_parse ff free_body epss_now epss_today (se_epss_url e) (epss_page_size e) w2 c3) as [[[est eout] w3] c4] eqn:Ee.
  assert (Hw : fetch_step cfg (SyncWorld v [] h1) w3) by (etransitivity; [exact Hw1|]; by etransitivity).
  destruct Hw as [Hlive (evs & Hevs & Hsafe)]. cbn [sw_events sw_heap app] in Hevs, Hlive. cbn [db_close]. eexists. split; [reflexivity|].
  cbn [so_handles so_world so_feeds so_success so_conn sw_heap sw_events sw_curl live free_block].
  split; [done|]. split; [lia|]. split; [done|]. split; [done|]. split; [exact Hret|]. split; [done|]. split; [by rewrite Hevs|].
  rewrite !andb_true_iff, !bool_decide_eq_true. split.
  - split; [by intros [[-> ->] ->]|by intros [= -> -> ->]].
  - intros [[-> ->] ->]. exists c4. split; [done|].
    pose proof (catchup_idle json_parse free_body fp _ _ _ _ _ _ _ Ht1 En) as Ht2.
    destruct (kev_idle json_parse free_body ff kev_now kev_today _ _ _ _ _ _ Ht2 Ek) as [Ht3 Hkev].
    pose proof (epss_loop_spec json_parse ff free_body epss_now epss_today (Z.to_nat EPSS_SYNC_MAX_PAGES) 0 (default EPSS_DEFAULT_URL (nonempty (se_epss_url e)))
      (if 0 <? epss_page_size e then epss_page_size e else EPSS_SYNC_DEFAULT_PAGE_SIZE) 0 sync_counts0 w2 c3 Ht3) as HE.
    unfold epss_sync in Ee. cbv zeta in Ee. rewrite Ee in HE. destruct HE as ((_ & _ & Hother & _) & _ & Hok). split.
    + intros wm. unfold feed_watermark. rewrite Hother by done. apply Hkev.
    + destruct (Hok eq_refl) as (ps & _ & _ & _ & _ & Hwm). intros wm. rewrite Hwm. destruct (db_sync (durable c3) !! bs "epss"); [|done].
      intros [= <-]. by eexists.
Qed.
End Confined.

(** ** A run *)

(** Two documents, told apart by their first byte. *)
Definition example_parse (body : bytes) : option json := match body with 107 :: _ => example_catalogue body | _ => example_page 2 body end.

Definition example_peer (r : NvdFetch.request) (n : nat) : transfer * nat :=
  (Transfer [if bool_decide (r_url r = KEV_DEFAULT_URL) then bs "k" else bs "e"] true 200 None, S n).

Definition example_open (path : bytes) : bool * toy_conn := (true, fresh_conn []).
Definition example_env : sync_env := SyncEnv (Some (bs "scan.db")) None (Some (bs "999")) None None None.

Definition example_run : option (sync_outcome (C := toy_conn) (V := nat)) :=
  sync_run example_open (fun _ c => (true, c)) (fun _ => Some (bs "2024-01-01T00:00:00.000Z")) example_parse (fun _ => example_now) (fun _ => example_now)
    (fun _ => bs "2024-01-01") (fun _ => bs "2024-01-02") (fun n => (true, n)) (fun t => Some t) (fun _ => true) example_peer (Some (bs "secret"))
    (fun _ _ => 7) (fun _ n => n) (SyncCmdArgs None (Some (bs "1998-01-01"))) example_env None O (Heap [] 0).

Lemma sync_run_confined_witness :
  exists o, example_run = Some o /\ so_success o = true /\ so_handles o = 0 /\ so_feeds o = Some (CATCHUP_OK, SYNC_OK, SYNC_OK) /\
    length (sw_events (so_world o)) = 2%nat.
Proof.
  assert (Hfit : forall r v, Forall (fun chunk : bytes => Z.of_nat (length chunk) < 2 ^ 63) (t_chunks (fst (example_peer r v)))).
  { intros r v. apply Forall_singleton. unfold example_peer. cbn [fst t_chunks]. by case_bool_decide. }
  assert (Hfile : forall p s0 s, example_open p = (true, s0) -> apply_connection_setup (fun _ c => (true, c)) s0 = (true, s) ->
    in_tx s = false).
  { by intros p s0 s [= <-] [= <-]. }
  destruct (sync_run_confined example_open (fun _ c => (true, c)) (fun _ => Some (bs "2024-01-01T00:00:00.000Z")) example_parse (fun _ => example_now) (fun _ => example_now)
    (fun _ => bs "2024-01-01") (fun _ => bs "2024-01-02") (fun n => (true, n)) (fun t => Some t) (fun _ => true) example_peer (Some (bs "secret"))
    (fun _ _ => 7) (fun _ n => n) Hfit Hfile (SyncCmdArgs None (Some (bs "1998-01-01"))) example_env None O (Heap [] 0)) as (o & E & Hh & _ & _ & _ & _ & _ & _ & Hs & _).
  exists o. split; [exact E|].
  assert (Ef : (x ← example_run; Some (so_feeds x, length (sw_events (so_world x)))) = Some (Some (CATCHUP_OK, SYNC_OK, SYNC_OK), 2%nat)) by (vm_compute; reflexivity).
  unfold example_run in Ef. rewrite E in Ef. cbn [mbind option_bind] in Ef. injection Ef as Ef En. rewrite Ef in Hs.
  split; [by apply Hs|]. by split_and!.
Defined.
