(* ===== verification/ReportCmd.v ===== *)
(** * The report command ([src/src/cli/report_cmd.c],
    [src/src/report/report_scan_lookup.c])

    One run opens and migrates the database, finds the scan, renders the
    report into a buffer, closes the database and writes the buffer to a file
    or to standard output.  The theorem ties the report to the database file at
    the path.  What is printed on standard error is not modelled. *)

From S2P Require Import Prelude Escape Calendar Sqlite Migrations Cli Report ReportJson ReportHtml ReportPage.

#[local] Arguments bs : simpl never.

(** What the calls on the output answer: [fopen], how many bytes [fwrite] took,
    [fclose] or [fflush], how many bytes had reached the output when one of them
    failed, and [remove]. *)
Record file_io := FileIo { io_fopen : bool; io_written : nat; io_closed : bool; io_landed : nat; io_removed : bool }.

(** The file at [output_path] and standard output. *)
Record outputs := Outputs { out_file : option bytes; out_stdout : bytes }.

Record report_outcome := ReportOutcome { ro_success : bool; ro_outputs : outputs; ro_streams : Z; ro_handles : Z; ro_heap : heap }.

Section Run.
Context {C : Type} `{Sqlite C}.
Variable sqlite3_open : bytes -> bool * C.
Variable pragma : string -> C -> bool * C.
Variable migration_time : Z -> option bytes.
Variable view : database -> report_view.
(** [ORDER BY] of the findings and [ORDER BY started_at DESC] of the scans. *)
Variable order_findings : list stored_finding -> list stored_finding.
Variable order_scans : list scan_entry -> list scan_entry.
Variable logo : list bytes.

(** [cytadel_report_find_latest_scan_id] *)
Definition find_latest_scan_id (c : C) : report_status * option Z * C :=
  let '(ok, c) := sql_prepare c in
  if negb ok then (REPORT_ERR_DB, None, c) else
  let '(ok, c) := sql_read c in
  if negb ok then (REPORT_ERR_DB, None, c) else
  match order_scans (view_scans (view (current c))) with
  | [] => (REPORT_ERR_NOT_FOUND, None, c)
  | s :: _ => (REPORT_OK, Some (scan_id s.1), c)
  end.

(** [cytadel_report_cmd_resolve_scan_id] *)
Definition resolve_scan_id (args : report_cmd_args) (c : C) : report_status * option Z * C :=
  match report_scan_id args with
  | Some id => (REPORT_OK, Some id, c)
  | None => find_latest_scan_id c
  end.

(** [cytadel_report_cmd_render] *)
Definition cmd_render (id : Z) (f : report_format) (c : C) (out : sink) : report_status * C * sink :=
  match f with
  | FORMAT_HTML => report_html view order_findings logo id c out
  | FORMAT_JSON => report_json view order_findings id c out
  end.

(** Writing the buffer: whether all of it is written, the outputs, and the
    streams that are open. *)
Definition write_report (path : option bytes) (data : bytes) (io : file_io) (o : outputs) : bool * outputs :=
  let write_ok := Nat.eqb (length data) 0 || Nat.eqb (Nat.min (io_written io) (length data)) (length data) in
  let write_ok := if io_closed io then write_ok else false in
  let landed := if write_ok then data else take (io_landed io) data in
  match path with
  | Some _ => (write_ok, Outputs (Some landed) (out_stdout o))
  | None => (write_ok, Outputs (out_file o) (out_stdout o ++ landed))
  end.

(** [cytadel_report_cmd_run] of arguments that are not NULL; [db_path] is the
    environment variable. *)
Definition report_run (args : report_cmd_args) (db_path : option bytes) (io : file_io) (o : outputs) (h : heap) : report_outcome :=
  let failed := ReportOutcome false in
  match db_path with
  | None | Some [] => failed o 0 0 h
  | Some _ =>
      let '(db_status, db, handles, h) := db_open sqlite3_open pragma db_path h in
      match db with
      | None => failed o 0 handles h
      | Some c =>
          let '(db_status, c) := migrations_run migration_time c in
          if negb (bool_decide (db_status = DB_OK)) then let '(handles, h) := db_close (Some c) handles h in failed o 0 handles h else
          let '(status, id, c) := resolve_scan_id args c in
          match id with
          | None => let '(handles, h) := db_close (Some c) handles h in failed o 0 handles h
          | Some id =>
              let '(status, c, out) := cmd_render id (format args) c (report_buf_init, h) in
              let '(handles, h) := db_close (Some c) handles (snd out) in
              let out := (fst out, h) in
              if negb (bool_decide (status = REPORT_OK)) then failed o 0 handles (snd (report_buf_free out)) else
              let to_file := bool_decide (is_Some (output_path args)) in
              if to_file && negb (io_fopen io) then failed o 0 handles (snd (report_buf_free out)) else
              let streams := if to_file then 1 else 0 in
              let '(write_ok, o) := write_report (output_path args) (buf_data (fst out)) io o in
              let streams := if to_file then streams - 1 else streams in
              let h := snd (report_buf_free out) in
              if write_ok then ReportOutcome true o streams handles h else
              failed (if to_file && io_removed io then Outputs None (out_stdout o) else o) streams handles h
          end
      end
  end.
End Run.

(** ** Lemmas *)

Definition started_before (a b : scan_entry) : Prop := bytes_le (started_at b.2) (started_at a.2).

(** The text of a report. *)
Definition report_text (logo : list bytes) (f : report_format) (s : scan_entry) (fs : list stored_finding) : bytes :=
  match f with FORMAT_HTML => page_text logo s fs | FORMAT_JSON => json_text (report_value s fs) end.

Section Whole.
Context {C : Type} `{SqliteLaws C}.
Variable sqlite3_open : bytes -> bool * C.
Variable pragma : string -> C -> bool * C.
Variable migration_time : Z -> option bytes.
Variable view : database -> report_view.
Variable order_findings : list stored_finding -> list stored_finding.
Variable order_scans : list scan_entry -> list scan_entry.
Variable logo : list bytes.

(** A connection that was just opened is outside a transaction, as SQLite
    documents, and the findings in the file satisfy the CHECK constraints of
    their table; otherwise the file is any.  A view has the findings of its
    database; what the two [ORDER BY] promise. *)
Definition results_ok (d : database) : Prop := Forall result_checks (db_results d) /\ Z.of_nat (length (db_results d)) < 2 ^ 50.

Hypothesis known_file : forall p s0 s, sqlite3_open p = (true, s0) -> apply_connection_setup pragma s0 = (true, s) ->
  in_tx s = false /\ results_ok (current s).
Hypothesis view_findings : forall d, map fst (view_results (view d)) = db_results d.
Hypothesis findings_permutation : forall l, Permutation (order_findings l) l.
Hypothesis scans_permutation : forall l, Permutation (order_scans l) l.
Hypothesis scans_sorted : forall l, StronglySorted started_before (order_scans l).

Lemma results_kept d d' : rows_kept d d' -> results_ok d -> results_ok d'.
Proof. intros (_ & _ & _ & _ & _ & H1 & _) [H2 H3]. unfold results_ok. by rewrite H1. Qed.

(** The scan the command is asked for. *)
Definition asked_for (args : report_cmd_args) (d : database) (id : Z) : Prop :=
  match report_scan_id args with
  | Some n => id = n
  | None => exists s, s ∈ view_scans (view d) /\ scan_id s.1 = id /\ forall s', s' ∈ view_scans (view d) -> started_before s s'
  end.

Lemma resolve_scan_id_spec args (c : C) st id c' :
  in_tx c = false -> resolve_scan_id view order_scans args c = (st, id, c') ->
  same_conn c c' /\ (st = REPORT_OK <-> is_Some id) /\ forall n, id = Some n -> asked_for args (current c) n.
Proof.
  intros Ht. unfold resolve_scan_id, asked_for. destruct (report_scan_id args) as [n|].
  { intros [= <- <- <-]. split; [apply same_conn_refl|]. split; [split; [by eexists|done]|]. by intros ? [= ->]. }
  unfold find_latest_scan_id. destruct (sql_prepare c) as [[] c1] eqn:E1; pose proof (idle_prepare _ _ _ Ht E1) as H1; cbn [negb].
  2: { intros [= <- <- <-]. split; [done|]. split; [split; [done|by intros [? ?]]|done]. }
  pose proof (same_conn_idle _ _ H1 Ht) as Ht1. destruct (sql_read c1) as [[] c2] eqn:E2; pose proof (idle_read _ _ _ Ht1 E2) as H2; cbn [negb];
    pose proof (same_conn_trans _ _ _ H1 H2) as H12.
  2: { intros [= <- <- <-]. split; [done|]. split; [split; [done|by intros [? ?]]|done]. }
  assert (Hcur : current c2 = current c) by apply H12. rewrite Hcur.
  pose proof (scans_permutation (view_scans (view (current c)))) as Hp. pose proof (scans_sorted (view_scans (view (current c)))) as Hs.
  destruct (order_scans _) as [|s l]; intros [= <- <- <-]; (split; [done|]).
  - split; [split; [done|by intros [? ?]]|done].
  - split; [split; [by eexists|done]|]. intros n [= <-]. exists s. split; [rewrite <- Hp; by left|]. split; [done|].
    intros s' Hin. rewrite <- Hp in Hin. apply StronglySorted_inv in Hs as [_ Hall]. apply elem_of_cons in Hin as [->|Hin].
    + unfold started_before, bytes_le. by destruct (bytes_leb_total (started_at s.2) (started_at s.2)).
    + rewrite Forall_forall in Hall. by apply Hall.
Qed.

(** A render that is OK is the whole text; a render leaves the connection alone
    and no block but its buffer. *)
Lemma cmd_render_spec id f (c : C) h :
  let fs := order_findings (scan_findings view (current c) id) in
  in_tx c = false -> results_ok (current c) ->
  let '(r, c', out) := cmd_render view order_findings logo id f c (report_buf_init, h) in
  same_conn c c' /\ live (snd out) = live h + owned (fst out) /\
  (r = REPORT_OK -> exists s, find_scan view (current c) id = Some s /\ buf_data (fst out) = report_text logo f s fs).
Proof.
  intros fs Ht [Hall Hn]. rewrite <- view_findings in Hall, Hn. rewrite length_map in Hn. apply (Forall_fmap fst result_checks) in Hall.
  assert (Hfs : Forall (fun f => result_checks f.1) fs).
  { apply Forall_forall. intros x Hx. unfold fs in Hx. rewrite findings_permutation in Hx. rewrite Forall_forall in Hall. apply Hall.
    apply list_elem_of_In, filter_In in Hx as [Hx _]. by apply list_elem_of_In. }
  assert (Hlen : Z.of_nat (length fs) < 2 ^ 50).
  { unfold fs. rewrite (Permutation_length (findings_permutation _)). eapply Z.le_lt_trans; [|exact Hn]. apply inj_le, List.filter_length_le. }
  destruct f; cbn [cmd_render report_text].
  - pose proof (report_html_renders view order_findings logo id c report_buf_init h Ht ltac:(by left) (findings_permutation _) Hfs Hlen) as Hr.
    destruct (report_html _ _ _ _ _ _) as [[r c'] out]. destruct Hr as (Hc & [_ Hl] & Hr). cbn [fst snd] in Hl. change (owned report_buf_init) with 0 in Hl.
    split; [done|]. split; [lia|]. by intros ->.
  - destruct (find_scan view (current c) id) as [s|] eqn:Es; [destruct (Z.leb_spec id 0) as [Hid|Hid]|].
    + pose proof (report_json_refuses view order_findings id c (report_buf_init, h) Ht ltac:(by left) (or_introl Hid)) as Hr.
      destruct (report_json _ _ _ _ _) as [[r c'] out]. destruct Hr as (Hc & [_ Hl] & Hr). cbn [fst snd] in Hl. change (owned report_buf_init) with 0 in Hl.
      split; [done|]. split; [lia|]. intros ->. by destruct Hr as [[? _]|(? & [?|[?|[? _]]])].
    + pose proof (report_json_renders view order_findings id c (report_buf_init, h) s Hid Ht ltac:(by left) Es (findings_permutation _) Hfs) as Hr.
      destruct (report_json _ _ _ _ _) as [[r c'] out]. destruct Hr as [Hc Hr]. split; [done|].
      destruct Hr as [[-> Hp]|[[_ Hl] Hr]].
      * pose proof (progress_whole _ _ _ Hp) as Hd. destruct (progress_balanced _ _ _ _ Hp) as [_ Hl]. cbn [fst snd] in Hl, Hd. change (owned report_buf_init) with 0 in Hl.
        split; [lia|]. intros _. exists s. split; [done|]. by rewrite Hd.
      * cbn [fst snd] in Hl. change (owned report_buf_init) with 0 in Hl. split; [lia|]. intros ->. by destruct Hr as [?|[? _]].
    + pose proof (report_json_refuses view order_findings id c (report_buf_init, h) Ht ltac:(by left) (or_intror Es)) as Hr.
      destruct (report_json _ _ _ _ _) as [[r c'] out]. destruct Hr as (Hc & [_ Hl] & Hr). cbn [fst snd] in Hl. change (owned report_buf_init) with 0 in Hl.
      split; [done|]. split; [lia|]. intros ->. by destruct Hr as [[? _]|(? & [?|[?|[? _]]])].
Qed.

Lemma buf_free_live b h : live (snd (report_buf_free (b, h))) = live h - owned b.
Proof. unfold report_buf_free, owned. cbn [fst snd]. destruct (buf_cap b =? 0); cbn; lia. Qed.

(** ** Theorem *)

Abbreviation run := (report_run sqlite3_open pragma migration_time view order_findings order_scans logo).

(** The report the command is asked for, in the database at the path, as it is
    once migrated. *)
Definition asked_report (args : report_cmd_args) (db_path : option bytes) (text : bytes) : Prop :=
  exists path s0 s c id sc,
    db_path = Some path /\ sqlite3_open path = (true, s0) /\ apply_connection_setup pragma s0 = (true, s) /\
    migrations_run migration_time s = (DB_OK, c) /\ rows_kept (current s) (current c) /\
    asked_for args (current c) id /\ find_scan view (current c) id = Some sc /\
    text = report_text logo (format args) sc (order_findings (scan_findings view (current c) id)).

(** What a run that failed leaves: nothing, or the beginning of the report,
    which of a file is removed. *)
Definition failed_outputs (args : report_cmd_args) (db_path : option bytes) (io : file_io) (o o' : outputs) : Prop :=
  o' = o \/ exists text part, asked_report args db_path text /\ part `prefix_of` text /\
    o' = match output_path args with
         | Some _ => Outputs (if io_removed io then None else Some part) (out_stdout o)
         | None => Outputs (out_file o) (out_stdout o ++ part)
         end.

(** The end of the run: the buffer has the report. *)
Lemma write_report_spec args db_path text io o :
  asked_report args db_path text ->
  let '(ok, o') := write_report (output_path args) text io o in
  if ok then o' = match output_path args with Some _ => Outputs (Some text) (out_stdout o) | None => Outputs (out_file o) (out_stdout o ++ text) end
  else failed_outputs args db_path io o
         (if bool_decide (is_Some (output_path args)) && io_removed io then Outputs None (out_stdout o') else o').
Proof.
  intros Ht. unfold write_report. set (ok := if io_closed io then _ else false). clearbody ok.
  assert (Hpre : take (io_landed io) text `prefix_of` text) by (exists (drop (io_landed io) text); by rewrite take_drop).
  destruct (output_path args) as [out_path|] eqn:Eo, ok; cbv beta iota zeta; try done;
    right; exists text, (take (io_landed io) text); (split; [done|]; split; [done|]); rewrite Eo; [|done]. by destruct (io_removed io).
Qed.

Lemma asked_report_intro args path s0 s c c' id sc st :
  in_tx s = false -> sqlite3_open path = (true, s0) -> apply_connection_setup pragma s0 = (true, s) ->
  migrations_run migration_time s = (DB_OK, c) -> resolve_scan_id view order_scans args c = (st, Some id, c') ->
  find_scan view (current c) id = Some sc ->
  asked_report args (Some path) (report_text logo (format args) sc (order_findings (scan_findings view (current c) id))).
Proof.
  intros Ht E0 Es Em Er Hs. destruct (migrations_run_kept migration_time s c Ht Em) as [Ht1 Hk]. destruct (resolve_scan_id_spec _ _ _ _ _ Ht1 Er) as (_ & _ & Hid).
  exists path, s0, s, c, id, sc. split_and!; try done. by apply Hid.
Qed.

(** C7: A report is delivered whole, and a file of it whole or not at all.
    Take any database whose findings satisfy the CHECK constraints of their
    table and are fewer than 2^50.  The command succeeds only with the complete report of the scan it was asked
    for, the given one or one that no scan was started after, read from the
    database at the path it was given, as the migrations left it with every
    row that was there; the report is in the file of [-o] and standard output
    is untouched, or it is on standard output and no file is touched.  A run
    that fails leaves the outputs as they were, or it was writing that report:
    then the file is removed, and holds a beginning of the report only if
    removing it failed as well, while on standard output a beginning of the
    report can be left.  On every path the database and the file are closed
    and no block stays allocated. *)
Theorem report_run_whole args db_path io o h :
  let r := run args db_path io o h in
  ro_handles r = 0 /\ ro_streams r = 0 /\ live (ro_heap r) = live h /\
  (ro_success r = true -> exists text, asked_report args db_path text /\
     ro_outputs r = match output_path args with Some _ => Outputs (Some text) (out_stdout o) | None => Outputs (out_file o) (out_stdout o ++ text) end) /\
  (ro_success r = false -> failed_outputs args db_path io o (ro_outputs r)).
Proof.
  cbv zeta. unfold report_run. destruct db_path as [[|b path]|]; [split_and!; try done; by left| |split_and!; try done; by left].
  pose proof (db_open_all_or_nothing sqlite3_open pragma (Some (b :: path)) h) as Ho. destruct (db_open _ _ _ _) as [[[st db] handles] h1].
  destruct Ho as (Hst & Hno & Hyes). destruct db as [c|].
  2: { assert (st <> DB_OK) as Hne by (intros E; by destruct (proj1 Hst E)). destruct (Hno Hne) as (_ & -> & Hl). split_and!; try done; by left. }
  destruct (Hyes c eq_refl) as (-> & Hl & p & s0 & _ & [= <-] & _ & E0 & _ & Es & _). destruct (known_file _ _ _ E0 Es) as (Ht & Hrows).
  destruct (migrations_run migration_time c) as [st1 c1] eqn:Em.
  case_bool_decide as Hst1; cbn [negb db_close]; [subst st1|split_and!; [done|done|cbn; lia|done|by left]].
  destruct (migrations_run_kept _ _ _ Ht Em) as [Ht1 Hkept]. apply (results_kept _ _ Hkept) in Hrows.
  destruct (resolve_scan_id view order_scans args c1) as [[st2 id] c2] eqn:Er. destruct (resolve_scan_id_spec _ _ _ _ _ Ht1 Er) as (Hsame & _ & _).
  destruct id as [id|]; [|split_and!; [done|done|cbn; lia|done|by left]]. assert (Hcur : current c2 = current c1) by apply Hsame.
  pose proof (cmd_render_spec id (format args) c2 h1 (same_conn_idle _ _ Hsame Ht1) ltac:(by rewrite Hcur)) as Hr.
  destruct (cmd_render _ _ _ _ _ _ _) as [[st3 c3] [buf h2]]. destruct Hr as (_ & Hlive & Hok). cbn [fst snd] in Hlive, Hok.
  cbn [fst snd]. assert (Hfree : live (snd (report_buf_free (buf, free_block h2))) = live h) by (rewrite buf_free_live; cbn; lia).
  case_bool_decide as Hst3; cbn [negb]; [|split_and!; try done; by left]. destruct (Hok Hst3) as (s & Hs & Hdata). rewrite Hcur in Hs, Hdata.
  pose proof (write_report_spec args _ _ io o (asked_report_intro _ _ _ _ _ _ _ _ _ Ht E0 Es Em Er Hs)) as Hw. rewrite <- Hdata in Hw.
  pose proof (asked_report_intro _ _ _ _ _ _ _ _ _ Ht E0 Es Em Er Hs) as Hasked. rewrite <- Hdata in Hasked.
  destruct (bool_decide (is_Some (output_path args)) && negb (io_fopen io)); [split_and!; try done; by left|].
  destruct (write_report _ _ io o) as [ok o']. assert (Hz : (if bool_decide (is_Some (output_path args)) then (if bool_decide (is_Some (output_path args)) then 1 else 0) - 1 else
    if bool_decide (is_Some (output_path args)) then 1 else 0) = 0) by by case_bool_decide.
  destruct ok; cbn [ro_handles ro_streams ro_heap ro_success ro_outputs]; (split_and!; [done|exact Hz|exact Hfree|try done|try done]).
  intros _. by exists (buf_data buf).
Qed.
End Whole.

(** ** A run *)

#[local] Instance started_before_decision a b : Decision (started_before a b) := decide (bytes_leb (started_at b.2) (started_at a.2) = true).
#[local] Instance started_before_total : Total started_before := fun a b => bytes_leb_total _ _.
#[local] Instance started_before_trans : Transitive started_before := fun a b c H1 H2 => bytes_leb_trans _ _ _ H2 H1.

(** A file with a finished scan. *)
Definition example_file : database :=
  Database ∅ [] ∅ ∅ [ScanRow 7 (bs "192.0.2.0/24") (bs "ops") (bs "flag") (bs "completed") true 0]
    [example_result "192.0.2.9" "confirmed"] (db_sync (schema_after 3))
    (Schema (tables_at 3) (indexes_at 3) (map (fun m => (version m, description m, bs "2024-01-01T00:00:00.000Z")) MIGRATIONS)).

Definition example_run : report_outcome :=
  report_run (C := toy_conn) (fun _ => (true, ToyConn example_file None [])) (fun _ c => (true, c)) (fun _ => None) example_view example_order
    (merge_sort started_before) example_logo (ReportCmdArgs false (Some 7) FORMAT_JSON (Some (bs "r.json"))) (Some (bs "scan.db"))
    (FileIo true 100000 true 0 true) (Outputs None []) (Heap [] 0).

Lemma report_run_whole_witness :
  ro_success example_run = true /\ ro_handles example_run = 0 /\ live (ro_heap example_run) = 0 /\
  exists d sc, find_scan example_view d 7 = Some sc /\ db_results d = db_results example_file /\
    ro_outputs example_run = Outputs (Some (json_text (report_value sc (example_order (scan_findings example_view d 7))))) [].
Proof.
  assert (Hfile : forall (p : bytes) (s0 s : toy_conn), (fun _ : bytes => (true, ToyConn example_file None [])) p = (true, s0) ->
    apply_connection_setup (fun _ c => (true, c)) s0 = (true, s) -> in_tx s = false /\ results_ok (current s)).
  { intros p s0 s [= <-] [= <-]. split; [reflexivity|]. split; [|vm_compute; reflexivity].
    apply Forall_cons_2; [unfold result_checks; cbn; split_and!; try done; by right|]. apply Forall_nil_2. }
  assert (Hview : forall d, map fst (view_results (example_view d)) = db_results d).
  { intros d. unfold example_view. cbn [view_results]. rewrite map_map. apply map_id. }
  destruct (report_run_whole (C := toy_conn) (fun _ => (true, ToyConn example_file None [])) (fun _ c => (true, c)) (fun _ => None) example_view example_order
    (merge_sort started_before) example_logo Hfile Hview example_order_permutation (merge_sort_Permutation started_before)
    (StronglySorted_merge_sort started_before) (ReportCmdArgs false (Some 7) FORMAT_JSON (Some (bs "r.json"))) (Some (bs "scan.db"))
    (FileIo true 100000 true 0 true) (Outputs None []) (Heap [] 0)) as (Hh & _ & Hl & Hok & _). fold example_run in Hh, Hl, Hok.
  assert (Hs : ro_success example_run = true) by (vm_compute; reflexivity). split; [exact Hs|]. split; [exact Hh|]. split; [exact Hl|].
  destruct (Hok Hs) as (text & (path & s0 & s & c & id & sc & _ & [= <-] & [= <-] & _ & Hkept & Hasked & Hfind & ->) & Hout).
  change (id = 7) in Hasked. subst id. exists (current c), sc. split; [exact Hfind|]. split; [apply Hkept|exact Hout].
Defined.
